(* ===== verification/_CoqProject ===== *)
-Q . S2P
Prelude.v
Idr.v
IdrInv.v
IdrSpec.v
IdrWalk.v
Ida.v
IdaInv.v
IdaSpec.v
IpcUtil.v
SemOp.v
SemCtl.v
SemInv.v
SemConc.v
Msg.v
MsgInv.v
Bpf.v
BpfInv.v
IdrIpc.v
Timer.v
TimerInv.v
Rbtree.v
RbtreeInv.v
RbtreeSpec.v
Hrtimer.v
HrtimerInv.v
HrtimerArm.v
HrtimerSpec.v
HrtimerStale.v
TimerNext.v
TimerNextInv.v
TimerIdle.v
TimerIdleSpec.v
