(* ===== verification/Prelude.v ===== *)
(** * A verification of parts of Linux 2.6.35.4

    This library models components of the kernel under src/linux-2.6.35.4 as
    Rocq functions that keep the structure of the C code, and proves what makes
    them correct. Paths below are relative to that directory.

    ** The parts

    - System V IPC (ipc/): processes create semaphore sets and message queues
      under keys, find them by id, operate on them and sleep on them.
      ipc/util.c keeps the identifiers of both in an IDR.
    - The IDR (lib/idr.c): a radix tree that assigns small integers to pointers.
    - Socket filters (net/core/filter.c): programs of user space that the kernel
      checks, attaches to sockets and interprets on packets (net/core/skbuff.c).
    - The timer wheel (kernel/timer.c): per-CPU lists of timers by expiry, and
      the time at which an idle CPU has to wake up.
    - Red-black trees (lib/rbtree.c), and on them the high resolution timers
      (kernel/hrtimer.c), which program the event devices of the CPUs
      (kernel/time/tick-oneshot.c, clockevents.c, tick-sched.c).

    ** The files

    - Prelude.v: error numbers, machine integers ([u16], [s32], ... are the
      conversions to the C types of these widths), lists of entries, tactics
      ([zbool], [case_if]) and lemmas that the components share.
    - Idr.v: lib/idr.c and include/linux/idr.h. A layer of the tree is an object
      of a heap, so that links, the list of layers in reserve and freed layers
      are explicit; each function is named as in the source and reads and
      writes in its order; its loops are functions of their own ([sub_alloc_loop]
      in [sub_alloc], [remove_up] in [sub_remove], ...). [None] is a crash.
    - IdrInv.v: the invariant [idr_ok] of tree and reserve, and that every part
      of allocation and removal keeps it, for any notion of a full leaf.
    - IdrSpec.v: what allocation, preloading and removal do to the ids.
    - IdrWalk.v: replacement, iteration and clean-up, the behaviour for ids out
      of range, and examples.
    - Ida.v, IdaInv.v, IdaSpec.v: the id allocator of the same file, a bitmap in
      each leaf, on the functions of Idr.v.
    - IpcUtil.v: ipc/util.c and ipc/util.h: ids, sequence numbers, keys,
      permissions, the get system calls. The class [IdrOps] lists the operations
      of an IDR it uses and [IdrLaws] what it relies on; [RefIdr] is a finite map
      that satisfies them. [ids_wf] is the invariant of a set of identifiers.
    - SemOp.v: the heart of ipc/sem.c, one semaphore array: [try_atomic_semop],
      the queue of sleepers and the wake-up scan.
    - SemCtl.v: the system calls semget, semctl, semtimedop, clone and exit with
      their undo structures, on a namespace of arrays. Each call is composed of
      its sections, the parts from taking a lock to dropping it.
    - SemInv.v: the invariant [ns_wf] of a namespace, what a section may do to
      the others ([section_ok]), that each call keeps the invariant,
      [sem_reach], the namespaces sequences of calls reach, and the theorems over them.
    - SemConc.v: tasks that interleave these sections on one namespace
      ([sem_run], [sys_reach]), the invariant [sys_ok], and a run in which a
      waker outlives the entry it has to wake.
    - Msg.v, MsgInv.v: the same for ipc/msg.c and ipc/msgutil.c.
    - IdrIpc.v: the tree of Idr.v is an instance of [IdrOps] and [IdrLaws], so
      that the theorems on identifiers, semaphores and queues hold on it.
    - Bpf.v, BpfInv.v: the checker and the interpreter of net/core/filter.c, the
      packets it loads from and cuts, attaching to sockets.
    - Timer.v, TimerInv.v: the wheels, with their invariant [timers_wf].
    - Rbtree.v, RbtreeInv.v, RbtreeSpec.v: the trees on a heap of nodes with
      parent pointers; a place in a tree with its path is [at_place]; [rbtree]
      relates a root to the list of its nodes in order.
    - Hrtimer.v: the timers, clock bases, CPU bases and event devices. The
      machine (clocks and the driver of the device) and the callbacks are
      arguments; a callback is the list of operations that run while it does,
      and its answer.
    - HrtimerInv.v: the queues are trees ordered by expiry ([queues]), the
      effect of every function on them ([start_spec], [removed_spec],
      [hr_migrate_spec], ...), and that every step keeps them.
    - HrtimerArm.v: [armed], the next event of a CPU is not too late, and the
      steps that keep it.
    - HrtimerSpec.v: [reach], [seen], the theorems, and concrete runs.
    - HrtimerStale.v: the two situations in which the next event is too late.
    - TimerNext.v: the next event of an idle CPU: the search of the wheel, the
      comparison with the high resolution timers, the conversion of times
      (kernel/time.c, include/linux/jiffies.h), rounding to whole seconds.
    - TimerNextInv.v: the search on a wheel that satisfies the invariant.
    - TimerIdle.v: [nohz_reach], the states reached with all times in a window,
      and that the cached next event stays right in them ([kept]).
    - TimerIdleSpec.v: how long an idle CPU sleeps, and a run in which it sleeps
      too long.

    ** How code becomes definitions

    A struct is a record, its pointers are keys of a heap ([gmap ptr _]), a list
    of list_head entries is the list of the pointers on it. A system call takes
    the state and what it finds outside, and returns its answer and the state; a
    BUG_ON, a read of a missing object and the end of fuel are [None]. A call
    that sleeps ends in a state with its entry queued; the part after the sleep
    is a second function, and anything may have happened in between. Where a
    function of ipc/ drops its locks in the middle, a function argument stands for what
    others do meanwhile, and the theorems on single calls assume of it that it keeps the
    invariant, the undo list of the caller and the sets it refers to. SemConc.v
    does without such an argument: there the other tasks are part of the
    system and take any of their sections in between. Memory allocation, copies from user space and the hooks of
    security modules are arguments too, with success and failure.

    ** What is shown

    - Semaphores and queues: [sem_no_lost_wakeup] and [msg_no_lost_wakeup]:
      nobody sleeps who could go on; for semaphores with the sections of all
      tasks interleaved, including wake-ups one by one, for queues call by call. [try_atomic_semop_refines], [msgsnd_hands_over], [msgrcv_picks],
      [semget_unique]: the answers are those of short reference definitions.
      [semtimedop_total], [semtimedop_resume_total], [semctl_total],
      [exit_sem_total], [msg_exit_ns_clean]: the calls return, without BUG_ON,
      and keep the invariants. [msg_accounting], [msg_text_roundtrip],
      [recompute_msgmni_range]: totals, texts, limits.
    - Identifiers: [ipc_lock_check_exact], [ipc_addid_found],
      [ipc_findkey_exact], [ipcperms_reference]; on the tree,
      [sem_sets_on_tree].
    - IDR: [idr_alloc_first_fit], [idr_remove_empties], [idr_for_each_visits],
      [idr_get_next_smallest], [idr_cleanup_frees_all]; IDA:
      [ida_alloc_lowest], [ida_remove_exact], [ida_destroy_layers].
    - Filters: [sk_chk_filter_exact] and [sk_run_filter_safe]: what the checker
      accepts runs safely; [bpf_load_payload], [sk_filter_cuts],
      [nlattr_load_safe], [sock_filter_safe].
    - Timers: [timers_linked], [timer_fires_once], [timers_never_early],
      [apply_slack_bounds].
    - Red-black trees: [rb_step_refines], every operation ends and does on the
      tree what the operation on the list of nodes does; [rb_walk_order],
      [rb_depth_logarithmic], after any sequence of operations.
    - High resolution timers: [hrtimer_queues], [hrtimer_start_exact],
      [hrtimer_cancel_exact], [hrtimer_migrate_all], [hrtimer_forward_exact];
      [hrtimer_never_early]; [hrtimer_next_event_covers], no event is too late,
      under the two conditions that [hrtimer_start_stale_target] and
      [hrtimer_interrupt_stale_next] show to be needed;
      [tick_program_event_settles].
    - Idle CPUs: [timer_next_exact]; [idle_sleep_safe], no CPU sleeps past a
      timer of its wheel, or two ticks past a high resolution timer, as long as
      all times lie in a window of 2^32 - 1 ticks; [idle_sleep_hidden_timer],
      without the window it may;
      [timespec_to_jiffies_rounds_up], [round_jiffies_future].
    - What the code does against its comments or its purpose: [semadj_wraps],
      [nlattr_short_packet_fault], [mem_uninitialised], [idr_out_of_range],
      [ida_remove_null], [hrtimer_cancel_misses_callback], [idle_sleep_hidden_timer],
      [waker_outlives_entry] and [stale_wakeup_corrupts] (a semop call that returns
      while its entry is on the list of a waker), and
      the two conditions on high resolution timers above.

    ** Bounds and fuel

    Loops that are not structural take fuel, and the theorems show that the fuel
    the definitions pass is enough: the scans of a queue are bounded by its
    length, [ipc_findkey] by IPCMNI, the loops of the IDR by its levels (at most
    five) or by the ids of the tree, a filter by its length since it only jumps
    forward, the timer loop by the ticks it is behind, walks of a red-black tree
    by its number of nodes, the search of the wheel
    by the number of lists of a vector, and the attempts to program an event device by
    [program_fuel], 64, since three failures enlarge the minimal delta by half
    until it is a tick. How many timers an interrupt runs is up to the callbacks
    and is an argument; the theorems hold for every value. Machine words are 64 bits;
    jiffies and the counters wrap around as in C.

    ** Not modelled

    Locks, RCU and memory barriers are not modelled: a function between two lock
    operations is atomic, which is what the locks are for. Other tasks run where
    ipc/sem.c drops its locks, between the two reads of a sleeper, between two
    wake-ups, and in exit_sem between the choice of an undo structure and the lock.
    Not so fine grained are the lockless read in exit_sem, which takes the first
    structure and its set id in one step (freeary between the two is a
    finding of the manifest), and semget, whose preload of the IDR is one step
    with the creation; the entry of a new semop call is taken to be at an address no
    waker holds. In ipc/msg.c the sleeps are the only points where others run;
    in kernel/timer.c and kernel/hrtimer.c the callbacks are. Also left out: shared memory (ipc/shm.c, on
    top of mm/ and fs/), POSIX message queues (ipc/mqueue.c, a file system), the
    compat and sysctl entry points of ipc/, /proc output and audit records;
    in kernel/hrtimer.c sleeping (nanosleep, schedule_hrtimeout), debugging and
    statistics, and interrupts of other CPUs while a callback runs; in
    kernel/timer.c sleeping (schedule_timeout, msleep), the system calls and
    statistics; packets with frag lists or shared data; and all other directories, which the modelled parts only call
    through the arguments named above: arch/, block/, crypto/, fs/, init/, mm/,
    security/, sound/, virt/ and the rest of kernel/, lib/ and net/. *)

From stdpp Require Export prelude gmap list.

#[global] Open Scope Z_scope.

(** ** Error numbers (include/asm-generic/errno-base.h, errno.h) *)

Definition EPERM : Z := 1.
Definition ENOENT : Z := 2.
Definition EINTR : Z := 4.
Definition E2BIG : Z := 7.
Definition EAGAIN : Z := 11.
Definition ENOMEM : Z := 12.
Definition EACCES : Z := 13.
Definition EFAULT : Z := 14.
Definition EEXIST : Z := 17.
Definition EINVAL : Z := 22.
Definition EFBIG : Z := 27.
Definition ENOSPC : Z := 28.
Definition ERANGE : Z := 34.
Definition EDEADLK : Z := 35.
Definition ENOLCK : Z := 37.
Definition ENOMSG : Z := 42.
Definition EIDRM : Z := 43.
Definition EOVERFLOW : Z := 75.
Definition ERESTARTNOHAND : Z := 514.

(** ** Machine integers

    A value of a C integer type is the [Z] it denotes; the wrap-around of an
    unsigned type and the two's complement conversion to a signed one are
    written where the source performs them. *)

Definition INT_MAX : Z := 2147483647.
Definition USHRT_MAX : Z := 65535.
Definition INT_MIN : Z := -2147483648.

Definition wrapu (w : Z) (x : Z) : Z := x mod 2 ^ w.
Definition wraps (w : Z) (x : Z) : Z := (x + 2 ^ (w - 1)) mod 2 ^ w - 2 ^ (w - 1).

Definition u8 := wrapu 8.
Definition u16 := wrapu 16.
Definition u32 := wrapu 32.
Definition u64 := wrapu 64.
Definition s16 := wraps 16.
Definition s32 := wraps 32.
Definition s64 := wraps 64.

(** A pointer to a kernel object: the objects themselves live in a heap. *)
Abbreviation ptr := nat (only parsing).

(** Removing an entry from a [list_head] list, given by the entries on it. *)
Definition list_del (q : ptr) (l : list ptr) : list ptr := filter (fun x => x <> q) l.

(** [flag & bit] used as a condition. *)
Definition has (flags bit : Z) : bool := negb (Z.land flags bit =? 0).

Lemma wrapu_small w x : 0 <= x < 2 ^ w -> wrapu w x = x.
Proof. intros. unfold wrapu. by apply Z.mod_small. Qed.

Lemma wrapu_range w x : 0 <= w -> 0 <= wrapu w x < 2 ^ w.
Proof. intros. unfold wrapu. apply Z.mod_pos_bound. lia. Qed.

Lemma wraps_small w x : 0 < w -> - 2 ^ (w - 1) <= x < 2 ^ (w - 1) -> wraps w x = x.
Proof.
  intros Hw Hx. unfold wraps.
  assert (2 ^ w = 2 * 2 ^ (w - 1)) as E.
  { rewrite <- Z.pow_succ_r by lia. f_equal; lia. }
  rewrite Z.mod_small; lia.
Qed.

Lemma s64_small x : - 2 ^ 63 <= x < 2 ^ 63 -> s64 x = x.
Proof. intros. apply wraps_small; lia. Qed.

Lemma wraps_range w x : 0 < w -> - 2 ^ (w - 1) <= wraps w x < 2 ^ (w - 1).
Proof.
  intros Hw. unfold wraps.
  assert (2 ^ w = 2 * 2 ^ (w - 1)) as E.
  { rewrite <- Z.pow_succ_r by lia. f_equal; lia. }
  pose proof (Z.mod_pos_bound (x + 2 ^ (w - 1)) (2 ^ w) ltac:(lia)). lia.
Qed.

(** ** Tactics *)

(** Turn the boolean tests a definition branches on into propositions. *)
Ltac zbool :=
  repeat match goal with
  | H : (_ && _)%bool = true |- _ => apply andb_true_iff in H; destruct H
  | H : (_ && _)%bool = false |- _ => apply andb_false_iff in H
  | H : (_ || _)%bool = true |- _ => apply orb_true_iff in H
  | H : (_ || _)%bool = false |- _ => apply orb_false_iff in H; destruct H
  | H : negb _ = true |- _ => apply negb_true_iff in H
  | H : negb _ = false |- _ => apply negb_false_iff in H
  | H : (_ =? _) = true |- _ => apply Z.eqb_eq in H
  | H : (_ =? _) = false |- _ => apply Z.eqb_neq in H
  | H : (_ <? _) = true |- _ => apply Z.ltb_lt in H
  | H : (_ <? _) = false |- _ => apply Z.ltb_ge in H
  | H : (_ <=? _) = true |- _ => apply Z.leb_le in H
  | H : (_ <=? _) = false |- _ => apply Z.leb_gt in H
  | H : (_ >? _) = true |- _ => rewrite Z.gtb_ltb in H; apply Z.ltb_lt in H
  | H : (_ >? _) = false |- _ => rewrite Z.gtb_ltb in H; apply Z.ltb_ge in H
  | H : (_ >=? _) = true |- _ => rewrite Z.geb_leb in H; apply Z.leb_le in H
  | H : (_ >=? _) = false |- _ => rewrite Z.geb_leb in H; apply Z.leb_gt in H
  | H : (_ =? _)%nat = true |- _ => apply Nat.eqb_eq in H
  | H : (_ =? _)%nat = false |- _ => apply Nat.eqb_neq in H
  | H : (_ <? _)%nat = true |- _ => apply Nat.ltb_lt in H
  | H : (_ <? _)%nat = false |- _ => apply Nat.ltb_ge in H
  | H : bool_decide _ = true |- _ => apply bool_decide_eq_true in H
  | H : bool_decide _ = false |- _ => apply bool_decide_eq_false in H
  end.

(** Split on the innermost test of the goal, or of a hypothesis. *)
Ltac case_if :=
  match goal with
  | |- context [if ?b then _ else _] =>
      lazymatch b with
      | context [if _ then _ else _] => fail
      | _ => let E := fresh "E" in destruct b eqn:E
      end
  end.

Ltac case_if_in H :=
  match type of H with
  | context [if ?b then _ else _] =>
      lazymatch b with
      | context [if _ then _ else _] => fail
      | _ => let E := fresh "E" in destruct b eqn:E
      end
  end.

(** ** Lists of entries *)

Lemma elem_of_list_del q q' l : q' ∈ list_del q l <-> q' ∈ l /\ q' <> q.
Proof. unfold list_del. rewrite list_elem_of_filter. tauto. Qed.

Lemma list_del_app q l1 l2 : list_del q (l1 ++ l2) = list_del q l1 ++ list_del q l2.
Proof. apply filter_app. Qed.

Lemma list_del_notin q l : q ∉ l -> list_del q l = l.
Proof.
  unfold list_del. induction l as [|x l IH]; intros Hn; [done|].
  rewrite filter_cons_True by set_solver. f_equal. apply IH. set_solver.
Qed.

Lemma list_del_length q l : NoDup l -> q ∈ l -> length l = S (length (list_del q l)).
Proof.
  intros Hnd Hin. apply list_elem_of_split in Hin as (l1 & l2 & ->).
  apply NoDup_app in Hnd as (_ & Hd & Hnd%NoDup_cons). destruct Hnd as [Hq2 _].
  assert (q ∉ l1) by (intros ?; eapply Hd; [eassumption|set_solver]).
  rewrite list_del_app. unfold list_del at 2. rewrite filter_cons_False by naive_solver.
  fold (list_del q l2). rewrite !list_del_notin by done. rewrite !length_app. simpl. lia.
Qed.

Lemma list_del_filter q (P : ptr -> Prop) `{forall x, Decision (P x)} l :
  list_del q (filter P l) = filter P (list_del q l).
Proof. unfold list_del. rewrite !list_filter_filter. apply list_filter_iff. tauto. Qed.

Lemma list_del_middle q l1 l2 : q ∉ l1 -> q ∉ l2 -> list_del q (l1 ++ q :: l2) = l1 ++ l2.
Proof.
  intros H1 H2. rewrite list_del_app, (list_del_notin q l1) by done. unfold list_del.
  rewrite filter_cons_False by tauto. f_equal. by apply list_del_notin.
Qed.

(** The same change to every entry on a list. *)
Lemma fold_alter_lookup {A} (f : A -> A) (l : list ptr) (m : gmap ptr A) k :
  (forall x, f (f x) = f x) ->
  foldl (fun m x => alter f x m) m l !! k = if decide (k ∈ l) then f <$> m !! k else m !! k.
Proof.
  intros Hf. revert m. induction l as [|x l IH]; intros m; cbn [foldl].
  { rewrite decide_False; [done|apply not_elem_of_nil]. }
  rewrite IH. destruct (decide (k = x)) as [->|Hne].
  - rewrite lookup_alter_eq, (decide_True (P := x ∈ x :: l)) by left.
    case_decide; [|done]. destruct (m !! x); cbn; by rewrite ?Hf.
  - rewrite lookup_alter_ne by done. destruct (decide (k ∈ l)).
    + rewrite decide_True; [done|by right].
    + rewrite decide_False; [done|]. intros [|]%elem_of_cons; done.
Qed.

Lemma take_split {A} (n m : nat) (l : list A) :
  (m <= n)%nat -> take n l = take m l ++ take (n - m) (drop m l).
Proof.
  intros. rewrite <- (take_drop m (take n l)) at 1. rewrite take_take, take_drop_commute.
  f_equal; f_equal; [lia|f_equal; lia].
Qed.

(** ** Sums modulo the width *)

Lemma wrapu_add_l w x y : wrapu w (wrapu w x + y) = wrapu w (x + y).
Proof. unfold wrapu. apply Zplus_mod_idemp_l. Qed.

Lemma wraps_add_l w x y : wraps w (wraps w x + y) = wraps w (x + y).
Proof.
  unfold wraps. f_equal.
  replace ((x + 2 ^ (w - 1)) mod 2 ^ w - 2 ^ (w - 1) + y + 2 ^ (w - 1))
    with ((x + 2 ^ (w - 1)) mod 2 ^ w + y) by lia.
  rewrite Zplus_mod_idemp_l. f_equal. lia.
Qed.

Lemma wraps_wrapu w x y : 0 < w -> wraps w (x + wrapu (w + w) y) = wraps w (x + y).
Proof.
  intros Hw. unfold wraps, wrapu. f_equal. rewrite Z.pow_add_r by lia.
  set (m := 2 ^ w). assert (0 < m) by (subst m; lia).
  rewrite (Z.rem_mul_r y m m) by lia.
  replace (x + (y mod m + m * ((y / m) mod m)) + 2 ^ (w - 1))
    with (x + 2 ^ (w - 1) + y mod m + ((y / m) mod m) * m) by lia.
  rewrite Z_mod_plus_full, Zplus_mod_idemp_r. f_equal. lia.
Qed.

Lemma wrapu_shift w x k : 0 <= w -> wrapu w (x + k * 2 ^ w) = wrapu w x.
Proof. intros Hw. unfold wrapu. apply Z_mod_plus_full. Qed.

Lemma wraps_shift w x k : 0 <= w -> wraps w (x + k * 2 ^ w) = wraps w x.
Proof.
  intros Hw. unfold wraps. f_equal. rewrite <- (Z_mod_plus_full (x + 2 ^ (w - 1)) k (2 ^ w)). f_equal. lia.
Qed.
