(* ===== verification/Idr.v ===== *)
(** * Idr: small integer ids on a radix tree

    Models lib/idr.c and include/linux/idr.h on a 64-bit machine: the layers of
    the tree are objects of a heap, the tree and the list of preallocated
    layers are linked by pointers between them, and every function reads and
    writes the heap in the order of the source. [None] is a crash: a BUG_ON,
    a pointer to no layer, an array index out of range, or a loop that did
    not end within its fuel. *)

From S2P Require Import Prelude.

Definition IDR_BITS : Z := 6.
Definition IDR_FULL : Z := 18446744073709551615.
Definition IDR_SIZE : Z := Z.shiftl 1 IDR_BITS.
Definition IDR_MASK : Z := Z.shiftl 1 IDR_BITS - 1.
Definition MAX_ID_SHIFT : Z := 31.
Definition MAX_ID_BIT : Z := Z.shiftl 1 MAX_ID_SHIFT.
Definition MAX_ID_MASK : Z := MAX_ID_BIT - 1.
Definition MAX_LEVEL : Z := (MAX_ID_SHIFT + IDR_BITS - 1) / IDR_BITS.
Definition IDR_FREE_MAX : Z := MAX_LEVEL + MAX_LEVEL.

(** ** Data *)

(** [struct idr_layer]; a slot of [ary] is a layer below or, in a leaf, a
    pointer of the user. *)
Record idr_layer := IdrLayer { bitmap : Z; ary : list (option ptr); count : Z; layer : Z }.

(** [struct idr] with the heap its layers live in. *)
Record idr := IdrRec {
  top : option ptr; id_free : option ptr; layers : Z; id_free_cnt : Z; heap : gmap ptr idr_layer
}.

Definition set_bitmap (b : Z) (l : idr_layer) : idr_layer :=
  {| bitmap := b; ary := ary l; count := count l; layer := layer l |}.
Definition set_ary (n : Z) (v : option ptr) (l : idr_layer) : idr_layer :=
  {| bitmap := bitmap l; ary := <[Z.to_nat n := v]> (ary l); count := count l; layer := layer l |}.
Definition set_count (c : Z) (l : idr_layer) : idr_layer :=
  {| bitmap := bitmap l; ary := ary l; count := c; layer := layer l |}.
Definition set_layer (v : Z) (l : idr_layer) : idr_layer :=
  {| bitmap := bitmap l; ary := ary l; count := count l; layer := v |}.

Definition set_top (p : option ptr) (i : idr) : idr :=
  {| top := p; id_free := id_free i; layers := layers i; id_free_cnt := id_free_cnt i; heap := heap i |}.
Definition set_layers (n : Z) (i : idr) : idr :=
  {| top := top i; id_free := id_free i; layers := n; id_free_cnt := id_free_cnt i; heap := heap i |}.
Definition set_heap (h : gmap ptr idr_layer) (i : idr) : idr :=
  {| top := top i; id_free := id_free i; layers := layers i; id_free_cnt := id_free_cnt i; heap := h |}.
Definition set_free (f : option ptr) (c : Z) (i : idr) : idr :=
  {| top := top i; id_free := f; layers := layers i; id_free_cnt := c; heap := heap i |}.

(** A zeroed layer, as kmem_cache_zalloc gives it. *)
Definition zero_layer : idr_layer :=
  {| bitmap := 0; ary := replicate (Z.to_nat IDR_SIZE) None; count := 0; layer := 0 |}.

(** Applying [f] to the layer at [p]. *)
Definition update (p : ptr) (f : idr_layer -> idr_layer) (i : idr) : option idr :=
  match heap i !! p with
  | Some l => Some (set_heap (<[p := f l]> (heap i)) i)
  | None => None
  end.

(** The slot [n] of the layer at [p]. *)
Definition get_ary (i : idr) (p : ptr) (n : Z) : option (option ptr) :=
  match heap i !! p with Some l => ary l !! Z.to_nat n | None => None end.

Definition set_bit (n : Z) (l : idr_layer) : idr_layer := set_bitmap (Z.setbit (bitmap l) n) l.
Definition clear_bit (n : Z) (l : idr_layer) : idr_layer := set_bitmap (Z.clearbit (bitmap l) n) l.

(** The digit of [id] that selects the slot of a layer. *)
Definition slot_of (id shift : Z) : Z := Z.land (Z.shiftr id shift) IDR_MASK.

(** [find_next_bit(&bm, IDR_SIZE, n)] for [bm = ~bitmap]. *)
Fixpoint next_zero_bit (fuel : nat) (b n : Z) : Z :=
  match fuel with
  | O => IDR_SIZE
  | S fuel => if n >=? IDR_SIZE then IDR_SIZE else if Z.testbit b n then next_zero_bit fuel b (n + 1) else n
  end.

Definition find_next_zero_bit (b n : Z) : Z := next_zero_bit (Z.to_nat IDR_SIZE) b n.

(** ** Layers in reserve *)

Definition get_from_free_list (i : idr) : option (option ptr * idr) :=
  match id_free i with
  | None => Some (None, i)
  | Some p =>
      match get_ary i p 0 with
      | None => None
      | Some next =>
          i ← update p (set_ary 0 None) (set_free next (id_free_cnt i - 1) i);
          Some (Some p, i)
      end
  end.

Definition move_to_free_list (p : ptr) (i : idr) : option idr :=
  i ← update p (set_ary 0 (id_free i)) i;
  Some (set_free (Some p) (id_free_cnt i + 1) i).

(** [avail]: how many layers the allocator still gives. *)
Fixpoint idr_pre_get (fuel : nat) (avail : nat) (i : idr) : option (bool * idr) :=
  match fuel with
  | O => None
  | S fuel =>
      if id_free_cnt i <? IDR_FREE_MAX then
        match avail with
        | O => Some (false, i)
        | S avail =>
            let new := fresh (dom (heap i)) in
            i ← move_to_free_list new (set_heap (<[new := zero_layer]> (heap i)) i);
            idr_pre_get fuel avail i
        end
      else Some (true, i)
  end.

Definition pre_get_fuel : nat := S (Z.to_nat IDR_FREE_MAX).

(** [call_rcu] and [kmem_cache_free]: the layer is gone. *)
Definition free_layer (p : ptr) (i : idr) : idr := set_heap (delete p (heap i)) i.

(** ** Allocation *)

(** The array [pa] of layers on the way down; an absent entry is NULL. *)
Abbreviation path := (gmap Z ptr) (only parsing).

Fixpoint mark_full_loop (fuel : nat) (pa : path) (p : ptr) (l id : Z) (i : idr) : option idr :=
  match fuel with
  | O => None
  | S fuel =>
      lay ← heap i !! p;
      if bitmap lay =? IDR_FULL then
        match pa !! (l + 1) with
        | None => Some i
        | Some p =>
            let id := Z.shiftr id IDR_BITS in
            i ← update p (set_bit (Z.land id IDR_MASK)) i;
            mark_full_loop fuel pa p (l + 1) id i
        end
      else Some i
  end.

Definition idr_mark_full (pa : path) (id : Z) (i : idr) : option idr :=
  p ← pa !! 0;
  i ← update p (set_bit (Z.land id IDR_MASK)) i;
  mark_full_loop (S (Z.to_nat MAX_LEVEL)) pa p 0 id i.

(** What [sub_alloc] returns: an id, the id to grow for, or no layer or no id
    left. *)
Inductive alloc_result :=
| Found (id : Z)
| NeedToGrow (id : Z)
| NoMoreSpace
| NoLayer.

Fixpoint sub_alloc_loop (fuel : nat) (pa : path) (p : ptr) (l id : Z) (i : idr)
    : option (alloc_result * path * idr) :=
  match fuel with
  | O => None
  | S fuel =>
      lay ← heap i !! p;
      let n := slot_of id (IDR_BITS * l) in
      let m := find_next_zero_bit (bitmap lay) n in
      if m =? IDR_SIZE then
        let l := l + 1 in
        let oid := id in
        let id := s32 (Z.lor id (Z.shiftl 1 (IDR_BITS * l) - 1) + 1) in
        if id >=? s32 (Z.shiftl 1 (layers i * IDR_BITS)) then Some (NeedToGrow id, pa, i)
        else
          p ← pa !! l;
          let sh := IDR_BITS * (l + 1) in
          if Z.shiftr oid sh =? Z.shiftr id sh then sub_alloc_loop fuel pa p l id i
          else
            p ← top i;
            sub_alloc_loop fuel (delete (layers i) pa) p (layers i - 1) id i
      else
        let sh := IDR_BITS * l in
        let id := if m =? n then id else s32 (Z.shiftl (Z.lxor (Z.lxor (Z.shiftr id sh) n) m) sh) in
        if (u32 id >=? MAX_ID_BIT) || (id <? 0) then Some (NoMoreSpace, pa, i)
        else if l =? 0 then Some (Found id, <[0 := p]> pa, i)
        else
          slot ← get_ary i p m;
          match slot with
          | Some q => sub_alloc_loop fuel (<[l := p]> pa) q (l - 1) id i
          | None =>
              '(new, i) ← get_from_free_list i;
              match new with
              | None => Some (NoLayer, pa, i)
              | Some new =>
                  i ← update new (set_layer (l - 1)) i;
                  i ← update p (set_ary m (Some new)) i;
                  i ← update p (fun lay => set_count (count lay + 1) lay) i;
                  sub_alloc_loop fuel (<[l := p]> pa) new (l - 1) id i
              end
          end
  end.

(** Each way up is to a higher layer than the one before and is followed by at
    most [MAX_LEVEL] ways down. *)
Definition sub_alloc_fuel : nat := Z.to_nat ((MAX_LEVEL + 1) * (MAX_LEVEL + 1)).

Definition sub_alloc (starting_id : Z) (pa : path) (i : idr) : option (alloc_result * path * idr) :=
  p ← top i;
  sub_alloc_loop sub_alloc_fuel (delete (layers i) pa) p (layers i - 1) starting_id i.

(** Giving back the layers built above [idp->top]. *)
Fixpoint tear_down (fuel : nat) (p : option ptr) (i : idr) : option idr :=
  match fuel with
  | O => None
  | S fuel =>
      match p with
      | None => Some i
      | Some new =>
          if decide (Some new = top i) then Some i
          else
            next ← get_ary i new 0;
            i ← update new (set_ary 0 None) i;
            i ← update new (fun l => set_bitmap 0 (set_count 0 l)) i;
            i ← move_to_free_list new i;
            tear_down fuel next i
      end
  end.

(** The new top and the number of layers; [None] inside when there was no
    layer left. *)
Fixpoint grow_loop (fuel : nat) (p : ptr) (nlayers id : Z) (i : idr) : option (option (ptr * Z) * idr) :=
  match fuel with
  | O => None
  | S fuel =>
      if (nlayers <? MAX_LEVEL - 1) && (id >=? Z.shiftl 1 (nlayers * IDR_BITS)) then
        let nlayers := nlayers + 1 in
        lay ← heap i !! p;
        if count lay =? 0 then
          i ← update p (fun l => set_layer (layer l + 1) l) i;
          grow_loop fuel p nlayers id i
        else
          '(new, i) ← get_from_free_list i;
          match new with
          | None =>
              i ← tear_down (S (Z.to_nat MAX_LEVEL)) (Some p) i;
              Some (None, i)
          | Some new =>
              i ← update new (fun l => set_layer (nlayers - 1) (set_count 1 (set_ary 0 (Some p) l))) i;
              i ← (if bitmap lay =? IDR_FULL then update new (set_bit 0) i else Some i);
              grow_loop fuel new nlayers id i
          end
      else Some (Some (p, nlayers), i)
  end.

Fixpoint build_up (fuel : nat) (id : Z) (pa : path) (i : idr) : option (alloc_result * path * idr) :=
  match fuel with
  | O => None
  | S fuel =>
      '(start, i) ←
        match top i with
        | Some p => Some (Some (p, layers i), i)
        | None =>
            '(new, i) ← get_from_free_list i;
            match new with
            | None => Some (None, i)
            | Some p => i ← update p (set_layer 0) i; Some (Some (p, 1), i)
            end
        end;
      match start with
      | None => Some (NoLayer, pa, i)
      | Some (p, nlayers) =>
          '(grown, i) ← grow_loop (S (Z.to_nat MAX_LEVEL)) p nlayers id i;
          match grown with
          | None => Some (NoLayer, pa, i)
          | Some (p, nlayers) =>
              let i := set_layers nlayers (set_top (Some p) i) in
              '(v, pa, i) ← sub_alloc id pa i;
              match v with
              | NeedToGrow id => build_up fuel id pa i
              | _ => Some (v, pa, i)
              end
          end
      end
  end.

Definition idr_get_empty_slot (starting_id : Z) (i : idr) : option (alloc_result * path * idr) :=
  build_up (S (Z.to_nat MAX_LEVEL)) starting_id ∅ i.

(** The test for an id the comment in the source speaks of is missing from its
    text, which does not parse without it; it is restored here. *)
Definition idr_get_new_above_int (v : ptr) (starting_id : Z) (i : idr) : option (alloc_result * idr) :=
  '(r, pa, i) ← idr_get_empty_slot starting_id i;
  match r with
  | Found id =>
      p ← pa !! 0;
      i ← update p (set_ary (Z.land id IDR_MASK) (Some v)) i;
      i ← update p (fun l => set_count (count l + 1) l) i;
      i ← idr_mark_full pa id i;
      Some (Found id, i)
  | _ => Some (r, i)
  end.

(** [_idr_rc_to_errno]; the id and 0, or an error. *)
Definition idr_rc (r : alloc_result) : Z * Z :=
  match r with Found id => (0, id) | NoLayer => (- EAGAIN, 0) | _ => (- ENOSPC, 0) end.

Definition idr_get_new_above (v : ptr) (starting_id : Z) (i : idr) : option (Z * Z * idr) :=
  '(r, i) ← idr_get_new_above_int v starting_id i;
  Some (idr_rc r, i).

Definition idr_get_new (v : ptr) (i : idr) : option (Z * Z * idr) :=
  '(r, i) ← idr_get_new_above_int v 0 i;
  Some (idr_rc r, i).

(** ** Removal *)

(** A pointer to a pointer to a layer. *)
Inductive slot := TopSlot | ArySlot (p : ptr) (n : Z).

Definition load_slot (s : slot) (i : idr) : option (option ptr) :=
  match s with TopSlot => Some (top i) | ArySlot p n => get_ary i p n end.

Definition store_slot (s : slot) (v : option ptr) (i : idr) : option idr :=
  match s with TopSlot => Some (set_top v i) | ArySlot p n => update p (set_ary n v) i end.

(** Down to the leaf, clearing the bits on the way; [paa]: the slots passed,
    last first. *)
Fixpoint remove_down (fuel : nat) (shift id : Z) (paa : list slot) (p : option ptr) (i : idr)
    : option (list slot * option ptr * idr) :=
  match fuel with
  | O => None
  | S fuel =>
      match p with
      | Some q =>
          if shift >? 0 then
            let n := slot_of id shift in
            i ← update q (clear_bit n) i;
            next ← get_ary i q n;
            remove_down fuel (shift - IDR_BITS) id (ArySlot q n :: paa) next i
          else Some (paa, p, i)
      | None => Some (paa, None, i)
      end
  end.

Definition free_opt (p : option ptr) (i : idr) : idr :=
  match p with Some p => free_layer p i | None => i end.

(** Freeing the layers that became empty; a layer is freed after the next one up
    has been unlinked. *)
Fixpoint remove_up (paa : list slot) (to_free : option ptr) (i : idr) : option idr :=
  match paa with
  | [] => Some (free_opt to_free (set_layers 0 i))
  | s :: paa =>
      p ← load_slot s i;
      p ← p;
      i ← update p (fun l => set_count (count l - 1) l) i;
      lay ← heap i !! p;
      if count lay =? 0 then
        i ← store_slot s None (free_opt to_free i);
        remove_up paa (Some p) i
      else Some (free_opt to_free i)
  end.

(** The second result: the warning for an id that is not allocated. *)
Definition sub_remove (shift id : Z) (i : idr) : option (bool * idr) :=
  '(paa, p, i) ← remove_down (S (Z.to_nat MAX_LEVEL)) shift id [TopSlot] (top i) i;
  let n := Z.land id IDR_MASK in
  match p with
  | Some q =>
      lay ← heap i !! q;
      if Z.testbit (bitmap lay) n then
        i ← update q (clear_bit n) i;
        i ← update q (set_ary n None) i;
        i ← remove_up paa None i;
        Some (false, i)
      else Some (true, i)
  | None => Some (true, i)
  end.

Fixpoint trim_free (fuel : nat) (bound : Z) (i : idr) : option idr :=
  match fuel with
  | O => None
  | S fuel =>
      if id_free_cnt i >=? bound then
        '(p, i) ← get_from_free_list i;
        p ← p;
        trim_free fuel bound (free_layer p i)
      else Some i
  end.

(** One level less when the top has only its leftmost child. *)
Definition shrink (i : idr) : option idr :=
  match top i with
  | None => Some i
  | Some t =>
      lay ← heap i !! t;
      if (count lay =? 1) && (layers i >? 1) then
        p ← get_ary i t 0;
        match p with
        | None => Some i
        | Some p => Some (free_layer t (set_layers (layers i - 1) (set_top (Some p) i)))
        end
      else Some i
  end.

Definition idr_remove (id : Z) (i : idr) : option (bool * idr) :=
  let id := Z.land id MAX_ID_MASK in
  '(warned, i) ← sub_remove ((layers i - 1) * IDR_BITS) id i;
  i ← shrink i;
  i ← trim_free (S (Z.to_nat (id_free_cnt i))) IDR_FREE_MAX i;
  Some (warned, i).

Definition idr_destroy (i : idr) : option idr := trim_free (S (Z.to_nat (id_free_cnt i))) 1 i.

Definition idr_init : idr := {| top := None; id_free := None; layers := 0; id_free_cnt := 0; heap := ∅ |}.

(** ** Lookup *)

Fixpoint find_loop (fuel : nat) (n id : Z) (p : option ptr) (i : idr) : option (option ptr) :=
  match fuel with
  | O => None
  | S fuel =>
      match p with
      | None => Some None
      | Some q =>
          if n >? 0 then
            let n := n - IDR_BITS in
            lay ← heap i !! q;
            if negb (n =? layer lay * IDR_BITS) then None
            else
              next ← get_ary i q (slot_of id n);
              find_loop fuel n id next i
          else Some p
      end
  end.

Definition idr_find (i : idr) (id : Z) : option (option ptr) :=
  match top i with
  | None => Some None
  | Some p =>
      lay ← heap i !! p;
      let n := (layer lay + 1) * IDR_BITS in
      let id := Z.land id MAX_ID_MASK in
      if id >=? s32 (Z.shiftl 1 n) then Some None
      else if n =? 0 then None
      else find_loop (S (S (Z.to_nat MAX_LEVEL))) n id (Some p) i
  end.

(** ** Replacement *)

(** Down to the leaf of an id. *)
Fixpoint leaf_loop (fuel : nat) (n id : Z) (p : option ptr) (i : idr) : option (option ptr) :=
  match fuel with
  | O => None
  | S fuel =>
      match p with
      | None => Some None
      | Some q =>
          if n >? 0 then
            next ← get_ary i q (slot_of id n);
            leaf_loop fuel (n - IDR_BITS) id next i
          else Some p
      end
  end.

(** [inl] is [ERR_PTR]. *)
Definition idr_replace (v : ptr) (id : Z) (i : idr) : option ((Z + option ptr) * idr) :=
  match top i with
  | None => Some (inl (- EINVAL), i)
  | Some t =>
      lay ← heap i !! t;
      let n := (layer lay + 1) * IDR_BITS in
      let id := Z.land id MAX_ID_MASK in
      if id >=? s32 (Z.shiftl 1 n) then Some (inl (- EINVAL), i)
      else
        p ← leaf_loop (S (Z.to_nat MAX_LEVEL)) (n - IDR_BITS) id (Some t) i;
        let n := Z.land id IDR_MASK in
        match p with
        | None => Some (inl (- ENOENT), i)
        | Some p =>
            lay ← heap i !! p;
            if negb (Z.testbit (bitmap lay) n) then Some (inl (- ENOENT), i)
            else
              old_p ← ary lay !! Z.to_nat n;
              i ← update p (set_ary n (Some v)) i;
              Some (inr old_p, i)
        end
  end.

(** ** Iteration *)

(** [fls] of include/asm-generic/bitops/fls.h: one more than the position of
    the highest bit set. *)
Definition fls (x : Z) : Z :=
  let r := 32 in
  if x =? 0 then 0
  else
    let '(x, r) := if Z.land x 0xffff0000 =? 0 then (u32 (Z.shiftl x 16), r - 16) else (x, r) in
    let '(x, r) := if Z.land x 0xff000000 =? 0 then (u32 (Z.shiftl x 8), r - 8) else (x, r) in
    let '(x, r) := if Z.land x 0xf0000000 =? 0 then (u32 (Z.shiftl x 4), r - 4) else (x, r) in
    let '(x, r) := if Z.land x 0xc0000000 =? 0 then (u32 (Z.shiftl x 2), r - 2) else (x, r) in
    if Z.land x 0x80000000 =? 0 then r - 1 else r.

(** Down towards [id] while the shift is above [low]; [paa]: the layers passed,
    kept in an array of [MAX_LEVEL] entries. *)
Fixpoint walk_down (fuel : nat) (low n id : Z) (p : option ptr) (paa : list ptr) (i : idr)
    : option (Z * option ptr * list ptr) :=
  match fuel with
  | O => None
  | S fuel =>
      match p with
      | Some q =>
          if n >? low then
            if Z.of_nat (length paa) >=? MAX_LEVEL then None
            else
              next ← get_ary i q (slot_of id (n - IDR_BITS));
              walk_down fuel low (n - IDR_BITS) id next (q :: paa) i
          else Some (n, p, paa)
      | None => Some (n, None, paa)
      end
  end.

(** [*--paa].  The last step of an iteration reads the word below the array;
    the value is not used and [None] here. *)
Definition pop (paa : list ptr) : option ptr * list ptr :=
  match paa with q :: paa => (Some q, paa) | [] => (None, []) end.

Fixpoint walk_up (fuel : nat) (bound n : Z) (p : option ptr) (paa : list ptr) : option (Z * option ptr * list ptr) :=
  match fuel with
  | O => None
  | S fuel =>
      if n <? bound then let '(p, paa) := pop paa in walk_up fuel bound (n + IDR_BITS) p paa
      else Some (n, p, paa)
  end.

Definition walk_fuel : nat := 8.

Section ForEach.
Context {D : Type} (fn : Z -> ptr -> D -> Z * D).

Fixpoint for_each_loop (fuel : nat) (max n id : Z) (p : option ptr) (paa : list ptr) (data : D) (i : idr)
    : option (Z * D) :=
  match fuel with
  | O => None
  | S fuel =>
      if id <? max then
        '(n, p, paa) ← walk_down walk_fuel 0 n id p paa i;
        let '(error, data) := match p with Some v => fn id v data | None => (0, data) end in
        if negb (error =? 0) then Some (error, data)
        else
          let id := s32 (id + Z.shiftl 1 n) in
          '(n, p, paa) ← walk_up walk_fuel (fls id) n p paa;
          for_each_loop fuel max n id p paa data i
      else Some (0, data)
  end.

Definition idr_for_each (data : D) (i : idr) : option (Z * D) :=
  let n := layers i * IDR_BITS in
  let max := s32 (Z.shiftl 1 n) in
  for_each_loop (S (Z.to_nat max)) max n 0 (top i) [] data i.
End ForEach.

(** The next id and its pointer. *)
Fixpoint get_next_loop (fuel : nat) (max n id : Z) (p : option ptr) (paa : list ptr) (i : idr)
    : option (option (Z * ptr)) :=
  match fuel with
  | O => None
  | S fuel =>
      if id <? max then
        '(n, p, paa) ← walk_down walk_fuel 0 n id p paa i;
        match p with
        | Some v => Some (Some (id, v))
        | None =>
            let id := s32 (id + Z.shiftl 1 n) in
            '(n, p, paa) ← walk_up walk_fuel (fls id) n p paa;
            get_next_loop fuel max n id p paa i
        end
      else Some None
  end.

Definition idr_get_next (i : idr) (id : Z) : option (option (Z * ptr)) :=
  let n := layers i * IDR_BITS in
  let max := s32 (Z.shiftl 1 n) in
  match top i with
  | None => Some None
  | Some p => get_next_loop (S (Z.to_nat max)) max n id (Some p) [] i
  end.

(** ** Removal of every id *)

Fixpoint free_up (fuel : nat) (bound n : Z) (p : option ptr) (paa : list ptr) (i : idr)
    : option (Z * option ptr * list ptr * idr) :=
  match fuel with
  | O => None
  | S fuel =>
      if n <? bound then
        let i := free_opt p i in
        let '(p, paa) := pop paa in
        free_up fuel bound (n + IDR_BITS) p paa i
      else Some (n, p, paa, i)
  end.

Fixpoint remove_all_loop (fuel : nat) (max n id : Z) (p : option ptr) (paa : list ptr) (i : idr) : option idr :=
  match fuel with
  | O => None
  | S fuel =>
      if id <? max then
        '(n, p, paa) ← walk_down walk_fuel IDR_BITS n id p paa i;
        let bt_mask := id in
        let id := s32 (id + Z.shiftl 1 n) in
        '(n, p, paa, i) ← free_up walk_fuel (fls (Z.lxor id bt_mask)) n p paa i;
        remove_all_loop fuel max n id p paa i
      else Some i
  end.

Definition idr_remove_all (i : idr) : option idr :=
  let n := layers i * IDR_BITS in
  let p := top i in
  let max := s32 (Z.shiftl 1 n) in
  i ← remove_all_loop (S (Z.to_nat max)) max n 0 p [] (set_top None i);
  Some (set_layers 0 i).
