(* ===== verification/IdrInv.v ===== *)
(** * IdrInv: correctness of the radix tree of ids

    The heap of a well-formed IDR holds a tree whose layer at level [l] and
    prefix [x] answers for the ids whose digits above [l] are [x], and a list
    of zeroed spare layers, and nothing else. A bit of a layer is set exactly
    when everything below it is taken. *)

From S2P Require Import Prelude Idr.

(** ** Digits *)

Lemma shiftr_digits id l : 0 <= l -> Z.shiftr id (IDR_BITS * l) = id / 64 ^ l.
Proof.
  intros Hl. rewrite Z.shiftr_div_pow2 by (unfold IDR_BITS; lia). f_equal.
  unfold IDR_BITS. rewrite Z.pow_mul_r by lia. done.
Qed.

Lemma shiftl_digits l : 0 <= l -> Z.shiftl 1 (IDR_BITS * l) = 64 ^ l.
Proof.
  intros Hl. rewrite Z.shiftl_mul_pow2 by (unfold IDR_BITS; lia). unfold IDR_BITS.
  rewrite Z.pow_mul_r by lia. rewrite Z.mul_1_l. done.
Qed.

Lemma land_mask x : Z.land x IDR_MASK = x mod 64.
Proof. change IDR_MASK with (Z.ones 6). by rewrite Z.land_ones by lia. Qed.

Lemma slot_of_digit id l : 0 <= l -> slot_of id (IDR_BITS * l) = (id / 64 ^ l) mod 64.
Proof. intros Hl. unfold slot_of. by rewrite shiftr_digits, land_mask. Qed.

Lemma pow64_pos l : 0 <= l -> 0 < 64 ^ l.
Proof. intros. apply Z.pow_pos_nonneg; lia. Qed.

Lemma pow64_succ l : 0 <= l -> 64 ^ (l + 1) = 64 * 64 ^ l.
Proof. intros. rewrite Z.pow_add_r by lia. lia. Qed.

Lemma prefix_up id l : 0 <= l -> id / 64 ^ l / 64 = id / 64 ^ (l + 1).
Proof. intros. pose proof (pow64_pos l). rewrite Z.div_div by lia. by rewrite pow64_succ, Z.mul_comm by lia. Qed.

(** The address of the child on the way to [id]. *)
Lemma prefix_down id l : 0 <= l -> 64 * (id / 64 ^ (l + 1)) + (id / 64 ^ l) mod 64 = id / 64 ^ l.
Proof. intros. rewrite <- prefix_up by lia. symmetry. apply Z.div_mod. lia. Qed.

Lemma digit_range x : 0 <= x mod 64 < 64.
Proof. apply Z.mod_pos_bound. lia. Qed.

Lemma child_unique x n y m : 0 <= n < 64 -> 0 <= m < 64 -> 64 * x + n = 64 * y + m -> x = y /\ n = m.
Proof. lia. Qed.

Lemma child_div x n : 0 <= n < 64 -> (64 * x + n) / 64 = x.
Proof. intros. rewrite Z.mul_comm, Z.div_add_l by lia. rewrite Z.div_small by lia. lia. Qed.

Lemma child_mod x n : 0 <= n < 64 -> (64 * x + n) mod 64 = n.
Proof. intros. rewrite Z.add_comm, Z.mul_comm, Z_mod_plus_full. by apply Z.mod_small. Qed.

Lemma child_eta x : 64 * (x / 64) + x mod 64 = x.
Proof. symmetry. apply Z.div_mod. lia. Qed.

(** ** Bits *)

Lemma next_zero_bit_spec b fuel : forall n,
  0 <= n <= 64 -> 64 - n <= Z.of_nat fuel ->
  n <= next_zero_bit fuel b n <= 64 /\
  (forall k, n <= k < next_zero_bit fuel b n -> Z.testbit b k = true) /\
  (next_zero_bit fuel b n < 64 -> Z.testbit b (next_zero_bit fuel b n) = false).
Proof.
  induction fuel as [|fuel IH]; intros n Hn Hf; cbn [next_zero_bit]; change IDR_SIZE with 64.
  { assert (n = 64) as -> by lia. split; [lia|]. split; intros; lia. }
  destruct (n >=? 64) eqn:E; zbool; [assert (n = 64) as -> by lia; split; [lia|]; split; intros; lia|].
  destruct (Z.testbit b n) eqn:Eb; [|split; [lia|]; split; [intros; lia|done]].
  destruct (IH (n + 1)) as (H1 & H2 & H3); [lia|lia|]. split; [lia|]. split; [|done].
  intros k Hk. destruct (decide (k = n)) as [->|]; [done|]. apply H2. lia.
Qed.

Lemma find_next_zero_bit_spec b n :
  0 <= n <= 64 ->
  n <= find_next_zero_bit b n <= 64 /\
  (forall k, n <= k < find_next_zero_bit b n -> Z.testbit b k = true) /\
  (find_next_zero_bit b n < 64 -> Z.testbit b (find_next_zero_bit b n) = false).
Proof. intros. apply next_zero_bit_spec; [done|]. change (Z.of_nat (Z.to_nat IDR_SIZE)) with 64. lia. Qed.

Definition word64 (b : Z) : Prop := 0 <= b < 2 ^ 64.

Lemma word64_high b k : word64 b -> 64 <= k -> Z.testbit b k = false.
Proof. unfold word64. intros Hb Hk. destruct Hb. revert k Hk. apply Z.bounded_iff_bits_nonneg; lia. Qed.

(** A layer is full when all its 64 bits are set. *)
Lemma full_bits b : word64 b -> (b =? IDR_FULL) = true <-> forall n, 0 <= n < 64 -> Z.testbit b n = true.
Proof.
  intros Hb. rewrite Z.eqb_eq. split.
  - intros -> n Hn. change IDR_FULL with (Z.ones 64). rewrite Z.ones_spec_low by lia. done.
  - intros Hall. change IDR_FULL with (Z.ones 64). apply Z.bits_inj'. intros k Hk.
    destruct (decide (k < 64)).
    + rewrite Hall, Z.ones_spec_low by lia. done.
    + rewrite Z.ones_spec_high by lia. apply word64_high; [done|lia].
Qed.

Lemma not_full_bit b n : word64 b -> 0 <= n < 64 -> Z.testbit b n = false -> (b =? IDR_FULL) = false.
Proof.
  intros Hb Hn Hbit. destruct (b =? IDR_FULL) eqn:E; [|done].
  rewrite (proj1 (full_bits b Hb) E n Hn) in Hbit. done.
Qed.

Lemma word64_bits b : word64 b <-> 0 <= b /\ forall k, 64 <= k -> Z.testbit b k = false.
Proof.
  split.
  - intros Hb. split; [apply Hb|]. intros. by apply word64_high.
  - intros [Hb Hk]. split; [done|]. apply Z.bounded_iff_bits_nonneg; [lia|done|done].
Qed.

Lemma word64_setbit b n : word64 b -> 0 <= n < 64 -> word64 (Z.setbit b n).
Proof.
  intros Hb Hn. apply word64_bits in Hb as [H0 Hh]. apply word64_bits. split.
  - unfold Z.setbit. apply Z.lor_nonneg. split; [done|]. apply Z.shiftl_nonneg. lia.
  - intros k Hk. rewrite Z.setbit_neq by lia. by apply Hh.
Qed.

Lemma word64_clearbit b n : word64 b -> 0 <= n < 64 -> word64 (Z.clearbit b n).
Proof.
  intros Hb Hn. apply word64_bits in Hb as [H0 Hh]. apply word64_bits. split.
  - unfold Z.clearbit. apply Z.ldiff_nonneg. by left.
  - intros k Hk. rewrite Z.clearbit_neq by lia. by apply Hh.
Qed.

(** ** Slots in use *)

Definition used (v : option ptr) : Z := match v with Some _ => 1 | None => 0 end.

Fixpoint count_some (l : list (option ptr)) : Z :=
  match l with [] => 0 | v :: l => used v + count_some l end.

Lemma count_some_nonneg l : 0 <= count_some l.
Proof. induction l as [|[] l]; cbn; lia. Qed.

Lemma count_some_insert l n u v :
  l !! n = Some u ->
  count_some (<[n := v]> l) = count_some l - used u + used v.
Proof.
  revert n. induction l as [|x l IH]; intros [|n] Hn; cbn in Hn; simplify_eq; [cbn; lia|].
  specialize (IH n Hn). change (<[S n := v]> (x :: l)) with (x :: <[n := v]> l). cbn [count_some]. lia.
Qed.

Lemma count_some_zero l : count_some l = 0 <-> forall n v, l !! n = Some v -> v = None.
Proof.
  induction l as [|x l IH]; cbn; [by split|]. pose proof (count_some_nonneg l). split.
  - intros Hc [|n] v; cbn; [intros [= <-]; destruct x; cbn in *; [lia|done]|]. apply IH. destruct x; cbn in *; lia.
  - intros Hall. rewrite (Hall 0%nat x eq_refl). cbn [used]. rewrite Z.add_0_l. apply IH. intros n v Hn. by apply (Hall (S n)).
Qed.

Lemma count_some_replicate n : count_some (replicate n None) = 0.
Proof. induction n; cbn; lia. Qed.

(** ** The tree *)

(** The layers of a tree by level and prefix. *)
Abbreviation nodes := (gmap (Z * Z) ptr) (only parsing).

Definition no_hole (l x : Z) : bool := false.

Section Tree.
(** Which pointers of the user fill their slot. *)
Context (leaf_full : ptr -> bool).

(** The pointer stored for an id. *)
Definition slot_at (h : gmap ptr idr_layer) (N : nodes) (id : Z) : option ptr :=
  match N !! (0, id / 64) with
  | Some p =>
      match h !! p with
      | Some lay => default None (ary lay !! Z.to_nat (id mod 64))
      | None => None
      end
  | None => None
  end.

(** The layer at [(l, x)] is full; level [-1] are the slots of the leaves. *)
Definition full (h : gmap ptr idr_layer) (N : nodes) (l x : Z) : bool :=
  if l =? -1 then match slot_at h N x with Some v => leaf_full v | None => false end
  else
    match N !! (l, x) with
    | Some p => match h !! p with Some lay => bitmap lay =? IDR_FULL | None => false end
    | None => false
    end.

(** The bit a layer has for its child [(l, x)]: set when the child is full, but
    still clear at a hole. *)
Definition bit (h : gmap ptr idr_layer) (N : nodes) (hole : Z -> Z -> bool) (l x : Z) : bool :=
  negb (hole l x) && full h N l x.

Record node_ok (h : gmap ptr idr_layer) (N : nodes) (hole : Z -> Z -> bool) (l x : Z) (lay : idr_layer)
    : Prop := {
  no_layer : layer lay = l;
  no_ary : length (ary lay) = 64%nat;
  no_count : count lay = count_some (ary lay);
  no_word : word64 (bitmap lay);
  no_child : 0 < l -> forall n, 0 <= n < 64 -> ary lay !! Z.to_nat n = Some (N !! (l - 1, 64 * x + n));
  no_bit : forall n, 0 <= n < 64 -> Z.testbit (bitmap lay) n = bit h N hole (l - 1) (64 * x + n)
}.

(** A tree of [L] levels with top layer [t]. *)
Record tree_ok (h : gmap ptr idr_layer) (N : nodes) (t : ptr) (L : Z) (hole : Z -> Z -> bool) : Prop := {
  to_levels : 1 <= L < MAX_LEVEL;
  to_top : N !! (L - 1, 0) = Some t;
  to_dom l x p : N !! (l, x) = Some p -> 0 <= l < L /\ 0 <= x < 64 ^ (L - 1 - l);
  to_inj a b p : N !! a = Some p -> N !! b = Some p -> a = b;
  to_node l x p : N !! (l, x) = Some p -> exists lay, h !! p = Some lay /\ node_ok h N hole l x lay;
  to_parent l x p : N !! (l, x) = Some p -> l < L - 1 -> is_Some (N !! (l + 1, x / 64))
}.

Lemma full_slot h N id :
  full h N (-1) id = match slot_at h N id with Some v => leaf_full v | None => false end.
Proof. done. Qed.

Lemma full_node h N l x p lay :
  0 <= l -> N !! (l, x) = Some p -> h !! p = Some lay -> full h N l x = (bitmap lay =? IDR_FULL).
Proof. intros Hl HN Hh. unfold full. replace (l =? -1) with false by lia. by rewrite HN, Hh. Qed.

Lemma full_absent h N l x : 0 <= l -> N !! (l, x) = None -> full h N l x = false.
Proof. intros Hl HN. unfold full. replace (l =? -1) with false by lia. by rewrite HN. Qed.

(** Only the layers of the tree matter. *)
Lemma slot_at_frame h h' N id :
  (forall a p, N !! a = Some p -> h' !! p = h !! p) -> slot_at h' N id = slot_at h N id.
Proof. intros Hf. unfold slot_at. destruct (N !! (0, id / 64)) as [p|] eqn:E; [|done]. by rewrite (Hf _ _ E). Qed.

Lemma full_frame h h' N l x :
  (forall a p, N !! a = Some p -> h' !! p = h !! p) -> full h' N l x = full h N l x.
Proof.
  intros Hf. unfold full. rewrite (slot_at_frame h h' N x Hf). destruct (l =? -1); [done|].
  destruct (N !! (l, x)) as [p|] eqn:E; [|done]. by rewrite (Hf _ _ E).
Qed.

Lemma tree_frame h h' N t L hole :
  (forall a p, N !! a = Some p -> h' !! p = h !! p) -> tree_ok h N t L hole -> tree_ok h' N t L hole.
Proof.
  intros Hf [H1 H2 H3 H4 H5 H6]. constructor; try done. intros l x p HN.
  destruct (H5 l x p HN) as (lay & Hh & [N1 N2 N3 N4 N5 N6]). exists lay. rewrite (Hf _ _ HN).
  split; [done|]. constructor; try done. intros n Hn. rewrite N6 by done. unfold bit.
  by rewrite (full_frame h h' N).
Qed.

(** Writing the layer at [(l, x)] changes nothing but it and its slots. *)
Lemma slot_at_update h N t L hole l x p lay id :
  tree_ok h N t L hole -> N !! (l, x) = Some p -> (l, x) <> (0, id / 64) ->
  slot_at (<[p := lay]> h) N id = slot_at h N id.
Proof.
  intros Ht HN Hne. unfold slot_at. destruct (N !! (0, id / 64)) as [q|] eqn:E; [|done].
  rewrite lookup_insert_ne; [done|]. intros ->. destruct Hne. by apply (to_inj _ _ _ _ _ Ht _ _ q).
Qed.

Lemma full_update h N t L hole l x p lay k y :
  tree_ok h N t L hole -> N !! (l, x) = Some p -> (k, y) <> (l, x) -> (k, y / 64) <> (l - 1, x) ->
  full (<[p := lay]> h) N k y = full h N k y.
Proof.
  intros Ht HN Hne Hne2. unfold full. destruct (k =? -1) eqn:E; zbool.
  - subst k. rewrite (slot_at_update h N t L hole l x p lay y Ht HN); [done|]. intros [= -> ->]. by destruct Hne2.
  - destruct (N !! (k, y)) as [q|] eqn:Eq; [|done]. rewrite lookup_insert_ne; [done|].
    intros ->. destruct Hne. by apply (to_inj _ _ _ _ _ Ht _ _ q).
Qed.

Lemma tree_update h N t L hole hole' l x p lay :
  tree_ok h N t L hole -> N !! (l, x) = Some p -> node_ok (<[p := lay]> h) N hole' l x lay ->
  (forall k y, (k, y / 64) <> (l - 1, x) ->
    bit (<[p := lay]> h) N hole' k y = bit h N hole k y) ->
  tree_ok (<[p := lay]> h) N t L hole'.
Proof.
  intros Ht HN Hnode Hbit. pose proof Ht as [H1 H2 H3 H4 H5 H6]. constructor; try done. intros k y q Hq.
  destruct (decide ((k, y) = (l, x))) as [[= -> ->]|Hne].
  { rewrite HN in Hq. injection Hq as <-. exists lay. by rewrite lookup_insert_eq. }
  destruct (H5 k y q Hq) as (lay' & Hh & [N1 N2 N3 N4 N5 N6]). exists lay'. split.
  { rewrite lookup_insert_ne; [done|]. intros ->. destruct Hne. by apply (H4 _ _ q). }
  constructor; try done. intros n Hn. rewrite N6 by done. symmetry. apply Hbit.
  rewrite child_div by done. intros [= Hk Hy]. apply Hne. f_equal; [lia|done].
Qed.

(** Everything below a full layer is taken. *)
Lemma full_below h N t L : tree_ok h N t L no_hole -> forall (n : nat) x id,
  full h N (Z.of_nat n - 1) x = true -> id / 64 ^ Z.of_nat n = x -> full h N (-1) id = true.
Proof.
  intros Ht. induction n as [|n IH]; intros x id Hf Hx.
  { cbn in Hf. by rewrite Z.pow_0_r, Z.div_1_r in Hx; subst. }
  replace (Z.of_nat (S n) - 1) with (Z.of_nat n) in Hf by lia.
  apply (IH (id / 64 ^ Z.of_nat n)); [|done].
  destruct (N !! (Z.of_nat n, x)) as [p|] eqn:EN; [|by rewrite full_absent in Hf by (done || lia)].
  destruct (to_node _ _ _ _ _ Ht _ _ _ EN) as (lay & Hh & Hok).
  rewrite (full_node h N (Z.of_nat n) x p lay) in Hf by (done || lia).
  pose proof (proj1 (full_bits _ (no_word _ _ _ _ _ _ Hok)) Hf _ (digit_range (id / 64 ^ Z.of_nat n))) as Hb.
  rewrite (no_bit _ _ _ _ _ _ Hok) in Hb by apply digit_range. unfold bit, no_hole in Hb. cbn in Hb.
  rewrite <- Hx in Hb. replace (Z.of_nat (S n)) with (Z.of_nat n + 1) in Hb by lia.
  by rewrite prefix_down in Hb by lia.
Qed.

(** A bit set at level [l]: all ids below it are taken. *)
Lemma bit_below h N t L l x p lay n id :
  tree_ok h N t L no_hole -> N !! (l, x) = Some p -> h !! p = Some lay -> 0 <= n < 64 ->
  Z.testbit (bitmap lay) n = true -> id / 64 ^ l = 64 * x + n -> full h N (-1) id = true.
Proof.
  intros Ht HN Hh Hn Hb Hid. destruct (to_dom _ _ _ _ _ Ht _ _ _ HN) as [Hl _].
  destruct (to_node _ _ _ _ _ Ht _ _ _ HN) as (lay' & Hh' & Hok). rewrite Hh in Hh'. injection Hh' as <-.
  rewrite (no_bit _ _ _ _ _ _ Hok) in Hb by done. unfold bit in Hb. cbn in Hb.
  apply (full_below h N t L Ht (Z.to_nat l) (64 * x + n)); by rewrite Z2Nat.id by lia.
Qed.

(** An absent layer has no pointers below it. *)
Lemma absent_below h N t L hole : tree_ok h N t L hole -> forall (n : nat) x id,
  N !! (Z.of_nat n, x) = None -> Z.of_nat n < L - 1 -> id / 64 ^ (Z.of_nat n + 1) = x -> slot_at h N id = None.
Proof.
  intros Ht. induction n as [|n IH]; intros x id HN Hlt Hx.
  - change (id / 64 = x) in Hx. unfold slot_at. rewrite Hx. by change (N !! (0, x) = None) in HN; rewrite HN.
  - apply (IH (id / 64 ^ (Z.of_nat n + 1))); [|lia|done].
    destruct (N !! (Z.of_nat n, _)) as [p|] eqn:E; [|done]. exfalso.
    destruct (to_parent _ _ _ _ _ Ht _ _ _ E ltac:(lia)) as [q Hq]. rewrite prefix_up in Hq by lia.
    replace (Z.of_nat (S n)) with (Z.of_nat n + 1) in * by lia. congruence.
Qed.

(** *** A new, empty layer below [(l, x)] at digit [m] *)
Section AddChild.
Context (h : gmap ptr idr_layer) (N : nodes) (t : ptr) (L l x : Z) (p : ptr) (lay : idr_layer) (m : Z)
  (q : ptr) (lq : idr_layer).
Hypothesis Ht : tree_ok h N t L no_hole.
Hypothesis HN : N !! (l, x) = Some p.
Hypothesis Hp : h !! p = Some lay.
Hypothesis Hl : 0 < l.
Hypothesis Hm : 0 <= m < 64.
Hypothesis Hnone : N !! (l - 1, 64 * x + m) = None.
Hypothesis Hq : forall a, N !! a <> Some q.
Hypothesis Hb0 : bitmap lq = 0.
Hypothesis Ha0 : ary lq = replicate 64 None.
Hypothesis Hc0 : count lq = 0.
Hypothesis Hl0 : layer lq = l - 1.

Let lay' := set_count (count lay + 1) (set_ary m (Some q) lay).
Let h' := <[p := lay']> (<[q := lq]> h).
Let N' := <[(l - 1, 64 * x + m) := q]> N.

Lemma add_old k y r : N !! (k, y) = Some r -> N' !! (k, y) = Some r.
Proof. intros Hr. unfold N'. rewrite lookup_insert_ne; [done|]. intros E. rewrite <- E in Hr. congruence. Qed.

Lemma add_old_heap k y r lr :
  N !! (k, y) = Some r -> h !! r = Some lr -> h' !! r = Some (if decide (r = p) then lay' else lr).
Proof.
  intros Hr Hlr. unfold h'. case_decide as E; [rewrite E; apply lookup_insert_eq|].
  rewrite !lookup_insert_ne; [done|intros ->; by apply (Hq (k, y))|done].
Qed.

Lemma add_new_heap : h' !! q = Some lq.
Proof. unfold h'. rewrite lookup_insert_ne, lookup_insert_eq; [done|]. intros ->. by apply (Hq (l, x)). Qed.

Lemma add_slot id : slot_at h' N' id = slot_at h N id.
Proof.
  unfold slot_at. destruct (N !! (0, id / 64)) as [r|] eqn:Er.
  - rewrite (add_old _ _ _ Er). destruct (to_node _ _ _ _ _ Ht _ _ _ Er) as (lr & Hlr & _).
    rewrite (add_old_heap _ _ _ _ Er Hlr), Hlr. case_decide as E; [|done]. subst r.
    assert ((0, id / 64) = (l, x)) as [= E _] by by apply (to_inj _ _ _ _ _ Ht _ _ p). lia.
  - unfold N'. destruct (decide ((l - 1, 64 * x + m) = (0, id / 64))) as [E|E].
    + rewrite E, lookup_insert_eq, add_new_heap, Ha0.
      by rewrite (lookup_replicate_2 64) by (pose proof (digit_range id); lia).
    + by rewrite lookup_insert_ne, Er by done.
Qed.

Lemma add_full k y : full h' N' k y = full h N k y.
Proof.
  unfold full. rewrite add_slot. destruct (k =? -1); [done|]. destruct (N !! (k, y)) as [r|] eqn:Er.
  - rewrite (add_old _ _ _ Er). destruct (to_node _ _ _ _ _ Ht _ _ _ Er) as (lr & Hlr & _).
    rewrite (add_old_heap _ _ _ _ Er Hlr), Hlr. case_decide as E; [|done]. subst r.
    rewrite Hp in Hlr. by injection Hlr as <-.
  - unfold N'. destruct (decide ((l - 1, 64 * x + m) = (k, y))) as [E|E].
    + by rewrite E, lookup_insert_eq, add_new_heap, Hb0.
    + by rewrite lookup_insert_ne, Er by done.
Qed.

(** Nothing is below the place of the new layer. *)
Lemma add_no_grandchild n : 0 <= n < 64 -> N !! (l - 1 - 1, 64 * (64 * x + m) + n) = None.
Proof.
  intros Hn. destruct (N !! (l - 1 - 1, _)) as [r|] eqn:Er; [|done]. exfalso.
  destruct (to_dom _ _ _ _ _ Ht _ _ _ HN) as [Hl3 _].
  destruct (to_parent _ _ _ _ _ Ht _ _ _ Er ltac:(lia)) as [r' Hr']. rewrite child_div in Hr' by done.
  replace (l - 1 - 1 + 1) with (l - 1) in Hr' by lia. congruence.
Qed.

Lemma add_node_new : node_ok h' N' no_hole (l - 1) (64 * x + m) lq.
Proof.
  constructor; [done|by rewrite Ha0|by rewrite Ha0, Hc0|by rewrite Hb0|..].
  - intros Hl1 n Hn. rewrite Ha0, (lookup_replicate_2 64) by lia. f_equal. symmetry. unfold N'.
    rewrite lookup_insert_ne by (intros [=]; lia). by apply add_no_grandchild.
  - intros n Hn. rewrite Hb0, Z.testbit_0_l. unfold bit. cbn. rewrite add_full.
    destruct (decide (l = 1)) as [E|].
    + unfold full. replace (l - 1 - 1 =? -1) with true by lia. unfold slot_at. rewrite child_div by done.
      replace (l - 1) with 0 in Hnone by lia. by rewrite Hnone.
    + symmetry. apply full_absent; [lia|]. by apply add_no_grandchild.
Qed.

Lemma add_node_parent : node_ok h' N' no_hole l x lay'.
Proof.
  destruct (to_node _ _ _ _ _ Ht _ _ _ HN) as (lay0 & Hp' & [N1 N2 N3 N4 N5 N6]).
  rewrite Hp in Hp'. injection Hp' as <-. constructor; cbn; [done|by rewrite length_insert| |done|..].
  - rewrite (count_some_insert _ _ None) by (rewrite N5 by done; by rewrite Hnone). cbn. rewrite N3. lia.
  - intros _ n Hn. destruct (decide (n = m)) as [->|].
    + rewrite list_lookup_insert_eq by lia. unfold N'. by rewrite lookup_insert_eq.
    + rewrite list_lookup_insert_ne by lia. rewrite N5 by done. unfold N'.
      rewrite lookup_insert_ne; [done|]. intros [= Hnm]. lia.
  - intros n Hn. rewrite N6 by done. unfold bit. by rewrite add_full.
Qed.

Lemma add_node_other k y r lr :
  N !! (k, y) = Some r -> r <> p -> node_ok h N no_hole k y lr -> node_ok h' N' no_hole k y lr.
Proof.
  intros Hr Hne [M1 M2 M3 M4 M5 M6]. constructor; try done.
  - intros Hk n Hn. rewrite M5 by done. unfold N'. rewrite lookup_insert_ne; [done|].
    intros [= Hk1 Hk2]. apply Hne. assert (k = l) as -> by lia.
    destruct (child_unique x m y n) as [E _]; [done|done|done|]. subst y. congruence.
  - intros n Hn. rewrite M6 by done. unfold bit. by rewrite add_full.
Qed.

Lemma add_inj a b r : N' !! a = Some r -> N' !! b = Some r -> a = b.
Proof.
  unfold N'. destruct (decide ((l - 1, 64 * x + m) = a)) as [<-|E];
    destruct (decide ((l - 1, 64 * x + m) = b)) as [<-|E']; rewrite ?lookup_insert_eq, ?lookup_insert_ne by done;
    [done|intros [= <-] Hr; by destruct (Hq b)|intros Hr [= <-]; by destruct (Hq a)|].
  apply (to_inj _ _ _ _ _ Ht).
Qed.

Lemma tree_add_child : tree_ok h' N' t L no_hole.
Proof.
  pose proof Ht as [H1 H2 H3 H4 H5 H6]. destruct (H3 _ _ _ HN) as [Hl3 Hx3].
  constructor; [done|by apply add_old| |by apply add_inj|..].
  - intros k y r. unfold N'. destruct (decide ((l - 1, 64 * x + m) = (k, y))) as [[= <- <-]|E].
    + intros _. split; [lia|]. replace (L - 1 - (l - 1)) with (L - 1 - l + 1) by lia.
      rewrite pow64_succ by lia. lia.
    + rewrite lookup_insert_ne by done. apply H3.
  - intros k y r. unfold N' at 1. destruct (decide ((l - 1, 64 * x + m) = (k, y))) as [E|E].
    + injection E as <- <-. rewrite lookup_insert_eq. intros [= <-]. exists lq.
      split; [apply add_new_heap|apply add_node_new].
    + rewrite lookup_insert_ne by done. intros Hr. destruct (H5 _ _ _ Hr) as (lr & Hlr & Hok).
      rewrite (add_old_heap _ _ _ _ Hr Hlr). eexists. split; [done|]. case_decide as Erp.
      * subst r. assert ((k, y) = (l, x)) as [= -> ->] by by apply (H4 _ _ p). apply add_node_parent.
      * by apply (add_node_other _ _ r).
  - intros k y r. unfold N'. destruct (decide ((l - 1, 64 * x + m) = (k, y))) as [[= <- <-]|E].
    + intros _ _. rewrite child_div by done. replace (l - 1 + 1) with l by lia.
      rewrite lookup_insert_ne by (intros [=]; lia). by exists p.
    + rewrite lookup_insert_ne by done. intros Hr Hk. destruct (H6 _ _ _ Hr Hk) as [r' Hr']. exists r'.
      by apply add_old.
Qed.
End AddChild.

(** ** The spare layers *)

(** Zeroed layers linked by their first slot. *)
Inductive chain (h : gmap ptr idr_layer) : option ptr -> list ptr -> Prop :=
| chain_nil : chain h None []
| chain_cons p next fl lay :
    h !! p = Some lay -> bitmap lay = 0 -> count lay = 0 -> ary lay = next :: replicate 63 None ->
    chain h next fl -> chain h (Some p) (p :: fl).

(** Every layer of the heap is in the tree, spare, or held by the function that
    runs ([own]), and only one of them. *)
Record spare (h : gmap ptr idr_layer) (f : option ptr) (cnt : Z) (N : nodes) (fl own : list ptr) : Prop := {
  sp_chain : chain h f fl;
  sp_cnt : cnt = Z.of_nat (length fl);
  sp_nodup : NoDup fl;
  sp_tree p a : p ∈ fl -> N !! a <> Some p;
  sp_own p : p ∈ own -> is_Some (h !! p) /\ (p ∉ fl) /\ (forall a, N !! a <> Some p);
  sp_all p : is_Some (h !! p) -> p ∈ fl \/ p ∈ own \/ (exists a, N !! a = Some p)
}.

Lemma chain_frame h h' f fl : (forall p, p ∈ fl -> h' !! p = h !! p) -> chain h f fl -> chain h' f fl.
Proof.
  intros Hf Hc. induction Hc as [|p next fl lay H1 H2 H3 H4 _ IH]; [constructor|].
  econstructor; [by rewrite Hf by constructor|done..|]. apply IH. intros r Hr. apply Hf. by constructor.
Qed.

(** Writing a layer that is not spare. *)
Lemma spare_update h f cnt N fl own p lay :
  spare h f cnt N fl own -> p ∉ fl -> is_Some (h !! p) -> spare (<[p := lay]> h) f cnt N fl own.
Proof.
  intros [H1 H2 H3 H4 H5 H6] Hp Hs. constructor; try done.
  - apply (chain_frame h); [|done]. intros r Hr. rewrite lookup_insert_ne; [done|]. by intros ->.
  - intros r Hr. destruct (H5 r Hr) as (? & ? & ?). split; [|done]. rewrite lookup_insert_is_Some'. by right.
  - intros r. rewrite lookup_insert_is_Some'. intros [<-|Hr]; by apply H6.
Qed.

(** A layer that was held becomes part of the tree. *)
Lemma spare_adopt h f cnt N fl own p a :
  spare h f cnt N fl (p :: own) -> p ∉ own -> N !! a = None -> spare h f cnt (<[a := p]> N) fl own.
Proof.
  intros [H1 H2 H3 H4 H5 H6] Hp HN. constructor; try done.
  - intros r b Hr. destruct (decide (a = b)) as [<-|]; [|by rewrite lookup_insert_ne by done; apply H4].
    rewrite lookup_insert_eq. intros [= ->]. by destruct (H5 r) as (_ & ? & _); [constructor|].
  - intros r Hr. destruct (H5 r) as (? & ? & Hn); [by constructor|]. split; [done|]. split; [done|].
    intros b. destruct (decide (a = b)) as [<-|]; [|by rewrite lookup_insert_ne by done].
    rewrite lookup_insert_eq. by intros [= ->].
  - intros r Hr. destruct (H6 r Hr) as [?|[[->|?]%elem_of_cons|[b Hb]]]; [by left| |by right; left|].
    + right. right. exists a. by rewrite lookup_insert_eq.
    + right. right. exists b. rewrite lookup_insert_ne; [done|]. intros ->. congruence.
Qed.

(** A held layer is linked into the list. *)
Lemma spare_push h f cnt N fl own p lay :
  spare h f cnt N fl (p :: own) -> p ∉ own -> h !! p = Some lay -> bitmap lay = 0 -> count lay = 0 ->
  ary lay = f :: replicate 63 None -> spare h (Some p) (cnt + 1) N (p :: fl) own.
Proof.
  intros [H1 H2 H3 H4 H5 H6] Hp Hh Hb Hc Ha. destruct (H5 p) as (_ & Hnf & Hnn); [constructor|].
  constructor.
  - by econstructor.
  - cbn. lia.
  - by constructor.
  - intros r a [->|Hr]%elem_of_cons; [done|by apply H4].
  - intros r Hr. destruct (H5 r) as (? & ? & Hn); [by constructor|]. split; [done|]. split; [|done].
    rewrite not_elem_of_cons. split; [by intros ->|done].
  - intros r Hr. rewrite elem_of_cons. destruct (H6 r Hr) as [?|[[->|?]%elem_of_cons|?]]; auto.
Qed.

Definition idr_spare (i : idr) (N : nodes) (fl own : list ptr) : Prop :=
  spare (heap i) (id_free i) (id_free_cnt i) N fl own.

(** Taking a layer: it is zeroed and nobody else has it. *)
Lemma get_from_free_list_spec i N fl own :
  idr_spare i N fl own ->
  match fl with
  | [] => get_from_free_list i = Some (None, i)
  | p :: fl =>
      exists lay i', bitmap lay = 0 /\ count lay = 0 /\ ary lay = replicate 64 None /\
        get_from_free_list i = Some (Some p, i') /\ top i' = top i /\ layers i' = layers i /\
        heap i' = <[p := lay]> (heap i) /\ idr_spare i' N fl (p :: own) /\ p ∉ own
  end.
Proof.
  intros [H1 H2 H3 H4 H5 H6]. unfold get_from_free_list. destruct H1 as [|p next fl lay Hh Hb Hc Ha Hch]; [done|].
  apply NoDup_cons in H3 as [Hp H3].
  assert (get_ary i p 0 = Some next) as -> by (unfold get_ary; by rewrite Hh, Ha).
  unfold update. cbn [heap set_free]. rewrite Hh. cbn [mbind option_bind].
  exists (set_ary 0 None lay). eexists. cbn [bitmap count set_ary ary].
  split; [done|]. split; [done|]. split; [by rewrite Ha|]. split; [done|]. do 3 (split; [done|]).
  assert (p ∉ own) as Hno. { intros Ho. destruct (H5 p Ho) as (_ & Hn & _). apply Hn. by constructor. }
  split; [|done]. constructor; cbn; [|cbn in H2; lia|done|..].
  - apply (chain_frame (heap i)); [|done]. intros r Hr. rewrite lookup_insert_ne; [done|]. by intros ->.
  - intros r a Hr. apply H4. by constructor.
  - intros r Hr. rewrite lookup_insert_is_Some'. apply elem_of_cons in Hr as [->|Hr].
    + split; [by left|]. split; [done|]. intros a. apply H4. constructor.
    + destruct (H5 r Hr) as (? & Hnf & ?). split; [by right|]. split; [|done].
      intros Hr'. apply Hnf. by constructor.
  - intros r. rewrite lookup_insert_is_Some'. rewrite elem_of_cons. intros [->|Hr]; [by auto|].
    destruct (H6 r Hr) as [[->|?]%elem_of_cons|[?|?]]; auto.
Qed.

Lemma move_to_free_list_spec i N fl own p lay :
  idr_spare i N fl (p :: own) -> p ∉ own -> heap i !! p = Some lay ->
  bitmap lay = 0 -> count lay = 0 -> ary lay = replicate 64 None ->
  exists i', move_to_free_list p i = Some i' /\ idr_spare i' N (p :: fl) own /\ top i' = top i /\
    layers i' = layers i /\ heap i' = <[p := set_ary 0 (id_free i) lay]> (heap i) /\
    id_free_cnt i' = id_free_cnt i + 1.
Proof.
  intros Hsp Hno Hh Hb Hc Ha. unfold move_to_free_list, update. rewrite Hh. cbn.
  eexists. split; [done|]. cbn. split; [|done]. unfold idr_spare. cbn.
  apply (spare_push _ (id_free i) _ _ _ _ _ (set_ary 0 (id_free i) lay));
    [|done|by rewrite lookup_insert_eq|done|done|cbn; by rewrite Ha].
  apply spare_update; [done| |by rewrite Hh]. by destruct (sp_own _ _ _ _ _ _ Hsp p) as (_ & ? & _); [constructor|].
Qed.

(** ** Moving between ids *)

(** The first id behind the block of [id] at level [l]. *)
Definition block_end (id l : Z) : Z := (id / 64 ^ (l + 1) + 1) * 64 ^ (l + 1).

Lemma lor_ones_succ id k : 0 <= k -> Z.lor id (2 ^ k - 1) + 1 = (id / 2 ^ k + 1) * 2 ^ k.
Proof.
  intros Hk. assert (0 < 2 ^ k) by (apply Z.pow_pos_nonneg; lia).
  assert (Z.lor id (2 ^ k - 1) = id / 2 ^ k * 2 ^ k + (2 ^ k - 1)) as ->; [|lia].
  replace (2 ^ k - 1) with (Z.ones k) by (rewrite Z.ones_equiv; lia).
  rewrite <- Z.shiftr_div_pow2, <- Z.shiftl_mul_pow2 by lia. rewrite Z.add_nocarry_lxor.
  - apply Z.bits_inj'. intros b Hb. rewrite Z.lxor_spec, Z.lor_spec, Z.shiftl_spec by done.
    destruct (decide (b < k)).
    + rewrite Z.ones_spec_low, (Z.testbit_neg_r _ (b - k)) by lia. by rewrite orb_true_r.
    + rewrite Z.ones_spec_high, Z.shiftr_spec by lia. replace (b - k + k) with b by lia.
      by rewrite orb_false_r, xorb_false_r.
  - apply Z.bits_inj'. intros b Hb. rewrite Z.land_spec, Z.shiftl_spec, Z.bits_0 by done.
    destruct (decide (b < k)).
    + by rewrite (Z.testbit_neg_r _ (b - k)) by lia.
    + rewrite Z.ones_spec_high by lia. apply andb_false_r.
Qed.

Lemma block_end_lor id l : 0 <= l -> Z.lor id (Z.shiftl 1 (IDR_BITS * (l + 1)) - 1) + 1 = block_end id l.
Proof.
  intros Hl. unfold block_end. rewrite Z.shiftl_mul_pow2, Z.mul_1_l by (unfold IDR_BITS; lia).
  rewrite lor_ones_succ by (unfold IDR_BITS; lia). unfold IDR_BITS. by rewrite Z.pow_mul_r by lia.
Qed.

Lemma lxor_digits x n m : 0 <= n < 64 -> 0 <= m < 64 -> Z.lxor (Z.lxor (64 * x + n) n) m = 64 * x + m.
Proof.
  intros Hn Hm.
  assert (forall d, 0 <= d < 64 -> 64 * x + d = Z.lxor (Z.shiftl x 6) d) as Hd.
  { intros d Hd. rewrite <- Z.add_nocarry_lxor; [rewrite Z.shiftl_mul_pow2 by lia; lia|].
    apply Z.bits_inj'. intros b Hb. rewrite Z.land_spec, Z.shiftl_spec, Z.bits_0 by done.
    destruct (decide (b < 6)); [by rewrite Z.testbit_neg_r by lia|].
    replace (Z.testbit d b) with false; [apply andb_false_r|]. symmetry.
    apply (proj1 (Z.bounded_iff_bits_nonneg 6 d ltac:(lia) ltac:(lia))); [change (2 ^ 6) with 64; lia|lia]. }
  rewrite !Hd, (Z.lxor_assoc _ n n), Z.lxor_nilpotent, Z.lxor_0_r by done. done.
Qed.

Lemma pow64_le a b : 0 <= a <= b -> 64 ^ a <= 64 ^ b.
Proof. intros. apply Z.pow_le_mono_r; lia. Qed.

Lemma pow64_max L : 0 <= L <= 5 -> 1 <= 64 ^ L <= 2 ^ 30.
Proof. intros. change (2 ^ 30) with (64 ^ 5). pose proof (pow64_pos L). split; [lia|]. apply pow64_le. lia. Qed.

(** Between an id and the end of its block the prefix does not change. *)
Lemma block_prefix id l j : 0 <= l -> id <= j < block_end id l -> j / 64 ^ (l + 1) = id / 64 ^ (l + 1).
Proof.
  intros Hl Hj. unfold block_end in Hj. pose proof (pow64_pos (l + 1) ltac:(lia)).
  assert (id / 64 ^ (l + 1) <= j / 64 ^ (l + 1)) by (apply Z.div_le_mono; lia).
  assert (j / 64 ^ (l + 1) < id / 64 ^ (l + 1) + 1) by (apply Z.div_lt_upper_bound; lia). lia.
Qed.

Lemma block_end_gt id l : 0 <= l -> id < block_end id l.
Proof.
  intros Hl. unfold block_end. pose proof (pow64_pos (l + 1) ltac:(lia)).
  pose proof (Z.mod_pos_bound id (64 ^ (l + 1)) ltac:(lia)). pose proof (Z.div_mod id (64 ^ (l + 1)) ltac:(lia)). nia.
Qed.

Lemma block_end_le id l L : 0 <= l < L -> 0 <= id < 64 ^ L -> block_end id l <= 64 ^ L.
Proof.
  intros Hl Hid. unfold block_end. pose proof (pow64_pos (l + 1) ltac:(lia)).
  assert (64 ^ L = 64 ^ (L - (l + 1)) * 64 ^ (l + 1)) as E by (rewrite <- Z.pow_add_r by lia; f_equal; lia).
  assert (id / 64 ^ (l + 1) < 64 ^ (L - (l + 1))) by (apply Z.div_lt_upper_bound; lia). nia.
Qed.

(** The digits of a block end are zero up to its level. *)
Lemma multiple_digit c l k : 0 <= k <= l -> (c * 64 ^ (l + 1)) / 64 ^ k mod 64 = 0.
Proof.
  intros Hk. replace (l + 1) with (l - k + 1 + k) by lia. rewrite Z.pow_add_r by lia. rewrite Z.mul_assoc.
  rewrite Z.div_mul by (pose proof (pow64_pos k); lia). rewrite pow64_succ by lia.
  replace (c * (64 * 64 ^ (l - k))) with (c * 64 ^ (l - k) * 64) by lia. apply Z.mod_mul. lia.
Qed.

Lemma prefix_eq_up a b l k : 0 <= l <= k -> a / 64 ^ l = b / 64 ^ l -> a / 64 ^ k = b / 64 ^ k.
Proof.
  intros Hk E. replace k with (l + (k - l)) by lia. rewrite Z.pow_add_r by lia.
  pose proof (pow64_pos l ltac:(lia)). pose proof (pow64_pos (k - l) ltac:(lia)).
  rewrite <- !Z.div_div by lia. by rewrite E.
Qed.

(** The first id with digit [m] at level [l]. *)
Lemma digit_move id l m :
  0 <= l -> let x := id / 64 ^ (l + 1) in let n := (id / 64 ^ l) mod 64 in let id' := (64 * x + m) * 64 ^ l in
  n < m < 64 ->
  id' / 64 ^ l = 64 * x + m /\ id' / 64 ^ (l + 1) = x /\ id < id' < block_end id l /\
  (forall k, 0 <= k < l -> (id' / 64 ^ k) mod 64 = 0) /\
  (forall j, id <= j < id' -> exists d, n <= d < m /\ j / 64 ^ l = 64 * x + d).
Proof.
  intros Hl x n id' Hm. pose proof (pow64_pos l Hl) as Hp. pose proof (digit_range (id / 64 ^ l)) as Hr. fold n in Hr.
  assert (id' / 64 ^ l = 64 * x + m) as E1 by (apply Z.div_mul; lia).
  assert (id / 64 ^ l = 64 * x + n) as E0 by (symmetry; by apply prefix_down).
  pose proof (Z.mod_pos_bound id (64 ^ l) Hp) as Hmod. pose proof (Z.div_mod id (64 ^ l) ltac:(lia)) as Hdm.
  rewrite E0 in Hdm. split; [done|]. split; [rewrite <- prefix_up, E1 by lia; apply child_div; lia|].
  split; [|split].
  - unfold block_end. fold x. rewrite pow64_succ by lia. unfold id'. nia.
  - intros k Hk. unfold id'. replace l with (l - 1 + 1) by lia. apply multiple_digit. lia.
  - intros j Hj. exists (j / 64 ^ l - 64 * x).
    assert (id / 64 ^ l <= j / 64 ^ l) by (apply Z.div_le_mono; lia).
    assert (j / 64 ^ l < 64 * x + m) by (apply Z.div_lt_upper_bound; unfold id' in Hj; lia). lia.
Qed.

(** ** Looking for a free id *)

(** A layer nothing has been put into. *)
Definition empty_layer (h : gmap ptr idr_layer) (p : ptr) : Prop :=
  exists lay, h !! p = Some lay /\ bitmap lay = 0 /\ ary lay = replicate 64 None.

(** [pa] holds the layers above level [l] on the way to [id]; those below the
    top are not full. *)
Record path_ok (h : gmap ptr idr_layer) (N : nodes) (pa : path) (L l id : Z) : Prop := {
  po_node k : l < k < L -> is_Some (pa !! k) /\ pa !! k = N !! (k, id / 64 ^ (k + 1));
  po_room k : l < k < L - 1 -> full h N k (id / 64 ^ (k + 1)) = false;
  po_end : pa !! L = None
}.

(** The search stands at level [l] of the way to [id]; the digits of [id] below
    [a] that are still to be followed are zero. *)
Record walk_ok (i : idr) (N : nodes) (fl : list ptr) (t : ptr) (pa : path) (p : ptr) (l id a : Z) : Prop := {
  wo_tree : tree_ok (heap i) N t (layers i) no_hole;
  wo_spare : idr_spare i N fl [];
  wo_top : top i = Some t;
  wo_level : 0 <= l < layers i;
  wo_id : 0 <= id < 64 ^ layers i;
  wo_node : N !! (l, id / 64 ^ (l + 1)) = Some p;
  wo_room : l < layers i - 1 -> full (heap i) N l (id / 64 ^ (l + 1)) = false;
  wo_path : path_ok (heap i) N pa (layers i) l id;
  wo_align : 0 <= a <= layers i;
  wo_digit k : 0 <= k <= l -> k < a -> (id / 64 ^ k) mod 64 = 0
}.

(** The tree after a search holds the same pointers. *)
Record same_ids (i : idr) (N : nodes) (i' : idr) (N' : nodes) : Prop := {
  si_slot id : slot_at (heap i') N' id = slot_at (heap i) N id;
  si_full l x : full (heap i') N' l x = full (heap i) N l x
}.

(** The outcome: the first free id with the layers on its way, no free id up to
    the end, or no spare layer left. *)
Definition found_ok (i : idr) (N : nodes) (id : Z) (r : alloc_result) (pa : path) (i' : idr) (N' : nodes) : Prop :=
  match r with
  | Found id' =>
      id <= id' < 64 ^ layers i /\ full (heap i) N (-1) id' = false /\
      (forall j, id <= j < id' -> full (heap i) N (-1) j = true) /\
      path_ok (heap i') N' pa (layers i) (-1) id'
  | NeedToGrow id' => id' = 64 ^ layers i /\ forall j, id <= j < id' -> full (heap i) N (-1) j = true
  | NoMoreSpace => False
  | NoLayer => True
  end.

(** How many layers a search takes: none to find out that the tree is full, and
    fewer than it has levels to run out of them. *)
Definition cost_ok (i : idr) (p : ptr) (l : Z) (fl : list ptr) (r : alloc_result) (fl' : list ptr) : Prop :=
  match r with
  | NeedToGrow _ => fl' = fl /\ ~ empty_layer (heap i) p
  | NoLayer =>
      Z.of_nat (length fl) < layers i /\ (empty_layer (heap i) p -> Z.of_nat (length fl) < l)
  | _ => True
  end.

Definition walk_result (i : idr) (N : nodes) (fl : list ptr) (t p : ptr) (l id : Z)
    (o : option (alloc_result * path * idr)) : Prop :=
  exists r pa' i' N' fl', o = Some (r, pa', i') /\ tree_ok (heap i') N' t (layers i) no_hole /\
    idr_spare i' N' fl' [] /\ top i' = Some t /\ layers i' = layers i /\ same_ids i N i' N' /\
    found_ok i N id r pa' i' N' /\ cost_ok i p l fl r fl'.

Lemma same_ids_refl i N : same_ids i N i N.
Proof. done. Qed.

(** Skipping taken ids first. *)
Lemma found_skip i N id0 id r pa i' N' :
  id0 <= id -> (forall j, id0 <= j < id -> full (heap i) N (-1) j = true) ->
  found_ok i N id r pa i' N' -> found_ok i N id0 r pa i' N'.
Proof.
  intros Hle Hskip. destruct r as [id'|id'| |]; cbn; try done.
  - intros (H1 & H2 & H3 & H4). split; [lia|]. split; [done|]. split; [|done]. intros j Hj.
    destruct (decide (j < id)); [apply Hskip; lia|apply H3; lia].
  - intros [-> H]. split; [done|]. intros j Hj. destruct (decide (j < id)); [apply Hskip; lia|apply H; lia].
Qed.

(** All bits from the digit of [id] on are set: the rest of the block is taken. *)
Lemma rest_taken h N t L l id p lay m :
  tree_ok h N t L no_hole -> 0 <= l -> N !! (l, id / 64 ^ (l + 1)) = Some p -> h !! p = Some lay ->
  (forall k, (id / 64 ^ l) mod 64 <= k < m -> Z.testbit (bitmap lay) k = true) -> 64 <= m ->
  forall j, id <= j < block_end id l -> full h N (-1) j = true.
Proof.
  intros Ht Hl HN Hh Hbits Hm j Hj. pose proof (block_prefix id l j Hl Hj) as Hpre.
  pose proof (digit_range (j / 64 ^ l)) as Hr.
  assert (j / 64 ^ l = 64 * (id / 64 ^ (l + 1)) + (j / 64 ^ l) mod 64) as Ej
    by (rewrite <- Hpre; symmetry; by apply prefix_down).
  apply (bit_below h N t L l (id / 64 ^ (l + 1)) p lay ((j / 64 ^ l) mod 64) j Ht HN Hh Hr); [|done].
  apply Hbits. split; [|lia]. pose proof (pow64_pos l Hl).
  assert (id / 64 ^ l <= j / 64 ^ l) as Hle by (apply Z.div_le_mono; lia).
  rewrite <- (prefix_down id l Hl) in Hle at 1. lia.
Qed.

(** The layer the search stands at. *)
Lemma walk_layer i N fl t pa p l id a :
  walk_ok i N fl t pa p l id a ->
  exists lay, heap i !! p = Some lay /\ node_ok (heap i) N no_hole l (id / 64 ^ (l + 1)) lay.
Proof. intros Hw. by apply (to_node _ _ _ _ _ (wo_tree _ _ _ _ _ _ _ _ _ Hw)), (wo_node _ _ _ _ _ _ _ _ _ Hw). Qed.

(** Zero digits: the layer has room from the start. *)
Lemma walk_aligned i N fl t pa p l id a lay :
  walk_ok i N fl t pa p l id a -> heap i !! p = Some lay -> l < a -> l < layers i - 1 ->
  find_next_zero_bit (bitmap lay) ((id / 64 ^ l) mod 64) < 64.
Proof.
  intros Hw Hh Hla Hl. rewrite (wo_digit _ _ _ _ _ _ _ _ _ Hw) by (pose proof (wo_level _ _ _ _ _ _ _ _ _ Hw); lia).
  destruct (find_next_zero_bit_spec (bitmap lay) 0) as (Hr & Hset & _); [lia|].
  destruct (decide (find_next_zero_bit (bitmap lay) 0 = 64)) as [E|]; [|lia]. exfalso. rewrite E in Hset.
  pose proof (wo_room _ _ _ _ _ _ _ _ _ Hw Hl) as Hroom.
  rewrite (full_node _ _ _ _ p lay) in Hroom;
    [|apply (wo_level _ _ _ _ _ _ _ _ _ Hw)|apply (wo_node _ _ _ _ _ _ _ _ _ Hw)|done].
  destruct (walk_layer _ _ _ _ _ _ _ _ _ Hw) as (lay' & Hh' & Hok). rewrite Hh in Hh'. injection Hh' as <-.
  rewrite (proj2 (full_bits _ (no_word _ _ _ _ _ _ Hok))) in Hroom; [done|]. intros n Hn. by apply Hset.
Qed.

(** The start of the next block, from the layer above or from the top. *)
Lemma walk_up_near i N fl t pa p l id a :
  walk_ok i N fl t pa p l id a -> block_end id l < 64 ^ layers i ->
  id / 64 ^ (l + 2) = block_end id l / 64 ^ (l + 2) ->
  exists q, pa !! (l + 1) = Some q /\ l + 1 < layers i /\
    walk_ok i N fl t pa q (l + 1) (block_end id l) (l + 1).
Proof.
  intros [H1 H2 H3 H4 H5 H6 H7 H8 H9 H10] Hend Heq.
  assert (l + 1 < layers i) as Hl1.
  { destruct (decide (l + 1 = layers i)) as [E|]; [|lia]. exfalso. unfold block_end in Hend. rewrite E in Hend.
    assert (0 <= id / 64 ^ layers i) by (apply Z.div_pos; lia). pose proof (pow64_pos (layers i)). nia. }
  destruct (po_node _ _ _ _ _ _ H8 (l + 1)) as [[q Hq] Hpa]; [lia|]. exists q. split; [done|]. split; [done|].
  pose proof (block_end_gt id l ltac:(lia)). replace (l + 2) with (l + 1 + 1) in Heq by lia.
  assert (forall k, l + 1 < k + 1 -> id / 64 ^ (k + 1) = block_end id l / 64 ^ (k + 1)) as Hpre.
  { intros k Hk. apply (prefix_eq_up _ _ (l + 1 + 1)); [lia|done]. }
  constructor; try done; [lia|lia| | |constructor|lia|].
  - rewrite <- Hpre by lia. by rewrite <- Hpa.
  - intros Hlt. rewrite <- Hpre by lia. apply (po_room _ _ _ _ _ _ H8). lia.
  - intros k Hk. rewrite <- Hpre by lia. apply (po_node _ _ _ _ _ _ H8). lia.
  - intros k Hk. rewrite <- Hpre by lia. apply (po_room _ _ _ _ _ _ H8). lia.
  - apply H8.
  - intros k Hk Hkl. apply multiple_digit. lia.
Qed.

Lemma walk_up_far i N fl t pa p l id a :
  walk_ok i N fl t pa p l id a -> block_end id l < 64 ^ layers i ->
  walk_ok i N fl t (delete (layers i) pa) t (layers i - 1) (block_end id l) (l + 1).
Proof.
  intros [H1 H2 H3 H4 H5 H6 H7 H8 H9 H10] Hend. pose proof (block_end_gt id l ltac:(lia)).
  constructor; try done; [lia|lia| |lia|constructor|lia|].
  - replace (layers i - 1 + 1) with (layers i) by lia. rewrite Z.div_small by lia. apply H1.
  - lia.
  - lia.
  - apply lookup_delete_eq.
  - intros k Hk Hkl. apply multiple_digit. lia.
Qed.

(** One level down, into the child with digit [m]. *)
Definition digit_id (id l m : Z) : Z :=
  if m =? (id / 64 ^ l) mod 64 then id else (64 * (id / 64 ^ (l + 1)) + m) * 64 ^ l.

Lemma digit_id_spec id l m :
  0 <= l -> (id / 64 ^ l) mod 64 <= m < 64 ->
  digit_id id l m / 64 ^ l = 64 * (id / 64 ^ (l + 1)) + m /\
  digit_id id l m / 64 ^ (l + 1) = id / 64 ^ (l + 1) /\ id <= digit_id id l m < block_end id l /\
  (forall k, 0 <= k < l -> (id / 64 ^ k) mod 64 = 0 -> (digit_id id l m / 64 ^ k) mod 64 = 0) /\
  (forall j, id <= j < digit_id id l m ->
    exists d, (id / 64 ^ l) mod 64 <= d < m /\ j / 64 ^ l = 64 * (id / 64 ^ (l + 1)) + d).
Proof.
  intros Hl Hm. unfold digit_id. destruct (m =? _) eqn:E; zbool.
  - subst m. pose proof (block_end_gt id l Hl). split; [symmetry; by apply prefix_down|]. split; [done|].
    split; [lia|]. split; [done|]. intros; lia.
  - destruct (digit_move id l m Hl) as (H1 & H2 & H3 & H4 & H5); [lia|]. split; [done|]. split; [done|].
    split; [lia|]. split; [|done]. intros k Hk _. by apply H4.
Qed.

(** The same as the code computes it. *)
Lemma digit_id_code id l m :
  0 <= l -> 0 <= m < 64 -> 0 <= (64 * (id / 64 ^ (l + 1)) + m) * 64 ^ l < 2 ^ 31 ->
  (if m =? (id / 64 ^ l) mod 64 then id
   else s32 (Z.shiftl (Z.lxor (Z.lxor (Z.shiftr id (IDR_BITS * l)) ((id / 64 ^ l) mod 64)) m) (IDR_BITS * l))) =
  digit_id id l m.
Proof.
  intros Hl Hm Hr. unfold digit_id. destruct (m =? _); [done|]. rewrite shiftr_digits by done.
  rewrite <- (prefix_down id l Hl) at 1. rewrite lxor_digits by (done || apply digit_range).
  rewrite Z.shiftl_mul_pow2 by (unfold IDR_BITS; lia). unfold IDR_BITS. rewrite Z.pow_mul_r by lia.
  change (2 ^ 6) with 64. unfold s32. by rewrite wraps_small by lia.
Qed.

Lemma walk_down_path h N pa L l id m p :
  path_ok h N pa L l id -> 0 <= l < L -> (id / 64 ^ l) mod 64 <= m < 64 ->
  N !! (l, id / 64 ^ (l + 1)) = Some p -> (l < L - 1 -> full h N l (id / 64 ^ (l + 1)) = false) ->
  path_ok h N (<[l := p]> pa) L (l - 1) (digit_id id l m).
Proof.
  intros [H1 H2 H3] Hl Hm HN Hroom. destruct (digit_id_spec id l m) as (_ & Hpre & _); [lia|done|].
  assert (forall k, l <= k -> digit_id id l m / 64 ^ (k + 1) = id / 64 ^ (k + 1)) as Hk.
  { intros k Hk. apply (prefix_eq_up _ _ (l + 1)); [lia|done]. }
  constructor.
  - intros k Hk'. rewrite Hk by lia. destruct (decide (k = l)) as [->|].
    + rewrite lookup_insert_eq, HN. by split.
    + rewrite lookup_insert_ne by done. apply H1. lia.
  - intros k Hk'. rewrite Hk by lia. destruct (decide (k = l)) as [->|]; [by apply Hroom; lia|]. apply H2. lia.
  - rewrite lookup_insert_ne by lia. done.
Qed.

(** Into a child that is there. *)
Lemma walk_descend i N fl t pa p l id a m q :
  walk_ok i N fl t pa p l id a -> 0 < l -> (id / 64 ^ l) mod 64 <= m < 64 ->
  N !! (l - 1, 64 * (id / 64 ^ (l + 1)) + m) = Some q ->
  full (heap i) N (l - 1) (64 * (id / 64 ^ (l + 1)) + m) = false ->
  walk_ok i N fl t (<[l := p]> pa) q (l - 1) (digit_id id l m) a.
Proof.
  intros [H1 H2 H3 H4 H5 H6 H7 H8 H9 H10] Hl Hm Hq Hroom.
  destruct (digit_id_spec id l m ltac:(lia) Hm) as (D1 & D2 & D3 & D4 & _).
  pose proof (block_end_le id l (layers i) H4 H5). replace l with (l - 1 + 1) in D1 at 2 by lia.
  constructor; try done; [lia|lia|by rewrite D1|by rewrite D1|by apply walk_down_path|].
  intros k Hk Hka. apply D4; [lia|]. apply H10; lia.
Qed.

Lemma update_spec p f i lay : heap i !! p = Some lay -> update p f i = Some (set_heap (<[p := f lay]> (heap i)) i).
Proof. intros Hh. unfold update. by rewrite Hh. Qed.

Lemma spare_fresh i N fl own p a : idr_spare i N fl own -> p ∈ own -> N !! a <> Some p.
Proof. intros Hs Hp. by destruct (sp_own _ _ _ _ _ _ Hs p Hp) as (_ & _ & ?). Qed.

(** Into a child made from a spare layer. *)
Lemma walk_create i N fl t pa p l id a m lay new :
  walk_ok i N (new :: fl) t pa p l id a -> heap i !! p = Some lay -> 0 < l -> (id / 64 ^ l) mod 64 <= m < 64 ->
  N !! (l - 1, 64 * (id / 64 ^ (l + 1)) + m) = None ->
  exists i1 i2 i3 i4, get_from_free_list i = Some (Some new, i1) /\
    update new (set_layer (l - 1)) i1 = Some i2 /\ update p (set_ary m (Some new)) i2 = Some i3 /\
    update p (fun lay => set_count (count lay + 1) lay) i3 = Some i4 /\ layers i4 = layers i /\
    let N' := <[(l - 1, 64 * (id / 64 ^ (l + 1)) + m) := new]> N in
    same_ids i N i4 N' /\ empty_layer (heap i4) new /\
    walk_ok i4 N' fl t (<[l := p]> pa) new (l - 1) (digit_id id l m) a.
Proof.
  intros Hw Hh Hl Hm Hnone. pose proof Hw as [H1 H2 H3 H4 H5 H6 H7 H8 H9 H10].
  set (x := id / 64 ^ (l + 1)) in *. pose proof (digit_range (id / 64 ^ l)).
  destruct (get_from_free_list_spec i N (new :: fl) [] H2) as (lz & i1 & Z1 & Z2 & Z3 & G & G1 & G2 & G3 & G4 & _).
  assert (forall b, N !! b <> Some new) as Hnew by (intros b; apply (spare_fresh _ _ _ _ _ _ G4); constructor).
  assert (new <> p) as Hne by (intros ->; by apply (Hnew (l, x))).
  assert (p ∉ fl) as Hpf.
  { intros Hp. by apply (sp_tree _ _ _ _ _ _ G4 p (l, x)). }
  assert (new ∉ fl) as Hnf by (destruct (sp_own _ _ _ _ _ _ G4 new) as (_ & ? & _); [constructor|done]).
  set (lq := set_layer (l - 1) lz). set (lay' := set_count (count lay + 1) (set_ary m (Some new) lay)).
  set (h' := <[p := lay']> (<[new := lq]> (heap i))).
  set (N' := <[(l - 1, 64 * x + m) := new]> N).
  exists i1, (set_heap (<[new := lq]> (heap i)) i1),
    (set_heap (<[p := set_ary m (Some new) lay]> (<[new := lq]> (heap i))) i1), (set_heap h' i1).
  split; [done|]. split.
  { rewrite (update_spec _ _ _ lz); rewrite G3; [|apply lookup_insert_eq]. by rewrite insert_insert_eq. }
  split. { rewrite (update_spec _ _ _ lay); [done|]. cbn. by rewrite lookup_insert_ne by done. }
  split.
  { rewrite (update_spec _ _ _ (set_ary m (Some new) lay)); cbn; [|apply lookup_insert_eq]. by rewrite insert_insert_eq. }
  split; [done|]. cbn zeta. fold N'.
  assert (tree_ok h' N' t (layers i) no_hole) as Htree by (apply tree_add_child; (done || lia)).
  assert (same_ids i N (set_heap h' i1) N') as Hsame.
  { constructor; cbn; intros; [apply (add_slot _ _ t (layers i))|apply (add_full _ _ t (layers i))]; (done || lia). }
  split; [done|]. split. { exists lq. cbn. unfold h'. by rewrite lookup_insert_ne, lookup_insert_eq by done. }
  destruct (digit_id_spec id l m ltac:(lia) Hm) as (D1 & D2 & D3 & D4 & _). fold x in D1, D2.
  pose proof (block_end_le id l (layers i) H4 H5). replace l with (l - 1 + 1) in D1 at 2 by lia.
  constructor; cbn; rewrite ?G1, ?G2; try done; [|lia|lia|by rewrite D1; apply lookup_insert_eq| | |].
  - unfold idr_spare. cbn. apply (spare_adopt _ _ _ _ _ [] new); [|by apply not_elem_of_nil|done].
    apply spare_update; [|done|rewrite lookup_insert_ne, Hh by done; done].
    replace (<[new := lq]> (heap i)) with (<[new := lq]> (heap i1)) by (rewrite G3; apply insert_insert_eq).
    apply spare_update; [done|done|]. by rewrite G3, lookup_insert_eq.
  - intros _. rewrite D1, (si_full _ _ _ _ Hsame). apply full_absent; [lia|done].
  - assert (path_ok (heap i) N (<[l := p]> pa) (layers i) (l - 1) (digit_id id l m)) as [P1 P2 P3]
      by (by apply walk_down_path).
    constructor; [|intros k Hk; rewrite (si_full _ _ _ _ Hsame); by apply P2|done].
    intros k Hk. destruct (P1 k Hk) as [Hs E]. split; [done|]. rewrite E. rewrite E in Hs. destruct Hs as [r Hr].
    rewrite Hr. symmetry. by apply add_old.
  - intros k Hk Hka. apply D4; [lia|]. apply H10; lia.
Qed.

(** An empty layer has room everywhere. *)
Lemma empty_next h p lay n :
  empty_layer h p -> h !! p = Some lay -> 0 <= n < 64 -> find_next_zero_bit (bitmap lay) n = n.
Proof.
  intros (lay' & Hh & Hb & _) Hh' Hn. rewrite Hh in Hh'. injection Hh' as <-. rewrite Hb.
  destruct (find_next_zero_bit_spec 0 n) as (H1 & H2 & _); [lia|].
  destruct (decide (n < find_next_zero_bit 0 n)); [|lia].
  specialize (H2 n ltac:(lia)). by rewrite Z.testbit_0_l in H2.
Qed.

(** The result of the search from the child is one of the search from the
    layer. *)
Lemma walk_result_step i N fl t p l id i1 N1 fl1 q l1 id1 o :
  walk_result i1 N1 fl1 t q l1 id1 o -> same_ids i N i1 N1 -> layers i1 = layers i ->
  id <= id1 -> (forall j, id <= j < id1 -> full (heap i) N (-1) j = true) ->
  (forall r fl', cost_ok i1 q l1 fl1 r fl' -> cost_ok i p l fl r fl') ->
  walk_result i N fl t p l id o.
Proof.
  intros (r & pa' & i' & N' & fl' & Ho & W1 & W2 & W3 & W4 & W5 & W6 & W7) Hsame HL Hle Hskip Hcost.
  exists r, pa', i', N', fl'. rewrite HL in *. split; [done|]. split; [done|]. split; [done|]. split; [done|].
  split; [done|]. split.
  { destruct W5, Hsame. constructor; congruence. }
  split; [|by apply Hcost]. apply (found_skip _ _ _ id1); [done|done|].
  destruct r; cbn [found_ok] in *; rewrite ?HL in *; try done.
  - destruct W6 as (F1 & F2 & F3 & F4). split; [done|]. rewrite <- (si_full _ _ _ _ Hsame). split; [done|].
    split; [|done]. intros j Hj. rewrite <- (si_full _ _ _ _ Hsame). by apply F3.
  - destruct W6 as [F1 F2]. split; [done|]. intros j Hj. rewrite <- (si_full _ _ _ _ Hsame). by apply F2.
Qed.

(** Enough fuel: a way up raises the level [a] below which all digits are
    zero, a way down lowers [l]. *)
Definition walks (fuel : nat) : Prop := forall pa p l id i N fl t a,
  walk_ok i N fl t pa p l id a -> (layers i - a) * (layers i + 1) + l < Z.of_nat fuel ->
  walk_result i N fl t p l id (sub_alloc_loop fuel pa p l id i).

Lemma walk_levels i N fl t pa p l id a :
  walk_ok i N fl t pa p l id a -> 1 <= layers i <= 5 /\ 1 <= 64 ^ layers i <= 2 ^ 30.
Proof.
  intros Hw. pose proof (to_levels _ _ _ _ _ (wo_tree _ _ _ _ _ _ _ _ _ Hw)) as HL. change MAX_LEVEL with 6 in HL.
  split; [lia|]. apply pow64_max. lia.
Qed.

Lemma walks_up fuel pa p l id i N fl t a lay :
  walks fuel -> walk_ok i N fl t pa p l id a -> (layers i - a) * (layers i + 1) + l < Z.of_nat (S fuel) ->
  heap i !! p = Some lay -> find_next_zero_bit (bitmap lay) ((id / 64 ^ l) mod 64) = 64 ->
  walk_result i N fl t p l id (sub_alloc_loop (S fuel) pa p l id i).
Proof.
  intros IH Hw Hfuel Hh Hm. pose proof Hw as [H1 H2 H3 H4 H5 H6 H7 H8 H9 H10].
  destruct (walk_levels _ _ _ _ _ _ _ _ _ Hw) as [HL Hmax].
  cbn [sub_alloc_loop]. rewrite Hh. cbn [mbind option_bind]. rewrite slot_of_digit by lia. rewrite Hm.
  change (64 =? IDR_SIZE) with true. pose proof (digit_range (id / 64 ^ l)) as Hn.
  destruct (find_next_zero_bit_spec (bitmap lay) ((id / 64 ^ l) mod 64)) as (_ & Hset & _); [lia|].
  assert (~ empty_layer (heap i) p) as Hne by (intros He; rewrite (empty_next _ _ _ _ He Hh Hn) in Hm; lia).
  pose proof (rest_taken _ _ _ _ l id p lay _ H1 ltac:(lia) H6 Hh Hset ltac:(lia)) as Htaken.
  pose proof (block_end_le id l (layers i) H4 H5) as Hble. pose proof (block_end_gt id l ltac:(lia)) as Hbgt.
  rewrite block_end_lor by lia. unfold s32. rewrite (Z.mul_comm (layers i)), shiftl_digits, !wraps_small by lia.
  destruct (block_end id l >=? 64 ^ layers i) eqn:Eb; zbool.
  { exists (NeedToGrow (block_end id l)), pa, i, N, fl. split; [done|]. do 4 (split; [done|]).
    split; [apply same_ids_refl|]. split; [|done]. split; [lia|done]. }
  assert (l + 1 < layers i) as Hl1.
  { destruct (decide (l + 1 = layers i)) as [E|]; [|lia]. unfold block_end in Eb.
    rewrite E, Z.div_small in Eb by lia. lia. }
  assert (a <= l) as Hal.
  { destruct (decide (a <= l)); [done|]. pose proof (walk_aligned _ _ _ _ _ _ _ _ _ _ Hw Hh). lia. }
  assert (forall q l1 o, walk_result i N fl t q l1 (block_end id l) o -> walk_result i N fl t p l id o) as Hstep.
  { intros q l1 o Hr. apply (walk_result_step _ _ _ _ _ _ _ _ _ _ _ _ _ _ Hr); [apply same_ids_refl|done|lia|done|].
    intros r fl' Hc. destruct r; cbn in *; try done; (split; [apply Hc|done]). }
  rewrite !shiftr_digits by lia. replace (l + 1 + 1) with (l + 2) by lia.
  destruct (po_node _ _ _ _ _ _ H8 (l + 1) ltac:(lia)) as [[q Hq] _]. rewrite Hq. cbn [mbind option_bind].
  destruct (id / 64 ^ (l + 2) =? block_end id l / 64 ^ (l + 2)) eqn:Ep; zbool.
  - destruct (walk_up_near _ _ _ _ _ _ _ _ _ Hw Eb Ep) as (q' & Hq' & _ & Hw'). rewrite Hq in Hq'. injection Hq' as <-.
    apply (Hstep q (l + 1)). apply (IH _ _ _ _ _ _ _ _ _ Hw'). nia.
  - pose proof (walk_up_far _ _ _ _ _ _ _ _ _ Hw Eb) as Hw'. rewrite H3. cbn [mbind option_bind].
    apply (Hstep t (layers i - 1)). apply (IH _ _ _ _ _ _ _ _ _ Hw'). nia.
Qed.

(** The bit found is clear: the id has room there, and those before are taken. *)
Lemma digit_found i N fl t pa p l id a lay m :
  walk_ok i N fl t pa p l id a -> heap i !! p = Some lay ->
  find_next_zero_bit (bitmap lay) ((id / 64 ^ l) mod 64) = m -> m < 64 ->
  (id / 64 ^ l) mod 64 <= m /\ full (heap i) N (l - 1) (64 * (id / 64 ^ (l + 1)) + m) = false /\
  forall j, id <= j < digit_id id l m -> full (heap i) N (-1) j = true.
Proof.
  intros Hw Hh Hf Hm. pose proof (digit_range (id / 64 ^ l)) as Hn.
  destruct (find_next_zero_bit_spec (bitmap lay) ((id / 64 ^ l) mod 64)) as (Hr & Hset & Hclear); [lia|].
  rewrite Hf in *. split; [lia|]. destruct (walk_layer _ _ _ _ _ _ _ _ _ Hw) as (lay' & Hh' & Hok).
  rewrite Hh in Hh'. injection Hh' as <-. pose proof (wo_level _ _ _ _ _ _ _ _ _ Hw) as Hl. split.
  - specialize (Hclear Hm). by rewrite (no_bit _ _ _ _ _ _ Hok) in Hclear by lia.
  - intros j Hj. destruct (digit_id_spec id l m ltac:(lia) ltac:(lia)) as (_ & _ & _ & _ & Hd).
    destruct (Hd j Hj) as (d & Hd1 & Hd2).
    apply (bit_below _ _ t (layers i) l (id / 64 ^ (l + 1)) p lay d j); try done.
    + apply (wo_tree _ _ _ _ _ _ _ _ _ Hw).
    + apply (wo_node _ _ _ _ _ _ _ _ _ Hw).
    + lia.
    + by apply Hset.
Qed.

(** Into the child with digit [m], made when it is missing. *)
Lemma walks_into fuel pa p l id i N fl t a lay m :
  walks fuel -> walk_ok i N fl t pa p l id a -> (layers i - a) * (layers i + 1) + l < Z.of_nat (S fuel) ->
  heap i !! p = Some lay -> find_next_zero_bit (bitmap lay) ((id / 64 ^ l) mod 64) = m -> m < 64 -> 0 < l ->
  walk_result i N fl t p l id
    (slot ← get_ary i p m;
     match slot with
     | Some q => sub_alloc_loop fuel (<[l := p]> pa) q (l - 1) (digit_id id l m) i
     | None =>
         '(new, i) ← get_from_free_list i;
         match new with
         | None => Some (NoLayer, pa, i)
         | Some new =>
             i ← update new (set_layer (l - 1)) i;
             i ← update p (set_ary m (Some new)) i;
             i ← update p (fun lay => set_count (count lay + 1) lay) i;
             sub_alloc_loop fuel (<[l := p]> pa) new (l - 1) (digit_id id l m) i
         end
     end).
Proof.
  intros IH Hw Hfuel Hh Hm Hlt Hl. pose proof (wo_level _ _ _ _ _ _ _ _ _ Hw) as Hlev.
  pose proof (digit_range (id / 64 ^ l)) as Hn.
  destruct (digit_found _ _ _ _ _ _ _ _ _ _ _ Hw Hh Hm Hlt) as (Hnm & Hroom & Hskip).
  destruct (digit_id_spec id l m ltac:(lia) ltac:(lia)) as (_ & _ & D3 & _ & _).
  destruct (walk_layer _ _ _ _ _ _ _ _ _ Hw) as (lay' & Hh' & Hok). rewrite Hh in Hh'. injection Hh' as <-.
  unfold get_ary. rewrite Hh. rewrite (no_child _ _ _ _ _ _ Hok) by lia. cbn [mbind option_bind].
  destruct (N !! (l - 1, 64 * (id / 64 ^ (l + 1)) + m)) as [q|] eqn:Eq.
  - pose proof (walk_descend _ _ _ _ _ _ _ _ _ m q Hw ltac:(lia) ltac:(lia) Eq Hroom) as Hw'.
    assert (~ empty_layer (heap i) p) as Hne.
    { intros (lay' & Hh' & _ & Ha). rewrite Hh in Hh'. injection Hh' as <-.
      pose proof (no_child _ _ _ _ _ _ Hok ltac:(lia) m ltac:(lia)) as Hc. rewrite Eq, Ha in Hc.
      apply lookup_replicate in Hc as [Hc _]. done. }
    apply (walk_result_step _ _ _ _ _ _ _ i N fl q (l - 1) (digit_id id l m));
      [apply (IH _ _ _ _ _ _ _ _ _ Hw'); lia|apply same_ids_refl|done|lia|done|].
    intros r fl' Hc. destruct r; cbn in *; try done; (split; [apply Hc|done]).
  - destruct fl as [|new fl].
    { rewrite (get_from_free_list_spec i N [] [] (wo_spare _ _ _ _ _ _ _ _ _ Hw)). cbn [mbind option_bind].
      exists NoLayer, pa, i, N, []. destruct Hw. split; [done|]. do 4 (split; [done|]).
      split; [apply same_ids_refl|]. split; [done|]. cbn. split; [lia|]. intros. lia. }
    destruct (walk_create _ _ _ _ _ _ _ _ _ m lay new Hw Hh ltac:(lia) ltac:(lia) Eq)
      as (i1 & i2 & i3 & i4 & G1 & G2 & G3 & G4 & G5 & Hsame & Hemp & Hw').
    rewrite G1. cbn [mbind option_bind]. rewrite G2. cbn [mbind option_bind]. rewrite G3. cbn [mbind option_bind].
    rewrite G4. cbn [mbind option_bind].
    apply (walk_result_step _ _ _ _ _ _ _ i4 _ fl new (l - 1) (digit_id id l m)
      _ (IH _ _ _ _ _ _ _ _ _ Hw' ltac:(rewrite G5; lia)) Hsame G5); [lia|done|].
    intros r fl' Hc. destruct r; cbn in *; rewrite ?G5 in *; try done.
    + by destruct Hc.
    + destruct Hc as [_ Hc]. specialize (Hc Hemp). split; intros; lia.
Qed.

Lemma walks_down fuel pa p l id i N fl t a lay m :
  walks fuel -> walk_ok i N fl t pa p l id a -> (layers i - a) * (layers i + 1) + l < Z.of_nat (S fuel) ->
  heap i !! p = Some lay -> find_next_zero_bit (bitmap lay) ((id / 64 ^ l) mod 64) = m -> m < 64 ->
  walk_result i N fl t p l id (sub_alloc_loop (S fuel) pa p l id i).
Proof.
  intros IH Hw Hfuel Hh Hm Hlt. pose proof Hw as [H1 H2 H3 H4 H5 H6 H7 H8 H9 H10].
  destruct (walk_levels _ _ _ _ _ _ _ _ _ Hw) as [HL Hmax]. pose proof (digit_range (id / 64 ^ l)) as Hn.
  destruct (digit_found _ _ _ _ _ _ _ _ _ _ _ Hw Hh Hm Hlt) as (Hnm & Hroom & Hskip).
  destruct (digit_id_spec id l m ltac:(lia) ltac:(lia)) as (D1 & D2 & D3 & D4 & _).
  pose proof (block_end_le id l (layers i) H4 H5) as Hble.
  cbn [sub_alloc_loop]. rewrite Hh. cbn [mbind option_bind]. rewrite slot_of_digit by lia. rewrite Hm.
  change IDR_SIZE with 64. replace (m =? 64) with false by lia. rewrite digit_id_code; [|lia|lia|].
  2: { pose proof (Z.div_mod (digit_id id l m) (64 ^ l) ltac:(pose proof (pow64_pos l); lia)) as Hdm.
       pose proof (Z.mod_pos_bound (digit_id id l m) (64 ^ l) ltac:(apply pow64_pos; lia)).
       rewrite D1 in Hdm. assert (0 <= id / 64 ^ (l + 1)) by (apply Z.div_pos; [lia|apply pow64_pos; lia]).
       pose proof (pow64_pos l). nia. }
  unfold u32. rewrite wrapu_small by lia. change MAX_ID_BIT with (2 ^ 31).
  replace ((digit_id id l m >=? 2 ^ 31) || (digit_id id l m <? 0)) with false by (symmetry; apply orb_false_iff; lia).
  destruct (l =? 0) eqn:El; zbool; [|apply (walks_into _ _ _ _ _ _ _ _ _ a lay); (done || lia)].
  exists (Found (digit_id id l m)), (<[0 := p]> pa), i, N, fl. split; [done|]. do 4 (split; [done|]).
  split; [apply same_ids_refl|]. split; [|done]. subst l. split; [lia|]. change (0 - 1) with (-1) in Hroom.
  rewrite Z.pow_0_r, Z.div_1_r in D1. rewrite D1 at 1. split; [done|]. split; [done|].
  by apply (walk_down_path _ _ _ _ 0 id m).
Qed.

Lemma sub_alloc_loop_spec fuel : walks fuel.
Proof.
  induction fuel as [|fuel IH]; intros pa p l id i N fl t a Hw Hfuel.
  { pose proof (wo_align _ _ _ _ _ _ _ _ _ Hw). pose proof (wo_level _ _ _ _ _ _ _ _ _ Hw). nia. }
  destruct (walk_layer _ _ _ _ _ _ _ _ _ Hw) as (lay & Hh & Hok). pose proof (digit_range (id / 64 ^ l)) as Hn.
  destruct (find_next_zero_bit_spec (bitmap lay) ((id / 64 ^ l) mod 64)) as (Hm & _ & _); [lia|].
  destruct (decide (find_next_zero_bit (bitmap lay) ((id / 64 ^ l) mod 64) = 64)) as [E|].
  - by apply (walks_up _ _ _ _ _ _ _ _ _ a lay).
  - apply (walks_down _ _ _ _ _ _ _ _ _ a lay _ IH Hw Hfuel Hh eq_refl). lia.
Qed.

Lemma sub_alloc_spec id pa i N fl t :
  tree_ok (heap i) N t (layers i) no_hole -> idr_spare i N fl [] -> top i = Some t -> 0 <= id < 64 ^ layers i ->
  walk_result i N fl t t (layers i - 1) id (sub_alloc id pa i).
Proof.
  intros Ht Hs Htop Hid. unfold sub_alloc. rewrite Htop. cbn [mbind option_bind].
  pose proof (to_levels _ _ _ _ _ Ht) as HL. change MAX_LEVEL with 6 in HL.
  apply (sub_alloc_loop_spec _ _ _ _ _ _ _ _ _ 0).
  - constructor; try done; [lia| |lia|constructor|lia|lia].
    + replace (layers i - 1 + 1) with (layers i) by lia. rewrite Z.div_small by lia. apply Ht.
    + lia.
    + lia.
    + apply lookup_delete_eq.
  - change (Z.of_nat sub_alloc_fuel) with 49. nia.
Qed.

(** ** Growing *)

(** The layer on the way to the top just below it. *)
Lemma below_top h N t L hole : tree_ok h N t L hole -> forall (n : nat) l x p,
  N !! (l, x) = Some p -> L - 1 - l = Z.of_nat (S n) -> exists y q, 0 <= y < 64 /\ N !! (L - 2, y) = Some q.
Proof.
  intros Ht. induction n as [|n IH]; intros l x p HN Hn.
  - exists x, p. destruct (to_dom _ _ _ _ _ Ht _ _ _ HN) as [Hl Hx]. replace (L - 1 - l) with 1 in Hx by lia.
    split; [lia|]. by replace (L - 2) with l by lia.
  - destruct (to_parent _ _ _ _ _ Ht _ _ _ HN ltac:(lia)) as [q Hq]. apply (IH _ _ _ Hq). lia.
Qed.

(** A tree whose top layer has no slot in use is that layer only. *)
Lemma empty_tree h N t L lay :
  tree_ok h N t L no_hole -> h !! t = Some lay -> count lay = 0 ->
  N = {[ (L - 1, 0) := t ]} /\ bitmap lay = 0 /\ ary lay = replicate 64 None.
Proof.
  intros Ht Hh Hc. pose proof (to_levels _ _ _ _ _ Ht) as HL.
  destruct (to_node _ _ _ _ _ Ht _ _ _ (to_top _ _ _ _ _ Ht)) as (lay' & Hh' & [N1 N2 N3 N4 N5 N6]).
  rewrite Hh in Hh'. injection Hh' as <-. rewrite N3 in Hc.
  pose proof (proj1 (count_some_zero (ary lay)) Hc) as Hnull.
  assert (forall n, 0 <= n < 64 -> ary lay !! Z.to_nat n = Some None) as Hary.
  { intros n Hn. destruct (lookup_lt_is_Some_2 (ary lay) (Z.to_nat n)) as [v Hv]; [lia|]. by rewrite Hv, (Hnull _ _ Hv). }
  assert (forall l x p, N !! (l, x) = Some p -> l = L - 1) as Honly.
  { intros l x p HN. destruct (to_dom _ _ _ _ _ Ht _ _ _ HN) as [Hl _].
    destruct (decide (l = L - 1)); [done|]. exfalso.
    destruct (below_top _ _ _ _ _ Ht (Z.to_nat (L - 2 - l)) _ _ _ HN ltac:(lia)) as (y & q & Hy & Hq).
    specialize (N5 ltac:(lia) y Hy). rewrite Hary in N5 by done.
    replace (L - 1 - 1) with (L - 2) in N5 by lia. rewrite Z.mul_0_r, Z.add_0_l, Hq in N5. done. }
  split; [|split].
  - apply map_eq. intros [l x]. destruct (decide ((l, x) = (L - 1, 0))) as [[= -> ->]|Hne].
    + by rewrite lookup_singleton_eq, (to_top _ _ _ _ _ Ht).
    + rewrite lookup_singleton_ne by done. destruct (N !! (l, x)) as [p|] eqn:E; [|done]. exfalso.
      pose proof (Honly _ _ _ E) as ->. destruct (to_dom _ _ _ _ _ Ht _ _ _ E) as [_ Hx].
      replace (L - 1 - (L - 1)) with 0 in Hx by lia. apply Hne. f_equal. lia.
  - apply Z.bits_inj'. intros b Hb. rewrite Z.bits_0. destruct (decide (b < 64)) as [Hb'|].
    + rewrite N6 by lia. unfold bit. cbn [no_hole negb andb]. unfold full. destruct (L - 1 - 1 =? -1) eqn:EL; zbool.
      * unfold slot_at. destruct (N !! (0, _)) as [p|] eqn:Ep; [|done]. pose proof (to_top _ _ _ _ _ Ht) as Htop.
        rewrite Z.mul_0_r, Z.add_0_l, Z.div_small in Ep by lia. replace (L - 1) with 0 in Htop by lia.
        rewrite Htop in Ep. injection Ep as <-. rewrite Hh. rewrite Z.mul_0_r, Z.add_0_l, Z.mod_small by lia.
        by rewrite Hary by lia.
      * destruct (N !! (L - 1 - 1, _)) as [p|] eqn:Ep; [|done]. pose proof (Honly _ _ _ Ep). lia.
    + apply word64_high; [done|lia].
  - apply list_eq. intros n. destruct (decide (n < 64)%nat).
    + rewrite (lookup_replicate_2 64) by done. replace n with (Z.to_nat (Z.of_nat n)) by lia. apply Hary. lia.
    + rewrite !lookup_ge_None_2; [done|rewrite length_replicate; lia|lia].
Qed.

(** Moving the only layer up. *)
Lemma single_tree h t L lay :
  1 <= L < MAX_LEVEL -> h !! t = Some lay -> layer lay = L - 1 -> count lay = 0 -> bitmap lay = 0 ->
  ary lay = replicate 64 None ->
  tree_ok h {[ (L - 1, 0) := t ]} t L no_hole /\ forall id, slot_at h {[ (L - 1, 0) := t ]} id = None.
Proof.
  intros HL Hh Hl Hc Hb Ha.
  assert (forall id, slot_at h {[ (L - 1, 0) := t ]} id = None) as Hslot.
  { intros id. unfold slot_at. destruct (({[ (L - 1, 0) := t ]} : nodes) !! (0, id / 64)) as [p|] eqn:E; [|done].
    apply lookup_singleton_Some in E as [_ <-]. rewrite Hh, Ha, (lookup_replicate_2 64); [done|].
    pose proof (digit_range id). lia. }
  split; [|done]. constructor; [done|apply lookup_singleton_eq|..].
  - intros l x p [[= <- <-] _]%lookup_singleton_Some. split; [lia|]. by replace (L - 1 - (L - 1)) with 0 by lia.
  - intros a b p [<- _]%lookup_singleton_Some [<- _]%lookup_singleton_Some. done.
  - intros l x p [[= <- <-] <-]%lookup_singleton_Some. exists lay. split; [done|].
    constructor; [done|by rewrite Ha|by rewrite Ha, count_some_replicate|by rewrite Hb|..].
    + intros Hl1 n Hn. rewrite Ha, (lookup_replicate_2 64) by lia. symmetry. f_equal.
      apply lookup_singleton_ne. intros [=]. lia.
    + intros n Hn. rewrite Hb, Z.testbit_0_l. unfold bit, full. rewrite Hslot. destruct (_ =? -1); [done|].
      rewrite lookup_singleton_ne; [done|]. intros [=]. lia.
  - intros l x p [[= <- <-] _]%lookup_singleton_Some. lia.
Qed.

(** *** A new top above the old one *)
Section GrowTop.
Context (h : gmap ptr idr_layer) (N : nodes) (t : ptr) (L : Z) (lt lq : idr_layer) (q : ptr).
Hypothesis Ht : tree_ok h N t L no_hole.
Hypothesis HL : L + 1 < MAX_LEVEL.
Hypothesis Hq : forall a, N !! a <> Some q.
Hypothesis Hlt : h !! t = Some lt.
Hypothesis Hlay : layer lq = L.
Hypothesis Hary : ary lq = Some t :: replicate 63 None.
Hypothesis Hcount : count lq = 1.
Hypothesis Hbits : bitmap lq = if bitmap lt =? IDR_FULL then 1 else 0.

Let h' := <[q := lq]> h.
Let N' := <[(L, 0) := q]> N.

Lemma grow_old a p : N !! a = Some p -> N' !! a = Some p /\ h' !! p = h !! p.
Proof.
  intros HN. unfold N', h'. split.
  - rewrite lookup_insert_ne; [done|]. intros <-. destruct (to_dom _ _ _ _ _ Ht _ _ _ HN). lia.
  - rewrite lookup_insert_ne; [done|]. intros ->. by apply (Hq a).
Qed.

Lemma grow_inv a p : N' !! a = Some p -> (a = (L, 0) /\ p = q) \/ (a <> (L, 0) /\ N !! a = Some p).
Proof.
  unfold N'. destruct (decide ((L, 0) = a)) as [<-|]; [rewrite lookup_insert_eq; intros [= <-]; by left|].
  rewrite lookup_insert_ne by done. by right.
Qed.

Lemma grow_slot id : slot_at h' N' id = slot_at h N id.
Proof.
  unfold slot_at. destruct (N !! (0, id / 64)) as [r|] eqn:Er.
  - destruct (grow_old _ _ Er) as [-> ->]. done.
  - destruct (N' !! (0, id / 64)) as [r|] eqn:Er'; [|done]. destruct (grow_inv _ _ Er') as [[[= E _] _]|[_ ?]]; [|congruence].
    pose proof (to_levels _ _ _ _ _ Ht). lia.
Qed.

Lemma grow_full k y : k < L -> full h' N' k y = full h N k y.
Proof.
  intros Hk. unfold full. rewrite grow_slot. destruct (k =? -1); [done|]. destruct (N !! (k, y)) as [r|] eqn:Er.
  - destruct (grow_old _ _ Er) as [-> ->]. done.
  - destruct (N' !! (k, y)) as [r|] eqn:Er'; [|done]. destruct (grow_inv _ _ Er') as [[[= E _] _]|[_ ?]]; [lia|congruence].
Qed.

Lemma grow_node_new : node_ok h' N' no_hole L 0 lq.
Proof.
  pose proof (to_levels _ _ _ _ _ Ht) as HL1.
  assert (forall n, 1 <= n < 64 -> N !! (L - 1, n) = None) as Hnone.
  { intros n Hn. destruct (N !! (L - 1, n)) as [r|] eqn:E; [|done]. destruct (to_dom _ _ _ _ _ Ht _ _ _ E) as [_ Hx].
    replace (L - 1 - (L - 1)) with 0 in Hx by lia. lia. }
  constructor; [done|by rewrite Hary|rewrite Hary, Hcount; cbn; done|rewrite Hbits; by case_match|..].
  - intros _ n Hn. rewrite Hary, Z.mul_0_r, Z.add_0_l. unfold N'. rewrite lookup_insert_ne by (intros [=]; lia).
    destruct (decide (n = 0)) as [->|]; [by rewrite (to_top _ _ _ _ _ Ht)|].
    rewrite Hnone by lia. replace (Z.to_nat n) with (S (Z.to_nat (n - 1))) by lia.
    cbn [lookup list_lookup]. apply lookup_replicate_2. lia.
  - intros n Hn. unfold bit. cbn [no_hole negb andb]. rewrite grow_full, Z.mul_0_r, Z.add_0_l by lia.
    destruct (decide (n = 0)) as [->|].
    + rewrite (full_node h N (L - 1) 0 t lt), Hbits by (lia || done || apply Ht). by destruct (_ =? _).
    + rewrite full_absent by (lia || apply Hnone; lia). rewrite Hbits. destruct (_ =? _); [|apply Z.testbit_0_l].
      change 1 with (2 ^ 0). apply Z.pow2_bits_false. lia.
Qed.

Lemma tree_grow : tree_ok h' N' q (L + 1) no_hole.
Proof.
  pose proof Ht as [H1 H2 H3 H4 H5 H6]. constructor; [lia| |..].
  - replace (L + 1 - 1) with L by lia. apply lookup_insert_eq.
  - intros l x p HN. destruct (grow_inv _ _ HN) as [[[= -> ->] _]|[_ HN']].
    + split; [lia|]. replace (L + 1 - 1 - L) with 0 by lia. done.
    + destruct (H3 _ _ _ HN') as [Hl Hx]. split; [lia|]. split; [lia|]. replace (L + 1 - 1 - l) with (L - 1 - l + 1) by lia.
      rewrite pow64_succ by lia. lia.
  - intros a b p Ha Hb. destruct (grow_inv _ _ Ha) as [[-> ->]|[Hna Ha']], (grow_inv _ _ Hb) as [[-> Hp]|[Hnb Hb']].
    + done.
    + by destruct (Hq b).
    + subst p. by destruct (Hq a).
    + by apply (H4 _ _ p).
  - intros l x p HN. destruct (grow_inv _ _ HN) as [[[= -> ->] ->]|[_ HN']].
    + exists lq. split; [apply lookup_insert_eq|apply grow_node_new].
    + destruct (H5 _ _ _ HN') as (lay & Hh & [M1 M2 M3 M4 M5 M6]). destruct (grow_old _ _ HN') as [_ Hh'].
      exists lay. rewrite Hh'. split; [done|]. destruct (H3 _ _ _ HN') as [Hl _]. constructor; try done.
      * intros Hl0 n Hn. rewrite M5 by done. unfold N'. rewrite lookup_insert_ne by (intros [=]; lia). done.
      * intros n Hn. rewrite M6 by done. unfold bit. by rewrite grow_full by lia.
  - intros l x p HN Hl. destruct (grow_inv _ _ HN) as [[[= -> ->] ->]|[_ HN']]; [lia|].
    destruct (decide (l < L - 1)) as [Hlt'|].
    + destruct (H6 _ _ _ HN' Hlt') as [r Hr]. exists r. by apply grow_old.
    + destruct (H3 _ _ _ HN') as [_ Hx]. exists q. replace (L - 1 - l) with 0 in Hx by lia.
      replace x with 0 by lia. replace (l + 1) with L by lia. apply lookup_insert_eq.
Qed.
End GrowTop.

(** *** Giving back what was built *)

(** Layers built one above the other on a tree. *)
Inductive tower (h : gmap ptr idr_layer) (N0 : nodes) (t0 : ptr) (L0 : Z) : nodes -> ptr -> Z -> Prop :=
| tower_base : tower h N0 t0 L0 N0 t0 L0
| tower_up N p L q lay :
    tower h N0 t0 L0 N p L -> (forall a, N !! a <> Some q) -> N !! (L, 0) = None -> h !! q = Some lay ->
    ary lay = Some p :: replicate 63 None -> tower h N0 t0 L0 (<[(L, 0) := q]> N) q (L + 1).

Lemma tower_frame h h' N0 t0 L0 N p L :
  (forall a r, N !! a = Some r -> h' !! r = h !! r) -> tower h N0 t0 L0 N p L -> tower h' N0 t0 L0 N p L.
Proof.
  intros Hf Htw. induction Htw as [|N p L q lay Htw IH Hq HN Hh Ha]; [constructor|].
  apply (tower_up _ _ _ _ _ p _ _ lay); try done.
  - apply IH. intros a r Hr. apply (Hf a). rewrite lookup_insert_ne; [done|]. intros <-. congruence.
  - rewrite (Hf (L, 0)); [done|]. apply lookup_insert_eq.
Qed.

Lemma tower_old h N0 t0 L0 N p L a r : tower h N0 t0 L0 N p L -> N0 !! a = Some r -> N !! a = Some r.
Proof.
  intros Htw Hr. induction Htw as [|N p L q lay Htw IH Hq HN Hh Ha]; [done|].
  rewrite lookup_insert_ne; [done|]. intros <-. congruence.
Qed.

Lemma tower_height h N0 t0 L0 N p L : tower h N0 t0 L0 N p L -> L0 <= L.
Proof. induction 1; lia. Qed.

(** The top layer of the tree leaves it. *)
Lemma spare_leave h f cnt N fl own a p :
  spare h f cnt (<[a := p]> N) fl own -> N !! a = None -> (forall b, N !! b <> Some p) -> is_Some (h !! p) ->
  spare h f cnt N fl (p :: own).
Proof.
  intros [H1 H2 H3 H4 H5 H6] HN Hp Hs.
  assert (forall b r, N !! b = Some r -> <[a := p]> N !! b = Some r) as Hold.
  { intros b r Hr. rewrite lookup_insert_ne; [done|]. intros <-. congruence. }
  constructor; try done.
  - intros r b Hr Hb. by apply (H4 r b Hr), Hold.
  - intros r [->|Hr]%elem_of_cons.
    + split; [done|]. split; [|done]. intros Hf. apply (H4 p a Hf). apply lookup_insert_eq.
    + destruct (H5 r Hr) as (? & ? & Hn). split; [done|]. split; [done|]. intros b Hb. by apply (Hn b), Hold.
  - intros r Hr. rewrite elem_of_cons. destruct (H6 r Hr) as [?|[?|[b Hb]]]; [by auto..|].
    destruct (decide (a = b)) as [<-|]; [rewrite lookup_insert_eq in Hb; injection Hb as <-; auto|].
    rewrite lookup_insert_ne in Hb by done. eauto.
Qed.

Lemma tear_down_spec fuel : forall i N0 t0 L0 N p L fl,
  tower (heap i) N0 t0 L0 N p L -> tree_ok (heap i) N0 t0 L0 no_hole -> idr_spare i N fl [] ->
  top i = Some t0 -> L - L0 < Z.of_nat fuel ->
  exists i' fl', tear_down fuel (Some p) i = Some i' /\ idr_spare i' N0 fl' [] /\
    top i' = Some t0 /\ layers i' = layers i /\ (forall a r, N0 !! a = Some r -> heap i' !! r = heap i !! r).
Proof.
  induction fuel as [|fuel IH]; intros i N0 t0 L0 N p L fl Htw Ht Hs Htop Hf.
  { pose proof (tower_height _ _ _ _ _ _ _ Htw). lia. }
  cbn [tear_down]. rewrite Htop. destruct Htw as [|N p L q lay Htw Hq HN Hh Ha].
  { rewrite decide_True by done. by exists i, fl. }
  rewrite decide_False.
  2: { intros [= ->]. apply (Hq (L0 - 1, 0)), (tower_old _ _ _ _ _ _ _ _ _ Htw), Ht. }
  assert (get_ary i q 0 = Some (Some p)) as -> by (unfold get_ary; by rewrite Hh, Ha).
  cbn [mbind option_bind]. rewrite (update_spec _ _ _ lay Hh). cbn [mbind option_bind].
  rewrite (update_spec _ _ _ (set_ary 0 None lay)) by apply lookup_insert_eq. cbn [mbind option_bind heap set_heap].
  rewrite insert_insert_eq. set (lz := set_bitmap 0 (set_count 0 (set_ary 0 None lay))).
  set (i1 := set_heap (<[q := lz]> (heap i)) _).
  assert (idr_spare i1 N fl [q]) as Hs1.
  { apply spare_leave with (a := (L, 0)); [|done|done|by cbn; rewrite lookup_insert_eq].
    apply spare_update; [done| |by rewrite Hh]. intros Hin. apply (sp_tree _ _ _ _ _ _ Hs q (L, 0) Hin). apply lookup_insert_eq. }
  destruct (move_to_free_list_spec i1 N fl [] q lz Hs1) as (i2 & Hm & Hs2 & M1 & M2 & M3 & _);
    [apply not_elem_of_nil|apply lookup_insert_eq|done|done|by cbn; rewrite Ha|].
  rewrite Hm. cbn [mbind option_bind].
  assert (forall a r, N !! a = Some r -> heap i2 !! r = heap i !! r) as Hframe.
  { intros a r Hr. rewrite M3. cbn. rewrite !lookup_insert_ne; [done|intros ->; by apply (Hq a)..]. }
  assert (forall a r, N0 !! a = Some r -> heap i2 !! r = heap i !! r) as Hframe0.
  { intros a r Hr. by apply (Hframe a), (tower_old _ _ _ _ _ _ _ _ _ Htw). }
  destruct (IH i2 N0 t0 L0 N p L (q :: fl)) as (i' & fl' & E & R1 & R2 & R3 & R4).
  - by apply (tower_frame (heap i)).
  - by apply (tree_frame (heap i)).
  - done.
  - by rewrite M1.
  - lia.
  - exists i', fl'. split; [done|]. split; [done|]. split; [done|]. split; [by rewrite R3, M2|].
    intros a r Hr. rewrite (R4 a r Hr). by apply (Hframe0 a).
Qed.

(** *** The loop that grows *)

Lemma spare_relabel h f cnt fl p a b :
  spare h f cnt {[ a := p ]} fl [] -> spare h f cnt {[ b := p ]} fl [].
Proof.
  intros [H1 H2 H3 H4 H5 H6]. constructor; try done.
  - intros r c Hr [_ <-]%lookup_singleton_Some. by apply (H4 p a Hr), lookup_singleton_eq.
  - by intros r []%not_elem_of_nil.
  - intros r Hr. destruct (H6 r Hr) as [?|[[]%not_elem_of_nil|[c [_ <-]%lookup_singleton_Some]]]; [by left|].
    right. right. exists b. apply lookup_singleton_eq.
Qed.

Lemma grow_test n id :
  1 <= n < MAX_LEVEL -> 0 <= id < 64 ^ 5 ->
  (n <? MAX_LEVEL - 1) && (id >=? Z.shiftl 1 (n * IDR_BITS)) = true /\ n < 5 /\ 64 ^ n <= id \/
  (n <? MAX_LEVEL - 1) && (id >=? Z.shiftl 1 (n * IDR_BITS)) = false /\ id < 64 ^ n.
Proof.
  intros Hn Hid. change MAX_LEVEL with 6 in *. rewrite (Z.mul_comm n), shiftl_digits by lia.
  destruct (n <? 6 - 1) eqn:E1, (id >=? 64 ^ n) eqn:E2; zbool; cbn [andb]; [left; repeat split; lia|right; (split; [done|])..].
  - lia.
  - assert (n = 5) as -> by lia. lia.
  - lia.
Qed.

Lemma grow_empty_spec fuel : forall i N p n id fl lay,
  tree_ok (heap i) N p n no_hole -> heap i !! p = Some lay -> count lay = 0 -> idr_spare i N fl [] ->
  0 <= id < 64 ^ 5 -> 5 - n < Z.of_nat fuel ->
  exists i' N' n', grow_loop fuel p n id i = Some (Some (p, n'), i') /\ n <= n' /\
    tree_ok (heap i') N' p n' no_hole /\ idr_spare i' N' fl [] /\ id < 64 ^ n' /\
    (forall j, slot_at (heap i') N' j = slot_at (heap i) N j).
Proof.
  induction fuel as [|fuel IH]; intros i N p n id fl lay Ht Hh Hc Hs Hid Hf.
  { pose proof (to_levels _ _ _ _ _ Ht) as HL. change MAX_LEVEL with 6 in HL. lia. }
  cbn [grow_loop]. pose proof (to_levels _ _ _ _ _ Ht) as HL.
  destruct (grow_test n id HL Hid) as [(-> & Hn & Hge)|(-> & Hlt)]; [|by exists i, N, n].
  rewrite Hh. cbn [mbind option_bind]. rewrite Hc. cbn [Z.eqb].
  rewrite (update_spec _ _ _ lay Hh). cbn [mbind option_bind].
  destruct (empty_tree _ _ _ _ _ Ht Hh Hc) as (-> & Hb & Ha).
  destruct (to_node _ _ _ _ _ Ht _ _ _ (to_top _ _ _ _ _ Ht)) as (lay' & Hh' & Hok).
  rewrite Hh in Hh'. injection Hh' as <-. pose proof (no_layer _ _ _ _ _ _ Hok) as Hlay.
  set (i1 := set_heap _ i). change MAX_LEVEL with 6 in *.
  destruct (single_tree (heap i) p n lay) as [_ Hslot0]; try done.
  destruct (single_tree (heap i1) p (n + 1) (set_layer (layer lay + 1) lay)) as [Ht1 Hslot1]; try done;
    [change MAX_LEVEL with 6; lia|apply lookup_insert_eq|cbn; lia|].
  assert (idr_spare i1 {[ (n + 1 - 1, 0) := p ]} fl []) as Hs1.
  { apply spare_update; [by apply (spare_relabel _ _ _ _ _ (n - 1, 0))| |by rewrite Hh].
    intros Hin. apply (sp_tree _ _ _ _ _ _ Hs p (n - 1, 0) Hin). apply lookup_singleton_eq. }
  destruct (IH i1 _ p (n + 1) id fl (set_layer (layer lay + 1) lay) Ht1) as (i' & N' & n' & E & Hn' & R1 & R2 & R3 & R4);
    [apply lookup_insert_eq|done|done|done|lia|].
  exists i', N', n'. split; [done|]. split; [lia|]. split; [done|]. split; [done|]. split; [done|].
  intros j. by rewrite R4, Hslot1, Hslot0.
Qed.

(** Growing leaves [idp->top] and [idp->layers] alone. *)
Lemma get_from_free_list_top i o i' : get_from_free_list i = Some (o, i') -> top i' = top i /\ layers i' = layers i.
Proof.
  unfold get_from_free_list. destruct (id_free i) as [p|]; [|intros [= _ <-]; done].
  destruct (get_ary i p 0); [|done]. unfold update. cbn. destruct (heap i !! p); [|done]. by intros [= _ <-].
Qed.

(** One more layer on the tower. *)
Lemma grow_build i N0 t0 L0 N p n fl new lay :
  tower (heap i) N0 t0 L0 N p n -> tree_ok (heap i) N p n no_hole -> tree_ok (heap i) N0 t0 L0 no_hole ->
  idr_spare i N (new :: fl) [] -> heap i !! p = Some lay -> n < 5 ->
  exists i1 i2 i3 lay', get_from_free_list i = Some (Some new, i1) /\
    update new (fun l => set_layer (n + 1 - 1) (set_count 1 (set_ary 0 (Some p) l))) i1 = Some i2 /\
    (if bitmap lay =? IDR_FULL then update new (set_bit 0) i2 else Some i2) = Some i3 /\
    let N' := <[(n, 0) := new]> N in
    tower (heap i3) N0 t0 L0 N' new (n + 1) /\ tree_ok (heap i3) N' new (n + 1) no_hole /\
    tree_ok (heap i3) N0 t0 L0 no_hole /\ idr_spare i3 N' fl [] /\ top i3 = top i /\ layers i3 = layers i /\
    heap i3 !! new = Some lay' /\ count lay' = 1 /\
    (forall a r, N !! a = Some r -> heap i3 !! r = heap i !! r) /\
    (forall j, slot_at (heap i3) N' j = slot_at (heap i) N j).
Proof.
  intros Htw Ht Ht0 Hs Hh Hn. pose proof (to_levels _ _ _ _ _ Ht) as HL.
  destruct (get_from_free_list_spec i N (new :: fl) [] Hs) as (lz & i1 & Z1 & Z2 & Z3 & G & G1 & G2 & G3 & G4 & _).
  assert (forall b, N !! b <> Some new) as Hnew by (intros b; apply (spare_fresh _ _ _ _ _ _ G4); constructor).
  set (l2 := set_layer (n + 1 - 1) (set_count 1 (set_ary 0 (Some p) lz))).
  set (l3 := if bitmap lay =? IDR_FULL then set_bit 0 l2 else l2).
  exists i1, (set_heap (<[new := l2]> (heap i)) i1), (set_heap (<[new := l3]> (heap i)) i1), l3.
  split; [done|]. split.
  { rewrite (update_spec _ _ _ lz); rewrite G3; [by rewrite insert_insert_eq|apply lookup_insert_eq]. }
  split.
  { unfold l3. destruct (bitmap lay =? IDR_FULL); [|done].
    rewrite (update_spec _ _ _ l2); cbn; [by rewrite insert_insert_eq|apply lookup_insert_eq]. }
  cbn zeta. cbn [heap set_heap top layers].
  assert (ary l3 = Some p :: replicate 63 None) as Ha by (unfold l3; case_match; cbn; by rewrite Z3).
  assert (bitmap l3 = if bitmap lay =? IDR_FULL then 1 else 0) as Hb by (unfold l3; case_match; cbn; by rewrite Z1).
  assert (layer l3 = n) as Hl by (unfold l3; case_match; cbn; lia).
  assert (count l3 = 1) as Hc by (unfold l3; by case_match).
  assert (forall a r, N !! a = Some r -> <[new := l3]> (heap i) !! r = heap i !! r) as Hframe.
  { intros a r Hr. rewrite lookup_insert_ne; [done|]. intros ->. by apply (Hnew a). }
  assert (N !! (n, 0) = None) as Hnone.
  { destruct (N !! (n, 0)) as [r|] eqn:E; [|done]. destruct (to_dom _ _ _ _ _ Ht _ _ _ E). lia. }
  split; [|split; [|split; [|split; [|do 5 (split; [done || apply lookup_insert_eq|])]]]].
  - apply (tower_up _ _ _ _ _ p _ _ l3); try done; [by apply (tower_frame (heap i))|apply lookup_insert_eq].
  - apply (tree_grow _ _ p _ lay); try done. change MAX_LEVEL with 6. lia.
  - apply (tree_frame (heap i)); [|done]. intros a r Hr. by apply (Hframe a), (tower_old _ _ _ _ _ _ _ _ _ Htw).
  - unfold idr_spare. cbn. apply (spare_adopt _ _ _ _ _ [] new); [|by apply not_elem_of_nil|done].
    replace (<[new := l3]> (heap i)) with (<[new := l3]> (heap i1)) by (rewrite G3; apply insert_insert_eq).
    apply spare_update; [done| |by rewrite G3, lookup_insert_eq].
    by destruct (sp_own _ _ _ _ _ _ G4 new) as (_ & ? & _); [constructor|].
  - intros j. by eapply grow_slot.
Qed.

Lemma grow_build_spec fuel : forall i N0 t0 L0 N p n id fl lay,
  tower (heap i) N0 t0 L0 N p n -> tree_ok (heap i) N p n no_hole -> tree_ok (heap i) N0 t0 L0 no_hole ->
  idr_spare i N fl [] -> top i = Some t0 -> heap i !! p = Some lay -> count lay <> 0 ->
  0 <= id < 64 ^ 5 -> 5 - n < Z.of_nat fuel ->
  (exists i' N' p' n' fl', grow_loop fuel p n id i = Some (Some (p', n'), i') /\ n <= n' /\
    tree_ok (heap i') N' p' n' no_hole /\ idr_spare i' N' fl' [] /\ id < 64 ^ n' /\
    (forall j, slot_at (heap i') N' j = slot_at (heap i) N j) /\
    Z.of_nat (length fl) = Z.of_nat (length fl') + (n' - n)) \/
  (exists i' fl', grow_loop fuel p n id i = Some (None, i') /\ idr_spare i' N0 fl' [] /\ top i' = Some t0 /\
    layers i' = layers i /\ (forall a r, N0 !! a = Some r -> heap i' !! r = heap i !! r) /\
    Z.of_nat (length fl) < 5 - n).
Proof.
  induction fuel as [|fuel IH]; intros i N0 t0 L0 N p n id fl lay Htw Ht Ht0 Hs Htop Hh Hc Hid Hf.
  { pose proof (to_levels _ _ _ _ _ Ht) as HL. change MAX_LEVEL with 6 in HL. lia. }
  cbn [grow_loop]. pose proof (to_levels _ _ _ _ _ Ht) as HL.
  destruct (grow_test n id HL Hid) as [(-> & Hn & Hge)|(-> & Hlt)].
  2: { left. exists i, N, p, n, fl. split; [done|]. split; [lia|]. do 4 (split; [done|]). lia. }
  rewrite Hh. cbn [mbind option_bind]. replace (count lay =? 0) with false by lia.
  destruct fl as [|new fl].
  - right. rewrite (get_from_free_list_spec i N [] [] Hs). cbn [mbind option_bind].
    pose proof (to_levels _ _ _ _ _ Ht0). change MAX_LEVEL with 6 in *.
    destruct (tear_down_spec (S (Z.to_nat 6)) i N0 t0 L0 N p n [] Htw Ht0 Hs Htop ltac:(cbn; lia))
      as (i' & fl' & E & R1 & R2 & R3 & R4).
    rewrite E. cbn [mbind option_bind]. exists i', fl'. do 5 (split; [done|]). cbn. lia.
  - destruct (grow_build i N0 t0 L0 N p n fl new lay Htw Ht Ht0 Hs Hh Hn)
      as (i1 & i2 & i3 & lay' & G1 & G2 & G3 & B1 & B2 & B3 & B4 & B5 & B6 & B7 & B8 & B9 & B10).
    rewrite G1. cbn [mbind option_bind]. rewrite G2. cbn [mbind option_bind]. rewrite G3. cbn [mbind option_bind].
    destruct (IH i3 N0 t0 L0 _ new (n + 1) id fl lay' B1 B2 B3 B4)
      as [(i' & N' & p' & n' & fl' & E & R1 & R2 & R3 & R4 & R5 & R6)|(i' & fl' & E & R1 & R2 & R3 & R4 & R5)];
      [congruence|done|lia|done|lia|left|right].
    + exists i', N', p', n', fl'. split; [done|]. split; [lia|]. do 3 (split; [done|]). split; [|cbn; lia].
      intros j. by rewrite R5.
    + exists i', fl'. split; [done|]. split; [done|]. split; [done|]. split; [congruence|]. split; [|cbn; lia].
      intros a r Hr. rewrite (R4 a r Hr). by apply (B9 a), (tower_old _ _ _ _ _ _ _ _ _ Htw).
Qed.

(** ** The invariant of an IDR *)

Definition idr_ok (i : idr) (N : nodes) (fl : list ptr) : Prop :=
  idr_spare i N fl [] /\
  ((top i = None /\ layers i = 0 /\ N = ∅) \/
   exists t, top i = Some t /\ tree_ok (heap i) N t (layers i) no_hole).

(** A tree with a new top. *)
Lemma grown_ok i N fl p n :
  tree_ok (heap i) N p n no_hole -> idr_spare i N fl [] -> idr_ok (set_layers n (set_top (Some p) i)) N fl.
Proof. intros Ht Hs. split; [done|]. right. by exists p. Qed.

(** What the first part of the loop leaves for [sub_alloc]. *)
Definition build_result (i : idr) (N : nodes) (fl : list ptr) (id : Z) (o : option (option (ptr * Z) * idr)) : Prop :=
  (exists i' p n N' fl', o = Some (Some (p, n), i') /\ tree_ok (heap i') N' p n no_hole /\ idr_spare i' N' fl' [] /\
    layers i <= n /\ id < 64 ^ n /\ (forall j, slot_at (heap i') N' j = slot_at (heap i) N j) /\
    Z.of_nat (length fl) <= Z.of_nat (length fl') + (n - layers i)) \/
  (exists i' fl', o = Some (None, i') /\ idr_ok i' N fl' /\
    (forall j, slot_at (heap i') N j = slot_at (heap i) N j) /\ Z.of_nat (length fl) < 5 - layers i).

(** The first layer of an empty IDR. *)
Lemma first_layer i N fl new :
  idr_ok i N (new :: fl) -> top i = None ->
  exists i1 i2 lay, get_from_free_list i = Some (Some new, i1) /\ update new (set_layer 0) i1 = Some i2 /\
    let N' := {[ (1 - 1, 0) := new ]} in
    tree_ok (heap i2) N' new 1 no_hole /\ idr_spare i2 N' fl [] /\ heap i2 !! new = Some lay /\ count lay = 0 /\
    (forall j, slot_at (heap i2) N' j = slot_at (heap i) N j).
Proof.
  intros [Hs [(_ & _ & ->)|(t & Htop' & _)]] Htop; [|congruence].
  destruct (get_from_free_list_spec i ∅ (new :: fl) [] Hs) as (lz & i1 & Z1 & Z2 & Z3 & G & G1 & G2 & G3 & G4 & _).
  exists i1, (set_heap (<[new := set_layer 0 lz]> (heap i)) i1), (set_layer 0 lz). split; [done|]. split.
  { rewrite (update_spec _ _ _ lz); rewrite G3; [by rewrite insert_insert_eq|apply lookup_insert_eq]. }
  cbn zeta. cbn [heap set_heap].
  destruct (single_tree (<[new := set_layer 0 lz]> (heap i)) new 1 (set_layer 0 lz)) as [Ht Hslot]; try done;
    [apply lookup_insert_eq|].
  split; [done|]. split; [|split; [apply lookup_insert_eq|split; [done|]]].
  - apply (spare_adopt _ _ _ ∅ _ [] new); [|by apply not_elem_of_nil|done]. cbn.
    replace (<[new := set_layer 0 lz]> (heap i)) with (<[new := set_layer 0 lz]> (heap i1))
      by (rewrite G3; apply insert_insert_eq).
    apply spare_update; [done| |by rewrite G3, lookup_insert_eq].
    by destruct (sp_own _ _ _ _ _ _ G4 new) as (_ & ? & _); [constructor|].
  - intros j. rewrite Hslot. by unfold slot_at; rewrite lookup_empty.
Qed.

(** One round of the loop up to the call of [sub_alloc]. *)
Definition build_tree (id : Z) (i : idr) : option (option (ptr * Z) * idr) :=
  '(start, i) ←
    match top i with
    | Some p => Some (Some (p, layers i), i)
    | None =>
        '(new, i) ← get_from_free_list i;
        match new with
        | None => Some (None, i)
        | Some p => i ← update p (set_layer 0) i; Some (Some (p, 1), i)
        end
    end;
  match start with
  | None => Some (None, i)
  | Some (p, nlayers) => grow_loop (S (Z.to_nat MAX_LEVEL)) p nlayers id i
  end.

Lemma build_up_eq fuel id pa i :
  build_up (S fuel) id pa i =
  '(grown, i) ← build_tree id i;
  match grown with
  | None => Some (NoLayer, pa, i)
  | Some (p, nlayers) =>
      let i := set_layers nlayers (set_top (Some p) i) in
      '(v, pa, i) ← sub_alloc id pa i;
      match v with NeedToGrow id => build_up fuel id pa i | _ => Some (v, pa, i) end
  end.
Proof.
  cbn [build_up]. unfold build_tree. destruct (match top i with Some _ => _ | None => _ end) as [[[[p n]|] i1]|]; [|done..].
  cbn [mbind option_bind]. by destruct (grow_loop _ _ _ _ _) as [[[[p' n']|] i2]|].
Qed.

Lemma build_tree_spec i N fl id :
  idr_ok i N fl -> 0 <= id < 64 ^ 5 -> build_result i N fl id (build_tree id i).
Proof.
  intros Hok Hid. pose proof Hok as [Hs Htree]. unfold build_tree.
  change (S (Z.to_nat MAX_LEVEL)) with 7%nat. destruct (top i) as [t|] eqn:Etop.
  - destruct Htree as [[? _]|(t' & [= <-] & Ht)]; [done|]. cbn [mbind option_bind].
    pose proof (to_levels _ _ _ _ _ Ht) as HL. change MAX_LEVEL with 6 in HL.
    destruct (to_node _ _ _ _ _ Ht _ _ _ (to_top _ _ _ _ _ Ht)) as (lay & Hh & _).
    destruct (decide (count lay = 0)) as [Hc|Hc].
    + destruct (grow_empty_spec 7 i N t (layers i) id fl lay Ht Hh Hc Hs Hid ltac:(lia))
        as (i' & N' & n' & E & R1 & R2 & R3 & R4 & R5).
      left. exists i', t, n', N', fl. do 6 (split; [done|]). lia.
    + destruct (grow_build_spec 7 i N t (layers i) N t (layers i) id fl lay (tower_base _ _ _ _) Ht Ht Hs Etop Hh Hc Hid ltac:(lia))
        as [(i' & N' & p' & n' & fl' & E & R1 & R2 & R3 & R4 & R5 & R6)|(i' & fl' & E & R1 & R2 & R3 & R4 & R5)].
      * left. exists i', p', n', N', fl'. do 6 (split; [done|]). lia.
      * right. exists i', fl'. split; [done|]. split; [|split; [|done]].
        -- split; [done|]. right. exists t. rewrite R3. split; [done|]. by apply (tree_frame (heap i)).
        -- intros j. by apply slot_at_frame.
  - destruct Htree as [(_ & HL & HN)|(t' & ? & _)]; [|done]. destruct fl as [|new fl].
    { rewrite (get_from_free_list_spec i N [] [] Hs). right. exists i, []. split; [done|]. split; [done|].
      split; [done|]. rewrite HL. cbn. lia. }
    destruct (first_layer i N fl new Hok Etop) as (i1 & i2 & lay & G1 & G2 & F1 & F2 & F3 & F4 & F5).
    rewrite G1. cbn [mbind option_bind]. rewrite G2. cbn [mbind option_bind].
    destruct (grow_empty_spec 7 i2 _ new 1 id fl lay F1 F3 F4 F2 Hid ltac:(lia))
      as (i' & N' & n' & E & R1 & R2 & R3 & R4 & R5).
    left. exists i', new, n', N', fl. split; [done|]. split; [done|]. split; [done|]. rewrite HL.
    split; [lia|]. split; [done|]. split; [|cbn; lia]. intros j. by rewrite R5.
Qed.

(** The outcome of the whole search. *)
Definition slot_found (i : idr) (N : nodes) (fl : list ptr) (id : Z) (r : alloc_result) (pa : path)
    (i' : idr) (N' : nodes) (t : ptr) : Prop :=
  match r with
  | Found id' =>
      id <= id' < 64 ^ layers i' /\ full (heap i) N (-1) id' = false /\
      (forall j, id <= j < id' -> full (heap i) N (-1) j = true) /\ top i' = Some t /\
      path_ok (heap i') N' pa (layers i') (-1) id'
  | NoLayer => Z.of_nat (length fl) < 10 - layers i
  | _ => False
  end.

Lemma slot_full h N h' N' : (forall j, slot_at h' N' j = slot_at h N j) -> forall j, full h' N' (-1) j = full h N (-1) j.
Proof. intros Hs j. by rewrite !full_slot, Hs. Qed.

Lemma build_up_spec fuel : forall i N fl id pa,
  idr_ok i N fl -> 0 <= id < 64 ^ 5 -> (exists j, id <= j < 64 ^ 5 /\ full (heap i) N (-1) j = false) ->
  6 - layers i + (if id <? 64 ^ layers i then 1 else 0) <= Z.of_nat fuel ->
  exists r pa' i' N' fl' t, build_up fuel id pa i = Some (r, pa', i') /\ idr_ok i' N' fl' /\
    (forall j, slot_at (heap i') N' j = slot_at (heap i) N j) /\ slot_found i N fl id r pa' i' N' t.
Proof.
  induction fuel as [|fuel IH]; intros i N fl id pa Hok Hid Hfree Hf.
  { assert (6 - layers i <= 0) by (destruct (id <? 64 ^ layers i); lia).
    destruct Hok as [_ [(_ & ? & _)|(t & _ & Ht)]]; [lia|]. pose proof (to_levels _ _ _ _ _ Ht) as HL.
    change MAX_LEVEL with 6 in HL. lia. }
  rewrite build_up_eq.
  destruct (build_tree_spec i N fl id Hok Hid)
    as [(i1 & p & n & N1 & fl1 & E & Ht & Hs & Hn & Hidn & Hslot & Hcost)|(i1 & fl1 & E & Hok1 & Hslot & Hcost)];
    rewrite E; cbn [mbind option_bind].
  2: { exists NoLayer, pa, i1, N, fl1, 0%nat. split; [done|]. split; [done|]. split; [done|]. cbn. lia. }
  pose proof (to_levels _ _ _ _ _ Ht) as HL. change MAX_LEVEL with 6 in HL.
  set (i2 := set_layers n (set_top (Some p) i1)).
  destruct (sub_alloc_spec id pa i2 N1 fl1 p Ht Hs eq_refl ltac:(cbn; lia))
    as (r & pa' & i' & N' & fl' & E2 & W1 & W2 & W3 & W4 & W5 & W6 & W7).
  rewrite E2. cbn [mbind option_bind]. cbn [layers set_layers i2] in *.
  assert (forall j, slot_at (heap i') N' j = slot_at (heap i) N j) as Hslot' by (intros j; by rewrite (si_slot _ _ _ _ W5), Hslot).
  assert (forall j, full (heap i2) N1 (-1) j = full (heap i) N (-1) j) as Hfull by (by apply slot_full).
  assert (idr_ok i' N' fl') as Hok'. { split; [done|]. right. exists p. by rewrite W4. }
  destruct r as [id'|id'| |]; cbn [found_ok cost_ok] in W6, W7.
  - exists (Found id'), pa', i', N', fl', p. split; [done|]. split; [done|]. split; [done|].
    destruct W6 as (F1 & F2 & F3 & F4). cbn [slot_found layers set_layers i2] in *. rewrite W4. split; [done|].
    split; [by rewrite <- Hfull|]. split; [intros j Hj; rewrite <- Hfull; by apply F3|]. done.
  - destruct W6 as [-> F]. destruct W7 as [-> _]. cbn [layers set_layers i2] in *.
    destruct Hfree as (j0 & Hj0 & Hfj).
    assert (64 ^ n <= j0) as Hnj.
    { destruct (decide (64 ^ n <= j0)); [done|]. rewrite <- Hfull, F in Hfj by lia. done. }
    assert (n < 5) as Hn5. { destruct (decide (n = 5)) as [->|]; lia. }
    pose proof (pow64_pos n ltac:(lia)).
    destruct (IH i' N' fl1 (64 ^ n) pa' Hok') as (r & pa2 & i3 & N3 & fl3 & t & E3 & R1 & R2 & R3);
      [lia| | |].
    { exists j0. split; [lia|]. by rewrite (slot_full _ _ _ _ Hslot'). }
    { rewrite W4, Z.ltb_irrefl. destruct (Z.ltb_spec id (64 ^ layers i)); [lia|].
      assert (n <> layers i) by (intros ->; lia). lia. }
    exists r, pa2, i3, N3, fl3, t. split; [done|]. split; [done|]. split; [intros j; by rewrite R2|].
    destruct r as [id'|id'| |]; cbn [slot_found] in *; [|done..|rewrite W4 in R3; lia].
    destruct R3 as (F1 & F2 & F3 & F4). split; [lia|]. rewrite <- (slot_full _ _ _ _ Hslot'). split; [done|].
    split; [|done]. intros j Hj. destruct (decide (j < 64 ^ n)).
    + rewrite <- Hfull. apply F. lia.
    + rewrite <- (slot_full _ _ _ _ Hslot'). apply F3. lia.
  - done.
  - exists NoLayer, pa', i', N', fl', p. split; [done|]. split; [done|]. split; [done|]. cbn. cbn in W7. lia.
Qed.

(** ** Marking full layers *)

Definition hole_at (l x : Z) (k y : Z) : bool := (k =? l) && (y =? x).

Lemma hole_at_ne l x k y : (k, y) <> (l, x) -> hole_at l x k y = false.
Proof. intros Hne. unfold hole_at. destruct (Z.eqb_spec k l), (Z.eqb_spec y x); try done. subst. by destruct Hne. Qed.

Lemma hole_at_eq l x : hole_at l x l x = true.
Proof. unfold hole_at. by rewrite !Z.eqb_refl. Qed.

(** Writing the bitmap of the layer at [(l, x)]. *)
Lemma slot_at_bitmap h N p lay b id :
  h !! p = Some lay -> slot_at (<[p := set_bitmap b lay]> h) N id = slot_at h N id.
Proof.
  intros Hh. unfold slot_at. destruct (N !! (0, id / 64)) as [q|]; [|done].
  destruct (decide (p = q)) as [<-|]; [by rewrite lookup_insert_eq, Hh|by rewrite lookup_insert_ne].
Qed.

Lemma full_bitmap h N t L hole l x p lay b k y :
  tree_ok h N t L hole -> N !! (l, x) = Some p -> h !! p = Some lay -> (k, y) <> (l, x) ->
  full (<[p := set_bitmap b lay]> h) N k y = full h N k y.
Proof.
  intros Ht HN Hh Hne. unfold full. rewrite (slot_at_bitmap h N p lay b y Hh). destruct (k =? -1); [done|].
  destruct (N !! (k, y)) as [q|] eqn:E; [|done]. rewrite lookup_insert_ne; [done|]. intros ->.
  destruct Hne. by apply (to_inj _ _ _ _ _ Ht _ _ q).
Qed.

Lemma tree_bitmap h N t L hole hole' l x p lay b :
  tree_ok h N t L hole -> N !! (l, x) = Some p -> h !! p = Some lay -> word64 b ->
  (forall n, 0 <= n < 64 -> Z.testbit b n = bit h N hole' (l - 1) (64 * x + n)) ->
  bit (<[p := set_bitmap b lay]> h) N hole' l x = bit h N hole l x ->
  (forall k y, (k, y) <> (l, x) -> (k, y / 64) <> (l - 1, x) -> full h N k y = true -> hole' k y = hole k y) ->
  tree_ok (<[p := set_bitmap b lay]> h) N t L hole'.
Proof.
  intros Ht HN Hh Hb Hbits Htop Hholes.
  destruct (to_node _ _ _ _ _ Ht _ _ _ HN) as (lay' & Hh' & [N1 N2 N3 N4 N5 N6]). rewrite Hh in Hh'. injection Hh' as <-.
  apply (tree_update _ _ _ _ hole hole' l x); [done|done| |].
  - constructor; cbn; try done. intros n Hn. rewrite Hbits by done. unfold bit. f_equal.
    symmetry. apply (full_bitmap _ _ t L hole l x); try done. intros [=]. lia.
  - intros k y Hne. destruct (decide ((k, y) = (l, x))) as [[= -> ->]|Hne2]; [done|]. unfold bit.
    rewrite (full_bitmap _ _ t L hole l x) by done. destruct (full h N k y) eqn:E; [|by rewrite !andb_false_r].
    by rewrite (Hholes k y).
Qed.

(** A hole at a layer that is not full, or that has no layer above, is none. *)
Lemma hole_close h N t L l x :
  tree_ok h N t L (hole_at l x) -> full h N l x = false \/ N !! (l + 1, x / 64) = None ->
  tree_ok h N t L no_hole.
Proof.
  intros [H1 H2 H3 H4 H5 H6] Hor. constructor; try done. intros k y p HN.
  destruct (H5 k y p HN) as (lay & Hh & [N1 N2 N3 N4 N5 N6]). exists lay. split; [done|].
  constructor; try done. intros n Hn. rewrite N6 by done. unfold bit.
  destruct (decide ((k - 1, 64 * y + n) = (l, x))) as [E|Hne]; [|by rewrite hole_at_ne].
  injection E as <- <-. rewrite child_div in Hor by done. replace (k - 1 + 1) with k in Hor by lia.
  destruct Hor as [->|?]; [by rewrite !andb_false_r|congruence].
Qed.

(** Setting the bit for a layer that became full. *)
Lemma set_bit_step h N t L l x p lay :
  tree_ok h N t L (hole_at l x) -> full h N l x = true -> N !! (l + 1, x / 64) = Some p -> h !! p = Some lay ->
  tree_ok (<[p := set_bit (x mod 64) lay]> h) N t L (hole_at (l + 1) (x / 64)).
Proof.
  intros Ht Hfull HN Hh. pose proof (digit_range x) as Hx.
  destruct (to_node _ _ _ _ _ Ht _ _ _ HN) as (lay' & Hh' & Hok). rewrite Hh in Hh'. injection Hh' as <-.
  destruct (to_dom _ _ _ _ _ Ht _ _ _ HN) as [Hl _]. pose proof (no_word _ _ _ _ _ _ Hok) as Hw.
  apply (tree_bitmap _ _ _ _ (hole_at l x) _ (l + 1) (x / 64)); try done.
  - by apply word64_setbit.
  - intros n Hn. replace (l + 1 - 1) with l by lia. unfold bit. rewrite hole_at_ne by (intros [=]; lia). cbn [negb andb].
    destruct (decide (n = x mod 64)) as [->|Hne].
    + by rewrite Z.setbit_eq, child_eta, Hfull by lia.
    + rewrite Z.setbit_neq, (no_bit _ _ _ _ _ _ Hok) by lia. replace (l + 1 - 1) with l by lia. unfold bit.
      rewrite hole_at_ne; [done|]. intros [= E]. rewrite <- (child_eta x) in E at 2. lia.
  - unfold bit. rewrite hole_at_eq, hole_at_ne by (intros [=]; lia). cbn [negb andb].
    symmetry. rewrite (full_node _ _ _ _ p lay) by (done || lia). apply (not_full_bit _ (x mod 64)); [done|done|].
    rewrite (no_bit _ _ _ _ _ _ Hok), child_eta by done. unfold bit. replace (l + 1 - 1) with l by lia. by rewrite hole_at_eq.
  - intros k y Hne Hne2 _. rewrite !hole_at_ne; try done. intros [= -> ->]. apply Hne2. f_equal. lia.
Qed.

(** The layers of the way to [id] in [pa], and the end above the top. *)
Definition path_full (N : nodes) (pa : path) (L id : Z) : Prop :=
  (forall k, 0 <= k < L -> is_Some (pa !! k) /\ pa !! k = N !! (k, id / 64 ^ (k + 1))) /\ pa !! L = None.

Lemma mark_full_loop_spec fuel : forall pa p l id0 i N t L,
  tree_ok (heap i) N t L (hole_at l (id0 / 64 ^ (l + 1))) -> path_full N pa L id0 ->
  0 <= l < L -> N !! (l, id0 / 64 ^ (l + 1)) = Some p -> L - l < Z.of_nat fuel ->
  exists i', mark_full_loop fuel pa p l (id0 / 64 ^ l) i = Some i' /\ tree_ok (heap i') N t L no_hole /\
    (forall j, slot_at (heap i') N j = slot_at (heap i) N j) /\ top i' = top i /\ layers i' = layers i /\
    id_free i' = id_free i /\ id_free_cnt i' = id_free_cnt i /\
    (forall q, (forall a, N !! a <> Some q) -> heap i' !! q = heap i !! q) /\
    (forall q, is_Some (heap i' !! q) <-> is_Some (heap i !! q)).
Proof.
  induction fuel as [|fuel IH]; intros pa p l id0 i N t L Ht Hpa Hl HN Hf; [lia|]. cbn [mark_full_loop].
  destruct (to_node _ _ _ _ _ Ht _ _ _ HN) as (lay & Hh & Hok). rewrite Hh. cbn [mbind option_bind].
  pose proof (full_node _ _ _ _ _ _ (proj1 Hl) HN Hh) as Hfull.
  destruct (bitmap lay =? IDR_FULL) eqn:Efull.
  2: { exists i. split; [done|]. split; [apply (hole_close _ _ _ _ _ _ Ht); by left|]. done. }
  destruct Hpa as [Hpa Hend].
  destruct (decide (l + 1 = L)) as [E|Hne].
  { rewrite E, Hend. exists i. split; [done|]. split; [|done]. apply (hole_close _ _ _ _ _ _ Ht). right.
    rewrite prefix_up by lia. destruct (N !! (l + 1, _)) eqn:EN; [|done]. destruct (to_dom _ _ _ _ _ Ht _ _ _ EN). lia. }
  destruct (Hpa (l + 1)) as [[q Hq] HqN]; [lia|]. rewrite Hq in HqN |- *. symmetry in HqN.
  destruct (to_node _ _ _ _ _ Ht _ _ _ HqN) as (lq & Hhq & _).
  change IDR_BITS with (IDR_BITS * 1). rewrite shiftr_digits, Z.pow_1_r, prefix_up, land_mask by lia.
  rewrite (update_spec _ _ _ lq Hhq). cbn [mbind option_bind].
  set (i1 := set_heap _ i).
  pose proof (set_bit_step _ _ _ _ l (id0 / 64 ^ (l + 1)) q lq Ht Hfull) as Ht1.
  rewrite prefix_up in Ht1 by lia. specialize (Ht1 HqN Hhq).
  destruct (IH pa q (l + 1) id0 i1 N t L) as (i' & E & R1 & R2 & R3 & R4 & R5 & R6 & R7 & R8);
    [exact Ht1|done|lia|done|lia|].
  exists i'. split; [done|]. split; [done|]. split; [intros j; rewrite R2; by apply slot_at_bitmap|].
  do 4 (split; [done|]). split.
  - intros r Hr. rewrite R7 by done. cbn. rewrite lookup_insert_ne; [done|]. intros ->. by apply (Hr (l + 1, id0 / 64 ^ (l + 1 + 1))).
  - intros r. rewrite R8. cbn. rewrite lookup_insert_is_Some'. split; [intros [<-|?]; [by rewrite Hhq|done]|by right].
Qed.

(** ** Allocation *)

(** Writes to the tree leave the spare layers. *)
Lemma spare_frame h h' f cnt N fl own :
  spare h f cnt N fl own -> (forall q, (forall a, N !! a <> Some q) -> h' !! q = h !! q) ->
  (forall q, is_Some (h' !! q) <-> is_Some (h !! q)) -> spare h' f cnt N fl own.
Proof.
  intros [H1 H2 H3 H4 H5 H6] Hf Hd. constructor; try done.
  - apply (chain_frame h); [|done]. intros p Hp. apply Hf. intros a. by apply H4.
  - intros p Hp. rewrite Hd. by apply H5.
  - intros p. rewrite Hd. apply H6.
Qed.

(** Writing the slot of one id. *)
Lemma leaf_slot h N t L hole id p lay lay' v :
  tree_ok h N t L hole -> N !! (0, id / 64) = Some p -> h !! p = Some lay ->
  ary lay' = <[Z.to_nat (id mod 64) := v]> (ary lay) ->
  forall j, slot_at (<[p := lay']> h) N j = if j =? id then v else slot_at h N j.
Proof.
  intros Ht HN Hh Hary j. pose proof (digit_range id) as Hd.
  destruct (to_node _ _ _ _ _ Ht _ _ _ HN) as (lay0 & Hh' & Hok). rewrite Hh in Hh'. injection Hh' as <-.
  pose proof (no_ary _ _ _ _ _ _ Hok) as Hlen.
  destruct (decide (j / 64 = id / 64)) as [E|E].
  - unfold slot_at. rewrite E, HN, lookup_insert_eq, Hh, Hary. pose proof (digit_range j).
    destruct (Z.eqb_spec j id) as [->|Hne]; [by rewrite list_lookup_insert_eq by lia|].
    rewrite list_lookup_insert_ne; [done|]. intros Ed. apply Hne. rewrite <- (child_eta j), <- (child_eta id). lia.
  - destruct (Z.eqb_spec j id) as [->|_]; [done|]. apply (slot_at_update _ _ t L hole 0 (id / 64)); try done.
    by intros [= ?].
Qed.

(** Storing a pointer in a free slot; the bit is still to be set. *)
Lemma leaf_store h N t L id p lay v :
  tree_ok h N t L no_hole -> N !! (0, id / 64) = Some p -> h !! p = Some lay -> slot_at h N id = None ->
  let h' := <[p := set_count (count lay + 1) (set_ary (id mod 64) (Some v) lay)]> h in
  tree_ok h' N t L (hole_at (-1) id) /\ forall j, slot_at h' N j = if j =? id then Some v else slot_at h N j.
Proof.
  intros Ht HN Hh Hnone h'. pose proof (digit_range id) as Hd.
  destruct (to_node _ _ _ _ _ Ht _ _ _ HN) as (lay' & Hh' & [N1 N2 N3 N4 N5 N6]). rewrite Hh in Hh'. injection Hh' as <-.
  destruct (lookup_lt_is_Some_2 (ary lay) (Z.to_nat (id mod 64))) as [u Hu]; [lia|].
  assert (u = None) as ->. { unfold slot_at in Hnone. by rewrite HN, Hh, Hu in Hnone. }
  assert (forall j, slot_at h' N j = if j =? id then Some v else slot_at h N j) as Hslot.
  { by apply (leaf_slot h N t L no_hole id p lay). }
  split; [|done]. apply (tree_update _ _ _ _ no_hole _ 0 (id / 64)); [done|done| |].
  - constructor; cbn; [done|by rewrite length_insert| |done|lia|].
    + rewrite (count_some_insert _ _ None) by done. cbn. lia.
    + intros n Hn. rewrite N6 by done. unfold bit. fold h'. change (0 - 1) with (-1). rewrite !full_slot, Hslot.
      destruct (Z.eqb_spec (64 * (id / 64) + n) id) as [->|Hne].
      * by rewrite hole_at_eq, Hnone, andb_false_r.
      * rewrite hole_at_ne; [done|]. by intros [= ?].
  - intros k y Hne. fold h'. unfold bit. destruct (decide (k = -1)) as [->|Hk].
    + assert (y <> id) as Hy by (intros ->; by apply Hne). rewrite hole_at_ne by (by intros [= ?]). rewrite !full_slot, Hslot.
      by replace (y =? id) with false by lia.
    + rewrite hole_at_ne by (by intros [= ?]). cbn. destruct (decide ((k, y) = (0, id / 64))) as [[= -> ->]|Hne2].
      * rewrite (full_node h' N 0 _ p (set_count (count lay + 1) (set_ary (id mod 64) (Some v) lay)));
          [|lia|done|apply lookup_insert_eq]. by rewrite (full_node h N 0 _ p lay).
      * apply (full_update _ _ t L no_hole 0 (id / 64)); try done.
Qed.

Lemma path_ok_full h N pa L id : path_ok h N pa L (-1) id -> path_full N pa L id.
Proof. intros [H1 _ H3]. split; [|done]. intros k Hk. apply H1. lia. Qed.

Lemma idr_mark_full_spec pa id i N t L lay p :
  tree_ok (heap i) N t L (hole_at (-1) id) -> path_full N pa L id -> N !! (0, id / 64) = Some p ->
  heap i !! p = Some lay -> full (heap i) N (-1) id = true -> 0 < L < MAX_LEVEL ->
  exists i', idr_mark_full pa id i = Some i' /\ tree_ok (heap i') N t L no_hole /\
    (forall j, slot_at (heap i') N j = slot_at (heap i) N j) /\ top i' = top i /\ layers i' = layers i /\
    id_free i' = id_free i /\ id_free_cnt i' = id_free_cnt i /\
    (forall q, (forall a, N !! a <> Some q) -> heap i' !! q = heap i !! q) /\
    (forall q, is_Some (heap i' !! q) <-> is_Some (heap i !! q)).
Proof.
  intros Ht Hpa HN Hh Hfull HL. unfold idr_mark_full. destruct (proj1 Hpa 0) as [_ E0]; [lia|].
  change (64 ^ (0 + 1)) with 64 in E0. rewrite E0, HN. cbn [mbind option_bind]. rewrite land_mask.
  rewrite (update_spec _ _ _ lay Hh). cbn [mbind option_bind]. set (i1 := set_heap _ i).
  pose proof (set_bit_step _ _ _ _ (-1) id p lay Ht Hfull HN Hh) as Ht1.
  destruct (mark_full_loop_spec (S (Z.to_nat MAX_LEVEL)) pa p 0 id i1 N t L)
    as (i' & E & R1 & R2 & R3 & R4 & R5 & R6 & R7 & R8); [exact Ht1|done|lia|done|change MAX_LEVEL with 6 in *; lia|].
  rewrite Z.pow_0_r, Z.div_1_r in E. exists i'. split; [done|]. split; [done|].
  split; [intros j; rewrite R2; by apply slot_at_bitmap|]. do 4 (split; [done|]). split.
  - intros r Hr. rewrite R7 by done. cbn. rewrite lookup_insert_ne; [done|]. intros ->. by apply (Hr (0, id / 64)).
  - intros r. rewrite R8. cbn. rewrite lookup_insert_is_Some'. split; [intros [<-|?]; [by rewrite Hh|done]|by right].
Qed.

(** ** Lookup *)

Lemma find_loop_spec i N t L hole : tree_ok (heap i) N t L hole -> forall fuel l id p,
  N !! (l, id / 64 ^ (l + 1)) = Some p -> l + 1 < Z.of_nat fuel ->
  find_loop fuel (IDR_BITS * (l + 1)) id (Some p) i = Some (slot_at (heap i) N id).
Proof.
  intros Ht. induction fuel as [|fuel IH]; intros l id p HN Hf.
  { destruct (to_dom _ _ _ _ _ Ht _ _ _ HN). lia. }
  destruct (to_dom _ _ _ _ _ Ht _ _ _ HN) as [Hl Hx].
  destruct (to_node _ _ _ _ _ Ht _ _ _ HN) as (lay & Hh & [N1 N2 N3 N4 N5 N6]).
  cbn [find_loop]. replace (IDR_BITS * (l + 1) >? 0) with true by (unfold IDR_BITS; lia).
  rewrite Hh. cbn [mbind option_bind]. replace (IDR_BITS * (l + 1) - IDR_BITS) with (IDR_BITS * l) by lia.
  rewrite N1, (Z.mul_comm l), Z.eqb_refl. cbn [negb]. rewrite slot_of_digit by lia. unfold get_ary. rewrite Hh.
  pose proof (digit_range (id / 64 ^ l)) as Hd. destruct (decide (l = 0)) as [->|Hne].
  - rewrite Z.pow_0_r, Z.div_1_r in *. change (64 ^ (0 + 1)) with 64 in HN.
    destruct (lookup_lt_is_Some_2 (ary lay) (Z.to_nat (id mod 64))) as [u Hu]; [lia|]. rewrite Hu. cbn [mbind option_bind].
    assert (slot_at (heap i) N id = u) as -> by (unfold slot_at; by rewrite HN, Hh, Hu).
    destruct fuel; [lia|]. destruct u; done.
  - rewrite N5 by lia. rewrite prefix_down by lia. cbn [mbind option_bind].
    destruct (N !! (l - 1, id / 64 ^ l)) as [q|] eqn:Eq.
    + replace (IDR_BITS * l) with (IDR_BITS * (l - 1 + 1)) by lia. apply IH; [|lia].
      by replace (l - 1 + 1) with l by lia.
    + destruct fuel; [lia|]. cbn [find_loop]. f_equal. symmetry.
      apply (absent_below _ _ _ _ _ Ht (Z.to_nat (l - 1)) (id / 64 ^ l)).
      * by rewrite Z2Nat.id by lia.
      * lia.
      * f_equal. f_equal. lia.
Qed.

Lemma slot_at_out h N t L hole id : tree_ok h N t L hole -> ~ (0 <= id < 64 ^ L) -> slot_at h N id = None.
Proof.
  intros Ht Hid. unfold slot_at. destruct (N !! (0, id / 64)) as [p|] eqn:E; [|done]. exfalso. apply Hid.
  destruct (to_dom _ _ _ _ _ Ht _ _ _ E) as [_ Hx]. pose proof (to_levels _ _ _ _ _ Ht) as HL.
  replace L with (L - 1 - 0 + 1) by lia. rewrite pow64_succ by lia.
  pose proof (digit_range id). pose proof (child_eta id). lia.
Qed.

Lemma mask_id id : 0 <= id < 2 ^ 31 -> Z.land id MAX_ID_MASK = id.
Proof. intros. change MAX_ID_MASK with (Z.ones 31). rewrite Z.land_ones by lia. apply Z.mod_small. lia. Qed.

Lemma idr_find_spec i N fl id :
  idr_ok i N fl -> 0 <= id < 2 ^ 31 -> idr_find i id = Some (slot_at (heap i) N id).
Proof.
  intros [_ [(Ht & _ & ->)|(t & Ht & Htree)]] Hid; unfold idr_find; rewrite Ht.
  { unfold slot_at. by rewrite lookup_empty. }
  pose proof (to_levels _ _ _ _ _ Htree) as HL. change MAX_LEVEL with 6 in HL.
  destruct (to_node _ _ _ _ _ Htree _ _ _ (to_top _ _ _ _ _ Htree)) as (lay & Hh & Hok).
  rewrite Hh. cbn [mbind option_bind]. rewrite (no_layer _ _ _ _ _ _ Hok), mask_id by done.
  replace (layers i - 1 + 1) with (layers i) by lia. rewrite (Z.mul_comm (layers i)), shiftl_digits by lia.
  pose proof (pow64_max (layers i) ltac:(lia)). unfold s32. rewrite wraps_small by lia.
  destruct (id >=? 64 ^ layers i) eqn:E; zbool.
  - f_equal. symmetry. apply (slot_at_out _ _ _ _ _ _ Htree). lia.
  - replace (IDR_BITS * layers i =? 0) with false by (unfold IDR_BITS; lia).
    replace (layers i) with (layers i - 1 + 1) at 1 by lia. apply (find_loop_spec _ _ _ _ _ Htree).
    + replace (layers i - 1 + 1) with (layers i) by lia. rewrite Z.div_small by lia. apply Htree.
    + change (Z.of_nat (S (S (Z.to_nat MAX_LEVEL)))) with 8. lia.
Qed.

(** ** Removal *)

(** What a function leaves unchanged that only writes layers of the tree. *)
Record tree_frame_of (N : nodes) (i i' : idr) : Prop := {
  tf_top : top i' = top i;
  tf_layers : layers i' = layers i;
  tf_free : id_free i' = id_free i;
  tf_cnt : id_free_cnt i' = id_free_cnt i;
  tf_other q : (forall a, N !! a <> Some q) -> heap i' !! q = heap i !! q;
  tf_dom q : is_Some (heap i' !! q) <-> is_Some (heap i !! q)
}.

Lemma tree_frame_refl N i : tree_frame_of N i i.
Proof. done. Qed.

Lemma tree_frame_trans N i1 i2 i3 : tree_frame_of N i1 i2 -> tree_frame_of N i2 i3 -> tree_frame_of N i1 i3.
Proof.
  intros [A1 A2 A3 A4 A5 A6] [B1 B2 B3 B4 B5 B6]. constructor; try congruence.
  - intros q Hq. by rewrite B5, A5.
  - intros q. by rewrite B6, A6.
Qed.

Lemma tree_frame_write N i a p lay :
  N !! a = Some p -> is_Some (heap i !! p) -> tree_frame_of N i (set_heap (<[p := lay]> (heap i)) i).
Proof.
  intros HN Hp. constructor; try done.
  - intros q Hq. cbn. rewrite lookup_insert_ne; [done|]. intros ->. by apply (Hq a).
  - intros q. cbn. rewrite lookup_insert_is_Some'. split; [intros [<-|?]; done|by right].
Qed.

Lemma tree_frame_spare N i i' fl own : tree_frame_of N i i' -> idr_spare i N fl own -> idr_spare i' N fl own.
Proof. intros [A1 A2 A3 A4 A5 A6] Hs. unfold idr_spare. rewrite A3, A4. by apply (spare_frame (heap i)). Qed.

(** Holes at the layers of the way to [id] from level [l] up. *)
Definition path_hole (id l k y : Z) : bool := (l <=? k) && (y =? id / 64 ^ (k + 1)).

Lemma path_hole_open h N t L id : tree_ok h N t L no_hole -> tree_ok h N t L (path_hole id (L - 1)).
Proof.
  intros [H1 H2 H3 H4 H5 H6]. constructor; try done. intros k y p HN.
  destruct (H5 k y p HN) as (lay & Hh & [N1 N2 N3 N4 N5 N6]). exists lay. split; [done|].
  constructor; try done. intros n Hn. rewrite N6 by done. unfold bit, path_hole.
  destruct (H3 _ _ _ HN). by replace (L - 1 <=? k - 1) with false by lia.
Qed.

(** The bits of the way are clear, so if its lowest layer is not full none is. *)
Lemma path_hole_close h N t L id l :
  tree_ok h N t L (path_hole id l) -> -1 <= l -> full h N l (id / 64 ^ (l + 1)) = false ->
  tree_ok h N t L no_hole.
Proof.
  intros Ht Hl Hfull.
  assert (forall n : nat, full h N (l + Z.of_nat n) (id / 64 ^ (l + Z.of_nat n + 1)) = false) as Hall.
  { induction n as [|n IH]; [by rewrite Z.add_0_r|]. set (k := l + Z.of_nat n) in *.
    replace (l + Z.of_nat (S n)) with (k + 1) by lia.
    destruct (N !! (k + 1, id / 64 ^ (k + 1 + 1))) as [p|] eqn:EN; [|by apply full_absent; [lia|]].
    destruct (to_node _ _ _ _ _ Ht _ _ _ EN) as (lay & Hh & Hok). rewrite (full_node _ _ _ _ p lay) by (done || lia).
    apply (not_full_bit _ ((id / 64 ^ (k + 1)) mod 64)); [apply Hok|apply digit_range|].
    rewrite (no_bit _ _ _ _ _ _ Hok) by apply digit_range. replace (k + 1 - 1) with k by lia.
    rewrite prefix_down by lia. unfold bit. by rewrite IH, andb_false_r. }
  pose proof Ht as [H1 H2 H3 H4 H5 H6]. constructor; try done. intros k y p HN.
  destruct (H5 k y p HN) as (lay & Hh & [N1 N2 N3 N4 N5 N6]). exists lay. split; [done|].
  constructor; try done. intros n Hn. rewrite N6 by done. unfold bit, path_hole.
  destruct (l <=? k - 1) eqn:E1; [|done]. destruct (64 * y + n =? id / 64 ^ (k - 1 + 1)) eqn:E2; [|done]. zbool.
  rewrite E2. specialize (Hall (Z.to_nat (k - 1 - l))). rewrite Z2Nat.id in Hall by lia.
  replace (l + (k - 1 - l)) with (k - 1) in Hall by lia. by rewrite Hall, andb_false_r.
Qed.

(** Clearing the bit of the way in the layer at level [l]. *)
Lemma clear_bit_step h N t L id l p lay :
  tree_ok h N t L (path_hole id l) -> N !! (l, id / 64 ^ (l + 1)) = Some p -> h !! p = Some lay -> 0 <= l ->
  tree_ok (<[p := clear_bit ((id / 64 ^ l) mod 64) lay]> h) N t L (path_hole id (l - 1)).
Proof.
  intros Ht HN Hh Hl. pose proof (digit_range (id / 64 ^ l)) as Hd.
  destruct (to_node _ _ _ _ _ Ht _ _ _ HN) as (lay' & Hh' & Hok). rewrite Hh in Hh'. injection Hh' as <-.
  apply (tree_bitmap _ _ _ _ (path_hole id l) _ l (id / 64 ^ (l + 1))); try done.
  - apply word64_clearbit; [apply Hok|done].
  - intros n Hn. unfold bit. destruct (decide (n = (id / 64 ^ l) mod 64)) as [->|Hne].
    + rewrite Z.clearbit_eq, prefix_down by lia. unfold path_hole. replace (l - 1 + 1) with l by lia.
      rewrite Z.eqb_refl. by replace (l - 1 <=? l - 1) with true by lia.
    + rewrite Z.clearbit_neq, (no_bit _ _ _ _ _ _ Hok) by lia. unfold bit, path_hole.
      replace (l <=? l - 1) with false by lia. cbn [andb]. replace (l - 1 + 1) with l by lia.
      replace (64 * (id / 64 ^ (l + 1)) + n =? id / 64 ^ l) with false; [by rewrite andb_false_r|].
      symmetry. apply Z.eqb_neq. rewrite <- (prefix_down id l) by lia. lia.
  - unfold bit, path_hole. rewrite Z.eqb_refl. replace (l - 1 <=? l) with true by lia. by rewrite Z.leb_refl.
  - intros k y Hne Hne2 _. unfold path_hole. destruct (Z.eqb_spec y (id / 64 ^ (k + 1))) as [->|]; [|by rewrite !andb_false_r].
    rewrite !andb_true_r. destruct (decide (k = l - 1)) as [->|]; [|lia]. exfalso. apply Hne2.
    f_equal. rewrite prefix_up by lia. f_equal. f_equal. lia.
Qed.

(** The layer at level [k] on the way to a layer. *)
Lemma ancestor h N t L hole : tree_ok h N t L hole -> forall (n : nat) l x p,
  N !! (l, x) = Some p -> l + Z.of_nat n <= L - 1 -> is_Some (N !! (l + Z.of_nat n, x / 64 ^ Z.of_nat n)).
Proof.
  intros Ht. induction n as [|n IH]; intros l x p HN Hn; [rewrite Z.add_0_r, Z.pow_0_r, Z.div_1_r; by exists p|].
  destruct (to_parent _ _ _ _ _ Ht _ _ _ HN ltac:(lia)) as [q Hq]. specialize (IH _ _ _ Hq ltac:(lia)).
  replace (l + Z.of_nat (S n)) with (l + 1 + Z.of_nat n) by lia. rewrite Z.div_div in IH by (pose proof (pow64_pos (Z.of_nat n)); lia).
  by replace (Z.of_nat (S n)) with (Z.of_nat n + 1) by lia; rewrite pow64_succ by lia.
Qed.

(** The layers on the way to a leaf that exists. *)
Lemma way_layer h N t L hole id q l :
  tree_ok h N t L hole -> N !! (0, id / 64) = Some q -> 0 <= l < L -> is_Some (N !! (l, id / 64 ^ (l + 1))).
Proof.
  intros Ht Hq Hl. pose proof (ancestor _ _ _ _ _ Ht (Z.to_nat l) 0 (id / 64) q Hq ltac:(lia)) as Hr.
  rewrite Z2Nat.id in Hr by lia. change 64 with (64 ^ 1) in Hr at 1.
  rewrite Z.div_div, <- Z.pow_add_r in Hr by lia. by rewrite Z.add_0_l, (Z.add_comm 1) in Hr.
Qed.

(** The slots passed on the way from the top down to level [l]. *)
Inductive slot_path (N : nodes) (L id : Z) : Z -> list slot -> Prop :=
| slot_path_top : slot_path N L id (L - 1) [TopSlot]
| slot_path_ary l q paa :
    N !! (l + 1, id / 64 ^ (l + 2)) = Some q -> slot_path N L id (l + 1) paa ->
    slot_path N L id l (ArySlot q ((id / 64 ^ (l + 1)) mod 64) :: paa).

Lemma remove_down_spec N t L id : 0 <= id -> forall fuel l p paa i,
  tree_ok (heap i) N t L (path_hole id l) -> N !! (l, id / 64 ^ (l + 1)) = Some p -> slot_path N L id l paa ->
  l < Z.of_nat fuel ->
  exists paa' p' i', remove_down fuel (IDR_BITS * l) id paa (Some p) i = Some (paa', p', i') /\
    (forall j, slot_at (heap i') N j = slot_at (heap i) N j) /\ tree_frame_of N i i' /\
    match p' with
    | Some q => N !! (0, id / 64) = Some q /\ tree_ok (heap i') N t L (path_hole id 0) /\ slot_path N L id 0 paa'
    | None => N !! (0, id / 64) = None /\ tree_ok (heap i') N t L no_hole
    end.
Proof.
  intros Hid. induction fuel as [|fuel IH]; intros l p paa i Ht HN Hpa Hf.
  { destruct (to_dom _ _ _ _ _ Ht _ _ _ HN). lia. }
  destruct (to_dom _ _ _ _ _ Ht _ _ _ HN) as [Hl Hx]. cbn [remove_down].
  destruct (decide (l = 0)) as [->|Hne].
  { cbn. exists paa, (Some p), i. split; [done|]. split; [done|]. split; [apply tree_frame_refl|done]. }
  replace (IDR_BITS * l >? 0) with true by (unfold IDR_BITS; lia).
  destruct (to_node _ _ _ _ _ Ht _ _ _ HN) as (lay & Hh & Hok). rewrite slot_of_digit by lia.
  rewrite (update_spec _ _ _ lay Hh). cbn [mbind option_bind]. pose proof (digit_range (id / 64 ^ l)) as Hd.
  pose proof (clear_bit_step _ _ _ _ id l p lay Ht HN Hh ltac:(lia)) as Ht1. set (i1 := set_heap _ i).
  assert (get_ary i1 p ((id / 64 ^ l) mod 64) = Some (N !! (l - 1, id / 64 ^ l))) as ->.
  { unfold get_ary. cbn. rewrite lookup_insert_eq. cbn. rewrite (no_child _ _ _ _ _ _ Hok) by lia. by rewrite prefix_down by lia. }
  cbn [mbind option_bind].
  assert (tree_frame_of N i i1) as Hfr by (apply (tree_frame_write _ _ (l, id / 64 ^ (l + 1))); [done|by rewrite Hh]).
  destruct (N !! (l - 1, id / 64 ^ l)) as [q|] eqn:Eq.
  - replace (IDR_BITS * l - IDR_BITS) with (IDR_BITS * (l - 1)) by lia.
    destruct (IH (l - 1) q (ArySlot p ((id / 64 ^ l) mod 64) :: paa) i1 Ht1) as (paa' & p' & i' & E & R1 & R2 & R3).
    + by replace (l - 1 + 1) with l by lia.
    + replace l with (l - 1 + 1) at 2 by lia. constructor; replace (l - 1 + 1) with l by lia; [|done].
      by replace (l - 1 + 2) with (l + 1) by lia.
    + lia.
    + exists paa', p', i'. split; [done|]. split; [intros j; rewrite R1; by apply slot_at_bitmap|].
      split; [by apply (tree_frame_trans _ _ i1)|]. done.
  - exists (ArySlot p ((id / 64 ^ l) mod 64) :: paa), None, i1. destruct fuel; [lia|]. split; [done|].
    split; [intros j; by apply slot_at_bitmap|]. split; [done|]. split.
    + destruct (N !! (0, id / 64)) as [q|] eqn:E0; [|done].
      destruct (way_layer _ _ _ _ _ id q (l - 1) Ht E0 ltac:(lia)) as [r Hr]. replace (l - 1 + 1) with l in Hr by lia. congruence.
    + apply (path_hole_close _ _ _ _ id (l - 1) Ht1); [lia|]. apply full_absent; [lia|]. by replace (l - 1 + 1) with l by lia.
Qed.

(** Emptying a slot of a leaf, counted. *)
Lemma leaf_clear h N t L id p lay v :
  tree_ok h N t L (path_hole id 0) -> N !! (0, id / 64) = Some p -> h !! p = Some lay -> slot_at h N id = Some v ->
  let lay' := set_count (count lay - 1) (set_ary (id mod 64) None (clear_bit (id mod 64) lay)) in
  tree_ok (<[p := lay']> h) N t L no_hole /\
  forall j, slot_at (<[p := lay']> h) N j = if j =? id then None else slot_at h N j.
Proof.
  intros Ht HN Hh Hv lay'. pose proof (digit_range id) as Hd.
  destruct (to_node _ _ _ _ _ Ht _ _ _ HN) as (lay0 & Hh' & [N1 N2 N3 N4 N5 N6]). rewrite Hh in Hh'. injection Hh' as <-.
  assert (ary lay !! Z.to_nat (id mod 64) = Some (Some v)) as Hu.
  { unfold slot_at in Hv. rewrite HN, Hh in Hv. destruct (ary lay !! _) as [u|]; [|done]. cbn in Hv. by rewrite Hv. }
  set (h' := <[p := lay']> h).
  assert (forall j, slot_at h' N j = if j =? id then None else slot_at h N j) as Hslot.
  { by apply (leaf_slot h N t L (path_hole id 0) id p lay). }
  split; [|done].
  assert (full h' N 0 (id / 64) = false) as Hnf.
  { rewrite (full_node h' N 0 _ p lay') by (done || lia || apply lookup_insert_eq).
    apply (not_full_bit _ (id mod 64)); [by apply word64_clearbit|done|]. cbn. apply Z.clearbit_eq. }
  apply (path_hole_close _ _ _ _ id 0); [|lia|done].
  apply (tree_update _ _ _ _ (path_hole id 0) _ 0 (id / 64)); [done|done| |]; fold h'.
  - constructor; cbn; [done|by rewrite length_insert| |by apply word64_clearbit|lia|].
    + rewrite (count_some_insert _ _ (Some v)) by done. cbn. lia.
    + intros n Hn. unfold bit. rewrite full_slot, Hslot.
      destruct (decide (n = id mod 64)) as [->|Hne].
      * rewrite Z.clearbit_eq, child_eta, Z.eqb_refl. by rewrite andb_false_r.
      * rewrite Z.clearbit_neq by lia. rewrite N6 by done. unfold bit. change (0 - 1) with (-1). rewrite full_slot.
        replace (64 * (id / 64) + n =? id) with false; [done|]. symmetry. apply Z.eqb_neq. intros E.
        rewrite <- (child_eta id) in E at 2. lia.
  - intros k y Hne. unfold bit. destruct (decide ((k, y) = (0, id / 64))) as [[= -> ->]|Hne2].
    + unfold path_hole. change (64 ^ (0 + 1)) with 64. by rewrite Z.eqb_refl.
    + f_equal. by apply (full_update _ _ t L (path_hole id 0) 0 (id / 64)).
Qed.

(** *** A layer without slots in use leaves the tree *)
Section Unlink.
Context (h : gmap ptr idr_layer) (N : nodes) (t : ptr) (L l x : Z) (p : ptr) (lay : idr_layer)
  (q : ptr) (lq : idr_layer).
Hypothesis Ht : tree_ok h N t L no_hole.
Hypothesis HN : N !! (l, x) = Some p.
Hypothesis Hh : h !! p = Some lay.
Hypothesis Hc : count lay = 0.
Hypothesis Hl : l < L - 1.
Hypothesis HNq : N !! (l + 1, x / 64) = Some q.
Hypothesis Hhq : h !! q = Some lq.

Let h' := <[q := set_count (count lq - 1) (set_ary (x mod 64) None lq)]> h.
Let N' := delete (l, x) N.

Lemma unlink_node : node_ok h N no_hole l x lay.
Proof. destruct (to_node _ _ _ _ _ Ht _ _ _ HN) as (lay0 & Hh0 & Hok). rewrite Hh in Hh0. by injection Hh0 as <-. Qed.

Lemma unlink_null n v : ary lay !! n = Some v -> v = None.
Proof. apply count_some_zero. by rewrite <- (no_count _ _ _ _ _ _ unlink_node). Qed.

Lemma unlink_nochild n : 0 < l -> 0 <= n < 64 -> N !! (l - 1, 64 * x + n) = None.
Proof. intros Hl0 Hn. pose proof (no_child _ _ _ _ _ _ unlink_node Hl0 n Hn) as Hcn. by apply unlink_null in Hcn. Qed.

Lemma unlink_not_full : full h N l x = false.
Proof.
  destruct (to_dom _ _ _ _ _ Ht _ _ _ HN) as [Hl0 _]. rewrite (full_node _ _ _ _ p lay) by (done || lia).
  apply (not_full_bit _ 0); [apply unlink_node|lia|]. rewrite (no_bit _ _ _ _ _ _ unlink_node) by lia.
  unfold bit. cbn [no_hole negb andb]. destruct (decide (l = 0)) as [E|].
  - unfold full. replace (l - 1 =? -1) with true by lia. unfold slot_at. rewrite child_div, child_mod by lia.
    pose proof HN as HN0. rewrite E in HN0. rewrite HN0, Hh. destruct (ary lay !! Z.to_nat 0) as [u|] eqn:Eu; [|done]. by rewrite (unlink_null _ _ Eu).
  - apply full_absent; [lia|]. apply unlink_nochild; lia.
Qed.

Lemma unlink_inv a r : N' !! a = Some r -> a <> (l, x) /\ N !! a = Some r.
Proof. unfold N'. intros [? ?]%lookup_delete_Some. by split. Qed.

Lemma unlink_heap a r lr : N !! a = Some r -> h !! r = Some lr -> a <> (l + 1, x / 64) -> h' !! r = Some lr.
Proof.
  intros Hr Hlr Hne. unfold h'. rewrite lookup_insert_ne; [done|]. intros ->.
  by apply Hne, (to_inj _ _ _ _ _ Ht _ _ r).
Qed.

Lemma unlink_slot j : slot_at h' N' j = slot_at h N j.
Proof.
  destruct (to_dom _ _ _ _ _ Ht _ _ _ HN) as [Hl0 _]. unfold slot_at, N'.
  destruct (decide ((l, x) = (0, j / 64))) as [E|E].
  - rewrite <- E, lookup_delete_eq, HN, Hh.
    destruct (ary lay !! Z.to_nat (j mod 64)) as [u|] eqn:Eu; [|done]. cbn. symmetry. by apply (unlink_null _ _ Eu).
  - rewrite lookup_delete_ne by done. destruct (N !! (0, j / 64)) as [r|] eqn:Er; [|done].
    destruct (to_node _ _ _ _ _ Ht _ _ _ Er) as (lr & Hlr & _).
    rewrite (unlink_heap _ _ _ Er Hlr), Hlr; [done|]. intros [=]. lia.
Qed.

Lemma unlink_full k y : full h' N' k y = full h N k y.
Proof.
  unfold full. rewrite unlink_slot. destruct (k =? -1) eqn:Ek; [done|]. unfold N'.
  destruct (decide ((l, x) = (k, y))) as [[= <- <-]|E].
  - rewrite lookup_delete_eq. pose proof unlink_not_full as Hnf. unfold full in Hnf. by rewrite Ek in Hnf.
  - rewrite lookup_delete_ne by done. destruct (N !! (k, y)) as [r|] eqn:Er; [|done].
    destruct (to_node _ _ _ _ _ Ht _ _ _ Er) as (lr & Hlr & _). rewrite Hlr.
    destruct (decide ((k, y) = (l + 1, x / 64))) as [[= -> ->]|Hne]; [|by rewrite (unlink_heap _ _ _ Er Hlr Hne)].
    rewrite HNq in Er. injection Er as <-. rewrite Hhq in Hlr. injection Hlr as <-. unfold h'. by rewrite lookup_insert_eq.
Qed.

Lemma unlink_parent : node_ok h' N' no_hole (l + 1) (x / 64) (set_count (count lq - 1) (set_ary (x mod 64) None lq)).
Proof.
  destruct (to_dom _ _ _ _ _ Ht _ _ _ HN) as [Hl0 _]. pose proof (digit_range x) as Hd.
  destruct (to_node _ _ _ _ _ Ht _ _ _ HNq) as (lq' & Hq' & [M1 M2 M3 M4 M5 M6]). rewrite Hhq in Hq'. injection Hq' as <-.
  replace (l + 1 - 1) with l in * by lia. constructor; cbn; [done|by rewrite length_insert| |done|..].
  - rewrite (count_some_insert _ _ (Some p)) by (rewrite M5 by lia; by rewrite child_eta, HN). cbn. lia.
  - intros _ n Hn. replace (l + 1 - 1) with l by lia. unfold N'. destruct (decide (n = x mod 64)) as [->|Hne].
    + by rewrite list_lookup_insert_eq, child_eta, lookup_delete_eq by lia.
    + rewrite list_lookup_insert_ne, M5, lookup_delete_ne by (lia || (intros [= E]; rewrite <- (child_eta x) in E at 1; lia)). done.
  - intros n Hn. rewrite M6 by done. unfold bit. rewrite unlink_full. by replace (l + 1 - 1) with l by lia.
Qed.

Lemma tree_unlink : tree_ok h' N' t L no_hole.
Proof.
  pose proof Ht as [H1 H2 H3 H4 H5 H6]. constructor; [done| |..].
  - unfold N'. rewrite lookup_delete_ne; [done|]. intros [=]. lia.
  - intros k y r [_ Hr]%unlink_inv. by apply (H3 _ _ r).
  - intros a b r [_ Ha]%unlink_inv [_ Hb]%unlink_inv. by apply (H4 _ _ r).
  - intros k y r [Hne Hr]%unlink_inv. destruct (decide ((k, y) = (l + 1, x / 64))) as [[= -> ->]|Hne2].
    + rewrite HNq in Hr. injection Hr as <-. eexists. split; [apply lookup_insert_eq|apply unlink_parent].
    + destruct (H5 _ _ _ Hr) as (lr & Hlr & [M1 M2 M3 M4 M5 M6]). exists lr.
      split; [by apply (unlink_heap (k, y))|]. constructor; try done.
      * intros Hk n Hn. rewrite M5 by done. unfold N'. rewrite lookup_delete_ne; [done|]. intros [= E1 E2].
        apply Hne2. subst x. rewrite child_div by done. f_equal. lia.
      * intros n Hn. rewrite M6 by done. unfold bit. by rewrite unlink_full.
  - intros k y r [Hne Hr]%unlink_inv Hk. destruct (H6 _ _ _ Hr Hk) as [r' Hr']. exists r'. unfold N'.
    rewrite lookup_delete_ne; [done|]. intros [= E1 E2].
    assert (N !! (l - 1, 64 * x + y mod 64) = None) as Hnone.
    { apply unlink_nochild; [|apply digit_range]. destruct (H3 _ _ _ Hr). lia. }
    rewrite E2, child_eta in Hnone. replace (l - 1) with k in Hnone by lia. congruence.
Qed.
End Unlink.

(** A held layer is freed. *)
Lemma spare_free h f cnt N fl own p :
  spare h f cnt N fl (p :: own) -> p ∉ own -> spare (delete p h) f cnt N fl own.
Proof.
  intros [H1 H2 H3 H4 H5 H6] Hp. destruct (H5 p) as (_ & Hpf & HpN); [constructor|].
  constructor; try done.
  - apply (chain_frame h); [|done]. intros r Hr. rewrite lookup_delete_ne; [done|]. by intros ->.
  - intros r Hr. destruct (H5 r) as (? & ? & ?); [by constructor|]. split; [|done].
    rewrite lookup_delete_ne; [done|]. by intros ->.
  - intros r Hr. destruct (decide (p = r)) as [<-|Hne]; [rewrite lookup_delete_eq in Hr; by destruct Hr|].
    rewrite lookup_delete_ne in Hr by done. destruct (H6 r Hr) as [?|[[->|?]%elem_of_cons|?]]; auto; done.
Qed.

Definition held (o : option ptr) : list ptr := match o with Some p => [p] | None => [] end.

Lemma free_opt_spec o i N fl :
  idr_spare i N fl (held o) -> idr_spare (free_opt o i) N fl [] /\
  (forall a r, N !! a = Some r -> heap (free_opt o i) !! r = heap i !! r) /\
  top (free_opt o i) = top i /\ layers (free_opt o i) = layers i.
Proof.
  intros Hs. destruct o as [p|]; [|done]. cbn in *. split; [by apply spare_free; [|apply not_elem_of_nil]|].
  split; [|done]. intros a r Hr. rewrite lookup_delete_ne; [done|]. intros ->. by apply (spare_fresh _ _ _ _ r a Hs); [constructor|].
Qed.

Lemma spare_write i N fl own a p lay :
  idr_spare i N fl own -> N !! a = Some p -> is_Some (heap i !! p) ->
  idr_spare (set_heap (<[p := lay]> (heap i)) i) N fl own.
Proof. intros Hs HN Hp. apply (tree_frame_spare N i); [by apply (tree_frame_write _ _ a)|done]. Qed.

Lemma slot_path_delete N L id a l paa :
  a < l -> slot_path N L id l paa -> forall x, slot_path (delete (a, x) N) L id l paa.
Proof.
  intros Ha Hpa x. induction Hpa as [|l q paa Hq _ IH]; constructor; [|apply IH; lia].
  rewrite lookup_delete_ne; [done|]. intros [=]. lia.
Qed.

(** The last layer of the tree goes. *)
Lemma remove_top i N t fl to_free lay :
  tree_ok (heap i) N t (layers i) no_hole -> heap i !! t = Some lay -> count lay = 0 ->
  idr_spare i N fl (held to_free) ->
  exists i', remove_up [] (Some t) (set_top None (free_opt to_free i)) = Some i' /\ idr_ok i' ∅ fl /\
    forall j, slot_at (heap i') ∅ j = slot_at (heap i) N j.
Proof.
  intros Ht Hh Hc Hs. destruct (empty_tree _ _ _ _ _ Ht Hh Hc) as (-> & Hb & Ha).
  destruct (to_node _ _ _ _ _ Ht _ _ _ (to_top _ _ _ _ _ Ht)) as (lay' & Hh' & Hok).
  rewrite Hh in Hh'. injection Hh' as <-.
  destruct (single_tree (heap i) t (layers i) lay) as [_ Hslot];
    [apply Ht|done|apply (no_layer _ _ _ _ _ _ Hok)|done|done|done|].
  destruct (free_opt_spec _ _ _ _ Hs) as (Hs1 & Hfr & _ & _). cbn [remove_up].
  eexists. split; [done|]. split; [|intros j; rewrite Hslot; unfold slot_at; by rewrite lookup_empty].
  split; [|by left]. unfold idr_spare. cbn. apply spare_free; [|apply not_elem_of_nil].
  apply (spare_leave _ _ _ _ _ _ (layers i - 1, 0)); [done|apply lookup_empty|intros b; by rewrite lookup_empty|].
  rewrite (Hfr _ _ (lookup_singleton_eq _ _)). by rewrite Hh.
Qed.

(** The top of the way is the top of the tree. *)
Lemma path_top h N t L hole id p :
  tree_ok h N t L hole -> N !! (L - 1, id / 64 ^ (L - 1 + 1)) = Some p -> p = t.
Proof.
  intros Ht HN. destruct (to_dom _ _ _ _ _ Ht _ _ _ HN) as [_ Hx]. replace (L - 1 - (L - 1)) with 0 in Hx by lia.
  replace (id / 64 ^ (L - 1 + 1)) with 0 in HN by lia. rewrite (to_top _ _ _ _ _ Ht) in HN. by injection HN.
Qed.

(** The slot at the end of [paa] points to the layer. *)
Lemma slot_path_load h i N t L id l s paa p lay :
  slot_path N L id l (s :: paa) -> tree_ok h N t L no_hole -> N !! (l, id / 64 ^ (l + 1)) = Some p ->
  h = <[p := lay]> (heap i) -> top i = Some t -> load_slot s i = Some (Some p).
Proof.
  intros Hpa Ht HN -> Htop. destruct (to_dom _ _ _ _ _ Ht _ _ _ HN) as [Hl _].
  inversion Hpa as [|l0 q paa0 Hq Hpa']; subst; cbn.
  - by rewrite Htop, (path_top _ _ _ _ _ _ _ Ht HN).
  - destruct (to_node _ _ _ _ _ Ht _ _ _ Hq) as (lq & Hhq & Hokq). unfold get_ary.
    assert (q <> p) as Hne.
    { intros ->. assert ((l + 1, id / 64 ^ (l + 2)) = (l, id / 64 ^ (l + 1))) as [= ? _]
        by by apply (to_inj _ _ _ _ _ Ht _ _ p). lia. }
    rewrite lookup_insert_ne in Hhq by done. rewrite Hhq.
    rewrite (no_child _ _ _ _ _ _ Hokq) by (lia || apply digit_range). do 2 f_equal. replace (l + 1 - 1) with l by lia.
    replace (l + 2) with (l + 1 + 1) by lia. by rewrite prefix_down by lia.
Qed.

(** An empty layer is unlinked from the one above, whose count is now one too
    big, and held to be freed. *)
Lemma remove_up_step i N t fl to_free l x p lay q lq :
  tree_ok (heap i) N t (layers i) no_hole -> top i = Some t -> N !! (l, x) = Some p -> heap i !! p = Some lay ->
  count lay = 0 -> l < layers i - 1 -> N !! (l + 1, x / 64) = Some q -> heap i !! q = Some lq ->
  idr_spare i N fl (held to_free) ->
  let lq' := set_ary (x mod 64) None lq in
  exists i3, store_slot (ArySlot q (x mod 64)) None (free_opt to_free i) = Some i3 /\
    layers i3 = layers i /\ top i3 = Some t /\ heap i3 !! q = Some lq' /\
    tree_ok (<[q := set_count (count lq' - 1) lq']> (heap i3)) (delete (l, x) N) t (layers i) no_hole /\
    idr_spare i3 (delete (l, x) N) fl (held (Some p)) /\
    forall j, slot_at (<[q := set_count (count lq' - 1) lq']> (heap i3)) (delete (l, x) N) j = slot_at (heap i) N j.
Proof.
  intros Ht Htop HN Hp Hc Hl1 Hq Hhq Hs lq'. destruct (free_opt_spec _ _ _ _ Hs) as (Hs2 & Hfr & Ftop & Flay).
  assert (heap (free_opt to_free i) !! q = Some lq) as Hq2 by (by rewrite (Hfr _ _ Hq)).
  cbn [store_slot]. rewrite (update_spec _ _ _ lq Hq2). eexists. split; [done|]. fold lq'. set (i3 := set_heap _ _).
  pose proof (tree_unlink _ _ _ _ _ _ _ _ _ _ Ht HN Hp Hc Hl1 Hq Hhq) as Htu.
  pose proof (unlink_slot _ _ _ _ _ _ _ _ _ lq Ht HN Hp Hc Hq Hhq) as Hsl.
  assert (forall a r, delete (l, x) N !! a = Some r ->
    <[q := set_count (count lq' - 1) lq']> (heap i3) !! r = <[q := set_count (count lq' - 1) lq']> (heap i) !! r) as Hfr3.
  { intros a r [_ Hr]%lookup_delete_Some. cbn. rewrite insert_insert_eq. destruct (decide (q = r)) as [<-|].
    - by rewrite !lookup_insert_eq.
    - rewrite !(lookup_insert_ne _ q) by done. by apply (Hfr a). }
  split; [done|]. split; [by cbn; rewrite Ftop|]. split; [apply lookup_insert_eq|].
  split; [by apply (tree_frame (<[q := set_count (count lq' - 1) lq']> (heap i)))|].
  split; [|intros j; rewrite <- Hsl; by apply slot_at_frame].
  cbn [held]. apply (spare_leave _ _ _ _ _ _ (l, x)).
  - rewrite insert_delete_eq, (insert_id _ _ _ HN). apply (spare_write _ _ _ _ (l + 1, x / 64)); [done|done|by rewrite Hq2].
  - apply lookup_delete_eq.
  - intros b [Hb Hbp]%lookup_delete_Some. apply Hb. by apply (to_inj _ _ _ _ _ Ht _ _ p).
  - cbn. destruct (decide (q = p)) as [->|]; [by rewrite lookup_insert_eq|]. rewrite lookup_insert_ne by done.
    rewrite (Hfr _ _ HN). by rewrite Hp.
Qed.

(** The leaf at the end of [paa] lost a pointer: its count, and those of the
    layers that become empty with it, are still to be corrected. *)
Lemma remove_up_spec id t L : forall paa l p lay i N fl to_free,
  slot_path N L id l paa -> layers i = L -> top i = Some t -> N !! (l, id / 64 ^ (l + 1)) = Some p ->
  heap i !! p = Some lay -> tree_ok (<[p := set_count (count lay - 1) lay]> (heap i)) N t L no_hole ->
  idr_spare i N fl (held to_free) ->
  exists i' N', remove_up paa to_free i = Some i' /\ idr_ok i' N' fl /\
    forall j, slot_at (heap i') N' j = slot_at (<[p := set_count (count lay - 1) lay]> (heap i)) N j.
Proof.
  induction paa as [|s paa IH]; intros l p lay i N fl to_free Hpa HL Htop HN Hh Ht Hs; [by inversion Hpa|].
  destruct (to_dom _ _ _ _ _ Ht _ _ _ HN) as [Hl Hx]. cbn [remove_up].
  rewrite (slot_path_load _ _ _ _ _ _ _ _ _ _ _ Hpa Ht HN eq_refl Htop). cbn [mbind option_bind].
  rewrite (update_spec _ _ _ lay Hh). cbn [mbind option_bind].
  set (lay' := set_count (count lay - 1) lay) in *. set (i1 := set_heap (<[p := lay']> (heap i)) i).
  assert (idr_spare i1 N fl (held to_free)) as Hs1 by (apply (spare_write _ _ _ _ _ _ _ Hs HN); by rewrite Hh).
  assert (heap i1 !! p = Some lay') as Hp1 by apply lookup_insert_eq. rewrite Hp1. cbn [mbind option_bind].
  change (tree_ok (heap i1) N t L no_hole) in Ht. change (<[p := lay']> (heap i)) with (heap i1).
  assert (top i1 = Some t) as Htop1 by done. assert (layers i1 = L) as HL1 by done. clearbody i1.
  destruct (free_opt_spec _ _ _ _ Hs1) as (Hs2 & Hfr & Ftop & Flay).
  destruct (count lay' =? 0) eqn:Ec; zbool.
  2: { exists (free_opt to_free i1), N. split; [done|]. split; [|intros j; by apply slot_at_frame].
       split; [done|]. right. exists t. rewrite Ftop, Flay. split; [done|]. rewrite HL1. by apply (tree_frame (heap i1)). }
  clear HL. subst L. inversion Hpa as [|l0 q paa0 Hq Hpa']; subst.
  - cbn [store_slot mbind option_bind]. assert (p = t) as -> by apply (path_top _ _ _ _ _ _ _ Ht HN).
    destruct (remove_top i1 N t fl to_free lay' Ht Hp1 Ec Hs1) as (i' & E & R1 & R2). by exists i', ∅.
  - destruct (to_node _ _ _ _ _ Ht _ _ _ Hq) as (lq & Hhq & _). replace (l + 2) with (l + 1 + 1) in Hq by lia.
    assert (id / 64 ^ (l + 1) / 64 = id / 64 ^ (l + 1 + 1)) as Ex by (apply prefix_up; lia).
    rewrite <- Ex in Hq. assert (l < layers i1 - 1) as Hl1 by (destruct (to_dom _ _ _ _ _ Ht _ _ _ Hq); lia).
    destruct (remove_up_step i1 N t fl to_free l _ p lay' q lq Ht Htop1 HN Hp1 Ec Hl1 Hq Hhq Hs1)
      as (i3 & E3 & S1 & S2 & S3 & S4 & S5 & S6).
    rewrite E3. cbn [mbind option_bind].
    destruct (IH (l + 1) q (set_ary ((id / 64 ^ (l + 1)) mod 64) None lq) i3 (delete (l, id / 64 ^ (l + 1)) N) fl (Some p)) as (i' & N' & E & R1 & R2);
      [apply slot_path_delete; [lia|done]|done|done| |done|done|done|].
    + rewrite <- Ex, lookup_delete_ne; [done|]. intros [=]. lia.
    + exists i', N'. split; [done|]. split; [done|]. intros j. by rewrite R2, S6.
Qed.

(** Removal of an id in the range of the tree: a taken slot is emptied, another
    id gives a warning and nothing else. *)
Definition removed (i : idr) (N : nodes) (id : Z) (w : bool) (i' : idr) (N' : nodes) : Prop :=
  if full (heap i) N (-1) id
  then w = false /\ forall j, slot_at (heap i') N' j = if j =? id then None else slot_at (heap i) N j
  else w = true /\ forall j, slot_at (heap i') N' j = slot_at (heap i) N j.

(** The leaf of the id has been reached. *)
Lemma sub_remove_leaf i N t fl id paa q lay v :
  tree_ok (heap i) N t (layers i) (path_hole id 0) -> top i = Some t -> idr_spare i N fl [] ->
  N !! (0, id / 64) = Some q -> heap i !! q = Some lay -> slot_path N (layers i) id 0 paa ->
  slot_at (heap i) N id = Some v ->
  exists i' N', (i1 ← update q (clear_bit (id mod 64)) i;
                 i2 ← update q (set_ary (id mod 64) None) i1;
                 i3 ← remove_up paa None i2; Some (false, i3)) = Some (false, i') /\ idr_ok i' N' fl /\
    forall j, slot_at (heap i') N' j = if j =? id then None else slot_at (heap i) N j.
Proof.
  intros Ht Htop Hs HN Hh Hpa Hv. rewrite (update_spec _ _ _ lay Hh). cbn [mbind option_bind].
  set (lay1 := clear_bit (id mod 64) lay).
  rewrite (update_spec _ _ _ lay1) by apply lookup_insert_eq. cbn [mbind option_bind heap set_heap]. rewrite insert_insert_eq.
  set (lay2 := set_ary (id mod 64) None lay1). set (i2 := set_heap (<[q := lay2]> (heap i)) _).
  destruct (leaf_clear (heap i) N t (layers i) id q lay v Ht HN Hh Hv) as [Ht' Hslot].
  change (set_count (count lay - 1) (set_ary (id mod 64) None (clear_bit (id mod 64) lay)))
    with (set_count (count lay2 - 1) lay2) in *.
  destruct (remove_up_spec id t (layers i) paa 0 q lay2 i2 N fl None Hpa) as (i' & N' & E & R1 & R2);
    [done|done|done|apply lookup_insert_eq| | |].
  - cbn. by rewrite insert_insert_eq.
  - apply (spare_write _ _ _ _ _ _ _ Hs HN). by rewrite Hh.
  - rewrite E. cbn [mbind option_bind]. exists i', N'. split; [done|]. split; [done|]. intros j. rewrite R2. cbn.
    by rewrite insert_insert_eq, Hslot.
Qed.

Lemma sub_remove_spec i N fl id :
  idr_ok i N fl -> 0 <= id < 64 ^ layers i ->
  exists w i' N', sub_remove ((layers i - 1) * IDR_BITS) id i = Some (w, i') /\ idr_ok i' N' fl /\
    removed i N id w i' N'.
Proof.
  intros [Hs Htree] Hid. unfold sub_remove, removed. rewrite (Z.mul_comm (layers i - 1)).
  destruct Htree as [(Htop & HL & ->)|(t & Htop & Ht)]; rewrite Htop.
  { exists true, i, ∅. split; [done|]. split; [by split; [|left]|].
    rewrite full_slot. unfold slot_at. by rewrite lookup_empty. }
  pose proof (to_levels _ _ _ _ _ Ht) as HL. change MAX_LEVEL with 6 in HL.
  destruct (remove_down_spec N t (layers i) id ltac:(lia) (S (Z.to_nat MAX_LEVEL)) (layers i - 1) t [TopSlot] i)
    as (paa & p & i1 & E & R1 & R2 & R3); [by apply path_hole_open| |constructor|change (Z.of_nat (S (Z.to_nat MAX_LEVEL))) with 7; lia|].
  { replace (layers i - 1 + 1) with (layers i) by lia. rewrite Z.div_small by lia. apply Ht. }
  rewrite E. cbn [mbind option_bind]. rewrite land_mask. pose proof (tf_top _ _ _ R2) as Rtop. pose proof (tf_layers _ _ _ R2) as Rlay.
  pose proof (tree_frame_spare _ _ _ _ _ R2 Hs) as Hs1.
  destruct p as [q|].
  2: { destruct R3 as [R3 R4]. exists true, i1, N. split; [done|]. split.
       - split; [done|]. right. exists t. rewrite Rtop, Rlay. done.
       - rewrite full_slot. unfold slot_at at 1. by rewrite R3. }
  destruct R3 as (HNq & Ht1 & Hpa). destruct (to_node _ _ _ _ _ Ht1 _ _ _ HNq) as (lay & Hh & Hok).
  rewrite Hh. cbn [mbind option_bind]. rewrite (no_bit _ _ _ _ _ _ Hok) by apply digit_range.
  rewrite child_eta. unfold bit, path_hole. change (0 <=? 0 - 1) with false. cbn [andb negb]. change (0 - 1) with (-1).
  rewrite (slot_full (heap i) N (heap i1) N R1). destruct (full (heap i) N (-1) id) eqn:Ef.
  - rewrite full_slot in Ef. destruct (slot_at (heap i) N id) as [v|] eqn:Ev; [|done].
    destruct (sub_remove_leaf i1 N t fl id paa q lay v) as (i' & N' & E' & S1 & S2);
      [by rewrite Rlay|by rewrite Rtop|done|done|done|by rewrite Rlay|by rewrite R1|].
    rewrite E'. exists false, i', N'. split; [done|]. split; [done|]. split; [done|]. intros j. by rewrite S2, R1.
  - exists true, i1, N. split; [done|]. split; [|done]. split; [done|]. right. exists t. rewrite Rtop, Rlay. split; [done|].
    apply (path_hole_close _ _ _ _ id 0 Ht1); [lia|]. change (64 ^ (0 + 1)) with 64.
    rewrite (full_node _ _ _ _ q lay) by (done || lia). apply (not_full_bit _ (id mod 64)); [apply Hok|apply digit_range|].
    rewrite (no_bit _ _ _ _ _ _ Hok) by apply digit_range. unfold bit. rewrite child_eta. change (0 - 1) with (-1).
    by rewrite (slot_full (heap i) N (heap i1) N R1), Ef, andb_false_r.
Qed.

Lemma count_one l n u v :
  count_some l = 1 -> l !! 0%nat = Some (Some u) -> l !! n = Some (Some v) -> n = 0%nat.
Proof.
  destruct l as [|x l]; [done|]. cbn. intros Hc [= ->] Hn. destruct n as [|n]; [done|]. exfalso. cbn in Hc, Hn.
  assert (count_some l = 0) as Hz by lia. pose proof (proj1 (count_some_zero l) Hz _ _ Hn). done.
Qed.

(** One level less. *)
Lemma tree_shrink h N t L lay p :
  tree_ok h N t L no_hole -> h !! t = Some lay -> count lay = 1 -> 1 < L -> ary lay !! 0%nat = Some (Some p) ->
  tree_ok h (delete (L - 1, 0) N) p (L - 1) no_hole /\ forall j, slot_at h (delete (L - 1, 0) N) j = slot_at h N j.
Proof.
  intros Ht Hh Hc HL Hp. pose proof Ht as [H1 H2 H3 H4 H5 H6].
  destruct (H5 _ _ _ H2) as (lay' & Hh' & [N1 N2 N3 N4 N5 N6]). rewrite Hh in Hh'. injection Hh' as <-.
  assert (forall n q, 0 <= n < 64 -> N !! (L - 2, n) = Some q -> n = 0) as Honly.
  { intros n q Hn Hq. specialize (N5 ltac:(lia) n Hn). replace (L - 1 - 1) with (L - 2) in N5 by lia.
    rewrite Z.mul_0_r, Z.add_0_l, Hq in N5. rewrite N3 in Hc. pose proof (count_one _ _ _ _ Hc Hp N5). lia. }
  assert (N !! (L - 2, 0) = Some p) as Hp0.
  { specialize (N5 ltac:(lia) 0 ltac:(lia)). change (Z.to_nat 0) with 0%nat in N5. rewrite Hp in N5. replace (L - 1 - 1) with (L - 2) in N5 by lia. by injection N5. }
  assert (forall a r, delete (L - 1, 0) N !! a = Some r <-> a <> (L - 1, 0) /\ N !! a = Some r) as Hd.
  { intros a r. rewrite lookup_delete_Some. split; intros [Ha Hr]; (split; [congruence|done]). }
  assert (forall k y r, N !! (k, y) = Some r -> (k, y) <> (L - 1, 0) -> k < L - 1) as Hk.
  { intros k y r Hr Hne. destruct (H3 _ _ _ Hr) as [Hk Hy]. destruct (decide (k = L - 1)) as [->|]; [|lia].
    exfalso. apply Hne. replace (L - 1 - (L - 1)) with 0 in Hy by lia. f_equal. lia. }
  assert (forall j, slot_at h (delete (L - 1, 0) N) j = slot_at h N j) as Hslot.
  { intros j. unfold slot_at. rewrite lookup_delete_ne; [done|]. intros [=]. lia. }
  assert (forall k y, k < L - 1 -> full h (delete (L - 1, 0) N) k y = full h N k y) as Hfull.
  { intros k y Hky. unfold full. rewrite Hslot, lookup_delete_ne; [done|]. intros [=]. lia. }
  split; [|done]. constructor; [lia|rewrite lookup_delete_ne by (intros [=]; lia); by replace (L - 1 - 1) with (L - 2) by lia|..].
  - intros k y r [Hne Hr]%Hd. pose proof (Hk _ _ _ Hr Hne) as Hkl. destruct (H3 _ _ _ Hr) as [? Hy]. split; [lia|].
    destruct (ancestor _ _ _ _ _ Ht (Z.to_nat (L - 2 - k)) _ _ _ Hr ltac:(lia)) as [q Hq].
    rewrite Z2Nat.id in Hq by lia. replace (k + (L - 2 - k)) with (L - 2) in Hq by lia.
    pose proof (pow64_pos (L - 2 - k) ltac:(lia)) as Hpos.
    assert (y / 64 ^ (L - 2 - k) = 0) as Hz.
    { apply (Honly _ q); [|done]. split; [apply Z.div_pos; lia|]. apply Z.div_lt_upper_bound; [lia|].
      replace (L - 1 - k) with (L - 2 - k + 1) in Hy by lia. rewrite pow64_succ in Hy by lia. lia. }
    apply Z.div_small_iff in Hz; [|lia]. replace (L - 1 - 1 - k) with (L - 2 - k) by lia. lia.
  - intros a b r [_ Ha]%Hd [_ Hb]%Hd. by apply (H4 _ _ r).
  - intros k y r [Hne Hr]%Hd. pose proof (Hk _ _ _ Hr Hne) as Hkl.
    destruct (H5 _ _ _ Hr) as (lr & Hlr & [M1 M2 M3 M4 M5 M6]). exists lr. split; [done|]. constructor; try done.
    + intros Hk0 n Hn. rewrite M5 by done. rewrite lookup_delete_ne; [done|]. intros [=]. lia.
    + intros n Hn. rewrite M6 by done. unfold bit. by rewrite Hfull by lia.
  - intros k y r [Hne Hr]%Hd Hkl. destruct (H6 _ _ _ Hr ltac:(lia)) as [q Hq]. exists q.
    rewrite lookup_delete_ne; [done|]. intros [=]. lia.
Qed.

Lemma shrink_spec i N fl :
  idr_ok i N fl -> exists i' N', shrink i = Some i' /\ idr_ok i' N' fl /\
    forall j, slot_at (heap i') N' j = slot_at (heap i) N j.
Proof.
  intros Hok. pose proof Hok as [Hs [(Htop & _ & _)|(t & Htop & Ht)]]; unfold shrink; rewrite Htop; [by exists i, N|].
  destruct (to_node _ _ _ _ _ Ht _ _ _ (to_top _ _ _ _ _ Ht)) as (lay & Hh & Hno). rewrite Hh. cbn [mbind option_bind].
  destruct ((count lay =? 1) && (layers i >? 1)) eqn:E; [|by exists i, N].
  apply andb_true_iff in E as [Hc%Z.eqb_eq Hl%Z.gtb_lt].
  destruct (lookup_lt_is_Some_2 (ary lay) 0) as [v Hv]; [rewrite (no_ary _ _ _ _ _ _ Hno); lia|].
  assert (get_ary i t 0 = Some v) as -> by (unfold get_ary; by rewrite Hh). cbn [mbind option_bind].
  destruct v as [p|]; [|by exists i, N].
  destruct (tree_shrink _ _ _ _ _ _ Ht Hh Hc ltac:(lia) Hv) as [Ht' Hslot].
  assert (forall b, delete (layers i - 1, 0) N !! b <> Some t) as Hnt.
  { intros b [Hb Hbt]%lookup_delete_Some. apply Hb. apply (to_inj _ _ _ _ _ Ht _ _ t); [apply Ht|done]. }
  assert (forall a r, delete (layers i - 1, 0) N !! a = Some r -> delete t (heap i) !! r = heap i !! r) as Hfr.
  { intros a r Hr. rewrite lookup_delete_ne; [done|]. intros ->. by apply (Hnt a). }
  eexists _, (delete (layers i - 1, 0) N). split; [done|]. split.
  - split; [|right; exists p; split; [done|]; by apply (tree_frame (heap i))]. unfold idr_spare. cbn.
    apply spare_free; [|apply not_elem_of_nil]. apply (spare_leave _ _ _ _ _ _ (layers i - 1, 0)).
    + rewrite insert_delete_eq, insert_id by apply Ht. done.
    + apply lookup_delete_eq.
    + done.
    + by rewrite Hh.
  - intros j. cbn. by rewrite (slot_at_frame (heap i)).
Qed.

(** Freeing the first layer in reserve. *)
Lemma drop_one i N p fl :
  idr_ok i N (p :: fl) ->
  exists i', get_from_free_list i = Some (Some p, i') /\ idr_ok (free_layer p i') N fl /\
    forall j, slot_at (heap (free_layer p i')) N j = slot_at (heap i) N j.
Proof.
  intros [Hs Htree]. destruct (get_from_free_list_spec i N (p :: fl) [] Hs) as (lz & i1 & _ & _ & _ & G & G1 & G2 & G3 & G4 & _).
  assert (forall a r, N !! a = Some r -> heap (free_layer p i1) !! r = heap i !! r) as Hfr.
  { intros a r Hr. cbn. assert (p <> r) by (intros ->; by apply (spare_fresh _ _ _ _ r a G4); [constructor|]).
    by rewrite lookup_delete_ne, G3, lookup_insert_ne by done. }
  exists i1. split; [done|]. split; [|intros j; by apply slot_at_frame].
  split; [by apply spare_free; [|apply not_elem_of_nil]|]. cbn. rewrite G1, G2.
  destruct Htree as [?|(t & Ht1 & Ht2)]; [by left|right]. exists t. split; [done|]. by apply (tree_frame (heap i)).
Qed.

(** The list of spare layers is cut to fewer than [bound]. *)
Lemma trim_free_spec bound : 0 < bound -> forall fuel i N fl,
  idr_ok i N fl -> Z.of_nat (length fl) < Z.of_nat fuel ->
  exists i' fl', trim_free fuel bound i = Some i' /\ idr_ok i' N fl' /\
    (forall j, slot_at (heap i') N j = slot_at (heap i) N j) /\ Z.of_nat (length fl') < bound.
Proof.
  intros Hbound. induction fuel as [|fuel IH]; intros i N fl Hok Hf; [lia|]. cbn [trim_free].
  pose proof (sp_cnt _ _ _ _ _ _ (proj1 Hok)) as Hcnt.
  destruct (id_free_cnt i >=? bound) eqn:E; zbool; [|exists i, fl; split; [done|]; split; [done|]; split; [done|lia]].
  destruct fl as [|p fl]; [cbn in *; lia|]. destruct (drop_one i N p fl Hok) as (i1 & G & Hok1 & Hs1).
  rewrite G. cbn [mbind option_bind]. destruct (IH (free_layer p i1) N fl Hok1) as (i' & fl' & E1 & R1 & R2 & R3); [cbn in Hf; lia|].
  exists i', fl'. split; [done|]. split; [done|]. split; [|done]. intros j. by rewrite R2.
Qed.

(** What [idr_remove] does after the id is gone. *)
Definition remove_tail (i : idr) : option idr :=
  i ← shrink i; trim_free (S (Z.to_nat (id_free_cnt i))) IDR_FREE_MAX i.

Lemma remove_rest i N fl :
  idr_ok i N fl ->
  exists i' N' fl', remove_tail i = Some i' /\ idr_ok i' N' fl' /\
    (forall j, slot_at (heap i') N' j = slot_at (heap i) N j) /\ Z.of_nat (length fl') < IDR_FREE_MAX.
Proof.
  intros Hok. destruct (shrink_spec i N fl Hok) as (i2 & N2 & E2 & Hok2 & Hs2).
  unfold remove_tail. rewrite E2. cbn [mbind option_bind].
  pose proof (sp_cnt _ _ _ _ _ _ (proj1 Hok2)) as Hcnt.
  destruct (trim_free_spec IDR_FREE_MAX ltac:(done) (S (Z.to_nat (id_free_cnt i2))) i2 N2 fl Hok2 ltac:(lia))
    as (i3 & fl3 & E3 & Hok3 & Hs3 & Hl3).
  exists i3, N2, fl3. split; [done|]. split; [done|]. split; [|done]. intros j. by rewrite Hs3, Hs2.
Qed.

Lemma remove_eq id i :
  idr_remove id i =
  '(w, i) ← sub_remove ((layers i - 1) * IDR_BITS) (Z.land id MAX_ID_MASK) i;
  i ← remove_tail i;
  Some (w, i).
Proof.
  unfold idr_remove, remove_tail. destruct (sub_remove _ _ i) as [[w i1]|]; [|done]. cbn [mbind option_bind].
  by destruct (shrink i1).
Qed.

Lemma idr_remove_ok i N fl id :
  idr_ok i N fl -> 0 <= id < 64 ^ layers i ->
  exists w i' N' fl', idr_remove id i = Some (w, i') /\ idr_ok i' N' fl' /\ removed i N id w i' N' /\
    Z.of_nat (length fl') < IDR_FREE_MAX.
Proof.
  intros Hok Hid.
  assert (64 ^ layers i <= 2 ^ 30) as Hmax.
  { destruct Hok as [_ [(_ & -> & _)|(t & _ & Ht)]]; [done|]. pose proof (to_levels _ _ _ _ _ Ht) as HL.
    change MAX_LEVEL with 6 in HL. apply pow64_max. lia. }
  rewrite remove_eq, mask_id by lia.
  destruct (sub_remove_spec i N fl id Hok Hid) as (w & i1 & N1 & E1 & Hok1 & Hr). rewrite E1. cbn [mbind option_bind].
  destruct (remove_rest i1 N1 fl Hok1) as (i3 & N3 & fl3 & E3 & Hok3 & Hs3 & Hl3). rewrite E3.
  cbn [mbind option_bind]. exists w, i3, N3, fl3. split; [done|]. split; [done|]. split; [|done].
  unfold removed in *. destruct (full (heap i) N (-1) id).
  - destruct Hr as [-> Hr]. split; [done|]. intros j. by rewrite Hs3, Hr.
  - destruct Hr as [-> Hr]. split; [done|]. intros j. by rewrite Hs3, Hr.
Qed.

(** ** Preallocation *)

Lemma idr_pre_get_spec : forall fuel avail i N fl,
  idr_ok i N fl -> Z.max 0 (IDR_FREE_MAX - Z.of_nat (length fl)) < Z.of_nat fuel ->
  exists r i' fl', idr_pre_get fuel avail i = Some (r, i') /\ idr_ok i' N fl' /\
    (forall j, slot_at (heap i') N j = slot_at (heap i) N j) /\
    (r = true -> IDR_FREE_MAX <= Z.of_nat (length fl')) /\
    (IDR_FREE_MAX - Z.of_nat (length fl) <= Z.of_nat avail -> r = true).
Proof.
  induction fuel as [|fuel IH]; intros avail i N fl Hok Hf; cbn [idr_pre_get]; [lia|].
  pose proof Hok as [Hs Htree]. pose proof (sp_cnt _ _ _ _ _ _ Hs) as Hcnt.
  destruct (id_free_cnt i <? IDR_FREE_MAX) eqn:E; zbool.
  2: { exists true, i, fl. split; [done|]. split; [done|]. split; [done|]. split; [lia|done]. }
  destruct avail as [|avail].
  { exists false, i, fl. split; [done|]. split; [done|]. split; [done|]. split; [done|lia]. }
  set (new := fresh (dom (heap i))).
  assert (heap i !! new = None) as Hnew by (apply not_elem_of_dom, is_fresh).
  assert (forall a r, N !! a = Some r -> new <> r) as HnewN.
  { intros a r Hr ->. destruct Htree as [(_ & _ & ->)|(t & _ & Ht)]; [by rewrite lookup_empty in Hr|].
    destruct a as [l x]. destruct (to_node _ _ _ _ _ Ht _ _ _ Hr) as (lay & Hh & _). congruence. }
  assert (new ∉ fl) as Hnf.
  { intros Hin. assert (is_Some (heap i !! new)) as [? ?]; [|congruence].
    pose proof (sp_chain _ _ _ _ _ _ Hs) as Hc. clear -Hc Hin. induction Hc as [|p next fl lay Hp]; [by apply not_elem_of_nil in Hin|].
    apply elem_of_cons in Hin as [->|Hin]; [by rewrite Hp|by apply IHHc]. }
  set (i1 := set_heap (<[new := zero_layer]> (heap i)) i).
  assert (idr_spare i1 N fl [new]) as Hs1.
  { destruct Hs as [S1 S2 S3 S4 S5 S6]. constructor; cbn; try done.
    - apply (chain_frame (heap i)); [|done]. intros r Hr. rewrite lookup_insert_ne; [done|]. by intros ->.
    - intros r Hr%list_elem_of_singleton. subst r. rewrite lookup_insert_eq. split; [done|]. split; [done|].
      intros a Ha. by apply (HnewN a new).
    - intros r. rewrite lookup_insert_is_Some'. intros [<-|Hr]; [right; left; constructor|].
      destruct (S6 r Hr) as [?|[[]%not_elem_of_nil|?]]; auto. }
  destruct (move_to_free_list_spec i1 N fl [] new zero_layer Hs1) as (i2 & E2 & Hs2 & M1 & M2 & M3 & M4);
    [apply not_elem_of_nil|apply lookup_insert_eq|done|done|done|].
  rewrite E2. cbn [mbind option_bind].
  assert (forall a r, N !! a = Some r -> heap i2 !! r = heap i !! r) as Hfr.
  { intros a r Hr. pose proof (HnewN a r Hr). rewrite M3. cbn. by rewrite !lookup_insert_ne by done. }
  destruct (IH avail i2 N (new :: fl)) as (r & i' & fl' & E' & R1 & R2 & R3 & R4).
  - split; [done|]. rewrite M1, M2. destruct Htree as [?|(t & Ht1 & Ht2)]; [by left|right]. exists t. split; [done|].
    by apply (tree_frame (heap i)).
  - cbn. lia.
  - exists r, i', fl'. split; [done|]. split; [done|]. split; [intros j; rewrite R2; by apply slot_at_frame|].
    split; [done|]. intros Hav. apply R4. cbn. lia.
Qed.
End Tree.
