(* ===== verification/IdrSpec.v ===== *)
(** * IdrSpec: the contract of an IDR

    What each operation of lib/idr.c does to the pointers an IDR holds, in
    terms of lookup: first fit allocation, removal and preloading. *)

From S2P Require Import Prelude Idr IdrInv.

(** ** The operations of an IDR *)

(** Every pointer fills its slot. *)
Definition every (p : ptr) : bool := true.

(** The invariant of an IDR between operations. *)
Definition idr_wf (i : idr) : Prop := exists N fl, idr_ok every i N fl.

(** Some id from [start] on is free. *)
Definition has_room (i : idr) (start : Z) : Prop := exists j, start <= j < 2 ^ 30 /\ idr_find i j = Some None.

Lemma full_every h N id : full every h N (-1) id = match slot_at h N id with Some _ => true | None => false end.
Proof. rewrite full_slot. by destruct (slot_at h N id). Qed.

Lemma idr_wf_cnt i N fl : idr_ok every i N fl -> id_free_cnt i = Z.of_nat (length fl).
Proof. intros [Hs _]. apply (sp_cnt _ _ _ _ _ _ Hs). Qed.

Lemma get_empty_slot_spec start i N fl :
  idr_ok every i N fl -> 0 <= start -> has_room i start ->
  exists r pa i' N' fl' t, idr_get_empty_slot start i = Some (r, pa, i') /\ idr_ok every i' N' fl' /\
    (forall j, slot_at (heap i') N' j = slot_at (heap i) N j) /\ slot_found every i N fl start r pa i' N' t.
Proof.
  intros Hok Hs (j & Hj & Hf). change (2 ^ 30) with (64 ^ 5) in *.
  rewrite (idr_find_spec every i N fl j Hok) in Hf by lia. injection Hf as Hf.
  apply build_up_spec; [done|lia|exists j; split; [done|]; by rewrite full_every, Hf|].
  assert (0 <= layers i) as HL. { destruct Hok as [_ [(_ & -> & _)|(t & _ & Ht)]]; [done|]. pose proof (to_levels _ _ _ _ _ _ Ht). lia. }
  change (Z.of_nat (S (Z.to_nat MAX_LEVEL))) with 7. case_if; lia.
Qed.

(** What an allocation does to the pointers stored. *)
Definition allocated (i : idr) (N : nodes) (start : Z) (v : ptr) (r : alloc_result) (i' : idr) (N' : nodes) : Prop :=
  match r with
  | Found id =>
      start <= id < 2 ^ 30 /\ slot_at (heap i) N id = None /\
      (forall j, start <= j < id -> is_Some (slot_at (heap i) N j)) /\
      forall j, slot_at (heap i') N' j = if j =? id then Some v else slot_at (heap i) N j
  | NoLayer => id_free_cnt i < 10 /\ forall j, slot_at (heap i') N' j = slot_at (heap i) N j
  | _ => False
  end.

Lemma get_new_above_int_spec v start i N fl :
  idr_ok every i N fl -> 0 <= start -> has_room i start ->
  exists r i' N' fl', idr_get_new_above_int v start i = Some (r, i') /\ idr_ok every i' N' fl' /\
    allocated i N start v r i' N'.
Proof.
  intros Hok Hst Hroom. unfold idr_get_new_above_int.
  destruct (get_empty_slot_spec start i N fl Hok Hst Hroom) as (r & pa & i1 & N1 & fl1 & t & E & Hok1 & Hslot & Hr).
  rewrite E. cbn [mbind option_bind]. destruct r as [id|id| |]; cbn [slot_found] in Hr; [|done..|].
  2: { exists NoLayer, i1, N1, fl1. split; [done|]. split; [done|]. split; [|done]. rewrite (idr_wf_cnt _ _ _ Hok).
       enough (0 <= layers i) by lia. destruct Hok as [_ [(_ & -> & _)|(t' & _ & Ht)]]; [done|].
       pose proof (to_levels _ _ _ _ _ _ Ht). lia. }
  destruct Hr as (Hid & Hfree & Htaken & Htop & Hpa). apply path_ok_full in Hpa.
  destruct Hok1 as [Hs1 [(? & _)|(t1 & Ht1 & Htree)]]; [congruence|]. rewrite Htop in Ht1. injection Ht1 as <-.
  pose proof (to_levels _ _ _ _ _ _ Htree) as HL. pose proof HL as HL'. change MAX_LEVEL with 6 in HL'.
  destruct (proj1 Hpa 0 ltac:(lia)) as [[p Hp] HN]. rewrite Hp in HN |- *. change (64 ^ (0 + 1)) with 64 in HN.
  symmetry in HN. destruct (to_node _ _ _ _ _ _ Htree _ _ _ HN) as (lay & Hh & _). cbn [mbind option_bind].
  rewrite full_every in Hfree. destruct (slot_at (heap i) N id) eqn:Eslot; [done|].
  destruct (leaf_store every (heap i1) N1 t (layers i1) id p lay v Htree HN Hh) as [Ht2 Hsl2]; [by rewrite Hslot|].
  rewrite land_mask, (update_spec _ _ _ lay Hh). cbn [mbind option_bind].
  rewrite (update_spec _ _ _ (set_ary (id mod 64) (Some v) lay)) by apply lookup_insert_eq. cbn [mbind option_bind heap set_heap].
  rewrite insert_insert_eq. set (lay2 := set_count _ _). set (i2 := set_heap (<[p := lay2]> (heap i1)) _).
  destruct (idr_mark_full_spec every pa id i2 N1 t (layers i1) lay2 p Ht2 Hpa HN)
    as (i3 & E3 & R1 & R2 & R3 & R4 & R5 & R6 & R7 & R8); [apply lookup_insert_eq| |change MAX_LEVEL with 6; lia|].
  { rewrite full_every. cbn. by rewrite Hsl2, Z.eqb_refl. }
  rewrite E3. cbn [mbind option_bind]. exists (Found id), i3, N1, fl1. split; [done|]. split.
  - split; [|right; exists t; rewrite R3, R4; done].
    unfold idr_spare. rewrite R5, R6. apply (spare_frame (heap i2)); [|done|done].
    apply (spare_write i1 N1 fl1 [] (0, id / 64) p lay2 Hs1 HN). by rewrite Hh.
  - pose proof (pow64_max (layers i1) ltac:(lia)). split; [lia|]. split; [done|]. split.
    + intros j Hj. specialize (Htaken j Hj). rewrite full_every in Htaken. by destruct (slot_at (heap i) N j).
    + intros j. rewrite R2. cbn. by rewrite Hsl2, Hslot.
Qed.

Lemma init_wf : idr_wf idr_init.
Proof.
  exists ∅, []. split; [|by left]. constructor; cbn; [constructor|done|constructor|..].
  - by intros p a []%not_elem_of_nil.
  - by intros p []%not_elem_of_nil.
  - intros p. rewrite lookup_empty. by intros [].
Qed.

Lemma find_slot i N fl j o : idr_ok every i N fl -> 0 <= j <= INT_MAX -> (idr_find i j = Some o <-> slot_at (heap i) N j = o).
Proof.
  intros Hok Hj. rewrite (idr_find_spec every i N fl j Hok) by (unfold INT_MAX in *; lia).
  split; [by intros [= ?]|by intros ->].
Qed.

Lemma find_same i N fl i' N' fl' j :
  idr_ok every i N fl -> idr_ok every i' N' fl' -> 0 <= j <= INT_MAX ->
  slot_at (heap i') N' j = slot_at (heap i) N j -> idr_find i' j = idr_find i j.
Proof.
  intros H1 H2 Hj E. rewrite (idr_find_spec every i N fl j H1), (idr_find_spec every i' N' fl' j H2), E; [done|..];
    unfold INT_MAX in *; lia.
Qed.

(** The pointers two IDRs hold agree. *)
Definition same_ptrs (i i' : idr) : Prop := forall j, 0 <= j <= INT_MAX -> idr_find i' j = idr_find i j.

(** [i'] holds what [i] does, except [o] at [id]. *)
Definition ptrs_with (i : idr) (id : Z) (o : option ptr) (i' : idr) : Prop :=
  forall j, 0 <= j <= INT_MAX -> idr_find i' j = if j =? id then Some o else idr_find i j.

Lemma same_ptrs_slots i N fl i' N' fl' :
  idr_ok every i N fl -> idr_ok every i' N' fl' -> (forall j, slot_at (heap i') N' j = slot_at (heap i) N j) ->
  same_ptrs i i'.
Proof. intros H1 H2 Hs j Hj. by apply (find_same i N fl i' N' fl'). Qed.

Lemma ptrs_with_slots i N fl i' N' fl' id o :
  idr_ok every i N fl -> idr_ok every i' N' fl' ->
  (forall j, slot_at (heap i') N' j = if j =? id then o else slot_at (heap i) N j) -> ptrs_with i id o i'.
Proof.
  intros H1 H2 Hs j Hj. destruct (Z.eqb_spec j id) as [->|Hne].
  - apply (find_slot i' N' fl'); [done..|]. by rewrite Hs, Z.eqb_refl.
  - apply (find_same i N fl i' N' fl'); [done..|]. rewrite Hs. by replace (j =? id) with false by lia.
Qed.

(** The two outcomes of an allocation from [start]. *)
Definition first_fit (i : idr) (v : ptr) (start err id : Z) (i' : idr) : Prop :=
  (err = 0 /\ start <= id < 2 ^ 30 /\ idr_find i id = Some None /\
    (forall j, start <= j < id -> exists p, idr_find i j = Some (Some p)) /\ ptrs_with i id (Some v) i') \/
  (err = - EAGAIN /\ id_free_cnt i < 10 /\ same_ptrs i i').

Lemma get_new_above_first v start i :
  idr_wf i -> 0 <= start -> has_room i start ->
  exists err id i', idr_get_new_above v start i = Some (err, id, i') /\ idr_wf i' /\ first_fit i v start err id i'.
Proof.
  intros (N & fl & Hok) Hst Hroom. destruct (get_new_above_int_spec v start i N fl Hok Hst Hroom)
    as (r & i' & N' & fl' & E & Hok' & Hr).
  unfold idr_get_new_above. rewrite E. cbn [mbind option_bind].
  destruct r as [id|id| |]; cbn [allocated] in Hr; [|done..|].
  - destruct Hr as (Hid & Hnone & Htaken & Hs). exists 0, id, i'. split; [done|]. split; [by exists N', fl'|].
    left. split; [done|]. split; [done|]. split; [|split].
    + apply (find_slot i N fl); [done|unfold INT_MAX; lia|done].
    + intros j Hj. destruct (Htaken j Hj) as [p Hp]. exists p. apply (find_slot i N fl); [done|unfold INT_MAX; lia|done].
    + by apply (ptrs_with_slots i N fl i' N' fl').
  - destruct Hr as [Hc Hs]. exists (- EAGAIN), 0, i'. split; [done|]. split; [by exists N', fl'|].
    right. split; [done|]. split; [done|]. by apply (same_ptrs_slots i N fl i' N' fl').
Qed.

Lemma get_new_is_above v i : idr_get_new v i = idr_get_new_above v 0 i.
Proof. done. Qed.

Lemma pre_get_ok avail i :
  idr_wf i -> exists r i', idr_pre_get pre_get_fuel avail i = Some (r, i') /\ idr_wf i' /\ same_ptrs i i' /\
    (r = true -> IDR_FREE_MAX <= id_free_cnt i') /\ (IDR_FREE_MAX - id_free_cnt i <= Z.of_nat avail -> r = true).
Proof.
  intros (N & fl & Hok). pose proof (idr_wf_cnt _ _ _ Hok) as Hc.
  destruct (idr_pre_get_spec every pre_get_fuel avail i N fl Hok) as (r & i' & fl' & E & Hok' & Hs & Hr & Ha).
  { unfold pre_get_fuel. lia. }
  exists r, i'. split; [done|]. split; [by exists N, fl'|]. split; [by apply (same_ptrs_slots i N fl i' N fl')|].
  rewrite (idr_wf_cnt _ _ _ Hok'), Hc. done.
Qed.

Lemma same_ptrs_room i i' start : 0 <= start -> same_ptrs i i' -> has_room i start -> has_room i' start.
Proof.
  intros Hst Hs (j & Hj & Hf). exists j. split; [done|]. rewrite Hs; [done|]. unfold INT_MAX. lia.
Qed.

Lemma remove_exact id i :
  idr_wf i -> 0 <= id < 64 ^ layers i ->
  exists w i', idr_remove id i = Some (w, i') /\ idr_wf i' /\ id_free_cnt i' < IDR_FREE_MAX /\
    match idr_find i id with
    | Some (Some _) => w = false /\ ptrs_with i id None i'
    | _ => w = true /\ same_ptrs i i'
    end.
Proof.
  intros (N & fl & Hok) Hid.
  assert (64 ^ layers i <= 2 ^ 30) as Hmax.
  { destruct Hok as [_ [(_ & -> & _)|(t & _ & Ht)]]; [done|]. pose proof (to_levels _ _ _ _ _ _ Ht) as HL.
    change MAX_LEVEL with 6 in HL. apply pow64_max. lia. }
  destruct (idr_remove_ok every i N fl id Hok Hid) as (w & i' & N' & fl' & E & Hok' & Hr & Hlen).
  exists w, i'. split; [done|]. split; [by exists N', fl'|]. split; [by rewrite (idr_wf_cnt _ _ _ Hok')|].
  rewrite (idr_find_spec every i N fl id Hok) by lia. unfold removed in Hr. rewrite full_every in Hr.
  destruct (slot_at (heap i) N id) as [v|]; destruct Hr as [-> Hs]; (split; [done|]).
  - by apply (ptrs_with_slots i N fl i' N' fl').
  - by apply (same_ptrs_slots i N fl i' N' fl').
Qed.

(** An id that is allocated lies in the tree. *)
Lemma find_in_tree i id v : idr_wf i -> 0 <= id <= INT_MAX -> idr_find i id = Some (Some v) -> id < 64 ^ layers i.
Proof.
  intros (N & fl & Hok) Hid Hf. apply (find_slot i N fl) in Hf; [|done..].
  destruct Hok as [_ [(_ & _ & ->)|(t & _ & Ht)]]; [unfold slot_at in Hf; by rewrite lookup_empty in Hf|].
  destruct (decide (id < 64 ^ layers i)) as [|Hn]; [done|].
  rewrite (slot_at_out every _ _ _ _ _ _ Ht) in Hf by lia. done.
Qed.

Lemma pre_get_wf avail i r i' : idr_wf i -> idr_pre_get pre_get_fuel avail i = Some (r, i') -> idr_wf i'.
Proof. intros Hwf E. destruct (pre_get_ok avail i Hwf) as (r1 & i1 & E1 & Hwf1 & _). congruence. Qed.

Lemma get_new_above_wf v start i x i' :
  idr_wf i -> 0 <= start -> has_room i start -> idr_get_new_above v start i = Some (x, i') -> idr_wf i'.
Proof.
  intros Hwf Hst Hroom E. destruct (get_new_above_first v start i Hwf Hst Hroom) as (err & id & i1 & E1 & Hwf1 & _). congruence.
Qed.

(** ** Theorems *)

(** C9. Allocation of ids above a start: from any well-formed IDR with a free
    id below 2^30, [idr_pre_get] and [idr_get_new_above] always return, without
    a BUG_ON or a stray pointer, and leave a well-formed IDR. The id assigned is
    the smallest free one from the start on, lookup then finds the pointer
    there and every other id is as before; else the answer is -EAGAIN, fewer
    than ten layers were in reserve and no id has changed. When memory for
    twelve layers was there, [idr_pre_get] says so, and after that the
    allocation does not fail. *)
Theorem idr_alloc_first_fit v start avail i :
  idr_wf i -> 0 <= start -> has_room i start ->
  exists r i1, idr_pre_get pre_get_fuel avail i = Some (r, i1) /\ idr_wf i1 /\ same_ptrs i i1 /\
    (IDR_FREE_MAX - id_free_cnt i <= Z.of_nat avail -> r = true) /\
    exists err id i2, idr_get_new_above v start i1 = Some (err, id, i2) /\ idr_wf i2 /\
      first_fit i1 v start err id i2 /\ (r = true -> err = 0).
Proof.
  intros Hwf Hst Hroom. destruct (pre_get_ok avail i Hwf) as (r & i1 & E & Hwf1 & Hsame & Hcnt & Hav).
  exists r, i1. split; [done|]. split; [done|]. split; [done|]. split; [done|].
  destruct (get_new_above_first v start i1 Hwf1 Hst (same_ptrs_room _ _ _ Hst Hsame Hroom)) as (err & id & i2 & E2 & Hwf2 & Hff).
  exists err, id, i2. split; [done|]. split; [done|]. split; [done|]. intros ->. specialize (Hcnt eq_refl).
  destruct Hff as [[-> _]|(_ & Hlt & _)]; [done|]. change IDR_FREE_MAX with 12 in Hcnt. lia.
Qed.

(** C21. Removal: for an id the tree has room for, [idr_remove] returns, leaves a
    well-formed IDR with fewer than twelve layers in reserve, and exactly this
    id is emptied; an id that was not allocated is warned about and no id
    changes. *)
Theorem idr_remove_empties id i :
  idr_wf i -> 0 <= id < 64 ^ layers i ->
  exists w i', idr_remove id i = Some (w, i') /\ idr_wf i' /\ id_free_cnt i' < IDR_FREE_MAX /\
    match idr_find i id with
    | Some (Some _) => w = false /\ ptrs_with i id None i'
    | _ => w = true /\ same_ptrs i i'
    end.
Proof. apply remove_exact. Qed.
