(* ===== verification/IdrWalk.v ===== *)
(** * IdrWalk: iteration over the ids

    idr_replace, idr_for_each, idr_get_next and idr_remove_all on a
    well-formed tree. *)

From Stdlib Require Import Sorted.
From S2P Require Import Prelude Idr IdrInv IdrSpec.

(** ** The highest bit *)

Lemma land_high x m : 0 <= m <= 32 -> 0 <= x < 2 ^ 32 -> (Z.land x (2 ^ 32 - 2 ^ m) =? 0) = (x <? 2 ^ m).
Proof.
  intros Hm Hx. assert (2 ^ 32 - 2 ^ m = Z.shiftl (Z.ones (32 - m)) m) as ->.
  { rewrite Z.shiftl_mul_pow2, Z.ones_equiv, Z.mul_pred_l, <- Z.pow_add_r by lia. do 2 f_equal. lia. }
  assert (Z.land x (Z.shiftl (Z.ones (32 - m)) m) = Z.shiftl (Z.shiftr x m) m) as ->.
  { apply Z.bits_inj'. intros k Hk. rewrite Z.land_spec. destruct (decide (k < m)).
    - rewrite !Z.shiftl_spec_low by lia. by rewrite andb_false_r.
    - rewrite !Z.shiftl_spec_high, Z.shiftr_spec by lia. replace (k - m + m) with k by lia.
      destruct (decide (k < 32)); [rewrite Z.ones_spec_low by lia; by rewrite andb_true_r|].
      rewrite Z.ones_spec_high, andb_false_r by lia. symmetry. destruct Hx. revert k n0 Hk n.
      enough (forall k, 32 <= k -> Z.testbit x k = false) by (intros; apply H1; lia).
      apply Z.bounded_iff_bits_nonneg; lia. }
  rewrite Z.shiftr_div_pow2, Z.shiftl_mul_pow2 by lia. pose proof (Z.pow_pos_nonneg 2 m).
  destruct (x <? 2 ^ m) eqn:E; zbool; [rewrite Z.div_small; lia|].
  pose proof (Z.div_str_pos x (2 ^ m)). nia.
Qed.

(** One halving of [fls]: the highest bit of [x] is the bit [k] below. *)
Lemma fls_step x r k (x0 : Z) :
  0 < k <= 32 -> k <= r <= 32 -> 0 < x0 -> x = x0 * 2 ^ (32 - r) -> 2 ^ (32 - 2 * k) <= x < 2 ^ 32 -> 0 <= 32 - 2 * k ->
  exists x' r', (if Z.land x (2 ^ 32 - 2 ^ (32 - k)) =? 0 then (u32 (Z.shiftl x k), r - k) else (x, r)) = (x', r') /\
    r - k <= r' <= r /\ x' = x0 * 2 ^ (32 - r') /\ 2 ^ (32 - k) <= x' < 2 ^ 32.
Proof.
  intros Hk Hr H0 Hx Hlow Hk2. rewrite land_high by (lia || (pose proof (Z.pow_pos_nonneg 2 (32 - 2 * k)); lia)).
  destruct (x <? 2 ^ (32 - k)) eqn:E; zbool; [|exists x, r; split; [done|]; lia].
  assert (x * 2 ^ k < 2 ^ 32) as Hlt.
  { replace 32 with (32 - k + k) by lia. rewrite Z.pow_add_r by lia. pose proof (Z.pow_pos_nonneg 2 k). nia. }
  assert (2 ^ (32 - k) <= x * 2 ^ k) as Hge.
  { replace (32 - k) with (32 - 2 * k + k) by lia. rewrite Z.pow_add_r by lia. pose proof (Z.pow_pos_nonneg 2 k). nia. }
  exists (x * 2 ^ k), (r - k). split.
  - rewrite Z.shiftl_mul_pow2 by lia. unfold u32. rewrite wrapu_small; [done|]. pose proof (Z.pow_pos_nonneg 2 (32 - k)). lia.
  - split; [lia|]. split; [|lia]. subst x. rewrite <- Z.mul_assoc, <- Z.pow_add_r by lia. do 2 f_equal. lia.
Qed.

Lemma fls_spec x : 0 < x < 2 ^ 32 -> 1 <= fls x <= 32 /\ 2 ^ (fls x - 1) <= x < 2 ^ fls x.
Proof.
  intros Hx. unfold fls. replace (x =? 0) with false by lia.
  destruct (fls_step x 32 16 x) as (x1 & r1 & E1 & R1 & X1 & B1); [lia..|].
  change 0xffff0000 with (2 ^ 32 - 2 ^ (32 - 16)). rewrite E1. clear E1.
  destruct (fls_step x1 r1 8 x) as (x2 & r2 & E2 & R2 & X2 & B2); [lia..|]. clear X1 B1.
  change 0xff000000 with (2 ^ 32 - 2 ^ (32 - 8)). rewrite E2. clear E2.
  destruct (fls_step x2 r2 4 x) as (x3 & r3 & E3 & R3 & X3 & B3); [lia..|]. clear X2 B2.
  change 0xf0000000 with (2 ^ 32 - 2 ^ (32 - 4)). rewrite E3. clear E3.
  destruct (fls_step x3 r3 2 x) as (x4 & r4 & E4 & R4 & X4 & B4); [lia..|]. clear X3 B3.
  change 0xc0000000 with (2 ^ 32 - 2 ^ (32 - 2)). rewrite E4. clear E4.
  destruct (fls_step x4 r4 1 x) as (x5 & r5 & E5 & R5 & X5 & B5); [lia..|]. clear X4 B4.
  change 0x80000000 with (2 ^ 32 - 2 ^ (32 - 1)).
  replace (if Z.land x4 (2 ^ 32 - 2 ^ (32 - 1)) =? 0 then r4 - 1 else r4) with r5
    by (destruct (Z.land x4 _ =? 0); congruence).
  split; [lia|]. rewrite X5 in B5. clear E5.
  assert (2 ^ 32 = 2 ^ r5 * 2 ^ (32 - r5)) as P1 by (rewrite <- Z.pow_add_r by lia; f_equal; lia).
  assert (2 ^ (32 - 1) = 2 ^ (r5 - 1) * 2 ^ (32 - r5)) as P2 by (rewrite <- Z.pow_add_r by lia; f_equal; lia).
  assert (0 < 2 ^ (32 - r5)) by (apply Z.pow_pos_nonneg; lia).
  rewrite P1, P2 in B5. destruct B5 as [B1 B2]. split; [by apply (Z.mul_le_mono_pos_r _ _ (2 ^ (32 - r5)))|].
  by apply (Z.mul_lt_mono_pos_r (2 ^ (32 - r5))).
Qed.

Lemma fls_gt x n : 0 <= x < 2 ^ 32 -> 0 <= n -> (n <? fls x) = (2 ^ n <=? x).
Proof.
  intros Hx Hn. destruct (decide (x = 0)) as [->|Hne].
  { pose proof (Z.pow_pos_nonneg 2 n). change (fls 0) with 0. lia. }
  destruct (fls_spec x) as (H1 & H2 & H3); [lia|]. destruct (2 ^ n <=? x) eqn:E; zbool.
  - apply Z.ltb_lt. apply (Z.pow_lt_mono_r_iff 2); lia.
  - apply Z.ltb_ge. apply Z.le_ngt. intros Hlt. assert (2 ^ n <= 2 ^ (fls x - 1)) by (apply Z.pow_le_mono_r; lia). lia.
Qed.

(** ** Down and up the tree *)

(** The layers above level [l] on the way to [id], lowest first. *)
Definition above (N : nodes) (L l id : Z) (paa : list ptr) : Prop :=
  Z.of_nat (length paa) = L - l /\
  forall k p, paa !! k = Some p -> N !! (l + Z.of_nat k, id / 64 ^ (l + Z.of_nat k + 1)) = Some p.

Lemma above_cons N L l id paa p :
  above N L l id paa -> N !! (l - 1, id / 64 ^ l) = Some p -> above N L (l - 1) id (p :: paa).
Proof.
  intros [Hlen Hp] HN. split; [cbn [length]; lia|]. intros [|k] q; cbn.
  - intros [= ->]. rewrite Z.add_0_r. by replace (l - 1 + 1) with l by lia.
  - intros Hk. apply Hp in Hk. replace (l - 1 + Z.of_nat (S k)) with (l + Z.of_nat k) by lia. done.
Qed.

Lemma above_tail N L l id paa p :
  above N L l id (p :: paa) -> N !! (l, id / 64 ^ (l + 1)) = Some p /\ above N L (l + 1) id paa.
Proof.
  intros [Hlen Hp]. split; [specialize (Hp 0%nat p eq_refl); by rewrite Z.add_0_r in Hp|].
  split; [cbn [length] in Hlen; lia|]. intros k q Hk. specialize (Hp (S k) q Hk).
  by replace (l + 1 + Z.of_nat k) with (l + Z.of_nat (S k)) by lia.
Qed.

Lemma above_id N L l id id' paa :
  0 <= l -> above N L l id paa -> id' / 64 ^ (l + 1) = id / 64 ^ (l + 1) -> above N L l id' paa.
Proof.
  intros Hl [Hlen Hp] E. split; [done|]. intros k p Hk. rewrite (prefix_eq_up id' id (l + 1) (l + Z.of_nat k + 1)); [by apply Hp|lia..|done].
Qed.

(** The layers on the way to [id] are there and link to each other. *)
Definition linked (h : gmap ptr idr_layer) (N : nodes) (id : Z) : Prop :=
  forall l p, N !! (l, id / 64 ^ (l + 1)) = Some p ->
    exists lay, h !! p = Some lay /\ length (ary lay) = 64%nat /\
      (0 < l -> ary lay !! Z.to_nat ((id / 64 ^ l) mod 64) = Some (N !! (l - 1, id / 64 ^ l))).

Lemma tree_linked lf h N t L hole id : tree_ok lf h N t L hole -> linked h N id.
Proof.
  intros Ht l p HN. destruct (to_node _ _ _ _ _ _ Ht _ _ _ HN) as (lay & Hh & [N1 N2 N3 N4 N5 N6]).
  destruct (to_dom _ _ _ _ _ _ Ht _ _ _ HN) as [Hl _].
  exists lay. split; [done|]. split; [done|]. intros Hl0. rewrite N5 by (done || apply digit_range). by rewrite prefix_down by lia.
Qed.

(** Where the way down to [id] ends: at its slot, or at a layer that is not
    there, or at the lowest level the walk goes to. *)
Definition walk_end (h : gmap ptr idr_layer) (N : nodes) (lo k id : Z) (p : option ptr) : Prop :=
  (k = 0 /\ p = slot_at h N id) \/ (1 <= k /\ p = N !! (k - 1, id / 64 ^ k) /\ (p = None \/ k = lo)).

Lemma walk_down_spec N L lo i id : L < MAX_LEVEL -> 0 <= lo -> linked (heap i) N id -> forall fuel l p paa,
  N !! (l - 1, id / 64 ^ l) = Some p -> above N L l id paa -> lo <= l -> 1 <= l -> l - lo + 1 < Z.of_nat fuel ->
  exists k p' paa', walk_down fuel (IDR_BITS * lo) (IDR_BITS * l) id (Some p) paa i = Some (IDR_BITS * k, p', paa') /\
    above N L k id paa' /\ lo <= k <= l /\ walk_end (heap i) N lo k id p'.
Proof.
  intros HL Hlo Hlink. induction fuel as [|fuel IH]; intros l p paa HN Hab Hl Hl1 Hf; [lia|]. cbn [walk_down].
  destruct (decide (l = lo)) as [->|Hne].
  { replace (IDR_BITS * lo >? IDR_BITS * lo) with false by lia. exists lo, (Some p), paa. split; [done|].
    split; [done|]. split; [lia|]. right. split; [lia|]. rewrite HN. split; [done|]. by right. }
  replace (IDR_BITS * l >? IDR_BITS * lo) with true by (unfold IDR_BITS; lia).
  replace (Z.of_nat (length paa) >=? MAX_LEVEL) with false by (destruct Hab as [-> _]; lia).
  replace (IDR_BITS * l - IDR_BITS) with (IDR_BITS * (l - 1)) by lia. rewrite slot_of_digit by lia.
  destruct (Hlink (l - 1) p) as (lay & Hh & Hlen & Hch); [by replace (l - 1 + 1) with l by lia|].
  unfold get_ary. rewrite Hh. pose proof (above_cons _ _ _ _ _ _ Hab HN) as Hab'.
  pose proof (digit_range (id / 64 ^ (l - 1))) as Hd.
  destruct (lookup_lt_is_Some_2 (ary lay) (Z.to_nat ((id / 64 ^ (l - 1)) mod 64))) as [u Hu]; [lia|].
  rewrite Hu. cbn [mbind option_bind]. destruct (decide (l = 1)) as [->|Hl2].
  - assert (lo = 0) as -> by lia. change (1 - 1) with 0 in *. rewrite Z.pow_0_r, Z.div_1_r in Hu.
    change (64 ^ 1) with 64 in HN. assert (slot_at (heap i) N id = u) as Hs by (unfold slot_at; by rewrite HN, Hh, Hu).
    exists 0, u, (p :: paa). split; [|split; [done|]; split; [lia|]; by left].
    destruct fuel; [lia|]. by destruct u.
  - rewrite Hch in Hu by lia. injection Hu as <-. destruct (N !! (l - 1 - 1, id / 64 ^ (l - 1))) as [q|] eqn:Eq.
    + destruct (IH (l - 1) q (p :: paa)) as (k & p' & paa' & E & R1 & R2 & R3); [done|done|lia..|].
      exists k, p', paa'. split; [done|]. split; [done|]. split; [lia|done].
    + destruct fuel; [lia|]. exists (l - 1), None, (p :: paa). split; [done|]. split; [done|]. split; [lia|].
      right. split; [lia|]. rewrite Eq. split; [done|]. by left.
Qed.

(** [p] answers for [id] at level [l]. *)
Definition at_level (N : nodes) (L l id : Z) (p : option ptr) (paa : list ptr) : Prop :=
  1 <= l <= L /\ p = N !! (l - 1, id / 64 ^ l) /\ is_Some p /\ above N L l id paa.

Lemma pow_bits l : 0 <= l -> 2 ^ (IDR_BITS * l) = 64 ^ l.
Proof. intros. unfold IDR_BITS. rewrite Z.pow_mul_r by lia. done. Qed.

(** Up to the lowest layer that answers for both [id] and the ids from 0 to
    [id']. *)
Lemma walk_up_spec N L id id' : 1 <= L < MAX_LEVEL -> 0 <= id < id' -> id' < 2 * 64 ^ L -> forall fuel k p paa,
  0 <= k <= L -> above N L k id paa -> (id' < 64 ^ k -> at_level N L k id' p paa) -> L - k + 2 <= Z.of_nat fuel ->
  exists l p' paa', walk_up fuel (fls id') (IDR_BITS * k) p paa = Some (IDR_BITS * l, p', paa') /\
    (id' < 64 ^ L -> id' < 64 ^ l /\ at_level N L l id' p' paa').
Proof.
  intros HL Hid Hid'. pose proof (pow64_max L ltac:(change MAX_LEVEL with 6 in *; lia)) as Hmax.
  induction fuel as [|fuel IH]; intros k p paa Hk Hab Hat Hf; [lia|]. cbn [walk_up].
  rewrite fls_gt, pow_bits by (unfold IDR_BITS; lia). destruct (64 ^ k <=? id') eqn:E; zbool; [|by exists k, p, paa; auto].
  replace (IDR_BITS * k + IDR_BITS) with (IDR_BITS * (k + 1)) by lia. destruct paa as [|q paa]; cbn [pop].
  - assert (k = L) as -> by (destruct Hab as [Hlen _]; cbn in Hlen; lia).
    destruct fuel; [lia|]. cbn [walk_up]. rewrite fls_gt, pow_bits, pow64_succ by (unfold IDR_BITS; lia).
    replace (64 * 64 ^ L <=? id') with false by lia. exists (L + 1), None, []. split; [done|]. lia.
  - apply above_tail in Hab as [HN Hab]. assert (k + 1 <= L) by (destruct Hab; lia).
    apply IH; [lia|done| |lia]. intros Hlt.
    assert (forall j, k + 1 <= j -> id' / 64 ^ j = id / 64 ^ j) as Heq.
    { intros j Hj. apply (prefix_eq_up _ _ (k + 1)); [lia|]. rewrite !Z.div_small; lia. }
    split; [lia|]. rewrite Heq by lia. replace (k + 1 - 1) with k by lia. split; [done|]. split; [done|].
    apply (above_id _ _ _ id); [lia|done|]. apply Heq. lia.
Qed.

(** ** One step of an iteration *)

Lemma s32_next id l L : 0 <= id < 64 ^ L -> 0 <= l <= L -> L <= 5 -> s32 (id + Z.shiftl 1 (IDR_BITS * l)) = id + 64 ^ l.
Proof.
  intros Hid Hl HL. rewrite shiftl_digits by lia. pose proof (pow64_max L ltac:(lia)).
  assert (64 ^ l <= 64 ^ L) by (apply Z.pow_le_mono_r; lia). pose proof (pow64_pos l). unfold s32. rewrite wraps_small; lia.
Qed.

(** From [id], what follows a layer that is not there starts on its border. *)
Definition on_border (N : nodes) (L id : Z) : Prop :=
  forall l, 1 <= l < L -> N !! (l - 1, id / 64 ^ l) = None -> id mod 64 ^ l = 0.

Lemma border_zero N L : on_border N L 0.
Proof. intros l Hl _. apply Z.mod_0_l. pose proof (pow64_pos l). lia. Qed.

Lemma mod_sub a b : 0 < b -> (a + 1) mod b <> 0 -> (a + 1) / b = a / b.
Proof.
  intros Hb Hm. pose proof (Z.div_mod a b ltac:(lia)) as E. pose proof (Z.mod_pos_bound a b Hb) as Hr.
  destruct (decide (a mod b = b - 1)) as [E'|].
  - exfalso. apply Hm. replace (a + 1) with ((a / b + 1) * b) by lia. apply Z.mod_mul. lia.
  - symmetry. apply (Z.div_unique_pos _ _ _ (a mod b + 1)); lia.
Qed.

(** The layers above a layer on the way to [id]. *)
Lemma ancestor_of lf h N t L hole id k l p :
  tree_ok lf h N t L hole -> 0 <= k <= l -> l < L -> N !! (k, id / 64 ^ (k + 1)) = Some p ->
  is_Some (N !! (l, id / 64 ^ (l + 1))).
Proof.
  intros Ht Hk Hl HN. pose proof (ancestor lf h N t L hole Ht (Z.to_nat (l - k)) k _ p HN ltac:(lia)) as Ha.
  rewrite Z2Nat.id in Ha by lia. replace (k + (l - k)) with l in Ha by lia.
  pose proof (pow64_pos (k + 1)). pose proof (pow64_pos (l - k)). rewrite Z.div_div, <- Z.pow_add_r in Ha by lia.
  by replace (k + 1 + (l - k)) with (l + 1) in Ha by lia.
Qed.

Lemma border_next lf h N t L hole id k p :
  tree_ok lf h N t L hole -> 0 <= k -> N !! (k, id / 64 ^ (k + 1)) = Some p -> id mod 64 ^ k = 0 ->
  on_border N L (id + 64 ^ k).
Proof.
  intros Ht Hk HN Hal l Hl Hnone. pose proof (pow64_pos k Hk) as Hpk.
  pose proof (Z.div_mod id (64 ^ k) ltac:(lia)) as Eid. rewrite Hal, Z.add_0_r in Eid. set (c := id / 64 ^ k) in *.
  destruct (decide (l <= k)) as [Hle|Hgt].
  { replace (id + 64 ^ k) with ((c + 1) * 64 ^ (k - l) * 64 ^ l).
    - apply Z.mod_mul. pose proof (pow64_pos l). lia.
    - rewrite <- Z.mul_assoc, <- Z.pow_add_r by lia. replace (k - l + l) with k by lia. lia. }
  destruct (decide ((id + 64 ^ k) mod 64 ^ l = 0)) as [|Hm]; [done|]. exfalso.
  assert ((id + 64 ^ k) / 64 ^ l = id / 64 ^ l) as E.
  { replace l with (k + (l - k)) in Hm |- * by lia. rewrite Z.pow_add_r in Hm |- * by lia.
    pose proof (pow64_pos (l - k) ltac:(lia)).
    replace (id + 64 ^ k) with ((c + 1) * 64 ^ k) in * by lia. replace id with (c * 64 ^ k) by lia.
    rewrite !(Z.mul_comm (64 ^ k)), !Z.div_mul_cancel_r by lia. apply mod_sub; [lia|]. intros E0. apply Hm.
    rewrite !(Z.mul_comm (64 ^ k)), Z.mul_mod_distr_r by lia. lia. }
  rewrite E in Hnone. destruct (ancestor_of lf h N t L hole id k (l - 1) p Ht) as [q Hq]; [lia..|done|].
  replace (l - 1 + 1) with l in Hq by lia. congruence.
Qed.

(** After [id] was found free, or visited, at level [k]. *)
Lemma walk_next lf i N t L id k p paa :
  tree_ok lf (heap i) N t L no_hole -> 0 <= id < 64 ^ L -> 0 <= k <= L -> above N L k id paa ->
  let id' := id + 64 ^ k in
  exists l p' paa', walk_up walk_fuel (fls id') (IDR_BITS * k) p paa = Some (IDR_BITS * l, p', paa') /\
    (id' < 64 ^ L -> at_level N L l id' p' paa').
Proof.
  intros Ht Hid Hk Hab id'. pose proof (to_levels _ _ _ _ _ _ Ht) as HL. pose proof (pow64_pos k ltac:(lia)).
  assert (64 ^ k <= 64 ^ L) by (apply Z.pow_le_mono_r; lia). change MAX_LEVEL with 6 in HL.
  destruct (walk_up_spec N L id id' ltac:(change MAX_LEVEL with 6; lia) ltac:(lia) ltac:(lia) walk_fuel k p paa)
    as (l & p' & paa' & E & R); [done|done|lia|unfold walk_fuel; lia|].
  exists l, p', paa'. split; [done|]. intros Hlt. by apply R.
Qed.

Lemma above_head N L k id paa : above N L k id paa -> k < L -> exists p, N !! (k, id / 64 ^ (k + 1)) = Some p.
Proof. intros Hab Hk. destruct paa as [|p paa]; [destruct Hab as [Hlen _]; cbn in Hlen; lia|]. exists p. by apply above_tail in Hab as [HN _]. Qed.

Lemma absent_slot lf h N t L hole id k :
  tree_ok lf h N t L hole -> 1 <= k < L -> N !! (k - 1, id / 64 ^ k) = None -> slot_at h N id = None.
Proof.
  intros Ht Hk HN. apply (absent_below lf h N t L hole Ht (Z.to_nat (k - 1)) (id / 64 ^ k)); rewrite ?Z2Nat.id by lia; [done|lia|].
  do 2 f_equal. lia.
Qed.

Lemma same_block id j k : 0 <= k -> id mod 64 ^ k = 0 -> id <= j < id + 64 ^ k -> j / 64 ^ k = id / 64 ^ k.
Proof.
  intros Hk Hm Hj. pose proof (pow64_pos k Hk). pose proof (Z.div_mod id (64 ^ k) ltac:(lia)).
  symmetry. apply (Z.div_unique_pos _ _ _ (j - id)); lia.
Qed.

(** What the way down to [id] finds. *)
Lemma walk_finds lf i N t L l id p paa :
  tree_ok lf (heap i) N t L no_hole -> 0 <= id < 64 ^ L -> at_level N L l id p paa ->
  exists k paa', walk_down walk_fuel 0 (IDR_BITS * l) id p paa i = Some (IDR_BITS * k, slot_at (heap i) N id, paa') /\
    0 <= k <= L /\ above N L k id paa' /\ (is_Some (slot_at (heap i) N id) -> k = 0) /\
    (on_border N L id -> on_border N L (id + 64 ^ k) /\ forall j, id < j < id + 64 ^ k -> slot_at (heap i) N j = None).
Proof.
  intros Ht Hid (Hl & Hp & [q Hq] & Hab). pose proof (to_levels _ _ _ _ _ _ Ht) as HL.
  change 0 with (IDR_BITS * 0) at 1. subst p. rewrite Hq.
  destruct (walk_down_spec N L 0 i id ltac:(lia) ltac:(lia) (tree_linked _ _ _ _ _ _ id Ht) walk_fuel l q paa)
    as (k & p' & paa' & E & R1 & R2 & R3); [done|done|lia|lia|change MAX_LEVEL with 6 in HL; unfold walk_fuel; lia|].
  exists k, paa'. pose proof (pow64_pos k ltac:(lia)). destruct R3 as [[-> ->]|(Hk & Hp & [Hn| ->])]; [| |lia].
  - split; [done|]. split; [lia|]. split; [done|]. split; [done|]. intros _. change (64 ^ 0) with 1. split; [|intros; lia].
    destruct (above_head _ _ _ _ _ R1 ltac:(lia)) as [r Hr]. change 1 with (64 ^ 0).
    apply (border_next lf (heap i) N t L no_hole id 0 r Ht); [done|done|]. by rewrite Z.mod_1_r.
  - assert (k <> L) as Hne. { intros ->. rewrite Z.div_small, (to_top _ _ _ _ _ _ Ht) in Hp by lia. congruence. }
    rewrite Hn in Hp. symmetry in Hp. rewrite (absent_slot _ _ _ _ _ _ _ k Ht ltac:(lia) Hp). subst p'.
    split; [done|]. split; [lia|]. split; [done|]. split; [by intros []|]. intros Hb. pose proof (Hb k ltac:(lia) Hp) as Hm.
    destruct (above_head _ _ _ _ _ R1 ltac:(lia)) as [r Hr].
    split; [by apply (border_next lf (heap i) N t L no_hole id k r Ht); [lia|..]|].
    intros j Hj. apply (absent_slot lf _ _ t L no_hole _ k Ht); [lia|]. by rewrite (same_block id j k) by (done || lia).
Qed.

(** ** The next id in use *)

Lemma get_next_loop_spec lf i N t L : tree_ok lf (heap i) N t L no_hole -> forall fuel l id p paa,
  0 <= id -> (id < 64 ^ L -> at_level N L l id p paa) -> on_border N L id -> Z.max 0 (64 ^ L - id) < Z.of_nat fuel ->
  exists o, get_next_loop fuel (64 ^ L) (IDR_BITS * l) id p paa i = Some o /\
    match o with
    | None => forall j, id <= j -> slot_at (heap i) N j = None
    | Some (j, v) => id <= j /\ slot_at (heap i) N j = Some v /\ forall k, id <= k < j -> slot_at (heap i) N k = None
    end.
Proof.
  intros Ht. pose proof (to_levels _ _ _ _ _ _ Ht) as HL. change MAX_LEVEL with 6 in HL.
  induction fuel as [|fuel IH]; intros l id p paa Hid Hat Hb Hf; cbn [get_next_loop].
  { lia. }
  destruct (id <? 64 ^ L) eqn:E; zbool.
  2: { exists None. split; [done|]. intros j Hj. apply (slot_at_out _ _ _ _ _ _ _ Ht). lia. }
  destruct (walk_finds lf i N t L l id p paa Ht) as (k & paa' & Ed & Hk & Hab & _ & Hnext); [lia|auto|].
  rewrite Ed. cbn [mbind option_bind]. destruct (slot_at (heap i) N id) as [v|] eqn:Es.
  { exists (Some (id, v)). split; [done|]. split; [lia|]. split; [done|]. intros. lia. }
  rewrite (s32_next id k L) by lia. destruct (Hnext Hb) as [Hb' Hskip]. pose proof (pow64_pos k ltac:(lia)).
  destruct (walk_next lf i N t L id k None paa' Ht ltac:(lia) Hk Hab) as (l' & p' & paa'' & Eu & Hat').
  rewrite Eu. cbn [mbind option_bind].
  destruct (IH l' (id + 64 ^ k) p' paa'' ltac:(lia) Hat' Hb' ltac:(lia)) as (o & Eo & Ho).
  assert (forall j, id <= j < id + 64 ^ k -> slot_at (heap i) N j = None) as Hfree.
  { intros j Hj. destruct (decide (j = id)) as [->|]; [done|]. apply Hskip. lia. }
  exists o. split; [done|]. destruct o as [[j v]|].
  - destruct Ho as (H1 & H2 & H3). split; [lia|]. split; [done|]. intros m Hm.
    destruct (decide (m < id + 64 ^ k)); [apply Hfree; lia|apply H3; lia].
  - intros j Hj. destruct (decide (j < id + 64 ^ k)); [apply Hfree; lia|apply Ho; lia].
Qed.

(** ** Every id in use *)

(** The entries of [f] from [a] to [b]. *)
Definition entries (f : Z -> option ptr) (a b : Z) : list (Z * ptr) :=
  omap (fun j => (fun v => (j, v)) <$> f j) (seqZ a (b - a)).

Lemma entries_step f a b :
  a < b -> entries f a b = match f a with Some v => (a, v) :: entries f (a + 1) b | None => entries f (a + 1) b end.
Proof.
  intros Hab. unfold entries. rewrite seqZ_cons by lia. cbn. replace (Z.pred (b - a)) with (b - (a + 1)) by lia.
  rewrite Z.add_1_r. by destruct (f a).
Qed.

Lemma entries_end f a b : b <= a -> entries f a b = [].
Proof. intros. unfold entries. by rewrite seqZ_nil by lia. Qed.

Lemma entries_skip f b c (n : nat) : forall a,
  b - a = Z.of_nat n -> (forall j, a <= j < b -> f j = None) -> entries f a c = entries f b c \/ c < b /\ entries f a c = [].
Proof.
  induction n as [|n IH]; intros a Hn Hf; [left; f_equal; lia|].
  destruct (decide (c <= a)); [right; split; [lia|by apply entries_end]|].
  rewrite (entries_step f a) by lia. rewrite Hf by lia. apply IH; [lia|]. intros. apply Hf. lia.
Qed.

Lemma elem_of_entries f a b j v : (j, v) ∈ entries f a b <-> a <= j < b /\ f j = Some v.
Proof.
  unfold entries. rewrite list_elem_of_omap. split.
  - intros (x & Hx & E). rewrite elem_of_seqZ in Hx. destruct (f x) as [u|] eqn:Ef; [|done]. cbn in E. simplify_eq.
    split; [lia|done].
  - intros [Hj E]. exists j. rewrite elem_of_seqZ, E. split; [lia|done].
Qed.

Lemma entries_sorted f b (n : nat) : forall a, b - a = Z.of_nat n -> StronglySorted Z.lt (entries f a b).*1.
Proof.
  induction n as [|n IH]; intros a Hn; [rewrite entries_end by lia; constructor|].
  rewrite entries_step by lia. specialize (IH (a + 1) ltac:(lia)). destruct (f a) as [v|]; [|done].
  cbn. constructor; [done|]. apply Forall_forall. intros x Hx. apply list_elem_of_fmap in Hx as ([j u] & -> & Hj).
  apply elem_of_entries in Hj. cbn. lia.
Qed.

(** Calls of [fn] until one returns an error. *)
Fixpoint visit {D} (fn : Z -> ptr -> D -> Z * D) (l : list (Z * ptr)) (data : D) : Z * D :=
  match l with
  | [] => (0, data)
  | (id, v) :: l => let '(error, data) := fn id v data in if negb (error =? 0) then (error, data) else visit fn l data
  end.

Lemma for_each_loop_spec {D} (fn : Z -> ptr -> D -> Z * D) lf i N t L : tree_ok lf (heap i) N t L no_hole ->
  forall fuel l id p paa data,
  0 <= id -> (id < 64 ^ L -> at_level N L l id p paa) -> on_border N L id -> Z.max 0 (64 ^ L - id) < Z.of_nat fuel ->
  for_each_loop fn fuel (64 ^ L) (IDR_BITS * l) id p paa data i =
    Some (visit fn (entries (slot_at (heap i) N) id (64 ^ L)) data).
Proof.
  intros Ht. pose proof (to_levels _ _ _ _ _ _ Ht) as HL. change MAX_LEVEL with 6 in HL.
  induction fuel as [|fuel IH]; intros l id p paa data Hid Hat Hb Hf; cbn [for_each_loop].
  { lia. }
  destruct (id <? 64 ^ L) eqn:E; zbool; [|by rewrite entries_end by lia].
  destruct (walk_finds lf i N t L l id p paa Ht) as (k & paa' & Ed & Hk & Hab & Hk0 & Hnext); [lia|auto|].
  rewrite Ed. cbn [mbind option_bind]. destruct (Hnext Hb) as [Hb' Hskip]. pose proof (pow64_pos k ltac:(lia)).
  rewrite (s32_next id k L) by lia.
  destruct (walk_next lf i N t L id k (slot_at (heap i) N id) paa' Ht ltac:(lia) Hk Hab) as (l' & p' & paa'' & Eu & Hat').
  rewrite Eu. cbn [mbind option_bind]. rewrite (entries_step _ id) by lia.
  destruct (slot_at (heap i) N id) as [v|] eqn:Es.
  - assert (k = 0) as -> by (apply Hk0; by eexists). change (64 ^ 0) with 1 in *. cbn [visit].
    destruct (fn id v data) as [error data']. destruct (negb (error =? 0)); [done|]. apply IH; [lia|done|done|lia].
  - cbn [negb Z.eqb]. rewrite IH by (done || lia). do 2 f_equal.
    destruct (entries_skip (slot_at (heap i) N) (id + 64 ^ k) (64 ^ L) (Z.to_nat (64 ^ k - 1)) (id + 1)) as [->|[Hlt ->]];
      [lia|intros; apply Hskip; lia|done|by rewrite entries_end by lia].
Qed.

(** ** Lookup, iteration and replacement of a well-formed IDR *)

Lemma wf_shift i N t : tree_ok every (heap i) N t (layers i) no_hole -> s32 (Z.shiftl 1 (layers i * IDR_BITS)) = 64 ^ layers i.
Proof.
  intros Ht. pose proof (to_levels _ _ _ _ _ _ Ht) as HL. change MAX_LEVEL with 6 in HL.
  rewrite Z.mul_comm, shiftl_digits by lia. pose proof (pow64_max (layers i) ltac:(lia)). pose proof (pow64_pos (layers i)).
  unfold s32. apply wraps_small; lia.
Qed.

Lemma at_top i N t id :
  tree_ok every (heap i) N t (layers i) no_hole -> 0 <= id -> id < 64 ^ layers i -> at_level N (layers i) (layers i) id (Some t) [].
Proof.
  intros Ht H0 Hid. pose proof (to_levels _ _ _ _ _ _ Ht) as HL. split; [lia|].
  rewrite Z.div_small, (to_top _ _ _ _ _ _ Ht) by lia. split; [done|]. split; [by eexists|]. split; [cbn; lia|].
  intros k p. rewrite lookup_nil. done.
Qed.

Lemma get_next_spec i N fl id :
  idr_ok every i N fl -> 0 <= id -> on_border N (layers i) id ->
  exists o, idr_get_next i id = Some o /\
    match o with
    | None => forall j, id <= j -> slot_at (heap i) N j = None
    | Some (j, v) => id <= j /\ slot_at (heap i) N j = Some v /\ forall k, id <= k < j -> slot_at (heap i) N k = None
    end.
Proof.
  intros [_ [(Htop & _ & ->)|(t & Htop & Ht)]] Hid Hb; unfold idr_get_next; rewrite Htop.
  { exists None. split; [done|]. intros j _. unfold slot_at. by rewrite lookup_empty. }
  rewrite (wf_shift _ _ _ Ht), (Z.mul_comm (layers i)).
  apply (get_next_loop_spec every _ _ _ _ Ht); [done| |done|].
  - intros. by apply at_top.
  - lia.
Qed.

Lemma border_after i N fl id v :
  idr_ok every i N fl -> 0 <= id -> slot_at (heap i) N id = Some v -> on_border N (layers i) (id + 1).
Proof.
  intros [_ [(Htop & _ & ->)|(t & Htop & Ht)]] Hid Hs; [unfold slot_at in Hs; by rewrite lookup_empty in Hs|].
  unfold slot_at in Hs. destruct (N !! (0, id / 64)) as [p|] eqn:E; [|done]. change 1 with (64 ^ 0).
  apply (border_next every (heap i) N t (layers i) no_hole id 0 p Ht); [done|done|]. by rewrite Z.mod_1_r.
Qed.

Lemma for_each_entries {D} (fn : Z -> ptr -> D -> Z * D) i N fl data :
  idr_ok every i N fl ->
  idr_for_each fn data i = Some (visit fn (entries (slot_at (heap i) N) 0 (64 ^ layers i)) data).
Proof.
  intros [_ [(Htop & Hl & ->)|(t & Htop & Ht)]]; unfold idr_for_each; rewrite Htop.
  { rewrite Hl. done. }
  rewrite (wf_shift _ _ _ Ht), (Z.mul_comm (layers i)).
  apply (for_each_loop_spec fn every _ _ _ _ Ht); [done| |apply border_zero|lia].
  intros. by apply at_top.
Qed.

(** The list an iteration goes through. *)
Definition ids_of (i : idr) (l : list (Z * ptr)) : Prop :=
  StronglySorted Z.lt l.*1 /\ forall j v, 0 <= j <= INT_MAX -> (j, v) ∈ l <-> idr_find i j = Some (Some v).

Lemma entries_ids i N fl : idr_ok every i N fl -> ids_of i (entries (slot_at (heap i) N) 0 (64 ^ layers i)).
Proof.
  intros Hok.
  assert (0 < 64 ^ layers i /\ forall j v, slot_at (heap i) N j = Some v -> 0 <= j < 64 ^ layers i) as [H0 Hin].
  { destruct Hok as [_ [(_ & -> & ->)|(t & _ & Ht)]].
    - split; [lia|]. intros j v. unfold slot_at. by rewrite lookup_empty.
    - split; [apply pow64_pos; pose proof (to_levels _ _ _ _ _ _ Ht); lia|]. intros j v Hs.
      destruct (decide (0 <= j < 64 ^ layers i)) as [|Hn]; [done|]. by rewrite (slot_at_out _ _ _ _ _ _ _ Ht Hn) in Hs. }
  split; [apply (entries_sorted _ _ (Z.to_nat (64 ^ layers i))); lia|].
  intros j v Hj. rewrite elem_of_entries, (find_slot i N fl) by done. split; [by intros []|]. intros Hs. split; [by apply (Hin j v)|done].
Qed.

Lemma leaf_replace h N t L id p lay v v0 :
  tree_ok every h N t L no_hole -> N !! (0, id / 64) = Some p -> h !! p = Some lay -> slot_at h N id = Some v0 ->
  let h' := <[p := set_ary (id mod 64) (Some v) lay]> h in
  tree_ok every h' N t L no_hole /\ forall j, slot_at h' N j = if j =? id then Some v else slot_at h N j.
Proof.
  intros Ht HN Hh Hv h'. pose proof (digit_range id) as Hd.
  destruct (to_node _ _ _ _ _ _ Ht _ _ _ HN) as (lay0 & Hh' & [N1 N2 N3 N4 N5 N6]). rewrite Hh in Hh'. injection Hh' as <-.
  assert (ary lay !! Z.to_nat (id mod 64) = Some (Some v0)) as Hu.
  { unfold slot_at in Hv. rewrite HN, Hh in Hv. destruct (ary lay !! _) as [u|]; [|done]. cbn in Hv. by rewrite Hv. }
  assert (forall j, slot_at h' N j = if j =? id then Some v else slot_at h N j) as Hslot
    by (by apply (leaf_slot every h N t L no_hole id p lay)).
  assert (forall y, full every h' N (-1) y = full every h N (-1) y) as Hfull.
  { intros y. rewrite !full_every, Hslot. destruct (Z.eqb_spec y id) as [->|]; [by rewrite Hv|done]. }
  split; [|done]. apply (tree_update every _ _ _ _ no_hole _ 0 (id / 64)); [done|done| |]; fold h'.
  - constructor; cbn; [done|by rewrite length_insert| |done|lia|].
    + rewrite (count_some_insert _ _ (Some v0)) by done. cbn. lia.
    + intros n Hn. rewrite N6 by done. unfold bit. change (0 - 1) with (-1). by rewrite Hfull.
  - intros k y Hne. unfold bit. f_equal. destruct (decide (k = -1)) as [->|Hk]; [done|].
    destruct (decide ((k, y) = (0, id / 64))) as [[= -> ->]|Hne2].
    + rewrite (full_node every h' N 0 _ p (set_ary (id mod 64) (Some v) lay)); [|lia|done|apply lookup_insert_eq].
      by rewrite (full_node every h N 0 _ p lay).
    + by apply (full_update every _ _ t L no_hole 0 (id / 64)).
Qed.

Lemma leaf_loop_spec i N id : linked (heap i) N id -> forall fuel l p,
  0 <= l -> N !! (l, id / 64 ^ (l + 1)) = Some p -> l + 1 < Z.of_nat fuel ->
  leaf_loop fuel (IDR_BITS * l) id (Some p) i = Some (N !! (0, id / 64)) \/
  (exists k, 0 <= k < l /\ N !! (k, id / 64 ^ (k + 1)) = None /\ leaf_loop fuel (IDR_BITS * l) id (Some p) i = Some None).
Proof.
  intros Hlink. induction fuel as [|fuel IH]; intros l p Hl HN Hf; [lia|]. cbn [leaf_loop].
  destruct (decide (l = 0)) as [->|Hne]; [left; cbn; by rewrite <- HN|].
  replace (IDR_BITS * l >? 0) with true by (unfold IDR_BITS; lia). rewrite slot_of_digit by lia.
  destruct (Hlink l p HN) as (lay & Hh & _ & Hch). unfold get_ary. rewrite Hh, Hch by lia. cbn [mbind option_bind].
  replace (IDR_BITS * l - IDR_BITS) with (IDR_BITS * (l - 1)) by lia.
  destruct (N !! (l - 1, id / 64 ^ l)) as [q|] eqn:Eq.
  - destruct (IH (l - 1) q) as [?|(k & Hk & HNk & E)]; [lia|by replace (l - 1 + 1) with l by lia|lia|by left|].
    right. exists k. split; [lia|done].
  - right. exists (l - 1). split; [lia|]. replace (l - 1 + 1) with l by lia. split; [done|]. by destruct fuel; [lia|].
Qed.

Lemma replace_exact v id i :
  idr_wf i -> 0 <= id <= INT_MAX ->
  match idr_find i id with
  | Some (Some old) => exists i', idr_replace v id i = Some (inr (Some old), i') /\ idr_wf i' /\ ptrs_with i id (Some v) i'
  | _ => idr_replace v id i = Some (inl (if (0 <? layers i) && (id <? 64 ^ layers i) then - ENOENT else - EINVAL), i)
  end.
Proof.
  intros (N & fl & Hok) Hid. unfold INT_MAX in Hid. rewrite (idr_find_spec every i N fl id Hok) by lia.
  pose proof Hok as [Hs [(Htop & Hl & ->)|(t & Htop & Ht)]]; unfold idr_replace; rewrite Htop.
  { unfold slot_at. rewrite lookup_empty, Hl. done. }
  pose proof (to_levels _ _ _ _ _ _ Ht) as HL. change MAX_LEVEL with 6 in HL.
  destruct (to_node _ _ _ _ _ _ Ht _ _ _ (to_top _ _ _ _ _ _ Ht)) as (lay & Hh & Hn). rewrite Hh. cbn [mbind option_bind].
  rewrite (no_layer _ _ _ _ _ _ _ Hn), mask_id by lia. replace (layers i - 1 + 1) with (layers i) by lia.
  rewrite (wf_shift _ _ _ Ht). replace (0 <? layers i) with true by lia. cbn [andb].
  destruct (id >=? 64 ^ layers i) eqn:E; zbool.
  { replace (id <? 64 ^ layers i) with false by lia. rewrite (slot_at_out _ _ _ _ _ _ _ Ht) by lia. done. }
  replace (id <? 64 ^ layers i) with true by lia.
  replace (layers i * IDR_BITS - IDR_BITS) with (IDR_BITS * (layers i - 1)) by lia.
  destruct (leaf_loop_spec i N id (tree_linked _ _ _ _ _ _ id Ht) (S (Z.to_nat MAX_LEVEL)) (layers i - 1) t)
    as [->|(k & Hk & HNk & ->)]; [lia|replace (layers i - 1 + 1) with (layers i) by lia; rewrite Z.div_small by lia; apply Ht
    |change (Z.of_nat (S (Z.to_nat MAX_LEVEL))) with 7; lia| |]; cbn [mbind option_bind].
  2: { rewrite (absent_slot _ _ _ _ _ _ _ (k + 1) Ht); [done|lia|]. by replace (k + 1 - 1) with k by lia. }
  rewrite land_mask. destruct (N !! (0, id / 64)) as [p|] eqn:EN; [|unfold slot_at; by rewrite EN].
  destruct (to_node _ _ _ _ _ _ Ht _ _ _ EN) as (lp & Hp & [P1 P2 P3 P4 P5 P6]). rewrite Hp. cbn [mbind option_bind].
  pose proof (digit_range id) as Hd. rewrite P6 by done. change (0 - 1) with (-1). unfold bit. cbn [no_hole negb andb].
  rewrite child_eta, full_every. destruct (lookup_lt_is_Some_2 (ary lp) (Z.to_nat (id mod 64))) as [u Hu]; [lia|].
  assert (slot_at (heap i) N id = u) as Hsu by (unfold slot_at; by rewrite EN, Hp, Hu).
  rewrite Hsu. destruct u as [old|]; [|done]. cbn [negb]. rewrite Hu. cbn [mbind option_bind].
  rewrite (update_spec _ _ _ lp Hp). cbn [mbind option_bind]. eexists. split; [done|].
  destruct (leaf_replace _ _ _ _ id p lp v old Ht EN Hp Hsu) as [Ht' Hs'].
  assert (idr_ok every (set_heap (<[p := set_ary (id mod 64) (Some v) lp]> (heap i)) i) N fl) as Hok'.
  { split; [|right; by exists t]. apply (spare_write i N fl [] (0, id / 64)); [done|done|by eexists]. }
  split; [by exists N, fl|]. by apply (ptrs_with_slots i N fl _ N fl).
Qed.

(** ** Removal of every id *)

(** The first id after those of the layer [(l, x)]. *)
Definition past (l x : Z) : Z := (x + 1) * 64 ^ (l + 1).

(** [h] is [h0] without the layers of the tree that are [gone]. *)
Definition cleared (h0 : gmap ptr idr_layer) (N : nodes) (gone : Z -> Z -> bool) (h : gmap ptr idr_layer) : Prop :=
  (forall l x p, N !! (l, x) = Some p -> h !! p = if gone l x then None else h0 !! p) /\
  (forall p, (forall a, N !! a <> Some p) -> h !! p = h0 !! p).

Definition before (id l x : Z) : bool := past l x <=? id.

(** On the way up from level [k], between [id] and [id']. *)
Definition between (id id' k l x : Z) : bool := before id l x || (before id' l x && (l + 1 <? k)).

Lemma cleared_ext h0 N g g' h :
  (forall l x p, N !! (l, x) = Some p -> g' l x = g l x) -> cleared h0 N g h -> cleared h0 N g' h.
Proof. intros Hg [H1 H2]. split; [|done]. intros l x p HN. rewrite (H1 _ _ _ HN). by rewrite (Hg _ _ _ HN). Qed.

Lemma cleared_free lf h0 N t L hole g h l0 x0 p :
  tree_ok lf h0 N t L hole -> cleared h0 N g h -> N !! (l0, x0) = Some p ->
  cleared h0 N (fun l x => g l x || (bool_decide ((l, x) = (l0, x0)))) (delete p h).
Proof.
  intros Ht [H1 H2] HN. split.
  - intros l x q Hq. case_bool_decide as E.
    + simplify_eq. rewrite orb_true_r. apply lookup_delete_eq.
    + rewrite orb_false_r, lookup_delete_ne; [by apply H1|]. intros ->. apply E. by apply (to_inj _ _ _ _ _ _ Ht _ _ q).
  - intros q Hq. rewrite lookup_delete_ne; [by apply H2|]. intros ->. by apply (Hq (l0, x0)).
Qed.

Lemma past_gt id l : 0 <= l -> id < past l (id / 64 ^ (l + 1)).
Proof.
  intros. unfold past. pose proof (pow64_pos (l + 1) ltac:(lia)).
  pose proof (Z.div_mod id (64 ^ (l + 1)) ltac:(lia)). pose proof (Z.mod_pos_bound id (64 ^ (l + 1)) ltac:(lia)). lia.
Qed.

Lemma cleared_linked lf h0 N t L hole id h :
  tree_ok lf h0 N t L hole -> cleared h0 N (before id) h -> linked h N id.
Proof.
  intros Ht [H1 _] l p HN. destruct (to_dom _ _ _ _ _ _ Ht _ _ _ HN) as [Hl _].
  rewrite (H1 _ _ _ HN). unfold before. pose proof (past_gt id l ltac:(lia)).
  replace (past l (id / 64 ^ (l + 1)) <=? id) with false by lia. by apply (tree_linked _ _ _ _ _ _ id Ht).
Qed.

(** [id] and the next border [id'] at level [k]. *)
Section Border.
Context (id k : Z).
Hypothesis Hid : 0 <= id.
Hypothesis Hk : 0 <= k.
Hypothesis Hal : id mod 64 ^ k = 0.
Let id' := id + 64 ^ k.

(** A layer that ends between them is on the way to [id]. *)
Lemma past_between j x : k <= j -> id < (x + 1) * 64 ^ j <= id' -> x = id / 64 ^ j.
Proof.
  intros Hj Hx. pose proof (pow64_pos j ltac:(lia)). pose proof (pow64_pos k Hk).
  assert (64 ^ j = 64 ^ (j - k) * 64 ^ k) as Ej by (rewrite <- Z.pow_add_r by lia; f_equal; lia).
  pose proof (Z.div_mod id (64 ^ k) ltac:(lia)) as Eid. pose proof (pow64_pos (j - k) ltac:(lia)).
  assert (id' = (x + 1) * 64 ^ j) as E.
  { rewrite Ej, Z.mul_assoc in Hx |- *. unfold id' in *. rewrite Hal, Z.add_0_r in Eid. set (c := id / 64 ^ k) in *.
    set (d := (x + 1) * 64 ^ (j - k)) in *. rewrite Eid in *. destruct Hx as [Hx1 Hx2].
    assert (c < d) by (apply (Z.mul_lt_mono_pos_r (64 ^ k)); lia).
    assert (d <= c + 1) by (apply (Z.mul_le_mono_pos_r _ _ (64 ^ k)); lia). replace d with (c + 1) by lia. lia. }
  apply (Z.div_unique_pos _ _ _ (64 ^ j - 64 ^ k)); [|unfold id' in E; lia].
  assert (64 ^ k <= 64 ^ j) by (apply Z.pow_le_mono_r; lia). lia.
Qed.

Lemma same_prefix j : 0 <= j -> id' < (id / 64 ^ j + 1) * 64 ^ j -> id' / 64 ^ j = id / 64 ^ j.
Proof.
  intros Hj Hlt. pose proof (pow64_pos j ltac:(lia)). pose proof (pow64_pos k Hk).
  pose proof (Z.div_mod id (64 ^ j) ltac:(lia)). pose proof (Z.mod_pos_bound id (64 ^ j) ltac:(lia)).
  symmetry. apply (Z.div_unique_pos _ _ _ (id' - id / 64 ^ j * 64 ^ j)); unfold id' in *; lia.
Qed.

Lemma border_bit j : k <= j -> id' < 2 ^ 32 -> (IDR_BITS * j <? fls (Z.lxor id' id)) = ((id / 64 ^ j + 1) * 64 ^ j <=? id').
Proof.
  intros Hj Hmax. pose proof (pow64_pos j ltac:(lia)). pose proof (pow64_pos k Hk).
  assert (0 <= Z.lxor id' id < 2 ^ 32) as Hx.
  { split; [apply Z.lxor_nonneg; unfold id'; lia|]. destruct (decide (Z.lxor id' id = 0)) as [->|Hne]; [lia|].
    apply Z.log2_lt_pow2; [assert (0 <= Z.lxor id' id) by (apply Z.lxor_nonneg; unfold id'; lia); lia|].
    eapply Z.le_lt_trans; [apply Z.log2_lxor; unfold id'; lia|]. apply Z.max_lub_lt.
    - apply Z.log2_lt_pow2; unfold id' in *; lia.
    - destruct (decide (id = 0)) as [->|]; [done|]. apply Z.log2_lt_pow2; unfold id' in *; lia. }
  rewrite fls_gt, pow_bits by (done || unfold IDR_BITS; lia).
  assert (Z.lxor id' id / 64 ^ j = Z.lxor (id' / 64 ^ j) (id / 64 ^ j)) as E.
  { rewrite <- !shiftr_digits by lia. apply Z.shiftr_lxor. }
  pose proof (Z.div_mod id (64 ^ j) ltac:(lia)). pose proof (Z.mod_pos_bound id (64 ^ j) ltac:(lia)).
  destruct ((id / 64 ^ j + 1) * 64 ^ j <=? id') eqn:E'; zbool.
  - apply Z.leb_le. apply Z.le_ngt. intros Hlt. rewrite (Z.div_small (Z.lxor id' id)) in E by lia.
    symmetry in E. apply Z.lxor_eq in E. assert (id / 64 ^ j + 1 <= id' / 64 ^ j); [|lia].
    apply Z.div_le_lower_bound; lia.
  - apply Z.leb_gt. rewrite same_prefix, Z.lxor_nilpotent in E by lia. apply Z.div_small_iff in E; lia.
Qed.
End Border.

(** Freeing the layers that end at the border. *)
Section FreeUp.
Context (lf : ptr -> bool) (h0 : gmap ptr idr_layer) (N : nodes) (t : ptr) (L id k0 : Z).
Hypothesis Ht : tree_ok lf h0 N t L no_hole.
Hypothesis Hid : 0 <= id < 64 ^ L.
Hypothesis Hk0 : 1 <= k0 <= L.
Hypothesis Hal : id mod 64 ^ k0 = 0.
Let id' := id + 64 ^ k0.

Lemma border_le : id' <= 64 ^ L.
Proof.
  pose proof (pow64_pos k0 ltac:(lia)). pose proof (Z.div_mod id (64 ^ k0) ltac:(lia)) as E. rewrite Hal, Z.add_0_r in E.
  assert (64 ^ L = 64 ^ k0 * 64 ^ (L - k0)) as EL by (rewrite <- Z.pow_add_r by lia; f_equal; lia).
  unfold id'. rewrite EL in Hid |- *. set (c := id / 64 ^ k0) in *. rewrite E in Hid |- *.
  assert (c < 64 ^ (L - k0)) by (apply (Z.mul_lt_mono_pos_l (64 ^ k0)); lia).
  replace (64 ^ k0 * c + 64 ^ k0) with (64 ^ k0 * (c + 1)) by lia. apply Z.mul_le_mono_pos_l; lia.
Qed.

Lemma before_mono l x : before id l x = true -> before id' l x = true.
Proof. unfold before, id'. pose proof (pow64_pos k0 ltac:(lia)). rewrite !Z.leb_le. lia. Qed.

(** A layer at level [k0] or above that ends between them. *)
Lemma ends_here l x : 0 <= l -> k0 <= l + 1 -> before id' l x = true -> before id l x = false -> x = id / 64 ^ (l + 1).
Proof.
  unfold before, past. rewrite Z.leb_le, Z.leb_gt. intros. apply (past_between id k0); unfold id' in *; (done || lia).
Qed.

Lemma between_up k l x p :
  k0 <= k -> (id / 64 ^ k + 1) * 64 ^ k <= id' -> N !! (l, x) = Some p ->
  between id id' (k + 1) l x = between id id' k l x || bool_decide ((l, x) = (k - 1, id / 64 ^ k)).
Proof.
  intros Hk Hend HN. destruct (to_dom _ _ _ _ _ _ Ht _ _ _ HN) as [Hl _]. unfold between.
  destruct (before id l x) eqn:E1; [done|]. cbn [orb]. case_bool_decide as E.
  - injection E as -> ->. unfold before, past. replace (k - 1 + 1) with k by lia.
    replace (k <? k + 1) with true by lia. replace ((id / 64 ^ k + 1) * 64 ^ k <=? id') with true by lia. by rewrite orb_true_r.
  - rewrite orb_false_r. destruct (before id' l x) eqn:E2; [|done]. cbn [andb].
    destruct (decide (l + 1 = k)) as [E3|]; [|lia]. destruct E. rewrite (ends_here l x) by (done || lia).
    rewrite E3. f_equal. lia.
Qed.

Lemma between_end k l x p :
  k0 <= k -> id' < (id / 64 ^ k + 1) * 64 ^ k \/ L < k -> N !! (l, x) = Some p -> before id' l x = between id id' k l x.
Proof.
  intros Hk Hend HN. destruct (to_dom _ _ _ _ _ _ Ht _ _ _ HN) as [Hl _]. unfold between.
  destruct (before id l x) eqn:E1; [by apply before_mono|]. cbn [orb]. destruct (before id' l x) eqn:E2; [|done]. cbn [andb].
  destruct (l + 1 <? k) eqn:E3; [done|]. exfalso. zbool. destruct Hend as [Hend|]; [|lia].
  pose proof (ends_here l x ltac:(lia) ltac:(lia) E2 E1) as ->. unfold before, past in E2. apply Z.leb_le in E2.
  assert (id' / 64 ^ k = id / 64 ^ k) as E by (apply same_prefix; done || lia).
  pose proof (pow64_pos (l + 1) ltac:(lia)).
  assert (id / 64 ^ (l + 1) + 1 <= id' / 64 ^ (l + 1)) by (apply Z.div_le_lower_bound; lia).
  rewrite (prefix_eq_up id' id k (l + 1)) in H0 by (done || lia). lia.
Qed.

Lemma free_up_spec : forall fuel k p paa i,
  k0 <= k <= L -> above N L k id paa -> p = N !! (k - 1, id / 64 ^ k) -> (k0 < k -> is_Some p) ->
  cleared h0 N (between id id' k) (heap i) -> L - k + 2 <= Z.of_nat fuel ->
  exists l p' paa' i', free_up fuel (fls (Z.lxor id' id)) (IDR_BITS * k) p paa i = Some (IDR_BITS * l, p', paa', i') /\
    cleared h0 N (before id') (heap i') /\ i' = set_heap (heap i') i /\ (id' < 64 ^ L -> at_level N L l id' p' paa').
Proof.
  pose proof border_le as Hle. pose proof (to_levels _ _ _ _ _ _ Ht) as HL. change MAX_LEVEL with 6 in HL.
  pose proof (pow64_max L ltac:(lia)) as Hmax.
  induction fuel as [|fuel IH]; intros k p paa i Hk Hab Hp Hsome Hcl Hf; [lia|]. cbn [free_up].
  unfold id'. rewrite (border_bit id k0) by (done || (fold id'; lia)). fold id'.
  destruct ((id / 64 ^ k + 1) * 64 ^ k <=? id') eqn:E; zbool.
  - assert (cleared h0 N (between id id' (k + 1)) (heap (free_opt p i))) as Hcl'.
    { destruct p as [q|]; cbn.
      - apply (cleared_ext _ _ (fun l x => between id id' k l x || bool_decide ((l, x) = (k - 1, id / 64 ^ k)))).
        + intros l x r HN. apply (between_up k l x r); (done || lia).
        + by apply (cleared_free lf h0 N t L no_hole).
      - apply (cleared_ext _ _ (between id id' k)); [|done]. intros l x r HN. rewrite (between_up k l x r) by (done || lia).
        rewrite bool_decide_eq_false_2; [by rewrite orb_false_r|]. intros [= -> ->]. congruence. }
    replace (IDR_BITS * k + IDR_BITS) with (IDR_BITS * (k + 1)) by lia.
    assert (free_opt p i = set_heap (heap (free_opt p i)) i) as Hi by (destruct p; by destruct i).
    destruct paa as [|q paa]; cbn [pop].
    + assert (k = L) as -> by (destruct Hab as [Hlen _]; cbn in Hlen; lia). destruct fuel; [lia|]. cbn [free_up].
      unfold id'. rewrite (border_bit id k0) by (done || (fold id'; lia)). fold id'.
      rewrite Z.div_small, pow64_succ by (rewrite ?pow64_succ; lia).
      replace ((0 + 1) * (64 * 64 ^ L) <=? id') with false by lia.
      exists (L + 1), None, [], (free_opt p i). split; [done|]. split; [|split; [done|]].
      * apply (cleared_ext _ _ (between id id' (L + 1))); [|done]. intros l x r HN. apply (between_end _ _ _ r); [lia|right; lia|done].
      * rewrite Z.div_small in E by lia. lia.
    + apply above_tail in Hab as [HN Hab]. assert (k + 1 <= L) by (destruct Hab; lia).
      destruct (IH (k + 1) (Some q) paa (free_opt p i)) as (l & p' & paa' & i' & E' & R1 & R2 & R3);
        [lia|done|by replace (k + 1 - 1) with k by lia|done|done|lia|].
      exists l, p', paa', i'. split; [done|]. split; [done|]. split; [|done]. by rewrite Hi in R2.
  - assert (k <> k0) as Hne. { intros ->. pose proof (pow64_pos k0 ltac:(lia)).
      pose proof (Z.div_mod id (64 ^ k0) ltac:(lia)). unfold id' in E. lia. }
    exists k, p, paa, i. split; [done|]. split; [|split; [by destruct i|]].
    + apply (cleared_ext _ _ (between id id' k)); [|done]. intros l x r HN. apply (between_end _ _ _ r); [lia|by left|done].
    + intros Hlt. assert (id' / 64 ^ k = id / 64 ^ k) as Eq by (apply same_prefix; done || lia).
      split; [lia|]. rewrite Eq. split; [done|]. split; [apply Hsome; lia|].
      apply (above_id _ _ _ id); [lia|done|]. apply (prefix_eq_up _ _ k); [lia|done].
Qed.
End FreeUp.

(** No layer ends inside a block that is not there. *)
Lemma absent_inside lf h N t L hole id k m x :
  tree_ok lf h N t L hole -> 0 <= m < k -> k < L -> id mod 64 ^ k = 0 -> N !! (k - 1, id / 64 ^ k) = None ->
  before id m x = false -> before (id + 64 ^ k) m x = true -> m + 1 < k -> N !! (m, x) = None.
Proof.
  intros Ht Hm Hk Hal Hnone Eb Eb' Hlt. destruct (N !! (m, x)) as [r|] eqn:HN; [|done]. exfalso.
  unfold before, past in *. apply Z.leb_gt in Eb. apply Z.leb_le in Eb'. set (a := 64 ^ (m + 1)) in *.
  pose proof (pow64_pos (m + 1) ltac:(lia)) as Ha. fold a in Ha. pose proof (pow64_pos k ltac:(lia)) as Hpk.
  assert (64 ^ k = 64 ^ (k - m - 1) * a) as Ek by (unfold a; rewrite <- Z.pow_add_r by lia; f_equal; lia).
  assert (id <= x * a) as Hge.
  { pose proof (Z.div_mod id (64 ^ k) ltac:(lia)) as E. rewrite Hal, Ek in E. set (c := id / (64 ^ (k - m - 1) * a)) in *.
    assert (64 ^ (k - m - 1) * c < x + 1) by (apply (Z.mul_lt_mono_pos_r a); lia).
    rewrite E. replace (64 ^ (k - m - 1) * a * c + 0) with (64 ^ (k - m - 1) * c * a) by lia. apply Z.mul_le_mono_pos_r; lia. }
  destruct (ancestor_of lf h N t L hole (x * a) m (k - 1) r Ht) as [q Hq]; [lia|lia| |].
  - fold a. rewrite Z.div_mul by lia. done.
  - replace (k - 1 + 1) with k in Hq by lia. rewrite (same_block id (x * a) k) in Hq by (done || lia). congruence.
Qed.

Lemma remove_all_loop_spec lf h0 N t L : tree_ok lf h0 N t L no_hole -> forall fuel l id p paa i,
  0 <= id <= 64 ^ L -> id mod 64 = 0 -> (id < 64 ^ L -> at_level N L l id p paa) -> on_border N L id ->
  cleared h0 N (before id) (heap i) -> 64 ^ L - id < Z.of_nat fuel ->
  exists i', remove_all_loop fuel (64 ^ L) (IDR_BITS * l) id p paa i = Some i' /\
    cleared h0 N (before (64 ^ L)) (heap i') /\ i' = set_heap (heap i') i.
Proof.
  intros Ht. pose proof (to_levels _ _ _ _ _ _ Ht) as HL. change MAX_LEVEL with 6 in HL.
  induction fuel as [|fuel IH]; intros l id p paa i Hid H64 Hat Hb Hcl Hf; [lia|]. cbn [remove_all_loop].
  destruct (id <? 64 ^ L) eqn:E; zbool; [|assert (id = 64 ^ L) as -> by lia; exists i; split; [done|]; split; [done|by destruct i]].
  destruct (Hat E) as (Hl & Hp & [q Hq] & Hab). subst p. rewrite Hq.
  destruct (walk_down_spec N L 1 i id ltac:(change MAX_LEVEL with 6; lia) ltac:(lia) (cleared_linked _ _ _ _ _ _ _ _ Ht Hcl)
    walk_fuel l q paa Hq Hab ltac:(lia) ltac:(lia)) as (k & p' & paa' & Ed & R1 & R2 & R3); [unfold walk_fuel; lia|].
  change (IDR_BITS * 1) with IDR_BITS in Ed. rewrite Ed. cbn [mbind option_bind].
  destruct R3 as [[? _]|(_ & Hp & Hend)]; [lia|].
  assert (p' = None -> k < L) as HkL.
  { intros ->. destruct (decide (k = L)) as [->|]; [|lia]. rewrite Z.div_small, (to_top _ _ _ _ _ _ Ht) in Hp by lia. congruence. }
  assert (id mod 64 ^ k = 0) as Hal.
  { destruct Hend as [->| ->]; [|done]. apply Hb; [specialize (HkL eq_refl); lia|done]. }
  pose proof (border_le L id k ltac:(lia) ltac:(lia) Hal) as Hle. pose proof (pow64_pos k ltac:(lia)).
  rewrite (s32_next id k L) by lia.
  destruct (free_up_spec lf h0 N t L id k Ht ltac:(lia) ltac:(lia) Hal walk_fuel k p' paa' i)
    as (l' & p'' & paa'' & i' & Eu & S1 & S2 & S3); [lia|done|done|lia| |unfold walk_fuel; lia|].
  { apply (cleared_ext _ _ (before id)); [|done]. intros m x r HN. unfold between. destruct (before id m x) eqn:Eb; [done|].
    cbn [orb]. destruct (before (id + 64 ^ k) m x) eqn:Eb'; [|done]. cbn [andb]. apply Z.ltb_ge. apply Z.le_ngt. intros Hlt.
    destruct (to_dom _ _ _ _ _ _ Ht _ _ _ HN) as [Hm _]. destruct Hend as [->| ->]; [|lia]. specialize (HkL eq_refl).
    rewrite (absent_inside lf h0 N t L no_hole id k m x Ht) in HN; (done || lia). }
  rewrite Eu. cbn [mbind option_bind].
  destruct (IH l' (id + 64 ^ k) p'' paa'' i') as (i2 & E2 & T1 & T2); [lia| |done| |done|lia|].
  - replace k with (k - 1 + 1) by lia. rewrite pow64_succ by lia. rewrite Z.mul_comm, Z_mod_plus_full. done.
  - destruct (decide (k < L)) as [Hlt|].
    + destruct (above_head _ _ _ _ _ R1 Hlt) as [r Hr]. by apply (border_next lf h0 N t L no_hole id k r Ht); [lia|..].
    + intros m Hm _. destruct Hend as [Hn| ->]; [specialize (HkL Hn)|]; lia.
  - exists i2. split; [done|]. split; [done|]. rewrite T2, S2. done.
Qed.

Lemma remove_all_spec i N fl :
  idr_ok every i N fl -> exists i', idr_remove_all i = Some i' /\ idr_ok every i' ∅ fl.
Proof.
  intros [Hs [(Htop & Hl & ->)|(t & Htop & Ht)]]; unfold idr_remove_all; rewrite Htop.
  { rewrite Hl. eexists. split; [done|]. split; [done|by left]. }
  rewrite (wf_shift _ _ _ Ht), (Z.mul_comm (layers i)). pose proof (pow64_pos (layers i)) as Hpos.
  pose proof (to_levels _ _ _ _ _ _ Ht) as HL.
  destruct (remove_all_loop_spec every (heap i) N t (layers i) Ht (S (Z.to_nat (64 ^ layers i))) (layers i) 0 (Some t) [] (set_top None i))
    as (i' & E & [H1 H2] & H3); [lia|done|intros; by apply at_top|apply border_zero| |lia|].
  { split; [|done]. intros l x p HN. destruct (to_dom _ _ _ _ _ _ Ht _ _ _ HN) as [Hl Hx]. unfold before, past.
    pose proof (pow64_pos (l + 1) ltac:(lia)). replace ((x + 1) * 64 ^ (l + 1) <=? 0) with false by nia. done. }
  rewrite E. cbn [mbind option_bind]. eexists. split; [done|].
  assert (forall a p, N !! a = Some p -> heap i' !! p = None) as Hgone.
  { intros [l x] p HN. rewrite (H1 _ _ _ HN). destruct (to_dom _ _ _ _ _ _ Ht _ _ _ HN) as [Hl Hx]. unfold before, past.
    replace ((x + 1) * 64 ^ (l + 1) <=? 64 ^ layers i) with true; [done|]. symmetry. apply Z.leb_le.
    replace (64 ^ layers i) with (64 ^ (layers i - 1 - l) * 64 ^ (l + 1)) by (rewrite <- Z.pow_add_r by lia; f_equal; lia).
    apply Z.mul_le_mono_nonneg_r; [pose proof (pow64_pos (l + 1))|]; lia. }
  destruct Hs as [S1 S2 S3 S4 S5 S6]. split; [|left; by rewrite H3]. rewrite H3. constructor; cbn; try done.
  - apply (chain_frame (heap i)); [|done]. intros p Hp. apply H2. intros a. by apply S4.
  - intros p []%not_elem_of_nil.
  - intros p [q Hp]. left. destruct (S6 p) as [?|[[]%not_elem_of_nil|[a Ha]]]; [|done|].
    + destruct (heap i !! p) eqn:Eh; [by eexists|]. exfalso.
      assert (forall a, N !! a <> Some p) as Hno by (intros a Ha; rewrite (Hgone _ _ Ha) in Hp; done).
      rewrite (H2 p Hno) in Hp. congruence.
    + rewrite (Hgone _ _ Ha) in Hp. done.
Qed.

Lemma destroy_spec i N fl :
  idr_ok every i N fl -> exists i', idr_destroy i = Some i' /\ idr_ok every i' N [] /\ same_ptrs i i'.
Proof.
  intros Hok. unfold idr_destroy. pose proof (idr_wf_cnt _ _ _ Hok) as Hc.
  destruct (trim_free_spec every 1 ltac:(lia) (S (Z.to_nat (id_free_cnt i))) i N fl Hok ltac:(lia)) as (i' & fl' & E & Hok' & Hs & Hlen).
  exists i'. split; [done|]. destruct fl'; [|cbn in Hlen; lia]. split; [done|]. by apply (same_ptrs_slots i N fl i' N []).
Qed.

(** ** Theorems *)

(** Iteration: [idr_for_each] returns and calls the function on exactly the
    ids in use with their pointers, in increasing order, until it answers an
    error, which is the result. *)
Theorem idr_for_each_visits i :
  idr_wf i -> exists l, ids_of i l /\
    forall D (fn : Z -> ptr -> D -> Z * D) data, idr_for_each fn data i = Some (visit fn l data).
Proof.
  intros (N & fl & Hok). exists (entries (slot_at (heap i) N) 0 (64 ^ layers i)). split; [by apply (entries_ids i N fl)|].
  intros D fn data. by apply (for_each_entries fn i N fl).
Qed.

(** Stepping through the ids: started at 0 or just after an id in use,
    [idr_get_next] returns the smallest id in use from there on with its
    pointer, and nothing exactly when there is none. *)
Theorem idr_get_next_smallest i id :
  idr_wf i -> id = 0 \/ (0 < id <= INT_MAX /\ exists v, idr_find i (id - 1) = Some (Some v)) ->
  exists o, idr_get_next i id = Some o /\
    match o with
    | None => forall j, id <= j <= INT_MAX -> idr_find i j = Some None
    | Some (j, v) => id <= j <= INT_MAX /\ idr_find i j = Some (Some v) /\ forall k, id <= k < j -> idr_find i k = Some None
    end.
Proof.
  intros (N & fl & Hok) Hid.
  assert (0 <= id /\ on_border N (layers i) id) as [H0 Hb].
  { destruct Hid as [->|(Hid & v & Hv)]; [split; [done|apply border_zero]|]. split; [lia|].
    apply (find_slot i N fl) in Hv; [|done|lia]. replace id with (id - 1 + 1) by lia. apply (border_after i N fl _ v); [done|lia|done]. }
  destruct (get_next_spec i N fl id Hok H0 Hb) as (o & E & Ho). exists o. split; [done|]. destruct o as [[j v]|].
  - destruct Ho as (H1 & H2 & H3). assert (j <= INT_MAX) as Hj.
    { destruct Hok as [_ [(_ & _ & ->)|(t & _ & Ht)]]; [unfold slot_at in H2; by rewrite lookup_empty in H2|].
      destruct (decide (0 <= j < 64 ^ layers i)) as [Hj|Hn]; [|by rewrite (slot_at_out _ _ _ _ _ _ _ Ht Hn) in H2].
      pose proof (to_levels _ _ _ _ _ _ Ht) as HL. change MAX_LEVEL with 6 in HL. pose proof (pow64_max (layers i) ltac:(lia)).
      unfold INT_MAX. lia. }
    split; [lia|]. split; [apply (find_slot i N fl); [done|lia|done]|].
    intros k Hk. apply (find_slot i N fl); [done|lia|]. apply H3. lia.
  - intros j Hj. apply (find_slot i N fl); [done|lia|]. apply Ho. lia.
Qed.

(** C14. Cleaning up: [idr_remove_all] returns, frees every layer of the tree,
    none while it is still to be read, and keeps the reserve;
    [idr_destroy] then frees the reserve, and no layer is left. *)
Theorem idr_cleanup_frees_all i :
  idr_wf i ->
  exists i1 i2, idr_remove_all i = Some i1 /\ idr_wf i1 /\ top i1 = None /\ id_free_cnt i1 = id_free_cnt i /\
    (forall j, 0 <= j <= INT_MAX -> idr_find i1 j = Some None) /\
    idr_destroy i1 = Some i2 /\ idr_wf i2 /\ heap i2 = ∅ /\ id_free_cnt i2 = 0.
Proof.
  intros (N & fl & Hok). destruct (remove_all_spec i N fl Hok) as (i1 & E1 & Hok1).
  destruct (destroy_spec i1 ∅ fl Hok1) as (i2 & E2 & Hok2 & Hs). exists i1, i2. split; [done|]. split; [by exists ∅, fl|].
  assert (top i1 = None) as Ht1.
  { destruct Hok1 as [_ [(? & _)|(t & _ & Ht)]]; [done|]. pose proof (to_top _ _ _ _ _ _ Ht) as Hn. by rewrite lookup_empty in Hn. }
  split; [done|]. rewrite (idr_wf_cnt _ _ _ Hok1), (idr_wf_cnt _ _ _ Hok). split; [done|]. split.
  { intros j Hj. unfold idr_find. by rewrite Ht1. }
  split; [done|]. split; [by exists ∅, []|]. split; [|by rewrite (idr_wf_cnt _ _ _ Hok2)].
  apply map_empty. intros p. destruct (heap i2 !! p) eqn:Ep; [|done]. exfalso. destruct Hok2 as [Hsp _].
  destruct (sp_all _ _ _ _ _ _ Hsp p) as [H|[H|[a H]]]; [by eexists|by apply not_elem_of_nil in H|by apply not_elem_of_nil in H|].
  by rewrite lookup_empty in H.
Qed.

(** An empty IDR with its reserve. *)
Definition preloaded : idr := default idr_init (snd <$> idr_pre_get pre_get_fuel 12 idr_init).

(** The same with pointer 7 at id 0, and with pointer 8 at id 128 besides. *)
Definition one : idr := default idr_init (snd <$> idr_get_new_above 7%nat 0 preloaded).
Definition two : idr := default idr_init (snd <$> idr_get_new_above 8%nat 128 one).

(** Ids the tree has no place for: from 2^30 on [idr_get_new_above] assigns
    an id that lookup does not find; [idr_remove] of an id past the tree that
    is not allocated takes another id away, without a warning; and
    [idr_get_next] started inside a missing layer passes over an id in
    use. *)
Theorem idr_out_of_range :
  (exists i, idr_get_new_above 7%nat (2 ^ 30) preloaded = Some (0, 2 ^ 30, i) /\ idr_find i (2 ^ 30) = Some None) /\
  (exists i, idr_find one 64 = Some None /\ idr_find one 0 = Some (Some 7%nat) /\
    idr_remove 64 one = Some (false, i) /\ idr_find i 0 = Some None) /\
  (idr_find two 128 = Some (Some 8%nat) /\ idr_get_next two 65 = Some None).
Proof.
  split; [|split].
  - eexists. split; [vm_compute; reflexivity|]. vm_compute. reflexivity.
  - eexists. split; [vm_compute; reflexivity|]. split; [vm_compute; reflexivity|].
    split; [vm_compute; reflexivity|]. vm_compute. reflexivity.
  - split; vm_compute; reflexivity.
Qed.

Module IdrDemo.
Lemma room_at i start j : (start <=? j) && (j <? 2 ^ 30) = true -> idr_find i j = Some None -> has_room i start.
Proof. intros Hj Hf. exists j. split; [lia|done]. Qed.

Lemma preloaded_wf : idr_wf preloaded.
Proof. apply (pre_get_wf 12 idr_init true); [apply init_wf|vm_compute; reflexivity]. Qed.

Lemma one_wf : idr_wf one.
Proof.
  apply (get_new_above_wf 7%nat 0 preloaded (0, 0)); [apply preloaded_wf|done| |vm_compute; reflexivity].
  apply (room_at _ _ 5); vm_compute; reflexivity.
Qed.

Lemma two_wf : idr_wf two.
Proof.
  apply (get_new_above_wf 8%nat 128 one (0, 128)); [apply one_wf|done| |vm_compute; reflexivity].
  apply (room_at _ _ 130); vm_compute; reflexivity.
Qed.

Lemma idr_alloc_first_fit_witness :
  idr_wf one /\ has_room one 0 /\ exists r i1 err id i2, idr_pre_get pre_get_fuel 12 one = Some (r, i1) /\ r = true /\
    idr_get_new_above 9%nat 0 i1 = Some (err, id, i2) /\ err = 0 /\ idr_wf i2.
Proof.
  assert (has_room one 0) as Hroom by (apply (room_at _ _ 5); vm_compute; reflexivity).
  split; [exact one_wf|]. split; [exact Hroom|].
  destruct (idr_alloc_first_fit 9%nat 0 12 one one_wf ltac:(lia) Hroom)
    as (r & i1 & E1 & _ & _ & Hr & err & id & i2 & E2 & Hwf2 & _ & He).
  assert (r = true) as Hrt by (apply Hr; vm_compute; discriminate).
  exists r, i1, err, id, i2. split; [exact E1|]. split; [exact Hrt|]. split; [exact E2|]. split; [exact (He Hrt)|exact Hwf2].
Defined.

Lemma idr_remove_empties_witness :
  idr_wf two /\ exists i', idr_remove 128 two = Some (false, i') /\ idr_wf i' /\ ptrs_with two 128 None i'.
Proof.
  split; [exact two_wf|].
  assert (0 <= 128 < 64 ^ layers two) as Hin by (vm_compute; split; congruence).
  destruct (idr_remove_empties 128 two two_wf Hin) as (w & i' & E & Hwf & _ & Hm).
  assert (idr_find two 128 = Some (Some 8%nat)) as Hf by (vm_compute; reflexivity).
  rewrite Hf in Hm. destruct Hm as [-> Hp]. exists i'. auto.
Defined.

Lemma idr_for_each_visits_witness :
  exists l, ids_of two l /\
    idr_for_each (fun id v d => (0, (id, v) :: d)) [] two = Some (visit (fun id v d => (0, (id, v) :: d)) l []).
Proof. destruct (idr_for_each_visits two two_wf) as (l & Hl & Hv). exists l. split; [exact Hl|]. apply Hv. Defined.

Lemma idr_get_next_smallest_witness :
  idr_find two 0 = Some (Some 7%nat) /\ exists o, idr_get_next two 1 = Some o.
Proof.
  split; [vm_compute; reflexivity|].
  destruct (idr_get_next_smallest two 1 two_wf) as (o & E & _); [|by exists o].
  right. split; [unfold INT_MAX; lia|]. exists 7%nat. vm_compute. reflexivity.
Defined.

Lemma idr_cleanup_frees_all_witness :
  exists i1 i2, idr_remove_all two = Some i1 /\ idr_destroy i1 = Some i2 /\ heap i2 = ∅.
Proof.
  destruct (idr_cleanup_frees_all two two_wf) as (i1 & i2 & E1 & _ & _ & _ & _ & E2 & _ & Hh & _). exists i1, i2. auto.
Defined.
End IdrDemo.
