(* ===== verification/Ida.v ===== *)
(** * Ida: ids without pointers

    Models the second part of lib/idr.c: an IDA is an IDR whose leaves point to
    bitmaps of 960 ids each. The bitmaps are objects of a heap of their own, as
    the layers of Idr.v are; [None] is a crash or a loop out of fuel. *)

From S2P Require Import Prelude Idr.

Definition IDA_BITMAP_LONGS : Z := 128 / 8 - 1.
Definition IDA_BITMAP_BITS : Z := IDA_BITMAP_LONGS * 8 * 8.

(** ** Data *)

(** [struct ida_bitmap]; bit [n] of the array of words is bit [n] of [bits]. *)
Record ida_bitmap := IdaBitmap { nr_busy : Z; bits : Z }.

(** [struct ida]; [ida_free] is its field [free_bitmap]. *)
Record ida := IdaRec { ida_idr : idr; ida_free : option ptr; bitmaps : gmap ptr ida_bitmap }.

Definition set_ida_idr (i : idr) (a : ida) : ida :=
  {| ida_idr := i; ida_free := ida_free a; bitmaps := bitmaps a |}.
Definition set_ida_free (f : option ptr) (a : ida) : ida :=
  {| ida_idr := ida_idr a; ida_free := f; bitmaps := bitmaps a |}.
Definition set_bitmaps (m : gmap ptr ida_bitmap) (a : ida) : ida :=
  {| ida_idr := ida_idr a; ida_free := ida_free a; bitmaps := m |}.

Definition ida_init : ida := {| ida_idr := idr_init; ida_free := None; bitmaps := ∅ |}.

(** Writing the bitmap at [b]. *)
Definition store_bitmap (b : ptr) (f : ida_bitmap -> ida_bitmap) (a : ida) : option ida :=
  match bitmaps a !! b with
  | Some m => Some (set_bitmaps (<[b := f m]> (bitmaps a)) a)
  | None => None
  end.

Definition kfree_bitmap (b : ptr) (a : ida) : ida := set_bitmaps (delete b (bitmaps a)) a.

Definition zero_bitmap : ida_bitmap := {| nr_busy := 0; bits := 0 |}.
Definition busy_bit (n : Z) (m : ida_bitmap) : ida_bitmap :=
  {| nr_busy := nr_busy m + 1; bits := Z.setbit (bits m) n |}.
Definition idle_bit (n : Z) (m : ida_bitmap) : ida_bitmap :=
  {| nr_busy := nr_busy m - 1; bits := Z.clearbit (bits m) n |}.

(** [find_next_zero_bit(bitmap, size, n)] *)
Fixpoint zero_bit_from (fuel : nat) (size b n : Z) : Z :=
  match fuel with
  | O => size
  | S fuel => if n >=? size then size else if Z.testbit b n then zero_bit_from fuel size b (n + 1) else n
  end.

Definition next_zero_of (size b n : Z) : Z := zero_bit_from (Z.to_nat size) size b n.

(** ** Reserve *)

(** Keeping a bitmap for later, or freeing it when there is one already. *)
Definition free_bitmap (b : ptr) (a : ida) : ida :=
  match ida_free a with
  | None => set_ida_free (Some b) a
  | Some _ => kfree_bitmap b a
  end.

(** [avail]: the layers the allocator still gives; [mem]: the bitmap kmalloc
    gives, with what was in that memory; [meanwhile]: what others do to the
    IDA while kmalloc sleeps. *)
Definition ida_pre_get (avail : nat) (mem : option ida_bitmap) (meanwhile : ida -> ida) (a : ida)
    : option (bool * ida) :=
  '(r, i) ← idr_pre_get pre_get_fuel avail (ida_idr a);
  let a := set_ida_idr i a in
  if negb r then Some (false, a)
  else
    match ida_free a with
    | Some _ => Some (true, a)
    | None =>
        let a := meanwhile a in
        match mem with
        | None => Some (false, a)
        | Some junk =>
            let new := fresh (dom (bitmaps a)) in
            Some (true, free_bitmap new (set_bitmaps (<[new := junk]> (bitmaps a)) a))
        end
    end.

(** ** Allocation *)

(** The bitmap in the slot of [idr_id] of the leaf [p], made from the one in
    reserve if there is none; no bitmap when there is none in reserve either. *)
Definition slot_bitmap (p : ptr) (idr_id : Z) (a : ida) : option (option ptr * ida) :=
  slot ← get_ary (ida_idr a) p (Z.land idr_id IDR_MASK);
  match slot with
  | Some b => Some (Some b, a)
  | None =>
      match ida_free a with
      | None => Some (None, a)
      | Some b =>
          a ← store_bitmap b (fun _ => zero_bitmap) (set_ida_free None a);
          i ← update p (set_ary (Z.land idr_id IDR_MASK) (Some b)) (ida_idr a);
          i ← update p (fun l => set_count (count l + 1) l) i;
          Some (Some b, set_ida_idr i a)
      end
  end.

(** Throwing away one layer of the reserve. *)
Definition drop_spare (a : ida) : option ida :=
  match id_free_cnt (ida_idr a) =? 0, ida_free a with
  | true, None => Some a
  | _, _ =>
      '(p, i) ← get_from_free_list (ida_idr a);
      Some (set_ida_idr (match p with Some p => free_layer p i | None => i end) a)
  end.

(** The code from the label [restart]; error, id and IDA. *)
Fixpoint ida_alloc_loop (fuel : nat) (idr_id offset : Z) (a : ida) : option (Z * Z * ida) :=
  match fuel with
  | O => None
  | S fuel =>
      '(r, pa, i) ← idr_get_empty_slot idr_id (ida_idr a);
      let a := set_ida_idr i a in
      match r with
      | Found t =>
          if t * IDA_BITMAP_BITS >=? MAX_ID_BIT then Some (- ENOSPC, 0, a)
          else
            let offset := if t =? idr_id then offset else 0 in
            let idr_id := t in
            p ← pa !! 0;
            '(b, a) ← slot_bitmap p idr_id a;
            match b with
            | None => Some (- EAGAIN, 0, a)
            | Some b =>
                m ← bitmaps a !! b;
                let t := next_zero_of IDA_BITMAP_BITS (bits m) offset in
                if t =? IDA_BITMAP_BITS then ida_alloc_loop fuel (s32 (idr_id + 1)) 0 a
                else
                  let id := s32 (idr_id * IDA_BITMAP_BITS + t) in
                  if u32 id >=? MAX_ID_BIT then Some (- ENOSPC, 0, a)
                  else
                    a ← store_bitmap b (busy_bit t) a;
                    i ← (if nr_busy m + 1 =? IDA_BITMAP_BITS then idr_mark_full pa idr_id (ida_idr a)
                         else Some (ida_idr a));
                    a ← drop_spare (set_ida_idr i a);
                    Some (0, id, a)
            end
      | r => Some (fst (idr_rc r), 0, a)
      end
  end.

(** The first chunk may be full behind the offset; the search for the next one
    starts at its first id and cannot fail. The divisions are unsigned. *)
Definition ida_get_new_above (starting_id : Z) (a : ida) : option (Z * Z * ida) :=
  ida_alloc_loop 2 (s32 (u64 starting_id / IDA_BITMAP_BITS)) (s32 (u64 starting_id mod IDA_BITMAP_BITS)) a.

Definition ida_get_new (a : ida) : option (Z * Z * ida) := ida_get_new_above 0 a.

(** ** Removal *)

(** Down to the leaf, clearing the bits on the way. *)
Fixpoint ida_down (fuel : nat) (shift idr_id : Z) (p : option ptr) (i : idr) : option (option ptr * idr) :=
  match fuel with
  | O => None
  | S fuel =>
      match p with
      | Some q =>
          if shift >? 0 then
            let n := slot_of idr_id shift in
            i ← update q (clear_bit n) i;
            next ← get_ary i q n;
            ida_down fuel (shift - IDR_BITS) idr_id next i
          else Some (p, i)
      | None => Some (None, i)
      end
  end.

(** The first result: the warning for an id that is not allocated. *)
Definition ida_remove (id : Z) (a : ida) : option (bool * ida) :=
  let idr_id := s32 (u64 id / IDA_BITMAP_BITS) in
  let offset := s32 (u64 id mod IDA_BITMAP_BITS) in
  let shift := (layers (ida_idr a) - 1) * IDR_BITS in
  '(p, i) ← ida_down (S (Z.to_nat MAX_LEVEL)) shift idr_id (top (ida_idr a)) (ida_idr a);
  match p with
  | None => Some (true, set_ida_idr i a)
  | Some p =>
      let n := Z.land idr_id IDR_MASK in
      i ← update p (clear_bit n) i;
      let a := set_ida_idr i a in
      slot ← get_ary i p n;
      b ← slot;
      m ← bitmaps a !! b;
      if negb (Z.testbit (bits m) offset) then Some (true, a)
      else
        a ← store_bitmap b (idle_bit offset) a;
        if nr_busy m - 1 =? 0 then
          i ← update p (set_bit n) (ida_idr a);
          '(_, i) ← idr_remove idr_id i;
          Some (false, free_bitmap b (set_ida_idr i a))
        else Some (false, a)
  end.

Definition ida_destroy (a : ida) : option ida :=
  i ← idr_destroy (ida_idr a);
  let a := set_ida_idr i a in
  Some (match ida_free a with Some b => kfree_bitmap b a | None => a end).
