(* ===== verification/IdaInv.v ===== *)
(** * IdaInv: correctness of the id allocator

    The invariant of an IDA on top of the one of its tree, and what allocation
    and removal do to the set of ids in use. *)

From S2P Require Import Prelude Idr IdrInv IdrSpec Ida.

(** ** Bits of a bitmap *)

Fixpoint count_bits (n : nat) (b : Z) : Z :=
  match n with O => 0 | S n => count_bits n b + Z.b2z (Z.testbit b (Z.of_nat n)) end.

Lemma count_bits_range n b : 0 <= count_bits n b <= Z.of_nat n.
Proof. induction n as [|n IH]; cbn [count_bits]; [done|]. destruct (Z.testbit b _); cbn [Z.b2z]; lia. Qed.

Lemma count_bits_ext n b c :
  (forall k, 0 <= k < Z.of_nat n -> Z.testbit b k = Z.testbit c k) -> count_bits n b = count_bits n c.
Proof.
  induction n as [|n IH]; intros Hk; cbn [count_bits]; [done|]. rewrite (Hk (Z.of_nat n)) by lia.
  rewrite IH; [done|]. intros k ?. apply Hk. lia.
Qed.

Lemma count_bits_set n b k :
  0 <= k < Z.of_nat n -> Z.testbit b k = false -> count_bits n (Z.setbit b k) = count_bits n b + 1.
Proof.
  induction n as [|n IH]; intros Hk Hb; cbn [count_bits]; [lia|].
  destruct (decide (k = Z.of_nat n)) as [->|Hne].
  - rewrite Z.setbit_eq, Hb by lia. rewrite (count_bits_ext n _ b); [cbn; lia|].
    intros j Hj. apply Z.setbit_neq; lia.
  - rewrite Z.setbit_neq, IH by (done || lia). lia.
Qed.

Lemma count_bits_clear n b k :
  0 <= k < Z.of_nat n -> Z.testbit b k = true -> count_bits n (Z.clearbit b k) = count_bits n b - 1.
Proof.
  intros Hk Hb. rewrite <- (count_bits_ext n (Z.setbit (Z.clearbit b k) k) b).
  - rewrite (count_bits_set n (Z.clearbit b k)); [lia|done|]. apply Z.clearbit_eq.
  - intros j Hj. destruct (decide (j = k)) as [->|]; [by rewrite Z.setbit_eq by lia|].
    by rewrite Z.setbit_neq, Z.clearbit_neq by lia.
Qed.

Lemma count_bits_full n b :
  count_bits n b = Z.of_nat n <-> forall k, 0 <= k < Z.of_nat n -> Z.testbit b k = true.
Proof.
  induction n as [|n IH]; cbn [count_bits]; [split; [intros; lia|done]|]. pose proof (count_bits_range n b).
  split.
  - intros E k Hk. destruct (Z.testbit b (Z.of_nat n)) eqn:Eb; cbn in E; [|lia].
    destruct (decide (k = Z.of_nat n)) as [->|]; [done|]. apply IH; lia.
  - intros Hk. rewrite Hk by lia. rewrite (proj2 IH); [cbn; lia|]. intros k ?. apply Hk. lia.
Qed.

Lemma count_bits_zero n b :
  count_bits n b = 0 <-> forall k, 0 <= k < Z.of_nat n -> Z.testbit b k = false.
Proof.
  induction n as [|n IH]; cbn [count_bits]; [split; [intros; lia|done]|]. pose proof (count_bits_range n b).
  split.
  - intros E k Hk. destruct (Z.testbit b (Z.of_nat n)) eqn:Eb; cbn in E; [lia|].
    destruct (decide (k = Z.of_nat n)) as [->|]; [done|]. apply IH; lia.
  - intros Hk. rewrite Hk by lia. rewrite (proj2 IH); [done|]. intros k ?. apply Hk. lia.
Qed.

Lemma count_bits_some n b : count_bits n b <> 0 -> exists k, 0 <= k < Z.of_nat n /\ Z.testbit b k = true.
Proof.
  induction n as [|n IH]; cbn [count_bits]; intros Hc; [done|]. destruct (Z.testbit b (Z.of_nat n)) eqn:E.
  - exists (Z.of_nat n). split; [lia|done].
  - destruct IH as (k & Hk & Hb); [cbn in Hc; lia|]. exists k. split; [lia|done].
Qed.

Lemma zero_bit_from_spec size b fuel : forall n,
  0 <= n <= size -> size - n <= Z.of_nat fuel ->
  n <= zero_bit_from fuel size b n <= size /\
  (forall k, n <= k < zero_bit_from fuel size b n -> Z.testbit b k = true) /\
  (zero_bit_from fuel size b n < size -> Z.testbit b (zero_bit_from fuel size b n) = false).
Proof.
  induction fuel as [|fuel IH]; intros n Hn Hf; cbn [zero_bit_from].
  { assert (n = size) as -> by lia. split; [lia|]. split; intros; lia. }
  destruct (n >=? size) eqn:E; zbool; [assert (n = size) as -> by lia; split; [lia|]; split; intros; lia|].
  destruct (Z.testbit b n) eqn:Eb; [|split; [lia|]; split; [intros; lia|done]].
  destruct (IH (n + 1)) as (H1 & H2 & H3); [lia|lia|]. split; [lia|]. split; [|done].
  intros k Hk. destruct (decide (k = n)) as [->|]; [done|]. apply H2. lia.
Qed.

(** A bitmap of the ids from [base] on: its count is right and no id is too
    large. *)
Record bitmap_ok (base : Z) (m : ida_bitmap) : Prop := {
  bo_busy : nr_busy m = count_bits 960 (bits m);
  bo_bits k : Z.testbit (bits m) k = true -> 0 <= k < 960 /\ base + k < 2 ^ 31
}.

Lemma bitmap_full base m : bitmap_ok base m ->
  (nr_busy m =? 960) = true <-> forall k, 0 <= k < 960 -> Z.testbit (bits m) k = true.
Proof. intros [Hb _]. rewrite Z.eqb_eq, Hb. apply (count_bits_full 960). Qed.

Lemma bitmap_zero base m : bitmap_ok base m ->
  nr_busy m = 0 <-> forall k, Z.testbit (bits m) k = false.
Proof.
  intros [Hb Hk]. rewrite Hb, (count_bits_zero 960). split; intros H k; [|intros; apply H].
  destruct (Z.testbit (bits m) k) eqn:E; [|done]. rewrite <- E. apply H. by apply Hk.
Qed.

Lemma bitmap_set base m k :
  bitmap_ok base m -> 0 <= k < 960 -> base + k < 2 ^ 31 -> Z.testbit (bits m) k = false ->
  bitmap_ok base (busy_bit k m).
Proof.
  intros [Hb Hk] Hr Hid Hbit. constructor; cbn [nr_busy bits busy_bit].
  - rewrite count_bits_set by (done || lia). lia.
  - intros j. destruct (decide (j = k)) as [->|]; [done|]. rewrite Z.setbit_neq by lia. apply Hk.
Qed.

Lemma bitmap_clear base m k :
  bitmap_ok base m -> Z.testbit (bits m) k = true -> bitmap_ok base (idle_bit k m).
Proof.
  intros [Hb Hk] Hbit. destruct (Hk k Hbit) as [Hr _]. constructor; cbn [nr_busy bits idle_bit].
  - rewrite count_bits_clear by (done || lia). lia.
  - intros j. destruct (decide (j = k)) as [->|]; [by rewrite Z.clearbit_eq|]. rewrite Z.clearbit_neq by lia. apply Hk.
Qed.

(** ** Trees whose slots change their fullness *)

(** Only at a hole may the fullness of a slot change. *)
Lemma tree_refull lf lf' h N t L hole :
  (forall j v, slot_at h N j = Some v -> hole (-1) j = false -> lf' v = lf v) ->
  tree_ok lf h N t L hole -> tree_ok lf' h N t L hole.
Proof.
  intros Hlf [H1 H2 H3 H4 H5 H6]. constructor; try done. intros l x p HN.
  destruct (H5 l x p HN) as (lay & Hh & [N1 N2 N3 N4 N5 N6]). exists lay. split; [done|].
  constructor; try done. intros n Hn. rewrite N6 by done. unfold bit, full.
  destruct (Z.eqb_spec (l - 1) (-1)) as [E|]; [|done]. rewrite E. destruct (hole (-1) (64 * x + n)) eqn:Eh; [done|].
  destruct (slot_at h N (64 * x + n)) as [v|] eqn:Es; [|done]. cbn. symmetry. by apply (Hlf (64 * x + n)).
Qed.

Lemma idr_refull lf lf' i N fl :
  (forall j v, slot_at (heap i) N j = Some v -> lf' v = lf v) -> idr_ok lf i N fl -> idr_ok lf' i N fl.
Proof.
  intros Hlf [Hs Ht]. split; [done|]. destruct Ht as [?|(t & Htop & Ht)]; [by left|right].
  exists t. split; [done|]. apply (tree_refull lf); [|done]. intros j v Hj _. by apply (Hlf j).
Qed.

Section Tree.
Context (lf : ptr -> bool).

(** Setting the bit of a full slot whose bit is clear, as are those above. *)
Lemma set_leaf_bit h N t L id p lay :
  tree_ok lf h N t L (path_hole id (-1)) -> N !! (0, id / 64) = Some p -> h !! p = Some lay ->
  full lf h N (-1) id = true ->
  tree_ok lf (<[p := set_bit (id mod 64) lay]> h) N t L (path_hole id 0).
Proof.
  intros Ht HN Hh Hfull. pose proof (digit_range id) as Hd.
  destruct (to_node _ _ _ _ _ _ Ht _ _ _ HN) as (lay' & Hh' & Hok). rewrite Hh in Hh'. injection Hh' as <-.
  apply (tree_bitmap lf _ _ _ _ (path_hole id (-1)) _ 0 (id / 64)); try done.
  - apply word64_setbit; [apply Hok|done].
  - intros n Hn. unfold bit. destruct (decide (n = id mod 64)) as [->|Hne].
    + rewrite Z.setbit_eq, child_eta by lia. change (0 - 1) with (-1). by rewrite Hfull.
    + rewrite Z.setbit_neq, (no_bit _ _ _ _ _ _ _ Hok) by lia. unfold bit, path_hole. change (0 - 1) with (-1).
      change (-1 + 1) with 0. rewrite Z.pow_0_r, Z.div_1_r.
      replace (64 * (id / 64) + n =? id) with false; [done|]. symmetry. apply Z.eqb_neq. intros E.
      rewrite <- (child_eta id) in E at 2. lia.
  - unfold bit, path_hole. change (64 ^ (0 + 1)) with 64. by rewrite Z.eqb_refl.
  - intros k y Hne Hne2 _. unfold path_hole. destruct (Z.eqb_spec y (id / 64 ^ (k + 1))) as [->|]; [|by rewrite !andb_false_r].
    rewrite !andb_true_r. destruct (decide (k = -1)) as [->|]; [|lia]. exfalso. apply Hne2.
    change (-1 + 1) with 0. by rewrite Z.pow_0_r, Z.div_1_r.
Qed.

Lemma update_same p f i lay : heap i !! p = Some lay -> f lay = lay -> update p f i = Some i.
Proof. intros Hh Hf. unfold update. rewrite Hh, Hf, insert_id by done. by destruct i. Qed.

(** On a way whose bits are clear already the walk down writes nothing. *)
Lemma remove_down_same N t L id q : N !! (0, id / 64) = Some q -> forall fuel l p paa i,
  tree_ok lf (heap i) N t L (path_hole id 0) -> N !! (l, id / 64 ^ (l + 1)) = Some p -> slot_path N L id l paa ->
  l < Z.of_nat fuel ->
  exists paa', remove_down fuel (IDR_BITS * l) id paa (Some p) i = Some (paa', Some q, i) /\ slot_path N L id 0 paa'.
Proof.
  intros Hq. induction fuel as [|fuel IH]; intros l p paa i Ht HN Hpa Hf.
  { destruct (to_dom _ _ _ _ _ _ Ht _ _ _ HN). lia. }
  destruct (to_dom _ _ _ _ _ _ Ht _ _ _ HN) as [Hl Hx]. cbn [remove_down].
  destruct (decide (l = 0)) as [->|Hne].
  { change (64 ^ (0 + 1)) with 64 in HN. rewrite Hq in HN. injection HN as ->. cbn. by exists paa. }
  replace (IDR_BITS * l >? 0) with true by (unfold IDR_BITS; lia).
  destruct (to_node _ _ _ _ _ _ Ht _ _ _ HN) as (lay & Hh & Hok). rewrite slot_of_digit by lia.
  pose proof (digit_range (id / 64 ^ l)) as Hd.
  assert (Z.testbit (bitmap lay) ((id / 64 ^ l) mod 64) = false) as Hbit.
  { rewrite (no_bit _ _ _ _ _ _ _ Hok), prefix_down by (done || lia). unfold bit, path_hole.
    replace (l - 1 + 1) with l by lia. rewrite Z.eqb_refl. by replace (0 <=? l - 1) with true by lia. }
  assert (clear_bit ((id / 64 ^ l) mod 64) lay = lay) as Hclear.
  { destruct lay as [b ar c ly]. unfold clear_bit, set_bitmap. cbn in *. f_equal. apply Z.bits_inj'. intros k Hk.
    destruct (decide (k = (id / 64 ^ l) mod 64)) as [->|]; [by rewrite Z.clearbit_eq|by rewrite Z.clearbit_neq by lia]. }
  rewrite (update_same _ _ _ lay Hh Hclear). cbn [mbind option_bind].
  destruct (way_layer lf _ _ _ _ _ id q (l - 1) Ht Hq ltac:(lia)) as [r Hr]. replace (l - 1 + 1) with l in Hr by lia.
  assert (get_ary i p ((id / 64 ^ l) mod 64) = Some (Some r)) as ->.
  { unfold get_ary. rewrite Hh, (no_child _ _ _ _ _ _ _ Hok), prefix_down by lia. by rewrite Hr. }
  cbn [mbind option_bind]. replace (IDR_BITS * l - IDR_BITS) with (IDR_BITS * (l - 1)) by lia.
  apply (IH (l - 1) r); [done|by replace (l - 1 + 1) with l by lia| |lia].
  replace l with (l - 1 + 1) at 2 by lia. constructor; replace (l - 1 + 1) with l by lia; [|done].
  by replace (l - 1 + 2) with (l + 1) by lia.
Qed.

(** [idr_remove] when the bits above the leaf are clear already. *)
Lemma idr_remove_open i N fl t id q v :
  tree_ok lf (heap i) N t (layers i) (path_hole id 0) -> top i = Some t -> idr_spare i N fl [] ->
  0 <= id < 64 ^ layers i -> N !! (0, id / 64) = Some q -> slot_at (heap i) N id = Some v -> lf v = true ->
  exists i' N' fl', idr_remove id i = Some (false, i') /\ idr_ok lf i' N' fl' /\
    (forall j, slot_at (heap i') N' j = if j =? id then None else slot_at (heap i) N j).
Proof.
  intros Ht Htop Hs Hid Hq Hv Hlf. pose proof (to_levels _ _ _ _ _ _ Ht) as HL. change MAX_LEVEL with 6 in HL.
  pose proof (pow64_max (layers i) ltac:(lia)) as Hmax. rewrite remove_eq, mask_id by lia.
  destruct (remove_down_same N t (layers i) id q Hq (S (Z.to_nat MAX_LEVEL)) (layers i - 1) t [TopSlot] i Ht)
    as (paa & E & Hpa); [|constructor|change (Z.of_nat (S (Z.to_nat MAX_LEVEL))) with 7; lia|].
  { replace (layers i - 1 + 1) with (layers i) by lia. rewrite Z.div_small by lia. apply Ht. }
  unfold sub_remove. rewrite (Z.mul_comm (layers i - 1)), Htop, E. cbn [mbind option_bind]. rewrite land_mask.
  destruct (to_node _ _ _ _ _ _ Ht _ _ _ Hq) as (lay & Hh & Hok). rewrite Hh. cbn [mbind option_bind].
  rewrite (no_bit _ _ _ _ _ _ _ Hok) by apply digit_range. rewrite child_eta. unfold bit.
  change (path_hole id 0 (0 - 1) id) with false. cbn [negb andb]. change (0 - 1) with (-1). rewrite full_slot, Hv, Hlf.
  destruct (sub_remove_leaf lf i N t fl id paa q lay v Ht Htop Hs Hq Hh Hpa Hv) as (i1 & N1 & E1 & Hok1 & Hs1).
  rewrite E1. cbn [mbind option_bind].
  destruct (remove_rest lf i1 N1 fl Hok1) as (i3 & N3 & fl3 & E3 & Hok3 & Hs3 & Hl3). rewrite E3.
  cbn [mbind option_bind]. exists i3, N3, fl3. split; [done|]. split; [done|]. intros j. by rewrite Hs3, Hs1.
Qed.
End Tree.

(** ** Chunks *)

(** The bitmaps in the slots [s] and the one in reserve [f] are the objects of
    the heap [m]; only the chunk [e] may be empty. *)
Record chunks_ok (e : Z) (s : Z -> option ptr) (f : option ptr) (m : gmap ptr ida_bitmap) : Prop := {
  ck_inj j k v : s j = Some v -> s k = Some v -> j = k;
  ck_slot j v : s j = Some v ->
    0 <= j /\ exists b, m !! v = Some b /\ bitmap_ok (j * 960) b /\ (nr_busy b = 0 -> j = e);
  ck_free v : f = Some v -> is_Some (m !! v) /\ forall j, s j <> Some v;
  ck_heap v : is_Some (m !! v) -> f = Some v \/ exists j, s j = Some v
}.

(** The id is allocated. *)
Definition in_use (s : Z -> option ptr) (m : gmap ptr ida_bitmap) (id : Z) : bool :=
  match s (id / 960) with
  | Some v => match m !! v with Some b => Z.testbit (bits b) (id mod 960) | None => false end
  | None => false
  end.

(** The bitmap of a chunk is full. *)
Definition chunk_full (m : gmap ptr ida_bitmap) (v : ptr) : bool :=
  match m !! v with Some b => nr_busy b =? IDA_BITMAP_BITS | None => false end.

Definition with_slot (j : Z) (o : option ptr) (s : Z -> option ptr) (k : Z) : option ptr :=
  if k =? j then o else s k.

Lemma with_slot_eq j o s : with_slot j o s j = o.
Proof. unfold with_slot. by rewrite Z.eqb_refl. Qed.

Lemma with_slot_ne j o s k : k <> j -> with_slot j o s k = s k.
Proof. intros. unfold with_slot. by replace (k =? j) with false by lia. Qed.

Lemma chunks_ext e s s' f m : (forall j, s' j = s j) -> chunks_ok e s f m -> chunks_ok e s' f m.
Proof.
  intros Hs [H1 H2 H3 H4]. constructor.
  - intros j k v. rewrite !Hs. apply H1.
  - intros j v. rewrite Hs. apply H2.
  - intros v Hv. destruct (H3 v Hv) as [? Hn]. split; [done|]. intros j. rewrite Hs. apply Hn.
  - intros v Hv. destruct (H4 v Hv) as [?|[j Hj]]; [by left|]. right. exists j. by rewrite Hs.
Qed.

Lemma in_use_ext s s' m id : (forall j, s' j = s j) -> in_use s' m id = in_use s m id.
Proof. intros Hs. unfold in_use. by rewrite Hs. Qed.

Lemma id_split id : id = id / 960 * 960 + id mod 960 /\ 0 <= id mod 960 < 960.
Proof. pose proof (Z.div_mod id 960 ltac:(lia)). pose proof (Z.mod_pos_bound id 960 ltac:(lia)). lia. Qed.

Lemma id_join j k : 0 <= k < 960 -> (j * 960 + k) / 960 = j /\ (j * 960 + k) mod 960 = k.
Proof.
  intros Hk. split; [rewrite Z.div_add_l, Z.div_small by lia; lia|].
  rewrite Z.add_comm, Z.mod_add, Z.mod_small by lia. done.
Qed.

Lemma in_use_bit s m j k v b : s j = Some v -> m !! v = Some b -> 0 <= k < 960 ->
  in_use s m (j * 960 + k) = Z.testbit (bits b) k.
Proof. intros Hs Hm Hk. unfold in_use. destruct (id_join j k Hk) as [-> ->]. by rewrite Hs, Hm. Qed.

Lemma in_use_range e s f m id : chunks_ok e s f m -> in_use s m id = true -> 0 <= id < 2 ^ 31.
Proof.
  intros Hok. unfold in_use. destruct (s (id / 960)) as [v|] eqn:Es; [|done].
  destruct (ck_slot _ _ _ _ Hok _ _ Es) as (Hj & b & -> & Hb & _). intros Hbit.
  destruct (bo_bits _ _ Hb _ Hbit) as [Hk Hid]. destruct (id_split id). lia.
Qed.

(** A chunk with an id in use is not empty. *)
Lemma chunks_settle e s f m v b k :
  chunks_ok e s f m -> s e = Some v -> m !! v = Some b -> Z.testbit (bits b) k = true -> chunks_ok (-1) s f m.
Proof.
  intros [H1 H2 H3 H4] He Hm Hk. constructor; try done. intros j w Hj.
  destruct (H2 j w Hj) as (Hj0 & b' & Hb' & Hok & Hz). split; [done|]. exists b'. split; [done|]. split; [done|].
  intros Hn. specialize (Hz Hn). subst j. rewrite He in Hj. injection Hj as <-. rewrite Hm in Hb'. injection Hb' as <-.
  by rewrite (proj1 (bitmap_zero _ _ Hok) Hn) in Hk.
Qed.

Lemma chunks_weaken e s f m : chunks_ok (-1) s f m -> chunks_ok e s f m.
Proof.
  intros [H1 H2 H3 H4]. constructor; try done. intros j v Hj. destruct (H2 j v Hj) as (Hj0 & b & Hb & Hok & Hz).
  split; [done|]. exists b. split; [done|]. split; [done|]. intros Hn. specialize (Hz Hn). lia.
Qed.

(** The bitmap in reserve is put in a slot. *)
Lemma chunks_create j s v m :
  chunks_ok (-1) s (Some v) m -> 0 <= j -> s j = None ->
  chunks_ok j (with_slot j (Some v) s) None (<[v := zero_bitmap]> m) /\
  forall id, in_use (with_slot j (Some v) s) (<[v := zero_bitmap]> m) id = in_use s m id.
Proof.
  intros [H1 H2 H3 H4] Hj Hn. destruct (H3 v eq_refl) as [Hv Hfresh].
  assert (forall k w, s k = Some w -> w <> v) as Hne by (intros k w Hk ->; by apply (Hfresh k)).
  split.
  - constructor; [| |done|].
    + intros a b w. unfold with_slot. destruct (Z.eqb_spec a j), (Z.eqb_spec b j); subst; try done.
      * intros [= <-] Hb. by destruct (Hne b v).
      * intros Ha [= <-]. by destruct (Hne a v).
      * apply H1.
    + intros a w. unfold with_slot. destruct (Z.eqb_spec a j) as [->|].
      * intros [= <-]. split; [done|]. exists zero_bitmap. rewrite lookup_insert_eq. split; [done|]. split; [|done].
        constructor; [|intros k; cbn; by rewrite Z.bits_0]. symmetry. apply (count_bits_zero 960). intros k _. apply Z.bits_0.
      * intros Ha. destruct (H2 a w Ha) as (Ha0 & b & Hb & Hok & Hz). split; [done|]. exists b.
        rewrite lookup_insert_ne by (by intros ->; destruct (Hne a w)). split; [done|]. split; [done|].
        intros Hb0. specialize (Hz Hb0). lia.
    + intros w. rewrite lookup_insert_is_Some'. intros Hw. right. destruct (decide (w = v)) as [->|Hwv].
      * exists j. apply with_slot_eq.
      * destruct Hw as [->|Hw]; [done|]. destruct (H4 w Hw) as [[= ->]|[a Ha]]; [done|]. exists a.
        rewrite with_slot_ne; [done|]. intros ->. congruence.
  - intros id. unfold in_use, with_slot. destruct (Z.eqb_spec (id / 960) j) as [->|].
    + rewrite lookup_insert_eq, Hn. apply Z.bits_0.
    + destruct (s (id / 960)) as [w|] eqn:Ew; [|done]. rewrite lookup_insert_ne; [done|].
      intros ->. by destruct (Hne (id / 960) w).
Qed.

(** Writing the bitmap of one chunk. *)
Lemma chunks_write e e' s f m j v b b' :
  chunks_ok e s f m -> s j = Some v -> m !! v = Some b -> bitmap_ok (j * 960) b' ->
  (nr_busy b' = 0 -> e' = j) -> (e = j \/ e = e' \/ e = -1) ->
  chunks_ok e' s f (<[v := b']> m) /\
  forall id, in_use s (<[v := b']> m) id = if id / 960 =? j then Z.testbit (bits b') (id mod 960) else in_use s m id.
Proof.
  intros [H1 H2 H3 H4] Hj Hm Hok Hz He. split.
  - constructor; [done| | |].
    + intros a w Ha. destruct (H2 a w Ha) as (Ha0 & c & Hc & Hokc & Hzc). split; [done|].
      destruct (decide (a = j)) as [->|Hne].
      * rewrite Hj in Ha. injection Ha as <-. exists b'. rewrite lookup_insert_eq. split; [done|]. split; [done|].
        intros H0. symmetry. by apply Hz.
      * exists c. rewrite lookup_insert_ne by (intros ->; by apply Hne, (H1 _ _ w)). split; [done|]. split; [done|].
        intros H0. specialize (Hzc H0). lia.
    + intros w Hw. destruct (H3 w Hw) as [Hi Hn]. split; [|done]. rewrite lookup_insert_is_Some'. by right.
    + intros w. rewrite lookup_insert_is_Some'. intros [<-|Hw]; [right; by exists j|by apply H4].
  - intros id. unfold in_use. destruct (Z.eqb_spec (id / 960) j) as [->|Hne]; [by rewrite Hj, lookup_insert_eq|].
    destruct (s (id / 960)) as [w|] eqn:Ew; [|done]. rewrite lookup_insert_ne; [done|].
    intros ->. by apply Hne, (H1 _ _ w).
Qed.

(** The empty chunk leaves its slot. *)
Lemma chunks_drop j s f m v b :
  chunks_ok j s f m -> s j = Some v -> m !! v = Some b -> nr_busy b = 0 ->
  chunks_ok (-1) (with_slot j None s) (match f with None => Some v | Some _ => f end)
    (match f with None => m | Some _ => delete v m end) /\
  forall id, in_use (with_slot j None s) (match f with None => m | Some _ => delete v m end) id = in_use s m id.
Proof.
  intros [H1 H2 H3 H4] Hj Hm Hz.
  assert (bitmap_ok (j * 960) b) as Hbok.
  { destruct (H2 j v Hj) as (_ & b' & Hb' & Hok & _). rewrite Hm in Hb'. by injection Hb' as <-. }
  assert (forall k w, k <> j -> s k = Some w -> w <> v) as Hne by (intros k w Hk Hw ->; by apply Hk, (H1 _ _ v)).
  set (m' := match f with None => m | Some _ => delete v m end).
  assert (forall w, w <> v -> m' !! w = m !! w) as Hm'.
  { intros w Hw. subst m'. destruct f; [by rewrite lookup_delete_ne|done]. }
  split.
  - constructor.
    + intros a c w. unfold with_slot. destruct (a =? j), (c =? j); try done. apply H1.
    + intros a w. unfold with_slot. destruct (Z.eqb_spec a j) as [->|Ha]; [done|]. intros Hw.
      destruct (H2 a w Hw) as (Ha0 & c & Hc & Hok & Hzc). split; [done|]. exists c. rewrite Hm' by (by apply (Hne a)).
      split; [done|]. split; [done|]. intros H0. specialize (Hzc H0). lia.
    + intros w Hw. destruct f as [u|].
      * injection Hw as <-. destruct (H3 u eq_refl) as [Hi Hn].
        assert (u <> v) by (intros ->; by apply (Hn j)). split; [by rewrite Hm'|].
        intros k. unfold with_slot. destruct (k =? j); [done|apply Hn].
      * injection Hw as <-. unfold m'. split; [by rewrite Hm|]. intros k. unfold with_slot. destruct (Z.eqb_spec k j); [done|].
        intros Hk. by destruct (Hne k v).
    + intros w Hw. destruct (decide (w = v)) as [->|Hwv].
      * left. destruct f; [|done]. unfold m' in Hw. rewrite lookup_delete_eq in Hw. by destruct Hw.
      * rewrite Hm' in Hw by done. destruct (H4 w Hw) as [->|[k Hk]]; [by left|]. right. exists k.
        rewrite with_slot_ne; [done|]. intros ->. congruence.
  - intros id. unfold in_use, with_slot. destruct (Z.eqb_spec (id / 960) j) as [->|Hk].
    + rewrite Hj, Hm. symmetry. by apply (bitmap_zero _ _ Hbok).
    + destruct (s (id / 960)) as [w|] eqn:Ew; [|done]. by rewrite Hm' by (by apply (Hne (id / 960))).
Qed.

Lemma next_zero_spec b n :
  0 <= n <= 960 ->
  n <= next_zero_of IDA_BITMAP_BITS b n <= 960 /\
  (forall k, n <= k < next_zero_of IDA_BITMAP_BITS b n -> Z.testbit b k = true) /\
  (next_zero_of IDA_BITMAP_BITS b n < 960 -> Z.testbit b (next_zero_of IDA_BITMAP_BITS b n) = false).
Proof. intros. apply (zero_bit_from_spec 960); [done|]. change (Z.of_nat (Z.to_nat IDA_BITMAP_BITS)) with 960. lia. Qed.

(** The chunk of the largest id. *)
Definition last_chunk : Z := 2236962.

Lemma last_not_full e s f m v : chunks_ok e s f m -> s last_chunk = Some v -> chunk_full m v = false.
Proof.
  intros Hok Hs. destruct (ck_slot _ _ _ _ Hok _ _ Hs) as (_ & b & Hb & Hbok & _).
  unfold chunk_full. rewrite Hb. destruct (nr_busy b =? IDA_BITMAP_BITS) eqn:E; [|done].
  destruct (bo_bits _ _ Hbok 959) as [_ H]; [|unfold last_chunk in H; lia].
  apply (proj1 (bitmap_full _ _ Hbok) E). lia.
Qed.

(** All ids of a full chunk are in use. *)
Lemma full_in_use e s f m v id :
  chunks_ok e s f m -> s (id / 960) = Some v -> chunk_full m v = true -> in_use s m id = true.
Proof.
  intros Hok Hs Hf. destruct (ck_slot _ _ _ _ Hok _ _ Hs) as (_ & b & Hb & Hbok & _).
  unfold in_use. rewrite Hs, Hb. unfold chunk_full in Hf. rewrite Hb in Hf.
  apply (proj1 (bitmap_full _ _ Hbok) Hf). apply id_split.
Qed.

Lemma free_not_full e s f m j v b k :
  chunks_ok e s f m -> s j = Some v -> m !! v = Some b -> 0 <= k < 960 -> Z.testbit (bits b) k = false ->
  chunk_full m v = false.
Proof.
  intros Hok Hs Hm Hk Hbit. destruct (chunk_full m v) eqn:E; [|done]. destruct (id_join j k Hk) as [E1 E2].
  pose proof (full_in_use _ _ _ _ v (j * 960 + k) Hok) as Hu. rewrite E1 in Hu. specialize (Hu Hs E).
  by rewrite (in_use_bit _ _ _ _ v b), Hbit in Hu.
Qed.

Lemma room_not_full e s f m j v b :
  chunks_ok e s f m -> s j = Some v -> m !! v = Some b -> chunk_full m v = false ->
  next_zero_of IDA_BITMAP_BITS (bits b) 0 < 960.
Proof.
  intros Hok Hs Hm Hf. destruct (next_zero_spec (bits b) 0 ltac:(lia)) as (H1 & H2 & _).
  destruct (decide (next_zero_of IDA_BITMAP_BITS (bits b) 0 = 960)) as [E|]; [|lia].
  destruct (ck_slot _ _ _ _ Hok _ _ Hs) as (_ & b' & Hb & Hbok & _). rewrite Hm in Hb. injection Hb as <-.
  unfold chunk_full in Hf. rewrite Hm in Hf. change IDA_BITMAP_BITS with 960 in Hf.
  rewrite (proj2 (bitmap_full _ _ Hbok)) in Hf; [done|]. intros k Hk. apply H2. lia.
Qed.

(** ** The search for a slot that exists *)

Section Present.
Context (lf : ptr -> bool).

Lemma below_not_full h N t L id : tree_ok lf h N t L no_hole -> full lf h N (-1) id = false ->
  forall l, -1 <= l -> full lf h N l (id / 64 ^ (l + 1)) = false.
Proof.
  intros Ht Hn l Hl. destruct (full lf h N l (id / 64 ^ (l + 1))) eqn:E; [|done].
  rewrite (full_below lf h N t L Ht (Z.to_nat (l + 1)) (id / 64 ^ (l + 1)) id) in Hn; [done|..];
    rewrite Z2Nat.id by lia; [|done]. by replace (l + 1 - 1) with l by lia.
Qed.

Lemma search_present i N t id q : tree_ok lf (heap i) N t (layers i) no_hole -> full lf (heap i) N (-1) id = false ->
  N !! (0, id / 64) = Some q -> 0 <= id < 2 ^ 31 -> forall fuel l p pa,
  N !! (l, id / 64 ^ (l + 1)) = Some p -> l < Z.of_nat fuel ->
  exists pa', sub_alloc_loop fuel pa p l id i = Some (Found id, pa', i).
Proof.
  intros Ht Hfree Hq Hid. induction fuel as [|fuel IH]; intros l p pa HN Hf;
    destruct (to_dom _ _ _ _ _ _ Ht _ _ _ HN) as [Hl _]; [lia|]. cbn [sub_alloc_loop].
  destruct (to_node _ _ _ _ _ _ Ht _ _ _ HN) as (lay & Hh & Hok). rewrite Hh. cbn [mbind option_bind].
  rewrite slot_of_digit by lia. pose proof (digit_range (id / 64 ^ l)) as Hd.
  destruct (find_next_zero_bit_spec (bitmap lay) ((id / 64 ^ l) mod 64) ltac:(lia)) as (F1 & F2 & _).
  assert (find_next_zero_bit (bitmap lay) ((id / 64 ^ l) mod 64) = (id / 64 ^ l) mod 64) as ->.
  { destruct (decide (find_next_zero_bit (bitmap lay) ((id / 64 ^ l) mod 64) = (id / 64 ^ l) mod 64)); [done|].
    specialize (F2 ((id / 64 ^ l) mod 64) ltac:(lia)). rewrite (no_bit _ _ _ _ _ _ _ Hok), prefix_down in F2 by lia.
    unfold bit in F2. pose proof (below_not_full _ _ _ _ id Ht Hfree (l - 1) ltac:(lia)) as Hnf.
    replace (l - 1 + 1) with l in Hnf by lia. by rewrite Hnf, andb_false_r in F2. }
  replace ((id / 64 ^ l) mod 64 =? IDR_SIZE) with false by (change IDR_SIZE with 64; lia). rewrite Z.eqb_refl.
  unfold u32. rewrite wrapu_small by lia. change MAX_ID_BIT with (2 ^ 31).
  replace (id >=? 2 ^ 31) with false by lia. replace (id <? 0) with false by lia. cbn [orb].
  destruct (decide (l = 0)) as [->|Hne]; [by eexists|]. replace (l =? 0) with false by lia.
  destruct (way_layer lf _ _ _ _ _ id q (l - 1) Ht Hq ltac:(lia)) as [r Hr]. replace (l - 1 + 1) with l in Hr by lia.
  assert (get_ary i p ((id / 64 ^ l) mod 64) = Some (Some r)) as ->.
  { unfold get_ary. rewrite Hh, (no_child _ _ _ _ _ _ _ Hok), prefix_down by lia. by rewrite Hr. }
  cbn [mbind option_bind]. apply IH; [by replace (l - 1 + 1) with l by lia|lia].
Qed.

Lemma get_empty_slot_present i N fl id v :
  idr_ok lf i N fl -> slot_at (heap i) N id = Some v -> lf v = false ->
  exists pa, idr_get_empty_slot id i = Some (Found id, pa, i).
Proof.
  intros [Hs [(_ & _ & ->)|(t & Htop & Ht)]] Hv Hlf; [unfold slot_at in Hv; by rewrite lookup_empty in Hv|].
  pose proof (to_levels _ _ _ _ _ _ Ht) as HL. change MAX_LEVEL with 6 in HL.
  pose proof (pow64_max (layers i) ltac:(lia)) as Hmax.
  assert (0 <= id < 64 ^ layers i) as Hid.
  { destruct (decide (0 <= id < 64 ^ layers i)) as [|Hn]; [done|]. by rewrite (slot_at_out lf _ _ _ _ _ _ Ht Hn) in Hv. }
  assert (is_Some (N !! (0, id / 64))) as [q Hq]. { unfold slot_at in Hv. by destruct (N !! (0, id / 64)). }
  unfold idr_get_empty_slot. cbn [build_up]. rewrite Htop. cbn [mbind option_bind grow_loop].
  rewrite (Z.mul_comm (layers i)), shiftl_digits by lia.
  replace (id >=? 64 ^ layers i) with false by lia. rewrite andb_false_r. cbn [mbind option_bind].
  assert (set_layers (layers i) (set_top (Some t) i) = i) as -> by (rewrite <- Htop; by destruct i).
  unfold sub_alloc. rewrite Htop. cbn [mbind option_bind].
  destruct (search_present i N t id q Ht ltac:(by rewrite full_slot, Hv) Hq ltac:(lia) sub_alloc_fuel (layers i - 1) t
    (delete (layers i) ∅)) as [pa E].
  - replace (layers i - 1 + 1) with (layers i) by lia. rewrite Z.div_small by lia. apply Ht.
  - change (Z.of_nat sub_alloc_fuel) with 49. lia.
  - rewrite E. by exists pa.
Qed.
End Present.

(** ** The invariant of an IDA *)

Abbreviation slots a N := (slot_at (heap (ida_idr a)) N) (only parsing).

(** Only the chunk [e] may be empty. *)
Definition ida_inv (e : Z) (a : ida) (N : nodes) (fl : list ptr) : Prop :=
  idr_ok (chunk_full (bitmaps a)) (ida_idr a) N fl /\ chunks_ok e (slots a N) (ida_free a) (bitmaps a).

Definition used_id (a : ida) (N : nodes) (id : Z) : bool := in_use (slots a N) (bitmaps a) id.

(** Another tree with the same slots. *)
Lemma ida_retree e a N fl i' N' fl' :
  ida_inv e a N fl -> idr_ok (chunk_full (bitmaps a)) i' N' fl' ->
  (forall j, slot_at (heap i') N' j = slots a N j) ->
  ida_inv e (set_ida_idr i' a) N' fl' /\ forall id, used_id (set_ida_idr i' a) N' id = used_id a N id.
Proof.
  intros [_ Hc] Hok Hs. split; [|intros id; by apply in_use_ext]. split; [done|]. by apply (chunks_ext _ (slots a N)).
Qed.

(** A hole where nothing is full. *)
Lemma hole_open lf h N t L l x :
  tree_ok lf h N t L no_hole -> full lf h N l x = false -> tree_ok lf h N t L (hole_at l x).
Proof.
  intros [H1 H2 H3 H4 H5 H6] Hf. constructor; try done. intros k y p HN.
  destruct (H5 k y p HN) as (lay & Hh & [N1 N2 N3 N4 N5 N6]). exists lay. split; [done|].
  constructor; try done. intros n Hn. rewrite N6 by done. unfold bit.
  destruct (decide ((k - 1, 64 * y + n) = (l, x))) as [[= -> ->]|Hne]; [by rewrite Hf, !andb_false_r|].
  by rewrite hole_at_ne.
Qed.

(** The leaf of a slot. *)
Lemma leaf_of lf i N fl j p :
  idr_ok lf i N fl -> N !! (0, j / 64) = Some p ->
  exists t lay, top i = Some t /\ tree_ok lf (heap i) N t (layers i) no_hole /\ heap i !! p = Some lay /\
    get_ary i p (Z.land j IDR_MASK) = Some (slot_at (heap i) N j).
Proof.
  intros [_ [(_ & _ & ->)|(t & Htop & Ht)]] HN; [by rewrite lookup_empty in HN|].
  destruct (to_node _ _ _ _ _ _ Ht _ _ _ HN) as (lay & Hh & Hok). exists t, lay. do 3 (split; [done|]).
  unfold get_ary, slot_at. rewrite HN, Hh, land_mask. pose proof (digit_range j).
  destruct (lookup_lt_is_Some_2 (ary lay) (Z.to_nat (j mod 64))) as [u Hu]; [|by rewrite Hu].
  rewrite (no_ary _ _ _ _ _ _ _ Hok). lia.
Qed.

Lemma slot_bitmap_spec a N fl j p :
  ida_inv (-1) a N fl -> 0 <= j -> N !! (0, j / 64) = Some p ->
  exists o a', slot_bitmap p j a = Some (o, a') /\ ida_inv j a' N fl /\
    (forall id, used_id a' N id = used_id a N id) /\ top (ida_idr a') = top (ida_idr a) /\
    layers (ida_idr a') = layers (ida_idr a) /\
    match o with
    | Some b => slots a' N j = Some b /\ (is_Some (slots a N j) -> a' = a)
    | None => a' = a /\ ida_free a = None
    end.
Proof.
  intros [Hok Hc] Hj HN. destruct (leaf_of _ _ _ _ _ _ Hok HN) as (t & lay & Htop & Ht & Hh & Hary).
  unfold slot_bitmap. rewrite Hary. cbn [mbind option_bind].
  destruct (slots a N j) as [b|] eqn:Es.
  { exists (Some b), a. split; [done|]. split; [split; [done|by apply chunks_weaken]|done]. }
  destruct (ida_free a) as [b|] eqn:Ef.
  2: { exists None, a. split; [done|]. split; [split; [done|apply chunks_weaken; by rewrite Ef]|done]. }
  destruct (ck_free _ _ _ _ Hc b eq_refl) as [[m Hm] Hfresh].
  unfold store_bitmap. cbn [bitmaps set_ida_free]. rewrite Hm. cbn [mbind option_bind ida_idr set_bitmaps set_ida_free bitmaps].
  rewrite land_mask, (update_spec _ _ _ lay Hh). cbn [mbind option_bind].
  rewrite (update_spec _ _ _ (set_ary (j mod 64) (Some b) lay)) by apply lookup_insert_eq.
  cbn [mbind option_bind heap set_heap]. rewrite insert_insert_eq.
  destruct (leaf_store _ _ N t _ j p lay b Ht HN Hh Es) as [Ht1 Hs1]. cbn in Ht1, Hs1.
  destruct (chunks_create j (slots a N) b (bitmaps a) Hc Hj Es) as [Hc1 Hu1].
  eexists (Some b), _. split; [done|]. cbn.
  assert (chunk_full (<[b := zero_bitmap]> (bitmaps a)) b = false) as Hz by (unfold chunk_full; by rewrite lookup_insert_eq).
  split; [split|].
  - cbn. split; [by apply (spare_write (ida_idr a) N fl [] (0, j / 64)); [apply Hok|done|rewrite Hh]|].
    right. exists t. split; [done|]. apply (hole_close _ _ _ _ _ (-1) j); [|left; by rewrite full_slot, Hs1, Z.eqb_refl].
    apply (tree_refull (chunk_full (bitmaps a))); [|done]. intros k v Hk Hhole. rewrite Hs1 in Hk.
    destruct (Z.eqb_spec k j) as [->|Hne]; [by rewrite hole_at_eq in Hhole|].
    unfold chunk_full. rewrite lookup_insert_ne; [done|]. intros ->. by apply (Hfresh k).
  - cbn. by apply (chunks_ext _ (with_slot j (Some b) (slots a N))).
  - split; [|do 2 (split; [done|]); rewrite Hs1, Z.eqb_refl; split; [done|by intros []]]. intros id. unfold used_id. cbn.
    rewrite <- Hu1. by apply in_use_ext.
Qed.

(** Taking an id of a chunk. *)
Definition take_id (pa : gmap Z ptr) (j k : Z) (b : ptr) (m : ida_bitmap) (a : ida) : option ida :=
  a ← store_bitmap b (busy_bit k) a;
  i ← (if nr_busy m + 1 =? IDA_BITMAP_BITS then idr_mark_full pa j (ida_idr a) else Some (ida_idr a));
  Some (set_ida_idr i a).

Lemma chunk_full_write m v b w : chunk_full (<[v := b]> m) w = if decide (w = v) then nr_busy b =? 960 else chunk_full m w.
Proof.
  unfold chunk_full. destruct (decide (w = v)) as [->|]; [by rewrite lookup_insert_eq|by rewrite lookup_insert_ne].
Qed.

(** Marking the chunk [j], which became full, in the tree. *)
Lemma mark_chunk lf lf' i N fl pa j b p :
  idr_ok lf i N fl -> path_full N pa (layers i) j -> N !! (0, j / 64) = Some p -> slot_at (heap i) N j = Some b ->
  lf b = false -> lf' b = true -> (forall k v, k <> j -> slot_at (heap i) N k = Some v -> lf' v = lf v) ->
  exists i', idr_mark_full pa j i = Some i' /\ idr_ok lf' i' N fl /\
    forall k, slot_at (heap i') N k = slot_at (heap i) N k.
Proof.
  intros Hok Hpa HN Hs Hb Hb' Hlf. destruct (leaf_of _ _ _ _ _ _ Hok HN) as (t & lay & Htop & Ht & Hh & _).
  pose proof (to_levels _ _ _ _ _ _ Ht) as HL.
  destruct (idr_mark_full_spec lf' pa j i N t (layers i) lay p)
    as (i' & E & R1 & R2 & R3 & R4 & R5 & R6 & R7 & R8); [|done|done|done|by rewrite full_slot, Hs|lia|].
  - apply (tree_refull lf); [|apply hole_open; [done|by rewrite full_slot, Hs]]. intros k v Hk Hhole.
    apply (Hlf k); [|done]. intros ->. by rewrite hole_at_eq in Hhole.
  - exists i'. split; [done|]. split; [|done]. split; [|right; exists t; by rewrite R3, R4].
    unfold idr_spare. rewrite R5, R6. apply (spare_frame (heap i)); [apply Hok|done|done].
Qed.

Lemma take_id_spec a N fl pa j k b m p :
  ida_inv j a N fl -> path_full N pa (layers (ida_idr a)) j -> N !! (0, j / 64) = Some p ->
  slots a N j = Some b -> bitmaps a !! b = Some m -> 0 <= k < 960 -> j * 960 + k < 2 ^ 31 ->
  Z.testbit (bits m) k = false ->
  exists a', take_id pa j k b m a = Some a' /\ ida_inv (-1) a' N fl /\
    forall id, used_id a' N id = (id =? j * 960 + k) || used_id a N id.
Proof.
  intros [Hok Hc] Hpa HN Hs Hm Hk Hid Hbit. unfold take_id, store_bitmap. rewrite Hm. cbn [mbind option_bind set_bitmaps ida_idr].
  destruct (ck_slot _ _ _ _ Hc _ _ Hs) as (_ & m' & Hm' & Hbok & _). rewrite Hm in Hm'. injection Hm' as <-.
  pose proof (bitmap_set _ _ k Hbok Hk Hid Hbit) as Hbok'.
  destruct (chunks_write j (-1) _ _ _ j b m (busy_bit k m) Hc Hs Hm Hbok') as [Hc' Hu'].
  { intros H0. pose proof (proj1 (bitmap_zero _ _ Hbok') H0 k) as H1. cbn in H1. rewrite Z.setbit_eq in H1; [done|lia]. }
  { by left. }
  pose proof (free_not_full _ _ _ _ _ _ _ _ Hc Hs Hm Hk Hbit) as Hnf.
  assert (forall id, in_use (slots a N) (<[b:=busy_bit k m]> (bitmaps a)) id = (id =? j * 960 + k) || used_id a N id) as Hu.
  { intros id. rewrite Hu'. destruct (id_split id) as [Hid1 Hid2]. destruct (Z.eqb_spec (id / 960) j) as [Ej|Ej].
    - unfold used_id, in_use. rewrite Ej, Hs, Hm. cbn. destruct (Z.eqb_spec id (j * 960 + k)) as [E|E].
      + replace (id mod 960) with k by lia. by rewrite Z.setbit_eq by lia.
      + rewrite Z.setbit_neq by lia. done.
    - replace (id =? j * 960 + k) with false by lia. done. }
  assert (forall l v, l <> j -> slots a N l = Some v -> chunk_full (<[b:=busy_bit k m]> (bitmaps a)) v = chunk_full (bitmaps a) v) as Hlf.
  { intros l v Hl Hv. rewrite chunk_full_write. destruct (decide (v = b)) as [->|]; [|done].
    destruct Hl. by apply (ck_inj _ _ _ _ Hc _ _ b). }
  change IDA_BITMAP_BITS with 960. destruct (nr_busy m + 1 =? 960) eqn:Efull.
  - destruct (mark_chunk (chunk_full (bitmaps a)) (chunk_full (<[b:=busy_bit k m]> (bitmaps a))) (ida_idr a) N fl pa j b p)
      as (i' & E & Hok' & Hs'); [done..| |done|].
    { rewrite chunk_full_write. destruct (decide (b = b)); [done|done]. }
    rewrite E. eexists. split; [done|]. split; [split; cbn; [done|by apply (chunks_ext _ (slots a N))]|].
    intros id. unfold used_id at 1. cbn. rewrite <- Hu. by apply in_use_ext.
  - eexists. split; [done|]. split; [split; cbn; [|done]|exact Hu]. apply (idr_refull (chunk_full (bitmaps a))); [|done].
    intros l v Hv. destruct (decide (l = j)) as [->|]; [|by apply (Hlf l)]. rewrite Hs in Hv. injection Hv as <-.
    rewrite chunk_full_write. destruct (decide (b = b)); [|done]. by rewrite Hnf.
Qed.

Lemma drop_spare_spec e a N fl :
  ida_inv e a N fl ->
  exists a' fl', drop_spare a = Some a' /\ ida_inv e a' N fl' /\ forall id, used_id a' N id = used_id a N id.
Proof.
  intros Hinv. pose proof Hinv as [[Hs Ht] Hc]. unfold drop_spare.
  assert (exists i' fl', ('(p, i) ← get_from_free_list (ida_idr a);
      Some (set_ida_idr (match p with Some p => free_layer p i | None => i end) a)) = Some (set_ida_idr i' a) /\
      idr_ok (chunk_full (bitmaps a)) i' N fl' /\ forall j, slot_at (heap i') N j = slots a N j) as (i' & fl' & E & Hok & Hsl).
  { pose proof (get_from_free_list_spec (ida_idr a) N fl [] Hs) as G. destruct fl as [|p fl].
    - rewrite G. by exists (ida_idr a), [].
    - destruct (drop_one _ _ _ _ _ (conj Hs Ht)) as (i1 & G1 & Hok1 & Hs1). rewrite G1. cbn [mbind option_bind].
      by exists (free_layer p i1), fl. }
  destruct (ida_retree e a N fl i' N fl' Hinv Hok Hsl) as [H1 H2].
  destruct (id_free_cnt (ida_idr a) =? 0), (ida_free a); try (rewrite E; by eauto). by exists a, fl.
Qed.

(** ** Allocation *)

(** What an allocation from [start] does to the ids in use [u]; [short]: there
    was too little in reserve. *)
Definition alloc_outcome (u : Z -> bool) (short : Prop) (start err id : Z) (u' : Z -> bool) : Prop :=
  (err = 0 /\ start <= id < 2 ^ 31 /\ u id = false /\ (forall j, start <= j < id -> u j = true) /\
    forall j, u' j = (j =? id) || u j) \/
  (err = - ENOSPC /\ (forall j, start <= j < 2 ^ 31 -> u j = true) /\ forall j, u' j = u j) \/
  (err = - EAGAIN /\ short /\ forall j, u' j = u j).

Definition short_of (a : ida) : Prop := id_free_cnt (ida_idr a) < 10 \/ ida_free a = None.

(** The chunk the search gives. *)
Definition chunk_found (a : ida) (N : nodes) (j : Z) (r : alloc_result) (pa : gmap Z ptr) (i' : idr) (N' : nodes) : Prop :=
  match r with
  | Found t =>
      j <= t <= last_chunk /\ (forall id, j * 960 <= id < t * 960 -> used_id a N id = true) /\
      (forall v, slots a N t = Some v -> chunk_full (bitmaps a) v = false) /\
      path_full N' pa (layers i') t /\ exists p, N' !! (0, t / 64) = Some p /\ pa !! 0 = Some p
  | NoLayer => id_free_cnt (ida_idr a) < 10
  | _ => False
  end.

Lemma search_chunk a N fl j :
  ida_inv (-1) a N fl -> 0 <= j <= last_chunk ->
  exists r pa i' N' fl', idr_get_empty_slot j (ida_idr a) = Some (r, pa, i') /\ ida_inv (-1) (set_ida_idr i' a) N' fl' /\
    (forall k, slot_at (heap i') N' k = slots a N k) /\ chunk_found a N j r pa i' N'.
Proof.
  intros Hinv Hj. pose proof Hinv as [Hok Hc].
  assert (0 <= layers (ida_idr a)) as HL0.
  { destruct Hok as [_ [(_ & -> & _)|(t & _ & Ht)]]; [done|]. pose proof (to_levels _ _ _ _ _ _ Ht). lia. }
  assert (full (chunk_full (bitmaps a)) (heap (ida_idr a)) N (-1) last_chunk = false) as Hlast.
  { rewrite full_slot. destruct (slots a N last_chunk) as [v|] eqn:E; [|done]. by apply (last_not_full _ _ _ _ _ Hc). }
  destruct (build_up_spec (chunk_full (bitmaps a)) (S (Z.to_nat MAX_LEVEL)) (ida_idr a) N fl j ∅ Hok)
    as (r & pa & i' & N' & fl' & t & E & Hok' & Hs & Hr).
  { unfold last_chunk in *. lia. }
  { exists last_chunk. split; [unfold last_chunk in *; lia|done]. }
  { change (Z.of_nat (S (Z.to_nat MAX_LEVEL))) with 7. case_if; lia. }
  exists r, pa, i', N', fl'. split; [done|]. split; [by apply (ida_retree (-1) a N fl)|]. split; [done|].
  destruct r as [id|id| |]; cbn [slot_found chunk_found] in *; [|done..|rewrite (sp_cnt _ _ _ _ _ _ (proj1 Hok)); lia].
  destruct Hr as (Hid & Hfree & Htaken & Htop & Hpa). apply path_ok_full in Hpa.
  split; [split; [lia|]|].
  { destruct (decide (id <= last_chunk)) as [|Hn]; [done|]. rewrite (Htaken last_chunk) in Hlast by lia. done. }
  split.
  { intros k Hk. assert (j <= k / 960 < id) as Hk2 by (split; [apply Z.div_le_lower_bound|apply Z.div_lt_upper_bound]; lia).
    specialize (Htaken _ Hk2). rewrite full_slot in Htaken. destruct (slots a N (k / 960)) as [v|] eqn:Ev; [|done].
    by apply (full_in_use _ _ _ _ v k Hc). }
  split; [intros v Hv; by rewrite full_slot, Hv in Hfree|]. split; [done|].
  destruct Hok' as [_ [(? & _)|(t' & _ & Ht)]]; [congruence|]. pose proof (to_levels _ _ _ _ _ _ Ht) as HL.
  destruct (proj1 Hpa 0 ltac:(lia)) as [[p Hp] HN]. exists p. rewrite Hp in HN. split; [by symmetry|done].
Qed.

Lemma u32_s32 x : 0 <= x < 2 ^ 32 -> u32 (s32 x) = x.
Proof.
  intros Hx. unfold u32, s32. destruct (decide (x < 2 ^ 31)).
  - rewrite wraps_small by lia. apply wrapu_small. lia.
  - replace x with (x - 2 ^ 32 + 1 * 2 ^ 32) at 1 by lia. rewrite wraps_shift, wraps_small by lia.
    replace (x - 2 ^ 32) with (x + (-1) * 2 ^ 32) by lia. rewrite wrapu_shift by lia. apply wrapu_small. lia.
Qed.

(** The id in the chunk. *)
Lemma pick_id a N fl pa j k b m p u short start :
  ida_inv j a N fl -> path_full N pa (layers (ida_idr a)) j -> N !! (0, j / 64) = Some p ->
  slots a N j = Some b -> bitmaps a !! b = Some m -> 0 <= j -> 0 <= k < 960 -> j * 960 + k < 2 ^ 31 ->
  next_zero_of IDA_BITMAP_BITS (bits m) k < 960 -> (forall id, used_id a N id = u id) ->
  start <= j * 960 + k -> (forall id, start <= id < j * 960 + k -> u id = true) ->
  exists err id a' fl',
    (let t := next_zero_of IDA_BITMAP_BITS (bits m) k in
     let id := s32 (j * IDA_BITMAP_BITS + t) in
     if u32 id >=? MAX_ID_BIT then Some (- ENOSPC, 0, a)
     else
       a ← store_bitmap b (busy_bit t) a;
       i ← (if nr_busy m + 1 =? IDA_BITMAP_BITS then idr_mark_full pa j (ida_idr a) else Some (ida_idr a));
       a ← drop_spare (set_ida_idr i a);
       Some (0, id, a)) = Some (err, id, a') /\ ida_inv (-1) a' N fl' /\
    alloc_outcome u short start err id (used_id a' N).
Proof.
  intros Hinv Hpa HN Hs Hm Hj Hk Hid Hz Hu Hst Hbelow.
  destruct (next_zero_spec (bits m) k ltac:(lia)) as (Z1 & Z2 & Z3). set (t := next_zero_of _ _ k) in *. cbv zeta.
  change IDA_BITMAP_BITS with 960. change MAX_ID_BIT with (2 ^ 31).
  assert (forall id, j * 960 + k <= id < j * 960 + t -> u id = true) as Hskip.
  { intros id Hi. rewrite <- Hu. replace id with (j * 960 + (id - j * 960)) by lia. unfold used_id.
    rewrite (in_use_bit _ _ _ _ b m) by (done || lia). apply Z2. lia. }
  assert (u32 (s32 (j * 960 + t)) = j * 960 + t) as Hw by (apply u32_s32; lia).
  rewrite Hw. destruct (j * 960 + t >=? 2 ^ 31) eqn:E; zbool.
  - exists (- ENOSPC), 0, a, fl. split; [done|]. split.
    { split; [apply Hinv|]. apply (chunks_settle j _ _ _ b m k); [apply Hinv|done|done|]. apply Z2. lia. }
    right. left. split; [done|]. split; [|done]. intros i Hi. destruct (decide (i < j * 960 + k)); [apply Hbelow; lia|].
    apply Hskip. lia.
  - unfold s32. rewrite wraps_small by lia.
    destruct (take_id_spec a N fl pa j t b m p Hinv Hpa HN Hs Hm) as (a1 & E1 & Hinv1 & Hu1); [lia|lia|by apply Z3|].
    destruct (drop_spare_spec (-1) a1 N fl Hinv1) as (a2 & fl2 & E2 & Hinv2 & Hu2).
    unfold take_id in E1. destruct (store_bitmap b (busy_bit t) a) as [a0|]; [|done]. cbn [mbind option_bind] in *.
    change IDA_BITMAP_BITS with 960 in E1. destruct (if nr_busy m + 1 =? 960 then _ else _) as [i0|]; [|done].
    cbn [mbind option_bind] in *. injection E1 as ->. rewrite E2. cbn [mbind option_bind].
    exists 0, (j * 960 + t), a2, fl2. split; [done|]. split; [done|]. left. split; [done|]. split; [lia|]. split; [|split].
    + rewrite <- Hu. unfold used_id. rewrite (in_use_bit _ _ _ _ b m) by (done || lia). apply Z3. lia.
    + intros i Hi. destruct (decide (i < j * 960 + k)); [apply Hbelow; lia|]. apply Hskip. lia.
    + intros i. by rewrite Hu2, Hu1, Hu.
Qed.

Lemma outcome_skip u short start start' err id u' :
  start <= start' -> (forall j, start <= j < start' -> u j = true) -> alloc_outcome u short start' err id u' ->
  alloc_outcome u short start err id u'.
Proof.
  intros Hle Hskip [(-> & H1 & H2 & H3 & H4)|[(-> & H1 & H2)|H]]; [left|right; left|by right; right].
  - split; [done|]. split; [lia|]. split; [done|]. split; [|done]. intros j Hj.
    destruct (decide (j < start')); [apply Hskip|apply H3]; lia.
  - split; [done|]. split; [|done]. intros j Hj. destruct (decide (j < start')); [apply Hskip|apply H1]; lia.
Qed.

(** No id is left in the chunk behind the offset: it was there before and the
    search has changed nothing. *)
Lemma restart_same a N fl j k pa i' N' b m :
  ida_inv (-1) a N fl -> 0 <= j -> 0 <= k < 960 ->
  idr_get_empty_slot j (ida_idr a) = Some (Found j, pa, i') -> (forall l, slot_at (heap i') N' l = slots a N l) ->
  (forall v, slots a N j = Some v -> chunk_full (bitmaps a) v = false) ->
  slots a N j = Some b -> bitmaps a !! b = Some m -> next_zero_of IDA_BITMAP_BITS (bits m) k = 960 ->
  i' = ida_idr a /\ (j + 1) * 960 < 2 ^ 31 /\ forall id, j * 960 + k <= id < (j + 1) * 960 -> used_id a N id = true.
Proof.
  intros [Hok Hc] Hj Hk E Hsame Hnf Hs Hm Hz.
  destruct (get_empty_slot_present _ _ _ _ j b Hok Hs (Hnf _ Hs)) as [pa' E']. rewrite E in E'. injection E' as <- <-.
  split; [done|]. destruct (next_zero_spec (bits m) k ltac:(lia)) as (_ & Z2 & _). rewrite Hz in Z2. split.
  - destruct (ck_slot _ _ _ _ Hc _ _ Hs) as (_ & m' & Hm' & Hbok & _). rewrite Hm in Hm'. injection Hm' as <-.
    destruct (bo_bits _ _ Hbok 959 (Z2 959 ltac:(lia))). lia.
  - intros id Hid. replace id with (j * 960 + (id - j * 960)) by lia. unfold used_id.
    rewrite (in_use_bit _ _ _ _ b m) by (done || lia). apply Z2. lia.
Qed.

Lemma alloc_loop_spec fuel : forall j k a N fl,
  ida_inv (-1) a N fl -> 0 <= j -> 0 <= k < 960 -> j * 960 + k < 2 ^ 31 ->
  (if k =? 0 then 1 else 2) <= Z.of_nat fuel ->
  exists err id a' N' fl', ida_alloc_loop fuel j k a = Some (err, id, a') /\ ida_inv (-1) a' N' fl' /\
    alloc_outcome (used_id a N) (short_of a) (j * 960 + k) err id (used_id a' N').
Proof.
  induction fuel as [|fuel IH]; intros j k a N fl Hinv Hj Hk Hid Hf; [destruct (k =? 0); lia|]. cbn [ida_alloc_loop].
  destruct (search_chunk a N fl j Hinv) as (r & pa & i' & N' & fl' & E & Hinv1 & Hs1 & Hr); [unfold last_chunk; lia|].
  rewrite E. cbn [mbind option_bind]. set (a1 := set_ida_idr i' a) in *.
  assert (forall id, used_id a1 N' id = used_id a N id) as Hu1 by (intros id; by apply in_use_ext).
  destruct r as [t|t| |]; cbn [chunk_found] in Hr; [|done..|].
  2: { exists (- EAGAIN), 0, a1, N', fl'. split; [done|]. split; [done|]. right. right. split; [done|]. by split; [left|]. }
  destruct Hr as (Ht & Hbelow & Hnf & Hpa & p & HN & Hp0). rewrite Hp0. cbn [mbind option_bind].
  replace (t * IDA_BITMAP_BITS >=? MAX_ID_BIT) with false
    by (change MAX_ID_BIT with (2 ^ 31); change IDA_BITMAP_BITS with 960; unfold last_chunk in *; lia).
  destruct (slot_bitmap_spec a1 N' fl' t p Hinv1 ltac:(lia) HN) as (o & a2 & E2 & Hinv2 & Hu2 & Htop2 & Hlay2 & Ho).
  rewrite E2. cbn [mbind option_bind]. destruct o as [b|].
  2: { destruct Ho as [-> Hfree]. exists (- EAGAIN), 0, a1, N', fl'. split; [done|]. split; [done|]. right. right.
       split; [done|]. split; [by right|done]. }
  destruct Ho as [Hsb Hsame]. destruct (ck_slot _ _ _ _ (proj2 Hinv2) _ _ Hsb) as (_ & m & Hm & _). rewrite Hm.
  cbn [mbind option_bind]. set (k' := if t =? j then k else 0).
  assert (0 <= k' < 960 /\ j * 960 + k <= t * 960 + k' < 2 ^ 31 /\
    forall id, j * 960 + k <= id < t * 960 + k' -> used_id a N id = true) as (Hk' & Hst & Hlow).
  { subst k'. destruct (Z.eqb_spec t j) as [->|]; [split; [done|]; split; [lia|intros; lia]|]. unfold last_chunk in *.
    split; [lia|]. split; [lia|]. intros id Hi. apply Hbelow. lia. }
  destruct (next_zero_spec (bits m) k' ltac:(lia)) as (Z1 & Z2 & Z3).
  destruct (next_zero_of IDA_BITMAP_BITS (bits m) k' =? IDA_BITMAP_BITS) eqn:Ez; zbool; change IDA_BITMAP_BITS with 960 in Ez at 2.
  - assert (is_Some (slots a1 N' t)) as His.
    { specialize (Z2 k' ltac:(lia)). rewrite <- (in_use_bit _ _ _ _ _ _ Hsb Hm Hk') in Z2.
      fold (used_id a2 N' (t * 960 + k')) in Z2. rewrite Hu2 in Z2. unfold used_id, in_use in Z2.
      destruct (id_join t k' Hk') as [E3 _]. rewrite E3 in Z2. by destruct (slots a1 N' t). }
    rewrite (Hsame His) in *. clear Hsame E2 Hu2 Htop2 Hlay2. change (bitmaps a1) with (bitmaps a) in *.
    assert (slots a N t = Some b) as Hsa by (by rewrite <- Hs1).
    assert (t = j /\ k <> 0) as [-> Hk0].
    { assert (k' <> 0) as Hk0; [|subst k'; destruct (Z.eqb_spec t j); [done|done]]. intros E0. rewrite E0 in Ez.
      pose proof (room_not_full _ _ _ _ _ _ _ (proj2 Hinv) Hsa Hm (Hnf _ Hsa)). lia. }
    subst k'. rewrite Z.eqb_refl in *.
    destruct (restart_same a N fl j k pa i' N' b m Hinv Hj Hk E Hs1 Hnf Hsa Hm Ez) as (-> & Hlt & Hrest).
    assert (a1 = a) as -> by (subst a1; by destruct a). unfold s32. rewrite wraps_small by lia.
    destruct (IH (j + 1) 0 a N fl Hinv) as (err & id & a' & N2 & fl2 & E4 & Hinv4 & Ho); [lia|lia|lia| |].
    { replace (k =? 0) with false in Hf by lia. rewrite Z.eqb_refl. lia. }
    exists err, id, a', N2, fl2. split; [done|]. split; [done|]. rewrite Z.add_0_r in Ho.
    by apply (outcome_skip _ _ _ ((j + 1) * 960)); [lia|..].
  - destruct (pick_id a2 N' fl' pa t k' b m p (used_id a N) (short_of a) (j * 960 + k))
      as (err & id & a' & fl2 & E4 & Hinv4 & Ho); [done|by rewrite Hlay2|done..|lia|done|lia|lia|intros id; by rewrite Hu2|lia|done|].
    cbv zeta in E4. rewrite E4. by exists err, id, a', N', fl2.
Qed.

(** ** Removal *)

Lemma ida_down_eq fuel : forall shift id p i paa,
  ida_down fuel shift id p i = '(_, p, i) ← remove_down fuel shift id paa p i; Some (p, i).
Proof.
  induction fuel as [|fuel IH]; intros shift id p i paa; [done|]. cbn [ida_down remove_down].
  destruct p as [q|]; [|done]. destruct (shift >? 0); [|done]. destruct (update q _ i) as [i1|]; [|done].
  cbn [mbind option_bind]. destruct (get_ary i1 q _) as [next|]; [|done]. cbn [mbind option_bind]. apply IH.
Qed.

(** The tree after the walk down to chunk [j]: its bits on the way are clear. *)
Record way_open (lf : ptr -> bool) (i : idr) (N : nodes) (fl : list ptr) (t : ptr) (j : Z) (p : ptr) (lay : idr_layer) : Prop := {
  wo_tree : tree_ok lf (heap i) N t (layers i) (path_hole j (-1));
  wo_top : top i = Some t;
  wo_spare : idr_spare i N fl [];
  wo_leaf : N !! (0, j / 64) = Some p;
  wo_layer : heap i !! p = Some lay;
  wo_range : 0 <= j < 64 ^ layers i
}.

Lemma way_close lf i N fl t j p lay :
  way_open lf i N fl t j p lay -> full lf (heap i) N (-1) j = false -> idr_ok lf i N fl.
Proof.
  intros [W1 W2 W3 W4 W5 W6] Hf. split; [done|]. right. exists t. split; [done|].
  apply (path_hole_close _ _ _ _ _ j (-1) W1); [lia|]. change (-1 + 1) with 0. by rewrite Z.pow_0_r, Z.div_1_r.
Qed.

Lemma way_refull lf lf' i N fl t j p lay :
  (forall k v, k <> j -> slot_at (heap i) N k = Some v -> lf' v = lf v) ->
  way_open lf i N fl t j p lay -> way_open lf' i N fl t j p lay.
Proof.
  intros Hlf [W1 W2 W3 W4 W5 W6]. constructor; try done. apply (tree_refull lf); [|done].
  intros k v Hk Hhole. apply (Hlf k); [|done]. intros ->. unfold path_hole in Hhole. change (-1 + 1) with 0 in Hhole.
  by rewrite Z.pow_0_r, Z.div_1_r, Z.eqb_refl in Hhole.
Qed.

Lemma ida_walk a N fl j :
  ida_inv (-1) a N fl -> 0 <= j < 64 ^ layers (ida_idr a) ->
  exists p i, ida_down (S (Z.to_nat MAX_LEVEL)) ((layers (ida_idr a) - 1) * IDR_BITS) j (top (ida_idr a)) (ida_idr a)
      = Some (p, i) /\ p = N !! (0, j / 64) /\ (forall k, slot_at (heap i) N k = slots a N k) /\
    match p with
    | None => slots a N j = None /\ idr_ok (chunk_full (bitmaps a)) i N fl
    | Some q => exists t i2 lay, update q (clear_bit (Z.land j IDR_MASK)) i = Some i2 /\
        (forall k, slot_at (heap i2) N k = slots a N k) /\ way_open (chunk_full (bitmaps a)) i2 N fl t j q lay
    end.
Proof.
  intros [[Hs Htree] Hc] Hj. rewrite (ida_down_eq _ _ _ _ _ [TopSlot]).
  destruct Htree as [(Htop & HL & ->)|(t & Htop & Ht)]; rewrite Htop.
  { rewrite HL. exists None, (ida_idr a). split; [done|]. split; [done|]. split; [done|].
    unfold slot_at at 1. rewrite lookup_empty. split; [done|]. split; [done|]. by left. }
  pose proof (to_levels _ _ _ _ _ _ Ht) as HL. change MAX_LEVEL with 6 in HL. rewrite (Z.mul_comm (layers _ - 1)).
  destruct (remove_down_spec (chunk_full (bitmaps a)) N t (layers (ida_idr a)) j ltac:(lia) (S (Z.to_nat MAX_LEVEL)) (layers (ida_idr a) - 1) t [TopSlot] (ida_idr a))
    as (paa & p & i1 & E & R1 & R2 & R3); [by apply path_hole_open| |constructor|change (Z.of_nat (S (Z.to_nat MAX_LEVEL))) with 7; lia|].
  { replace (layers (ida_idr a) - 1 + 1) with (layers (ida_idr a)) by lia. rewrite Z.div_small by lia. apply Ht. }
  rewrite E. cbn [mbind option_bind]. pose proof (tree_frame_spare _ _ _ _ _ R2 Hs) as Hs1.
  exists p, i1. split; [done|]. destruct p as [q|].
  2: { destruct R3 as [R3 R4]. split; [done|]. split; [done|]. split; [unfold slot_at; by rewrite R3|].
       split; [done|]. right. exists t. by rewrite (tf_top _ _ _ R2), (tf_layers _ _ _ R2). }
  destruct R3 as (HN & Ht1 & _). split; [done|]. split; [done|]. exists t.
  destruct (to_node _ _ _ _ _ _ Ht1 _ _ _ HN) as (lay & Hh & _). rewrite land_mask, (update_spec _ _ _ lay Hh).
  eexists _, _. split; [done|]. split; [intros k; rewrite <- R1; by apply slot_at_bitmap|].
  pose proof (clear_bit_step _ _ _ _ _ j 0 q lay Ht1 HN Hh ltac:(lia)) as Ht2. rewrite Z.pow_0_r, Z.div_1_r in Ht2.
  constructor; cbn; [by rewrite (tf_layers _ _ _ R2)|by rewrite (tf_top _ _ _ R2)| |done|apply lookup_insert_eq|by rewrite (tf_layers _ _ _ R2)].
  apply (spare_write i1 N fl [] (0, j / 64)); [done|done|by rewrite Hh].
Qed.

(** Giving back the bitmap of a chunk that became empty. *)
Lemma release_chunk a i N fl t j p lay b m :
  way_open (chunk_full (bitmaps a)) i N fl t j p lay -> chunks_ok j (slot_at (heap i) N) (ida_free a) (bitmaps a) ->
  slot_at (heap i) N j = Some b -> bitmaps a !! b = Some m -> nr_busy m = 0 ->
  exists i2 i3 N' fl', update p (set_bit (Z.land j IDR_MASK)) i = Some i2 /\ idr_remove j i2 = Some (false, i3) /\
    ida_inv (-1) (free_bitmap b (set_ida_idr i3 a)) N' fl' /\
    forall id, used_id (free_bitmap b (set_ida_idr i3 a)) N' id = in_use (slot_at (heap i) N) (bitmaps a) id.
Proof.
  intros Hway Hc Hs Hm Hz. pose proof Hway as [_ W2 W3 W4 W5 W6].
  set (lf := fun v => if decide (v = b) then true else chunk_full (bitmaps a) v).
  assert (forall k v, k <> j -> slot_at (heap i) N k = Some v -> v <> b) as Hne.
  { intros k v Hk Hv ->. by apply Hk, (ck_inj _ _ _ _ Hc _ _ b). }
  assert (lf b = true) as Hlfb by (unfold lf; by destruct (decide (b = b))).
  assert (forall k v, k <> j -> slot_at (heap i) N k = Some v -> lf v = chunk_full (bitmaps a) v) as Hlf.
  { intros k v Hk Hv. unfold lf. destruct (decide (v = b)); [|done]. by destruct (Hne k v Hk Hv). }
  pose proof (wo_tree _ _ _ _ _ _ _ _ (way_refull _ lf _ _ _ _ _ _ _ Hlf Hway)) as Ht.
  rewrite land_mask, (update_spec _ _ _ lay W5).
  pose proof (set_leaf_bit lf _ N t _ j p lay Ht W4 W5 ltac:(by rewrite full_slot, Hs)) as Ht2.
  set (i2 := set_heap (<[p := set_bit (j mod 64) lay]> (heap i)) i).
  assert (forall k, slot_at (heap i2) N k = slot_at (heap i) N k) as Hs2 by (intros k; by apply slot_at_bitmap).
  destruct (idr_remove_open lf i2 N fl t j p b Ht2 W2) as (i3 & N3 & fl3 & E3 & Hok3 & Hs3);
    [by apply (spare_write i N fl [] (0, j / 64)); [..|rewrite W5]|done|done|by rewrite Hs2|done|].
  exists i2, i3, N3, fl3. split; [done|]. split; [done|].
  destruct (chunks_drop j _ (ida_free a) (bitmaps a) b m Hc Hs Hm Hz) as [Hc' Hu'].
  assert (forall k, slot_at (heap i3) N3 k = with_slot j None (slot_at (heap i) N) k) as Hs3'.
  { intros k. rewrite Hs3. unfold with_slot. destruct (k =? j); [done|apply Hs2]. }
  assert (free_bitmap b (set_ida_idr i3 a) = {| ida_idr := i3;
      ida_free := match ida_free a with None => Some b | Some _ => ida_free a end;
      bitmaps := match ida_free a with None => bitmaps a | Some _ => delete b (bitmaps a) end |}) as ->.
  { unfold free_bitmap. cbn. unfold set_ida_free, kfree_bitmap, set_bitmaps. cbn. by destruct (ida_free a). }
  split; [split|]; cbn.
  - apply (idr_refull lf); [|done]. intros k v Hk. rewrite Hs3' in Hk. unfold with_slot in Hk.
    destruct (Z.eqb_spec k j) as [|Hkj]; [done|]. rewrite (Hlf k) by done. unfold chunk_full.
    destruct (ida_free a); [|done]. by rewrite lookup_delete_ne by (symmetry; intros ->; by destruct (Hne k b)).
  - by apply (chunks_ext _ (with_slot j None (slot_at (heap i) N))).
  - intros id. unfold used_id. cbn. rewrite <- Hu'. by apply in_use_ext.
Qed.

(** What [ida_remove] does, by what the tree has for the chunk. *)
Definition remove_outcome (a : ida) (N : nodes) (id : Z) (o : option (bool * ida)) : Prop :=
  match N !! (0, id / 960 / 64), slots a N (id / 960) with
  | Some _, None => o = None
  | _, _ => exists a' N' fl', o = Some (negb (used_id a N id), a') /\ ida_inv (-1) a' N' fl' /\
      forall j, used_id a' N' j = used_id a N j && negb (j =? id)
  end.

Lemma idle_used s m f j v b k id :
  chunks_ok (-1) s f m -> s j = Some v -> m !! v = Some b -> 0 <= k < 960 ->
  (if id / 960 =? j then Z.testbit (bits (idle_bit k b)) (id mod 960) else in_use s m id) =
  in_use s m id && negb (id =? j * 960 + k).
Proof.
  intros Hc Hs Hm Hk. destruct (id_split id) as [H1 H2]. destruct (Z.eqb_spec (id / 960) j) as [Ej|].
  - unfold in_use. rewrite Ej, Hs, Hm. cbn. destruct (Z.eqb_spec id (j * 960 + k)) as [E|].
    + replace (id mod 960) with k by lia. by rewrite Z.clearbit_eq, andb_false_r.
    + rewrite Z.clearbit_neq by lia. by rewrite andb_true_r.
  - replace (id =? j * 960 + k) with false by lia. by rewrite andb_true_r.
Qed.

Lemma unused_idle a N id : used_id a N id = false -> forall j, used_id a N j = used_id a N j && negb (j =? id).
Proof. intros Hu j. destruct (Z.eqb_spec j id) as [->|]; [by rewrite Hu|by rewrite andb_true_r]. Qed.

(** An id in use is given back, and its chunk when it was the last one. *)
Lemma remove_busy a i2 N fl t j p lay b m k :
  chunks_ok (-1) (slots a N) (ida_free a) (bitmaps a) -> way_open (chunk_full (bitmaps a)) i2 N fl t j p lay ->
  (forall l, slot_at (heap i2) N l = slots a N l) -> slots a N j = Some b -> bitmaps a !! b = Some m ->
  Z.testbit (bits m) k = true ->
  exists a' N' fl',
    (a ← store_bitmap b (idle_bit k) (set_ida_idr i2 a);
     if nr_busy m - 1 =? 0 then
       i ← update p (set_bit (Z.land j IDR_MASK)) (ida_idr a);
       '(_, i) ← idr_remove j i;
       Some (false, free_bitmap b (set_ida_idr i a))
     else Some (false, a)) = Some (false, a') /\ ida_inv (-1) a' N' fl' /\
    forall id, used_id a' N' id = used_id a N id && negb (id =? j * 960 + k).
Proof.
  intros Hc Hway Hs2 Es Hm Hbit. unfold store_bitmap. cbn [bitmaps set_ida_idr]. rewrite Hm. cbn [mbind option_bind].
  destruct (ck_slot _ _ _ _ Hc _ _ Es) as (Hj & m' & Hm' & Hbok & _). rewrite Hm in Hm'. injection Hm' as <-.
  destruct (bo_bits _ _ Hbok k Hbit) as [Hk _]. pose proof (bitmap_clear _ _ _ Hbok Hbit) as Hbok'.
  set (m' := idle_bit k m) in *. set (a1 := set_bitmaps (<[b := m']> (bitmaps a)) (set_ida_idr i2 a)).
  assert (way_open (chunk_full (bitmaps a1)) i2 N fl t j p lay) as Hway1.
  { apply (way_refull (chunk_full (bitmaps a))); [|done]. intros l v Hl Hv. rewrite Hs2 in Hv. cbn. rewrite chunk_full_write.
    destruct (decide (v = b)) as [->|]; [|done]. destruct Hl. by apply (ck_inj _ _ _ _ Hc _ _ b). }
  assert (forall e, (nr_busy m' = 0 -> e = j) -> chunks_ok e (slot_at (heap i2) N) (ida_free a1) (bitmaps a1) /\
    forall id, in_use (slot_at (heap i2) N) (bitmaps a1) id = used_id a N id && negb (id =? j * 960 + k)) as Hw.
  { intros e He. destruct (chunks_write (-1) e _ _ _ j b m m' Hc Es Hm Hbok' He) as [H1 H2]; [by right; right|].
    split; [by apply (chunks_ext _ (slots a N))|]. intros id. rewrite (in_use_ext (slots a N)) by done. cbn. rewrite H2.
    by apply (idle_used _ _ (ida_free a) _ b). }
  destruct (nr_busy m - 1 =? 0) eqn:E0; zbool; change (nr_busy m - 1) with (nr_busy m') in E0.
  - destruct (Hw j (fun _ => eq_refl)) as [Hc1 Hu1].
    destruct (release_chunk a1 i2 N fl t j p lay b m' Hway1 Hc1) as (i3 & i4 & N' & fl' & E1 & E2 & Hinv' & Hu');
      [by rewrite Hs2|apply lookup_insert_eq|done|].
    change (ida_idr a1) with i2. rewrite E1. cbn [mbind option_bind]. rewrite E2. cbn [mbind option_bind].
    eexists _, N', fl'. split; [done|]. split; [done|]. intros id. by rewrite Hu', Hu1.
  - destruct (Hw (-1) (fun H => ltac:(lia))) as [Hc1 Hu1]. exists a1, N, fl. split; [done|]. split; [|exact Hu1]. split; [|done].
    apply (way_close _ _ _ _ _ _ _ _ Hway1). rewrite full_slot, Hs2, Es. cbn. rewrite chunk_full_write.
    destruct (decide (b = b)); [|done]. pose proof (count_bits_range 960 (bits m)). rewrite <- (bo_busy _ _ Hbok) in *. cbn. lia.
Qed.

Lemma ida_remove_spec a N fl id :
  ida_inv (-1) a N fl -> 0 <= id < 2 ^ 31 -> id / 960 < 64 ^ layers (ida_idr a) ->
  remove_outcome a N id (ida_remove id a).
Proof.
  intros Hinv Hid Hrange. pose proof Hinv as [Hok Hc]. unfold ida_remove, remove_outcome. change IDA_BITMAP_BITS with 960.
  destruct (id_split id) as [Hsplit Hoff]. assert (0 <= id / 960 < 2 ^ 31) as Hj by (split; [apply Z.div_pos; lia|lia]).
  unfold u64. rewrite wrapu_small by lia. unfold s32. rewrite !wraps_small by lia.
  set (j := id / 960) in *. set (k := id mod 960) in *.
  destruct (ida_walk a N fl j Hinv ltac:(lia)) as (o & i & -> & Eo & Hsi & Ho). cbn [mbind option_bind].
  destruct o as [p|]; rewrite <- Eo.
  2: { destruct Ho as [Hnone Hok']. destruct (ida_retree (-1) a N fl i N fl Hinv Hok' Hsi) as [R1 R2].
       assert (used_id a N id = false) as Hu by (unfold used_id, in_use; fold j; by rewrite Hnone). rewrite Hu.
       exists (set_ida_idr i a), N, fl. split; [done|]. split; [done|]. intros l. rewrite R2. by apply unused_idle. }
  destruct Ho as (t & i2 & lay & Eu & Hs2 & Hway). rewrite Eu. cbn [mbind option_bind].
  pose proof (wo_leaf _ _ _ _ _ _ _ _ Hway) as HN. pose proof (wo_layer _ _ _ _ _ _ _ _ Hway) as Hh.
  assert (get_ary i2 p (Z.land j IDR_MASK) = Some (slots a N j)) as ->.
  { rewrite <- Hs2. unfold get_ary, slot_at. rewrite HN, Hh, land_mask. pose proof (digit_range j).
    destruct (to_node _ _ _ _ _ _ (wo_tree _ _ _ _ _ _ _ _ Hway) _ _ _ HN) as (lay' & Hh' & Hnode).
    rewrite Hh in Hh'. injection Hh' as <-.
    destruct (lookup_lt_is_Some_2 (ary lay) (Z.to_nat (j mod 64))) as [u Hu]; [|by rewrite Hu].
    rewrite (no_ary _ _ _ _ _ _ _ Hnode). lia. }
  cbn [mbind option_bind]. destruct (slots a N j) as [b|] eqn:Es; [|done]. cbn [mbind option_bind bitmaps set_ida_idr].
  destruct (ck_slot _ _ _ _ Hc _ _ Es) as (_ & m & Hm & Hbok & Hnz). rewrite Hm. cbn [mbind option_bind].
  assert (used_id a N id = Z.testbit (bits m) k) as -> by (unfold used_id, in_use; fold j k; by rewrite Es, Hm).
  destruct (Z.testbit (bits m) k) eqn:Ebit; cbn [negb].
  - destruct (remove_busy a i2 N fl t j p lay b m k Hc Hway Hs2 Es Hm Ebit) as (a' & N' & fl' & E & Hinv' & Hu').
    rewrite E. exists a', N', fl'. split; [done|]. split; [done|]. intros l. by rewrite Hu', <- Hsplit.
  - assert (idr_ok (chunk_full (bitmaps a)) i2 N fl) as Hok2.
    { apply (way_close _ _ _ _ _ _ _ _ Hway). rewrite full_slot, Hs2, Es. by apply (free_not_full _ _ _ _ _ _ _ _ Hc Es Hm Hoff). }
    destruct (ida_retree (-1) a N fl i2 N fl Hinv Hok2 Hs2) as [R1 R2].
    exists (set_ida_idr i2 a), N, fl. split; [done|]. split; [done|]. intros l. rewrite R2. apply unused_idle.
    unfold used_id, in_use. fold j k. by rewrite Es, Hm.
Qed.
