(* ===== verification/IdaSpec.v ===== *)
(** * IdaSpec: the contract of an IDA

    What preloading, allocation, removal and destruction do to the set of ids
    in use, and where they fail. *)

From S2P Require Import Prelude Idr IdrInv IdrSpec Ida IdaInv.

(** The id is in use. *)
Definition ida_has (a : ida) (id : Z) : bool :=
  match idr_find (ida_idr a) (id / IDA_BITMAP_BITS) with
  | Some (Some b) =>
      match bitmaps a !! b with Some m => Z.testbit (bits m) (id mod IDA_BITMAP_BITS) | None => false end
  | _ => false
  end.

(** The invariant of an IDA between operations. *)
Definition ida_wf (a : ida) : Prop := exists N fl, ida_inv (-1) a N fl.

(** Ids are non-negative ints. *)
Definition is_id (id : Z) : Prop := 0 <= id < 2 ^ 31.

(** [a'] has the ids [f] says. *)
Definition ids_are (a' : ida) (f : Z -> bool) : Prop := forall j, is_id j -> ida_has a' j = f j.

Lemma has_used e a N fl id : ida_inv e a N fl -> is_id id -> ida_has a id = used_id a N id.
Proof.
  intros [Hok _] Hid. unfold ida_has, used_id, in_use. change IDA_BITMAP_BITS with 960.
  rewrite (idr_find_spec _ _ _ _ _ Hok); [done|]. unfold is_id in Hid.
  pose proof (Z.div_pos id 960). pose proof (id_split id). lia.
Qed.

Lemma has_slot a N fl id :
  ida_inv (-1) a N fl -> is_id id -> ida_has a id = true -> is_Some (slot_at (heap (ida_idr a)) N (id / 960)).
Proof.
  intros Hinv Hid. rewrite (has_used _ _ _ _ _ Hinv Hid). unfold used_id, in_use.
  by destruct (slot_at (heap (ida_idr a)) N (id / 960)).
Qed.

(** A chunk in the tree has an id in use. *)
Lemma slot_has a N fl j v :
  ida_inv (-1) a N fl -> slot_at (heap (ida_idr a)) N j = Some v ->
  exists id, is_id id /\ id / 960 = j /\ ida_has a id = true.
Proof.
  intros Hinv Hs. pose proof Hinv as [_ Hc]. destruct (ck_slot _ _ _ _ Hc _ _ Hs) as (Hj & b & Hb & Hbok & Hz).
  destruct (count_bits_some 960 (bits b)) as (k & Hk & Hbit).
  { rewrite <- (bo_busy _ _ Hbok). intros H0. specialize (Hz H0). lia. }
  exists (j * 960 + k). destruct (bo_bits _ _ Hbok k Hbit) as [Hk2 Hid]. split; [unfold is_id; lia|].
  split; [by apply id_join|]. rewrite (has_used _ _ _ _ _ Hinv) by (unfold is_id; lia). unfold used_id.
  by rewrite (in_use_bit _ _ _ _ v b).
Qed.

(** ** Preloading *)

(** A new bitmap is kept or freed again. *)
Lemma keep_bitmap a N fl junk :
  ida_inv (-1) a N fl ->
  let a' := free_bitmap (fresh (dom (bitmaps a))) (set_bitmaps (<[fresh (dom (bitmaps a)) := junk]> (bitmaps a)) a) in
  ida_inv (-1) a' N fl /\ (forall id, used_id a' N id = used_id a N id) /\ ida_idr a' = ida_idr a /\ is_Some (ida_free a').
Proof.
  intros [Hok Hc]. set (new := fresh (dom (bitmaps a))).
  assert (bitmaps a !! new = None) as Hnew by (apply not_elem_of_dom, is_fresh).
  unfold free_bitmap. cbn [ida_free set_bitmaps]. destruct (ida_free a) as [f|] eqn:Ef; cbn zeta.
  - unfold kfree_bitmap, set_bitmaps, ida_inv, used_id. cbn. rewrite delete_insert_id by done. rewrite Ef in *. by eauto.
  - assert (forall k v, slot_at (heap (ida_idr a)) N k = Some v -> v <> new) as Hne.
    { intros k v Hk ->. destruct (ck_slot _ _ _ _ Hc _ _ Hk) as (_ & b & Hb & _). congruence. }
    unfold set_ida_free, set_bitmaps, ida_inv, used_id. cbn. split; [split|split; [|by eauto]].
    + apply (idr_refull (chunk_full (bitmaps a))); [|done]. intros k v Hk. rewrite chunk_full_write.
      destruct (decide (v = new)) as [->|]; [by destruct (Hne k new)|done].
    + destruct Hc as [C1 C2 C3 C4]. constructor; [done| | |].
      * intros j v Hj. destruct (C2 j v Hj) as (Hj0 & b & Hb & Hrest). split; [done|]. exists b. split; [|done].
        rewrite lookup_insert_ne; [done|]. intros <-. by destruct (Hne j new).
      * intros v [= <-]. rewrite lookup_insert_eq. split; [done|]. intros j Hj. by destruct (Hne j new).
      * intros v. rewrite lookup_insert_is_Some'. intros [<-|Hv]; [by left|]. destruct (C4 v Hv) as [?|?]; [done|by right].
    + intros id. unfold in_use. destruct (slot_at (heap (ida_idr a)) N (id / 960)) as [v|] eqn:Ev; [|done].
      rewrite lookup_insert_ne; [done|]. intros <-. by destruct (Hne _ new Ev).
Qed.

Lemma ids_same e e' a N fl a' N' fl' :
  ida_inv e a N fl -> ida_inv e' a' N' fl' -> (forall id, used_id a' N' id = used_id a N id) -> ids_are a' (ida_has a).
Proof. intros H1 H2 Hu j Hj. by rewrite (has_used _ _ _ _ _ H1 Hj), (has_used _ _ _ _ _ H2 Hj). Qed.

Lemma pre_get_spec avail mem meanwhile a :
  ida_wf a -> (forall b, ida_wf b -> ida_wf (meanwhile b)) ->
  exists r a', ida_pre_get avail mem meanwhile a = Some (r, a') /\ ida_wf a' /\
    ((forall b, ida_wf b -> ids_are (meanwhile b) (ida_has b)) -> ids_are a' (ida_has a)) /\
    (r = true -> is_Some (ida_free a') /\
      ((forall b, id_free_cnt (ida_idr b) <= id_free_cnt (ida_idr (meanwhile b))) -> IDR_FREE_MAX <= id_free_cnt (ida_idr a'))) /\
    (IDR_FREE_MAX <= Z.of_nat avail + id_free_cnt (ida_idr a) -> is_Some mem -> r = true).
Proof.
  intros (N & fl & Hinv) Hmw. pose proof Hinv as [Hok Hc]. pose proof (sp_cnt _ _ _ _ _ _ (proj1 Hok)) as Hcnt.
  destruct (idr_pre_get_spec _ pre_get_fuel avail (ida_idr a) N fl Hok) as (r & i1 & fl1 & E & Hok1 & Hs1 & Hr & Hav);
    [unfold pre_get_fuel; lia|].
  destruct (ida_retree (-1) a N fl i1 N fl1 Hinv Hok1 Hs1) as [Hinv1 Hu1].
  pose proof (ids_same _ _ _ _ _ _ _ _ Hinv Hinv1 Hu1) as Hsame1. pose proof (sp_cnt _ _ _ _ _ _ (proj1 Hok1)) as Hcnt1.
  unfold ida_pre_get. rewrite E. cbn [mbind option_bind]. set (a1 := set_ida_idr i1 a) in *.
  assert (ida_wf a1) as Hwf1 by (by exists N, fl1).
  destruct r; cbn [negb].
  2: { exists false, a1. split; [done|]. split; [done|]. split; [done|]. split; [done|]. intros Ha _. apply Hav. lia. }
  specialize (Hr eq_refl). destruct (ida_free a1) as [f|] eqn:Ef.
  { exists true, a1. split; [done|]. split; [done|]. split; [done|]. split; [|done]. intros _. rewrite Ef. split; [done|].
    intros _. cbn. lia. }
  destruct (Hmw a1 Hwf1) as (N2 & fl2 & Hinv2). destruct mem as [junk|].
  2: { exists false, (meanwhile a1). split; [done|]. split; [by exists N2, fl2|]. split; [|split; [done|by intros _ []]].
       intros Hm j Hj. by rewrite Hm, Hsame1. }
  destruct (keep_bitmap (meanwhile a1) N2 fl2 junk Hinv2) as (Hinv3 & Hu3 & Hi3 & Hf3). cbn zeta in *. set (a3 := free_bitmap _ _) in *.
  exists true, a3. split; [done|]. split; [by exists N2, fl2|]. split.
  { intros Hm j Hj. by rewrite (ids_same _ _ _ _ _ _ _ _ Hinv2 Hinv3 Hu3), Hm, Hsame1. }
  split; [|done]. intros _. split; [done|]. intros Hm. rewrite Hi3. specialize (Hm a1). cbn in Hm |- *. lia.
Qed.

(** ** Allocation *)

Definition first_id (a : ida) (start err id : Z) (a' : ida) : Prop :=
  (err = 0 /\ start <= id < 2 ^ 31 /\ ida_has a id = false /\ (forall j, start <= j < id -> ida_has a j = true) /\
    ids_are a' (fun j => (j =? id) || ida_has a j)) \/
  (err = - ENOSPC /\ (forall j, start <= j < 2 ^ 31 -> ida_has a j = true) /\ ids_are a' (ida_has a)) \/
  (err = - EAGAIN /\ short_of a /\ ids_are a' (ida_has a)).

Lemma get_new_above_spec start a :
  ida_wf a -> is_id start ->
  exists err id a', ida_get_new_above start a = Some (err, id, a') /\ ida_wf a' /\ first_id a start err id a'.
Proof.
  intros (N & fl & Hinv) Hst. unfold is_id in Hst. unfold ida_get_new_above, u64. rewrite wrapu_small by lia.
  change IDA_BITMAP_BITS with 960. destruct (id_split start) as [Hs1 Hs2].
  assert (0 <= start / 960) by (apply Z.div_pos; lia). unfold s32. rewrite !wraps_small by lia.
  destruct (alloc_loop_spec 2 (start / 960) (start mod 960) a N fl Hinv) as (err & id & a' & N' & fl' & E & Hinv' & Ho);
    [done|done|lia|destruct (start mod 960 =? 0); lia|].
  rewrite <- Hs1 in Ho. exists err, id, a'. split; [done|]. split; [by exists N', fl'|].
  assert (forall j, start <= j < 2 ^ 31 -> ida_has a j = used_id a N j) as Hu.
  { intros j Hj. apply (has_used _ _ _ _ _ Hinv). unfold is_id. lia. }
  destruct Ho as [(-> & H1 & H2 & H3 & H4)|[(-> & H1 & H2)|(-> & H1 & H2)]]; [left|right; left|right; right].
  - split; [done|]. split; [done|]. rewrite Hu by lia. split; [done|]. split; [intros j Hj; rewrite Hu by lia; by apply H3|].
    intros j Hj. by rewrite (has_used _ _ _ _ _ Hinv' Hj), (has_used _ _ _ _ _ Hinv Hj).
  - split; [done|]. split; [intros j Hj; rewrite Hu by lia; by apply H1|]. by apply (ids_same (-1) (-1) a N fl a' N' fl').
  - split; [done|]. split; [done|]. by apply (ids_same (-1) (-1) a N fl a' N' fl').
Qed.

(** ** Removal and destruction *)

Lemma ida_init_wf : ida_wf ida_init.
Proof.
  exists ∅, []. split.
  - destruct init_wf as (N & fl & Hok). split; [|by left]. constructor; cbn; [constructor|done|constructor|..].
    + by intros p x []%not_elem_of_nil.
    + by intros p []%not_elem_of_nil.
    + intros p. rewrite lookup_empty. by intros [].
  - constructor; cbn.
    + intros j k v. unfold slot_at. by rewrite lookup_empty.
    + intros j v. unfold slot_at. by rewrite lookup_empty.
    + done.
    + intros v. rewrite lookup_empty. by intros [].
Qed.

(** The chunks of a leaf that exists lie in the range of the tree. *)
Lemma leaf_range e a N fl j p :
  ida_inv e a N fl -> N !! (0, j / 64) = Some p -> 0 <= j < 64 ^ layers (ida_idr a).
Proof.
  intros [[_ Htree] _] HN. destruct Htree as [(_ & _ & ->)|(t & _ & Ht)]; [by rewrite lookup_empty in HN|].
  destruct (to_dom _ _ _ _ _ _ Ht _ _ _ HN) as [Hl Hx]. pose proof (digit_range j). pose proof (child_eta j).
  replace (layers (ida_idr a)) with (layers (ida_idr a) - 1 - 0 + 1) by lia. rewrite pow64_succ by lia. lia.
Qed.

Lemma slot_leaf h N j v : slot_at h N j = Some v -> is_Some (N !! (0, j / 64)).
Proof. unfold slot_at. by destruct (N !! (0, j / 64)). Qed.

Lemma ida_destroy_empty a :
  ida_wf a -> top (ida_idr a) = None ->
  exists a', ida_destroy a = Some a' /\ heap (ida_idr a') = ∅ /\ bitmaps a' = ∅.
Proof.
  intros (N & fl & [Hok Hc]) Htop. pose proof Hok as [Hs [(_ & _ & ->)|(t & Ht & _)]]; [|congruence].
  pose proof (sp_cnt _ _ _ _ _ _ Hs) as Hcnt. unfold ida_destroy, idr_destroy.
  destruct (trim_free_spec _ 1 ltac:(lia) (S (Z.to_nat (id_free_cnt (ida_idr a)))) (ida_idr a) ∅ fl Hok ltac:(lia))
    as (i' & fl' & E & Hok' & _ & Hlen). rewrite E. cbn [mbind option_bind].
  destruct fl'; [|cbn in Hlen; lia]. eexists. split; [done|].
  assert (heap i' = ∅) as Hh.
  { apply map_empty. intros p. destruct (heap i' !! p) eqn:Ep; [|done]. exfalso.
    destruct (sp_all _ _ _ _ _ _ (proj1 Hok') p) as [H|[H|[x H]]]; [by eexists|by apply not_elem_of_nil in H..|].
    by rewrite lookup_empty in H. }
  assert (forall v, is_Some (bitmaps a !! v) -> ida_free a = Some v) as Hb.
  { intros v Hv. destruct (ck_heap _ _ _ _ Hc v Hv) as [?|[j Hj]]; [done|]. unfold slot_at in Hj. by rewrite lookup_empty in Hj. }
  cbn. destruct (ida_free a) as [f|]; cbn; (split; [done|]); apply map_empty; intros v.
  - destruct (decide (v = f)) as [->|Hne]; [apply lookup_delete_eq|]. rewrite lookup_delete_ne by done.
    destruct (bitmaps a !! v) eqn:Ev; [|done]. specialize (Hb v ltac:(by rewrite Ev)). congruence.
  - destruct (bitmaps a !! v) eqn:Ev; [|done]. by specialize (Hb v ltac:(by rewrite Ev)).
Qed.

(** An IDA whose preloading got its layers but no bitmap, then after an
    allocation from it, and destroyed. *)
Definition unloaded : ida := default ida_init (snd <$> ida_pre_get 12 None (fun a => a) ida_init).
Definition refused : ida := default ida_init (snd <$> ida_get_new unloaded).
Definition destroyed : ida := default ida_init (ida_destroy refused).

Lemma loaded_spec mem r a :
  ida_pre_get 12 mem (fun a => a) ida_init = Some (r, a) -> ida_wf a /\ ids_are a (fun _ => false).
Proof.
  intros E. destruct (pre_get_spec 12 mem (fun a => a) ida_init ida_init_wf (fun _ H => H)) as (r1 & a1 & E1 & Hwf & Hs & _).
  rewrite E in E1. injection E1 as -> ->. split; [exact Hwf|]. apply Hs. by intros b _ j _.
Qed.

Lemma refused_same a a' : ida_wf a -> ida_get_new a = Some (- EAGAIN, 0, a') -> ids_are a' (ida_has a).
Proof.
  intros Hwf E. destruct (get_new_above_spec 0 a Hwf) as (err & id & a2 & E2 & _ & Hf); [by unfold is_id|].
  unfold ida_get_new in E. rewrite E in E2. injection E2 as <- <- <-.
  by destruct Hf as [[? _]|[[? _]|(_ & _ & Hs2)]].
Qed.

(** ** Theorems *)

(** C16. Allocation of ids without pointers: from any well-formed IDA,
    [ida_pre_get] and a later [ida_get_new_above] return, without a stray pointer,
    and keep it well-formed, whatever others do to it while kmalloc sleeps and
    between the two calls. The id assigned is the smallest one not in use at the
    second call from the start on, up to the largest int, and becomes the only
    change; -ENOSPC means that all of them are in use, and -EAGAIN that fewer than
    ten layers or no bitmap were in reserve. After a successful [ida_pre_get] that
    happens only if others took layers meanwhile, or the bitmap between the two
    calls. *)
Theorem ida_alloc_lowest start avail mem meanwhile between a :
  ida_wf a -> is_id start -> (forall b, ida_wf b -> ida_wf (meanwhile b)) -> (forall b, ida_wf b -> ida_wf (between b)) ->
  exists r a1, ida_pre_get avail mem meanwhile a = Some (r, a1) /\ ida_wf a1 /\
    ((forall b, ida_wf b -> ids_are (meanwhile b) (ida_has b)) -> ids_are a1 (ida_has a)) /\
    (IDR_FREE_MAX <= Z.of_nat avail + id_free_cnt (ida_idr a) -> is_Some mem -> r = true) /\
    exists err id a2, ida_get_new_above start (between a1) = Some (err, id, a2) /\ ida_wf a2 /\ first_id (between a1) start err id a2 /\
      ((forall b, id_free_cnt (ida_idr b) <= id_free_cnt (ida_idr (meanwhile b))) ->
       id_free_cnt (ida_idr a1) <= id_free_cnt (ida_idr (between a1)) -> (is_Some (ida_free a1) -> is_Some (ida_free (between a1))) ->
       r = true -> err <> - EAGAIN).
Proof.
  intros Hwf Hst Hmw Hbt. destruct (pre_get_spec avail mem meanwhile a Hwf Hmw) as (r & a1 & E & Hwf1 & Hsame & Hr & Hav).
  exists r, a1. do 4 (split; [done|]).
  destruct (get_new_above_spec start (between a1) (Hbt _ Hwf1) Hst) as (err & id & a2 & E2 & Hwf2 & Hf). exists err, id, a2.
  do 3 (split; [done|]). intros Hm Hm2 Hm3 -> ->. destruct (Hr eq_refl) as [Hfree Hcnt]. specialize (Hcnt Hm). destruct (Hm3 Hfree) as [f Hf3].
  change IDR_FREE_MAX with 12 in Hcnt. destruct Hf as [[? _]|[[? _]|(_ & [Hs|Hs] & _)]]; [done|done|lia|congruence].
Qed.

(** C22. Removal: when some id of the chunk of an id is in use, [ida_remove]
    returns, warns exactly when the id itself is not in use, keeps the IDA
    well-formed, and afterwards the ids in use are those before without it. *)
Theorem ida_remove_exact id k a :
  ida_wf a -> is_id id -> is_id k -> k / IDA_BITMAP_BITS = id / IDA_BITMAP_BITS -> ida_has a k = true ->
  exists a', ida_remove id a = Some (negb (ida_has a id), a') /\ ida_wf a' /\
    ids_are a' (fun j => ida_has a j && negb (j =? id)).
Proof.
  intros (N & fl & Hinv) Hid Hk Hchunk Hhas. change IDA_BITMAP_BITS with 960 in Hchunk.
  destruct (has_slot _ _ _ _ Hinv Hk Hhas) as [v Hv]. rewrite Hchunk in Hv. destruct (slot_leaf _ _ _ _ Hv) as [p Hp].
  pose proof (leaf_range _ _ _ _ _ _ Hinv Hp) as Hrange.
  pose proof (ida_remove_spec a N fl id Hinv Hid ltac:(lia)) as Hr. unfold remove_outcome in Hr. rewrite Hp, Hv in Hr.
  destruct Hr as (a' & N' & fl' & E & Hinv' & Hu). exists a'. rewrite (has_used _ _ _ _ _ Hinv Hid). split; [done|].
  split; [by exists N', fl'|]. intros j Hj. by rewrite (has_used _ _ _ _ _ Hinv' Hj), (has_used _ _ _ _ _ Hinv Hj).
Qed.

(** C29. Removal of an id that was never allocated, where the code means to warn:
    when no id of its chunk of 960 is in use but an id of the same leaf of 64
    chunks is, [ida_remove] reads the bitmap of the chunk through a NULL
    pointer. *)
Theorem ida_remove_null id k a :
  ida_wf a -> is_id id -> is_id k -> k / (64 * IDA_BITMAP_BITS) = id / (64 * IDA_BITMAP_BITS) -> ida_has a k = true ->
  (forall j, is_id j -> j / IDA_BITMAP_BITS = id / IDA_BITMAP_BITS -> ida_has a j = false) ->
  ida_remove id a = None.
Proof.
  intros (N & fl & Hinv) Hid Hk Hleaf Hhas Hnone. change IDA_BITMAP_BITS with 960 in *. rewrite (Z.mul_comm 64) in Hleaf.
  rewrite <- !Z.div_div in Hleaf by lia. destruct (has_slot _ _ _ _ Hinv Hk Hhas) as [v Hv].
  destruct (slot_leaf _ _ _ _ Hv) as [p Hp]. rewrite Hleaf in Hp. pose proof (leaf_range _ _ _ _ _ _ Hinv Hp) as Hrange.
  pose proof (ida_remove_spec a N fl id Hinv Hid ltac:(lia)) as Hr. unfold remove_outcome in Hr. rewrite Hp in Hr.
  destruct (slot_at (heap (ida_idr a)) N (id / 960)) as [w|] eqn:Ew; [|done]. exfalso.
  destruct (slot_has _ _ _ _ _ Hinv Ew) as (j & Hj & Hjc & Hjh). by rewrite (Hnone j Hj Hjc) in Hjh.
Qed.

(** [ida_destroy] frees every layer and bitmap of an IDA whose tree is
    gone, but not the tree: an allocation that found no bitmap in reserve has
    already linked its layers, and although no id is in use they stay
    allocated. *)
Theorem ida_destroy_layers :
  (forall a, ida_wf a -> top (ida_idr a) = None ->
    exists a', ida_destroy a = Some a' /\ heap (ida_idr a') = ∅ /\ bitmaps a' = ∅) /\
  ida_pre_get 12 None (fun a => a) ida_init = Some (false, unloaded) /\
  ida_get_new unloaded = Some (- EAGAIN, 0, refused) /\ ids_are refused (fun _ => false) /\
  ida_destroy refused = Some destroyed /\ heap (ida_idr destroyed) <> ∅.
Proof.
  assert (ida_get_new unloaded = Some (- EAGAIN, 0, refused)) as E by (vm_compute; reflexivity).
  assert (ida_pre_get 12 None (fun a => a) ida_init = Some (false, unloaded)) as E0 by (vm_compute; reflexivity).
  destruct (loaded_spec _ _ _ E0) as [Hwf Hs].
  split; [apply ida_destroy_empty|]. split; [exact E0|]. split; [exact E|]. split.
  { intros j Hj. rewrite (refused_same _ _ Hwf E j Hj). exact (Hs j Hj). }
  split; [vm_compute; reflexivity|]. intros H.
  assert (bool_decide (heap (ida_idr destroyed) = ∅) = false) as Hn by (vm_compute; reflexivity).
  rewrite bool_decide_eq_false in Hn. exact (Hn H).
Qed.

(** ** Examples *)

Module IdaDemo.
Definition junk : ida_bitmap := {| nr_busy := 7; bits := 12345 |}.
Definition loaded : ida := default ida_init (snd <$> ida_pre_get 12 (Some junk) (fun a => a) ida_init).
Definition one : ida := default ida_init (snd <$> ida_get_new_above 1000 loaded).

Lemma loaded_ok : ida_wf loaded /\ ids_are loaded (fun _ => false).
Proof. apply (loaded_spec (Some junk) true). vm_compute. reflexivity. Qed.

Lemma first_has a a' id :
  ida_wf a -> ids_are a (fun _ => false) -> is_id id -> ida_get_new_above id a = Some (0, id, a') ->
  ida_wf a' /\ ids_are a' (fun j => j =? id).
Proof.
  intros Hwf Hnone Hid E. destruct (get_new_above_spec id a Hwf Hid) as (err & id' & a2 & E2 & Hwf' & Hf).
  rewrite E in E2. injection E2 as <- <- <-. split; [exact Hwf'|].
  destruct Hf as [(_ & _ & _ & _ & Hs)|[[? _]|[? _]]]; [|done..]. intros j Hj.
  rewrite (Hs j Hj), (Hnone j Hj). apply orb_false_r.
Qed.

Lemma one_has : ida_wf one /\ ids_are one (fun j => j =? 1000).
Proof. apply (first_has loaded one 1000 (proj1 loaded_ok) (proj2 loaded_ok)); [by unfold is_id|]. vm_compute. reflexivity. Qed.

Lemma small_id j : 0 <= j <= 1000 -> is_id j.
Proof. unfold is_id. lia. Qed.

Lemma ida_alloc_lowest_witness :
  exists r a1 err id a2, ida_pre_get 12 (Some junk) (fun a => a) ida_init = Some (r, a1) /\
    ida_get_new_above 1000 a1 = Some (err, id, a2) /\ r = true /\ err <> - EAGAIN /\ ida_wf a2.
Proof.
  destruct (ida_alloc_lowest 1000 12 (Some junk) (fun a => a) (fun a => a) ida_init ida_init_wf (small_id 1000 ltac:(lia)) (fun _ H => H) (fun _ H => H))
    as (r & a1 & E1 & _ & _ & Hr & err & id & a2 & E2 & Hwf & _ & Hn).
  assert (r = true) as Er by (apply Hr; [clear; vm_compute; intros H; discriminate H|exact (ex_intro _ junk eq_refl)]).
  exists r, a1, err, id, a2. split; [exact E1|]. split; [exact E2|]. split; [exact Er|].
  split; [exact (Hn (fun b => Z.le_refl _) (Z.le_refl _) (fun H => H) Er)|exact Hwf].
Defined.

Lemma ida_remove_exact_witness :
  exists a', ida_remove 1000 one = Some (false, a') /\ ida_wf a' /\ ida_has a' 1000 = false.
Proof.
  pose proof (small_id 1000 ltac:(lia)) as Hid. pose proof (proj2 one_has 1000 Hid : ida_has one 1000 = true) as Hh.
  destruct (ida_remove_exact 1000 1000 one (proj1 one_has) Hid Hid eq_refl Hh) as (a' & E & Hwf & Hs).
  rewrite Hh in E. exists a'. split; [exact E|]. split; [exact Hwf|]. rewrite (Hs 1000 Hid). apply andb_false_r.
Defined.

Lemma ida_remove_null_witness : ida_remove 5 one = None.
Proof.
  pose proof (small_id 1000 ltac:(lia)) as Hid.
  apply (ida_remove_null 5 1000 one (proj1 one_has) (small_id 5 ltac:(lia)) Hid eq_refl (proj2 one_has 1000 Hid)).
  intros j Hj Hc. rewrite (proj2 one_has j Hj). destruct (Z.eqb_spec j 1000) as [E|E]; [|exact eq_refl].
  rewrite E in Hc. discriminate Hc.
Defined.
End IdaDemo.
