(* ===== verification/IpcUtil.v ===== *)
(** * IpcUtil: System V IPC identifiers and permissions

    Models ipc/util.c and ipc/util.h: the identifier sets shared by
    semaphores, message queues and shared memory, the translation between
    user visible ids and IDR slots, key lookup, permission checks and the
    common part of the [*get] system calls. *)

From S2P Require Import Prelude.

Definition IPCMNI : Z := 32768.
Definition SEQ_MULTIPLIER : Z := IPCMNI.
Definition S_IRWXUGO : Z := 511.
Definition S_IRUGO : Z := 292.
Definition S_IWUGO : Z := 146.
Definition IPC_CREAT : Z := 512.
Definition IPC_EXCL : Z := 1024.
Definition IPC_NOWAIT : Z := 2048.
Definition IPC_RMID : Z := 0.
Definition IPC_SET : Z := 1.
Definition IPC_STAT : Z := 2.
Definition IPC_INFO : Z := 3.
Definition IPC_OLD : Z := 0.
Definition IPC_64 : Z := 256.
Definition IPC_PRIVATE : Z := 0.
Definition CAP_IPC_OWNER : Z := 15.
Definition CAP_SYS_ADMIN : Z := 21.

(** ** Data *)

(** [struct kern_ipc_perm] without its spinlock and LSM blob. *)
Record kern_ipc_perm := KernIpcPerm {
  deleted : bool;
  perm_id : Z;
  perm_key : Z;
  perm_uid : Z;
  perm_gid : Z;
  perm_cuid : Z;
  perm_cgid : Z;
  perm_mode : Z;
  perm_seq : Z
}.

(** The credentials of [current] the checks consult. *)
Record cred := Cred {
  euid : Z;
  egid : Z;
  in_group_p : Z -> bool;
  capable : Z -> bool
}.

(** The calling task: its address, credentials, [task_tgid_vnr] and the time
    [get_seconds] returns. *)
Record task := Task { cur : ptr; cur_cred : cred; tgid : Z; now : Z }.

(** What the code of a set uses of the IDR: lookup, first-fit allocation and
    removal; [idr_inv] is the shape the IDR keeps itself in. *)
Class IdrOps (I : Type) := {
  idr_inv : I -> Prop;
  idr_init : I;
  idr_pre_get : bool -> I -> bool * I;
  idr_find : I -> Z -> option ptr;
  idr_get_new : I -> ptr -> Z * Z * I;
  idr_remove : I -> Z -> I;
  idr_destroy : I -> I
}.

(** [struct ipc_ids] *)
Record ipc_ids (I : Type) := IpcIds {
  in_use : Z;
  ids_seq : Z;
  seq_max : Z;
  ipcs_idr : I
}.
Arguments IpcIds {I}.
Arguments in_use {I}.
Arguments ids_seq {I}.
Arguments seq_max {I}.
Arguments ipcs_idr {I}.

(** The objects an identifier set manages embed a [kern_ipc_perm]
    ([container_of] in the source). *)
Class IpcObject (Obj : Type) := {
  ipc_perm : Obj -> kern_ipc_perm;
  set_ipc_perm : kern_ipc_perm -> Obj -> Obj;
  ipc_perm_set p o : ipc_perm (set_ipc_perm p o) = p;
}.

(** ** Identifier arithmetic (ipc/util.h) *)

Definition ipcid_to_idx (id : Z) : Z := Z.rem id SEQ_MULTIPLIER.

Definition ipc_buildid (id seq : Z) : Z := SEQ_MULTIPLIER * seq + id.

Definition ipc_checkid (ipcp : kern_ipc_perm) (uid : Z) : bool :=
  negb (Z.quot uid SEQ_MULTIPLIER =? perm_seq ipcp).

Section Ids.
Context {I : Type} `{IdrOps I}.
Context {Obj : Type} `{IpcObject Obj}.

Definition ipc_init_ids : ipc_ids I :=
  let seq_limit := Z.quot INT_MAX SEQ_MULTIPLIER in
  {| in_use := 0;
     ids_seq := 0;
     seq_max := if seq_limit >? USHRT_MAX then USHRT_MAX else seq_limit;
     ipcs_idr := idr_init |}.

(** [idr_destroy(&ids->ipcs_idr)], when a namespace exits. *)
Definition ids_destroy (ids : ipc_ids I) : ipc_ids I :=
  {| in_use := in_use ids; ids_seq := ids_seq ids; seq_max := seq_max ids; ipcs_idr := idr_destroy (ipcs_idr ids) |}.

(** The loop runs until [total] reaches [in_use]; [fuel] bounds the slots it
    may visit and [None] is the answer of a loop that is still running. *)
Fixpoint ipc_findkey_loop (fuel : nat) (ids : ipc_ids I) (objs : gmap ptr Obj)
    (key total next_id : Z) : option (option ptr) :=
  match fuel with
  | O => None
  | S fuel =>
      if total <? in_use ids then
        match idr_find (ipcs_idr ids) next_id with
        | None => ipc_findkey_loop fuel ids objs key total (next_id + 1)
        | Some p =>
            match objs !! p with
            | Some o =>
                if negb (perm_key (ipc_perm o) =? key)
                then ipc_findkey_loop fuel ids objs key (total + 1) (next_id + 1)
                else Some (Some p)
            | None => ipc_findkey_loop fuel ids objs key (total + 1) (next_id + 1)
            end
        end
      else Some None
  end.

Definition ipc_findkey (ids : ipc_ids I) (objs : gmap ptr Obj) (key : Z) : option (option ptr) :=
  ipc_findkey_loop (S (Z.to_nat IPCMNI)) ids objs key 0 0.

Fixpoint ipc_get_maxid_loop (fuel : nat) (ids : ipc_ids I) (total id max_id : Z) : Z :=
  match fuel with
  | O => max_id
  | S fuel =>
      if (id <? IPCMNI) && (total <? in_use ids) then
        match idr_find (ipcs_idr ids) id with
        | Some _ => ipc_get_maxid_loop fuel ids (total + 1) (id + 1) id
        | None => ipc_get_maxid_loop fuel ids total (id + 1) max_id
        end
      else max_id
  end.

(** The loop visits each slot below [IPCMNI] at most once, so [IPCMNI]
    iterations are all it ever makes. *)
Definition ipc_get_maxid (ids : ipc_ids I) : Z :=
  if in_use ids =? 0 then -1
  else if in_use ids =? IPCMNI then IPCMNI - 1
  else ipc_get_maxid_loop (Z.to_nat IPCMNI) ids 0 0 (-1).

(** Returns the slot (or the error), the identifier set and the object. *)
Definition ipc_addid (c : cred) (ids : ipc_ids I) (np : ptr) (new : kern_ipc_perm)
    (size : Z) : Z * ipc_ids I * kern_ipc_perm :=
  let size := if size >? IPCMNI then IPCMNI else size in
  if in_use ids >=? size then (- ENOSPC, ids, new)
  else
    let '(err, id, idr') := idr_get_new (ipcs_idr ids) np in
    if negb (err =? 0) then
      (err, {| in_use := in_use ids; ids_seq := ids_seq ids;
               seq_max := seq_max ids; ipcs_idr := idr' |},
       {| deleted := false; perm_id := perm_id new; perm_key := perm_key new;
          perm_uid := perm_uid new; perm_gid := perm_gid new;
          perm_cuid := perm_cuid new; perm_cgid := perm_cgid new;
          perm_mode := perm_mode new; perm_seq := perm_seq new |})
    else
      let seq := ids_seq ids in
      let seq' := wrapu 16 (seq + 1) in
      (id,
       {| in_use := in_use ids + 1;
          ids_seq := if seq' >? seq_max ids then 0 else seq';
          seq_max := seq_max ids;
          ipcs_idr := idr' |},
       {| deleted := false; perm_id := ipc_buildid id seq; perm_key := perm_key new;
          perm_uid := euid c; perm_gid := egid c;
          perm_cuid := euid c; perm_cgid := egid c;
          perm_mode := perm_mode new; perm_seq := seq |}).

Definition ipc_rmid (ids : ipc_ids I) (ipcp : kern_ipc_perm) : ipc_ids I * kern_ipc_perm :=
  let lid := ipcid_to_idx (perm_id ipcp) in
  ({| in_use := in_use ids - 1; ids_seq := ids_seq ids; seq_max := seq_max ids;
      ipcs_idr := idr_remove (ipcs_idr ids) lid |},
   {| deleted := true; perm_id := perm_id ipcp; perm_key := perm_key ipcp;
      perm_uid := perm_uid ipcp; perm_gid := perm_gid ipcp;
      perm_cuid := perm_cuid ipcp; perm_cgid := perm_cgid ipcp;
      perm_mode := perm_mode ipcp; perm_seq := perm_seq ipcp |}).

(** [ipc_lock] and [ipc_lock_check]: [inl] is [ERR_PTR].  A slot always holds
    a pointer to a live object ([ids_wf] below); a dangling one has no object
    to read and is answered like an empty slot. *)
Definition ipc_lock (ids : ipc_ids I) (objs : gmap ptr Obj) (id : Z) : Z + ptr :=
  match idr_find (ipcs_idr ids) (ipcid_to_idx id) with
  | None => inl (- EINVAL)
  | Some p =>
      match objs !! p with
      | None => inl (- EINVAL)
      | Some o => if deleted (ipc_perm o) then inl (- EINVAL) else inr p
      end
  end.

Definition ipc_lock_check (ids : ipc_ids I) (objs : gmap ptr Obj) (id : Z) : Z + ptr :=
  match ipc_lock ids objs id with
  | inl e => inl e
  | inr p =>
      match objs !! p with
      | None => inl (- EINVAL)
      | Some o => if ipc_checkid (ipc_perm o) id then inl (- EIDRM) else inr p
      end
  end.
End Ids.

(** ** Permissions *)

Section Perms.
Context (c : cred).
(** [security_ipc_permission], the LSM hook: 0 or a negative error. *)
Context (security_ipc_permission : kern_ipc_perm -> Z -> Z).

Definition ipcperms (ipcp : kern_ipc_perm) (flag : Z) : Z :=
  let flag := s16 flag in
  let requested_mode := Z.lor (Z.lor (Z.shiftr flag 6) (Z.shiftr flag 3)) flag in
  let granted_mode :=
    if (euid c =? perm_cuid ipcp) || (euid c =? perm_uid ipcp)
    then Z.shiftr (perm_mode ipcp) 6
    else if in_group_p c (perm_cgid ipcp) || in_group_p c (perm_gid ipcp)
    then Z.shiftr (perm_mode ipcp) 3
    else perm_mode ipcp in
  if negb (Z.land (Z.land requested_mode (Z.lnot granted_mode)) 7 =? 0)
     && negb (capable c CAP_IPC_OWNER)
  then -1
  else security_ipc_permission ipcp flag.
End Perms.

(** [struct ipc64_perm], the user visible part. *)
Record ipc64_perm := Ipc64Perm {
  p64_key : Z; p64_uid : Z; p64_gid : Z; p64_cuid : Z; p64_cgid : Z;
  p64_mode : Z; p64_seq : Z
}.

Definition kernel_to_ipc64_perm (i : kern_ipc_perm) : ipc64_perm :=
  {| p64_key := perm_key i; p64_uid := perm_uid i; p64_gid := perm_gid i;
     p64_cuid := perm_cuid i; p64_cgid := perm_cgid i;
     p64_mode := perm_mode i; p64_seq := perm_seq i |}.

Definition ipc_update_perm (i : ipc64_perm) (out : kern_ipc_perm) : kern_ipc_perm :=
  {| deleted := deleted out; perm_id := perm_id out; perm_key := perm_key out;
     perm_uid := p64_uid i; perm_gid := p64_gid i;
     perm_cuid := perm_cuid out; perm_cgid := perm_cgid out;
     perm_mode := Z.lor (Z.land (perm_mode out) (Z.lnot S_IRWXUGO))
                        (Z.land (p64_mode i) S_IRWXUGO);
     perm_seq := perm_seq out |}.

(** [SET_UID]/[SET_GID] into a 16-bit field (include/linux/highuid.h):
    [overflow] is the sysctl [overflowuid] or [overflowgid]. *)
Definition high2low (overflow id : Z) : Z :=
  if negb (Z.land id (Z.lnot 65535) =? 0) then u16 overflow else u16 id.

(** [struct ipc_perm], the old layout, with the fields of [ipc64_perm]. *)
Definition ipc64_perm_to_ipc_perm (overflowuid overflowgid : Z) (i : ipc64_perm) : ipc64_perm :=
  {| p64_key := p64_key i;
     p64_uid := high2low overflowuid (p64_uid i);
     p64_gid := high2low overflowgid (p64_gid i);
     p64_cuid := high2low overflowuid (p64_cuid i);
     p64_cgid := high2low overflowgid (p64_cgid i);
     p64_mode := p64_mode i;
     p64_seq := p64_seq i |}.

(** The version and the command without the version flag. *)
Definition ipc_parse_version (cmd : Z) : Z * Z :=
  if has cmd IPC_64 then (IPC_64, Z.lxor cmd IPC_64) else (IPC_OLD, cmd).

(** [struct ipc_params]: [u] is [nsems] or [size]. *)
Record ipc_params := IpcParams { par_key : Z; par_flg : Z; par_u : Z }.

(** A namespace as the common code sees it: one identifier set and the heap
    of the objects it manages. *)
Class IpcNs (NS I Obj : Type) := {
  ns_ids : NS -> ipc_ids I;
  ns_objs : NS -> gmap ptr Obj;
  set_ns_idr : I -> NS -> NS;
}.

Section Get.
Context {NS I Obj : Type} `{IdrOps I} `{IpcObject Obj} `{!IpcNs NS I Obj}.
Context (c : cred) (security_ipc_permission : kern_ipc_perm -> Z -> Z).

(** [struct ipc_ops]; [getnew] runs on the namespace. *)
Record ipc_ops := IpcOps {
  getnew : NS -> ipc_params -> Z * NS;
  associate : Obj -> Z -> Z;
  more_checks : option (Obj -> ipc_params -> Z)
}.

(** The [retry] label is reached when [getnew] runs out of IDR layers
    ([-EAGAIN]); [mem] lists, attempt by attempt, whether the page allocator
    can serve [idr_pre_get]. [None]: still retrying when the list ends. *)
Fixpoint ipcget_new (mem : list bool) (ns : NS) (ops : ipc_ops) (params : ipc_params)
    : option (Z * NS) :=
  match mem with
  | [] => None
  | m :: mem =>
      let '(err, idr') := idr_pre_get m (ipcs_idr (ns_ids ns)) in
      let ns := set_ns_idr idr' ns in
      if negb err then Some (- ENOMEM, ns)
      else
        let '(err, ns) := getnew ops ns params in
        if err =? - EAGAIN then ipcget_new mem ns ops params else Some (err, ns)
  end.

Definition ipc_check_perms (o : Obj) (ops : ipc_ops) (params : ipc_params) : Z :=
  if negb (ipcperms c security_ipc_permission (ipc_perm o) (par_flg params) =? 0)
  then - EACCES
  else
    let err := associate ops o (par_flg params) in
    if err =? 0 then perm_id (ipc_perm o) else err.

Fixpoint ipcget_public (mem : list bool) (ns : NS) (ops : ipc_ops) (params : ipc_params)
    : option (Z * NS) :=
  match mem with
  | [] => None
  | m :: mem =>
      let '(got, idr') := idr_pre_get m (ipcs_idr (ns_ids ns)) in
      let ns := set_ns_idr idr' ns in
      let flg := par_flg params in
      match ipc_findkey (ns_ids ns) (ns_objs ns) (par_key params) with
      | None => None
      | Some None =>
          if negb (has flg IPC_CREAT) then Some (- ENOENT, ns)
          else if negb got then Some (- ENOMEM, ns)
          else
            let '(err, ns) := getnew ops ns params in
            if err =? - EAGAIN then ipcget_public mem ns ops params else Some (err, ns)
      | Some (Some p) =>
          match ns_objs ns !! p with
          | None => None
          | Some o =>
              let err :=
                if has flg IPC_CREAT && has flg IPC_EXCL then - EEXIST
                else
                  let err := match more_checks ops with
                             | Some f => f o params
                             | None => 0
                             end in
                  if err =? 0 then ipc_check_perms o ops params else err in
              if err =? - EAGAIN then ipcget_public mem ns ops params else Some (err, ns)
          end
      end
  end.

Definition ipcget (mem : list bool) (ns : NS) (ops : ipc_ops) (params : ipc_params)
    : option (Z * NS) :=
  if par_key params =? IPC_PRIVATE then ipcget_new mem ns ops params
  else ipcget_public mem ns ops params.

(** Lookup and ownership check of the commands that need the set write
    locked; audit records are not modelled. *)
Definition ipcctl_pre_down (ids : ipc_ids I) (objs : gmap ptr Obj) (id : Z) : Z + ptr :=
  match ipc_lock_check ids objs id with
  | inl err => inl err
  | inr p =>
      match objs !! p with
      | None => inl (- EINVAL)
      | Some o =>
          let ipcp := ipc_perm o in
          if (euid c =? perm_cuid ipcp) || (euid c =? perm_uid ipcp)
             || capable c CAP_SYS_ADMIN
          then inr p else inl (- EPERM)
      end
  end.
End Get.

(** ** What the identifier code relies on of the IDR *)

Definition MAX_ID : Z := INT_MAX.

(** An IDR has room for ids of thirty bits. *)
Definition IDR_CAPACITY : Z := 2 ^ 30.

Definition idr_room {I} `{IdrOps I} (i : I) : Prop := exists j, 0 <= j < IDR_CAPACITY /\ idr_find i j = None.

Class IdrLaws (I : Type) `{IdrOps I} : Prop := {
  law_init_inv : idr_inv idr_init;
  law_init id : 0 <= id <= MAX_ID -> idr_find idr_init id = None;
  law_pre_get_inv m i : idr_inv i -> idr_inv (idr_pre_get m i).2;
  law_pre_get m i id : idr_inv i -> 0 <= id <= MAX_ID -> idr_find (idr_pre_get m i).2 id = idr_find i id;
  law_get_new_inv i p : idr_inv i -> idr_room i -> idr_inv (idr_get_new i p).2;
  (** first fit *)
  law_get_new i p err id i' :
    idr_inv i -> idr_room i -> idr_get_new i p = (err, id, i') ->
    (err = 0 /\ 0 <= id <= MAX_ID /\ idr_find i id = None /\
     (forall j, 0 <= j < id -> is_Some (idr_find i j)) /\
     (forall j, 0 <= j <= MAX_ID -> idr_find i' j = if j =? id then Some p else idr_find i j)) \/
    (err < 0 /\ forall j, 0 <= j <= MAX_ID -> idr_find i' j = idr_find i j);
  (** preloaded layers are enough for one allocation *)
  law_preload m i i' p :
    idr_inv i -> idr_pre_get m i = (true, i') -> idr_room i' -> (idr_get_new i' p).1.1 <> - EAGAIN;
  law_remove_inv i id : idr_inv i -> 0 <= id < IDR_CAPACITY -> is_Some (idr_find i id) -> idr_inv (idr_remove i id);
  law_remove i id j :
    idr_inv i -> 0 <= id < IDR_CAPACITY -> is_Some (idr_find i id) -> 0 <= j <= MAX_ID ->
    idr_find (idr_remove i id) j = if j =? id then None else idr_find i j;
  (** only the layers in reserve are freed *)
  law_destroy_inv i : idr_inv i -> idr_inv (idr_destroy i);
  law_destroy i id : idr_inv i -> 0 <= id <= MAX_ID -> idr_find (idr_destroy i) id = idr_find i id
}.

(** A reference IDR on a finite map: the first free slot at or after [from]. *)
Module RefIdr.
Fixpoint first_free (fuel : nat) (m : gmap Z ptr) (from : Z) : Z :=
  match fuel with
  | O => from
  | S fuel => match m !! from with None => from | Some _ => first_free fuel m (from + 1) end
  end.

#[export] Instance ops : IdrOps (gmap Z ptr) := {
  idr_inv _ := True;
  idr_init := ∅;
  idr_pre_get m i := (m, i);
  idr_find i id := i !! id;
  idr_get_new i p :=
    let id := first_free (size i) i 0 in
    if id >? MAX_ID then (- ENOSPC, 0, i) else (0, id, <[id := p]> i);
  idr_remove i id := delete id i;
  idr_destroy i := i
}.

Lemma first_free_spec fuel m from :
  from <= first_free fuel m from /\
  (forall j, from <= j < first_free fuel m from -> is_Some (m !! j)) /\
  (m !! first_free fuel m from = None \/ first_free fuel m from = from + Z.of_nat fuel).
Proof.
  revert from. induction fuel as [|fuel IH]; intros from; cbn [first_free].
  { split; [lia|]. split; [intros; lia|right; lia]. }
  destruct (m !! from) eqn:E; [|split; [lia|]; split; [intros; lia|by left]].
  destruct (IH (from + 1)) as (H1 & H2 & H3). split; [lia|]. split; [|destruct H3; [by left|right; lia]].
  intros j Hj. destruct (decide (j = from)) as [->|]; [by eexists|]. apply H2. lia.
Qed.

(** More than [size m] consecutive occupied slots do not fit in [m]. *)
Lemma occupied_le_size (m : gmap Z ptr) n :
  (forall j, 0 <= j < Z.of_nat n -> is_Some (m !! j)) -> (n <= size m)%nat.
Proof.
  intros Hocc.
  assert (list_to_set (seqZ 0 (Z.of_nat n)) ⊆ dom m) as Hs.
  { intros j. rewrite elem_of_list_to_set, elem_of_seqZ, elem_of_dom. intros. apply Hocc. lia. }
  apply subseteq_size in Hs. rewrite size_dom, size_list_to_set, length_seqZ in Hs by apply NoDup_seqZ.
  lia.
Qed.

Lemma first_free_none m : m !! first_free (size m) m 0 = None.
Proof.
  destruct (first_free_spec (size m) m 0) as (_ & H2 & [|H3]); [done|]. rewrite H3 in *.
  destruct (m !! (0 + Z.of_nat (size m))) eqn:E; [|done]. exfalso.
  pose proof (occupied_le_size m (S (size m))) as Hle. enough (S (size m) <= size m)%nat by lia.
  apply Hle. intros j Hj. destruct (decide (j = 0 + Z.of_nat (size m))) as [->|]; [by eexists|].
  apply H2. lia.
Qed.

#[export] Instance laws : IdrLaws (gmap Z ptr).
Proof.
  constructor; try done.
  - intros i p err id i' _ _. cbn [idr_get_new ops idr_find].
    destruct (first_free_spec (size i) i 0) as (H1 & H2 & _). pose proof (first_free_none i) as H3.
    case_if; intros ?; simplify_eq; [right; split; [done|by intros]|left]. zbool.
    split; [done|]. split; [lia|]. split; [done|]. split; [done|].
    intros j _. destruct (Z.eqb_spec j (first_free (size i) i 0)) as [->|].
    + by rewrite lookup_insert_eq.
    + by rewrite lookup_insert_ne.
  - intros m i i' p _ _ _. cbn [idr_get_new ops]. by case_if.
  - intros i id j _ _ _ _. cbn [idr_remove ops idr_find]. destruct (Z.eqb_spec j id) as [->|].
    + by rewrite lookup_delete_eq.
    + by rewrite lookup_delete_ne.
Qed.
End RefIdr.

(** ** Identifier arithmetic *)

(** The sequence number and the slot are recovered from an id, and the id is a
    non-negative [int]. *)
Lemma buildid_split id seq :
  0 <= id < IPCMNI -> 0 <= seq <= USHRT_MAX ->
  ipcid_to_idx (ipc_buildid id seq) = id /\
  Z.quot (ipc_buildid id seq) SEQ_MULTIPLIER = seq /\
  0 <= ipc_buildid id seq <= INT_MAX.
Proof.
  unfold ipcid_to_idx, ipc_buildid, SEQ_MULTIPLIER, IPCMNI, USHRT_MAX, INT_MAX. intros Hi Hs.
  rewrite Z.rem_mod_nonneg, Z.quot_div_nonneg by lia.
  split; [|split; [|lia]].
  - rewrite Z.add_comm, Z.mul_comm, Z_mod_plus_full. apply Z.mod_small. lia.
  - rewrite Z.mul_comm, Z.div_add_l by lia. rewrite Z.div_small by lia. lia.
Qed.

Lemma checkid_spec ipcp uid :
  ipc_checkid ipcp uid = false <-> Z.quot uid SEQ_MULTIPLIER = perm_seq ipcp.
Proof. unfold ipc_checkid. rewrite negb_false_iff. apply Z.eqb_eq. Qed.

Lemma idx_range id : 0 <= id -> 0 <= ipcid_to_idx id < IPCMNI.
Proof.
  intros. unfold ipcid_to_idx. rewrite Z.rem_mod_nonneg by (done || lia).
  apply Z.mod_pos_bound. done.
Qed.

(** An id is the slot and the sequence number it was built from. *)
Lemma buildid_inv id :
  0 <= id -> id = ipc_buildid (ipcid_to_idx id) (Z.quot id SEQ_MULTIPLIER).
Proof.
  intros. unfold ipc_buildid, ipcid_to_idx. apply Z.quot_rem'.
Qed.

(** ** Well-formed identifier sets *)

Section IdsWf.
Context {I : Type} `{IdrLaws I} {Obj : Type} `{IpcObject Obj}.

#[local] Opaque Z.to_nat.

(** The slots below [n] that hold an object, and their number. *)
Definition occupied (i : I) (n : Z) : list Z :=
  filter (fun j => is_Some (idr_find i j)) (seqZ 0 n).

Definition count (i : I) (n : Z) : Z := Z.of_nat (length (occupied i n)).

Record ids_wf (ids : ipc_ids I) (objs : gmap ptr Obj) : Prop := {
  ids_inv : idr_inv (ipcs_idr ids);
  ids_count : in_use ids = count (ipcs_idr ids) IPCMNI;
  ids_bound id : IPCMNI <= id <= MAX_ID -> idr_find (ipcs_idr ids) id = None;
  ids_seq_range : 0 <= ids_seq ids <= seq_max ids /\ seq_max ids <= USHRT_MAX;
  ids_slot id p : 0 <= id < IPCMNI -> idr_find (ipcs_idr ids) id = Some p ->
    exists o, objs !! p = Some o /\ deleted (ipc_perm o) = false /\
      perm_id (ipc_perm o) = ipc_buildid id (perm_seq (ipc_perm o)) /\
      0 <= perm_seq (ipc_perm o) <= seq_max ids;
  ids_live p o : objs !! p = Some o -> deleted (ipc_perm o) = false ->
    0 <= perm_id (ipc_perm o) /\
    idr_find (ipcs_idr ids) (ipcid_to_idx (perm_id (ipc_perm o))) = Some p
}.

Lemma occupied_succ i n :
  0 <= n -> occupied i (n + 1) = occupied i n ++ filter (fun j => is_Some (idr_find i j)) [n].
Proof.
  intros. unfold occupied. rewrite seqZ_app, filter_app by lia. by rewrite Z.add_0_l.
Qed.

Lemma count_succ i n :
  0 <= n -> count i (n + 1) = count i n + (if idr_find i n is Some _ then 1 else 0).
Proof.
  intros. unfold count. rewrite occupied_succ, length_app by done.
  destruct (idr_find i n) eqn:E.
  - rewrite filter_cons_True, filter_nil by (by rewrite E). simpl. lia.
  - rewrite filter_cons_False, filter_nil by (rewrite E; by intros []). simpl. lia.
Qed.

Lemma count_0 i : count i 0 = 0.
Proof. done. Qed.


Lemma count_mono_eq (i i' : I) n k d :
  0 <= k -> 0 <= n ->
  (forall j, 0 <= j < n -> j <> k -> idr_find i' j = idr_find i j) ->
  (if idr_find i' k is Some _ then 1 else 0) = (if idr_find i k is Some _ then 1 else 0) + d ->
  count i' n = count i n + (if k <? n then d else 0).
Proof.
  intros Hk Hn. revert n Hn. apply (natlike_ind (fun n => _ -> _ -> _)).
  - intros _ _. rewrite !count_0. destruct (k <? 0) eqn:E; zbool; lia.
  - intros n Hn IH Hext Hd. rewrite <- Z.add_1_r, !count_succ by done.
    rewrite IH; [|intros; apply Hext; lia|done].
    destruct (decide (n = k)) as [->|Hne].
    + rewrite Hd. destruct (k <? k) eqn:E1, (k <? k + 1) eqn:E2; zbool; lia.
    + rewrite (Hext n) by lia. destruct (k <? n) eqn:E1, (k <? n + 1) eqn:E2; zbool; lia.
Qed.

Lemma count_le i n m : 0 <= n <= m -> count i n <= count i m.
Proof.
  intros Hnm. replace m with (n + (m - n)) by lia.
  assert (0 <= m - n) as Hd by lia. revert Hd. generalize (m - n). apply natlike_ind.
  - by rewrite Z.add_0_r.
  - intros k Hk IH. rewrite <- Z.add_1_r, Z.add_assoc, count_succ by lia.
    destruct (idr_find i (n + k)); lia.
Qed.

Lemma count_bound i n : 0 <= n -> 0 <= count i n <= n.
Proof.
  revert n. apply natlike_ind; [rewrite count_0; lia|]. intros n Hn IH.
  rewrite <- Z.add_1_r, count_succ by done. destruct (idr_find i n); lia.
Qed.

(** A run of occupied slots from 0 counts in full. *)
Lemma count_full i n :
  0 <= n -> (forall j, 0 <= j < n -> is_Some (idr_find i j)) -> count i n = n.
Proof.
  revert n. apply (natlike_ind (fun n => _ -> _)); [done|]. intros n Hn IH Hocc.
  rewrite <- Z.add_1_r, count_succ, IH by (done || intros; apply Hocc; lia).
  destruct (Hocc n) as [? ->]; lia.
Qed.

(** Equal counts at [n <= m]: nothing occupied in between. *)
Lemma count_eq_none i n m j :
  0 <= n <= m -> count i m <= count i n -> n <= j < m -> idr_find i j = None.
Proof.
  intros Hnm Hc Hj. destruct (idr_find i j) eqn:E; [|done]. exfalso.
  pose proof (count_le i n j ltac:(lia)). pose proof (count_le i (j + 1) m ltac:(lia)).
  pose proof (count_succ i j ltac:(lia)) as Hs. rewrite E in Hs. lia.
Qed.

Lemma count_none i n : 0 <= n -> (forall j, 0 <= j < n -> idr_find i j = None) -> count i n = 0.
Proof.
  intros Hn. pattern n. apply natlike_ind; [intros; apply count_0| |done].
  intros k Hk IH Hf. rewrite <- Z.add_1_r, count_succ, IH, Hf by (done || lia || intros; apply Hf; lia). done.
Qed.

(** A set that is in use has an occupied slot; one that is not has no live object. *)
Lemma in_use_pos ids objs n :
  ids_wf ids objs -> (forall j, 0 <= j < n -> idr_find (ipcs_idr ids) j = None) -> 0 < in_use ids -> n < IPCMNI.
Proof.
  intros W Hf Hu. apply Z.nle_gt. intros Hge. rewrite (ids_count _ _ W), count_none in Hu; [lia|done|].
  intros j Hj. apply Hf. lia.
Qed.

Lemma in_use_zero ids objs p o :
  ids_wf ids objs -> in_use ids = 0 -> objs !! p = Some o -> deleted (ipc_perm o) = true.
Proof.
  intros W Hu Ho. apply not_false_is_true. intros Hd. destruct (ids_live _ _ W p o Ho Hd) as [Hid Hf].
  rewrite (count_eq_none (ipcs_idr ids) 0 IPCMNI) in Hf; [done|done| |by apply idx_range].
  rewrite <- (ids_count _ _ W), count_0. lia.
Qed.

Lemma ids_wf_in_use ids objs : ids_wf ids objs -> 0 <= in_use ids <= IPCMNI.
Proof. intros W. rewrite (ids_count _ _ W). by apply count_bound. Qed.

Lemma ids_wf_init : ids_wf ipc_init_ids (∅ : gmap ptr Obj).
Proof.
  assert (forall j, 0 <= j <= MAX_ID -> idr_find (ipcs_idr ipc_init_ids) j = None) as Hi by (intros; by apply law_init).
  constructor.
  - apply law_init_inv.
  - symmetry. apply count_none; [done|]. intros j Hj. apply Hi. unfold MAX_ID, INT_MAX, IPCMNI in *. lia.
  - intros id Hid. apply Hi. unfold IPCMNI in *. lia.
  - done.
  - intros id p Hid. by rewrite Hi by (unfold MAX_ID, INT_MAX, IPCMNI in *; lia).
  - intros p o. by rewrite lookup_empty.
Qed.

(** A set below its limit has a free slot. *)
Lemma ids_wf_room ids objs : ids_wf ids objs -> in_use ids < IPCMNI -> idr_room (ipcs_idr ids).
Proof.
  intros W Hu. rewrite (ids_count _ _ W) in Hu.
  destruct (decide (Exists (fun j => idr_find (ipcs_idr ids) j = None) (seqZ 0 IPCMNI))) as [He|Hn].
  - apply Exists_exists in He as (j & Hj%elem_of_seqZ & Hf). exists j. split; [unfold IDR_CAPACITY, IPCMNI in *; lia|done].
  - exfalso. rewrite count_full in Hu; [lia|done|]. intros j Hj. destruct (idr_find (ipcs_idr ids) j) eqn:E; [done|].
    exfalso. apply Hn, Exists_exists. exists j. split; [apply elem_of_seqZ; lia|done].
Qed.

(** *** Lookup by key *)

Lemma findkey_loop_spec fuel ids objs key : forall total next,
  ids_wf ids objs -> 0 <= next <= IPCMNI -> total = count (ipcs_idr ids) next ->
  (Z.to_nat (IPCMNI - next) < fuel)%nat ->
  (forall j p o, 0 <= j < next -> idr_find (ipcs_idr ids) j = Some p -> objs !! p = Some o ->
     perm_key (ipc_perm o) <> key) ->
  exists r, ipc_findkey_loop fuel ids objs key total next = Some r /\
    match r with
    | Some p => exists o id, objs !! p = Some o /\ perm_key (ipc_perm o) = key /\
        0 <= id < IPCMNI /\ idr_find (ipcs_idr ids) id = Some p
    | None => forall j p o, 0 <= j < IPCMNI -> idr_find (ipcs_idr ids) j = Some p ->
        objs !! p = Some o -> perm_key (ipc_perm o) <> key
    end.
Proof.
  induction fuel as [|fuel IH]; intros total next W Hnext -> Hfuel Hseen; [lia|].
  cbn [ipc_findkey_loop]. case_if.
  2:{ zbool. exists None. split; [done|]. intros j p o Hj. destruct (decide (j < next)); [apply Hseen; lia|].
      rewrite (ids_count _ _ W) in E. rewrite (count_eq_none (ipcs_idr ids) next IPCMNI j); [done|lia..]. }
  zbool. assert (next < IPCMNI) as Hlt.
  { destruct (decide (next = IPCMNI)) as [->|]; [|lia]. rewrite (ids_count _ _ W) in E. lia. }
  pose proof (count_succ (ipcs_idr ids) next ltac:(lia)) as Hc.
  destruct (idr_find (ipcs_idr ids) next) as [p|] eqn:Ef.
  - destruct (ids_slot _ _ W next p ltac:(lia) Ef) as (o & Ho & _). rewrite Ho. case_if.
    + apply IH; [done|lia..|]. intros j p' o' Hj. destruct (decide (j = next)) as [->|]; [|apply Hseen; lia].
      intros Hf Ho'. rewrite Ef in Hf. simplify_eq. by zbool.
    + zbool. exists (Some p). split; [done|]. exists o, next. split; [done|]. split; [done|]. split; [lia|done].
  - apply IH; [done|lia..|]. intros j p' o' Hj. destruct (decide (j = next)) as [->|]; [|apply Hseen; lia].
    by rewrite Ef.
Qed.

Lemma findkey_spec ids objs key :
  ids_wf ids objs ->
  exists r, ipc_findkey ids objs key = Some r /\
    match r with
    | Some p => exists o id, objs !! p = Some o /\ perm_key (ipc_perm o) = key /\
        0 <= id < IPCMNI /\ idr_find (ipcs_idr ids) id = Some p
    | None => forall j p o, 0 <= j < IPCMNI -> idr_find (ipcs_idr ids) j = Some p ->
        objs !! p = Some o -> perm_key (ipc_perm o) <> key
    end.
Proof.
  intros W. unfold ipc_findkey.
  assert (Z.to_nat (IPCMNI - 0) < S (Z.to_nat IPCMNI))%nat as Hf by lia.
  revert Hf. generalize (S (Z.to_nat IPCMNI)) as fuel. intros fuel Hf.
  apply findkey_loop_spec; [done|done|done|done|]. intros. lia.
Qed.

(** *** The largest slot in use *)

Lemma maxid_loop_spec fuel ids objs : forall total id max_id,
  ids_wf ids objs -> 0 <= id <= IPCMNI -> total = count (ipcs_idr ids) id ->
  (Z.to_nat (IPCMNI - id) <= fuel)%nat ->
  (forall j, max_id < j < id -> idr_find (ipcs_idr ids) j = None) ->
  (max_id = -1 \/ 0 <= max_id < id /\ is_Some (idr_find (ipcs_idr ids) max_id)) ->
  let r := ipc_get_maxid_loop fuel ids total id max_id in
  (forall j, r < j < IPCMNI -> idr_find (ipcs_idr ids) j = None) /\
  (r = -1 \/ 0 <= r < IPCMNI /\ is_Some (idr_find (ipcs_idr ids) r)).
Proof.
  induction fuel as [|fuel IH]; intros total id max_id W Hid -> Hfuel Hnone Hmax; cbn [ipc_get_maxid_loop].
  { split; [intros; apply Hnone; lia|]. destruct Hmax as [|[? ?]]; [by left|right; split; [lia|done]]. }
  case_if.
  - zbool. pose proof (count_succ (ipcs_idr ids) id ltac:(lia)) as Hc.
    destruct (idr_find (ipcs_idr ids) id) eqn:Ef.
    + apply IH; [done|lia..|intros; lia|]. right. rewrite Ef. split; [lia|by eexists].
    + apply IH; [done|lia..| |].
      * intros j Hj. destruct (decide (j = id)) as [->|]; [done|]. apply Hnone. lia.
      * destruct Hmax as [|[? ?]]; [by left|right; split; [lia|done]].
  - assert (forall j, id <= j < IPCMNI -> idr_find (ipcs_idr ids) j = None) as Hrest.
    { intros j Hj. apply andb_false_iff in E as [E|E]; zbool; [lia|].
      rewrite (ids_count _ _ W) in E. apply (count_eq_none _ id IPCMNI); [lia..|done]. }
    split; [|destruct Hmax as [|[? ?]]; [by left|right; split; [lia|done]]].
    intros j Hj. destruct (decide (j < id)); [apply Hnone; lia|apply Hrest; lia].
Qed.

Lemma maxid_spec ids objs :
  ids_wf ids objs ->
  (forall j, ipc_get_maxid ids < j < IPCMNI -> idr_find (ipcs_idr ids) j = None) /\
  (in_use ids = 0 /\ ipc_get_maxid ids = -1 \/
   0 <= ipc_get_maxid ids < IPCMNI /\ is_Some (idr_find (ipcs_idr ids) (ipc_get_maxid ids))).
Proof.
  intros W. pose proof (ids_count _ _ W) as Hc. unfold ipc_get_maxid. case_if; zbool.
  { split; [|by left]. intros j Hj. apply (count_eq_none _ 0 IPCMNI); [done|rewrite count_0; lia|lia]. }
  case_if; zbool.
  { split; [intros; lia|]. right. split; [done|].
    destruct (idr_find (ipcs_idr ids) (IPCMNI - 1)) eqn:Ef; [by eexists|]. exfalso.
    pose proof (count_succ (ipcs_idr ids) (IPCMNI - 1) ltac:(done)) as Hs. rewrite Ef in Hs.
    replace (IPCMNI - 1 + 1) with IPCMNI in Hs by lia.
    pose proof (count_bound (ipcs_idr ids) (IPCMNI - 1) ltac:(done)). lia. }
  assert (Z.to_nat (IPCMNI - 0) <= Z.to_nat IPCMNI)%nat as Hf by lia.
  revert Hf. generalize (Z.to_nat IPCMNI) as fuel. intros fuel Hf.
  destruct (maxid_loop_spec fuel ids objs 0 0 (-1) W) as [Hnone Hmax];
    [done|done|done|intros; lia|by left|].
  split; [done|]. destruct Hmax as [Hr|]; [|by right]. exfalso. rewrite Hr in Hnone.
  destruct (occupied (ipcs_idr ids) IPCMNI) as [|j l] eqn:Eo.
  { unfold count in Hc. rewrite Eo in Hc. simpl in Hc. lia. }
  assert (j ∈ occupied (ipcs_idr ids) IPCMNI) as Hj by (rewrite Eo; left).
  apply list_elem_of_filter in Hj as [[? Hs] Hj]. apply elem_of_seqZ in Hj.
  by rewrite Hnone in Hs by lia.
Qed.

(** *** Lookup by id *)

(** [ipc_lock_check] answers a live object exactly when the id is the
    object's own, and tells a stale id from a free slot. *)
Lemma lock_check_spec ids objs id :
  ids_wf ids objs -> 0 <= id ->
  match ipc_lock_check ids objs id with
  | inr p => exists o, objs !! p = Some o /\ deleted (ipc_perm o) = false /\ perm_id (ipc_perm o) = id
  | inl e =>
      (forall p o, objs !! p = Some o -> deleted (ipc_perm o) = false -> perm_id (ipc_perm o) <> id) /\
      e = (if idr_find (ipcs_idr ids) (ipcid_to_idx id) is Some _ then - EIDRM else - EINVAL)
  end.
Proof.
  intros W Hid. pose proof (idx_range id Hid) as Hr.
  unfold ipc_lock_check, ipc_lock.
  destruct (idr_find (ipcs_idr ids) (ipcid_to_idx id)) as [p|] eqn:Ef.
  2:{ split; [|done]. intros p o Ho Hd <-. destruct (ids_live _ _ W p o Ho Hd) as [_ Hf]. congruence. }
  destruct (ids_slot _ _ W _ p Hr Ef) as (o & Ho & Hd & Hb & Hs). rewrite Ho, Hd, Ho.
  pose proof (ids_seq_range _ _ W) as Hm.
  assert (0 <= perm_seq (ipc_perm o) <= USHRT_MAX) as Hs' by lia.
  destruct (buildid_split _ _ Hr Hs') as (Hx & Hq & _).
  destruct (ipc_checkid (ipc_perm o) id) eqn:Ec.
  - split; [|done]. intros p' o' Ho' Hd' <-. destruct (ids_live _ _ W p' o' Ho' Hd') as [_ Hf].
    rewrite Ef in Hf. simplify_eq. rewrite <- Hb in Hq. unfold ipc_checkid in Ec.
    rewrite Hq, Z.eqb_refl in Ec. done.
  - apply checkid_spec in Ec. exists o. split; [done|]. split; [done|].
    rewrite Hb, (buildid_inv id Hid), Ec. f_equal. by rewrite <- Ec, <- (buildid_inv id Hid).
Qed.

Lemma lock_check_live ids objs p o :
  ids_wf ids objs -> objs !! p = Some o -> deleted (ipc_perm o) = false ->
  ipc_lock_check ids objs (perm_id (ipc_perm o)) = inr p.
Proof.
  intros W Ho Hd. destruct (ids_live _ _ W p o Ho Hd) as [Hid Hf].
  pose proof (lock_check_spec ids objs _ W Hid) as Hl.
  destruct (ipc_lock_check _ _ _) as [e|p'] eqn:E.
  - destruct Hl as [Hl _]. by destruct (Hl p o Ho Hd).
  - destruct Hl as (o' & Ho' & Hd' & He). destruct (ids_live _ _ W p' o' Ho' Hd') as [_ Hf'].
    rewrite He, Hf in Hf'. by simplify_eq.
Qed.

(** *** Updates *)

(** The set only looks at the identity of its objects. *)
Lemma ids_wf_update ids objs p o o' :
  ids_wf ids objs -> objs !! p = Some o ->
  perm_id (ipc_perm o') = perm_id (ipc_perm o) -> perm_seq (ipc_perm o') = perm_seq (ipc_perm o) ->
  deleted (ipc_perm o') = deleted (ipc_perm o) -> ids_wf ids (<[p := o']> objs).
Proof.
  intros W Ho Ei Es Ed. constructor; [apply W..| |].
  - intros id q Hid Hf. destruct (ids_slot _ _ W id q Hid Hf) as (x & Hx & Hd & Hb & Hs).
    destruct (decide (q = p)) as [->|].
    + simplify_eq. exists o'. rewrite lookup_insert_eq. rewrite Ed, Ei, Es. done.
    + exists x. by rewrite lookup_insert_ne.
  - intros q x. destruct (decide (q = p)) as [->|].
    + rewrite lookup_insert_eq. intros ?. simplify_eq. rewrite Ed, Ei. by apply W.
    + rewrite lookup_insert_ne by done. apply W.
Qed.

(** Only the slots matter of the IDR. *)
Lemma ids_wf_idr ids objs i' :
  ids_wf ids objs -> idr_inv i' -> (forall j, 0 <= j <= MAX_ID -> idr_find i' j = idr_find (ipcs_idr ids) j) ->
  ids_wf {| in_use := in_use ids; ids_seq := ids_seq ids; seq_max := seq_max ids; ipcs_idr := i' |} objs.
Proof.
  intros W Hinv Hf. constructor; cbn.
  - done.
  - rewrite (ids_count _ _ W). rewrite <- (Z.add_0_r (count _ _)).
    rewrite (count_mono_eq (ipcs_idr ids) i' IPCMNI 0 0); [by case_if|done|done| |].
    + intros. apply Hf. unfold MAX_ID, INT_MAX, IPCMNI in *. lia.
    + rewrite Hf by done. lia.
  - intros id Hid. rewrite Hf by (unfold IPCMNI in *; lia). by apply W.
  - apply W.
  - intros id p Hid. rewrite Hf by (unfold MAX_ID, INT_MAX, IPCMNI in *; lia). by apply W.
  - intros p o Ho Hd. destruct (ids_live _ _ W p o Ho Hd) as [Hp Hs]. split; [done|].
    pose proof (idx_range _ Hp). rewrite Hf by (unfold MAX_ID, INT_MAX, IPCMNI in *; lia). done.
Qed.

(** Preloading. *)
Lemma ids_wf_preload m ids objs :
  ids_wf ids objs -> ids_wf {| in_use := in_use ids; ids_seq := ids_seq ids; seq_max := seq_max ids;
    ipcs_idr := (idr_pre_get m (ipcs_idr ids)).2 |} objs.
Proof.
  intros W. pose proof (ids_inv _ _ W). apply ids_wf_idr; [done|by apply law_pre_get_inv|]. intros. by apply law_pre_get.
Qed.

Lemma ids_wf_destroy ids objs : ids_wf ids objs -> ids_wf (ids_destroy ids) objs.
Proof.
  intros W. pose proof (ids_inv _ _ W). apply ids_wf_idr; [done|by apply law_destroy_inv|]. intros. by apply law_destroy.
Qed.

(** Only the IDR itself says -EAGAIN, and it has room then. *)
Lemma addid_eagain c ids np new size objs :
  ids_wf ids objs -> (ipc_addid c ids np new size).1.1 = - EAGAIN ->
  idr_room (ipcs_idr ids) /\ (idr_get_new (ipcs_idr ids) np).1.1 = - EAGAIN.
Proof.
  unfold ipc_addid. intros W Ha. destruct (in_use ids >=? _) eqn:Ei; [done|].
  assert (idr_room (ipcs_idr ids)) as Hroom by (apply (ids_wf_room _ _ W); case_if_in Ei; zbool; lia).
  split; [done|]. destruct (idr_get_new (ipcs_idr ids) np) as [[err n] i'] eqn:Eg.
  destruct (err =? 0) eqn:E; cbn in *; zbool; [|done]. subst err.
  destruct (law_get_new _ _ _ _ _ (ids_inv _ _ W) Hroom Eg) as [(_ & ? & _)|[? _]]; unfold EAGAIN in *; lia.
Qed.

Lemma addid_error c ids np new size id ids' perm' objs :
  ids_wf ids objs -> ipc_addid c ids np new size = (id, ids', perm') -> id < 0 ->
  ids_wf ids' objs.
Proof.
  unfold ipc_addid. intros W Ha Hid. destruct (in_use ids >=? _) eqn:Ei; [by simplify_eq|].
  assert (idr_room (ipcs_idr ids)) as Hroom by (apply (ids_wf_room _ _ W); case_if_in Ei; zbool; lia).
  pose proof (law_get_new_inv _ np (ids_inv _ _ W) Hroom) as Hinv.
  destruct (idr_get_new (ipcs_idr ids) np) as [[err n] i'] eqn:Eg.
  destruct (law_get_new _ _ _ _ _ (ids_inv _ _ W) Hroom Eg) as [(-> & ? & _)|[Hneg Hf]].
  - cbn in Ha. simplify_eq. lia.
  - destruct (err =? 0) eqn:E; cbn in Ha; zbool; [lia|]. simplify_eq. by apply ids_wf_idr.
Qed.

(** The slot found is the first free one; there is one below [IPCMNI]
    because [in_use] is. *)
Lemma addid_slot ids objs np id i' :
  ids_wf ids objs -> in_use ids < IPCMNI -> idr_get_new (ipcs_idr ids) np = (0, id, i') ->
  idr_inv i' /\ 0 <= id < IPCMNI /\ idr_find (ipcs_idr ids) id = None /\
  (forall j, 0 <= j <= MAX_ID -> idr_find i' j = if j =? id then Some np else idr_find (ipcs_idr ids) j) /\
  count i' IPCMNI = in_use ids + 1.
Proof.
  intros W Hu Hg. pose proof (ids_wf_room _ _ W Hu) as Hroom.
  pose proof (law_get_new_inv _ np (ids_inv _ _ W) Hroom) as Hinv. rewrite Hg in Hinv. split; [exact Hinv|].
  destruct (law_get_new _ _ _ _ _ (ids_inv _ _ W) Hroom Hg) as [(_ & Hid & Hnone & Hocc & Hf)|[? _]]; [|lia].
  assert (id < IPCMNI) as Hlt.
  { apply Z.nle_gt. intros Hge.
    assert (count (ipcs_idr ids) IPCMNI = IPCMNI) as Hfull by (apply count_full; [done|]; intros; apply Hocc; lia).
    rewrite (ids_count _ _ W) in Hu. lia. }
  split; [lia|]. split; [done|]. split; [done|].
  rewrite (count_mono_eq (ipcs_idr ids) i' IPCMNI id 1); [|lia|done| |].
  - rewrite (ids_count _ _ W). destruct (id <? IPCMNI) eqn:E; zbool; lia.
  - intros j Hj Hne. rewrite Hf by (unfold MAX_ID, INT_MAX, IPCMNI in *; lia).
    by destruct (Z.eqb_spec j id).
  - rewrite Hf, Z.eqb_refl, Hnone by lia. lia.
Qed.

Lemma addid_ok c ids np new size id ids' perm' objs o :
  ids_wf ids objs -> ipc_addid c ids np new size = (id, ids', perm') -> 0 <= id ->
  objs !! np = None -> ipc_perm o = perm' ->
  ids_wf ids' (<[np := o]> objs) /\ perm_id perm' = ipc_buildid id (ids_seq ids) /\
  deleted perm' = false /\ perm_key perm' = perm_key new /\ 0 <= id < IPCMNI /\
  idr_find (ipcs_idr ids) id = None /\ in_use ids' = in_use ids + 1.
Proof.
  unfold ipc_addid. intros W Ha Hid Hfresh Ho.
  destruct (in_use ids >=? _) eqn:Ei; [simplify_eq; unfold ENOSPC in *; lia|].
  assert (in_use ids < IPCMNI) as Hu by (case_if_in Ei; zbool; lia).
  destruct (idr_get_new (ipcs_idr ids) np) as [[err n] i'] eqn:Eg.
  destruct (err =? 0) eqn:Ee; cbn in Ha; zbool.
  2:{ simplify_eq. destruct (law_get_new _ _ _ _ _ (ids_inv _ _ W) (ids_wf_room _ _ W Hu) Eg) as [[? _]|[? _]]; [done|lia]. }
  subst err. injection Ha as <- <- Hp. rewrite <- Hp in Ho |- *. cbn.
  destruct (addid_slot ids objs np n i' W Hu Eg) as (Hinv & Hn & Hnone & Hf & Hc).
  pose proof (ids_seq_range _ _ W) as [Hs1 Hs2].
  assert (forall q x, objs !! q = Some x -> q <> np) as Hne by (intros q x Hq ->; congruence).
  destruct (buildid_split n (ids_seq ids) Hn ltac:(lia)) as (Hx & _ & Hrange).
  split; [|repeat (split; [done|]); done].
  constructor; cbn.
  - done.
  - done.
  - intros j Hj. rewrite Hf by (unfold IPCMNI in *; lia). destruct (Z.eqb_spec j n); [lia|by apply W].
  - split; [|lia]. pose proof (wrapu_range 16 (ids_seq ids + 1) ltac:(lia)). case_if; zbool; lia.
  - intros j q Hj. rewrite Hf by (unfold MAX_ID, INT_MAX, IPCMNI in *; lia).
    destruct (Z.eqb_spec j n) as [->|].
    + intros ?. simplify_eq. exists o. rewrite lookup_insert_eq, Ho. cbn. split; [done|]. split; [done|].
      split; [done|lia].
    + intros Hq. destruct (ids_slot _ _ W j q Hj Hq) as (x & Hxx & ?). exists x.
      by rewrite lookup_insert_ne by (apply not_eq_sym; by eapply Hne).
  - intros q x. destruct (decide (q = np)) as [->|].
    + rewrite lookup_insert_eq. intros ?. simplify_eq. rewrite Ho. cbn. intros _. split; [lia|].
      rewrite Hx, Hf, Z.eqb_refl by (unfold MAX_ID, INT_MAX, IPCMNI in *; lia). done.
    + rewrite lookup_insert_ne by done. intros Hq Hd. destruct (ids_live _ _ W q x Hq Hd) as [Hp0 Hs].
      split; [done|]. pose proof (idx_range _ Hp0).
      rewrite Hf by (unfold MAX_ID, INT_MAX, IPCMNI in *; lia).
      destruct (Z.eqb_spec (ipcid_to_idx (perm_id (ipc_perm x))) n) as [E|]; [|done].
      rewrite E, Hnone in Hs. done.
Qed.

Lemma rmid_ok ids objs p o o' :
  ids_wf ids objs -> objs !! p = Some o -> deleted (ipc_perm o) = false ->
  ipc_perm o' = (ipc_rmid ids (ipc_perm o)).2 ->
  ids_wf (ipc_rmid ids (ipc_perm o)).1 (<[p := o']> objs) /\ deleted (ipc_perm o') = true.
Proof.
  intros W Ho Hd Ho'. destruct (ids_live _ _ W p o Ho Hd) as [Hid Hfind].
  pose proof (idx_range _ Hid) as Hr. set (lid := ipcid_to_idx (perm_id (ipc_perm o))) in *.
  assert (forall j, 0 <= j <= MAX_ID -> idr_find (idr_remove (ipcs_idr ids) lid) j =
    if j =? lid then None else idr_find (ipcs_idr ids) j) as Hf.
  { intros. apply law_remove; [apply W|unfold IDR_CAPACITY, IPCMNI in *; lia|by rewrite Hfind|done]. }
  rewrite Ho'. split; [|done]. unfold ipc_rmid. fold lid. constructor; cbn.
  - apply law_remove_inv; [apply W|unfold IDR_CAPACITY, IPCMNI in *; lia|by rewrite Hfind].
  - rewrite (count_mono_eq (ipcs_idr ids) _ IPCMNI lid (-1)); [|lia|done| |].
    + rewrite (ids_count _ _ W). destruct (lid <? IPCMNI) eqn:E; zbool; lia.
    + intros j Hj Hne. rewrite Hf by (unfold MAX_ID, INT_MAX, IPCMNI in *; lia). by destruct (Z.eqb_spec j lid).
    + rewrite Hf, Z.eqb_refl, Hfind by (unfold MAX_ID, INT_MAX, IPCMNI in *; lia). lia.
  - intros j Hj. rewrite Hf by (unfold IPCMNI in *; lia). destruct (Z.eqb_spec j lid); [done|by apply W].
  - apply W.
  - intros j q Hj. rewrite Hf by (unfold MAX_ID, INT_MAX, IPCMNI in *; lia).
    destruct (Z.eqb_spec j lid) as [|Hne]; [done|]. intros Hq.
    destruct (ids_slot _ _ W j q Hj Hq) as (x & Hx & Hdx & Hb & Hs). exists x.
    rewrite lookup_insert_ne; [done|]. intros <-. simplify_eq.
    pose proof (ids_seq_range _ _ W) as Hm. apply Hne. unfold lid. rewrite Hb.
    assert (0 <= perm_seq (ipc_perm o) <= USHRT_MAX) as Hs' by lia.
    by destruct (buildid_split j _ Hj Hs') as [-> _].
  - intros q x. destruct (decide (q = p)) as [->|].
    + rewrite lookup_insert_eq. intros ?. simplify_eq. by rewrite Ho'.
    + rewrite lookup_insert_ne by done. intros Hq Hdx. destruct (ids_live _ _ W q x Hq Hdx) as [Hp0 Hs].
      split; [done|]. pose proof (idx_range _ Hp0).
      rewrite Hf by (unfold MAX_ID, INT_MAX, IPCMNI in *; lia).
      destruct (Z.eqb_spec (ipcid_to_idx (perm_id (ipc_perm x))) lid) as [E|]; [|done].
      rewrite E, Hfind in Hs. by simplify_eq.
Qed.
End IdsWf.

(** ** Permission bits *)

(** The reference reading of the mode: owner or creator, else group, else
    other, and only the first class that applies counts. *)
Definition class_shift (c : cred) (ipcp : kern_ipc_perm) : Z :=
  if (euid c =? perm_cuid ipcp) || (euid c =? perm_uid ipcp) then 6
  else if in_group_p c (perm_cgid ipcp) || in_group_p c (perm_gid ipcp) then 3
  else 0.

(** Bit [k] (0 execute, 1 write, 2 read) is asked for in any class. *)
Definition requested (flag k : Z) : bool :=
  Z.testbit flag k || Z.testbit flag (k + 3) || Z.testbit flag (k + 6).

Definition mode_allows (c : cred) (ipcp : kern_ipc_perm) (flag : Z) : bool :=
  forallb (fun k => implb (requested flag k) (Z.testbit (perm_mode ipcp) (k + class_shift c ipcp)))
    [0; 1; 2].

Lemma testbit_wraps w x n : 0 <= n < w -> Z.testbit (wraps w x) n = Z.testbit x n.
Proof.
  intros Hn. unfold wraps.
  rewrite <- (Z.mod_pow2_bits_low _ w n), <- (Z.mod_pow2_bits_low x w n) by lia. f_equal.
  rewrite Zminus_mod_idemp_l. f_equal. lia.
Qed.

Lemma land_7 x :
  (Z.land x 7 =? 0) = negb (Z.testbit x 0) && negb (Z.testbit x 1) && negb (Z.testbit x 2).
Proof.
  apply eq_true_iff_eq. rewrite Z.eqb_eq, !andb_true_iff, !negb_true_iff. split.
  - intros H0. assert (forall n, Z.testbit (Z.land x 7) n = false) as Hb
      by (intros; rewrite H0; apply Z.testbit_0_l).
    setoid_rewrite Z.land_spec in Hb.
    pose proof (Hb 0) as B0. pose proof (Hb 1) as B1. pose proof (Hb 2) as B2. cbn in *.
    by rewrite ?andb_true_r in *.
  - intros [[B0 B1] B2]. apply Z.bits_inj'. intros n Hn. rewrite Z.land_spec, Z.testbit_0_l.
    destruct (decide (n = 0)) as [->|]; [by rewrite B0|].
    destruct (decide (n = 1)) as [->|]; [by rewrite B1|].
    destruct (decide (n = 2)) as [->|]; [by rewrite B2|].
    change 7 with (Z.ones 3). rewrite Z.ones_spec_high by lia. apply andb_false_r.
Qed.

Lemma request_bit flag k :
  0 <= k < 3 ->
  Z.testbit (Z.lor (Z.lor (Z.shiftr (s16 flag) 6) (Z.shiftr (s16 flag) 3)) (s16 flag)) k =
  requested flag k.
Proof.
  intros. unfold requested, s16. rewrite !Z.lor_spec, !Z.shiftr_spec, !testbit_wraps by lia.
  by destruct (Z.testbit flag k), (Z.testbit flag (k + 3)), (Z.testbit flag (k + 6)).
Qed.

Lemma ipcperms_eq c sec ipcp flag :
  ipcperms c sec ipcp flag =
  if mode_allows c ipcp flag || capable c CAP_IPC_OWNER then sec ipcp (s16 flag) else -1.
Proof.
  unfold ipcperms.
  set (granted := if (euid c =? perm_cuid ipcp) || (euid c =? perm_uid ipcp) then _ else _).
  assert (forall k, 0 <= k -> Z.testbit granted k = Z.testbit (perm_mode ipcp) (k + class_shift c ipcp)) as Hg.
  { intros k Hk. unfold granted, class_shift. repeat case_if; rewrite ?Z.shiftr_spec by done; try done.
    by rewrite Z.add_0_r. }
  rewrite land_7, !Z.land_spec, !Z.lnot_spec, !request_bit, !Hg by lia.
  unfold mode_allows. cbn [forallb].
  destruct (requested flag 0), (requested flag 1), (requested flag 2),
    (Z.testbit (perm_mode ipcp) (0 + class_shift c ipcp)),
    (Z.testbit (perm_mode ipcp) (1 + class_shift c ipcp)),
    (Z.testbit (perm_mode ipcp) (2 + class_shift c ipcp)), (capable c CAP_IPC_OWNER); done.
Qed.

(** Changing the mode through [IPC_SET] touches the nine permission bits. *)
Lemma update_perm_bits i out n :
  0 <= n -> Z.testbit (perm_mode (ipc_update_perm i out)) n =
  if n <? 9 then Z.testbit (p64_mode i) n else Z.testbit (perm_mode out) n.
Proof.
  intros Hn. cbn [ipc_update_perm perm_mode]. change S_IRWXUGO with (Z.ones 9).
  rewrite Z.lor_spec, !Z.land_spec, Z.lnot_spec by done. destruct (n <? 9) eqn:E; zbool.
  - rewrite Z.ones_spec_low by lia. by rewrite andb_false_r, andb_true_r.
  - rewrite Z.ones_spec_high by lia. by rewrite andb_false_r, andb_true_r, orb_false_r.
Qed.

(** ** The life of an identifier set *)

Section Life.
Context {I : Type} `{IdrLaws I} {Obj : Type} `{IpcObject Obj}.

Definition set_idr (i : I) (ids : ipc_ids I) : ipc_ids I :=
  {| in_use := in_use ids; ids_seq := ids_seq ids; seq_max := seq_max ids; ipcs_idr := i |}.

(** Everything that happens to a set of identifiers and to the objects it
    names: preloading the IDR, a successful or failed registration, removal,
    a change of the object that keeps its identity, and the release of the
    memory of a removed object. *)
Inductive ids_reach : ipc_ids I -> gmap ptr Obj -> Prop :=
| reach_init : ids_reach ipc_init_ids ∅
| reach_preload ids objs m :
    ids_reach ids objs -> ids_reach (set_idr (idr_pre_get m (ipcs_idr ids)).2 ids) objs
| reach_add ids objs c np new size id ids' perm o :
    ids_reach ids objs -> objs !! np = None ->
    ipc_addid c ids np new size = (id, ids', perm) -> 0 <= id -> ipc_perm o = perm ->
    ids_reach ids' (<[np := o]> objs)
| reach_add_fail ids objs c np new size id ids' perm :
    ids_reach ids objs -> ipc_addid c ids np new size = (id, ids', perm) -> id < 0 ->
    ids_reach ids' objs
| reach_rm ids objs p o o' :
    ids_reach ids objs -> objs !! p = Some o -> deleted (ipc_perm o) = false ->
    ipc_perm o' = (ipc_rmid ids (ipc_perm o)).2 ->
    ids_reach (ipc_rmid ids (ipc_perm o)).1 (<[p := o']> objs)
| reach_change ids objs p o o' :
    ids_reach ids objs -> objs !! p = Some o ->
    perm_id (ipc_perm o') = perm_id (ipc_perm o) -> perm_seq (ipc_perm o') = perm_seq (ipc_perm o) ->
    deleted (ipc_perm o') = deleted (ipc_perm o) -> ids_reach ids (<[p := o']> objs)
| reach_free ids objs p o :
    ids_reach ids objs -> objs !! p = Some o -> deleted (ipc_perm o) = true ->
    ids_reach ids (delete p objs).

Lemma ids_wf_free ids objs p o :
  ids_wf ids objs -> objs !! p = Some o -> deleted (ipc_perm o) = true -> ids_wf ids (delete p objs).
Proof.
  intros W Ho Hd. constructor; [apply W..| |].
  - intros id q Hid Hf. destruct (ids_slot _ _ W id q Hid Hf) as (x & Hx & Hdx & ?). exists x.
    rewrite lookup_delete_ne; [done|]. intros <-. congruence.
  - intros q x. rewrite lookup_delete_Some. intros [_ Hq]. by apply W.
Qed.

Lemma ids_reach_wf ids objs : ids_reach ids objs -> ids_wf ids objs.
Proof.
  induction 1 as [|ids objs m _ W|ids objs c np new size id ids' perm o _ W Hf Ha Hid Ho
    |ids objs c np new size id ids' perm _ W Ha Hid|ids objs p o o' _ W Ho Hd Ho'
    |ids objs p o o' _ W|ids objs p o _ W].
  - apply ids_wf_init.
  - by apply ids_wf_preload.
  - by destruct (addid_ok c ids np new size id ids' perm objs o W Ha Hid Hf Ho).
  - by eapply addid_error.
  - by destruct (rmid_ok ids objs p o o' W Ho Hd Ho').
  - by apply (ids_wf_update _ _ _ o).
  - by apply (ids_wf_free _ _ _ o).
Qed.
End Life.

(** ** ipcget *)

(** What the common code expects of the namespace it works on. *)
Class IpcNsLaws (NS I Obj : Type) `{IpcNs NS I Obj} : Prop := {
  law_ns_ids i ns : ns_ids (set_ns_idr i ns) = set_idr i (ns_ids ns);
  law_ns_objs i ns : ns_objs (set_ns_idr i ns) = ns_objs ns
}.

Section GetSpec.
Context {NS I Obj : Type} `{IdrLaws I} `{IpcObject Obj} `{IpcNsLaws NS I Obj}.
Context (c : cred) (security_ipc_permission : kern_ipc_perm -> Z -> Z).

Definition no_key (objs : gmap ptr Obj) (key : Z) : Prop :=
  forall p o, objs !! p = Some o -> deleted (ipc_perm o) = false -> perm_key (ipc_perm o) <> key.

(** No two live objects share a key. *)
Definition keys_unique (objs : gmap ptr Obj) : Prop :=
  forall p p' o o', objs !! p = Some o -> objs !! p' = Some o' ->
    deleted (ipc_perm o) = false -> deleted (ipc_perm o') = false ->
    perm_key (ipc_perm o) = perm_key (ipc_perm o') -> perm_key (ipc_perm o) <> IPC_PRIVATE -> p = p'.

Lemma keys_unique_new objs p o :
  keys_unique objs -> (perm_key (ipc_perm o) <> IPC_PRIVATE -> no_key objs (perm_key (ipc_perm o))) ->
  keys_unique (<[p := o]> objs).
Proof.
  intros U Hk r r' b b'. rewrite !lookup_insert_Some.
  intros [[<- <-]|[_ Hb]] [[<- <-]|[_ Hb']] Hd Hd' Ek Hne; [done| | |].
  - by destruct (Hk Hne r' b' Hb' Hd').
  - by destruct (Hk ltac:(congruence) r b Hb Hd).
  - by apply (U r r' b b').
Qed.

Lemma keys_unique_change objs p o o' :
  keys_unique objs -> objs !! p = Some o -> perm_key (ipc_perm o') = perm_key (ipc_perm o) ->
  (deleted (ipc_perm o') = false -> deleted (ipc_perm o) = false) -> keys_unique (<[p := o']> objs).
Proof.
  intros U Ho Ek Hd r r' b b'. rewrite !lookup_insert_Some.
  intros [[<- <-]|[Hr Hb]] [[<- <-]|[Hr' Hb']] Hb1 Hb2 E Hne; [done| | |].
  - destruct Hr'. apply (U _ r' o b'); [done|done|by apply Hd|done|congruence|congruence].
  - destruct Hr. symmetry. apply (U r _ b o); [done|done|done|by apply Hd|congruence|congruence].
  - by apply (U r r' b b').
Qed.

(** What a successful lookup or creation answers. *)
Definition get_answer (key r : Z) (ns : NS) : Prop :=
  0 <= r -> exists p o, ipc_lock_check (ns_ids ns) (ns_objs ns) r = inr p /\ ns_objs ns !! p = Some o /\
  deleted (ipc_perm o) = false /\ perm_key (ipc_perm o) = key.

Lemma get_answer_live ns p o :
  ids_wf (ns_ids ns) (ns_objs ns) -> ns_objs ns !! p = Some o -> deleted (ipc_perm o) = false ->
  get_answer (perm_key (ipc_perm o)) (perm_id (ipc_perm o)) ns.
Proof. intros W Ho Hd _. exists p, o. split; [by apply lock_check_live|done]. Qed.

(** [ops] answers no positive error of its own and no -EAGAIN. *)
Definition ops_ok (ops : ipc_ops (NS := NS) (Obj := Obj)) : Prop :=
  (forall o f, associate ops o f <= 0 /\ associate ops o f <> - EAGAIN) /\
  (forall f o params, more_checks ops = Some f -> f o params <= 0 /\ f o params <> - EAGAIN).

(** The key exists: the answer is its id or an error. *)
Lemma public_spec ns p o ops params :
  ids_wf (ns_ids ns) (ns_objs ns) -> ops_ok ops -> ns_objs ns !! p = Some o ->
  deleted (ipc_perm o) = false -> perm_key (ipc_perm o) = par_key params ->
  let err :=
    if has (par_flg params) IPC_CREAT && has (par_flg params) IPC_EXCL then - EEXIST
    else
      let err := match more_checks ops with Some f => f o params | None => 0 end in
      if err =? 0 then ipc_check_perms c security_ipc_permission o ops params else err in
  err <> - EAGAIN /\ get_answer (par_key params) err ns.
Proof.
  intros W [Ha Hm] Ho Hd Hk. cbn zeta. destruct (has _ IPC_CREAT && _); [split; [done|]; intros ?; done|].
  assert (match more_checks ops with Some f => f o params | None => 0 end <= 0 /\
          match more_checks ops with Some f => f o params | None => 0 end <> - EAGAIN) as [M1 M2].
  { destruct (more_checks ops) as [f|]; [by apply Hm|done]. }
  destruct (Z.eqb_spec (match more_checks ops with Some f => f o params | None => 0 end) 0);
    [|split; [done|]; intros ?; lia].
  unfold ipc_check_perms. destruct (negb _); [split; [done|]; intros ?; done|]. destruct (Ha o (par_flg params)) as [A1 A2].
  destruct (Z.eqb_spec (associate ops o (par_flg params)) 0); [|split; [done|]; intros ?; lia].
  split; [|rewrite <- Hk; by apply (get_answer_live ns p)].
  pose proof (proj1 (ids_live _ _ W p o Ho Hd)). unfold EAGAIN. lia.
Qed.

(** One attempt is enough when the IDR was preloaded: [Q] holds of the answer
    when it holds after [getnew] on a preloaded IDR, of every error and of
    every answer for an existing key. *)
Lemma ipcget_ok m ns ops params (Q : Z -> NS -> Prop) :
  let ns1 := set_ns_idr (idr_pre_get m (ipcs_idr (ns_ids ns))).2 ns in
  ids_wf (ns_ids ns) (ns_objs ns) -> ops_ok ops ->
  ((idr_pre_get m (ipcs_idr (ns_ids ns))).1 = true ->
   (par_key params <> IPC_PRIVATE -> no_key (ns_objs ns) (par_key params)) ->
   (getnew ops ns1 params).1 <> - EAGAIN /\ Q (getnew ops ns1 params).1 (getnew ops ns1 params).2) ->
  (forall e, get_answer (par_key params) e ns1 -> Q e ns1) ->
  exists r ns', ipcget c security_ipc_permission [m] ns ops params = Some (r, ns') /\ Q r ns'.
Proof.
  cbn zeta. intros W O Hg He. unfold ipcget. cbn [ipcget_new ipcget_public].
  destruct (idr_pre_get m _) as [got i'] eqn:Ei. cbn [fst snd] in *.
  assert (ids_wf (ns_ids (set_ns_idr i' ns)) (ns_objs (set_ns_idr i' ns))) as W1.
  { rewrite law_ns_ids, law_ns_objs. pose proof (ids_wf_preload m _ _ W) as Wp. by rewrite Ei in Wp. }
  assert (forall e, e < 0 -> Q e (set_ns_idr i' ns)) as Hneg by (intros e ?; apply He; intros ?; lia).
  destruct (Z.eqb_spec (par_key params) IPC_PRIVATE) as [Hp|Hp].
  - destruct got; cbn [negb]; [|by eexists _, _; split; [reflexivity|apply Hneg]].
    destruct (getnew ops (set_ns_idr i' ns) params) as [r ns'].
    destruct Hg as [Hne HQ]; [done|done|]. apply Z.eqb_neq in Hne. cbn [fst] in Hne. rewrite Hne. eauto.
  - destruct (findkey_spec _ _ (par_key params) W1) as (r & -> & Hr). destruct r as [p|].
    + destruct Hr as (o & id & Ho & Hk & Hid & Hf). rewrite Ho.
      destruct (ids_slot _ _ W1 id p Hid Hf) as (o' & Ho' & Hd & _). simplify_eq.
      destruct (public_spec _ p o ops params W1 O Ho Hd Hk) as [Hne Ha].
      apply Z.eqb_neq in Hne. cbn zeta in Hne, Ha |- *. rewrite Hne.
      eexists _, _. split; [reflexivity|]. by apply He.
    + destruct (has _ IPC_CREAT); cbn [negb]; [|by eexists _, _; split; [reflexivity|apply Hneg]].
      destruct got; cbn [negb]; [|by eexists _, _; split; [reflexivity|apply Hneg]].
      destruct (getnew ops (set_ns_idr i' ns) params) as [r ns'].
      destruct Hg as [Hne HQ]; [done| |].
      * intros _ p o Ho Hd. rewrite <- (law_ns_objs i' ns) in Ho.
        destruct (ids_live _ _ W1 p o Ho Hd) as [Hid Hf]. pose proof (idx_range _ Hid). by eapply Hr.
      * apply Z.eqb_neq in Hne. cbn [fst] in Hne. rewrite Hne. eauto.
Qed.
End GetSpec.

(** ** Properties *)

(** C23. Identifiers are exact: in every reachable state of an identifier set,
    [ipc_lock_check] answers an object for the identifier that is that live
    object's own and for no other; for any other non-negative id it answers
    -EIDRM when the slot was reused and -EINVAL when it is free. *)
Theorem ipc_lock_check_exact {I} `{IdrLaws I} {Obj} `{IpcObject Obj}
    (ids : ipc_ids I) (objs : gmap ptr Obj) id :
  ids_reach ids objs -> 0 <= id ->
  (forall p, ipc_lock_check ids objs id = inr p <->
     exists o, objs !! p = Some o /\ deleted (ipc_perm o) = false /\ perm_id (ipc_perm o) = id) /\
  (forall e, ipc_lock_check ids objs id = inl e ->
     e = if idr_find (ipcs_idr ids) (ipcid_to_idx id) is Some _ then - EIDRM else - EINVAL).
Proof.
  intros Hr Hid. apply ids_reach_wf in Hr as W. pose proof (lock_check_spec ids objs id W Hid) as Hl.
  split.
  - intros p. split.
    + intros E. by rewrite E in Hl.
    + intros (o & Ho & Hd & <-). by apply lock_check_live.
  - intros e E. rewrite E in Hl. apply Hl.
Qed.

(** Registering an object succeeds whenever the set is below its limit and
    the IDR has memory, never reuses the slot of a live object, and the id it
    assigns is a non-negative [int] that finds the object again. *)
Theorem ipc_addid_found {I} `{IdrLaws I} {Obj} `{IpcObject Obj}
    c (ids : ipc_ids I) np new size id i' (objs : gmap ptr Obj) o :
  ids_reach ids objs -> objs !! np = None -> in_use ids < Z.min size IPCMNI ->
  idr_get_new (ipcs_idr ids) np = (0, id, i') ->
  exists ids' perm, ipc_addid c ids np new size = (id, ids', perm) /\
    idr_find (ipcs_idr ids) id = None /\ 0 <= perm_id perm <= INT_MAX /\
    ipc_lock_check ids' (<[np := set_ipc_perm perm o]> objs) (perm_id perm) = inr np.
Proof.
  intros Hr Hf Hu Hg. apply ids_reach_wf in Hr as W.
  destruct (addid_slot ids objs np id i' W ltac:(lia) Hg) as (_ & [Hid Hid'] & Hnone & _).
  destruct (ipc_addid c ids np new size) as [[id0 ids'] perm] eqn:Ha.
  assert (id0 = id) as ->.
  { unfold ipc_addid in Ha. rewrite Hg in Ha.
    destruct (in_use ids >=? _) eqn:E in Ha; [case_if_in E; zbool; lia|]. by simplify_eq/=. }
  destruct (addid_ok c ids np new size id ids' perm objs (set_ipc_perm perm o) W Ha Hid Hf
    (ipc_perm_set _ _)) as (W' & Hp & Hd & _).
  exists ids', perm. split; [done|]. split; [done|].
  pose proof (ids_seq_range _ _ W). split.
  - rewrite Hp. by destruct (buildid_split id (ids_seq ids) ltac:(lia) ltac:(lia)) as (_ & _ & ?).
  - pose proof (lock_check_live ids' _ np (set_ipc_perm perm o) W') as Hl.
    rewrite ipc_perm_set in Hl. apply Hl; [by rewrite lookup_insert_eq|done].
Qed.

(** Looking up a key terminates within the slots of the set and answers an
    object with that key, or no live object has it. *)
Theorem ipc_findkey_exact {I} `{IdrLaws I} {Obj} `{IpcObject Obj}
    (ids : ipc_ids I) (objs : gmap ptr Obj) key :
  ids_reach ids objs ->
  exists r, ipc_findkey ids objs key = Some r /\
    match r with
    | Some p => exists o, objs !! p = Some o /\ deleted (ipc_perm o) = false /\ perm_key (ipc_perm o) = key
    | None => forall p o, objs !! p = Some o -> deleted (ipc_perm o) = false -> perm_key (ipc_perm o) <> key
    end.
Proof.
  intros Hr. apply ids_reach_wf in Hr as W. destruct (findkey_spec ids objs key W) as (r & E & Hs).
  exists r. split; [done|]. destruct r as [p|].
  - destruct Hs as (o & id & Ho & Hk & Hid & Hf). destruct (ids_slot _ _ W id p Hid Hf) as (o' & ? & ? & _).
    simplify_eq. eauto.
  - intros p o Ho Hd. destruct (ids_live _ _ W p o Ho Hd) as [Hid Hf].
    pose proof (idx_range _ Hid). by eapply Hs.
Qed.

(** [ipc_get_maxid], which IPC_INFO reports, is the highest slot in use, or
    -1 for an empty set, although it stops at the last occupied slot. *)
Theorem ipc_get_maxid_highest {I} `{IdrLaws I} {Obj} `{IpcObject Obj}
    (ids : ipc_ids I) (objs : gmap ptr Obj) :
  ids_reach ids objs ->
  (forall p o, objs !! p = Some o -> deleted (ipc_perm o) = false ->
     ipcid_to_idx (perm_id (ipc_perm o)) <= ipc_get_maxid ids) /\
  (in_use ids = 0 /\ ipc_get_maxid ids = -1 \/
   exists p, idr_find (ipcs_idr ids) (ipc_get_maxid ids) = Some p).
Proof.
  intros Hr. apply ids_reach_wf in Hr as W. destruct (maxid_spec ids objs W) as [Hnone Hmax]. split.
  - intros p o Ho Hd. destruct (ids_live _ _ W p o Ho Hd) as [Hid Hf]. pose proof (idx_range _ Hid).
    apply Z.nlt_ge. intros Hlt. rewrite Hnone in Hf by lia. done.
  - destruct Hmax as [|[_ [p Hp]]]; [by left|right; by exists p].
Qed.

(** [ipcperms] grants exactly what the first applicable class of the mode
    (owner or creator, then group, then other) allows for every requested
    kind of access, or what CAP_IPC_OWNER overrides, subject to the security
    module. *)
Theorem ipcperms_reference c sec ipcp flag :
  ipcperms c sec ipcp flag =
  if mode_allows c ipcp flag || capable c CAP_IPC_OWNER then sec ipcp (s16 flag) else -1.
Proof. apply ipcperms_eq. Qed.

(** Witnesses, with the reference IDR and bare permission records as objects. *)
Module IdsDemo.
Import RefIdr.
#[local] Instance perm_object : IpcObject kern_ipc_perm := {
  ipc_perm p := p; set_ipc_perm p _ := p; ipc_perm_set _ _ := eq_refl
}.

Definition root : cred := Cred 0 0 (fun _ => false) (fun _ => true).
Definition blank (key : Z) : kern_ipc_perm := KernIpcPerm false 0 key 0 0 0 0 384 0.
Definition ids0 : ipc_ids (gmap Z ptr) := ipc_init_ids.
Definition added (ids : ipc_ids (gmap Z ptr)) (np : ptr) (key : Z) := ipc_addid root ids np (blank key) 128.

(** Object 1 registered and removed, object 2 registered in its slot. *)
Definition ids1 := (added ids0 1%nat 11).1.2.
Definition perm1 := (added ids0 1%nat 11).2.
Definition ids2 := (ipc_rmid ids1 perm1).1.
Definition dead1 := (ipc_rmid ids1 perm1).2.
Definition ids3 := (added ids2 2%nat 12).1.2.
Definition perm2 := (added ids2 2%nat 12).2.
Definition objs2 : gmap ptr kern_ipc_perm := <[1%nat := dead1]> (<[1%nat := perm1]> ∅).
Definition objs3 : gmap ptr kern_ipc_perm := <[2%nat := perm2]> objs2.

Lemma reach2 : ids_reach ids2 objs2.
Proof.
  refine (reach_rm ids1 (<[1%nat := perm1]> ∅) 1%nat perm1 dead1 _ _ _ _); [|done..].
  by refine (reach_add ids0 ∅ root 1%nat (blank 11) 128 0 ids1 perm1 perm1 reach_init _ _ _ _).
Qed.

Lemma reach3 : ids_reach ids3 objs3.
Proof.
  by refine (reach_add ids2 objs2 root 2%nat (blank 12) 128 0 ids3 perm2 perm2 reach2 _ _ _ _).
Qed.

Lemma ipc_lock_check_exact_witness :
  ipc_lock_check ids3 objs3 32768 = inr 2%nat /\ ipc_lock_check ids3 objs3 0 = inl (- EIDRM) /\
  (exists o, objs3 !! 2%nat = Some o /\ deleted o = false /\ perm_id o = 32768).
Proof.
  split; [reflexivity|]. split; [reflexivity|].
  apply (proj1 (proj1 (ipc_lock_check_exact ids3 objs3 32768 reach3 ltac:(lia)) 2%nat)). reflexivity.
Defined.

Lemma ipc_addid_found_witness :
  exists ids' perm, ipc_addid root ids2 2%nat (blank 12) 128 = (0, ids', perm) /\
    idr_find (ipcs_idr ids2) 0 = None /\ 0 <= perm_id perm <= INT_MAX /\
    ipc_lock_check ids' (<[2%nat := perm]> objs2) (perm_id perm) = inr 2%nat.
Proof.
  refine (ipc_addid_found root ids2 2%nat (blank 12) 128 0 {[ 0 := 2%nat ]} objs2 (blank 0) reach2 _ _ _);
    reflexivity.
Defined.

Lemma ipc_findkey_exact_witness :
  exists r, ipc_findkey ids3 objs3 12 = Some r /\
    match r with
    | Some p => exists o, objs3 !! p = Some o /\ deleted o = false /\ perm_key o = 12
    | None => forall p o, objs3 !! p = Some o -> deleted o = false -> perm_key o <> 12
    end.
Proof. apply (ipc_findkey_exact ids3 objs3 12 reach3). Defined.

Lemma ipc_get_maxid_highest_witness :
  (forall p o, objs3 !! p = Some o -> deleted o = false ->
     ipcid_to_idx (perm_id o) <= ipc_get_maxid ids3) /\
  (in_use ids3 = 0 /\ ipc_get_maxid ids3 = -1 \/
   exists p, idr_find (ipcs_idr ids3) (ipc_get_maxid ids3) = Some p).
Proof. apply (ipc_get_maxid_highest ids3 objs3 reach3). Defined.
End IdsDemo.
