(* ===== verification/SemOp.v ===== *)
(** * SemOp: semaphore operations and the wake-up of sleepers

    Models the part of ipc/sem.c that runs under the lock of one semaphore
    set: the all-or-nothing application of a list of operations
    ([try_atomic_semop]) and the search for sleeping operations that became
    possible ([update_queue], [check_restart], [do_smart_update]). *)

From S2P Require Import Prelude IpcUtil.

Definition SEMVMX : Z := 32767.
Definition SEMAEM : Z := SEMVMX.
Definition SEM_UNDO : Z := 4096.
Definition IN_WAKEUP : Z := 1.

(** ** Data (include/linux/sem.h) *)

Record sembuf := Sembuf { sem_num : nat; sem_op : Z; sem_flg : Z }.

(** [struct sem]; [sem_waiters] is its [sem_pending] list of single-operation
    sleepers. *)
Record sem := Sem { semval : Z; sempid : Z; sem_waiters : list ptr }.

(** [struct sem_queue], one per sleeping task. [q_nsops] is [length q_sops]. *)
Record sem_queue := SemQueue {
  q_sleeper : ptr;
  q_undo : option ptr;
  q_pid : Z;
  q_status : Z;
  q_sops : list sembuf;
  q_alter : bool
}.

Record sem_undo := SemUndo { un_semid : Z; un_ulp : ptr; semadj : list Z }.

Record sem_array := SemArray {
  sem_perm : kern_ipc_perm;
  sem_otime : Z;
  sem_ctime : Z;
  sem_base : list sem;
  sem_pending : list ptr;
  list_id : list ptr;
  sem_nsems : Z;
  complex_count : Z
}.

(** The memory reachable from a locked set: the set itself, the queue entries
    on the stacks of the sleepers and the undo structures of the processes. *)
Record sem_state := SemState {
  sma : sem_array;
  queues : gmap ptr sem_queue;
  undos : gmap ptr sem_undo
}.

Definition set_base (b : list sem) (a : sem_array) : sem_array :=
  {| sem_perm := sem_perm a; sem_otime := sem_otime a; sem_ctime := sem_ctime a;
     sem_base := b; sem_pending := sem_pending a; list_id := list_id a;
     sem_nsems := sem_nsems a; complex_count := complex_count a |}.

(** Reading a field of [sem_base[n]] and [semadj[n]]; the callers check
    [n < sem_nsems] before ([semtimedop], [semctl_main]). *)
Definition sem_at (b : list sem) (n : nat) : sem := default (Sem 0 0 []) (b !! n).
Definition adj_at (adj : list Z) (n : nat) : Z := default 0 (adj !! n).

Definition set_semval (f : Z -> Z) (s : sem) : sem :=
  {| semval := f (semval s); sempid := sempid s; sem_waiters := sem_waiters s |}.
Definition set_sempid (pid : Z) (s : sem) : sem :=
  {| semval := semval s; sempid := pid; sem_waiters := sem_waiters s |}.

(** ** try_atomic_semop *)

(** Where the [for] loop leaves: at its end, at [would_block] or at
    [out_of_range], with the operations performed so far, last one first. *)
Inductive semop_pass :=
| AllDone (b : list sem) (done : list sembuf)
| WouldBlock (b : list sem) (done : list sembuf) (sop : sembuf)
| OutOfRange (b : list sem) (done : list sembuf).

Fixpoint semop_loop (b : list sem) (adj : list Z) (done sops : list sembuf) : semop_pass :=
  match sops with
  | [] => AllDone b done
  | sop :: rest =>
      let op := sem_op sop in
      let result := semval (sem_at b (sem_num sop)) in
      if (op =? 0) && negb (result =? 0) then WouldBlock b done sop
      else
        let result := result + op in
        if result <? 0 then WouldBlock b done sop
        else if result >? SEMVMX then OutOfRange b done
        else if has (sem_flg sop) SEM_UNDO &&
                (let undo := adj_at adj (sem_num sop) - op in
                 (undo <? - SEMAEM - 1) || (undo >? SEMAEM))
        then OutOfRange b done
        else semop_loop (alter (set_semval (fun _ => result)) (sem_num sop) b) adj
                        (sop :: done) rest
  end.

(** The backward loop of a success: record the pid, book the undo. *)
Fixpoint semop_commit (b : list sem) (adj : list Z) (pid : Z) (done : list sembuf)
    : list sem * list Z :=
  match done with
  | [] => (b, adj)
  | sop :: done =>
      let b := alter (set_sempid pid) (sem_num sop) b in
      let adj := if has (sem_flg sop) SEM_UNDO
                 then alter (fun a => s16 (a - sem_op sop)) (sem_num sop) adj
                 else adj in
      semop_commit b adj pid done
  end.

(** The backward loop of a failure. *)
Fixpoint semop_rollback (b : list sem) (done : list sembuf) : list sem :=
  match done with
  | [] => b
  | sop :: done =>
      semop_rollback (alter (set_semval (fun v => v - sem_op sop)) (sem_num sop) b) done
  end.

Definition try_atomic_semop (b : list sem) (adj : list Z) (sops : list sembuf) (pid : Z)
    : Z * list sem * list Z :=
  match semop_loop b adj [] sops with
  | AllDone b' done => let '(b', adj') := semop_commit b' adj pid done in (0, b', adj')
  | OutOfRange b' done => (- ERANGE, semop_rollback b' done, adj)
  | WouldBlock b' done sop =>
      (if has (sem_flg sop) IPC_NOWAIT then - EAGAIN else 1, semop_rollback b' done, adj)
  end.

(** The call on the undo structure [un] of a queue entry ([NULL] only when no
    operation has [SEM_UNDO]). *)
Definition undo_adj (us : gmap ptr sem_undo) (un : option ptr) : list Z :=
  match un with
  | Some u => match us !! u with Some x => semadj x | None => [] end
  | None => []
  end.

Definition set_undo_adj (us : gmap ptr sem_undo) (un : option ptr) (adj : list Z)
    : gmap ptr sem_undo :=
  match un with
  | Some u => alter (fun x => {| un_semid := un_semid x; un_ulp := un_ulp x; semadj := adj |}) u us
  | None => us
  end.

Definition try_semop_on (st : sem_state) (sops : list sembuf) (un : option ptr) (pid : Z)
    : Z * sem_state :=
  let '(err, b, adj) :=
    try_atomic_semop (sem_base (sma st)) (undo_adj (undos st) un) sops pid in
  (err, {| sma := set_base b (sma st); queues := queues st;
           undos := set_undo_adj (undos st) un adj |}).

(** ** The pending queue *)

Definition unlink_queue (q : ptr) (sq : sem_queue) (a : sem_array) : sem_array :=
  let simple := (length (q_sops sq) =? 1)%nat in
  {| sem_perm := sem_perm a; sem_otime := sem_otime a; sem_ctime := sem_ctime a;
     sem_base :=
       if simple then
         map (fun s => {| semval := semval s; sempid := sempid s;
                          sem_waiters := list_del q (sem_waiters s) |}) (sem_base a)
       else sem_base a;
     sem_pending := list_del q (sem_pending a);
     list_id := list_id a; sem_nsems := sem_nsems a;
     complex_count := if simple then complex_count a else complex_count a - 1 |}.

(** [None]: a [BUG_ON] fired. *)
Definition check_restart (st : sem_state) (sq : sem_queue) : option bool :=
  if negb (q_alter sq) then Some false
  else if negb (complex_count (sma st) =? 0) then Some true
  else match q_sops sq with
  | [sop] =>
      let curr := sem_at (sem_base (sma st)) (sem_num sop) in
      match sem_waiters curr with
      | [] => Some false
      | h :: _ =>
          if negb (semval curr =? 0) then
            if sem_op sop >=? 0 then None else Some false
          else
            match queues st !! h with
            | Some hq =>
                match q_sops hq with
                | [hop] =>
                    if negb (sem_num hop =? sem_num sop)%nat then None
                    else Some (sem_op hop =? 0)
                | _ => None
                end
            | None => None
            end
      end
  | _ => Some true
  end.

Definition wake_up_sem_queue_prepare (pt : list ptr) (q : ptr) (error : Z)
    (qs : gmap ptr sem_queue) : list ptr * gmap ptr sem_queue :=
  (pt ++ [q],
   alter (fun x => {| q_sleeper := q_sleeper x; q_undo := q_undo x; q_pid := error;
                      q_status := IN_WAKEUP; q_sops := q_sops x; q_alter := q_alter x |}) q qs).

Definition wake_up_sem_queue_do (pt : list ptr) (qs : gmap ptr sem_queue) : gmap ptr sem_queue :=
  foldl (fun qs q =>
    alter (fun x => {| q_sleeper := q_sleeper x; q_undo := q_undo x; q_pid := q_pid x;
                       q_status := q_pid x; q_sops := q_sops x; q_alter := q_alter x |}) q qs)
    qs pt.

(** ** update_queue *)

(** One pass over the pending list, from [walk] to its end. The list is the
    one of the set ([semnum = None], the code's -1) or the one of a single
    semaphore. Result: the walk ended, [goto again], or a [BUG_ON]. *)
Inductive walk_end :=
| WalkDone (st : sem_state) (pt : list ptr) (completed : bool)
| WalkAgain (st : sem_state) (pt : list ptr)
| WalkBug.

Fixpoint walk_pending (semnum : option nat) (walk : list ptr) (st : sem_state)
    (pt : list ptr) (completed : bool) : walk_end :=
  match walk with
  | [] => WalkDone st pt completed
  | q :: walk =>
      match queues st !! q with
      | None => WalkBug
      | Some sq =>
          if match semnum with
             | Some n => (semval (sem_at (sem_base (sma st)) n) =? 0) && q_alter sq
             | None => false
             end
          then WalkDone st pt completed
          else
            let '(error, st) := try_semop_on st (q_sops sq) (q_undo sq) (q_pid sq) in
            if error >? 0 then walk_pending semnum walk st pt completed
            else
              let st := {| sma := unlink_queue q sq (sma st); queues := queues st;
                           undos := undos st |} in
              if negb (error =? 0) then
                let '(pt, qs) := wake_up_sem_queue_prepare pt q error (queues st) in
                walk_pending semnum walk
                  {| sma := sma st; queues := qs; undos := undos st |} pt completed
              else
                match check_restart st sq with
                | None => WalkBug
                | Some restart =>
                    let '(pt, qs) := wake_up_sem_queue_prepare pt q error (queues st) in
                    let st := {| sma := sma st; queues := qs; undos := undos st |} in
                    if restart then WalkAgain st pt
                    else walk_pending semnum walk st pt true
                end
      end
  end.

Definition pending_list (semnum : option nat) (a : sem_array) : list ptr :=
  match semnum with
  | None => sem_pending a
  | Some n => sem_waiters (sem_at (sem_base a) n)
  end.

(** [goto again] has completed at least one operation, hence the [true]. *)
Fixpoint update_queue_loop (fuel : nat) (semnum : option nat) (st : sem_state)
    (pt : list ptr) (completed : bool) : option (sem_state * list ptr * bool) :=
  match fuel with
  | O => None
  | S fuel =>
      match walk_pending semnum (pending_list semnum (sma st)) st pt completed with
      | WalkDone st pt completed => Some (st, pt, completed)
      | WalkAgain st pt => update_queue_loop fuel semnum st pt true
      | WalkBug => None
      end
  end.

(** Every [goto again] has removed an entry, so the number of pending entries
    bounds the passes ([update_queue_total] below). *)
Definition update_queue (semnum : option nat) (st : sem_state) (pt : list ptr)
    : option (sem_state * list ptr * bool) :=
  let semnum := if negb (complex_count (sma st) =? 0) then None else semnum in
  update_queue_loop (S (length (pending_list semnum (sma st)))) semnum st pt false.

Definition set_otime (now : Z) (a : sem_array) : sem_array :=
  {| sem_perm := sem_perm a; sem_otime := now; sem_ctime := sem_ctime a;
     sem_base := sem_base a; sem_pending := sem_pending a; list_id := list_id a;
     sem_nsems := sem_nsems a; complex_count := complex_count a |}.

Fixpoint smart_update_loop (sops : list sembuf) (st : sem_state) (pt : list ptr) (otime : bool)
    : option (sem_state * list ptr * bool) :=
  match sops with
  | [] => Some (st, pt, otime)
  | sop :: sops =>
      if (sem_op sop >? 0) ||
         ((sem_op sop <? 0) && (semval (sem_at (sem_base (sma st)) (sem_num sop)) =? 0))
      then
        match update_queue (Some (sem_num sop)) st pt with
        | None => None
        | Some (st, pt, c) => smart_update_loop sops st pt (if c then true else otime)
        end
      else smart_update_loop sops st pt otime
  end.

(** [sops = None] is the [NULL] of SETVAL, SETALL and exit_sem. *)
Definition do_smart_update (now : Z) (sops : option (list sembuf)) (otime : bool)
    (st : sem_state) (pt : list ptr) : option (sem_state * list ptr) :=
  let fin '(st, pt, otime) :=
    (if (otime : bool)
     then {| sma := set_otime now (sma st); queues := queues st; undos := undos st |}
     else st, pt) in
  match sops with
  | Some l =>
      if negb (complex_count (sma st) =? 0) then
        match update_queue None st pt with
        | None => None
        | Some (st, pt, c) => Some (fin (st, pt, if c then true else otime))
        end
      else
        match smart_update_loop l st pt otime with
        | None => None
        | Some r => Some (fin r)
        end
  | None =>
      match update_queue None st pt with
      | None => None
      | Some (st, pt, c) => Some (fin (st, pt, if c then true else otime))
      end
  end.

(** ** All-or-nothing *)

Lemma alter_semval_same n b :
  alter (set_semval (fun _ => semval (sem_at b n))) n b = b.
Proof.
  apply list_eq; intros i. destruct (decide (n = i)) as [->|Hne].
  - rewrite list_lookup_alter_eq. unfold sem_at. destruct (b !! i) as [[]|]; done.
  - by rewrite list_lookup_alter_ne.
Qed.

Lemma semop_rollback_step b sop dn v :
  v = semval (sem_at b (sem_num sop)) + sem_op sop ->
  semop_rollback (alter (set_semval (fun _ => v)) (sem_num sop) b) (sop :: dn)
  = semop_rollback b dn.
Proof.
  intros ->. simpl. f_equal. rewrite list_alter_alter_eq.
  etrans; [|apply (alter_semval_same (sem_num sop) b)].
  apply list_alter_ext; [|done]. intros s _. unfold set_semval, compose. simpl. f_equal. lia.
Qed.

(** Whatever was done before the failing operation is undone. *)
Lemma semop_loop_rollback sops : forall b adj dn,
  match semop_loop b adj dn sops with
  | AllDone _ _ => True
  | WouldBlock b' dn' _ | OutOfRange b' dn' => semop_rollback b' dn' = semop_rollback b dn
  end.
Proof.
  induction sops as [|sop rest IH]; intros b adj dn; simpl; [done|].
  repeat case_if; try done.
  set (v := semval (sem_at b (sem_num sop)) + sem_op sop).
  specialize (IH (alter (set_semval (fun _ => v)) (sem_num sop) b) adj (sop :: dn)).
  rewrite (semop_rollback_step b sop dn v) in IH by done.
  destruct (semop_loop _ _ _ rest); done.
Qed.

Lemma try_fail_unchanged b adj sops pid err b' adj' :
  try_atomic_semop b adj sops pid = (err, b', adj') -> err <> 0 -> b' = b /\ adj' = adj.
Proof.
  unfold try_atomic_semop. intros Ht Herr.
  pose proof (semop_loop_rollback sops b adj []) as Hr.
  destruct (semop_loop b adj [] sops) eqn:El.
  - destruct (semop_commit _ _ _ _). congruence.
  - simplify_eq. done.
  - simplify_eq. done.
Qed.

(** ** Reference semantics

    The same operations on a plain vector of values, with no partial writes
    and no bookkeeping: the result code and the values after a success. *)

Definition val_at (vs : list Z) (n : nat) : Z := default 0 (vs !! n).

Fixpoint semop_run (vs adj : list Z) (sops : list sembuf) : Z * list Z :=
  match sops with
  | [] => (0, vs)
  | sop :: rest =>
      let v := val_at vs (sem_num sop) in
      let v' := v + sem_op sop in
      if (sem_op sop =? 0) && negb (v =? 0) || (v' <? 0)
      then (if has (sem_flg sop) IPC_NOWAIT then - EAGAIN else 1, vs)
      else if (v' >? SEMVMX) ||
              has (sem_flg sop) SEM_UNDO &&
              ((adj_at adj (sem_num sop) - sem_op sop <? - SEMAEM - 1)
               || (adj_at adj (sem_num sop) - sem_op sop >? SEMAEM))
      then (- ERANGE, vs)
      else semop_run (alter (fun _ => v') (sem_num sop) vs) adj rest
  end.

Definition vals (b : list sem) : list Z := semval <$> b.

(** ** The whole effect of a list of operations

    semop(2) read off operation by operation, on the values and on the
    adjustments together: an operation that must wait or leaves a range ends
    the call, and the next one sees what the ones before it did. *)

Fixpoint semop_seq (vs adj : list Z) (sops : list sembuf) : Z + (list Z * list Z) :=
  match sops with
  | [] => inr (vs, adj)
  | Sembuf n op flg :: rest =>
      let v := val_at vs n in
      let a := if has flg SEM_UNDO then adj_at adj n - op else adj_at adj n in
      if decide ((op = 0 /\ v <> 0) \/ v + op < 0) then inl (if has flg IPC_NOWAIT then - EAGAIN else 1)
      else if decide (SEMVMX < v + op \/ (has flg SEM_UNDO = true /\ ~ - SEMAEM - 1 <= a <= SEMAEM)) then inl (- ERANGE)
      else semop_seq (<[n := v + op]> vs) (<[n := a]> adj) rest
  end.

(** The set after a success: the new values, and the caller's pid on the
    semaphores the call named. *)
Definition semop_after (vs : list Z) (pid : Z) (sops : list sembuf) (b : list sem) : list sem :=
  imap (fun n s => {| semval := val_at vs n; sempid := if decide (n ∈ sem_num <$> sops) then pid else sempid s; sem_waiters := sem_waiters s |}) b.

(** No semaphore is named by two operations with [SEM_UNDO]. *)
Definition undo_once (sops : list sembuf) : Prop :=
  NoDup (sem_num <$> filter (fun sop => has (sem_flg sop) SEM_UNDO = true) sops).

Lemma vals_at b n : semval (sem_at b n) = val_at (vals b) n.
Proof. unfold sem_at, val_at, vals. rewrite list_lookup_fmap. by destruct (b !! n). Qed.

Lemma vals_alter f n b : vals (alter (set_semval f) n b) = alter f n (vals b).
Proof. unfold vals. apply list_fmap_alter. by apply Forall_true. Qed.

Lemma vals_alter_pid pid n b : vals (alter (set_sempid pid) n b) = vals b.
Proof.
  unfold vals. rewrite (list_fmap_alter _ _ id) by (by apply Forall_true).
  by apply list_alter_id.
Qed.

Lemma vals_commit dn : forall b adj pid, vals (semop_commit b adj pid dn).1 = vals b.
Proof.
  induction dn as [|sop dn IH]; intros; simpl; [done|].
  by rewrite IH, vals_alter_pid.
Qed.

Lemma semop_loop_run sops : forall b adj dn,
  match semop_loop b adj dn sops with
  | AllDone b' _ => semop_run (vals b) adj sops = (0, vals b')
  | OutOfRange _ _ => (semop_run (vals b) adj sops).1 = - ERANGE
  | WouldBlock _ _ sop =>
      (semop_run (vals b) adj sops).1 = if has (sem_flg sop) IPC_NOWAIT then - EAGAIN else 1
  end.
Proof.
  induction sops as [|sop rest IH]; intros b adj dn; simpl; [done|].
  rewrite !vals_at.
  destruct ((sem_op sop =? 0) && negb (val_at (vals b) (sem_num sop) =? 0)) eqn:E1; simpl; [done|].
  destruct (val_at (vals b) (sem_num sop) + sem_op sop <? 0) eqn:E2; simpl; [done|].
  destruct (_ >? SEMVMX) eqn:E3; simpl; [done|].
  destruct (has (sem_flg sop) SEM_UNDO && _) eqn:E4; simpl; [done|].
  rewrite <- (vals_alter (fun _ => val_at (vals b) (sem_num sop) + sem_op sop)). apply IH.
Qed.

(** [try_atomic_semop] refines the reference: same result, and the values move
    exactly when the result is 0. *)
Lemma try_refines_run b adj sops pid err b' adj' :
  try_atomic_semop b adj sops pid = (err, b', adj') ->
  err = (semop_run (vals b) adj sops).1 /\
  vals b' = (if err =? 0 then (semop_run (vals b) adj sops).2 else vals b).
Proof.
  intros Ht. pose proof (semop_loop_run sops b adj []) as Hl.
  destruct (decide (err = 0)) as [->|Hne].
  - unfold try_atomic_semop in Ht. destruct (semop_loop b adj [] sops) as [b1 d1|? ? s1|]; simpl in *.
    + pose proof (vals_commit d1 b1 adj pid) as Hc. destruct (semop_commit _ _ _ _); simpl in *.
      simplify_eq. rewrite Hl. simpl. by rewrite Hc.
    + exfalso. simplify_eq. destruct (has (sem_flg s1) IPC_NOWAIT); discriminate.
    + exfalso. simplify_eq.
  - destruct (try_fail_unchanged _ _ _ _ _ _ _ Ht Hne) as [-> ->].
    assert ((err =? 0) = false) as -> by (by apply Z.eqb_neq).
    split; [|done]. unfold try_atomic_semop in Ht.
    destruct (semop_loop b adj [] sops); simpl in *.
    + destruct (semop_commit _ _ _ _). congruence.
    + rewrite Hl. by simplify_eq.
    + rewrite Hl. by simplify_eq.
Qed.

(** ** Well-formedness of a set and its queues *)

Definition is_simple (qs : gmap ptr sem_queue) (q : ptr) : bool :=
  match qs !! q with
  | Some sq => (length (q_sops sq) =? 1)%nat
  | None => false
  end.

Definition simple_on (qs : gmap ptr sem_queue) (n : nat) (q : ptr) : bool :=
  match qs !! q with
  | Some sq => match q_sops sq with [sop] => (sem_num sop =? n)%nat | _ => false end
  | None => false
  end.

Definition alters (qs : gmap ptr sem_queue) (q : ptr) : bool :=
  match qs !! q with Some sq => q_alter sq | None => false end.

Definition is_short (x : Z) : Prop := -32768 <= x <= 32767.

(** What [semtimedop] guarantees of an entry it queues. A single operation that
    sleeps is a decrement or a wait for zero: an increment never blocks. *)
Record entry_ok (nsems : nat) (sq : sem_queue) : Prop := {
  entry_sops : q_sops sq <> [];
  entry_range : Forall (fun sop => (sem_num sop < nsems)%nat /\ is_short (sem_op sop)) (q_sops sq);
  entry_alter : q_alter sq = existsb (fun sop => negb (sem_op sop =? 0)) (q_sops sq);
  entry_simple sop : q_sops sq = [sop] ->
    sem_op sop <= 0 /\ has (sem_flg sop) IPC_NOWAIT = false
}.

Record set_wf (st : sem_state) : Prop := {
  wf_nodup : NoDup (sem_pending (sma st));
  wf_entry q : q ∈ sem_pending (sma st) ->
    exists sq, queues st !! q = Some sq /\ entry_ok (length (sem_base (sma st))) sq;
  wf_waiters n s : sem_base (sma st) !! n = Some s ->
    sem_waiters s = filter (fun q => simple_on (queues st) n q = true) (sem_pending (sma st));
  wf_complex : complex_count (sma st) =
    Z.of_nat (length (filter (fun q => is_simple (queues st) q = false) (sem_pending (sma st))));
  wf_order : exists l1 l2, sem_pending (sma st) = l1 ++ l2 /\
    Forall (fun q => alters (queues st) q = false) l1 /\
    Forall (fun q => alters (queues st) q = true) l2;
  wf_vals : Forall (fun v => 0 <= v <= SEMVMX) (vals (sem_base (sma st)));
  wf_undo u x : undos st !! u = Some x -> Forall is_short (semadj x)
}.

(** What [update_queue] does with an entry it is done with. *)
Definition finish (st : sem_state) (q : ptr) (sq : sem_queue) (error : Z) : sem_state :=
  {| sma := unlink_queue q sq (sma st);
     queues := (wake_up_sem_queue_prepare [] q error (queues st)).2;
     undos := undos st |}.

(** The entries other than their result fields. *)
Lemma prepare_lookup pt q error (qs : gmap ptr sem_queue) q' :
  (wake_up_sem_queue_prepare pt q error qs).2 !! q' =
  match qs !! q' with
  | Some x => Some (if decide (q = q')
                    then {| q_sleeper := q_sleeper x; q_undo := q_undo x; q_pid := error;
                            q_status := IN_WAKEUP; q_sops := q_sops x; q_alter := q_alter x |}
                    else x)
  | None => None
  end.
Proof.
  simpl. rewrite lookup_alter. case_decide; subst; [|by destruct (qs !! q')].
  by destruct (qs !! q').
Qed.

Lemma prepare_is_simple pt q error qs q' :
  is_simple (wake_up_sem_queue_prepare pt q error qs).2 q' = is_simple qs q'.
Proof. unfold is_simple. rewrite prepare_lookup. destruct (qs !! q'); [case_decide|]; done. Qed.

Lemma prepare_simple_on pt q error qs n q' :
  simple_on (wake_up_sem_queue_prepare pt q error qs).2 n q' = simple_on qs n q'.
Proof. unfold simple_on. rewrite prepare_lookup. destruct (qs !! q'); [case_decide|]; done. Qed.

Lemma prepare_alters pt q error qs q' :
  alters (wake_up_sem_queue_prepare pt q error qs).2 q' = alters qs q'.
Proof. unfold alters. rewrite prepare_lookup. destruct (qs !! q'); [case_decide|]; done. Qed.

Lemma vals_unlink q sq a : vals (sem_base (unlink_queue q sq a)) = vals (sem_base a).
Proof.
  simpl. case_if; [|done]. unfold vals. rewrite <- list_fmap_compose. by apply list_fmap_ext.
Qed.

Lemma length_unlink q sq a : length (sem_base (unlink_queue q sq a)) = length (sem_base a).
Proof. simpl. case_if; [|done]. by rewrite length_fmap. Qed.

Lemma filter_del_length q (f : ptr -> bool) l :
  NoDup l -> q ∈ l ->
  length (filter (fun x => f x = false) l) =
  (length (filter (fun x => f x = false) (list_del q l)) + if f q then 0 else 1)%nat.
Proof.
  intros Hnd Hin. rewrite <- list_del_filter.
  destruct (f q) eqn:E.
  - rewrite list_del_notin; [lia|]. rewrite list_elem_of_filter. intros [? _]. congruence.
  - rewrite (list_del_length q (filter _ l)); [lia| |].
    + by apply NoDup_filter.
    + by rewrite list_elem_of_filter.
Qed.

Lemma wf_finish st q sq error :
  set_wf st -> q ∈ sem_pending (sma st) -> queues st !! q = Some sq ->
  set_wf (finish st q sq error).
Proof.
  intros W Hin Hq. constructor.
  - simpl. unfold list_del. apply NoDup_filter, W.
  - intros q' Hin'. simpl in Hin'. apply elem_of_list_del in Hin' as [Hin' Hne].
    destruct (wf_entry st W q' Hin') as (sq' & Hq' & Hok).
    exists sq'. unfold finish. cbn [queues sma]. rewrite prepare_lookup, Hq', length_unlink.
    rewrite decide_False by congruence. done.
  - intros n s Hs. unfold finish in *. cbn [queues sma] in *.
    rewrite (list_filter_iff _ (fun x => simple_on (queues st) n x = true))
      by (intros x; by rewrite prepare_simple_on).
    simpl in *. destruct (length (q_sops sq) =? 1)%nat eqn:E1.
    + rewrite list_lookup_fmap in Hs. destruct (sem_base (sma st) !! n) as [s0|] eqn:Es0; [|done].
      simpl in Hs. simplify_eq. simpl. rewrite (wf_waiters st W n s0 Es0). apply list_del_filter.
    + rewrite (wf_waiters st W n s Hs), <- list_del_filter, list_del_notin; [done|].
      rewrite list_elem_of_filter. intros [Hso _]. unfold simple_on in Hso. rewrite Hq in Hso.
      destruct (q_sops sq) as [|? []]; simpl in *; done.
  - unfold finish. cbn [queues sma].
    rewrite (list_filter_iff _ (fun x => is_simple (queues st) x = false))
      by (intros x; by rewrite prepare_is_simple).
    simpl. rewrite (wf_complex st W).
    rewrite (filter_del_length q (is_simple (queues st))) by (done || apply W).
    assert (is_simple (queues st) q = (length (q_sops sq) =? 1)%nat) as ->
      by (unfold is_simple; by rewrite Hq).
    destruct (length (q_sops sq) =? 1)%nat; lia.
  - destruct (wf_order st W) as (l1 & l2 & Hp & H1 & H2).
    exists (list_del q l1), (list_del q l2). unfold finish. cbn [queues sma].
    change (sem_pending (unlink_queue q sq (sma st))) with (list_del q (sem_pending (sma st))).
    rewrite Hp, list_del_app. split; [done|].
    split; apply Forall_forall; intros x Hx; apply elem_of_list_del in Hx as [Hx _].
    + rewrite prepare_alters. rewrite Forall_forall in H1. auto.
    + rewrite prepare_alters. rewrite Forall_forall in H2. auto.
  - unfold finish. cbn [sma]. rewrite vals_unlink. apply W.
  - apply W.
Qed.

(** ** A successful operation keeps the set well formed *)

Lemma semop_run_range sops : forall vs adj,
  Forall (fun v => 0 <= v <= SEMVMX) vs ->
  Forall (fun v => 0 <= v <= SEMVMX) (semop_run vs adj sops).2.
Proof.
  induction sops as [|sop rest IH]; intros vs adj Hv; simpl; [done|].
  destruct (_ || _) eqn:E1; [done|]. destruct (_ || _) eqn:E2 in |- *; [done|].
  apply IH. apply Forall_alter; [done|]. intros v _ _. zbool. lia.
Qed.

Lemma waits_alter_val f n (b : list sem) : sem_waiters <$> alter (set_semval f) n b = sem_waiters <$> b.
Proof.
  rewrite (list_fmap_alter _ _ id) by (by apply Forall_true). by apply list_alter_id.
Qed.

Lemma waits_alter_pid p n (b : list sem) : sem_waiters <$> alter (set_sempid p) n b = sem_waiters <$> b.
Proof.
  rewrite (list_fmap_alter _ _ id) by (by apply Forall_true). by apply list_alter_id.
Qed.

Lemma waits_loop sops : forall b adj dn,
  match semop_loop b adj dn sops with
  | AllDone b' _ | WouldBlock b' _ _ | OutOfRange b' _ => sem_waiters <$> b' = sem_waiters <$> b
  end.
Proof.
  induction sops as [|sop rest IH]; intros b adj dn; simpl; [done|].
  repeat case_if; try done.
  set (b1 := alter _ _ b). specialize (IH b1 adj (sop :: dn)).
  assert (sem_waiters <$> b1 = sem_waiters <$> b) as Hb1 by apply waits_alter_val.
  rewrite Hb1 in IH. by destruct (semop_loop b1 adj (sop :: dn) rest).
Qed.

Lemma waits_commit dn : forall b adj pid,
  sem_waiters <$> (semop_commit b adj pid dn).1 = sem_waiters <$> b.
Proof.
  induction dn as [|sop dn IH]; intros; simpl; [done|]. by rewrite IH, waits_alter_pid.
Qed.

Lemma commit_short dn : forall b adj pid,
  Forall is_short adj -> Forall is_short (semop_commit b adj pid dn).2.
Proof.
  induction dn as [|sop dn IH]; intros b adj pid Ha; simpl; [done|].
  apply IH. case_if; [|done]. apply Forall_alter; [done|]. intros a _ _.
  unfold is_short. pose proof (wraps_range 16 (a - sem_op sop) ltac:(lia)).
  change (wraps 16 (a - sem_op sop)) with (s16 (a - sem_op sop)) in *. lia.
Qed.

Lemma try_waits b adj sops pid err b' adj' :
  try_atomic_semop b adj sops pid = (err, b', adj') ->
  sem_waiters <$> b' = sem_waiters <$> b.
Proof.
  intros Ht. destruct (decide (err = 0)) as [->|Hne].
  - unfold try_atomic_semop in Ht. pose proof (waits_loop sops b adj []) as Hw.
    destruct (semop_loop b adj [] sops) as [b1 d1|? ? s1|].
    + pose proof (waits_commit d1 b1 adj pid) as Hc. destruct (semop_commit _ _ _ _).
      simplify_eq. simpl in Hc. by rewrite Hc.
    + exfalso. simplify_eq. destruct (has (sem_flg s1) IPC_NOWAIT); discriminate.
    + exfalso. simplify_eq.
  - by destruct (try_fail_unchanged _ _ _ _ _ _ _ Ht Hne) as [-> _].
Qed.

Lemma try_short b adj sops pid err b' adj' :
  try_atomic_semop b adj sops pid = (err, b', adj') -> Forall is_short adj -> Forall is_short adj'.
Proof.
  intros Ht Ha. unfold try_atomic_semop in Ht. destruct (semop_loop b adj [] sops) as [b1 d1|? ? s1|].
  - pose proof (commit_short d1 b1 adj pid Ha) as Hc. destruct (semop_commit _ _ _ _). by simplify_eq.
  - by simplify_eq.
  - by simplify_eq.
Qed.

Lemma undo_adj_short st un : set_wf st -> Forall is_short (undo_adj (undos st) un).
Proof.
  intros W. destruct un as [u|]; simpl; [|done].
  destruct (undos st !! u) eqn:E; [|done]. eapply W, E.
Qed.

Lemma set_undo_adj_same us un : set_undo_adj us un (undo_adj us un) = us.
Proof.
  destruct un as [u|]; simpl; [|done]. apply map_eq; intros i.
  rewrite lookup_alter. case_decide; subst; [|done]. by destruct (us !! i) as [[]|].
Qed.

Lemma set_base_same a : set_base (sem_base a) a = a.
Proof. by destruct a. Qed.

(** The view of a call through [try_semop_on]. *)
Lemma try_semop_on_spec st sops un pid err st1 :
  try_semop_on st sops un pid = (err, st1) ->
  err = (semop_run (vals (sem_base (sma st))) (undo_adj (undos st) un) sops).1 /\
  vals (sem_base (sma st1)) =
    (if err =? 0
     then (semop_run (vals (sem_base (sma st))) (undo_adj (undos st) un) sops).2
     else vals (sem_base (sma st))) /\
  (err <> 0 -> st1 = st) /\
  queues st1 = queues st /\
  sma st1 = set_base (sem_base (sma st1)) (sma st) /\
  sem_waiters <$> sem_base (sma st1) = sem_waiters <$> sem_base (sma st).
Proof.
  unfold try_semop_on. destruct (try_atomic_semop _ _ _ _) as [[e b] adj] eqn:Ht.
  intros ?; simplify_eq. simpl.
  destruct (try_refines_run _ _ _ _ _ _ _ Ht) as [He Hv].
  split; [done|]. split; [done|]. split.
  { intros Hne. destruct (try_fail_unchanged _ _ _ _ _ _ _ Ht Hne) as [-> ->].
    rewrite set_base_same, set_undo_adj_same. by destruct st. }
  split; [done|]. split; [done|]. by eapply try_waits.
Qed.

Lemma wf_try st sops un pid err st1 :
  set_wf st -> try_semop_on st sops un pid = (err, st1) -> set_wf st1.
Proof.
  intros W Ht. destruct (try_semop_on_spec _ _ _ _ _ _ Ht) as (He & Hv & Hf & Hqs & Hs & Hw).
  assert (length (sem_base (sma st1)) = length (sem_base (sma st))) as Hlen.
  { rewrite <- (length_fmap sem_waiters), Hw. apply length_fmap. }
  constructor.
  - rewrite Hs. apply W.
  - intros q. rewrite Hlen, Hs, Hqs. apply W.
  - intros n s Hn. assert ((sem_waiters <$> sem_base (sma st1)) !! n = Some (sem_waiters s)) as Hl.
    { by rewrite list_lookup_fmap, Hn. }
    rewrite Hw, list_lookup_fmap in Hl. destruct (sem_base (sma st) !! n) as [s0|] eqn:E; [|done].
    simpl in Hl. simplify_eq. rewrite <- Hl, Hs, Hqs. by eapply W.
  - rewrite Hs, Hqs. apply W.
  - rewrite Hs, Hqs. apply W.
  - rewrite Hv. case_if; [|apply W]. apply semop_run_range, W.
  - intros u x. unfold try_semop_on in Ht.
    destruct (try_atomic_semop _ _ _ _) as [[e b] adj] eqn:Ht1. simplify_eq. simpl.
    destruct un as [u'|]; simpl; [|apply W].
    rewrite lookup_alter. case_decide; subst; [|apply W].
    destruct (undos st !! u) eqn:Eu; [|done]. intros ?. simplify_eq/=.
    eapply try_short; [exact Ht1|]. by apply (undo_adj_short st (Some u)).
Qed.

(** ** Which sleepers stay blocked *)

Definition q_blocked (vs : list Z) (us : gmap ptr sem_undo) (sq : sem_queue) : Prop :=
  0 < (semop_run vs (undo_adj us (q_undo sq)) (q_sops sq)).1.

(** The entry [q] still has to sleep. *)
Definition blocked (st : sem_state) (q : ptr) : Prop :=
  exists sq, queues st !! q = Some sq /\ q_blocked (vals (sem_base (sma st))) (undos st) sq.

(** No sleeper could proceed: no wake-up is owed to anybody. *)
Definition stable (st : sem_state) : Prop := Forall (blocked st) (sem_pending (sma st)).

Lemma run_simple vs adj sop :
  0 < (semop_run vs adj [sop]).1 <->
  ((sem_op sop = 0 /\ val_at vs (sem_num sop) <> 0) \/ val_at vs (sem_num sop) + sem_op sop < 0)
  /\ has (sem_flg sop) IPC_NOWAIT = false.
Proof.
  simpl. set (v := val_at vs (sem_num sop)).
  assert ((sem_op sop =? 0) && negb (v =? 0) || (v + sem_op sop <? 0) = true <->
          (sem_op sop = 0 /\ v <> 0) \/ v + sem_op sop < 0) as Hb by lia.
  destruct ((sem_op sop =? 0) && negb (v =? 0) || (v + sem_op sop <? 0)).
  - destruct (has (sem_flg sop) IPC_NOWAIT); simpl; unfold EAGAIN; intuition lia.
  - assert (~ (0 < (if (v + sem_op sop >? SEMVMX) ||
       has (sem_flg sop) SEM_UNDO &&
       ((adj_at adj (sem_num sop) - sem_op sop <? - SEMAEM - 1)
        || (adj_at adj (sem_num sop) - sem_op sop >? SEMAEM))
      then (- ERANGE, vs)
      else (0, alter (fun _ => v + sem_op sop) (sem_num sop) vs)).1)) as Hn
      by (destruct (_ || _); simpl; unfold ERANGE; lia).
    intuition congruence.
Qed.

Lemma run_simple_ok vs adj sop :
  (semop_run vs adj [sop]).1 = 0 ->
  (semop_run vs adj [sop]).2 = alter (fun _ => val_at vs (sem_num sop) + sem_op sop) (sem_num sop) vs.
Proof.
  simpl. repeat case_if; simpl; try done.
Qed.

Lemma val_at_alter v n m vs :
  val_at (alter (fun _ => v) n vs) m = if decide (n = m /\ (n < length vs)%nat) then v else val_at vs m.
Proof.
  unfold val_at. rewrite list_lookup_alter. case_decide as D.
  - subst. case_decide as D2; [|by rewrite (lookup_ge_None_2 vs m) by lia].
    destruct (lookup_lt_is_Some_2 vs m) as [x ->]; [lia|]. done.
  - by rewrite decide_False by (intros [? ?]; done).
Qed.

Lemma alter_val_same n vs : alter (fun _ => val_at vs n) n vs = vs.
Proof.
  apply list_eq; intros i. rewrite list_lookup_alter. case_decide; [subst|done].
  unfold val_at. by destruct (vs !! i).
Qed.

(** Operations that only wait for zero change nothing. *)
Lemma run_zero sops : forall vs adj,
  Forall (fun sop => sem_op sop = 0) sops -> (semop_run vs adj sops).2 = vs.
Proof.
  induction sops as [|sop rest IH]; intros vs adj Hz; simpl; [done|].
  apply Forall_cons in Hz as [-> Hz]. rewrite Z.add_0_r, alter_val_same.
  repeat case_if; simpl; auto.
Qed.

Lemma semop_loop_done sops : forall b adj dn b' dn',
  semop_loop b adj dn sops = AllDone b' dn' -> dn' = reverse sops ++ dn.
Proof.
  induction sops as [|sop rest IH]; intros b adj dn b' dn' Hl; simpl in *; [by simplify_eq|].
  repeat case_if_in Hl; try discriminate. apply IH in Hl as ->.
  by rewrite reverse_cons, <- app_assoc.
Qed.

Lemma commit_zero dn : forall b adj pid,
  Forall (fun sop => sem_op sop = 0) dn -> Forall is_short adj ->
  (semop_commit b adj pid dn).2 = adj.
Proof.
  induction dn as [|sop dn IH]; intros b adj pid Hz Ha; simpl; [done|].
  apply Forall_cons in Hz as [-> Hz].
  assert (alter (fun a => s16 (a - 0)) (sem_num sop) adj = adj) as Hs.
  { apply list_eq; intros i. rewrite list_lookup_alter. case_decide; [subst|done].
    destruct (adj !! sem_num sop) eqn:E; [|done]. simpl. f_equal. rewrite Z.sub_0_r.
    rewrite Forall_lookup in Ha. apply Ha in E. unfold is_short in E.
    apply wraps_small; simpl; lia. }
  rewrite Hs. case_if; by apply IH.
Qed.

Lemma try_zero_undos st sops un pid err st1 :
  set_wf st -> Forall (fun sop => sem_op sop = 0) sops ->
  try_semop_on st sops un pid = (err, st1) -> undos st1 = undos st.
Proof.
  intros W Hz Ht. unfold try_semop_on in Ht.
  destruct (try_atomic_semop _ _ _ _) as [[e b] adj] eqn:Ht1. simplify_eq. simpl.
  enough (adj = undo_adj (undos st) un) as -> by apply set_undo_adj_same.
  unfold try_atomic_semop in Ht1.
  destruct (semop_loop _ _ [] sops) as [b1 d1|? ? s1|] eqn:El; [|by simplify_eq..].
  apply semop_loop_done in El as ->. rewrite app_nil_r in Ht1.
  pose proof (commit_zero (reverse sops) b1 (undo_adj (undos st) un) pid
                ltac:(by apply Forall_reverse) ltac:(by apply undo_adj_short)) as Hc.
  destruct (semop_commit _ _ _ _). by simplify_eq.
Qed.

Lemma entry_no_alter n sq :
  entry_ok n sq -> q_alter sq = false -> Forall (fun sop => sem_op sop = 0) (q_sops sq).
Proof.
  intros E Ha. rewrite (entry_alter _ _ E) in Ha. induction (q_sops sq) as [|s l IH]; [done|].
  simpl in Ha. zbool. constructor; auto.
Qed.

Lemma simple_on_iff st n q :
  simple_on (queues st) n q = true <->
  exists sq sop, queues st !! q = Some sq /\ q_sops sq = [sop] /\ sem_num sop = n.
Proof.
  unfold simple_on. split.
  - destruct (queues st !! q) as [sq|]; [|done].
    destruct (q_sops sq) as [|sop []] eqn:E; try done. intros H. zbool. eauto.
  - intros (sq & sop & -> & -> & ->). apply Nat.eqb_refl.
Qed.

(** The queue of one semaphore. *)
Lemma waiters_spec st n :
  set_wf st -> (n < length (sem_base (sma st)))%nat ->
  sem_waiters (sem_at (sem_base (sma st)) n) =
  filter (fun q => simple_on (queues st) n q = true) (sem_pending (sma st)).
Proof.
  intros W Hn. unfold sem_at. destruct (lookup_lt_is_Some_2 _ _ Hn) as [s Hs].
  rewrite Hs. simpl. by eapply W.
Qed.

Lemma no_complex_simple st q :
  set_wf st -> complex_count (sma st) = 0 -> q ∈ sem_pending (sma st) ->
  exists sq sop, queues st !! q = Some sq /\ q_sops sq = [sop] /\
                 entry_ok (length (sem_base (sma st))) sq.
Proof.
  intros W Hc Hq. destruct (wf_entry st W q Hq) as (sq & Hsq & Hok).
  rewrite (wf_complex st W) in Hc.
  destruct (is_simple (queues st) q) eqn:Es.
  - unfold is_simple in Es. rewrite Hsq in Es. destruct (q_sops sq) as [|sop []] eqn:E; try done. eauto 6.
  - exfalso. assert (q ∈ filter (fun q => is_simple (queues st) q = false) (sem_pending (sma st))) as Hin
      by (by apply list_elem_of_filter).
    destruct (filter _ _); [by apply not_elem_of_nil in Hin|]. simpl in Hc. lia.
Qed.

Lemma order_suffix (a : ptr -> bool) l1 l2 P q w :
  l1 ++ l2 = P ++ q :: w -> Forall (fun x => a x = false) l1 -> Forall (fun x => a x = true) l2 ->
  a q = true -> Forall (fun x => a x = true) w.
Proof.
  intros E H1 H2 Hq. revert P E. induction l1 as [|x l1 IH]; intros P E.
  - simpl in E. subst. apply Forall_app in H2 as [_ H2]. by apply Forall_cons in H2 as [_ H2].
  - apply Forall_cons in H1 as [Hx H1]. destruct P as [|p P]; simplify_eq/=; [congruence|].
    by eapply IH.
Qed.

(** Wait-for-zero operations come first, also in the queue of a semaphore. *)
Lemma waiters_order st n P q w :
  set_wf st -> (n < length (sem_base (sma st)))%nat ->
  sem_waiters (sem_at (sem_base (sma st)) n) = P ++ q :: w ->
  alters (queues st) q = true -> Forall (fun x => alters (queues st) x = true) w.
Proof.
  intros W Hn Hl Hq. rewrite waiters_spec in Hl by done.
  destruct (wf_order st W) as (l1 & l2 & Hp & H1 & H2). rewrite Hp, filter_app in Hl.
  eapply order_suffix; [exact Hl| | |done].
  - apply Forall_forall. intros x [_ Hx]%list_elem_of_filter. rewrite Forall_forall in H1. auto.
  - apply Forall_forall. intros x [_ Hx]%list_elem_of_filter. rewrite Forall_forall in H2. auto.
Qed.

(** ** One completed operation *)

Lemma finish_lookup st q sq err q' :
  q' <> q -> queues (finish st q sq err) !! q' = queues st !! q'.
Proof.
  intros Hne. unfold finish. cbn [queues]. rewrite prepare_lookup.
  destruct (queues st !! q'); [|done]. by rewrite decide_False by congruence.
Qed.

Lemma finish_blocked st q sq err q' :
  q' <> q -> blocked (finish st q sq err) q' <-> blocked st q'.
Proof.
  intros Hne. unfold blocked. rewrite finish_lookup by done.
  unfold finish. cbn [sma undos]. by rewrite vals_unlink.
Qed.

(** A single-operation entry is blocked by its own semaphore alone. *)
Lemma blocked_simple st q sq sop :
  queues st !! q = Some sq -> q_sops sq = [sop] ->
  blocked st q <->
  ((sem_op sop = 0 /\ val_at (vals (sem_base (sma st))) (sem_num sop) <> 0) \/
   val_at (vals (sem_base (sma st))) (sem_num sop) + sem_op sop < 0) /\
  has (sem_flg sop) IPC_NOWAIT = false.
Proof.
  intros Hq Hs. rewrite <- (run_simple _ (undo_adj (undos st) (q_undo sq))).
  unfold blocked, q_blocked. split.
  - intros (sq' & Hq' & Hb). simplify_eq. by rewrite Hs in Hb.
  - intros Hb. exists sq. by rewrite Hs.
Qed.

Lemma no_restart_alone st1 q sq sop st2 :
  st2 = {| sma := unlink_queue q sq (sma st1); queues := queues st1; undos := undos st1 |} ->
  q_alter sq = true -> complex_count (sma st2) = 0 -> q_sops sq = [sop] ->
  check_restart st2 sq = Some false ->
  sem_waiters (sem_at (sem_base (sma st2)) (sem_num sop)) = [] \/
  val_at (vals (sem_base (sma st1))) (sem_num sop) <> 0 \/
  (exists h w hq hop, sem_waiters (sem_at (sem_base (sma st2)) (sem_num sop)) = h :: w /\
     queues st1 !! h = Some hq /\ q_sops hq = [hop] /\ sem_op hop <> 0).
Proof.
  intros -> Ha Hc Hs Hr. unfold check_restart in Hr. rewrite Ha, Hs in Hr. cbn [negb] in Hr.
  cbn [sma queues] in *. rewrite Hc in Hr. cbn in Hr.
  set (curr := sem_at _ (sem_num sop)) in *.
  assert (semval curr = val_at (vals (sem_base (sma st1))) (sem_num sop)) as Hv.
  { unfold curr. rewrite vals_at. f_equal. apply (vals_unlink q sq (sma st1)). }
  destruct (sem_waiters curr) as [|h w]; [by left|].
  destruct (semval curr =? 0) eqn:E; cbn in Hr; [|zbool; right; left; congruence].
  destruct (queues st1 !! h) as [hq|] eqn:Eh; [|done].
  destruct (q_sops hq) as [|hop []] eqn:Eo; [done| |done].
  destruct (sem_num hop =? sem_num sop)%nat; cbn in Hr; [|done].
  simplify_eq. zbool. right; right. eauto 10.
Qed.

(** Once the head of a semaphore's queue is a decrement, all its entries are. *)
Lemma waiters_decrement st n h w hq hop q sq sop :
  set_wf st -> (n < length (sem_base (sma st)))%nat ->
  sem_waiters (sem_at (sem_base (sma st)) n) = h :: w ->
  queues st !! h = Some hq -> q_sops hq = [hop] -> sem_op hop <> 0 ->
  q ∈ h :: w -> queues st !! q = Some sq -> q_sops sq = [sop] -> sem_op sop < 0.
Proof.
  intros W Hn Hl Hh Eh Hz Hin Hq Es.
  assert (forall x xq xop, x ∈ h :: w -> queues st !! x = Some xq -> q_sops xq = [xop] ->
    alters (queues st) x = negb (sem_op xop =? 0) /\ sem_op xop <= 0) as Hx.
  { intros x xq xop Hx Ex Exo. rewrite <- Hl, waiters_spec in Hx by done.
    apply list_elem_of_filter in Hx as [_ Hx]. destruct (wf_entry st W x Hx) as (? & ? & Hok). simplify_eq.
    unfold alters. rewrite Ex, (entry_alter _ _ Hok), Exo. cbn [existsb]. rewrite orb_false_r.
    split; [done|]. by apply (entry_simple _ _ Hok). }
  destruct (Hx h hq hop ltac:(left) Hh Eh) as [Ha _].
  destruct (Hx q sq sop Hin Hq Es) as [Hb Hle].
  assert (alters (queues st) q = true) as Haq; [|rewrite Haq in Hb; lia].
  apply elem_of_cons in Hin as [->|Hin]; [rewrite Ha; lia|].
  pose proof (waiters_order st n [] h w W Hn Hl ltac:(rewrite Ha; lia)) as Ho.
  rewrite Forall_forall in Ho. by apply Ho.
Qed.

(** [check_restart] says no: either nothing was altered, or the last complex
    entry is gone and the completed entry was a single decrement. *)
Lemma no_restart_simple n st sq :
  entry_ok n sq -> check_restart st sq = Some false ->
  q_alter sq = false \/
  (complex_count (sma st) = 0 /\ exists sop, q_sops sq = [sop] /\ sem_op sop < 0).
Proof.
  intros Hok Hr. destruct (q_alter sq) eqn:Ha; [right|by left].
  unfold check_restart in Hr. rewrite Ha in Hr. cbn in Hr.
  destruct (complex_count (sma st) =? 0) eqn:Hc; [|done]. zbool. split; [done|].
  destruct (q_sops sq) as [|sop [|]] eqn:Eops; [by destruct (entry_sops _ _ Hok)| |done].
  exists sop. split; [done|]. destruct (entry_simple _ _ Hok sop Eops) as [Hle _].
  rewrite (entry_alter _ _ Hok), Eops in Ha. cbn in Ha. lia.
Qed.

(** A completed decrement leaves the other sleepers of its semaphore blocked,
    given what [check_restart] found in the queue. *)
Lemma decrement_blocked st2 vs n op q sq sop :
  set_wf st2 -> (n < length (sem_base (sma st2)))%nat ->
  q ∈ sem_pending (sma st2) -> queues st2 !! q = Some sq -> q_sops sq = [sop] -> sem_num sop = n ->
  op < 0 ->
  sem_waiters (sem_at (sem_base (sma st2)) n) = [] \/ val_at vs n + op <> 0 \/
  (exists h w hq hop, sem_waiters (sem_at (sem_base (sma st2)) n) = h :: w /\
     queues st2 !! h = Some hq /\ q_sops hq = [hop] /\ sem_op hop <> 0) ->
  (sem_op sop = 0 /\ val_at vs n <> 0) \/ val_at vs n + sem_op sop < 0 ->
  (sem_op sop = 0 /\ val_at vs n + op <> 0) \/ val_at vs n + op + sem_op sop < 0.
Proof.
  intros W Hn Hq Hsq Es Hm Hop Hcase Hb.
  assert (q ∈ sem_waiters (sem_at (sem_base (sma st2)) n)) as Hw.
  { rewrite waiters_spec, list_elem_of_filter by done. split; [|done]. apply simple_on_iff. eauto. }
  destruct Hcase as [Hn0|[Hn0|(h & w & hq & hop & Hn0 & Hh & Eh & Hz)]].
  - rewrite Hn0 in Hw. by apply not_elem_of_nil in Hw.
  - lia.
  - rewrite Hn0 in Hw. pose proof (waiters_decrement st2 n h w hq hop q sq sop W Hn Hn0 Hh Eh Hz Hw Hsq Es).
    lia.
Qed.

(** When [check_restart] says no, the entries already examined stay blocked. *)
Lemma no_restart_blocked st q sq st1 q' :
  set_wf st -> q ∈ sem_pending (sma st) -> queues st !! q = Some sq ->
  try_semop_on st (q_sops sq) (q_undo sq) (q_pid sq) = (0, st1) ->
  check_restart {| sma := unlink_queue q sq (sma st1); queues := queues st1;
                   undos := undos st1 |} sq = Some false ->
  q' ∈ sem_pending (sma st) -> q' <> q -> blocked st q' -> blocked st1 q'.
Proof.
  intros W Hq Hsq Ht Hr Hq' Hne Hb.
  destruct (try_semop_on_spec _ _ _ _ _ _ Ht) as (He & Hv & _ & Hqs & Hs & Hw).
  destruct (wf_entry st W q Hq) as (sq0 & ? & Hok); simplify_eq.
  pose proof (wf_try _ _ _ _ _ _ W Ht) as W1.
  pose proof (wf_finish st1 q sq 0 W1 ltac:(by rewrite Hs) ltac:(by rewrite Hqs)) as W2.
  cbn in Hv. symmetry in He.
  destruct (no_restart_simple _ _ _ Hok Hr) as [Ha|(Hc & sop & Eops & Hneg)].
  { pose proof (entry_no_alter _ _ Hok Ha) as Hz. destruct Hb as (sq' & ? & Hb).
    exists sq'. rewrite Hqs, Hv, (run_zero _ _ _ Hz), (try_zero_undos _ _ _ _ _ _ W Hz Ht). done. }
  assert (q_alter sq = true) as Ha by (rewrite (entry_alter _ _ Hok), Eops; cbn; lia).
  pose proof (no_restart_alone st1 q sq sop _ eq_refl Ha Hc Eops Hr) as Hcase.
  pose proof (entry_range _ _ Hok) as Hrg. rewrite Eops in *. apply Forall_cons in Hrg as [[Hlt _] _].
  rewrite run_simple_ok in Hv by done.
  assert (q' ∈ sem_pending (sma (finish st1 q sq 0))) as Hq2.
  { cbn. apply elem_of_list_del. by rewrite Hs. }
  destruct (no_complex_simple _ q' W2 Hc Hq2) as (sq' & sop' & Hsq' & Eops' & _).
  pose proof Hsq' as Hsq2. rewrite finish_lookup in Hsq' by done.
  rewrite (blocked_simple st1 q' sq' sop') by done.
  rewrite (blocked_simple st q' sq' sop') in Hb by (by rewrite <- ?Hqs).
  destruct Hb as [Hb Hnw]. split; [|done]. rewrite Hv, val_at_alter.
  case_decide as D; [|done]. destruct D as [D Hl]. rewrite <- D in *.
  apply (decrement_blocked (finish st1 q sq 0) _ _ _ q' sq'); try done.
  - cbn [finish sma]. rewrite length_unlink, <- (length_fmap sem_waiters), Hw, length_fmap. done.
  - rewrite Hv, val_at_alter, decide_True in Hcase by done.
    destruct Hcase as [Hn|[Hn|(h & w & hq & hop & Hn & Hh & Eh & Hz)]]; [by left|by right; left|].
    right; right. exists h, w, hq, hop. split; [done|]. split; [|done].
    rewrite finish_lookup; [done|]. intros ->.
    assert (q ∈ sem_waiters (sem_at (sem_base (unlink_queue q sq (sma st1))) (sem_num sop))) as Hin
      by (cbn [sma] in Hn; rewrite Hn; left).
    pose proof (waiters_spec (finish st1 q sq 0) (sem_num sop) W2) as Hwt. cbn [finish sma] in Hwt.
    rewrite length_unlink, <- (length_fmap sem_waiters), Hw, length_fmap in Hwt.
    rewrite Hwt in Hin by done. apply list_elem_of_filter in Hin as [_ Hin].
    by apply elem_of_list_del in Hin as [_ ?].
Qed.

(** ** update_queue *)

(** The parts of an entry, and of an undo structure, that only their owner sets. *)
Definition entry_body (sq : sem_queue) := (q_sops sq, q_undo sq, q_alter sq, q_sleeper sq).
Definition undo_shape (x : sem_undo) := (un_semid x, un_ulp x, length (semadj x)).

(** How the state may change while the entries of one set are completed: the
    entries that remain and everything that belongs to other sets stay as they
    are; the entries that leave have a result. *)
Record frame (st st' : sem_state) : Prop := {
  frame_pending : sem_pending (sma st') ⊆ sem_pending (sma st);
  frame_entry q : entry_body <$> queues st' !! q = entry_body <$> queues st !! q;
  frame_same q : q ∉ sem_pending (sma st) \/ q ∈ sem_pending (sma st') ->
    queues st' !! q = queues st !! q;
  frame_done q : q ∈ sem_pending (sma st) -> q ∉ sem_pending (sma st') ->
    exists sq, queues st' !! q = Some sq /\ q_status sq = IN_WAKEUP /\ q_pid sq ∈ [0; - EAGAIN; - ERANGE];
  frame_undo u :
    (forall q sq, q ∈ sem_pending (sma st) -> queues st !! q = Some sq -> q_undo sq <> Some u) ->
    undos st' !! u = undos st !! u;
  frame_shape u : undo_shape <$> undos st' !! u = undo_shape <$> undos st !! u;
  frame_perm : sem_perm (sma st') = sem_perm (sma st);
  frame_list_id : list_id (sma st') = list_id (sma st);
  frame_nsems : sem_nsems (sma st') = sem_nsems (sma st);
  frame_length : length (sem_base (sma st')) = length (sem_base (sma st))
}.

#[export] Instance frame_refl : Reflexive frame.
Proof. by constructor. Qed.

Lemma frame_undo_owner st st' q sq' :
  frame st st' -> queues st' !! q = Some sq' ->
  exists sq, queues st !! q = Some sq /\ entry_body sq = entry_body sq'.
Proof.
  intros F Hq. pose proof (frame_entry _ _ F q) as He. rewrite Hq in He.
  destruct (queues st !! q) as [sq|]; [|done]. exists sq. split; [done|].
  simpl in He. congruence.
Qed.

#[export] Instance frame_trans : Transitive frame.
Proof.
  intros x y z A B. constructor.
  - etrans; [apply (frame_pending _ _ B)|apply (frame_pending _ _ A)].
  - intros q. by rewrite (frame_entry _ _ B), (frame_entry _ _ A).
  - intros q [Hq|Hq].
    + rewrite (frame_same _ _ B), (frame_same _ _ A); [done|by left|].
      left. intros Hy. by apply Hq, (frame_pending _ _ A).
    + rewrite (frame_same _ _ B), (frame_same _ _ A); [done| |by right].
      right. by apply (frame_pending _ _ B).
  - intros q Hx Hz. destruct (decide (q ∈ sem_pending (sma y))) as [Hy|Hy].
    + by apply (frame_done _ _ B).
    + destruct (frame_done _ _ A q Hx Hy) as (sq & Hsq & ?). exists sq.
      rewrite (frame_same _ _ B) by (by left). done.
  - intros u Hu. rewrite (frame_undo _ _ B), (frame_undo _ _ A); [done|done|].
    intros q sq Hq Hsq. destruct (frame_undo_owner _ _ _ _ A Hsq) as (sq0 & Hsq0 & Eb).
    assert (q_undo sq = q_undo sq0) as -> by (unfold entry_body in Eb; congruence).
    by apply (Hu q); [apply (frame_pending _ _ A)|].
  - intros u. by rewrite (frame_shape _ _ B), (frame_shape _ _ A).
  - by rewrite (frame_perm _ _ B), (frame_perm _ _ A).
  - by rewrite (frame_list_id _ _ B), (frame_list_id _ _ A).
  - by rewrite (frame_nsems _ _ B), (frame_nsems _ _ A).
  - by rewrite (frame_length _ _ B), (frame_length _ _ A).
Qed.

(** What a run over [semnum] leaves alone. *)
Record keeps (semnum : option nat) (st st' : sem_state) : Prop := {
  keeps_frame : frame st st';
  keeps_complex n : semnum = Some n -> complex_count (sma st) = 0 -> complex_count (sma st') = 0;
  keeps_val n m : semnum = Some n -> complex_count (sma st) = 0 -> m <> n ->
    val_at (vals (sem_base (sma st'))) m = val_at (vals (sem_base (sma st))) m
}.

#[export] Instance keeps_refl semnum : Reflexive (keeps semnum).
Proof. by constructor. Qed.

#[export] Instance keeps_trans semnum : Transitive (keeps semnum).
Proof.
  intros x y z A B. constructor.
  - etrans; [apply (keeps_frame _ _ _ A)|apply (keeps_frame _ _ _ B)].
  - intros n E Hc. apply (keeps_complex _ _ _ B n E), (keeps_complex _ _ _ A n E Hc).
  - intros n m E Hc Hne.
    rewrite (keeps_val _ _ _ B n m E (keeps_complex _ _ _ A n E Hc) Hne).
    apply (keeps_val _ _ _ A n m E Hc Hne).
Qed.

Lemma keeps_length semnum st st' :
  keeps semnum st st' -> length (sem_base (sma st')) = length (sem_base (sma st)).
Proof. intros K. apply (keeps_frame _ _ _ K). Qed.

Lemma keeps_pending semnum st st' :
  keeps semnum st st' -> sem_pending (sma st') ⊆ sem_pending (sma st).
Proof. intros K. apply (keeps_frame _ _ _ K). Qed.

Lemma keeps_sops semnum st st' q :
  keeps semnum st st' -> q_sops <$> queues st' !! q = q_sops <$> queues st !! q.
Proof.
  intros K. pose proof (frame_entry _ _ (keeps_frame _ _ _ K) q) as He. unfold entry_body in He.
  destruct (queues st' !! q), (queues st !! q); simpl in *; congruence.
Qed.

Definition on_list (semnum : option nat) (qs : gmap ptr sem_queue) (q : ptr) : bool :=
  match semnum with None => true | Some n => simple_on qs n q end.

Lemma pending_list_spec semnum st :
  set_wf st -> (forall n, semnum = Some n -> (n < length (sem_base (sma st)))%nat) ->
  pending_list semnum (sma st) =
  filter (fun q => on_list semnum (queues st) q = true) (sem_pending (sma st)).
Proof.
  intros W Hn. destruct semnum as [n|]; simpl.
  - by apply waiters_spec, Hn.
  - induction (sem_pending (sma st)) as [|x l IH]; [done|].
    rewrite filter_cons_True by done. by f_equal.
Qed.

Lemma list_del_nodup q P w : NoDup (P ++ q :: w) -> list_del q (P ++ q :: w) = P ++ w.
Proof.
  intros Hnd. apply NoDup_app in Hnd as (_ & Hd & [Hq _]%NoDup_cons).
  apply list_del_middle; [|done]. intros Hin. eapply Hd; [exact Hin|left].
Qed.

(** Removing the entry [q] under the walk from both lists it is on. *)
Lemma pending_list_finish semnum st q sq err P w :
  set_wf st -> (forall n, semnum = Some n -> (n < length (sem_base (sma st)))%nat) ->
  queues st !! q = Some sq -> pending_list semnum (sma st) = P ++ q :: w ->
  q ∈ sem_pending (sma st) /\
  pending_list semnum (sma (finish st q sq err)) = P ++ w.
Proof.
  intros W Hn Hsq Hl. rewrite pending_list_spec in Hl by done.
  assert (q ∈ sem_pending (sma st)) as Hq.
  { assert (q ∈ P ++ q :: w) as Hin by (rewrite elem_of_app; right; left).
    rewrite <- Hl in Hin. by apply list_elem_of_filter in Hin as [_ ?]. }
  split; [done|].
  assert (NoDup (P ++ q :: w)) as Hnd by (rewrite <- Hl; apply NoDup_filter, W).
  rewrite <- (list_del_nodup q P w), <- Hl by done.
  rewrite pending_list_spec; [| by apply wf_finish |].
  - rewrite list_del_filter. apply list_filter_iff. intros x.
    destruct semnum; [|done]. unfold finish, on_list. cbn [queues]. by rewrite prepare_simple_on.
  - intros n E. unfold finish. cbn [sma]. rewrite length_unlink. by apply Hn.
Qed.

Lemma length_commit dn : forall b adj pid, length (semop_commit b adj pid dn).2 = length adj.
Proof.
  induction dn as [|sop dn IH]; intros; simpl; [done|]. rewrite IH.
  destruct (has _ _); [apply length_alter|done].
Qed.

Lemma try_adj_length b adj sops pid err b' adj' :
  try_atomic_semop b adj sops pid = (err, b', adj') -> length adj' = length adj.
Proof.
  unfold try_atomic_semop. destruct (semop_loop _ _ _ _) as [b1 d1| |]; [|by intros; simplify_eq..].
  pose proof (length_commit d1 b1 adj pid). destruct (semop_commit _ _ _ _). intros. by simplify_eq/=.
Qed.

(** The undo structures other than the caller's are not touched. *)
Lemma try_undos st sops un pid err st1 u :
  try_semop_on st sops un pid = (err, st1) ->
  (un <> Some u -> undos st1 !! u = undos st !! u) /\
  undo_shape <$> undos st1 !! u = undo_shape <$> undos st !! u.
Proof.
  unfold try_semop_on. destruct (try_atomic_semop _ _ _ _) as [[e b] adj] eqn:Ht.
  intros ?. simplify_eq. simpl. apply try_adj_length in Ht.
  destruct un as [u'|]; simpl in *; [|done]. rewrite lookup_alter.
  case_decide; subst; [|done]. split; [done|].
  destruct (undos st !! u) as [x|] eqn:E; simpl; [|done]. by unfold undo_shape; simpl; rewrite Ht.
Qed.

(** The result codes of a call. *)
Lemma run_codes sops : forall vs adj, (semop_run vs adj sops).1 ∈ [1; 0; - EAGAIN; - ERANGE].
Proof.
  induction sops as [|sop rest IH]; intros vs adj; cbn [semop_run]; [set_unfold; auto|].
  destruct (_ || _); [destruct (has _ _); set_unfold; auto|].
  destruct (_ || _); [set_unfold; auto 6|]. apply IH.
Qed.

Lemma frame_finish st q sq st1 err :
  q ∈ sem_pending (sma st) -> queues st !! q = Some sq -> err <= 0 ->
  try_semop_on st (q_sops sq) (q_undo sq) (q_pid sq) = (err, st1) ->
  frame st (finish st1 q sq err).
Proof.
  intros Hq Hsq Hle Ht.
  destruct (try_semop_on_spec _ _ _ _ _ _ Ht) as (He & _ & _ & Hqs & Hs & Hw).
  pose proof (fun u => try_undos _ _ _ _ _ _ u Ht) as Hu.
  assert (err ∈ [0; - EAGAIN; - ERANGE]) as Hcode.
  { pose proof (run_codes (q_sops sq) (vals (sem_base (sma st))) (undo_adj (undos st) (q_undo sq))) as Hc.
    rewrite <- He in Hc. apply elem_of_cons in Hc as [->|Hc]; [lia|done]. }
  constructor; unfold finish; cbn [sma queues undos].
  - intros x. simpl. rewrite elem_of_list_del, Hs. simpl. tauto.
  - intros x. rewrite prepare_lookup, Hqs. destruct (queues st !! x); [|done]. simpl. by case_decide.
  - intros x Hx. rewrite prepare_lookup, Hqs. destruct (queues st !! x); [|done].
    rewrite decide_False; [done|]. intros <-. destruct Hx as [|Hx]; [done|].
    simpl in Hx. by apply elem_of_list_del in Hx as [_ ?].
  - intros x Hx Hn. simpl in Hn. rewrite elem_of_list_del, Hs in Hn. simpl in Hn.
    destruct (decide (x = q)) as [->|]; [|tauto].
    rewrite prepare_lookup, Hqs, Hsq, decide_True by done. by eexists.
  - intros u Hun. apply Hu. by apply (Hun q).
  - intros u. apply Hu.
  - by rewrite Hs.
  - by rewrite Hs.
  - by rewrite Hs.
  - rewrite length_unlink. by rewrite <- (length_fmap sem_waiters), Hw, length_fmap.
Qed.

Lemma keeps_finish semnum st q sq st1 err :
  set_wf st -> queues st !! q = Some sq -> q ∈ pending_list semnum (sma st) ->
  (forall n, semnum = Some n -> (n < length (sem_base (sma st)))%nat) -> err <= 0 ->
  try_semop_on st (q_sops sq) (q_undo sq) (q_pid sq) = (err, st1) ->
  keeps semnum st (finish st1 q sq err).
Proof.
  intros W Hsq Hq Hn Hle Ht.
  destruct (try_semop_on_spec _ _ _ _ _ _ Ht) as (He & Hv & Hf & Hqs & Hs & Hw).
  rewrite pending_list_spec in Hq by done. apply list_elem_of_filter in Hq as [Hon Hqp].
  assert (forall n, semnum = Some n -> exists sop, q_sops sq = [sop] /\ sem_num sop = n) as Hone.
  { intros n ->. apply simple_on_iff in Hon as (sq' & sop & ? & ? & ?). simplify_eq. eauto. }
  constructor.
  - by apply frame_finish.
  - intros n E Hc. destruct (Hone n E) as (sop & Es & _). simpl. rewrite Es. simpl. rewrite Hs. done.
  - intros n m E Hc Hne. destruct (Hone n E) as (sop & Es & <-).
    unfold finish. cbn [sma]. rewrite vals_unlink, Hv. case_if; [|done]. zbool. subst err.
    rewrite Es in *. rewrite run_simple_ok by done. rewrite val_at_alter, decide_False; [done|].
    intros [? _]. congruence.
Qed.

(** The tail of the queue of a semaphore whose value is 0, from the first
    decrement on, need not be examined. *)
Lemma zero_tail_blocked st n P q sq w :
  set_wf st -> complex_count (sma st) = 0 -> (n < length (sem_base (sma st)))%nat ->
  pending_list (Some n) (sma st) = P ++ q :: w -> queues st !! q = Some sq ->
  semval (sem_at (sem_base (sma st)) n) = 0 -> q_alter sq = true -> Forall (blocked st) (q :: w).
Proof.
  intros W Hc Hn Hl Hsq Hv Ha.
  assert (alters (queues st) q = true) as Haq by (unfold alters; by rewrite Hsq).
  pose proof (waiters_order st n P q w W Hn Hl Haq) as Hall.
  apply Forall_forall. intros x Hx.
  assert (x ∈ P ++ q :: w) as Hin by (by apply elem_of_app; right).
  rewrite <- Hl, pending_list_spec in Hin by (done || (intros; by simplify_eq)).
  apply list_elem_of_filter in Hin as [Hon Hin].
  apply simple_on_iff in Hon as (xq & xop & Hxq & Eops & Hnum).
  destruct (wf_entry st W x Hin) as (xq' & ? & Hok). simplify_eq.
  assert (alters (queues st) x = true) as Hax.
  { apply elem_of_cons in Hx as [->|Hx]; [done|]. rewrite Forall_forall in Hall. by apply Hall. }
  unfold alters in Hax. rewrite Hxq, (entry_alter _ _ Hok), Eops in Hax. cbn in Hax.
  destruct (entry_simple _ _ Hok xop Eops) as [Hle Hnw].
  rewrite (blocked_simple st x xq xop) by done. rewrite vals_at in Hv. split; [|done]. right. lia.
Qed.

(** The BUG_ONs of [check_restart] cannot fire. *)
Lemma check_restart_total st q sq st1 :
  set_wf st -> q ∈ sem_pending (sma st) -> queues st !! q = Some sq ->
  try_semop_on st (q_sops sq) (q_undo sq) (q_pid sq) = (0, st1) ->
  is_Some (check_restart {| sma := unlink_queue q sq (sma st1); queues := queues st1;
                            undos := undos st1 |} sq).
Proof.
  intros W Hq Hsq Ht.
  destruct (try_semop_on_spec _ _ _ _ _ _ Ht) as (He & Hv & _ & Hqs & Hs & Hw).
  destruct (wf_entry st W q Hq) as (sq0 & ? & Hok); simplify_eq.
  pose proof (wf_try _ _ _ _ _ _ W Ht) as W1.
  pose proof (wf_finish st1 q sq 0 W1 ltac:(by rewrite Hs) ltac:(by rewrite Hqs)) as W2.
  unfold check_restart. destruct (q_alter sq) eqn:Ha; [|by eexists]. cbn [negb].
  case_if; [by eexists|]. destruct (q_sops sq) as [|sop []] eqn:Eops; [by eexists| |by eexists].
  cbn [sma queues].
  pose proof (entry_range _ _ Hok) as Hrg. rewrite Eops in Hrg. apply Forall_cons in Hrg as [[Hlt _] _].
  pose proof (waiters_spec (finish st1 q sq 0) (sem_num sop) W2) as Hwt.
  cbn [finish sma] in Hwt. rewrite length_unlink, <- (length_fmap sem_waiters), Hw, length_fmap in Hwt.
  specialize (Hwt Hlt).
  destruct (sem_waiters _) as [|h w] eqn:Ew; [by eexists|].
  assert (sem_op sop < 0) as Hneg.
  { destruct (entry_simple _ _ Hok sop Eops). rewrite (entry_alter _ _ Hok), Eops in Ha. cbn in Ha. lia. }
  case_if; [assert ((sem_op sop >=? 0) = false) as -> by lia; by eexists|].
  assert (h ∈ h :: w) as Hin by left. rewrite Hwt in Hin. apply list_elem_of_filter in Hin as [Hon _].
  apply simple_on_iff in Hon as (hq & hop & Hh & Eh & Hnum).
  assert (exists hq', queues st1 !! h = Some hq' /\ q_sops hq' = [hop]) as (hq' & -> & ->).
  { unfold finish in Hh. cbn [queues] in Hh. rewrite prepare_lookup in Hh.
    destruct (queues st1 !! h) as [x|]; [|done]. simplify_eq. case_decide; simpl in *; eauto. }
  rewrite Hnum, Nat.eqb_refl. by eexists.
Qed.

(** Every entry that leaves the queue is on the wake-up list, and no other. *)
Definition woken (st0 : sem_state) (pt0 : list ptr) (st : sem_state) (pt : list ptr) : Prop :=
  exists l, pt = pt0 ++ l /\ sem_pending (sma st0) ≡ₚ sem_pending (sma st) ++ l.

Lemma woken_refl st pt : woken st pt st pt.
Proof. exists []. by rewrite !app_nil_r. Qed.

Lemma woken_trans st0 pt0 st1 pt1 st2 pt2 :
  woken st0 pt0 st1 pt1 -> woken st1 pt1 st2 pt2 -> woken st0 pt0 st2 pt2.
Proof.
  intros (l1 & -> & P1) (l2 & -> & P2). exists (l1 ++ l2). rewrite <- app_assoc. split; [done|].
  rewrite P1, P2, <- app_assoc. by rewrite (Permutation_app_comm l2 l1).
Qed.

Lemma woken_finish st q sq err pt :
  set_wf st -> q ∈ sem_pending (sma st) -> woken st pt (finish st q sq err) (pt ++ [q]).
Proof.
  intros W Hq. exists [q]. split; [done|]. simpl.
  apply list_elem_of_split in Hq as (l1 & l2 & Hl). pose proof (wf_nodup st W) as Hnd.
  rewrite Hl in *. rewrite list_del_nodup by done.
  rewrite <- app_assoc. by rewrite (Permutation_app_comm l2 [q]).
Qed.

(** What one pass over the pending list establishes. *)
Definition walk_post (semnum : option nat) (st0 : sem_state) (pt0 : list ptr) (r : walk_end) : Prop :=
  match r with
  | WalkDone st pt _ =>
      set_wf st /\ Forall (blocked st) (pending_list semnum (sma st)) /\ keeps semnum st0 st /\
      woken st0 pt0 st pt
  | WalkAgain st pt =>
      set_wf st /\ keeps semnum st0 st /\ woken st0 pt0 st pt /\
      (length (pending_list semnum (sma st)) < length (pending_list semnum (sma st0)))%nat
  | WalkBug => False
  end.

Lemma walk_post_weaken semnum st0 pt0 st pt r :
  keeps semnum st0 st -> woken st0 pt0 st pt ->
  (length (pending_list semnum (sma st)) <= length (pending_list semnum (sma st0)))%nat ->
  walk_post semnum st pt r -> walk_post semnum st0 pt0 r.
Proof.
  intros K Hw Hl. destruct r as [st' pt' c|st' pt'|]; simpl; [intros (?&?&?&?)|intros (?&?&?&?)|done].
  - split; [done|]. split; [done|]. split; [by etrans|by eapply woken_trans].
  - split; [done|]. split; [by etrans|]. split; [by eapply woken_trans|lia].
Qed.

(** The side condition of a walk over the queue of one semaphore. *)
Definition walk_pre (semnum : option nat) (st : sem_state) : Prop :=
  forall n, semnum = Some n -> complex_count (sma st) = 0 /\ (n < length (sem_base (sma st)))%nat.

Lemma walk_pre_keeps semnum st st' : keeps semnum st st' -> walk_pre semnum st -> walk_pre semnum st'.
Proof.
  intros K Hp n E. destruct (Hp n E) as [Hc Hn]. split; [by eapply keeps_complex|].
  by rewrite (keeps_length _ _ _ K).
Qed.

Lemma pending_list_try semnum st sops un pid err st1 :
  try_semop_on st sops un pid = (err, st1) ->
  pending_list semnum (sma st1) = pending_list semnum (sma st).
Proof.
  intros Ht. destruct (try_semop_on_spec _ _ _ _ _ _ Ht) as (_ & _ & _ & _ & Hs & Hw).
  rewrite Hs. destruct semnum as [n|]; [|done]. simpl. unfold sem_at.
  apply (f_equal (fun l => l !! n)) in Hw. rewrite !list_lookup_fmap in Hw.
  destruct (sem_base (sma st1) !! n), (sem_base (sma st) !! n); simpl in *; congruence.
Qed.

Lemma pending_prefix semnum st P q w x :
  set_wf st -> (forall n, semnum = Some n -> (n < length (sem_base (sma st)))%nat) ->
  pending_list semnum (sma st) = P ++ q :: w -> x ∈ P -> x ∈ sem_pending (sma st) /\ x <> q.
Proof.
  intros W Hn Hl Hx. rewrite pending_list_spec in Hl by done.
  assert (x ∈ P ++ q :: w) as Hin by (rewrite elem_of_app; by left).
  assert (NoDup (P ++ q :: w)) as Hnd by (rewrite <- Hl; apply NoDup_filter, W).
  rewrite <- Hl in Hin. apply list_elem_of_filter in Hin as [_ Hin]. split; [done|].
  intros ->. apply NoDup_app in Hnd as (_ & Hd & _). eapply Hd; [exact Hx|left].
Qed.

Lemma walk_spec semnum walk : forall st pt c P,
  set_wf st -> walk_pre semnum st ->
  pending_list semnum (sma st) = P ++ walk -> Forall (blocked st) P ->
  walk_post semnum st pt (walk_pending semnum walk st pt c).
Proof.
  induction walk as [|q walk IH]; intros st pt c P W Hpre Hl HP.
  { simpl. rewrite app_nil_r in Hl. rewrite Hl.
    split; [done|]. split; [done|]. split; [done|apply woken_refl]. }
  assert (forall n, semnum = Some n -> (n < length (sem_base (sma st)))%nat) as Hn
    by (intros n En; apply (Hpre n En)).
  assert (q ∈ pending_list semnum (sma st)) as Hqin by (rewrite Hl, elem_of_app; right; left).
  assert (q ∈ sem_pending (sma st)) as Hqp.
  { rewrite pending_list_spec in Hqin by done. by apply list_elem_of_filter in Hqin as [_ ?]. }
  destruct (wf_entry st W q Hqp) as (sq & Hsq & Hok). cbn [walk_pending]. rewrite Hsq.
  case_if.
  { destruct semnum as [n|]; [|done]. zbool. destruct (Hpre n eq_refl) as [Hc Hlt].
    cbn [walk_post]. split; [done|]. split; [|split; [done|apply woken_refl]]. rewrite Hl. apply Forall_app. split; [done|].
    by eapply zero_tail_blocked. }
  clear E. destruct (try_semop_on st _ _ _) as [error st1] eqn:Ht.
  destruct (try_semop_on_spec _ _ _ _ _ _ Ht) as (He & _ & Hf & Hqs & _ & _).
  assert (set_wf st1) as W1 by (by eapply wf_try).
  case_if.
  { zbool. rewrite (Hf ltac:(lia)). apply (IH st pt c (P ++ [q])); [done..| |].
    - by rewrite <- app_assoc.
    - apply Forall_app. split; [done|]. constructor; [|done]. exists sq. split; [done|].
      unfold q_blocked. lia. }
  cbn [sma queues undos].
  assert (keeps semnum st (finish st1 q sq error)) as K by (zbool; by apply keeps_finish).
  clear E He.
  assert (Hpre' := walk_pre_keeps _ _ _ K Hpre).
  assert (pending_list semnum (sma st1) = P ++ q :: walk) as Hl1
    by (by rewrite (pending_list_try _ _ _ _ _ _ _ Ht)).
  assert (forall n, semnum = Some n -> (n < length (sem_base (sma st1)))%nat) as Hn1.
  { intros n E. rewrite <- (length_unlink q sq). apply (Hpre' n E). }
  destruct (pending_list_finish semnum st1 q sq error P walk W1 Hn1 ltac:(by rewrite Hqs) Hl1) as [Hq1 Hl2].
  pose proof (wf_finish st1 q sq error W1 Hq1 ltac:(by rewrite Hqs)) as W2.
  pose proof (fun x => pending_prefix semnum st P q walk x W Hn Hl) as HPin.
  assert (length (pending_list semnum (sma (finish st1 q sq error))) <
          length (pending_list semnum (sma st)))%nat as Hless.
  { rewrite Hl2, Hl, !length_app. simpl. lia. }
  assert (woken st pt (finish st1 q sq error) (pt ++ [q])) as Hwk.
  { destruct (woken_finish st1 q sq error pt W1 Hq1) as (l & El & HP1). exists l. split; [done|].
    destruct (try_semop_on_spec _ _ _ _ _ _ Ht) as (_ & _ & _ & _ & Hs & _). by rewrite Hs in HP1. }
  case_if.
  { zbool. eapply walk_post_weaken; [exact K|exact Hwk|lia|]. apply (IH (finish st1 q sq error) _ c P); [done..|].
    apply Forall_forall. intros x Hx. destruct (HPin x Hx). rewrite finish_blocked by done.
    rewrite (Hf E). rewrite Forall_forall in HP. by apply HP. }
  zbool. subst error.
  destruct (check_restart_total st q sq st1 W Hqp Hsq Ht) as [r Hr]. rewrite Hr.
  destruct r; cbn [wake_up_sem_queue_prepare].
  { cbn [walk_post]. split; [exact W2|]. split; [exact K|]. split; [exact Hwk|exact Hless]. }
  eapply walk_post_weaken; [exact K|exact Hwk|lia|].
  apply (IH (finish st1 q sq 0) _ true P); [done..|].
  apply Forall_forall. intros x Hx. destruct (HPin x Hx). rewrite finish_blocked by done.
  apply (no_restart_blocked st q sq st1 x); try done. rewrite Forall_forall in HP. by apply HP.
Qed.

Lemma update_queue_loop_spec semnum fuel : forall st pt c,
  set_wf st -> walk_pre semnum st -> (length (pending_list semnum (sma st)) < fuel)%nat ->
  exists st' pt' c', update_queue_loop fuel semnum st pt c = Some (st', pt', c') /\
    set_wf st' /\ Forall (blocked st') (pending_list semnum (sma st')) /\
    keeps semnum st st' /\ woken st pt st' pt'.
Proof.
  induction fuel as [|fuel IH]; intros st pt c W Hpre Hlt; [lia|]. cbn [update_queue_loop].
  pose proof (walk_spec semnum (pending_list semnum (sma st)) st pt c [] W Hpre eq_refl (Forall_nil_2 _))
    as Hp.
  destruct (walk_pending _ _ _ _ _) as [st' pt' c'|st' pt'|]; [|destruct Hp as (W' & K & Hw & Hl)|done].
  - exists st', pt', c'. split; [done|]. exact Hp.
  - destruct (IH st' pt' true W' ltac:(by eapply walk_pre_keeps) ltac:(lia))
      as (st2 & pt2 & c2 & E & W2 & Hb & K2 & Hw2).
    exists st2, pt2, c2. split; [done|]. split; [done|]. split; [done|].
    split; [by etrans|by eapply woken_trans].
Qed.

(** [update_queue] as its callers see it. *)
Lemma update_queue_spec semnum st pt :
  set_wf st -> (forall n, semnum = Some n -> (n < length (sem_base (sma st)))%nat) ->
  let semnum' := if negb (complex_count (sma st) =? 0) then None else semnum in
  exists st' pt' c, update_queue semnum st pt = Some (st', pt', c) /\
    set_wf st' /\ Forall (blocked st') (pending_list semnum' (sma st')) /\
    keeps semnum' st st' /\ woken st pt st' pt'.
Proof.
  intros W Hn semnum'. unfold update_queue. fold semnum'.
  apply update_queue_loop_spec; [done| |lia].
  intros n E. unfold semnum' in E. destruct (negb (complex_count (sma st) =? 0)) eqn:Ec; [done|].
  zbool. split; [done|]. by apply Hn.
Qed.

(** *** Termination and completeness of the full scan *)

Lemma update_queue_all st pt :
  set_wf st ->
  exists st' pt' c, update_queue None st pt = Some (st', pt', c) /\
    set_wf st' /\ stable st' /\ woken st pt st' pt' /\ frame st st'.
Proof.
  intros W. destruct (update_queue_spec None st pt W ltac:(done)) as (st' & pt' & c & E & W' & Hb & K & Hw).
  exists st', pt', c. split; [done|]. split; [done|].
  destruct (negb _); (split; [exact Hb|]; split; [done|]; apply K).
Qed.

(** ** do_smart_update *)

(** The sleepers on the semaphore [n] alone are all blocked. *)
Definition quiet (st : sem_state) (n : nat) : Prop :=
  forall q, q ∈ sem_pending (sma st) -> simple_on (queues st) n q = true -> blocked st q.

(** An operation that makes the loop look at the queue of [n]: the guard of
    [do_smart_update]. *)
Definition triggers (st : sem_state) (n : nat) (sop : sembuf) : Prop :=
  sem_num sop = n /\
  (0 < sem_op sop \/ sem_op sop < 0 /\ val_at (vals (sem_base (sma st))) n = 0).

Lemma quiet_stable st :
  set_wf st -> complex_count (sma st) = 0 -> (forall n, quiet st n) -> stable st.
Proof.
  intros W Hc Hq. apply Forall_forall. intros q Hin.
  destruct (no_complex_simple st q W Hc Hin) as (sq & sop & Hsq & Es & _).
  apply (Hq (sem_num sop)); [done|]. apply simple_on_iff. eauto.
Qed.

Lemma simple_on_keeps semnum st st' n q :
  keeps semnum st st' -> simple_on (queues st') n q = simple_on (queues st) n q.
Proof.
  intros K. pose proof (keeps_sops _ _ _ q K) as Hs. unfold simple_on.
  destruct (queues st' !! q), (queues st !! q); simplify_eq/=; [by rewrite Hs|done].
Qed.

(** What happens to one semaphore does not concern the sleepers on another. *)
Lemma quiet_keeps n m st st' :
  keeps (Some n) st st' -> complex_count (sma st) = 0 -> m <> n -> quiet st m -> quiet st' m.
Proof.
  intros K Hc Hne Hq q Hin Hon. rewrite (simple_on_keeps _ _ _ _ _ K) in Hon.
  specialize (Hq q ltac:(by apply (keeps_pending _ _ _ K)) Hon).
  apply simple_on_iff in Hon as (sq & sop & Hsq & Es & Hm).
  pose proof (keeps_sops _ _ _ q K) as Hs. rewrite Hsq in Hs.
  destruct (queues st' !! q) as [sq'|] eqn:Hsq'; simplify_eq/=.
  rewrite (blocked_simple st' q sq' sop) by congruence.
  rewrite (blocked_simple st q sq sop) in Hq by done.
  by rewrite (keeps_val _ _ _ K n (sem_num sop)).
Qed.

Lemma triggers_keeps n m st st' sop :
  keeps (Some n) st st' -> complex_count (sma st) = 0 -> m <> n ->
  triggers st m sop -> triggers st' m sop.
Proof. intros K Hc Hne [? ?]. split; [done|]. by rewrite (keeps_val _ _ _ K n m). Qed.

Lemma quiet_scanned st n :
  set_wf st -> (n < length (sem_base (sma st)))%nat ->
  Forall (blocked st) (pending_list (Some n) (sma st)) -> quiet st n.
Proof.
  intros W Hn Hb q Hin Hon. rewrite Forall_forall in Hb. apply Hb.
  simpl. rewrite waiters_spec by done. by apply list_elem_of_filter.
Qed.

(** The loop of [do_smart_update]: every semaphore is quiet or still has an
    operation to come that will make the loop visit it. *)
Lemma smart_update_loop_spec sops : forall st pt otime,
  set_wf st -> complex_count (sma st) = 0 ->
  Forall (fun sop => (sem_num sop < length (sem_base (sma st)))%nat) sops ->
  (forall n, quiet st n \/ Exists (triggers st n) sops) ->
  exists st' pt' otime', smart_update_loop sops st pt otime = Some (st', pt', otime') /\
    set_wf st' /\ stable st' /\ woken st pt st' pt' /\ frame st st'.
Proof.
  induction sops as [|sop sops IH]; intros st pt otime W Hc Hlt Hinv; cbn [smart_update_loop].
  { exists st, pt, otime. split; [done|]. split; [done|]. split; [|split; [apply woken_refl|done]].
    apply quiet_stable; [done..|]. intros n. destruct (Hinv n) as [|Hex]; [done|]. by inv Hex. }
  apply Forall_cons in Hlt as [Hs Hlt]. rewrite vals_at.
  destruct (_ || _) eqn:Eg.
  - destruct (update_queue_spec (Some (sem_num sop)) st pt W) as (st1 & pt1 & c & E & W1 & Hb & K & Hw).
    { intros n ?. by simplify_eq. }
    rewrite Hc in Hb, K. simpl in Hb, K. rewrite E.
    destruct (IH st1 pt1 (if c then true else otime) W1) as (st2 & pt2 & o2 & E2 & W2 & S2 & Hw2 & Hl2).
    + by eapply keeps_complex.
    + by rewrite (keeps_length _ _ _ K).
    + intros n. destruct (decide (n = sem_num sop)) as [->|Hne].
      { left. apply quiet_scanned; [done| |done]. by rewrite (keeps_length _ _ _ K). }
      destruct (Hinv n) as [Hq|Hex]; [left; by eapply quiet_keeps|].
      apply Exists_cons in Hex as [[? _]|Hex]; [congruence|]. right.
      eapply Exists_impl; [exact Hex|]. intros s. by eapply triggers_keeps.
    + exists st2, pt2, o2. split; [done|]. split; [done|]. split; [done|].
      split; [by eapply woken_trans|]. etrans; [apply (keeps_frame _ _ _ K)|done].
  - apply IH; [done..|]. intros n. destruct (Hinv n) as [|Hex]; [by left|].
    apply Exists_cons in Hex as [[<- Ht]|Hex]; [|by right]. exfalso. zbool. lia.
Qed.

(** *** What the triggering operations did to the sleepers *)

(** Without an increment of [n] its value cannot grow, and it stays where it
    is unless some operation decremented it. *)
Lemma run_values sops : forall vs adj vs' n,
  semop_run vs adj sops = (0, vs') ->
  Forall (fun sop => sem_num sop = n -> sem_op sop <= 0) sops ->
  val_at vs' n <= val_at vs n /\
  (val_at vs' n = val_at vs n \/ Exists (fun sop => sem_num sop = n /\ sem_op sop < 0) sops).
Proof.
  induction sops as [|sop rest IH]; intros vs adj vs' n Hr Hf; cbn [semop_run] in Hr.
  { simplify_eq. split; [done|by left]. }
  apply Forall_cons in Hf as [Hs Hf].
  destruct (_ || _) eqn:E1; [destruct (has _ _); done|]. destruct (_ || _) eqn:E2 in Hr; [done|].
  destruct (IH _ _ _ n Hr Hf) as [Hle Heq]. rewrite val_at_alter in Hle, Heq.
  case_decide as D; [destruct D as [D _]|split; [done|]; rewrite Exists_cons; tauto].
  subst n. specialize (Hs eq_refl). split; [lia|].
  rewrite Exists_cons. destruct (decide (sem_op sop = 0)); [|right; left; split; [done|lia]].
  destruct Heq as [->|]; [left; lia|tauto].
Qed.

(** After a successful call, a semaphore whose sleepers may proceed has an
    operation among [sops] that triggers a visit of its queue. *)
Lemma try_quiet_or_triggers st sops un pid st1 n :
  set_wf st -> stable st -> complex_count (sma st) = 0 ->
  try_semop_on st sops un pid = (0, st1) -> quiet st1 n \/ Exists (triggers st1 n) sops.
Proof.
  intros W S Hc Ht. destruct (try_semop_on_spec _ _ _ _ _ _ Ht) as (He & Hv & _ & Hqs & Hs & _).
  cbn in Hv. destruct (semop_run _ _ _) as [e vs'] eqn:Er. cbn in He, Hv. subst e.
  destruct (decide (Exists (fun sop => sem_num sop = n /\ 0 < sem_op sop) sops)) as [Hex|Hno].
  { right. eapply Exists_impl; [exact Hex|]. intros s [? ?]. split; [done|by left]. }
  destruct (run_values sops _ _ _ n Er) as [Hle Heq].
  { apply Forall_forall. intros s Hin E. apply Z.nlt_ge. intros Hlt. apply Hno, Exists_exists. eauto. }
  destruct (decide (val_at vs' n = val_at (vals (sem_base (sma st))) n \/ val_at vs' n <> 0)) as [Hk|Hz].
  2:{ right. destruct Heq as [|Hex]; [tauto|]. eapply Exists_impl; [exact Hex|].
      intros s [? ?]. split; [done|]. right. rewrite Hv. split; [done|].
      apply Decidable.not_or in Hz as [_ Hz]. lia. }
  left. intros q Hin Hon. rewrite Hs in Hin. rewrite Hqs in Hon.
  apply simple_on_iff in Hon as (sq & sop & Hsq & Es & <-).
  unfold stable in S. rewrite Forall_forall in S. specialize (S q Hin).
  rewrite (blocked_simple st q sq sop) in S by done.
  rewrite (blocked_simple st1 q sq sop), Hv by (rewrite ?Hqs; done).
  destruct S as [S ?]. split; [|done]. lia.
Qed.

Lemma set_otime_wf now st :
  set_wf st -> set_wf {| sma := set_otime now (sma st); queues := queues st; undos := undos st |}.
Proof. intros []. by constructor. Qed.

Lemma set_otime_frame now st0 st :
  frame st0 st -> frame st0 {| sma := set_otime now (sma st); queues := queues st; undos := undos st |}.
Proof. intros []. by constructor. Qed.

Definition smart_post (st : sem_state) (pt : list ptr) (r : option (sem_state * list ptr)) : Prop :=
  exists st' pt', r = Some (st', pt') /\ set_wf st' /\ stable st' /\ woken st pt st' pt' /\ frame st st'.

Lemma smart_full now otime st pt :
  set_wf st -> smart_post st pt (do_smart_update now None otime st pt).
Proof.
  intros W. destruct (update_queue_all st pt W) as (st' & pt' & c & E & W' & S & Hw & Hl).
  unfold do_smart_update. rewrite E. eexists _, _. split; [reflexivity|].
  destruct (if c then true else otime); [|tauto].
  split; [by apply set_otime_wf|]. split; [done|]. split; [done|by apply set_otime_frame].
Qed.

Lemma smart_sops now otime st sops un pid st1 pt :
  set_wf st -> stable st ->
  Forall (fun sop => (sem_num sop < length (sem_base (sma st)))%nat) sops ->
  try_semop_on st sops un pid = (0, st1) ->
  smart_post st1 pt (do_smart_update now (Some sops) otime st1 pt).
Proof.
  intros W S Hr Ht. pose proof (wf_try _ _ _ _ _ _ W Ht) as W1.
  destruct (try_semop_on_spec _ _ _ _ _ _ Ht) as (_ & _ & _ & _ & Hs & Hw).
  destruct (complex_count (sma st1) =? 0) eqn:Ec.
  2:{ generalize (smart_full now otime st1 pt W1). unfold do_smart_update. by rewrite Ec. }
  apply Z.eqb_eq in Ec. unfold do_smart_update. rewrite Ec. cbn [negb Z.eqb].
  destruct (smart_update_loop_spec sops st1 pt otime W1 Ec) as (st' & pt' & o & E & W' & S' & Hwk & Hl).
  - by rewrite <- (length_fmap sem_waiters), Hw, length_fmap.
  - intros n. apply (try_quiet_or_triggers st sops un pid); [done|done| |done]. by rewrite Hs in Ec.
  - rewrite E. eexists _, _. split; [reflexivity|]. destruct o; [|tauto].
    split; [by apply set_otime_wf|]. split; [done|]. split; [done|by apply set_otime_frame].
Qed.

(** The entries that left have their result. *)
Lemma woken_results st st' l :
  set_wf st -> sem_pending (sma st) ≡ₚ sem_pending (sma st') ++ l -> frame st st' ->
  Forall (fun q => exists sq, queues st' !! q = Some sq /\ q_status sq = IN_WAKEUP /\ q_pid sq ∈ [0; - EAGAIN; - ERANGE]) l.
Proof.
  intros W HP F. apply Forall_forall. intros q Hq. apply (frame_done _ _ F).
  - rewrite HP, elem_of_app. by right.
  - intros Hin. pose proof (wf_nodup st W) as Hnd. rewrite HP in Hnd.
    apply NoDup_app in Hnd as (_ & Hd & _). by apply (Hd q).
Qed.

(** ** Properties *)

(** No lost wake-up in [semtimedop]: when a list of operations succeeds on a
    set in which every sleeper had to sleep, [do_smart_update] terminates
    without tripping a BUG_ON and leaves a set in which again every sleeper has
    to sleep, although it only visits the semaphores its shortcut selects. The
    entries that left the queue are exactly those appended to the wake-up list,
    each with a final result. *)
Theorem semop_no_lost_wakeup now otime st sops un pid st1 pt :
  set_wf st -> stable st ->
  Forall (fun sop => (sem_num sop < length (sem_base (sma st)))%nat) sops ->
  try_semop_on st sops un pid = (0, st1) ->
  exists st' woke, do_smart_update now (Some sops) otime st1 pt = Some (st', pt ++ woke) /\
    set_wf st' /\ stable st' /\
    sem_pending (sma st1) ≡ₚ sem_pending (sma st') ++ woke /\
    Forall (fun q => exists sq, queues st' !! q = Some sq /\ q_status sq = IN_WAKEUP /\ q_pid sq ∈ [0; - EAGAIN; - ERANGE]) woke.
Proof.
  intros W S Hr Ht.
  destruct (smart_sops now otime st sops un pid st1 pt W S Hr Ht) as (st' & pt' & E & W' & S' & (l & -> & HP) & F).
  exists st', l. split; [done|]. split; [done|]. split; [done|]. split; [done|].
  apply (woken_results st1 st' l); [exact (wf_try _ _ _ _ _ _ W Ht)|done|done].
Qed.

(** One semaphore of value [v] with one sleeper that wants to take [k > 0]. *)
Module SemDemo.
Definition sop (op : Z) : sembuf := Sembuf 0 op 0.

Definition entry (k : Z) : sem_queue :=
  {| q_sleeper := 1; q_undo := None; q_pid := 100; q_status := - EINTR; q_sops := [sop (- k)];
     q_alter := true |}.

Definition state (v k : Z) : sem_state :=
  {| sma := {| sem_perm := KernIpcPerm false 0 0 0 0 0 0 0 0; sem_otime := 0; sem_ctime := 0;
               sem_base := [Sem v 0 [7%nat]]; sem_pending := [7%nat]; list_id := [];
               sem_nsems := 1; complex_count := 0 |};
     queues := {[ 7%nat := entry k ]};
     undos := ∅ |}.

Lemma state_wf v k : 0 <= v <= SEMVMX -> 0 < k <= 32768 -> set_wf (state v k).
Proof.
  intros Hv Hk. constructor; cbn.
  - apply NoDup_singleton.
  - intros q ->%list_elem_of_singleton. exists (entry k). split; [done|]. constructor; cbn.
    + done.
    + repeat constructor; cbn; lia.
    + destruct (Z.eqb_spec (- k) 0); [lia|done].
    + intros s ?. simplify_eq. cbn. split; [lia|done].
  - intros [|[|n]] s ?; simplify_eq/=. done.
  - done.
  - exists [], [7%nat]. split; [done|]. split; [done|]. by constructor.
  - repeat constructor; lia.
  - intros u x. by rewrite lookup_empty.
Qed.

Lemma state_stable v k : 0 < k -> v < k -> stable (state v k).
Proof.
  intros Hk Hv. constructor; [|done]. eapply blocked_simple; [done..|]. cbn. split; [|done]. lia.
Qed.
End SemDemo.

Lemma semop_no_lost_wakeup_witness :
  exists st' woke, do_smart_update 5 (Some [SemDemo.sop 2]) true
    (try_semop_on (SemDemo.state 1 3) [SemDemo.sop 2] None 200).2 [] = Some (st', [] ++ woke) /\
    set_wf st' /\ stable st' /\ [7%nat] ≡ₚ sem_pending (sma st') ++ woke /\
    Forall (fun q => exists sq, queues st' !! q = Some sq /\ q_status sq = IN_WAKEUP /\ q_pid sq ∈ [0; - EAGAIN; - ERANGE]) woke.
Proof.
  apply (semop_no_lost_wakeup 5 true (SemDemo.state 1 3) [SemDemo.sop 2] None 200
           (try_semop_on (SemDemo.state 1 3) [SemDemo.sop 2] None 200).2 []).
  - by apply SemDemo.state_wf.
  - by apply SemDemo.state_stable.
  - repeat constructor.
  - reflexivity.
Defined.

(** A full scan ([update_queue] without a semaphore number, as after SETVAL,
    SETALL and exit_sem) terminates without tripping a BUG_ON from any well
    formed set, however many restarts it makes, and afterwards every remaining
    sleeper has to sleep; what belongs to other sets is untouched. *)
Theorem update_queue_complete st pt :
  set_wf st ->
  exists st' woke c, update_queue None st pt = Some (st', pt ++ woke, c) /\
    set_wf st' /\ stable st' /\ sem_pending (sma st) ≡ₚ sem_pending (sma st') ++ woke /\
    Forall (fun q => exists sq, queues st' !! q = Some sq /\ q_status sq = IN_WAKEUP /\ q_pid sq ∈ [0; - EAGAIN; - ERANGE]) woke /\
    (forall q, q ∉ sem_pending (sma st) -> queues st' !! q = queues st !! q).
Proof.
  intros W. destruct (update_queue_all st pt W) as (st' & pt' & c & E & W' & S & (l & -> & HP) & F).
  exists st', l, c. split; [done|]. split; [done|]. split; [done|]. split; [done|].
  split; [by apply (woken_results st st' l)|]. intros q Hq. apply (frame_same _ _ F). by left.
Qed.

Lemma update_queue_complete_witness :
  exists st' woke c, update_queue None (SemDemo.state 3 3) [] = Some (st', [] ++ woke, c) /\
    set_wf st' /\ stable st' /\ [7%nat] ≡ₚ sem_pending (sma st') ++ woke /\
    Forall (fun q => exists sq, queues st' !! q = Some sq /\ q_status sq = IN_WAKEUP /\ q_pid sq ∈ [0; - EAGAIN; - ERANGE]) woke /\
    (forall q, q ∉ [7%nat] -> queues st' !! q = queues (SemDemo.state 3 3) !! q).
Proof.
  apply (update_queue_complete (SemDemo.state 3 3) []). by apply SemDemo.state_wf.
Defined.

Definition book (adj : list Z) (sop : sembuf) : list Z :=
  if has (sem_flg sop) SEM_UNDO then alter (fun a => s16 (a - sem_op sop)) (sem_num sop) adj else adj.

Lemma s16_sub_comm a x y : s16 (s16 (a - x) - y) = s16 (s16 (a - y) - x).
Proof.
  assert (forall u v, s16 (s16 (a - u) - v) = s16 (a - u - v)) as H by (intros u v; apply (wraps_add_l 16 (a - u) (- v))).
  rewrite !H. f_equal. lia.
Qed.

Lemma book_comm adj s1 s2 : book (book adj s1) s2 = book (book adj s2) s1.
Proof.
  unfold book. destruct (has (sem_flg s1) SEM_UNDO), (has (sem_flg s2) SEM_UNDO); try done.
  destruct (decide (sem_num s1 = sem_num s2)) as [->|Hne]; [|by rewrite list_alter_alter_ne].
  rewrite !list_alter_alter_eq. apply list_alter_ext; [|done]. intros a _. apply s16_sub_comm.
Qed.

Lemma foldl_book_reverse sops : forall adj, foldl book adj (reverse sops) = foldl book adj sops.
Proof.
  assert (forall l adj s, foldl book (book adj s) l = book (foldl book adj l) s) as Hc.
  { induction l as [|s' l IH]; intros adj s; cbn; [done|]. by rewrite <- IH, book_comm. }
  induction sops as [|s sops IH]; intros adj; [done|]. rewrite reverse_cons, foldl_app. cbn. by rewrite IH, Hc.
Qed.

Lemma commit_book dn : forall b adj pid, (semop_commit b adj pid dn).2 = foldl book adj dn.
Proof. induction dn as [|sop dn IH]; intros b adj pid; cbn; [done|]. by rewrite IH. Qed.

Lemma commit_pid dn : forall b adj pid n,
  sempid <$> (semop_commit b adj pid dn).1 !! n = (fun s => if decide (n ∈ sem_num <$> dn) then pid else sempid s) <$> b !! n.
Proof.
  induction dn as [|sop dn IH]; intros b adj pid n; cbn [semop_commit fst fmap list_fmap].
  - by destruct (b !! n).
  - rewrite IH. destruct (decide (sem_num sop = n)) as [<-|Hne].
    + rewrite list_lookup_alter_eq. destruct (b !! sem_num sop) as [s|]; cbn; [|done]. f_equal. rewrite (decide_True _ _ (list_elem_of_here _ _)). by case_decide.
    + rewrite list_lookup_alter_ne by done. destruct (b !! n) as [s|]; cbn; [|done]. f_equal. apply decide_ext. rewrite elem_of_cons. split; [by right|intros [->|?]; done].
Qed.

Lemma loop_pid sops : forall b adj dn,
  match semop_loop b adj dn sops with AllDone b' _ => sempid <$> b' = sempid <$> b | _ => True end.
Proof.
  induction sops as [|sop rest IH]; intros b adj dn; cbn; [done|]. repeat case_if; try done.
  set (b1 := alter _ _ b). specialize (IH b1 adj (sop :: dn)). destruct (semop_loop b1 adj (sop :: dn) rest); [|done..].
  rewrite IH. unfold b1. rewrite (list_fmap_alter _ _ id) by (by apply Forall_true). by apply list_alter_id.
Qed.
(** Inside the range a booked adjustment is the difference itself. *)
Lemma book_insert adj n op flg a :
  a = (if has flg SEM_UNDO then adj_at adj n - op else adj_at adj n) -> (has flg SEM_UNDO = true -> - SEMAEM - 1 <= a <= SEMAEM) ->
  <[n := a]> adj = book adj (Sembuf n op flg).
Proof.
  intros -> Hr. unfold book, adj_at in *. cbn in *. destruct (has flg SEM_UNDO) eqn:Hu.
  - specialize (Hr eq_refl). apply list_eq. intros i. destruct (decide (i = n)) as [->|Hne].
    + rewrite list_lookup_alter_eq. destruct (adj !! n) as [a|] eqn:Ha.
      * rewrite list_lookup_insert_eq by (by eapply lookup_lt_Some). cbn in *. f_equal. symmetry. apply wraps_small; unfold SEMAEM, SEMVMX in *; cbn; lia.
      * by rewrite list_insert_ge by (by apply lookup_ge_None).
    + by rewrite list_lookup_insert_ne, list_lookup_alter_ne.
  - destruct (adj !! n) as [a|] eqn:Ha; cbn; [by apply list_insert_id|]. by apply list_insert_ge, lookup_ge_None.
Qed.

Lemma vals_insert b n v : vals (alter (set_semval (fun _ => v)) n b) = <[n := v]> (vals b).
Proof.
  rewrite vals_alter. apply list_eq. intros i. destruct (decide (i = n)) as [->|Hne].
  - rewrite list_lookup_alter_eq. destruct (vals b !! n) eqn:Hn; cbn; [by rewrite list_lookup_insert_eq by (by eapply lookup_lt_Some)|].
    by rewrite list_insert_ge by (by apply lookup_ge_None).
  - by rewrite list_lookup_insert_ne, list_lookup_alter_ne.
Qed.

(** The forward pass of the code, which checks against the adjustments before
    the call, takes the same decisions as the reference when the ones it still
    has to look at have not moved. *)
Lemma loop_seq sops : forall b adj0 adj dn,
  undo_once sops -> (forall sop, sop ∈ sops -> has (sem_flg sop) SEM_UNDO = true -> adj_at adj (sem_num sop) = adj_at adj0 (sem_num sop)) ->
  semop_seq (vals b) adj sops =
    match semop_loop b adj0 dn sops with
    | AllDone b' _ => inr (vals b', foldl book adj sops)
    | WouldBlock _ _ sop => inl (if has (sem_flg sop) IPC_NOWAIT then - EAGAIN else 1)
    | OutOfRange _ _ => inl (- ERANGE)
    end.
Proof.
  induction sops as [|[n op flg] rest IH]; intros b adj0 adj dn Ho Ha; [done|]. cbn [semop_seq semop_loop sem_num sem_op sem_flg foldl].
  rewrite vals_at. set (v := val_at (vals b) n).
  destruct (decide ((op = 0 /\ v <> 0) \/ v + op < 0)) as [Hw|Hw].
  { destruct (Z.eqb_spec op 0), (Z.eqb_spec v 0), (Z.ltb_spec (v + op) 0); cbn; try done; lia. }
  rewrite (proj2 (Z.ltb_ge (v + op) 0)) by lia.
  replace ((op =? 0) && negb (v =? 0)) with false by (destruct (Z.eqb_spec op 0), (Z.eqb_spec v 0); try done; lia).
  assert (has flg SEM_UNDO = true -> adj_at adj n = adj_at adj0 n) as Hn by exact (Ha _ (list_elem_of_here _ _)).
  set (a := if has flg SEM_UNDO then _ else _).
  destruct (decide (_ \/ _)) as [Hr|Hr].
  - destruct (Z.gtb_spec (v + op) SEMVMX); [done|]. destruct Hr as [?|[Hu Hr]]; [lia|]. subst a. rewrite Hu in *. rewrite Hn in Hr by done. cbn.
    destruct (Z.ltb_spec (adj_at adj0 n - op) (- SEMAEM - 1)), (Z.gtb_spec (adj_at adj0 n - op) SEMAEM); cbn; try done; lia.
  - destruct (Z.gtb_spec (v + op) SEMVMX); [lia|].
    replace (has flg SEM_UNDO && _) with false; cycle 1.
    { subst a. destruct (has flg SEM_UNDO) eqn:Hu; [|done]. rewrite Hn in Hr by done. cbn.
      destruct (Z.ltb_spec (adj_at adj0 n - op) (- SEMAEM - 1)), (Z.gtb_spec (adj_at adj0 n - op) SEMAEM); cbn; try done; lia. }
    rewrite <- vals_insert. rewrite (book_insert adj n op flg a eq_refl); cycle 1.
    { intros Hu. destruct (decide (- SEMAEM - 1 <= a <= SEMAEM)); [done|]. destruct Hr. by right. }
    apply IH.
    + unfold undo_once in *. rewrite filter_cons in Ho. case_decide; [by apply NoDup_cons in Ho as [_ ?]|done].
    + intros sop Hs Hu. rewrite <- (Ha sop (list_elem_of_further _ _ _ Hs) Hu). unfold book, adj_at. cbn [sem_flg sem_num sem_op].
      destruct (has flg SEM_UNDO) eqn:Hu'; [|done]. rewrite list_lookup_alter_ne; [done|].
      intros ->. unfold undo_once in Ho. rewrite filter_cons, decide_True in Ho by done. apply NoDup_cons in Ho as [Hni _]. apply Hni.
      apply list_elem_of_fmap. exists sop. split; [done|]. by apply list_elem_of_filter.
Qed.

Lemma sems_eq (b b' : list sem) :
  vals b = vals b' -> sempid <$> b = sempid <$> b' -> sem_waiters <$> b = sem_waiters <$> b' -> b = b'.
Proof.
  unfold vals. revert b'. induction b as [|[v p w] b IH]; intros [|[v' p' w'] b']; cbn; try done. intros ? ? ?. simplify_eq. f_equal. by apply IH.
Qed.

Lemma done_after b adj sops b1 d1 pid :
  semop_loop b adj [] sops = AllDone b1 d1 -> (semop_commit b1 adj pid d1).1 = semop_after (vals b1) pid sops b.
Proof.
  intros El. pose proof (semop_loop_done _ _ _ _ _ _ El) as ->. rewrite app_nil_r.
  pose proof (waits_loop sops b adj []) as Hw. pose proof (loop_pid sops b adj []) as Hp. rewrite El in Hw, Hp.
  assert (length b1 = length b) as Hlen by (by rewrite <- (length_fmap sempid b1), Hp, length_fmap).
  apply sems_eq.
  - rewrite vals_commit. unfold semop_after. apply list_eq. intros i. unfold vals at 2. rewrite list_lookup_fmap, list_lookup_imap.
    unfold val_at. destruct (b !! i) eqn:Hb; cbn.
    + destruct (lookup_lt_is_Some_2 (vals b1) i) as [v Hv]; [unfold vals; rewrite length_fmap, Hlen; by eapply lookup_lt_Some|]. by rewrite Hv.
    + apply lookup_ge_None. unfold vals. rewrite length_fmap, Hlen. by apply lookup_ge_None.
  - unfold semop_after. apply list_eq. intros i. rewrite !list_lookup_fmap, list_lookup_imap, commit_pid.
    assert (sempid <$> b1 !! i = sempid <$> b !! i) as Hi by (by rewrite <- !list_lookup_fmap, Hp).
    destruct (b1 !! i) as [s1|], (b !! i) as [s0|]; cbn in *; try done. f_equal. injection Hi as Hi. rewrite Hi.
    apply decide_ext. by rewrite fmap_reverse, elem_of_reverse.
  - rewrite waits_commit, Hw. unfold semop_after. by rewrite fmap_imap, <- (imap_const sem_waiters b).
Qed.

(** C12. [try_atomic_semop] is all or nothing and has exactly the effect of
    semop(2) read operation by operation. Without two [SEM_UNDO] operations on
    one semaphore, the call answers what the reference answers; if that is an
    error, set and adjustments are exactly as before, rollback included; if
    not, every semaphore has the reference's value, the caller's pid where the
    call named it and the sleepers it had, and the adjustments are the
    reference's. *)
Theorem try_atomic_semop_refines b adj sops pid (H : undo_once sops) :
  try_atomic_semop b adj sops pid =
    match semop_seq (vals b) adj sops with
    | inl err => (err, b, adj)
    | inr (vs, adj') => (0, semop_after vs pid sops b, adj')
    end.
Proof.
  rewrite (loop_seq sops b adj adj []) by done. unfold try_atomic_semop. pose proof (semop_loop_rollback sops b adj []) as Hr.
  destruct (semop_loop b adj [] sops) as [b1 d1|b1 d1 sop|b1 d1] eqn:El; [|by rewrite Hr..].
  rewrite <- (done_after b adj sops b1 d1 pid El). pose proof (commit_book d1 b1 adj pid) as Hc.
  rewrite (semop_loop_done _ _ _ _ _ _ El), app_nil_r in *. rewrite foldl_book_reverse in Hc. rewrite <- Hc. by destruct (semop_commit _ _ _ _).
Qed.

(** Two semaphores, one taken with undo and one given back. *)
Lemma try_refines_witness :
  undo_once [Sembuf 0 (-2) SEM_UNDO; Sembuf 1 1 0] /\
  try_atomic_semop [Sem 5 0 []; Sem 0 0 []] [0; 0] [Sembuf 0 (-2) SEM_UNDO; Sembuf 1 1 0] 9 = (0, [Sem 3 9 []; Sem 1 9 []], [2; 0]).
Proof.
  assert (undo_once [Sembuf 0 (-2) SEM_UNDO; Sembuf 1 1 0]) as H by (cbn; repeat constructor; by intros ?%not_elem_of_nil).
  split; [exact H|]. exact (try_atomic_semop_refines [Sem 5 0 []; Sem 0 0 []] [0; 0] _ 9 H).
Defined.

(** The bookkeeping of SEM_UNDO is not range checked as a whole: two
    decrements of one call on the same semaphore each pass the check against
    the old adjustment, and the sum wraps around in the 16-bit [semadj]. *)
Theorem semadj_wraps :
  try_atomic_semop [Sem 30000 0 []] [0]
    [Sembuf 0 (-30000) SEM_UNDO; Sembuf 0 30000 0; Sembuf 0 (-30000) SEM_UNDO] 1
  = (0, [Sem 0 1 []], [-5536]).
Proof. reflexivity. Qed.
