(* ===== verification/SemCtl.v ===== *)
(** * SemCtl: the semaphore system calls on a namespace

    Models the entry points of ipc/sem.c: creation and removal of sets
    ([newary], [semget], [freeary]), [semctl], the undo structures of a process
    ([find_alloc_undo], [copy_semundo], [exit_sem]) and [semtimedop] before and
    after its sleep. The critical sections under a set's lock are the functions
    of [SemOp]. *)

From S2P Require Import Prelude IpcUtil SemOp.

Definition SEMMNI : Z := 128.
Definition SEMMSL : Z := 250.
Definition SEMMNS : Z := SEMMNI * SEMMSL.
Definition SEMOPM : Z := 32.
Definition SEMUME : Z := SEMOPM.
Definition SEMMNU : Z := SEMMNS.
Definition SEMMAP : Z := SEMMNS.
Definition SEMUSZ : Z := 20.
Definition SEMMSL_FAST : Z := 256.
Definition SEMOPM_FAST : Z := 64.
Definition GETPID : Z := 11.
Definition GETVAL : Z := 12.
Definition GETALL : Z := 13.
Definition GETNCNT : Z := 14.
Definition GETZCNT : Z := 15.
Definition SETVAL : Z := 16.
Definition SETALL : Z := 17.
Definition SEM_STAT : Z := 18.
Definition SEM_INFO : Z := 19.
Definition CLONE_SYSVSEM : Z := 262144.

(** ** State *)

(** [struct sem_undo_list] *)
Record undo_list := UndoList { refcnt : Z; list_proc : list ptr }.

(** The semaphore part of an ipc namespace, with the heaps its structures live
    in. [task_undo] maps a task to its [sysvsem.undo_list]; no entry is NULL. *)
Record sem_ns (I : Type) := SemNs {
  sc_semmsl : Z;
  sc_semmns : Z;
  sc_semopm : Z;
  sc_semmni : Z;
  used_sems : Z;
  sem_ids : ipc_ids I;
  sem_sets : gmap ptr sem_array;
  sem_queues : gmap ptr sem_queue;
  sem_undos : gmap ptr sem_undo;
  undo_lists : gmap ptr undo_list;
  task_undo : gmap ptr ptr
}.
Arguments SemNs {I}.
Arguments sc_semmsl {I}.
Arguments sc_semmns {I}.
Arguments sc_semopm {I}.
Arguments sc_semmni {I}.
Arguments used_sems {I}.
Arguments sem_ids {I}.
Arguments sem_sets {I}.
Arguments sem_queues {I}.
Arguments sem_undos {I}.
Arguments undo_lists {I}.
Arguments task_undo {I}.

#[export] Instance sem_array_object : IpcObject sem_array := {
  ipc_perm := sem_perm;
  set_ipc_perm p a :=
    {| sem_perm := p; sem_otime := sem_otime a; sem_ctime := sem_ctime a;
       sem_base := sem_base a; sem_pending := sem_pending a; list_id := list_id a;
       sem_nsems := sem_nsems a; complex_count := complex_count a |};
  ipc_perm_set _ _ := eq_refl
}.

(** The hooks of the security module in use. *)
Record sem_lsm := SemLsm {
  security_ipc_permission : kern_ipc_perm -> Z -> Z;
  security_sem_alloc : sem_array -> Z;
  security_sem_associate : sem_array -> Z -> Z;
  security_sem_semctl : option sem_array -> Z -> Z;
  security_sem_semop : sem_array -> list sembuf -> bool -> Z
}.

(** [struct seminfo] and [struct semid64_ds] *)
Record seminfo := Seminfo {
  i_semmap : Z; i_semmni : Z; i_semmns : Z; i_semmnu : Z; i_semmsl : Z; i_semopm : Z;
  i_semume : Z; i_semusz : Z; i_semvmx : Z; i_semaem : Z
}.
Record semid64_ds := Semid64 {
  s_perm : ipc64_perm; s_otime : Z; s_ctime : Z; s_nsems : Z
}.

(** What a call leaves in user memory. *)
Inductive sem_out :=
| OutNone
| OutInfo (i : seminfo)
| OutStat (s : semid64_ds)
| OutArray (l : list Z).

Section SemNs.
Context {I : Type} `{IdrOps I}.
Context (lsm : sem_lsm).

Definition set_ids (ids : ipc_ids I) (ns : sem_ns I) : sem_ns I :=
  {| sc_semmsl := sc_semmsl ns; sc_semmns := sc_semmns ns; sc_semopm := sc_semopm ns;
     sc_semmni := sc_semmni ns; used_sems := used_sems ns; sem_ids := ids;
     sem_sets := sem_sets ns; sem_queues := sem_queues ns; sem_undos := sem_undos ns;
     undo_lists := undo_lists ns; task_undo := task_undo ns |}.

Definition set_heap (used : Z) (sets : gmap ptr sem_array) (qs : gmap ptr sem_queue)
    (us : gmap ptr sem_undo) (ns : sem_ns I) : sem_ns I :=
  {| sc_semmsl := sc_semmsl ns; sc_semmns := sc_semmns ns; sc_semopm := sc_semopm ns;
     sc_semmni := sc_semmni ns; used_sems := used; sem_ids := sem_ids ns;
     sem_sets := sets; sem_queues := qs; sem_undos := us;
     undo_lists := undo_lists ns; task_undo := task_undo ns |}.

Definition set_lists (uls : gmap ptr undo_list) (tu : gmap ptr ptr) (ns : sem_ns I) : sem_ns I :=
  {| sc_semmsl := sc_semmsl ns; sc_semmns := sc_semmns ns; sc_semopm := sc_semopm ns;
     sc_semmni := sc_semmni ns; used_sems := used_sems ns; sem_ids := sem_ids ns;
     sem_sets := sem_sets ns; sem_queues := sem_queues ns; sem_undos := sem_undos ns;
     undo_lists := uls; task_undo := tu |}.

(** The set at [p] with the structures its lock protects, and back. *)
Definition state_of (ns : sem_ns I) (a : sem_array) : sem_state :=
  {| sma := a; queues := sem_queues ns; undos := sem_undos ns |}.

Definition put_state (p : ptr) (st : sem_state) (ns : sem_ns I) : sem_ns I :=
  set_heap (used_sems ns) (<[p := sma st]> (sem_sets ns)) (queues st) (undos st) ns.

Definition do_wake_ups (pt : list ptr) (ns : sem_ns I) : sem_ns I :=
  set_heap (used_sems ns) (sem_sets ns) (wake_up_sem_queue_do pt (sem_queues ns)) (sem_undos ns) ns.

#[export] Instance sem_ipc_ns : IpcNs (sem_ns I) I sem_array := {
  ns_ids := sem_ids;
  ns_objs := sem_sets;
  set_ns_idr i ns :=
    set_ids {| in_use := in_use (sem_ids ns); ids_seq := ids_seq (sem_ids ns);
               seq_max := seq_max (sem_ids ns); ipcs_idr := i |} ns
}.

Definition sem_init_ns : sem_ns I :=
  {| sc_semmsl := SEMMSL; sc_semmns := SEMMNS; sc_semopm := SEMOPM; sc_semmni := SEMMNI;
     used_sems := 0; sem_ids := ipc_init_ids; sem_sets := ∅; sem_queues := ∅;
     sem_undos := ∅; undo_lists := ∅; task_undo := ∅ |}.

Definition sem_lock (ns : sem_ns I) (id : Z) : Z + ptr := ipc_lock (sem_ids ns) (sem_sets ns) id.

Definition sem_lock_check (ns : sem_ns I) (id : Z) : Z + ptr :=
  ipc_lock_check (sem_ids ns) (sem_sets ns) id.

(** ** Creation *)

(** [alloc] is the address [ipc_rcu_alloc] returns, [None] when it fails. *)
Definition newary (t : task) (alloc : sem_ns I -> option ptr) (ns : sem_ns I) (params : ipc_params)
    : Z * sem_ns I :=
  let nsems := par_u params in
  if nsems =? 0 then (- EINVAL, ns)
  else if used_sems ns + nsems >? sc_semmns ns then (- ENOSPC, ns)
  else
    match alloc ns with
    | None => (- ENOMEM, ns)
    | Some p =>
        let perm := {| deleted := false; perm_id := 0; perm_key := par_key params;
                       perm_uid := 0; perm_gid := 0; perm_cuid := 0; perm_cgid := 0;
                       perm_mode := Z.land (par_flg params) S_IRWXUGO; perm_seq := 0 |} in
        let blank perm ctime :=
          {| sem_perm := perm; sem_otime := 0; sem_ctime := ctime;
             sem_base := replicate (Z.to_nat nsems) (Sem 0 0 []);
             sem_pending := []; list_id := []; sem_nsems := nsems; complex_count := 0 |} in
        let retval := security_sem_alloc lsm (blank perm 0) in
        if negb (retval =? 0) then (retval, ns)
        else
          let '(id, ids, perm) := ipc_addid (cur_cred t) (sem_ids ns) p perm (sc_semmni ns) in
          let ns := set_ids ids ns in
          if id <? 0 then (id, ns)
          else
            (perm_id perm,
             set_heap (used_sems ns + nsems) (<[p := blank perm (now t)]> (sem_sets ns))
               (sem_queues ns) (sem_undos ns) ns)
    end.

Definition sem_security (a : sem_array) (semflg : Z) : Z := security_sem_associate lsm a semflg.

Definition sem_more_checks (a : sem_array) (params : ipc_params) : Z :=
  if par_u params >? sem_nsems a then - EINVAL else 0.

Definition semget (t : task) (alloc : sem_ns I -> option ptr) (mem : list bool) (ns : sem_ns I)
    (key nsems semflg : Z) : option (Z * sem_ns I) :=
  if (nsems <? 0) || (nsems >? sc_semmsl ns) then Some (- EINVAL, ns)
  else
    ipcget (cur_cred t) (security_ipc_permission lsm) mem ns
      {| getnew := newary t alloc; associate := sem_security; more_checks := Some sem_more_checks |}
      {| par_key := key; par_flg := semflg; par_u := nsems |}.

(** ** Removal *)

(** The undo structures of a removed set: invalid, and off the list of their
    process. They stay readable for [semtimedop] until RCU frees them. *)
Fixpoint free_undos (uns : list ptr) (us : gmap ptr sem_undo) (uls : gmap ptr undo_list)
    : gmap ptr sem_undo * gmap ptr undo_list :=
  match uns with
  | [] => (us, uls)
  | un :: uns =>
      match us !! un with
      | None => free_undos uns us uls
      | Some x =>
          free_undos uns
            (<[un := {| un_semid := -1; un_ulp := un_ulp x; semadj := semadj x |}]> us)
            (alter (fun l => {| refcnt := refcnt l; list_proc := list_del un (list_proc l) |})
                   (un_ulp x) uls)
      end
  end.

Fixpoint fail_pending (walk : list ptr) (a : sem_array) (qs : gmap ptr sem_queue) (tasks : list ptr)
    : sem_array * gmap ptr sem_queue * list ptr :=
  match walk with
  | [] => (a, qs, tasks)
  | q :: walk =>
      match qs !! q with
      | None => fail_pending walk a qs tasks
      | Some sq =>
          let a := unlink_queue q sq a in
          let '(tasks, qs) := wake_up_sem_queue_prepare tasks q (- EIDRM) qs in
          fail_pending walk a qs tasks
      end
  end.

Definition set_list_id (l : list ptr) (a : sem_array) : sem_array :=
  {| sem_perm := sem_perm a; sem_otime := sem_otime a; sem_ctime := sem_ctime a;
     sem_base := sem_base a; sem_pending := sem_pending a; list_id := l;
     sem_nsems := sem_nsems a; complex_count := complex_count a |}.

(** Up to the unlock; the second result is the list of tasks to wake up. *)
Definition freeary_locked (p : ptr) (a : sem_array) (ns : sem_ns I) : sem_ns I * list ptr :=
  let '(us, uls) := free_undos (list_id a) (sem_undos ns) (undo_lists ns) in
  let a := set_list_id [] a in
  let '(a, qs, tasks) := fail_pending (sem_pending a) a (sem_queues ns) [] in
  let '(ids, perm) := ipc_rmid (sem_ids ns) (sem_perm a) in
  let a := set_ipc_perm perm a in
  (set_lists uls (task_undo ns)
     (set_heap (used_sems ns - sem_nsems a) (<[p := a]> (sem_sets ns)) qs us (set_ids ids ns)), tasks).

Definition freeary (p : ptr) (a : sem_array) (ns : sem_ns I) : sem_ns I :=
  let '(ns, tasks) := freeary_locked p a ns in do_wake_ups tasks ns.

(** [free_ipcs] with [freeary], when the namespace exits. *)
Fixpoint free_sets (fuel : nat) (in_use total next_id : Z) (ns : sem_ns I) : option (sem_ns I) :=
  match fuel with
  | O => None
  | S fuel =>
      if total <? in_use then
        match idr_find (ipcs_idr (sem_ids ns)) next_id with
        | None => free_sets fuel in_use total (next_id + 1) ns
        | Some p =>
            match sem_sets ns !! p with
            | None => None
            | Some a => free_sets fuel in_use (total + 1) (next_id + 1) (freeary p a ns)
            end
        end
      else Some ns
  end.

Definition sem_exit_ns (ns : sem_ns I) : option (sem_ns I) :=
  match free_sets (S (Z.to_nat IPCMNI)) (in_use (sem_ids ns)) 0 0 ns with
  | None => None
  | Some ns => Some (set_ids (ids_destroy (sem_ids ns)) ns)
  end.

(** ** semctl *)

Definition count_sops (f : sembuf -> bool) (a : sem_array) (qs : gmap ptr sem_queue) : Z :=
  foldl (fun n q =>
           match qs !! q with
           | Some sq => n + Z.of_nat (length (filter (fun sop => f sop = true) (q_sops sq)))
           | None => n
           end) 0 (sem_pending a).

Definition count_semncnt (a : sem_array) (qs : gmap ptr sem_queue) (semnum : nat) : Z :=
  count_sops (fun sop => (sem_num sop =? semnum)%nat && (sem_op sop <? 0)
                         && negb (has (sem_flg sop) IPC_NOWAIT)) a qs.

Definition count_semzcnt (a : sem_array) (qs : gmap ptr sem_queue) (semnum : nat) : Z :=
  count_sops (fun sop => (sem_num sop =? semnum)%nat && (sem_op sop =? 0)
                         && negb (has (sem_flg sop) IPC_NOWAIT)) a qs.

(** [ok]: [copy_to_user] could write the buffer. *)
Definition copy_semid_to_user (overflowuid overflowgid : Z) (ok : bool) (s : semid64_ds)
    (version : Z) : Z * sem_out :=
  if version =? IPC_64 then if ok then (0, OutStat s) else (1, OutNone)
  else if version =? IPC_OLD then
    if ok then
      (0, OutStat {| s_perm := ipc64_perm_to_ipc_perm overflowuid overflowgid (s_perm s);
                     s_otime := s_otime s; s_ctime := s_ctime s; s_nsems := s_nsems s |})
    else (1, OutNone)
  else (- EINVAL, OutNone).

Definition semctl_nolock (t : task) (overflowuid overflowgid : Z) (ok : bool) (ns : sem_ns I)
    (semid cmd version : Z) : Z * sem_out :=
  if (cmd =? IPC_INFO) || (cmd =? SEM_INFO) then
    let err := security_sem_semctl lsm None cmd in
    if negb (err =? 0) then (err, OutNone)
    else
      let info :=
        {| i_semmap := SEMMAP; i_semmni := sc_semmni ns; i_semmns := sc_semmns ns;
           i_semmnu := SEMMNU; i_semmsl := sc_semmsl ns; i_semopm := sc_semopm ns;
           i_semume := SEMUME;
           i_semusz := if cmd =? SEM_INFO then in_use (sem_ids ns) else SEMUSZ;
           i_semvmx := SEMVMX;
           i_semaem := if cmd =? SEM_INFO then used_sems ns else SEMAEM |} in
      let max_id := ipc_get_maxid (sem_ids ns) in
      if negb ok then (- EFAULT, OutNone)
      else (if max_id <? 0 then 0 else max_id, OutInfo info)
  else if (cmd =? IPC_STAT) || (cmd =? SEM_STAT) then
    match (if cmd =? SEM_STAT then sem_lock ns semid else sem_lock_check ns semid) with
    | inl err => (err, OutNone)
    | inr p =>
        match sem_sets ns !! p with
        | None => (- EINVAL, OutNone)
        | Some a =>
            let id := if cmd =? SEM_STAT then perm_id (sem_perm a) else 0 in
            if negb (ipcperms (cur_cred t) (security_ipc_permission lsm) (sem_perm a) S_IRUGO =? 0)
            then (- EACCES, OutNone)
            else
              let err := security_sem_semctl lsm (Some a) cmd in
              if negb (err =? 0) then (err, OutNone)
              else
                let '(failed, out) :=
                  copy_semid_to_user overflowuid overflowgid ok
                    {| s_perm := kernel_to_ipc64_perm (sem_perm a); s_otime := sem_otime a;
                       s_ctime := sem_ctime a; s_nsems := sem_nsems a |} version in
                if negb (failed =? 0) then (- EFAULT, OutNone) else (id, out)
        end
    end
  else (- EINVAL, OutNone).

Definition set_ctime (time : Z) (a : sem_array) : sem_array :=
  {| sem_perm := sem_perm a; sem_otime := sem_otime a; sem_ctime := time;
     sem_base := sem_base a; sem_pending := sem_pending a; list_id := list_id a;
     sem_nsems := sem_nsems a; complex_count := complex_count a |}.

(** [un->semadj[i] = f i] for the undo structures [uns] of a set. *)
Definition map_semadj (f : nat -> Z -> Z) (uns : list ptr) (us : gmap ptr sem_undo)
    : gmap ptr sem_undo :=
  foldl (fun us un =>
           alter (fun x => {| un_semid := un_semid x; un_ulp := un_ulp x;
                              semadj := imap f (semadj x) |}) un us) us uns.

(** The sections of SETALL and SETVAL that write, up to the unlock, with the
    tasks to wake up then. *)
Definition sem_setall (t : task) (p : ptr) (a : sem_array) (sem_io : nat -> Z) (nsems : Z)
    (ns : sem_ns I) : option (sem_ns I * list ptr) :=
  let b := imap (fun i s => if Z.of_nat i <? nsems then set_semval (fun _ => sem_io i) s else s)
             (sem_base a) in
  let us := map_semadj (fun i v => if Z.of_nat i <? nsems then 0 else v) (list_id a) (sem_undos ns) in
  let a := set_ctime (now t) (set_base b a) in
  match do_smart_update (now t) None false
          {| sma := a; queues := sem_queues ns; undos := us |} [] with
  | None => None
  | Some (st, tasks) => Some (put_state p st ns, tasks)
  end.

Definition sem_setval (t : task) (p : ptr) (a : sem_array) (semnum : nat) (val : Z)
    (ns : sem_ns I) : option (sem_ns I * list ptr) :=
  let us := map_semadj (fun i v => if (i =? semnum)%nat then 0 else v) (list_id a) (sem_undos ns) in
  let b := alter (fun s => set_sempid (tgid t) (set_semval (fun _ => val) s)) semnum (sem_base a) in
  let a := set_ctime (now t) (set_base b a) in
  match do_smart_update (now t) None false
          {| sma := a; queues := sem_queues ns; undos := us |} [] with
  | None => None
  | Some (st, tasks) => Some (put_state p st ns, tasks)
  end.

(** How a section of [semctl] ends: with the answer and the tasks to wake up,
    or, in GETALL of a large set and SETALL, with the lock dropped and a
    reference to the set kept, or with a BUG_ON of the wake-up code. *)
Inductive ctl_section :=
| CtlDone (err : Z) (out : sem_out) (ns : sem_ns I) (tasks : list ptr)
| CtlUnlocked (p : ptr) (nsems : Z)
| CtlBug.

(** GETALL with the set locked. [ok]: [copy_to_user] succeeds. *)
Definition sem_getall (ok : bool) (a : sem_array) (ns : sem_ns I) : ctl_section :=
  let sem_io := (fun s => u16 (semval s)) <$> take (Z.to_nat (sem_nsems a)) (sem_base a) in
  if ok then CtlDone 0 (OutArray sem_io) ns [] else CtlDone (- EFAULT) OutNone ns [].

(** [semctl_main] up to the place where it drops the lock. *)
Definition semctl_lock (t : task) (ok : bool) (ns : sem_ns I) (semid semnum cmd val : Z) : ctl_section :=
  match sem_lock_check ns semid with
  | inl err => CtlDone err OutNone ns []
  | inr p =>
  match sem_sets ns !! p with
  | None => CtlDone (- EINVAL) OutNone ns []
  | Some a =>
      let nsems := sem_nsems a in
      if negb (ipcperms (cur_cred t) (security_ipc_permission lsm) (sem_perm a)
                 (if (cmd =? SETVAL) || (cmd =? SETALL) then S_IWUGO else S_IRUGO) =? 0)
      then CtlDone (- EACCES) OutNone ns []
      else
      let err := security_sem_semctl lsm (Some a) cmd in
      if negb (err =? 0) then CtlDone err OutNone ns []
      else if cmd =? GETALL then
        if nsems >? SEMMSL_FAST then CtlUnlocked p nsems else sem_getall ok a ns
      else if cmd =? SETALL then CtlUnlocked p nsems
      else if (semnum <? 0) || (semnum >=? nsems) then CtlDone (- EINVAL) OutNone ns []
      else
        let n := Z.to_nat semnum in
        let curr := sem_at (sem_base a) n in
        if cmd =? GETVAL then CtlDone (semval curr) OutNone ns []
        else if cmd =? GETPID then CtlDone (sempid curr) OutNone ns []
        else if cmd =? GETNCNT then CtlDone (count_semncnt a (sem_queues ns) n) OutNone ns []
        else if cmd =? GETZCNT then CtlDone (count_semzcnt a (sem_queues ns) n) OutNone ns []
        else if cmd =? SETVAL then
          if (val >? SEMVMX) || (val <? 0) then CtlDone (- ERANGE) OutNone ns []
          else
            match sem_setval t p a n val ns with
            | None => CtlBug
            | Some (ns, tasks) => CtlDone 0 OutNone ns tasks
            end
        else CtlDone (- EINVAL) OutNone ns []
  end
  end.

(** And from there on. [mem_ok]: [ipc_alloc] succeeds, which only a large set
    needs; [arg] is the array [copy_from_user] reads, [None] when it faults. *)
Definition semctl_relock (t : task) (mem_ok ok : bool) (p : ptr) (nsems cmd : Z)
    (arg : option (nat -> Z)) (ns : sem_ns I) : ctl_section :=
  if (nsems >? SEMMSL_FAST) && negb mem_ok then CtlDone (- ENOMEM) OutNone ns []
  else if cmd =? GETALL then
    match sem_sets ns !! p with
    | None => CtlDone (- EIDRM) OutNone ns []
    | Some a => if deleted (sem_perm a) then CtlDone (- EIDRM) OutNone ns [] else sem_getall ok a ns
    end
  else
    match arg with
    | None => CtlDone (- EFAULT) OutNone ns []
    | Some mem =>
        let sem_io i := u16 (mem i) in
        if existsb (fun i => sem_io i >? SEMVMX) (seq 0 (Z.to_nat nsems))
        then CtlDone (- ERANGE) OutNone ns []
        else
          match sem_sets ns !! p with
          | None => CtlDone (- EIDRM) OutNone ns []
          | Some a =>
              if deleted (sem_perm a) then CtlDone (- EIDRM) OutNone ns []
              else
                match sem_setall t p a sem_io nsems ns with
                | None => CtlBug
                | Some (ns, tasks) => CtlDone 0 OutNone ns tasks
                end
          end
    end.

(** The end of a call: the wake-ups. *)
Definition ctl_end (c : ctl_section) : option (Z * sem_out * sem_ns I) :=
  match c with
  | CtlDone err out ns tasks => Some (err, out, do_wake_ups tasks ns)
  | _ => None
  end.

(** [yield] is what the other tasks do while the lock of the set is dropped. *)
Definition semctl_main (t : task) (yield : sem_ns I -> sem_ns I) (mem_ok ok : bool)
    (ns : sem_ns I) (semid semnum cmd val : Z) (arg : option (nat -> Z))
    : option (Z * sem_out * sem_ns I) :=
  match semctl_lock t ok ns semid semnum cmd val with
  | CtlUnlocked p nsems => ctl_end (semctl_relock t mem_ok ok p nsems cmd arg (yield ns))
  | c => ctl_end c
  end.

(** [buf] is what [copy_semid_from_user] reads, [None] when it fails. *)
Definition semctl_down_locked (t : task) (ns : sem_ns I) (semid cmd : Z) (buf : option ipc64_perm)
    : Z * sem_ns I * list ptr :=
  if (cmd =? IPC_SET) && bool_decide (buf = None) then (- EFAULT, ns, [])
  else
    match ipcctl_pre_down (cur_cred t) (sem_ids ns) (sem_sets ns) semid with
    | inl err => (err, ns, [])
    | inr p =>
        match sem_sets ns !! p with
        | None => (- EINVAL, ns, [])
        | Some a =>
            let err := security_sem_semctl lsm (Some a) cmd in
            if negb (err =? 0) then (err, ns, [])
            else if cmd =? IPC_RMID then (err, (freeary_locked p a ns).1, (freeary_locked p a ns).2)
            else if cmd =? IPC_SET then
              match buf with
              | None => (- EFAULT, ns, [])
              | Some b =>
                  let a := set_ctime (now t) (set_ipc_perm (ipc_update_perm b (sem_perm a)) a) in
                  (err, set_heap (used_sems ns) (<[p := a]> (sem_sets ns)) (sem_queues ns)
                          (sem_undos ns) ns, [])
              end
            else (- EINVAL, ns, [])
        end
    end.

Definition semctl_down (t : task) (ns : sem_ns I) (semid cmd : Z) (buf : option ipc64_perm)
    : Z * sem_ns I :=
  let '(err, ns, tasks) := semctl_down_locked t ns semid cmd buf in (err, do_wake_ups tasks ns).

Definition semctl (t : task) (yield : sem_ns I -> sem_ns I) (overflowuid overflowgid : Z)
    (mem_ok ok : bool) (ns : sem_ns I) (semid semnum cmd val : Z) (arg : option (nat -> Z))
    (buf : option ipc64_perm) : option (Z * sem_out * sem_ns I) :=
  if semid <? 0 then Some (- EINVAL, OutNone, ns)
  else
    let '(version, cmd) := ipc_parse_version cmd in
    if bool_decide (cmd ∈ [IPC_INFO; SEM_INFO; IPC_STAT; SEM_STAT]) then
      let '(err, out) := semctl_nolock t overflowuid overflowgid ok ns semid cmd version in
      Some (err, out, ns)
    else if bool_decide (cmd ∈ [GETALL; GETVAL; GETPID; GETNCNT; GETZCNT; SETVAL; SETALL]) then
      semctl_main t yield mem_ok ok ns semid semnum cmd val arg
    else if bool_decide (cmd ∈ [IPC_RMID; IPC_SET]) then
      let '(err, ns) := semctl_down t ns semid cmd buf in Some (err, OutNone, ns)
    else Some (- EINVAL, OutNone, ns).

(** ** Undo structures *)

(** [new]: the address [kzalloc] returns for a new list. *)
Definition get_undo_list (t : task) (new : option ptr) (ns : sem_ns I) : (Z + ptr) * sem_ns I :=
  match task_undo ns !! cur t with
  | Some ulp => (inr ulp, ns)
  | None =>
      match new with
      | None => (inl (- ENOMEM), ns)
      | Some ulp =>
          (inr ulp, set_lists (<[ulp := {| refcnt := 1; list_proc := [] |}]> (undo_lists ns))
                      (<[cur t := ulp]> (task_undo ns)) ns)
      end
  end.

Definition procs (ns : sem_ns I) (ulp : ptr) : list ptr :=
  match undo_lists ns !! ulp with Some l => list_proc l | None => [] end.

(** [__lookup_undo] *)
Definition lookup_undo_raw (ns : sem_ns I) (ulp : ptr) (semid : Z) : option ptr :=
  list_find (fun un => match sem_undos ns !! un with
                       | Some x => un_semid x =? semid
                       | None => false
                       end = true) (procs ns ulp) ≫= fun '(_, un) => Some un.

Definition set_procs (ulp : ptr) (f : list ptr -> list ptr) (ns : sem_ns I) : sem_ns I :=
  set_lists (alter (fun l => {| refcnt := refcnt l; list_proc := f (list_proc l) |}) ulp
               (undo_lists ns)) (task_undo ns) ns.

(** The structure found moves to the head of the list. *)
Definition lookup_undo (ns : sem_ns I) (ulp : ptr) (semid : Z) : option ptr * sem_ns I :=
  match lookup_undo_raw ns ulp semid with
  | None => (None, ns)
  | Some un => (Some un, set_procs ulp (fun l => un :: list_del un l) ns)
  end.

(** [find_alloc_undo] in its three sections: the undo list of the caller is
    searched; the size of the set is read under its lock; and with the set locked
    again the list is searched once more before the new structure is linked. *)
Definition find_undo (t : task) (new_list : option ptr) (semid : Z) (ns : sem_ns I)
    : (Z + ptr * option ptr) * sem_ns I :=
  match get_undo_list t new_list ns with
  | (inl err, ns) => (inl err, ns)
  | (inr ulp, ns) => let '(un, ns) := lookup_undo ns ulp semid in (inr (ulp, un), ns)
  end.

Definition undo_size (ns : sem_ns I) (semid : Z) : Z + ptr * Z :=
  match sem_lock_check ns semid with
  | inl err => inl err
  | inr p =>
      match sem_sets ns !! p with
      | None => inl (- EINVAL)
      | Some a => inr (p, sem_nsems a)
      end
  end.

Definition attach_undo (p : ptr) (nsems : Z) (ulp : ptr) (new : option ptr) (semid : Z) (ns : sem_ns I)
    : (Z + ptr) * sem_ns I :=
  match new with
  | None => (inl (- ENOMEM), ns)
  | Some new =>
  match sem_sets ns !! p with
  | None => (inl (- EIDRM), ns)
  | Some a =>
      if deleted (sem_perm a) then (inl (- EIDRM), ns)
      else
        match lookup_undo ns ulp semid with
        | (Some un, ns) => (inr un, ns)
        | (None, ns) =>
            let x := {| un_semid := semid; un_ulp := ulp; semadj := replicate (Z.to_nat nsems) 0 |} in
            let ns := set_procs ulp (fun l => new :: l) ns in
            (inr new,
             set_heap (used_sems ns) (<[p := set_list_id (new :: list_id a) a]> (sem_sets ns))
               (sem_queues ns) (<[new := x]> (sem_undos ns)) ns)
        end
  end
  end.

(** [new_list], [new]: the addresses the two allocations return; [yield]: the
    other tasks, between the sections. *)
Definition find_alloc_undo (t : task) (yield : sem_ns I -> sem_ns I) (new_list : option ptr)
    (new : sem_ns I -> option ptr) (ns : sem_ns I) (semid : Z) : (Z + ptr) * sem_ns I :=
  match find_undo t new_list semid ns with
  | (inl err, ns) => (inl err, ns)
  | (inr (ulp, Some un), ns) => (inr un, ns)
  | (inr (ulp, None), ns) =>
      let ns := yield ns in
      match undo_size ns semid with
      | inl err => (inl err, ns)
      | inr (p, nsems) => let ns := yield ns in attach_undo p nsems ulp (new ns) semid ns
      end
  end.

Definition copy_semundo (t : task) (new : option ptr) (clone_flags : Z) (tsk : ptr) (ns : sem_ns I)
    : Z * sem_ns I :=
  if has clone_flags CLONE_SYSVSEM then
    match get_undo_list t new ns with
    | (inl err, ns) => (err, ns)
    | (inr ulp, ns) =>
        (0, set_lists (alter (fun l => {| refcnt := refcnt l + 1; list_proc := list_proc l |}) ulp
                         (undo_lists ns)) (<[tsk := ulp]> (task_undo ns)) ns)
    end
  else (0, set_lists (undo_lists ns) (delete tsk (task_undo ns)) ns).

(** ** semtimedop *)

Inductive semop_result :=
| SemopDone (err : Z) (ns : sem_ns I)
| SemopSleep (ns : sem_ns I)
| SemopBug.

(** One pass over the operations: the largest semaphore number, whether one
    has [SEM_UNDO], whether one alters the set. *)
Definition scan_sops (sops : list sembuf) : nat * bool * bool :=
  foldl (fun '(max, undos, alter) sop =>
           (if (max <=? sem_num sop)%nat then sem_num sop else max,
            if has (sem_flg sop) SEM_UNDO then true else undos,
            if negb (sem_op sop =? 0) then true else alter)) (0%nat, false, false) sops.

(** Queueing [q] on the set: wait-for-zero entries go to the front. *)
Definition enqueue (q : ptr) (sq : sem_queue) (st : sem_state) : sem_state :=
  let a := sma st in
  let add l := if q_alter sq then l ++ [q] else q :: l in
  let simple := (length (q_sops sq) =? 1)%nat in
  {| sma :=
       {| sem_perm := sem_perm a; sem_otime := sem_otime a; sem_ctime := sem_ctime a;
          sem_base :=
            match q_sops sq with
            | [sop] => alter (fun s => {| semval := semval s; sempid := sempid s;
                                          sem_waiters := add (sem_waiters s) |})
                             (sem_num sop) (sem_base a)
            | _ => sem_base a
            end;
          sem_pending := add (sem_pending a); list_id := list_id a; sem_nsems := sem_nsems a;
          complex_count := if simple then complex_count a else complex_count a + 1 |};
     queues := <[q := sq]> (queues st);
     undos := undos st |}.

(** The part under the lock of the set, up to the unlock, with the tasks to wake
    up then. [q] is the address of the queue entry on the caller's stack. *)
Definition semop_locked (t : task) (p q : ptr) (sops : list sembuf) (un : option ptr)
    (max : nat) (alter : bool) (ns : sem_ns I) : semop_result * list ptr :=
  match sem_sets ns !! p with
  | None => (SemopDone (- EINVAL) ns, [])
  | Some a =>
      if match un with
         | Some u => match sem_undos ns !! u with Some x => un_semid x =? -1 | None => true end
         | None => false
         end
      then (SemopDone (- EIDRM) ns, [])
      else if Z.of_nat max >=? sem_nsems a then (SemopDone (- EFBIG) ns, [])
      else if negb (ipcperms (cur_cred t) (security_ipc_permission lsm) (sem_perm a)
                      (if alter then S_IWUGO else S_IRUGO) =? 0)
      then (SemopDone (- EACCES) ns, [])
      else
        let error := security_sem_semop lsm a sops alter in
        if negb (error =? 0) then (SemopDone error ns, [])
        else
          let '(error, st) := try_semop_on (state_of ns a) sops un (tgid t) in
          if error <=? 0 then
            if alter && (error =? 0) then
              match do_smart_update (now t) (Some sops) true st [] with
              | None => (SemopBug, [])
              | Some (st, tasks) => (SemopDone error (put_state p st ns), tasks)
              end
            else (SemopDone error (put_state p st ns), [])
          else
            (SemopSleep (put_state p (enqueue q
              {| q_sleeper := cur t; q_undo := un; q_pid := tgid t; q_status := - EINTR;
                 q_sops := sops; q_alter := alter |} st) ns), [])
  end.

(** A call whose arguments have been read: the set, the operations, the largest
    semaphore number in them and whether one alters the set. *)
Record semop_call := SemopCall { c_semid : Z; c_sops : list sembuf; c_max : nat; c_alter : bool }.

(** The lock is taken; the set may be gone. *)
Definition semop_lock (t : task) (q : ptr) (c : semop_call) (un : option ptr) (ns : sem_ns I)
    : semop_result * list ptr :=
  match sem_lock_check ns (c_semid c) with
  | inl error => (SemopDone error ns, [])
  | inr p => semop_locked t p q (c_sops c) un (c_max c) (c_alter c) ns
  end.

Definition semop_end (r : semop_result * list ptr) : semop_result :=
  match r with
  | (SemopDone err ns, tasks) => SemopDone err (do_wake_ups tasks ns)
  | (r, _) => r
  end.

(** The arguments, and whether an operation has [SEM_UNDO]. [tsops]: the
    operations in user memory, [None] when reading them faults; [timeout]: [None]
    for NULL, [Some None] for a fault. *)
Definition semop_args (mem_ok : bool) (ns : sem_ns I) (semid : Z) (tsops : option (nat -> sembuf)) (nsops : Z)
    (timeout : option (option (Z * Z))) : Z + semop_call * bool :=
  if (nsops <? 1) || (semid <? 0) then inl (- EINVAL)
  else if nsops >? sc_semopm ns then inl (- E2BIG)
  else if (nsops >? SEMOPM_FAST) && negb mem_ok then inl (- ENOMEM)
  else
    match tsops with
    | None => inl (- EFAULT)
    | Some mem =>
        let sops := mem <$> seq 0 (Z.to_nat nsops) in
        let bad_timeout :=
          match timeout with
          | None => 0
          | Some None => - EFAULT
          | Some (Some (sec, nsec)) =>
              if (sec <? 0) || (nsec <? 0) || (nsec >=? 1000000000) then - EINVAL else 0
          end in
        if negb (bad_timeout =? 0) then inl bad_timeout
        else
          let '(max, undos, alter) := scan_sops sops in
          inr ({| c_semid := semid; c_sops := sops; c_max := max; c_alter := alter |}, undos)
    end.

(** [yield1] runs between the sections of [find_alloc_undo], [yield2] before the
    set is locked. *)
Definition semtimedop (t : task) (yield1 yield2 : sem_ns I -> sem_ns I) (mem_ok : bool)
    (new_list : option ptr) (new : sem_ns I -> option ptr) (q : ptr) (ns : sem_ns I) (semid : Z)
    (tsops : option (nat -> sembuf)) (nsops : Z) (timeout : option (option (Z * Z)))
    : semop_result :=
  match semop_args mem_ok ns semid tsops nsops timeout with
  | inl error => SemopDone error ns
  | inr (c, undos) =>
      let '(un, ns) :=
        if undos : bool then
          let '(r, ns) := find_alloc_undo t yield1 new_list new ns semid in
          (match r with inl e => inl e | inr u => inr (Some u) end, ns)
        else (inr None, ns) in
      match un with
      | inl error => SemopDone error ns
      | inr un => semop_end (semop_lock t q c un (yield2 ns))
      end
  end.

Definition queue_status (ns : sem_ns I) (q : ptr) : Z :=
  match sem_queues ns !! q with Some sq => q_status sq | None => 0 end.

(** The sleeper reads its entry until the value is final: [later] lists the
    namespace at each further read, [None] says it is still spinning. *)
Fixpoint get_queue_result (q : ptr) (ns : sem_ns I) (later : list (sem_ns I))
    : option (Z * sem_ns I) :=
  if queue_status ns q =? IN_WAKEUP then
    match later with
    | [] => None
    | ns :: later => get_queue_result q ns later
    end
  else Some (queue_status ns q, ns).

(** The end of the call: the queue entry on the stack is gone. *)
Definition drop_queue (q : ptr) (ns : sem_ns I) : sem_ns I :=
  set_heap (used_sems ns) (sem_sets ns) (delete q (sem_queues ns)) (sem_undos ns) ns.

(** With the lock of the set: the entry leaves the queue without a result. *)
Definition abandon_queue (q p : ptr) (ns : sem_ns I) : option (sem_ns I) :=
  match sem_sets ns !! p, sem_queues ns !! q with
  | Some a, Some sq =>
      Some (drop_queue q (set_heap (used_sems ns) (<[p := unlink_queue q sq a]> (sem_sets ns))
                            (sem_queues ns) (sem_undos ns) ns))
  | _, _ => None
  end.

(** After [schedule] returned, for whatever reason. *)
Definition semtimedop_resume (q : ptr) (semid : Z) (timed_out : bool) (yield : sem_ns I -> sem_ns I)
    (ns : sem_ns I) (later1 later2 : list (sem_ns I)) : option (Z * sem_ns I) :=
  match get_queue_result q ns later1 with
  | None => None
  | Some (error, ns) =>
      if negb (error =? - EINTR) then Some (error, drop_queue q ns)
      else
        let ns := yield ns in
        match sem_lock ns semid with
        | inl _ => Some (- EIDRM, drop_queue q ns)
        | inr p =>
            match get_queue_result q ns later2 with
            | None => None
            | Some (error, ns) =>
                if negb (error =? - EINTR) then Some (error, drop_queue q ns)
                else (fun ns => (if timed_out then - EAGAIN else error, ns)) <$> abandon_queue q p ns
            end
        end
  end.

(** ** exit_sem *)

Definition cap_semval (v : Z) : Z :=
  let v := if v <? 0 then 0 else v in
  if v >? SEMVMX then SEMVMX else v.

Definition adjust_sems (pid nsems : Z) (adj : list Z) (b : list sem) : list sem :=
  imap (fun i s =>
          if (Z.of_nat i <? nsems) && negb (adj_at adj i =? 0)
          then set_sempid pid (set_semval (fun v => cap_semval (v + adj_at adj i)) s)
          else s) b.

(** One set: apply the adjustments of [un] and wake up who can go on. [un] is
    freed last in the code; it is off the heap here from the moment it is off
    the lists, since nothing reaches it any more: this was the last user of
    [ulp], and its adjustments are in [x]. *)
Definition exit_undo (t : task) (p un ulp : ptr) (a : sem_array) (x : sem_undo) (ns : sem_ns I)
    : option (sem_ns I * list ptr) :=
  let a := set_list_id (list_del un (list_id a)) a in
  let ns := set_procs ulp (list_del un) ns in
  let ns := set_heap (used_sems ns) (<[p := a]> (sem_sets ns)) (sem_queues ns)
              (delete un (sem_undos ns)) ns in
  let a := set_base (adjust_sems (tgid t) (sem_nsems a) (semadj x) (sem_base a)) a in
  match do_smart_update (now t) None true (state_of ns a) [] with
  | None => None
  | Some (st, tasks) => Some (put_state p st ns, tasks)
  end.

(** The first structure of the list and its set, read without a lock; [None] ends
    the loop. *)
Definition exit_pick (ulp : ptr) (ns : sem_ns I) : option (ptr * Z) :=
  match procs ns ulp with
  | [] => None
  | un :: _ =>
      match sem_undos ns !! un with
      | Some x => if un_semid x =? -1 then None else Some (un, un_semid x)
      | None => None
      end
  end.

(** The set to lock is read from [un] again. If the set was removed since then,
    [un] is freed memory, and [stale] is what it holds. *)
Definition exit_reread (un : ptr) (stale : Z) (ns : sem_ns I) : Z :=
  match sem_undos ns !! un with
  | Some x => if un_semid x =? -1 then stale else un_semid x
  | None => stale
  end.

(** One round with the set locked, and the tasks to wake up after it. *)
Definition exit_round (t : task) (ulp un : ptr) (semid stale : Z) (ns : sem_ns I)
    : option (sem_ns I * list ptr) :=
  match sem_lock_check ns (exit_reread un stale ns) with
  | inl _ => Some (ns, [])
  | inr p =>
      match lookup_undo_raw ns ulp semid with
      | None => Some (ns, [])
      | Some un =>
          match sem_sets ns !! p, sem_undos ns !! un with
          | Some a, Some x => exit_undo t p un ulp a x ns
          | _, _ => None
          end
      end
  end.

Definition exit_free (ulp : ptr) (ns : sem_ns I) : sem_ns I :=
  set_lists (delete ulp (undo_lists ns)) (task_undo ns) ns.

(** [yield]: the other tasks, between the choice of a structure and the lock. *)
Fixpoint exit_sem_loop (fuel : nat) (t : task) (yield : sem_ns I -> sem_ns I) (stale : sem_ns I -> Z)
    (ulp : ptr) (ns : sem_ns I) : option (sem_ns I) :=
  match fuel with
  | O => None
  | S fuel =>
      match exit_pick ulp ns with
      | None => Some (exit_free ulp ns)
      | Some (un, semid) =>
          let ns := yield ns in
          match exit_round t ulp un semid (stale ns) ns with
          | None => None
          | Some (ns, tasks) => exit_sem_loop fuel t yield stale ulp (do_wake_ups tasks ns)
          end
      end
  end.

(** The task gives up its list; the list to undo if it was the last user. *)
Definition exit_start (tsk : ptr) (ns : sem_ns I) : option ptr * sem_ns I :=
  match task_undo ns !! tsk with
  | None => (None, ns)
  | Some ulp =>
      let ns := set_lists
        (alter (fun l => {| refcnt := refcnt l - 1; list_proc := list_proc l |}) ulp (undo_lists ns))
        (delete tsk (task_undo ns)) ns in
      match undo_lists ns !! ulp with
      | None => (None, ns)
      | Some l => (if negb (refcnt l =? 0) then None else Some ulp, ns)
      end
  end.

(** A round takes a structure off the list, so there are no more rounds than
    structures. *)
Definition exit_sem (t : task) (yield : sem_ns I -> sem_ns I) (stale : sem_ns I -> Z) (tsk : ptr) (ns : sem_ns I)
    : option (sem_ns I) :=
  match exit_start tsk ns with
  | (None, ns) => Some ns
  | (Some ulp, ns) => exit_sem_loop (S (length (procs ns ulp))) t yield stale ulp ns
  end.
End SemNs.
