(* ===== verification/SemInv.v ===== *)
(** * SemInv: the semaphore system calls keep every set well formed and stable

    The invariant of a namespace ([ns_wf]) and its preservation by every entry
    point of [SemCtl]: identifiers, queues, undo structures and, for every set,
    that no sleeper is left asleep that could proceed. *)

From S2P Require Import Prelude IpcUtil SemOp SemCtl.

(** ** What a set sees of the heaps *)

Lemma filter_ext_elem {A} (P Q : A -> Prop) `{forall x, Decision (P x)} `{forall x, Decision (Q x)} (l : list A) :
  (forall x, x ∈ l -> P x <-> Q x) -> filter P l = filter Q l.
Proof.
  induction l as [|x l IH]; intros HPQ; [done|].
  rewrite !filter_cons, IH by (intros; apply HPQ; by right).
  pose proof (HPQ x ltac:(left)). repeat case_decide; tauto || done.
Qed.

Lemma set_wf_ext st st' :
  set_wf st -> sma st' = sma st ->
  (forall q, q ∈ sem_pending (sma st) -> queues st' !! q = queues st !! q) ->
  (forall u x, undos st' !! u = Some x -> Forall is_short (semadj x)) -> set_wf st'.
Proof.
  intros W Hs Hq Hu. constructor; rewrite ?Hs.
  - apply W.
  - intros q Hin. rewrite Hq by done. by apply W.
  - intros n s Hn. rewrite (wf_waiters st W n s Hn). apply filter_ext_elem.
    intros x Hx. unfold simple_on. by rewrite Hq.
  - rewrite (wf_complex st W). f_equal. f_equal. apply filter_ext_elem.
    intros x Hx. unfold is_simple. by rewrite Hq.
  - destruct (wf_order st W) as (l1 & l2 & Hp & H1 & H2). exists l1, l2. split; [done|].
    rewrite !Forall_forall in *. split; intros q Hin; unfold alters; rewrite Hq;
      try (rewrite Hp, elem_of_app; tauto); [by apply H1|by apply H2].
  - apply W.
  - done.
Qed.

Lemma blocked_ext st st' q :
  vals (sem_base (sma st')) = vals (sem_base (sma st)) -> queues st' !! q = queues st !! q ->
  (forall sq u, queues st !! q = Some sq -> q_undo sq = Some u -> undos st' !! u = undos st !! u) ->
  blocked st q -> blocked st' q.
Proof.
  intros Hv Hq Hu (sq & Hsq & Hb). exists sq. rewrite Hq. split; [done|].
  unfold q_blocked in *. rewrite Hv.
  assert (undo_adj (undos st') (q_undo sq) = undo_adj (undos st) (q_undo sq)) as ->; [|done].
  unfold undo_adj. destruct (q_undo sq) as [u|] eqn:E; [|done]. by rewrite (Hu sq u).
Qed.

Lemma wake_do_lookup pt : forall qs q,
  wake_up_sem_queue_do pt qs !! q = 
  match qs !! q with
  | Some x => Some (if decide (q ∈ pt) then
      {| q_sleeper := q_sleeper x; q_undo := q_undo x; q_pid := q_pid x;
         q_status := q_pid x; q_sops := q_sops x; q_alter := q_alter x |} else x)
  | None => None
  end.
Proof.
  unfold wake_up_sem_queue_do. induction pt as [|p pt IH]; intros qs q; cbn [foldl].
  { destruct (qs !! q); [|done]. by rewrite decide_False by apply not_elem_of_nil. }
  rewrite IH, lookup_alter. destruct (qs !! q) as [x|] eqn:E; case_decide as D; subst; rewrite ?E; cbn; try done.
  - rewrite (decide_True (P := q ∈ q :: pt)) by left. by case_decide.
  - destruct (decide (q ∈ pt)) as [Hin|Hin].
    + by rewrite decide_True by (by right).
    + by rewrite decide_False by (by apply not_elem_of_cons).
Qed.

Section Inv.
Context {I : Type} `{IdrLaws I}.
Context (lsm : sem_lsm).
Implicit Types ns : sem_ns I.

(** ** The invariant *)

Record set_ok (ns : sem_ns I) (a : sem_array) : Prop := {
  so_wf : set_wf (state_of ns a);
  so_stable : stable (state_of ns a);
  so_nsems : sem_nsems a = Z.of_nat (length (sem_base a));
  so_deleted : deleted (sem_perm a) = true -> sem_pending a = [] /\ list_id a = [];
  so_nodup : NoDup (list_id a);
  (** the undo structures of the set have one adjustment per semaphore *)
  so_undo u : u ∈ list_id a ->
    exists x, sem_undos ns !! u = Some x /\ un_semid x = perm_id (sem_perm a) /\
      length (semadj x) = length (sem_base a);
  (** a pending entry waits for a result and uses an undo structure of the set *)
  so_entry q sq : q ∈ sem_pending a -> sem_queues ns !! q = Some sq ->
    q_status sq = - EINTR /\ (forall u, q_undo sq = Some u -> u ∈ list_id a)
}.

Record ns_wf (ns : sem_ns I) : Prop := {
  nw_ids : ids_wf (sem_ids ns) (sem_sets ns);
  nw_set p a : sem_sets ns !! p = Some a -> set_ok ns a;
  nw_disj p p' a a' q : sem_sets ns !! p = Some a -> sem_sets ns !! p' = Some a' ->
    q ∈ sem_pending a -> q ∈ sem_pending a' -> p = p';
  (** a valid undo structure is on the lists of its set and of its process *)
  nw_undo u x : sem_undos ns !! u = Some x -> un_semid x <> -1 ->
    (exists p a, sem_sets ns !! p = Some a /\ u ∈ list_id a) /\ u ∈ procs ns (un_ulp x);
  nw_procs l u : u ∈ procs ns l ->
    exists x, sem_undos ns !! u = Some x /\ un_ulp x = l /\ un_semid x <> -1;
  nw_procs_nodup l : NoDup (procs ns l);
  (** a process has one undo structure per set *)
  nw_unique l u u' x x' : u ∈ procs ns l -> u' ∈ procs ns l -> sem_undos ns !! u = Some x -> sem_undos ns !! u' = Some x' ->
    un_semid x = un_semid x' -> u = u';
  nw_task t l : task_undo ns !! t = Some l -> is_Some (undo_lists ns !! l);
  nw_ref l ul : undo_lists ns !! l = Some ul ->
    refcnt ul = Z.of_nat (size (filter (fun tl : ptr * ptr => tl.2 = l) (task_undo ns)));
  (** a sleeper that uses an undo structure still refers to its list *)
  nw_sleeper p a q sq u x : sem_sets ns !! p = Some a -> q ∈ sem_pending a ->
    sem_queues ns !! q = Some sq -> q_undo sq = Some u -> sem_undos ns !! u = Some x ->
    task_undo ns !! q_sleeper sq = Some (un_ulp x);
  (** an entry without a result is pending *)
  nw_queue q sq : sem_queues ns !! q = Some sq -> q_status sq = - EINTR ->
    exists p a, sem_sets ns !! p = Some a /\ q ∈ sem_pending a;
  nw_short u x : sem_undos ns !! u = Some x -> Forall is_short (semadj x);
  nw_keys : keys_unique (sem_sets ns)
}.

(** An undo structure belongs to one set. *)
Lemma undo_owner ns p p' a a' u :
  ns_wf ns -> sem_sets ns !! p = Some a -> sem_sets ns !! p' = Some a' ->
  u ∈ list_id a -> u ∈ list_id a' -> p = p'.
Proof.
  intros W Ha Ha' Hu Hu'.
  destruct (so_undo _ _ (nw_set _ W _ _ Ha) u Hu) as (x & Hx & E & _).
  destruct (so_undo _ _ (nw_set _ W _ _ Ha') u Hu') as (x' & Hx' & E' & _). simplify_eq.
  assert (forall p a, sem_sets ns !! p = Some a -> u ∈ list_id a -> deleted (sem_perm a) = false) as Hd.
  { intros r b Hb Hin. apply not_true_iff_false. intros D.
    destruct (so_deleted _ _ (nw_set _ W _ _ Hb) D) as [_ Hl]. rewrite Hl in Hin.
    by apply not_elem_of_nil in Hin. }
  destruct (ids_live _ _ (nw_ids _ W) p a Ha (Hd p a Ha Hu)) as [_ F].
  destruct (ids_live _ _ (nw_ids _ W) p' a' Ha' (Hd p' a' Ha' Hu')) as [_ F'].
  cbn in F, F'. rewrite <- E, E', F' in F. by simplify_eq.
Qed.

(** Transfer to another namespace that shows a set the same entries and undo
    structures. *)
Lemma set_ok_ext ns ns' a :
  set_ok ns a ->
  (forall q, q ∈ sem_pending a -> sem_queues ns' !! q = sem_queues ns !! q) ->
  (forall u, u ∈ list_id a -> sem_undos ns' !! u = sem_undos ns !! u) ->
  (forall u x, sem_undos ns' !! u = Some x -> Forall is_short (semadj x)) ->
  set_ok ns' a.
Proof.
  intros O Hq Hu Hs. constructor; [| |apply O..| |].
  - apply (set_wf_ext (state_of ns a)); [apply O|done..].
  - pose proof (so_stable _ _ O) as S. unfold stable in *. cbn in *. rewrite Forall_forall in *.
    intros q Hin. apply (blocked_ext (state_of ns a)); cbn; [done|by apply Hq| |by apply S].
    intros sq u Hsq Hun. apply Hu. by apply (so_entry _ _ O q sq).
  - intros u Hin. rewrite Hu by done. by apply O.
  - intros q sq Hin. rewrite Hq by done. by apply O.
Qed.

Lemma shape_lookup ns ns' u x' :
  (forall u, undo_shape <$> sem_undos ns' !! u = undo_shape <$> sem_undos ns !! u) ->
  sem_undos ns' !! u = Some x' ->
  exists x, sem_undos ns !! u = Some x /\ undo_shape x = undo_shape x'.
Proof.
  intros Hs Hx. specialize (Hs u). rewrite Hx in Hs. simpl in Hs.
  destruct (sem_undos ns !! u) as [x|]; simpl in Hs; [|done]. exists x. split; [done|congruence].
Qed.

Lemma shape_lookup' ns ns' u x :
  (forall u, undo_shape <$> sem_undos ns' !! u = undo_shape <$> sem_undos ns !! u) ->
  sem_undos ns !! u = Some x ->
  exists x', sem_undos ns' !! u = Some x' /\ undo_shape x = undo_shape x'.
Proof.
  intros Hs Hx. specialize (Hs u). rewrite Hx in Hs. simpl in Hs.
  destruct (sem_undos ns' !! u) as [x'|]; simpl in Hs; [|done]. exists x'. split; [done|congruence].
Qed.

(** A critical section on the set at [p]: the other sets see no change. *)
Lemma ns_wf_local ns ns' p a a' :
  ns_wf ns -> sem_sets ns !! p = Some a ->
  sem_sets ns' = <[p := a']> (sem_sets ns) -> sem_ids ns' = sem_ids ns ->
  undo_lists ns' = undo_lists ns -> task_undo ns' = task_undo ns ->
  perm_id (sem_perm a') = perm_id (sem_perm a) -> perm_seq (sem_perm a') = perm_seq (sem_perm a) ->
  deleted (sem_perm a') = deleted (sem_perm a) -> perm_key (sem_perm a') = perm_key (sem_perm a) ->
  list_id a' = list_id a ->
  (forall p2 a2 q, p2 <> p -> sem_sets ns !! p2 = Some a2 -> q ∈ sem_pending a2 ->
     (q ∉ sem_pending a') /\ sem_queues ns' !! q = sem_queues ns !! q) ->
  (forall u, u ∉ list_id a -> sem_undos ns' !! u = sem_undos ns !! u) ->
  (forall u, undo_shape <$> sem_undos ns' !! u = undo_shape <$> sem_undos ns !! u) ->
  set_ok ns' a' ->
  (forall q sq u x, q ∈ sem_pending a' -> sem_queues ns' !! q = Some sq -> q_undo sq = Some u ->
     sem_undos ns' !! u = Some x -> task_undo ns !! q_sleeper sq = Some (un_ulp x)) ->
  (forall q sq, sem_queues ns' !! q = Some sq -> q_status sq = - EINTR -> q ∉ sem_pending a' ->
     (q ∉ sem_pending a) /\ sem_queues ns !! q = Some sq) ->
  ns_wf ns'.
Proof.
  intros W Ha Es Ei El Et Epid Epseq Edel Ekey Elist Hq Hu Hsh O Hsl Hqq.
  assert (forall l, procs ns' l = procs ns l) as Ep by (intros; unfold procs; by rewrite El).
  assert (forall r b, sem_sets ns' !! r = Some b -> r = p /\ b = a' \/ r <> p /\ sem_sets ns !! r = Some b) as Hsets.
  { intros r b. rewrite Es, lookup_insert_Some. intros [[-> ->]|[? ?]]; [by left|right; done]. }
  constructor.
  - rewrite Ei, Es. by apply (ids_wf_update _ _ _ a); [apply W|..].
  - intros r b [[-> ->]|[Hne Hb]]%Hsets; [done|].
    apply (set_ok_ext ns); [by apply (nw_set _ W r)| | |apply (wf_undo _ (so_wf _ _ O))].
    + intros q Hin. by apply (Hq r b).
    + intros u Hin. apply Hu. intros Hina. by destruct (Hne (undo_owner ns r p b a u W Hb Ha Hin Hina)).
  - intros r r' b b' q [[-> ->]|[Hne Hb]]%Hsets [[-> ->]|[Hne' Hb']]%Hsets Hin Hin'; [done| | |].
    + by destruct (Hq r' b' q Hne' Hb' Hin').
    + by destruct (Hq r b q Hne Hb Hin).
    + by apply (nw_disj _ W r r' b b' q).
  - intros u x' Hx' Hv. destruct (shape_lookup ns ns' u x' Hsh Hx') as (x & Hx & E).
    unfold undo_shape in E. destruct (nw_undo _ W u x Hx) as [(r & b & Hb & Hin) Hp]; [congruence|].
    split; [|rewrite Ep; by replace (un_ulp x') with (un_ulp x) by congruence].
    destruct (decide (r = p)) as [->|].
    + exists p, a'. rewrite Es, lookup_insert_eq, Elist. by simplify_eq.
    + exists r, b. by rewrite Es, lookup_insert_ne.
  - intros l u. rewrite Ep. intros Hin. destruct (nw_procs _ W l u Hin) as (x & Hx & ? & ?).
    destruct (shape_lookup' ns ns' u x Hsh Hx) as (x' & Hx' & E). unfold undo_shape in E.
    exists x'. split; [done|]. split; congruence.
  - intros l. rewrite Ep. apply W.
  - intros l u u' x' y'. rewrite Ep. intros Hu1 Hu2 Hx' Hy' E. destruct (shape_lookup ns ns' u x' Hsh Hx') as (x & Hx & Ex).
    destruct (shape_lookup ns ns' u' y' Hsh Hy') as (y & Hy & Ey). unfold undo_shape in Ex, Ey. apply (nw_unique _ W l u u' x y); try done. congruence.
  - intros t l. rewrite Et, El. apply W.
  - intros l ul. rewrite Et, El. apply W.
  - intros r b q sq u x' [[-> ->]|[Hne Hb]]%Hsets Hin Hsq Hun Hx'; rewrite Et; [by eapply Hsl|].
    rewrite (proj2 (Hq r b q Hne Hb Hin)) in Hsq.
    destruct (shape_lookup ns ns' u x' Hsh Hx') as (x & Hx & E). unfold undo_shape in E.
    replace (un_ulp x') with (un_ulp x) by congruence.
    by apply (nw_sleeper _ W r b q sq u x).
  - intros q sq Hsq Hst. destruct (decide (q ∈ sem_pending a')) as [Hin|Hnin].
    + exists p, a'. by rewrite Es, lookup_insert_eq.
    + destruct (Hqq q sq Hsq Hst Hnin) as [Hna Hsq0]. destruct (nw_queue _ W q sq Hsq0 Hst) as (r & b & Hb & Hin).
      exists r, b. rewrite Es, lookup_insert_ne; [done|]. intros <-. by simplify_eq.
  - apply (wf_undo _ (so_wf _ _ O)).
  - rewrite Es. apply (keys_unique_change _ p a); [apply W|done|done|]. cbn. by rewrite Edel.
Qed.

(** ** Sections

    What one section of a task [k], from taking a lock to dropping it, does to
    the namespace, besides keeping the invariant. The other tasks keep their undo
    lists and structures, which at most become invalid; sets and lists stay; an
    entry that sleeps is left alone or gets a result, with its sleeper in
    [tasks], the tasks to wake up. [kq] is the entry of [k] itself that comes or
    goes, [dead] a list [k] has given up. *)

Definition result_code (r : Z) : Prop := r ∈ [0; - EAGAIN; - ERANGE; - EIDRM].

Record section_ok (k : ptr) (kq dead : option ptr) (ns ns' : sem_ns I) (tasks : list ptr) : Prop := {
  sc_wf : ns_wf ns';
  sc_task u l : u <> k -> task_undo ns !! u = Some l -> task_undo ns' !! u = Some l;
  sc_undo v x : sem_undos ns !! v = Some x -> dead <> Some (un_ulp x) ->
    exists x', sem_undos ns' !! v = Some x' /\ un_ulp x' = un_ulp x /\ (un_semid x' = un_semid x \/ un_semid x' = -1);
  sc_set p a : sem_sets ns !! p = Some a ->
    exists a', sem_sets ns' !! p = Some a' /\ perm_id (sem_perm a') = perm_id (sem_perm a) /\ sem_nsems a' = sem_nsems a;
  sc_list l ul : undo_lists ns !! l = Some ul -> refcnt ul = 0 -> dead <> Some l ->
    exists ul', undo_lists ns' !! l = Some ul' /\ refcnt ul' = 0 /\ (forall u, u ∈ list_proc ul' -> u ∈ list_proc ul);
  sc_entry q sq : sem_queues ns !! q = Some sq -> kq <> Some q ->
    exists sq', sem_queues ns' !! q = Some sq' /\ q_sleeper sq' = q_sleeper sq /\ (q_status sq <> - EINTR -> sq' = sq);
  sc_old q sq' : sem_queues ns' !! q = Some sq' -> kq <> Some q ->
    exists sq, sem_queues ns !! q = Some sq /\ (sq' = sq \/ q ∈ tasks);
  sc_pending p a' q : sem_sets ns' !! p = Some a' -> q ∈ sem_pending a' ->
    kq = Some q \/ exists a, sem_sets ns !! p = Some a /\ q ∈ sem_pending a;
  sc_nodup : NoDup tasks;
  sc_woken q : q ∈ tasks -> exists sq sq', sem_queues ns !! q = Some sq /\ q_status sq = - EINTR /\
    sem_queues ns' !! q = Some sq' /\ q_status sq' = IN_WAKEUP /\ result_code (q_pid sq')
}.

(** A section that changes none of it. *)
Lemma section_same k kq dead ns ns' :
  ns_wf ns' -> sem_undos ns' = sem_undos ns -> sem_queues ns' = sem_queues ns ->
  (forall u l, u <> k -> task_undo ns !! u = Some l -> task_undo ns' !! u = Some l) ->
  (forall p a, sem_sets ns !! p = Some a -> exists a', sem_sets ns' !! p = Some a' /\ perm_id (sem_perm a') = perm_id (sem_perm a) /\ sem_nsems a' = sem_nsems a) ->
  (forall p a' q, sem_sets ns' !! p = Some a' -> q ∈ sem_pending a' -> exists a, sem_sets ns !! p = Some a /\ q ∈ sem_pending a) ->
  (forall l ul, undo_lists ns !! l = Some ul -> refcnt ul = 0 -> dead <> Some l ->
    exists ul', undo_lists ns' !! l = Some ul' /\ refcnt ul' = 0 /\ (forall u, u ∈ list_proc ul' -> u ∈ list_proc ul)) ->
  section_ok k kq dead ns ns' [].
Proof.
  intros W Eu Eq Ht Hs Hp Hl. constructor; [done|done| |done|done| | | | |].
  - intros v x Hx _. exists x. rewrite Eu. auto.
  - intros q sq Hq _. exists sq. by rewrite Eq.
  - intros q sq Hq _. exists sq. rewrite <- Eq. auto.
  - intros p a' q Ha Hq. right. by apply (Hp p a').
  - constructor.
  - by intros q ?%not_elem_of_nil.
Qed.

Lemma section_refl k kq dead ns : ns_wf ns -> section_ok k kq dead ns ns [].
Proof. intros W. apply section_same; try done; intros; eauto. Qed.

(** One section after another that wakes nobody. *)
Lemma section_trans k dead ns1 ns2 ns3 tasks :
  section_ok k None dead ns1 ns2 [] -> section_ok k None dead ns2 ns3 tasks -> section_ok k None dead ns1 ns3 tasks.
Proof.
  intros A B. constructor; [apply B| | | | | | | |apply B|].
  - intros u l Hne Hl. by apply (sc_task _ _ _ _ _ _ B), (sc_task _ _ _ _ _ _ A).
  - intros v x Hx Hd. destruct (sc_undo _ _ _ _ _ _ A v x Hx Hd) as (y & Hy & Ey & Sy).
    destruct (sc_undo _ _ _ _ _ _ B v y Hy) as (z & Hz & Ez & Sz); [by rewrite Ey|]. exists z. split; [done|]. split; [congruence|].
    destruct Sz as [->|]; [destruct Sy; auto|auto].
  - intros p a Ha. destruct (sc_set _ _ _ _ _ _ A p a Ha) as (b & Hb & E1 & E2). destruct (sc_set _ _ _ _ _ _ B p b Hb) as (c & Hc & E3 & E4).
    exists c. split; [done|]. split; congruence.
  - intros l ul Hl Hr Hd. destruct (sc_list _ _ _ _ _ _ A l ul Hl Hr Hd) as (ul' & Hl' & Hr' & Hs').
    destruct (sc_list _ _ _ _ _ _ B l ul' Hl' Hr' Hd) as (ul2 & Hl2 & Hr2 & Hs2). exists ul2. split; [done|]. split; [done|auto].
  - intros q sq Hq _. destruct (sc_entry _ _ _ _ _ _ A q sq Hq) as (s2 & H2 & E2 & F2); [done|].
    destruct (sc_entry _ _ _ _ _ _ B q s2 H2) as (s3 & H3 & E3 & F3); [done|]. exists s3. split; [done|]. split; [congruence|].
    intros Hst. specialize (F2 Hst). subst s2. auto.
  - intros q s3 H3 _. destruct (sc_old _ _ _ _ _ _ B q s3 H3) as (s2 & H2 & F2); [done|]. destruct (sc_old _ _ _ _ _ _ A q s2 H2) as (s1 & H1 & F1); [done|].
    exists s1. split; [done|]. destruct F2 as [->|]; [|auto]. destruct F1 as [->|?%not_elem_of_nil]; [auto|done].
  - intros p a' q Ha Hq. destruct (sc_pending _ _ _ _ _ _ B p a' q Ha Hq) as [|(a & Ha2 & Hq2)]; [done|].
    by apply (sc_pending _ _ _ _ _ _ A p a).
  - intros q Hq. destruct (sc_woken _ _ _ _ _ _ B q Hq) as (s2 & s3 & H2 & St2 & Hrest).
    destruct (sc_old _ _ _ _ _ _ A q s2 H2) as (s1 & H1 & _); [done|]. exists s1, s3. split; [done|]. split; [|done].
    destruct (decide (q_status s1 = - EINTR)) as [|Hne]; [done|]. destruct (sc_entry _ _ _ _ _ _ A q s1 H1) as (s2' & H2' & _ & E); [done|].
    specialize (E Hne). congruence.
Qed.

(** The wake-ups themselves, all at once or one by one. *)
Lemma wake_ok l ns :
  ns_wf ns -> (forall q sq, q ∈ l -> sem_queues ns !! q = Some sq -> q_status sq <> - EINTR /\ q_pid sq <> - EINTR) ->
  ns_wf (do_wake_ups l ns).
Proof.
  intros W Hl.
  assert (forall p a q, sem_sets ns !! p = Some a -> q ∈ sem_pending a -> q ∉ l) as Hp.
  { intros p a q Ha Hq Hin. pose proof (nw_set _ W p a Ha) as O. destruct (wf_entry _ (so_wf _ _ O) q Hq) as (sq & Hsq & _).
    destruct (Hl q sq Hin Hsq) as [Hst _]. by apply Hst, (so_entry _ _ O q sq). }
  assert (forall q, q ∉ l -> sem_queues (do_wake_ups l ns) !! q = sem_queues ns !! q) as Hq.
  { intros q Hq. cbn. rewrite wake_do_lookup. destruct (sem_queues ns !! q); [|done]. by rewrite decide_False. }
  constructor; try apply W.
  - intros p a Ha. apply (set_ok_ext ns); [by apply (nw_set _ W p)| |done|apply (nw_short _ W)]. intros q Hin. by apply Hq, (Hp p a).
  - intros p a q sq u x Ha Hin. rewrite Hq by by apply (Hp p a). by apply (nw_sleeper _ W p a).
  - intros q sq. cbn. rewrite wake_do_lookup. destruct (sem_queues ns !! q) as [sq0|] eqn:E; [|done]. intros [= <-].
    case_decide as D; [|by apply (nw_queue _ W)]. cbn. intros Hc. by destruct (Hl q sq0 D E).
Qed.

Lemma result_not_eintr r : result_code r -> r <> - EINTR /\ r <> IN_WAKEUP.
Proof. unfold result_code. intros Hr. repeat (apply elem_of_cons in Hr as [->|Hr]; [done|]). by apply not_elem_of_nil in Hr. Qed.

Lemma section_wake k kq dead ns ns' tasks : section_ok k kq dead ns ns' tasks -> ns_wf (do_wake_ups tasks ns').
Proof.
  intros A. apply wake_ok; [apply A|]. intros q sq0 Hq Hsq0. destruct (sc_woken _ _ _ _ _ _ A q Hq) as (_ & sq & _ & _ & Hsq & Hst & Hr).
  simplify_eq. split; [by rewrite Hst|by apply result_not_eintr].
Qed.

(** The common end of SETVAL, SETALL, exit_sem and a successful semop: the set
    was changed into [st1] and [do_smart_update] answered [st'], with the tasks
    [l] to wake up. *)
Section Smart.
Context (ns : sem_ns I) (p : ptr) (a : sem_array) (st1 st' : sem_state) (l : list ptr).
Hypothesis (W : ns_wf ns) (Ha : sem_sets ns !! p = Some a) (Hd : deleted (sem_perm a) = false)
  (Ep : sem_perm (sma st1) = sem_perm a) (Epend : sem_pending (sma st1) = sem_pending a)
  (Elist : list_id (sma st1) = list_id a) (Ens : sem_nsems (sma st1) = sem_nsems a)
  (Elen : length (sem_base (sma st1)) = length (sem_base a)) (Eqs : queues st1 = sem_queues ns)
  (Hu : forall u, u ∉ list_id a -> undos st1 !! u = sem_undos ns !! u)
  (Hsh : forall u, undo_shape <$> undos st1 !! u = undo_shape <$> sem_undos ns !! u)
  (W' : set_wf st') (S : stable st') (HP : sem_pending (sma st1) ≡ₚ sem_pending (sma st') ++ l) (F : frame st1 st').

Lemma smart_shape u : undo_shape <$> undos st' !! u = undo_shape <$> sem_undos ns !! u.
Proof. by rewrite (frame_shape _ _ F), Hsh. Qed.

Lemma smart_old q sq : q ∈ sem_pending (sma st') -> queues st' !! q = Some sq -> q ∈ sem_pending a /\ sem_queues ns !! q = Some sq.
Proof.
  intros Hq Hsq. rewrite (frame_same _ _ F), Eqs in Hsq by (by right). split; [|done]. rewrite <- Epend. by apply (frame_pending _ _ F).
Qed.

Lemma smart_set_ok : set_ok (put_state p st' ns) (sma st').
Proof.
  pose proof (nw_set _ W p a Ha) as O. constructor; cbn.
  - by apply (set_wf_ext st'); [..|apply W'].
  - done.
  - by rewrite (frame_nsems _ _ F), (frame_length _ _ F), Ens, Elen, (so_nsems _ _ O).
  - rewrite (frame_perm _ _ F), Ep. congruence.
  - rewrite (frame_list_id _ _ F), Elist. apply O.
  - intros u. rewrite (frame_list_id _ _ F), Elist, (frame_perm _ _ F), Ep, (frame_length _ _ F), Elen.
    intros Hin. destruct (so_undo _ _ O u Hin) as (x & Hx & E1 & E2).
    pose proof (smart_shape u) as Hshape. rewrite Hx in Hshape. destruct (undos st' !! u) as [x'|]; [|done].
    simpl in Hshape. unfold undo_shape in Hshape. exists x'. split; [done|]. split; congruence.
  - intros q sq Hq Hsq. destruct (smart_old q sq Hq Hsq) as [Hqa Hsqa].
    rewrite (frame_list_id _ _ F), Elist. by apply (so_entry _ _ O q).
Qed.

Lemma smart_ok : ns_wf (put_state p st' ns).
Proof.
  pose proof (nw_set _ W p a Ha) as O.
  apply (ns_wf_local ns _ p a (sma st')); try done; cbn; try by rewrite (frame_perm _ _ F), Ep.
  - by rewrite (frame_list_id _ _ F), Elist.
  - intros p2 a2 q Hne Ha2 Hq. assert (q ∉ sem_pending a) as Hna.
    { intros Hin. by apply Hne, (nw_disj _ W p2 p a2 a q). }
    rewrite <- Epend in Hna. split; [intros Hin; by apply Hna, (frame_pending _ _ F)|].
    by rewrite (frame_same _ _ F q), Eqs by (by left).
  - intros u Hnu. rewrite (frame_undo _ _ F); [by apply Hu|]. intros q sq Hq Hsq Hun.
    rewrite Epend in Hq. rewrite Eqs in Hsq. by apply Hnu, (so_entry _ _ O q sq Hq Hsq).
  - apply smart_shape.
  - apply smart_set_ok.
  - intros q sq u x Hq Hsq Hun Hx. destruct (smart_old q sq Hq Hsq) as [Hqa Hsqa].
    pose proof (smart_shape u) as Hshape. rewrite Hx in Hshape. destruct (sem_undos ns !! u) as [x0|] eqn:Ex0; [|done].
    simpl in Hshape. unfold undo_shape in Hshape. replace (un_ulp x) with (un_ulp x0) by congruence.
    by apply (nw_sleeper _ W p a q sq u x0).
  - intros q sq Hsq Hst Hnin. rewrite <- Epend.
    destruct (decide (q ∈ sem_pending (sma st1))) as [Hin|Hna].
    + exfalso. destruct (frame_done _ _ F q Hin Hnin) as (sq' & Hsq' & Hw & _). simplify_eq. by rewrite Hst in Hw.
    + split; [done|]. by rewrite (frame_same _ _ F q), Eqs in Hsq by tauto.
Qed.

Lemma smart_pending q : q ∈ sem_pending (sma st1) -> exists sq, sem_queues ns !! q = Some sq /\ q_status sq = - EINTR.
Proof.
  intros Hq. pose proof (nw_set _ W p a Ha) as O. rewrite Epend in Hq. destruct (wf_entry _ (so_wf _ _ O) q Hq) as (sq & Hsq & _).
  exists sq. split; [done|]. by apply (so_entry _ _ O q sq).
Qed.

Lemma smart_woken q : q ∈ l -> exists sq, queues st' !! q = Some sq /\ q_status sq = IN_WAKEUP /\ result_code (q_pid sq).
Proof.
  intros Hq. pose proof (so_wf _ _ (nw_set _ W p a Ha)) as Wa.
  assert (NoDup (sem_pending (sma st') ++ l)) as Hnd by (rewrite <- HP, Epend; apply Wa). apply NoDup_app in Hnd as (_ & Hdis & _).
  destruct (frame_done _ _ F q) as (sq & Hsq & Hst & Hc); [rewrite HP, elem_of_app; by right|intros Hin; by apply (Hdis q)|].
  exists sq. split; [done|]. split; [done|]. unfold result_code. set_unfold. tauto.
Qed.

Lemma smart_section k dead : section_ok k None dead ns (put_state p st' ns) l.
Proof.
  pose proof (so_wf _ _ (nw_set _ W p a Ha)) as Wa. constructor; [apply smart_ok|done| | |intros; eauto| | | | |].
  - intros v x Hx _. pose proof (smart_shape v) as Hshape. rewrite Hx in Hshape. cbn. destruct (undos st' !! v) as [x'|]; [|done].
    simpl in Hshape. unfold undo_shape in Hshape. exists x'. split; [done|]. split; [congruence|left; congruence].
  - intros p2 a2 Ha2. cbn. destruct (decide (p2 = p)) as [->|Hne]; [|rewrite lookup_insert_ne by done; eauto].
    exists (sma st'). rewrite lookup_insert_eq, (frame_perm _ _ F), Ep, (frame_nsems _ _ F), Ens. by simplify_eq.
  - intros q sq Hq _. cbn. pose proof (frame_entry _ _ F q) as Hb. rewrite Eqs, Hq in Hb.
    destruct (queues st' !! q) as [sq'|] eqn:Eq; [|done]. cbn in Hb. exists sq'. split; [done|]. split; [unfold entry_body in Hb; congruence|].
    intros Hst. rewrite (frame_same _ _ F q), Eqs in Eq; [congruence|]. left. intros Hin. destruct (smart_pending q Hin) as (? & ? & ?). congruence.
  - intros q sq' Hq _. cbn in Hq. destruct (frame_undo_owner _ _ q sq' F Hq) as (sq & Hsq & _). rewrite Eqs in Hsq. exists sq. split; [done|].
    destruct (decide (q ∈ l)); [by right|left]. rewrite (frame_same _ _ F q), Eqs in Hq; [congruence|].
    destruct (decide (q ∈ sem_pending (sma st1))) as [Hin|]; [right|by left]. rewrite HP, elem_of_app in Hin. tauto.
  - intros p2 a2 q. cbn. rewrite lookup_insert_Some. intros [[<- <-]|[_ Ha2]] Hq; right; [|eauto].
    exists a. split; [done|]. rewrite <- Epend. by apply (frame_pending _ _ F).
  - assert (NoDup (sem_pending (sma st') ++ l)) as Hnd by (rewrite <- HP, Epend; apply Wa). by apply NoDup_app in Hnd as (_ & _ & ?).
  - intros q Hq. destruct (smart_pending q) as (sq & Hsq & Hst); [rewrite HP, elem_of_app; by right|].
    destruct (smart_woken q Hq) as (sq' & Hsq' & Hst' & Hr). exists sq, sq'. done.
Qed.
End Smart.

Lemma section_smart k dead ns p a st1 st' woke :
  ns_wf ns -> sem_sets ns !! p = Some a -> deleted (sem_perm a) = false ->
  sem_perm (sma st1) = sem_perm a -> sem_pending (sma st1) = sem_pending a ->
  list_id (sma st1) = list_id a -> sem_nsems (sma st1) = sem_nsems a ->
  length (sem_base (sma st1)) = length (sem_base a) -> queues st1 = sem_queues ns ->
  (forall u, u ∉ list_id a -> undos st1 !! u = sem_undos ns !! u) ->
  (forall u, undo_shape <$> undos st1 !! u = undo_shape <$> sem_undos ns !! u) ->
  set_wf st' -> stable st' -> woken st1 [] st' woke -> frame st1 st' ->
  section_ok k None dead ns (put_state p st' ns) woke.
Proof.
  intros W Ha Hd Ep Epend Elist Ens Elen Eqs Hu Hsh W' S (l & -> & HP) F. by apply (smart_section ns p a st1).
Qed.

(** ** Writing values: SETVAL and SETALL *)

Lemma set_wf_values st a' us' :
  set_wf st -> sem_pending a' = sem_pending (sma st) -> complex_count a' = complex_count (sma st) ->
  sem_waiters <$> sem_base a' = sem_waiters <$> sem_base (sma st) ->
  Forall (fun v => 0 <= v <= SEMVMX) (vals (sem_base a')) ->
  (forall u x, us' !! u = Some x -> Forall is_short (semadj x)) ->
  set_wf {| sma := a'; queues := queues st; undos := us' |}.
Proof.
  intros W Ep Ec Ew Hv Hu.
  assert (length (sem_base a') = length (sem_base (sma st))) as El.
  { by rewrite <- (length_fmap sem_waiters), Ew, length_fmap. }
  constructor; cbn; rewrite ?Ep, ?Ec; [apply W|by rewrite El; apply W| |apply W|apply W|done|done].
  intros n s Hn. assert ((sem_waiters <$> sem_base a') !! n = Some (sem_waiters s)) as Hl
    by (by rewrite list_lookup_fmap, Hn).
  rewrite Ew, list_lookup_fmap in Hl. destruct (sem_base (sma st) !! n) as [s0|] eqn:E; [|done].
  simpl in Hl. simplify_eq. rewrite <- Hl. by apply W.
Qed.

Lemma map_semadj_lookup f uns : forall us u,
  (u ∉ uns -> map_semadj f uns us !! u = us !! u) /\
  undo_shape <$> map_semadj f uns us !! u = undo_shape <$> us !! u.
Proof.
  unfold map_semadj. induction uns as [|un uns IH]; intros us u; cbn [foldl]; [done|].
  set (us1 := alter _ un us).
  assert (undo_shape <$> us1 !! u = undo_shape <$> us !! u) as Hs.
  { unfold us1. rewrite lookup_alter. case_decide; subst; [|done].
    destruct (us !! u) as [x|]; [|done]. cbn. unfold undo_shape. cbn. by rewrite length_imap. }
  destruct (IH us1 u) as [IH1 IH2]. split; [|by rewrite IH2].
  intros [Hne Hnin]%not_elem_of_cons. rewrite IH1 by done. unfold us1. by rewrite lookup_alter_ne.
Qed.

Lemma map_semadj_short f uns :
  (forall i v, is_short v -> is_short (f i v)) -> forall us,
  (forall u x, us !! u = Some x -> Forall is_short (semadj x)) ->
  forall u x, map_semadj f uns us !! u = Some x -> Forall is_short (semadj x).
Proof.
  intros Hf. unfold map_semadj. induction uns as [|un uns IH]; intros us Hus; cbn [foldl]; [done|].
  apply IH. intros u x. rewrite lookup_alter. case_decide; subst; [|apply Hus].
  destruct (us !! u) as [y|] eqn:Ey; [|done]. intros ?. simplify_eq/=.
  apply Forall_lookup. intros i v. rewrite list_lookup_imap.
  destruct (semadj y !! i) as [w|] eqn:Ew; [|done]. intros ?. simplify_eq/=. apply Hf.
  specialize (Hus u y Ey). rewrite Forall_lookup in Hus. by apply (Hus i).
Qed.

Lemma sem_setval_ok t p a n val ns :
  ns_wf ns -> sem_sets ns !! p = Some a -> deleted (sem_perm a) = false -> 0 <= val <= SEMVMX ->
  exists ns' tasks, sem_setval t p a n val ns = Some (ns', tasks) /\ forall k dead, section_ok k None dead ns ns' tasks.
Proof.
  intros W Ha Hd Hv. pose proof (nw_set _ W p a Ha) as O. unfold sem_setval.
  set (f := fun (i : nat) (v : Z) => if (i =? n)%nat then 0 else v).
  set (us := map_semadj f (list_id a) (sem_undos ns)).
  set (b := alter (fun s => set_sempid (tgid t) (set_semval (fun _ => val) s)) n (sem_base a)).
  set (st1 := {| sma := set_ctime (now t) (set_base b a); queues := sem_queues ns; undos := us |}).
  assert (set_wf st1) as W1.
  { apply (set_wf_values (state_of ns a)); [apply O|done|done| | |]; cbn.
    - unfold b. rewrite (list_fmap_alter _ _ id) by (by apply Forall_true). by apply list_alter_id.
    - unfold b, vals. rewrite (list_fmap_alter _ _ (fun _ => val)) by (by apply Forall_true).
      apply Forall_alter; [apply (so_wf _ _ O)|]. done.
    - apply map_semadj_short; [|apply (so_wf _ _ O)]. intros i v Hs. unfold f. by destruct (i =? n)%nat. }
  destruct (smart_full (now t) false st1 [] W1) as (st' & woke & E & W' & S & Hw & F).
  rewrite E. eexists _, _. split; [reflexivity|]. intros k dead.
  apply (section_smart k dead ns p a st1); try done; cbn.
  - unfold b. apply length_alter.
  - intros u Hu. by apply (map_semadj_lookup f).
  - intros u. apply (map_semadj_lookup f).
Qed.

Lemma sem_setall_ok t p a sem_io nsems ns :
  ns_wf ns -> sem_sets ns !! p = Some a -> deleted (sem_perm a) = false ->
  (forall i, Z.of_nat i < nsems -> 0 <= sem_io i <= SEMVMX) ->
  exists ns' tasks, sem_setall t p a sem_io nsems ns = Some (ns', tasks) /\ forall k dead, section_ok k None dead ns ns' tasks.
Proof.
  intros W Ha Hd Hv. pose proof (nw_set _ W p a Ha) as O. unfold sem_setall.
  set (f := fun (i : nat) (v : Z) => if Z.of_nat i <? nsems then 0 else v).
  set (us := map_semadj f (list_id a) (sem_undos ns)).
  set (b := imap (fun i s => if Z.of_nat i <? nsems then set_semval (fun _ => sem_io i) s else s) (sem_base a)).
  set (st1 := {| sma := set_ctime (now t) (set_base b a); queues := sem_queues ns; undos := us |}).
  assert (forall i s, b !! i = Some s -> exists s0, sem_base a !! i = Some s0 /\
    sem_waiters s = sem_waiters s0 /\ (semval s = semval s0 \/ 0 <= semval s <= SEMVMX)) as Hb.
  { intros i s. unfold b. rewrite list_lookup_imap. destruct (sem_base a !! i) as [s0|]; [|done].
    intros ?. simplify_eq/=. exists s0. split; [done|].
    destruct (Z.ltb_spec (Z.of_nat i) nsems); cbn; [|by auto]. split; [done|right; by apply Hv]. }
  assert (set_wf st1) as W1.
  { apply (set_wf_values (state_of ns a)); [apply O|done|done| | |]; cbn.
    - apply list_eq. intros i. rewrite !list_lookup_fmap. unfold b. rewrite list_lookup_imap.
      destruct (sem_base a !! i); [|done]. cbn. by destruct (Z.of_nat i <? nsems).
    - unfold vals. apply Forall_lookup. intros i v. rewrite list_lookup_fmap.
      destruct (b !! i) as [s|] eqn:Es; [|done]. intros ?. simplify_eq/=.
      destruct (Hb i s Es) as (s0 & Hs0 & _ & [->|]); [|done].
      pose proof (wf_vals _ (so_wf _ _ O)) as Hr. cbn in Hr. rewrite Forall_lookup in Hr.
      apply (Hr i). unfold vals. by rewrite list_lookup_fmap, Hs0.
    - apply map_semadj_short; [|apply (so_wf _ _ O)]. intros i v Hs. unfold f. by destruct (Z.of_nat i <? nsems). }
  destruct (smart_full (now t) false st1 [] W1) as (st' & woke & E & W' & S & Hw & F).
  rewrite E. eexists _, _. split; [reflexivity|]. intros k dead.
  apply (section_smart k dead ns p a st1); try done; cbn.
  - unfold b. apply length_imap.
  - intros u Hu. by apply (map_semadj_lookup f).
  - intros u. apply (map_semadj_lookup f).
Qed.

(** ** exit_sem *)

Lemma procs_set_procs ulp f ns l :
  procs (set_procs ulp f ns) l =
  if decide (l = ulp) then (if undo_lists ns !! ulp is Some ul then f (list_proc ul) else []) else procs ns l.
Proof.
  unfold procs, set_procs. cbn. rewrite lookup_alter. case_decide as D; subst.
  - rewrite decide_True by done. by destruct (undo_lists ns !! l).
  - rewrite decide_False by congruence. done.
Qed.

(** Nobody sleeps on an undo structure of a list without users. *)
Lemma unused_list_no_sleeper ns ulp ul p a q sq u x :
  ns_wf ns -> undo_lists ns !! ulp = Some ul -> refcnt ul = 0 ->
  sem_sets ns !! p = Some a -> q ∈ sem_pending a -> sem_queues ns !! q = Some sq ->
  q_undo sq = Some u -> sem_undos ns !! u = Some x -> un_ulp x <> ulp.
Proof.
  intros W Hul Hr Ha Hq Hsq Hu Hx <-. pose proof (nw_sleeper _ W p a q sq u x Ha Hq Hsq Hu Hx) as Ht.
  rewrite (nw_ref _ W _ _ Hul) in Hr.
  assert (filter (fun tl : ptr * ptr => tl.2 = un_ulp x) (task_undo ns) = ∅) as He.
  { apply map_size_empty_inv. lia. }
  assert (filter (fun tl : ptr * ptr => tl.2 = un_ulp x) (task_undo ns) !! q_sleeper sq = Some (un_ulp x)) as Hf
    by (by apply map_lookup_filter_Some).
  by rewrite He, lookup_empty in Hf.
Qed.

(** The undo structures of one set and of one list change: what there is to show
    of them, the rest of the namespace stays as it is. *)
Section ChangeUndos.
Context (ns : sem_ns I) (p ulp : ptr) (a : sem_array) (ul : undo_list) (l' : list ptr) (us : gmap ptr sem_undo) (f : list ptr -> list ptr).
Let ns' : sem_ns I := set_heap (used_sems ns) (<[p := set_list_id l' a]> (sem_sets ns)) (sem_queues ns) us (set_procs ulp f ns).
Hypothesis (W : ns_wf ns) (Ha : sem_sets ns !! p = Some a) (Hul : undo_lists ns !! ulp = Some ul).

Lemma change_procs l : procs ns' l = if decide (l = ulp) then f (procs ns l) else procs ns l.
Proof.
  change (procs ns' l) with (procs (set_procs ulp f ns) l).
  rewrite procs_set_procs. case_decide; subst; [|done]. unfold procs. by rewrite Hul.
Qed.

Lemma change_set r b : sem_sets ns' !! r = Some b -> exists b0, sem_sets ns !! r = Some b0 /\ sem_pending b = sem_pending b0.
Proof. cbn. rewrite lookup_insert_Some. intros [[<- <-]|[_ ?]]; eauto. Qed.

Lemma change_set_of r b : sem_sets ns !! r = Some b -> exists b', sem_sets ns' !! r = Some b' /\ sem_pending b' = sem_pending b /\
  list_id b' = if decide (r = p) then l' else list_id b.
Proof.
  intros Hb. cbn. destruct (decide (r = p)) as [->|].
  - exists (set_list_id l' a). rewrite lookup_insert_eq. by simplify_eq.
  - exists b. by rewrite lookup_insert_ne.
Qed.

Lemma change_undos_ok :
  (forall r b, sem_sets ns' !! r = Some b -> set_ok ns' b) ->
  (forall u x, us !! u = Some x -> un_semid x <> -1 -> (exists r b, sem_sets ns' !! r = Some b /\ u ∈ list_id b) /\ u ∈ procs ns' (un_ulp x)) ->
  (forall l u, u ∈ procs ns' l -> exists x, us !! u = Some x /\ un_ulp x = l /\ un_semid x <> -1) ->
  NoDup (f (procs ns ulp)) ->
  (forall l u u' x x', u ∈ procs ns' l -> u' ∈ procs ns' l -> us !! u = Some x -> us !! u' = Some x' -> un_semid x = un_semid x' -> u = u') ->
  (forall r b q sq u x, sem_sets ns !! r = Some b -> q ∈ sem_pending b -> sem_queues ns !! q = Some sq -> q_undo sq = Some u ->
     us !! u = Some x -> sem_undos ns !! u = Some x) ->
  (forall u x, us !! u = Some x -> Forall is_short (semadj x)) -> ns_wf ns'.
Proof.
  intros Hok Hundo Hprocs Hnd Huniq Hsl Hshort. constructor; [|done| |done|done| |done| | | | |done|].
  - cbn. by apply (ids_wf_update _ _ _ a); [apply W|..].
  - intros r r' b b' q Hb Hb'. destruct (change_set r b Hb) as (b0 & Hb0 & ->).
    destruct (change_set r' b' Hb') as (b0' & Hb0' & ->). by apply (nw_disj _ W r r' b0 b0').
  - intros l. rewrite change_procs. case_decide as D; [by rewrite D|apply W].
  - intros t l Ht. cbn in *. apply lookup_alter_is_Some. by eapply W.
  - intros l ul'. cbn. rewrite lookup_alter. case_decide as D; [|apply W]. rewrite <- D, Hul. cbn.
    intros ?. simplify_eq/=. by apply W.
  - intros r b q sq u x Hb Hq Hsq Hu Hx. destruct (change_set r b Hb) as (b0 & Hb0 & E). rewrite E in Hq.
    apply (nw_sleeper _ W r b0 q sq u x); try done. by apply (Hsl r b0 q sq).
  - intros q sq Hsq Hst. destruct (nw_queue _ W q sq Hsq Hst) as (r & b & Hb & Hq).
    destruct (change_set_of r b Hb) as (b' & Hb' & E & _). exists r, b'. by rewrite E.
  - by apply (keys_unique_change _ p a); [apply W|..].
Qed.
End ChangeUndos.

(** Unlinking and freeing an undo structure of a list without users. *)
Section DropUndo.
Context (ns : sem_ns I) (ulp un p : ptr) (ul : undo_list) (x : sem_undo) (a : sem_array).
Let ns' : sem_ns I := set_heap (used_sems ns) (<[p := set_list_id (list_del un (list_id a)) a]> (sem_sets ns))
  (sem_queues ns) (delete un (sem_undos ns)) (set_procs ulp (list_del un) ns).
Hypothesis (W : ns_wf ns) (Hul : undo_lists ns !! ulp = Some ul) (Hr : refcnt ul = 0) (Hx : sem_undos ns !! un = Some x)
  (Hulp : un_ulp x = ulp) (Ha : sem_sets ns !! p = Some a) (Hin : un ∈ list_id a).

Lemma drop_set r b : sem_sets ns' !! r = Some b ->
  exists b0, sem_sets ns !! r = Some b0 /\ b = set_list_id (list_id b) b0 /\
    (forall u, u ∈ list_id b <-> u ∈ list_id b0 /\ u <> un) /\ NoDup (list_id b).
Proof.
  cbn. rewrite lookup_insert_Some. intros [[<- <-]|[Hne Hb]].
  - exists a. split; [done|]. split; [done|]. cbn. split; [intros; apply elem_of_list_del|].
    apply NoDup_filter, (so_nodup _ _ (nw_set _ W p a Ha)).
  - exists b. pose proof (so_nodup _ _ (nw_set _ W r b Hb)). split; [done|].
    split; [by destruct b|]. split; [|done]. intros u. split; [|tauto]. intros Hu. split; [done|].
    intros ->. by destruct (Hne (undo_owner ns p r a b un W Ha Hb Hin Hu)).
Qed.

Lemma drop_set_ok r b : sem_sets ns' !! r = Some b -> set_ok ns' b.
Proof.
  intros Hb. destruct (drop_set r b Hb) as (b0 & Hb0 & Eb & Hl & Hndl). pose proof (nw_set _ W r b0 Hb0) as O. rewrite Eb.
  assert (forall q sq, q ∈ sem_pending b0 -> sem_queues ns !! q = Some sq -> q_undo sq <> Some un) as Hno.
  { intros q sq Hq Hsq Hu. by destruct (unused_list_no_sleeper ns ulp ul r b0 q sq un x W Hul Hr Hb0 Hq Hsq Hu Hx). }
  constructor; cbn.
  - apply (set_wf_values (state_of ns b0)); [apply O|done|done|done|apply (so_wf _ _ O)|].
    intros u y. cbn. rewrite lookup_delete_Some. intros [_ Hy]. by apply (wf_undo _ (so_wf _ _ O) u).
  - pose proof (so_stable _ _ O) as S. unfold stable in *. cbn in *. rewrite Forall_forall in *.
    intros q Hq. apply (blocked_ext (state_of ns b0)); [done|done| |by apply S]. cbn.
    intros sq u Hsq Hu. rewrite lookup_delete_ne; [done|]. intros <-. by apply (Hno q sq).
  - apply O.
  - intros D. destruct (so_deleted _ _ O D) as [? E]. split; [done|].
    destruct (list_id b) as [|u l]; [done|]. destruct (proj1 (Hl u) ltac:(left)) as [Hu _].
    rewrite E in Hu. by apply not_elem_of_nil in Hu.
  - done.
  - intros u [Hu Hne]%Hl. rewrite lookup_delete_ne by done. by apply O.
  - intros q sq Hq Hsq. destruct (so_entry _ _ O q sq Hq Hsq) as [Hst Hun]. split; [done|].
    intros u Hu. apply Hl. split; [by apply Hun|]. intros ->. by apply (Hno q sq).
Qed.

Lemma drop_undo_ok : ns_wf ns'.
Proof.
  apply (change_undos_ok ns p ulp a ul); try done.
  - apply drop_set_ok.
  - intros u y. rewrite lookup_delete_Some. intros [Hne Hy] Hv.
    destruct (nw_undo _ W u y Hy Hv) as [(r & b & Hb & Hu) Hpr]. split.
    + destruct (change_set_of ns p ulp a (list_del un (list_id a)) (delete un (sem_undos ns)) (list_del un) Ha r b Hb) as (b' & Hb' & _ & E).
      exists r, b'. split; [done|]. rewrite E. case_decide; [subst r; simplify_eq; by apply elem_of_list_del|done].
    + rewrite (change_procs ns p ulp a ul) by done. case_decide; [|done]. by apply elem_of_list_del.
  - intros l u. rewrite (change_procs ns p ulp a ul) by done. intros Hu.
    assert (u ∈ procs ns l /\ u <> un) as [Hu' Hne].
    { case_decide as D; [by apply elem_of_list_del in Hu|]. split; [done|]. intros ->.
      destruct (nw_procs _ W l un Hu) as (y & ? & ? & _). by simplify_eq. }
    rewrite lookup_delete_ne by done. by apply W.
  - apply NoDup_filter, W.
  - intros l u u' y y' Hu Hu'. rewrite !lookup_delete_Some. intros [_ Hy] [_ Hy'].
    assert (forall v, v ∈ procs ns' l -> v ∈ procs ns l) as Hsub.
    { intros v. unfold ns'. rewrite (change_procs ns p ulp a ul) by done. case_decide; [|done]. by intros [? _]%elem_of_list_del. }
    by apply (nw_unique _ W l u u' y y'); [apply Hsub|apply Hsub|..].
  - intros r b q sq u y _ _ _ _. rewrite lookup_delete_Some. by intros [_ ?].
  - intros u y. rewrite lookup_delete_Some. intros [_ ?]. by apply (nw_short _ W u).
Qed.

Lemma drop_section k : section_ok k None (Some ulp) ns ns' [].
Proof.
  constructor; [apply drop_undo_ok|done| | | | | | |constructor|by intros q ?%not_elem_of_nil].
  - intros v y Hy Hd. cbn. rewrite lookup_delete_ne by (intros <-; simplify_eq). eauto.
  - intros r b Hb. cbn. destruct (decide (r = p)) as [->|Hne]; [|rewrite lookup_insert_ne by done; eauto].
    rewrite lookup_insert_eq. simplify_eq. eauto.
  - intros l ul' Hl Hz Hd. cbn. rewrite lookup_alter_ne by congruence. eauto.
  - intros q sq Hq _. eauto.
  - intros q sq Hq _. eauto.
  - intros r b q Hb Hq. right. destruct (drop_set r b Hb) as (b0 & Hb0 & E & _). exists b0. split; [done|]. by rewrite E in Hq.
Qed.
End DropUndo.

Lemma adjust_sems_wf pid nsems adj b :
  Forall (fun v => 0 <= v <= SEMVMX) (vals b) ->
  Forall (fun v => 0 <= v <= SEMVMX) (vals (adjust_sems pid nsems adj b)) /\
  sem_waiters <$> adjust_sems pid nsems adj b = sem_waiters <$> b.
Proof.
  intros Hv. unfold adjust_sems, vals in *. split.
  - apply Forall_lookup. intros i v. rewrite list_lookup_fmap, list_lookup_imap.
    rewrite Forall_lookup in Hv. specialize (Hv i). rewrite list_lookup_fmap in Hv.
    destruct (b !! i) as [s|]; [|done]. cbn in *. specialize (Hv _ eq_refl). intros ?. simplify_eq.
    case_if; cbn; [|done]. unfold cap_semval, SEMVMX. case_if; case_if; zbool; lia.
  - apply list_eq. intros i. rewrite !list_lookup_fmap, list_lookup_imap.
    destruct (b !! i) as [s|]; [|done]. cbn. by case_if.
Qed.

Lemma exit_undo_ok t p un ulp ul a x ns :
  ns_wf ns -> undo_lists ns !! ulp = Some ul -> refcnt ul = 0 -> sem_undos ns !! un = Some x ->
  un_ulp x = ulp -> sem_sets ns !! p = Some a -> deleted (sem_perm a) = false -> un ∈ list_id a ->
  exists ns' tasks, exit_undo t p un ulp a x ns = Some (ns', tasks) /\ (forall k, section_ok k None (Some ulp) ns ns' tasks) /\
    undo_lists ns' = undo_lists (set_procs ulp (list_del un) ns) /\ task_undo ns' = task_undo ns.
Proof.
  intros W Hul Hr Hx Hulp Ha Hd Hin. unfold exit_undo.
  pose proof (fun k => drop_section ns ulp un p ul x a W Hul Hr Hx Hulp Ha Hin k) as S1. revert S1.
  set (a1 := set_list_id _ a). set (ns1 := set_heap _ _ _ _ _). intros S1. pose proof (sc_wf _ _ _ _ _ _ (S1 p)) as W1.
  assert (sem_sets ns1 !! p = Some a1) as Ha1 by (cbn; by rewrite lookup_insert_eq).
  pose proof (nw_set _ W1 p a1 Ha1) as O.
  destruct (adjust_sems_wf (tgid t) (sem_nsems a1) (semadj x) (sem_base a1) (wf_vals _ (so_wf _ _ O)))
    as [Hv Hw].
  set (st1 := state_of ns1 _).
  assert (set_wf st1) as Wst.
  { apply (set_wf_values (state_of ns1 a1)); [apply O|done..|apply (so_wf _ _ O)]. }
  destruct (smart_full (now t) true st1 [] Wst) as (st' & woke & E & W' & S & Hwk & F).
  change (sem_nsems a) with (sem_nsems a1) in E |- *. change (sem_base a) with (sem_base a1) in E |- *.
  rewrite E. eexists _, _. split; [reflexivity|]. split; [|done]. intros k.
  apply (section_trans k (Some ulp) ns ns1); [apply S1|].
  apply (section_smart k (Some ulp) ns1 p a1 st1); try done; cbn.
  apply length_imap.
Qed.

(** Changing the lists of processes only. *)
Lemma ns_wf_lists ns uls tu :
  ns_wf ns ->
  (forall l u, u ∈ procs (set_lists uls tu ns) l <-> u ∈ procs ns l) ->
  (forall l, NoDup (procs (set_lists uls tu ns) l)) ->
  (forall t l, tu !! t = Some l -> is_Some (uls !! l)) ->
  (forall l ul, uls !! l = Some ul ->
     refcnt ul = Z.of_nat (size (filter (fun tl : ptr * ptr => tl.2 = l) tu))) ->
  (forall p a q sq l, sem_sets ns !! p = Some a -> q ∈ sem_pending a -> sem_queues ns !! q = Some sq ->
     task_undo ns !! q_sleeper sq = Some l -> tu !! q_sleeper sq = Some l) ->
  ns_wf (set_lists uls tu ns).
Proof.
  intros W Hp Hnd Ht Hr Hs. constructor; [apply W| |apply W| | |done| |done|done| |apply W..].
  - intros p a Ha. pose proof (nw_set _ W p a Ha) as O.
    by apply (set_ok_ext ns); [| | |apply (wf_undo _ (so_wf _ _ O))].
  - intros u x Hx Hv. rewrite Hp. by apply W.
  - intros l u. rewrite Hp. apply W.
  - intros l u u' x x'. rewrite !Hp. apply W.
  - intros p a q sq u x Ha Hq Hsq Hu Hx. cbn. apply (Hs p a q sq); try done. by apply (nw_sleeper _ W p a q sq u x).
Qed.

(** A list whose last user is gone and whose structures are all undone is freed. *)
Lemma exit_free_ok k ulp ul ns :
  ns_wf ns -> undo_lists ns !! ulp = Some ul -> refcnt ul = 0 -> list_proc ul = [] -> section_ok k None (Some ulp) ns (exit_free ulp ns) [].
Proof.
  intros W Hul Hr El. assert (procs ns ulp = []) as Hp by (unfold procs; by rewrite Hul).
  assert (forall l, procs (exit_free ulp ns) l = procs ns l) as Hps.
  { intros l. unfold procs at 1. cbn. rewrite lookup_delete. case_decide; subst; [by rewrite Hp|done]. }
  apply section_same; try done; [|intros; eauto..|].
  - apply ns_wf_lists; [done|..].
    + intros l u. by rewrite Hps.
    + intros l. rewrite Hps. apply W.
    + intros t' l Ht. rewrite lookup_delete_ne; [by eapply W|]. intros <-.
      rewrite (nw_ref _ W _ _ Hul) in Hr.
      assert (filter (fun tl : ptr * ptr => tl.2 = ulp) (task_undo ns) = ∅) as He
        by (apply map_size_empty_inv; lia).
      assert (filter (fun tl : ptr * ptr => tl.2 = ulp) (task_undo ns) !! t' = Some ulp) as Hfl
        by (by apply map_lookup_filter_Some). by rewrite He, lookup_empty in Hfl.
    + intros l ul'. rewrite lookup_delete_Some. intros [_ ?]. by apply W.
    + done.
  - intros l ul' Hl Hz Hd. cbn. rewrite lookup_delete_ne by congruence. eauto.
Qed.

(** What the loop has chosen: a structure of the list, its set, and no other
    structure of the list for that set; the set may have been removed since. *)
Record chosen (ulp un : ptr) (semid : Z) (ns : sem_ns I) : Prop := {
  ch_list : exists ul, undo_lists ns !! ulp = Some ul /\ refcnt ul = 0;
  ch_undo : exists x, sem_undos ns !! un = Some x /\ un_ulp x = ulp /\ (un_semid x = semid \/ un_semid x = -1);
  ch_valid : semid <> -1;
  ch_only u y : u ∈ procs ns ulp -> sem_undos ns !! u = Some y -> un_semid y = semid -> u = un
}.

Lemma exit_pick_ok ulp ul ns :
  ns_wf ns -> undo_lists ns !! ulp = Some ul -> refcnt ul = 0 ->
  match exit_pick ulp ns with
  | None => list_proc ul = []
  | Some (un, semid) => chosen ulp un semid ns /\ un ∈ list_proc ul
  end.
Proof.
  intros W Hul Hr. unfold exit_pick. assert (procs ns ulp = list_proc ul) as Hp by (unfold procs; by rewrite Hul). rewrite Hp.
  destruct (list_proc ul) as [|un l] eqn:El; [done|]. assert (un ∈ procs ns ulp) as Hin by (rewrite Hp; left).
  destruct (nw_procs _ W ulp un Hin) as (x & Hx & Hux & Hv). rewrite Hx. destruct (Z.eqb_spec (un_semid x) (-1)); [done|].
  split; [|left]. constructor; [eauto|eauto 10|done|]. intros u y Hu Hy E. by apply (nw_unique _ W ulp u un y x).
Qed.

Lemma lookup_raw_spec ns ulp semid :
  match lookup_undo_raw ns ulp semid with
  | Some u => u ∈ procs ns ulp /\ exists y, sem_undos ns !! u = Some y /\ un_semid y = semid
  | None => forall u y, u ∈ procs ns ulp -> sem_undos ns !! u = Some y -> un_semid y <> semid
  end.
Proof.
  unfold lookup_undo_raw. destruct (list_find _ _) as [[i u]|] eqn:E; cbn.
  - apply list_find_Some in E as (Hi & Hu & _). split; [by apply list_elem_of_lookup_2 in Hi|].
    destruct (sem_undos ns !! u) as [y|]; [|done]. exists y. split; [done|]. by apply Z.eqb_eq.
  - apply list_find_None in E. rewrite Forall_forall in E. intros u y Hu Hy Hs. apply (E u Hu). rewrite Hy. by apply Z.eqb_eq.
Qed.

Lemma exit_round_ok t ulp un semid stale ns ul :
  ns_wf ns -> chosen ulp un semid ns -> undo_lists ns !! ulp = Some ul ->
  exists ns' tasks, exit_round t ulp un semid stale ns = Some (ns', tasks) /\ (forall k, section_ok k None (Some ulp) ns ns' tasks) /\
    task_undo ns' = task_undo ns /\
    exists ul', undo_lists ns' !! ulp = Some ul' /\ refcnt ul' = 0 /\ forall u, u ∈ list_proc ul' -> u ∈ list_proc ul /\ u <> un.
Proof.
  intros W [(ul0 & Hul0 & Hr) (x & Hx & Hulp & Hs) Hv Honly] Hul. assert (ul0 = ul) as -> by congruence. clear Hul0.
  assert (procs ns ulp = list_proc ul) as Hp by (unfold procs; by rewrite Hul). unfold exit_round.
  destruct (decide (un_semid x = -1)) as [Hgone|Hvalid].
  - assert (un ∉ procs ns ulp) as Hnot by (intros Hin; destruct (nw_procs _ W ulp un Hin) as (? & ? & _ & ?); by simplify_eq).
    assert (lookup_undo_raw ns ulp semid = None) as ->.
    { pose proof (lookup_raw_spec ns ulp semid) as Hl. destruct (lookup_undo_raw ns ulp semid) as [u|]; [|done].
      destruct Hl as (Hin & y & Hy & Es). by rewrite (Honly u y Hin Hy Es) in Hin. }
    exists ns, []. split; [by destruct (sem_lock_check _ _)|]. split; [by intros; apply section_refl|]. split; [done|].
    exists ul. split; [done|]. split; [done|]. intros u Hu. split; [done|]. intros ->. by rewrite Hp in Hnot.
  - destruct Hs as [<-|]; [|done]. unfold exit_reread. rewrite Hx. rewrite (proj2 (Z.eqb_neq _ _)) by done.
    destruct (nw_undo _ W un x Hx Hvalid) as [(p & a & Ha & Hla) Hin]. rewrite Hulp in Hin.
    destruct (so_undo _ _ (nw_set _ W p a Ha) un Hla) as (x' & Hx' & Hid & _). assert (x' = x) as -> by congruence. clear Hx'.
    assert (deleted (sem_perm a) = false) as Hd.
    { apply not_true_iff_false. intros D. destruct (so_deleted _ _ (nw_set _ W p a Ha) D) as [_ E].
      rewrite E in Hla. by apply not_elem_of_nil in Hla. }
    pose proof (lock_check_live _ _ p a (nw_ids _ W) Ha Hd) as El. cbn in El. rewrite <- Hid in El. unfold sem_lock_check. rewrite El.
    assert (lookup_undo_raw ns ulp (un_semid x) = Some un) as ->.
    { pose proof (lookup_raw_spec ns ulp (un_semid x)) as Hl. destruct (lookup_undo_raw ns ulp (un_semid x)) as [u|]; [|by destruct (Hl un x Hin Hx)].
      destruct Hl as (Hu & y & Hy & Es). by rewrite (Honly u y Hu Hy Es). }
    rewrite Ha, Hx. destruct (exit_undo_ok t p un ulp ul a x ns W Hul Hr Hx Hulp Ha Hd Hla) as (ns' & tasks & E & S' & Eu & Et).
    exists ns', tasks. split; [done|]. split; [done|]. split; [done|]. rewrite Eu. cbn. rewrite lookup_alter_eq, Hul. cbn.
    eexists. split; [done|]. split; [done|]. cbn. intros u Hu. by apply elem_of_list_del in Hu.
Qed.

(** What the others may do to a list that is being undone: structures of removed
    sets leave it. *)
Record exit_interferes (ulp tsk : ptr) (ns ns' : sem_ns I) : Prop := {
  ei_wf : ns_wf ns';
  ei_task : task_undo ns !! tsk = None -> task_undo ns' !! tsk = None;
  ei_list ul : undo_lists ns !! ulp = Some ul -> refcnt ul = 0 ->
    exists ul', undo_lists ns' !! ulp = Some ul' /\ refcnt ul' = 0 /\ forall u, u ∈ list_proc ul' -> u ∈ list_proc ul;
  ei_undo u x : sem_undos ns !! u = Some x -> un_ulp x = ulp ->
    exists x', sem_undos ns' !! u = Some x' /\ un_ulp x' = un_ulp x /\ (un_semid x' = un_semid x \/ un_semid x' = -1)
}.

Lemma chosen_keeps ulp un semid ns ns' :
  ns_wf ns -> ns_wf ns' -> chosen ulp un semid ns ->
  (forall ul, undo_lists ns !! ulp = Some ul -> refcnt ul = 0 ->
    exists ul', undo_lists ns' !! ulp = Some ul' /\ refcnt ul' = 0 /\ forall u, u ∈ list_proc ul' -> u ∈ list_proc ul) ->
  (forall u x, sem_undos ns !! u = Some x -> un_ulp x = ulp ->
    exists x', sem_undos ns' !! u = Some x' /\ un_ulp x' = un_ulp x /\ (un_semid x' = un_semid x \/ un_semid x' = -1)) ->
  chosen ulp un semid ns'.
Proof.
  intros W W' [(ul & Hul & Hr) (x & Hx & Hulp & Hs) Hv Honly] Hl Hu. destruct (Hl ul Hul Hr) as (ul' & Hul' & Hr' & Hsub).
  destruct (Hu un x Hx Hulp) as (x' & Hx' & Hulp' & Hs'). constructor; [eauto| |done|].
  - exists x'. split; [done|]. split; [congruence|]. destruct Hs' as [->|]; tauto.
  - intros u y Hin Hy Es. assert (u ∈ procs ns ulp) as Hin0.
    { unfold procs in *. rewrite Hul' in Hin. rewrite Hul. by apply Hsub. }
    destruct (nw_procs _ W ulp u Hin0) as (y0 & Hy0 & Ey0 & Hv0). destruct (Hu u y0 Hy0 Ey0) as (y' & Hy' & _ & Sy). simplify_eq.
    apply (Honly u y0 Hin0 Hy0). destruct Sy as [<-|]; [done|]. lia.
Qed.

Lemma exit_loop_ok t yield stale ulp tsk fuel : forall ns ul,
  (forall ns0, ns_wf ns0 -> exit_interferes ulp tsk ns0 (yield ns0)) ->
  ns_wf ns -> undo_lists ns !! ulp = Some ul -> refcnt ul = 0 -> (length (list_proc ul) < fuel)%nat -> task_undo ns !! tsk = None ->
  exists ns', exit_sem_loop fuel t yield stale ulp ns = Some ns' /\ ns_wf ns' /\ undo_lists ns' !! ulp = None /\ task_undo ns' !! tsk = None.
Proof.
  induction fuel as [|fuel IH]; intros ns ul Hy W Hul Hr Hf Ht; [lia|]. cbn [exit_sem_loop].
  pose proof (exit_pick_ok ulp ul ns W Hul Hr) as Hpick. destruct (exit_pick ulp ns) as [[un semid]|].
  2:{ eexists. split; [reflexivity|]. split; [apply (sc_wf _ _ _ _ _ _ (exit_free_ok ulp ulp ul ns W Hul Hr Hpick))|].
      split; [apply lookup_delete_eq|done]. }
  destruct Hpick as [Hch Hun]. destruct (Hy ns W) as [W1 T1 L1 U1]. pose proof (chosen_keeps _ _ _ _ _ W W1 Hch L1 U1) as Hch1.
  destruct (L1 ul Hul Hr) as (ul1 & Hul1 & Hr1 & Hs1).
  destruct (exit_round_ok t ulp un semid (stale (yield ns)) (yield ns) ul1 W1 Hch1 Hul1) as (ns2 & tasks & E2 & S2 & T2 & ul2 & Hul2 & Hr2 & Hs2).
  rewrite E2. apply (IH _ ul2); try done; [by apply (section_wake ulp None (Some ulp) (yield ns))| |cbn; rewrite T2; auto].
  assert (NoDup (un :: list_proc ul2)) as Hnd.
  { pose proof (nw_procs_nodup _ (sc_wf _ _ _ _ _ _ (S2 ulp)) ulp) as Hnd. unfold procs in Hnd. rewrite Hul2 in Hnd.
    constructor; [|done]. intros Hin. by destruct (Hs2 un Hin). }
  assert (un :: list_proc ul2 ⊆ list_proc ul) as Hsub by (intros u [->|Hu]%elem_of_cons; [done|apply Hs1, Hs2, Hu]).
  pose proof (submseteq_length _ _ (NoDup_submseteq _ _ Hnd Hsub)). cbn in *. lia.
Qed.

Lemma filter_delete_size (tu : gmap ptr ptr) t l l0 :
  tu !! t = Some l0 ->
  Z.of_nat (size (filter (fun tl : ptr * ptr => tl.2 = l) (delete t tu))) =
  Z.of_nat (size (filter (fun tl : ptr * ptr => tl.2 = l) tu)) - (if decide (l = l0) then 1 else 0).
Proof.
  intros Ht. rewrite map_filter_delete.
  set (m := filter _ tu). assert (m !! t = if decide (l0 = l) then Some l0 else None) as Hm.
  { unfold m. case_decide.
    - by apply map_lookup_filter_Some.
    - apply map_lookup_filter_None. right. intros ? ?. by simplify_eq. }
  case_decide as D; case_decide as D'; try congruence.
  - rewrite (map_size_delete_Some t m) by (rewrite Hm; by eexists).
    assert (size m <> 0)%nat; [|lia]. intros E%map_size_empty_inv. rewrite E, lookup_empty in Hm. done.
  - rewrite map_size_delete_None by done. lia.
Qed.

(** A list that a task uses has a positive count. *)
Lemma used_list ns t l ul : ns_wf ns -> task_undo ns !! t = Some l -> undo_lists ns !! l = Some ul -> 0 < refcnt ul.
Proof.
  intros W Ht Hl. rewrite (nw_ref _ W l ul Hl).
  assert (size (filter (fun tl : ptr * ptr => tl.2 = l) (task_undo ns)) <> 0)%nat; [|lia].
  intros E%map_size_empty_inv.
  assert (filter (fun tl : ptr * ptr => tl.2 = l) (task_undo ns) !! t = Some l) as Hf by (by apply map_lookup_filter_Some).
  by rewrite E, lookup_empty in Hf.
Qed.

(** A task that does not sleep gives up its list. *)
Lemma exit_start_ok tsk ns :
  ns_wf ns ->
  (forall p a q sq, sem_sets ns !! p = Some a -> q ∈ sem_pending a -> sem_queues ns !! q = Some sq -> q_sleeper sq <> tsk) ->
  let '(r, ns') := exit_start tsk ns in
  section_ok tsk None None ns ns' [] /\ task_undo ns' !! tsk = None /\
  (forall ulp, r = Some ulp -> exists ul, undo_lists ns' !! ulp = Some ul /\ refcnt ul = 0) /\
  (forall ulp ul, task_undo ns !! tsk = Some ulp -> undo_lists ns !! ulp = Some ul -> refcnt ul = 1 -> r = Some ulp).
Proof.
  intros W Hs. unfold exit_start. destruct (task_undo ns !! tsk) as [ulp|] eqn:Et.
  2:{ split; [by apply section_refl|]. split; [done|]. split; [done|]. intros. congruence. }
  destruct (nw_task _ W tsk ulp Et) as [ul Hul]. set (ns1 := set_lists _ _ ns).
  assert (undo_lists ns1 !! ulp = Some {| refcnt := refcnt ul - 1; list_proc := list_proc ul |}) as Hul1.
  { cbn. by rewrite lookup_alter_eq, Hul. }
  rewrite Hul1. cbn [refcnt]. split; [|split; [apply lookup_delete_eq|split]].
  - apply section_same; try done; [| |intros; eauto..|].
    + apply ns_wf_lists; [done|..].
      * intros l u. unfold procs. cbn. rewrite lookup_alter. case_decide; subst; [|done]. by destruct (undo_lists ns !! l).
      * intros l. pose proof (nw_procs_nodup _ W l) as Hnd. unfold procs in *. cbn. rewrite lookup_alter.
        case_decide; subst; [|done]. by destruct (undo_lists ns !! l).
      * intros t' l. rewrite lookup_delete_Some. intros [_ Ht]. apply lookup_alter_is_Some. by eapply W.
      * intros l ul'. rewrite (filter_delete_size _ _ _ ulp) by done. rewrite lookup_alter. case_decide as D.
        -- subst. rewrite Hul, decide_True by done. cbn. intros ?. simplify_eq/=. rewrite (nw_ref _ W _ _ Hul). lia.
        -- rewrite decide_False by congruence. intros Hl. rewrite (nw_ref _ W _ _ Hl). lia.
      * intros p a q sq l Ha Hq Hsq. rewrite lookup_delete_ne; [done|]. apply not_eq_sym. by apply (Hs p a q).
    + intros u l Hne Hl. cbn. by rewrite lookup_delete_ne.
    + intros l ul' Hl Hz _. cbn. rewrite lookup_alter_ne; [eauto|]. intros <-. pose proof (used_list ns tsk ulp ul' W Et Hl). lia.
  - intros l. case_if; [done|]. zbool. intros [= <-]. eauto.
  - intros ulp' ul' [= <-] Hul' Hr. simplify_eq. case_if; [zbool; lia|done].
Qed.

(** The exit of a task that does not sleep terminates, and afterwards it has no
    undo list. *)
Lemma exit_sem_ok t yield stale tsk ns :
  ns_wf ns ->
  (forall p a q sq, sem_sets ns !! p = Some a -> q ∈ sem_pending a -> sem_queues ns !! q = Some sq ->
     q_sleeper sq <> tsk) ->
  (forall ulp ns0, ns_wf ns0 -> exit_interferes ulp tsk ns0 (yield ns0)) ->
  exists ns', exit_sem t yield stale tsk ns = Some ns' /\ ns_wf ns' /\ task_undo ns' !! tsk = None /\
    (forall ulp ul, task_undo ns !! tsk = Some ulp -> undo_lists ns !! ulp = Some ul -> refcnt ul = 1 ->
       undo_lists ns' !! ulp = None).
Proof.
  intros W Hs Hy. unfold exit_sem. pose proof (exit_start_ok tsk ns W Hs) as Hst. destruct (exit_start tsk ns) as [[ulp|] ns1];
    destruct Hst as (S1 & T1 & Hr & Hlast); pose proof (sc_wf _ _ _ _ _ _ S1) as W1.
  - destruct (Hr ulp eq_refl) as (ul & Hul & Hz).
    destruct (exit_loop_ok t yield stale ulp tsk (S (length (procs ns1 ulp))) ns1 ul (Hy ulp) W1 Hul Hz) as (ns' & E & W' & Hn & T');
      [unfold procs; rewrite Hul; lia|done|]. exists ns'. split; [done|]. split; [done|]. split; [done|].
    intros ulp' ul' Ht Hl Hone. by injection (Hlast ulp' ul' Ht Hl Hone) as ->.
  - exists ns1. split; [done|]. split; [done|]. split; [done|]. intros ulp ul Ht Hl Hone. by specialize (Hlast ulp ul Ht Hl Hone).
Qed.

(** ** Going to sleep *)

Definition add_entry (alter : bool) (q : ptr) (l : list ptr) : list ptr :=
  if alter then l ++ [q] else q :: l.

Lemma elem_of_add_entry b q l x : x ∈ add_entry b q l <-> x ∈ l \/ x = q.
Proof. destruct b; cbn; rewrite ?elem_of_app, ?elem_of_cons, ?elem_of_nil; tauto. Qed.

Lemma add_entry_nodup b q l : NoDup l -> q ∉ l -> NoDup (add_entry b q l).
Proof.
  intros Hl Hq. destruct b; cbn; [|by constructor].
  apply NoDup_app. split; [done|]. split; [|apply NoDup_singleton].
  intros x Hx ->%list_elem_of_singleton. done.
Qed.

Lemma add_entry_filter (P P' : ptr -> Prop) `{forall x, Decision (P x)} `{forall x, Decision (P' x)} b q l :
  q ∉ l -> (forall x, x <> q -> P' x <-> P x) ->
  filter P' (add_entry b q l) =
  if decide (P' q) then add_entry b q (filter P l) else filter P l.
Proof.
  intros Hq HP. assert (filter P' l = filter P l) as E.
  { apply filter_ext_elem. intros x Hx. apply HP. by intros ->. }
  destruct b; unfold add_entry.
  - rewrite filter_app, E. case_decide.
    + by rewrite filter_cons_True, filter_nil.
    + by rewrite filter_cons_False, filter_nil, app_nil_r.
  - rewrite filter_cons, E. by case_decide.
Qed.

Lemma length_add_entry b q l : length (add_entry b q l) = S (length l).
Proof. destruct b; cbn; [rewrite length_app; cbn; lia|done]. Qed.

Lemma enqueue_sma q sq st :
  sem_pending (sma (enqueue q sq st)) = add_entry (q_alter sq) q (sem_pending (sma st)) /\
  vals (sem_base (sma (enqueue q sq st))) = vals (sem_base (sma st)) /\
  length (sem_base (sma (enqueue q sq st))) = length (sem_base (sma st)).
Proof.
  cbn. split; [by destruct (q_alter sq)|]. destruct (q_sops sq) as [|sop [|]]; [done| |done].
  unfold vals. rewrite length_alter. split; [|done].
  rewrite (list_fmap_alter _ _ id) by (by apply Forall_true). by apply list_alter_id.
Qed.

Lemma enqueue_waiters q sq st n s :
  set_wf st -> q ∉ sem_pending (sma st) -> sem_base (sma (enqueue q sq st)) !! n = Some s ->
  sem_waiters s =
  filter (fun x => simple_on (<[q := sq]> (queues st)) n x = true) (add_entry (q_alter sq) q (sem_pending (sma st))).
Proof.
  intros W Hq Hs.
  rewrite (add_entry_filter (fun x => simple_on (queues st) n x = true)
             (fun x => simple_on (<[q := sq]> (queues st)) n x = true)); [|done|].
  2:{ intros x Hx. unfold simple_on. by rewrite lookup_insert_ne by done. }
  assert (simple_on (<[q := sq]> (queues st)) n q =
    match q_sops sq with [sop] => (sem_num sop =? n)%nat | _ => false end) as Hon
    by (unfold simple_on; by rewrite lookup_insert_eq).
  cbn in Hs. destruct (q_sops sq) as [|sop [|]].
  - rewrite decide_False by congruence. by apply W.
  - rewrite list_lookup_alter in Hs.
    case_decide as D; [subst n; destruct (sem_base (sma st) !! sem_num sop) as [s0|] eqn:E|];
      cbn in Hs; simplify_eq.
    + rewrite decide_True by (rewrite Hon; apply Nat.eqb_refl). cbn.
      rewrite (wf_waiters st W _ _ E). by destruct (q_alter sq).
    + rewrite decide_False by (rewrite Hon, Nat.eqb_eq; done). by apply W.
  - rewrite decide_False by congruence. by apply W.
Qed.

Lemma wf_enqueue q sq st :
  set_wf st -> q ∉ sem_pending (sma st) -> entry_ok (length (sem_base (sma st))) sq ->
  set_wf (enqueue q sq st).
Proof.
  intros W Hq Hok. destruct (enqueue_sma q sq st) as (Ep & Ev & El).
  assert (forall x, x <> q -> queues (enqueue q sq st) !! x = queues st !! x) as Hqs.
  { intros x Hx. cbn. by rewrite lookup_insert_ne by done. }
  constructor.
  - rewrite Ep. apply add_entry_nodup; [apply W|done].
  - intros x. rewrite Ep, elem_of_add_entry, El. destruct (decide (x = q)) as [->|Hne].
    + intros _. exists sq. cbn. by rewrite lookup_insert_eq.
    + intros [Hx|]; [|done]. rewrite Hqs by done. by apply W.
  - intros n s Hs. rewrite Ep. by apply enqueue_waiters.
  - rewrite Ep. rewrite (add_entry_filter (fun x => is_simple (queues st) x = false)
             (fun x => is_simple (queues (enqueue q sq st)) x = false)); [|done|].
    2:{ intros x Hx. unfold is_simple. by rewrite Hqs. }
    pose proof (wf_complex st W) as Hc.
    assert (is_simple (queues (enqueue q sq st)) q = (length (q_sops sq) =? 1)%nat) as Hsim
      by (unfold is_simple; cbn; by rewrite lookup_insert_eq).
    cbn [enqueue sma complex_count]. destruct (length (q_sops sq) =? 1)%nat.
    + rewrite decide_False by congruence. done.
    + rewrite decide_True, length_add_entry by done. lia.
  - rewrite Ep. destruct (wf_order st W) as (l1 & l2 & E & H1 & H2). rewrite E in *.
    assert (forall b l, q ∉ l -> Forall (fun x => alters (queues st) x = b) l ->
      Forall (fun x => alters (<[q := sq]> (queues st)) x = b) l) as Hext.
    { intros b l Hl Hf. rewrite Forall_forall in *. intros x Hx. unfold alters.
      rewrite lookup_insert_ne by (by intros ->). by apply Hf. }
    rewrite elem_of_app in Hq.
    assert (alters (<[q := sq]> (queues st)) q = q_alter sq) as Ha by (unfold alters; by rewrite lookup_insert_eq).
    destruct (q_alter sq) eqn:Eal; cbn.
    + exists l1, (l2 ++ [q]). rewrite app_assoc. split; [done|]. split; [apply Hext; tauto|].
      apply Forall_app. split; [apply Hext; tauto|]. by constructor.
    + exists (q :: l1), l2. split; [done|]. split; [|apply Hext; tauto]. constructor; [done|]. apply Hext; tauto.
  - rewrite Ev. apply W.
  - apply W.
Qed.

(** ** The operations of one call *)

Lemma scan_sops_spec sops :
  let '(max, undos, alter) := scan_sops sops in
  Forall (fun sop => (sem_num sop <= max)%nat) sops /\
  undos = existsb (fun sop => has (sem_flg sop) SEM_UNDO) sops /\
  alter = existsb (fun sop => negb (sem_op sop =? 0)) sops.
Proof.
  unfold scan_sops.
  match goal with |- context [foldl ?g _ _] => set (f := g) end.
  assert (forall sops m u al, let '(m', u', al') := foldl f (m, u, al) sops in
    (m <= m')%nat /\ Forall (fun sop => (sem_num sop <= m')%nat) sops /\
    u' = u || existsb (fun sop => has (sem_flg sop) SEM_UNDO) sops /\
    al' = al || existsb (fun sop => negb (sem_op sop =? 0)) sops) as Hgen.
  { induction sops0 as [|sop rest IH]; intros m u al; cbn [foldl existsb].
    { by rewrite !orb_false_r. }
    set (m1 := if (m <=? sem_num sop)%nat then sem_num sop else m).
    assert (m <= m1 /\ sem_num sop <= m1)%nat as [Hm1 Hm2].
    { unfold m1. destruct (Nat.leb_spec m (sem_num sop)); lia. }
    specialize (IH m1 (if has (sem_flg sop) SEM_UNDO then true else u)
                      (if negb (sem_op sop =? 0) then true else al)).
    change (f (m, u, al) sop) with (m1, if has (sem_flg sop) SEM_UNDO then true else u,
      if negb (sem_op sop =? 0) then true else al).
    destruct (foldl f _ rest) as [[m' u'] al']. destruct IH as (H1 & H2 & -> & ->).
    split; [lia|]. split; [constructor; [lia|done]|].
    destruct (has (sem_flg sop) SEM_UNDO), u, (negb (sem_op sop =? 0)), al; done. }
  specialize (Hgen sops 0%nat false false). destruct (foldl f _ sops) as [[m' u'] al'].
  destruct Hgen as (_ & ? & ? & ?). done.
Qed.

Definition semop_post (r : semop_result) : Prop :=
  match r with
  | SemopDone _ ns | SemopSleep ns => ns_wf ns
  | SemopBug => False
  end.

(** The entry [q] of task [k] waits on the set [semid] at [p]. *)
Definition waits (k q p : ptr) (semid : Z) (ns : sem_ns I) : Prop :=
  exists a sq, sem_sets ns !! p = Some a /\ perm_id (sem_perm a) = semid /\ q ∈ sem_pending a /\
    sem_queues ns !! q = Some sq /\ q_sleeper sq = k /\ q_status sq = - EINTR.

(** The section under the lock of the set. *)
Definition semop_section (k q : ptr) (semid : Z) (ns : sem_ns I) (r : semop_result * list ptr) : Prop :=
  match r with
  | (SemopDone _ ns', tasks) => section_ok k None None ns ns' tasks
  | (SemopSleep ns', _) => section_ok k (Some q) None ns ns' [] /\ exists p, waits k q p semid ns'
  | (SemopBug, _) => False
  end.

(** The caller's undo structure, if still valid, belongs to the locked set. *)
Definition own_undo (k : ptr) (id : Z) (ns : sem_ns I) (un : option ptr) : Prop :=
  forall u, un = Some u -> exists x, sem_undos ns !! u = Some x /\
    (un_semid x = -1 \/ un_semid x = id) /\ task_undo ns !! k = Some (un_ulp x).

Lemma own_undo_in t p a ns u x :
  ns_wf ns -> sem_sets ns !! p = Some a -> deleted (sem_perm a) = false ->
  own_undo (cur t) (perm_id (sem_perm a)) ns (Some u) -> sem_undos ns !! u = Some x -> un_semid x <> -1 ->
  u ∈ list_id a.
Proof.
  intros W Ha Hd Hown Hx Hv. destruct (Hown u eq_refl) as (x' & Hx' & [|Hid] & _); simplify_eq.
  destruct (nw_undo _ W u x Hx Hv) as [(p' & a' & Ha' & Hin) _].
  destruct (so_undo _ _ (nw_set _ W p' a' Ha') u Hin) as (y & ? & Hy & _). simplify_eq.
  assert (deleted (sem_perm a') = false) as Hd'.
  { apply not_true_iff_false. intros D. destruct (so_deleted _ _ (nw_set _ W p' a' Ha') D) as [_ E].
    rewrite E in Hin. by apply not_elem_of_nil in Hin. }
  destruct (ids_live _ _ (nw_ids _ W) p a Ha Hd) as [_ F].
  destruct (ids_live _ _ (nw_ids _ W) p' a' Ha' Hd') as [_ F']. cbn in F, F'.
  rewrite <- Hid, Hy, F' in F. by simplify_eq.
Qed.

(** A call that succeeds, or fails at once. *)
Lemma semop_done_ok t p q semid a sops un max alter ns err st :
  ns_wf ns -> sem_sets ns !! p = Some a -> deleted (sem_perm a) = false ->
  Forall (fun sop => (sem_num sop <= max)%nat) sops -> Z.of_nat max < sem_nsems a ->
  alter = existsb (fun sop => negb (sem_op sop =? 0)) sops ->
  (forall u, un = Some u -> u ∈ list_id a) ->
  try_semop_on (state_of ns a) sops un (tgid t) = (err, st) -> err <= 0 ->
  semop_section (cur t) q semid ns
    (if alter && (err =? 0) then
       match do_smart_update (now t) (Some sops) true st [] with
       | None => (SemopBug, [])
       | Some (st, tasks) => (SemopDone err (put_state p st ns), tasks)
       end
     else (SemopDone err (put_state p st ns), [])).
Proof.
  intros W Ha Hd Hmax Hlt Hal Hun Ht Hle. pose proof (nw_set _ W p a Ha) as O.
  destruct (try_semop_on_spec _ _ _ _ _ _ Ht) as (_ & Hv & Hf & Hqs & Hs & Hw). cbn in Hqs, Hs, Hw.
  assert (forall u, u ∉ list_id a -> undos st !! u = sem_undos ns !! u) as Hu1.
  { intros u Hu. apply (try_undos _ _ _ _ _ _ u Ht). intros ->. by apply Hu, Hun. }
  assert (forall u, undo_shape <$> undos st !! u = undo_shape <$> sem_undos ns !! u) as Hu2
    by (intros u; apply (try_undos _ _ _ _ _ _ u Ht)).
  pose proof (wf_try _ _ _ _ _ _ (so_wf _ _ O) Ht) as W1.
  assert (forall st' woke, set_wf st' -> stable st' -> woken st [] st' woke -> frame st st' ->
    section_ok (cur t) None None ns (put_state p st' ns) woke) as Hend.
  { intros st' woke W' S' Hwk F. apply (section_smart (cur t) None ns p a st); try done; rewrite Hs; try done. cbn.
    by rewrite <- (length_fmap sem_waiters), Hw, length_fmap. }
  assert (Forall (fun sop => (sem_num sop < length (sem_base a))%nat) sops) as Hr.
  { eapply Forall_impl; [exact Hmax|]. cbn. intros sop Hsop. rewrite (so_nsems _ _ O) in Hlt. lia. }
  destruct (alter && (err =? 0)) eqn:Eb.
  - zbool. subst err.
    destruct (smart_sops (now t) true _ sops un (tgid t) st [] (so_wf _ _ O) (so_stable _ _ O) Hr Ht)
      as (st' & woke & -> & W' & S' & Hwk & F). by apply Hend.
  - apply Hend; [done| |apply woken_refl|done].
    destruct (decide (err = 0)) as [->|Hne]; [|rewrite (Hf Hne); apply O].
    rewrite andb_true_r in Eb. rewrite Eb in Hal.
    assert (Forall (fun sop => sem_op sop = 0) sops) as Hz.
    { clear - Hal. induction sops as [|s l IH]; [done|]. cbn in Hal. symmetry in Hal. zbool.
      constructor; [done|]. apply IH. done. }
    pose proof (so_stable _ _ O) as S. unfold stable in *. rewrite Hs. cbn in *. rewrite Forall_forall in *.
    intros x Hx. apply (blocked_ext (state_of ns a)); [|by rewrite Hqs| |by apply S]; cbn.
    + rewrite Hv. by apply run_zero.
    + intros sq u _ _. by rewrite (try_zero_undos _ _ _ _ _ _ (so_wf _ _ O) Hz Ht).
Qed.

(** A call that has to sleep. *)
Lemma semop_sleep_ok t p q a sops un max alter ns err st sq :
  ns_wf ns -> sem_sets ns !! p = Some a -> deleted (sem_perm a) = false -> sops <> [] ->
  Forall (fun sop => is_short (sem_op sop)) sops ->
  Forall (fun sop => (sem_num sop <= max)%nat) sops -> Z.of_nat max < sem_nsems a ->
  alter = existsb (fun sop => negb (sem_op sop =? 0)) sops ->
  own_undo (cur t) (perm_id (sem_perm a)) ns un -> (forall u, un = Some u -> u ∈ list_id a) ->
  (forall p2 a2, sem_sets ns !! p2 = Some a2 -> q ∉ sem_pending a2) ->
  try_semop_on (state_of ns a) sops un (tgid t) = (err, st) -> 0 < err ->
  sq = {| q_sleeper := cur t; q_undo := un; q_pid := tgid t; q_status := - EINTR;
          q_sops := sops; q_alter := alter |} ->
  ns_wf (put_state p (enqueue q sq st) ns).
Proof.
  intros W Ha Hd Hne Hsh Hmax Hlt Hal Hown Hun Hq Ht Hpos Hsq. pose proof (nw_set _ W p a Ha) as O.
  destruct (try_semop_on_spec _ _ _ _ _ _ Ht) as (He & _ & Hf & _). rewrite (Hf ltac:(lia)). clear Hf st Ht.
  cbn in He. pose proof (Hq p a Ha) as Hqa.
  destruct (enqueue_sma q sq (state_of ns a)) as (Ep & Ev & El).
  change (sma (state_of ns a)) with a in Ep, Ev, El.
  assert (entry_ok (length (sem_base a)) sq) as Hok.
  { subst sq. constructor; cbn; [done| |done|].
    - rewrite Forall_forall in *. intros sop Hin. split; [|by apply Hsh].
      specialize (Hmax sop Hin). cbn in Hmax. rewrite (so_nsems _ _ O) in Hlt. lia.
    - intros sop ->. rewrite He in Hpos. apply run_simple in Hpos as [Hb ?]. split; [|done].
      pose proof (wf_vals _ (so_wf _ _ O)) as Hr. cbn in Hr. rewrite Forall_lookup in Hr.
      unfold val_at in Hb. destruct (vals (sem_base a) !! sem_num sop) as [v|] eqn:E; cbn in Hb; [|lia].
      specialize (Hr _ _ E). lia. }
  pose proof (wf_enqueue q sq (state_of ns a) (so_wf _ _ O) Hqa Hok) as Wq.
  assert (forall x, x <> q -> sem_queues (put_state p (enqueue q sq (state_of ns a)) ns) !! x = sem_queues ns !! x) as Hother.
  { intros x Hx. cbn. by rewrite lookup_insert_ne by done. }
  apply (ns_wf_local ns _ p a (sma (enqueue q sq (state_of ns a)))); try done.
  - intros p2 a2 x Hne2 Ha2 Hx. rewrite Ep, elem_of_add_entry. split; [|apply Hother].
    + intros [Hxa| ->]; [|by apply (Hq p2 a2)]. by apply Hne2, (nw_disj _ W p2 p a2 a x).
    + intros ->. by apply (Hq p2 a2).
  - constructor.
    + by apply (set_wf_ext (enqueue q sq (state_of ns a))); [..|apply (so_wf _ _ O)].
    + pose proof (so_stable _ _ O) as S. unfold stable in *. cbn [sma state_of]. rewrite Ep.
      rewrite Forall_forall in *. intros x [Hx| ->]%elem_of_add_entry.
      * apply (blocked_ext (state_of ns a)); [done| |done|by apply S]. apply Hother. by intros ->.
      * exists sq. split; [cbn; by rewrite lookup_insert_eq|]. unfold q_blocked.
        cbn [state_of sma]. rewrite Ev. subst sq. cbn. lia.
    + rewrite El. apply O.
    + cbn. congruence.
    + apply O.
    + intros u Hu. rewrite El. by apply (so_undo _ _ O).
    + intros x xq. rewrite Ep, elem_of_add_entry. destruct (decide (x = q)) as [->|Hx].
      * intros _. cbn. rewrite lookup_insert_eq. intros ?. simplify_eq. done.
      * intros [Hin|]; [|done]. rewrite Hother by done. by apply (so_entry _ _ O).
  - intros x xq u y. rewrite Ep, elem_of_add_entry. destruct (decide (x = q)) as [->|Hx].
    + intros _. cbn. rewrite lookup_insert_eq. intros ? Hu Hy. simplify_eq. cbn in *.
      destruct (Hown u Hu) as (y' & Hy' & _ & Htu). by simplify_eq.
    + intros [Hin|]; [|done]. rewrite Hother by done. intros Hxq Hu Hy.
      by apply (nw_sleeper _ W p a x xq u y).
  - intros x xq Hxq Hst. rewrite Ep, elem_of_add_entry. intros Hnin.
    rewrite Hother in Hxq by tauto. tauto.
Qed.

Lemma sleep_section t p q a sops un max alter ns err st sq :
  ns_wf ns -> sem_sets ns !! p = Some a -> deleted (sem_perm a) = false -> sops <> [] ->
  Forall (fun sop => is_short (sem_op sop)) sops ->
  Forall (fun sop => (sem_num sop <= max)%nat) sops -> Z.of_nat max < sem_nsems a ->
  alter = existsb (fun sop => negb (sem_op sop =? 0)) sops ->
  own_undo (cur t) (perm_id (sem_perm a)) ns un -> (forall u, un = Some u -> u ∈ list_id a) ->
  (forall p2 a2, sem_sets ns !! p2 = Some a2 -> q ∉ sem_pending a2) ->
  try_semop_on (state_of ns a) sops un (tgid t) = (err, st) -> 0 < err ->
  sq = {| q_sleeper := cur t; q_undo := un; q_pid := tgid t; q_status := - EINTR;
          q_sops := sops; q_alter := alter |} ->
  semop_section (cur t) q (perm_id (sem_perm a)) ns (SemopSleep (put_state p (enqueue q sq st) ns), []).
Proof.
  intros W Ha Hd Hne Hsh Hmax Hlt Hal Hown Hun Hq Ht Hpos Hsq.
  pose proof (semop_sleep_ok t p q a sops un max alter ns err st sq W Ha Hd Hne Hsh Hmax Hlt Hal Hown Hun Hq Ht Hpos Hsq) as W'.
  destruct (try_semop_on_spec _ _ _ _ _ _ Ht) as (_ & _ & Hf & _). rewrite (Hf ltac:(lia)) in *. clear Hf Ht st.
  destruct (enqueue_sma q sq (state_of ns a)) as (Ep & _ & _). change (sma (state_of ns a)) with a in Ep. split.
  - constructor; [done|done|intros; eauto| |intros; eauto| | | |constructor|by intros x ?%not_elem_of_nil].
    + intros r b Hb. cbn -[enqueue]. destruct (decide (r = p)) as [->|Hrp]; [|rewrite lookup_insert_ne by done; eauto].
      rewrite lookup_insert_eq. simplify_eq. eauto.
    + intros x xq Hx Hxq. cbn. rewrite lookup_insert_ne by congruence. eauto.
    + intros x xq Hx Hxq. cbn in Hx. rewrite lookup_insert_ne in Hx by congruence. eauto.
    + intros r b x. cbn -[enqueue]. rewrite lookup_insert_Some. intros [[<- <-]|[_ Hb]] Hx; [|eauto].
      rewrite Ep, elem_of_add_entry in Hx. destruct Hx as [Hx| ->]; eauto.
  - exists p, (sma (enqueue q sq (state_of ns a))), sq. cbn -[enqueue]. rewrite lookup_insert_eq. split; [done|]. split; [done|].
    split; [rewrite Ep, elem_of_add_entry; by right|]. cbn. rewrite lookup_insert_eq. subst sq. done.
Qed.

Lemma semop_locked_ok t p q sops un max alter ns a :
  ns_wf ns -> sem_sets ns !! p = Some a -> deleted (sem_perm a) = false -> sops <> [] ->
  Forall (fun sop => is_short (sem_op sop)) sops ->
  Forall (fun sop => (sem_num sop <= max)%nat) sops ->
  alter = existsb (fun sop => negb (sem_op sop =? 0)) sops ->
  own_undo (cur t) (perm_id (sem_perm a)) ns un ->
  (forall p2 a2, sem_sets ns !! p2 = Some a2 -> q ∉ sem_pending a2) ->
  semop_section (cur t) q (perm_id (sem_perm a)) ns (semop_locked lsm t p q sops un max alter ns).
Proof.
  intros W Ha Hd Hne Hsh Hmax Hal Hown Hq. unfold semop_locked. rewrite Ha.
  assert (forall e, semop_section (cur t) q (perm_id (sem_perm a)) ns (SemopDone e ns, [])) as Herr by (intros e; by apply section_refl).
  case_if; [done|].
  assert (forall u, un = Some u -> u ∈ list_id a) as Hun.
  { intros u ->. destruct (Hown u eq_refl) as (x & Hx & _). rewrite Hx in E. zbool.
    by eapply own_undo_in. }
  destruct (Z.of_nat max >=? sem_nsems a) eqn:Em; [done|]. destruct (negb (ipcperms _ _ _ _ =? 0)); [done|].
  destruct (negb (_ =? 0)); [done|]. zbool.
  destruct (try_semop_on (state_of ns a) sops un (tgid t)) as [err st] eqn:Ht. case_if; zbool.
  - by eapply semop_done_ok.
  - by eapply sleep_section.
Qed.

(** What the arguments of a call have to be. *)
Record call_ok (c : semop_call) : Prop := {
  co_id : 0 <= c_semid c;
  co_sops : c_sops c <> [];
  co_short : Forall (fun sop => is_short (sem_op sop)) (c_sops c);
  co_max : Forall (fun sop => (sem_num sop <= c_max c)%nat) (c_sops c);
  co_alter : c_alter c = existsb (fun sop => negb (sem_op sop =? 0)) (c_sops c)
}.

Lemma semop_args_ok mem_ok ns semid tsops nsops timeout c undos :
  (forall mem i, tsops = Some mem -> is_short (sem_op (mem i))) ->
  semop_args mem_ok ns semid tsops nsops timeout = inr (c, undos) -> call_ok c /\ c_semid c = semid.
Proof.
  intros Hmem. unfold semop_args. destruct ((nsops <? 1) || (semid <? 0)) eqn:E1; [done|]. zbool.
  destruct (nsops >? sc_semopm ns); [done|]. destruct (_ && negb mem_ok); [done|].
  destruct tsops as [mem|]; [|done]. specialize (fun i => Hmem mem i eq_refl) as Hm.
  set (sops := mem <$> seq 0 (Z.to_nat nsops)). destruct (negb (_ =? 0)); [done|].
  pose proof (scan_sops_spec sops) as Hscan. destruct (scan_sops sops) as [[max u] al].
  destruct Hscan as (Hmax & _ & Hal). intros [= <- _]. split; [|done]. constructor; cbn; [lia| |by apply Forall_fmap, Forall_true|done|done].
  intros E. assert (length sops = 0%nat) as El by (by rewrite E). unfold sops in El. rewrite length_fmap, length_seq in El. lia.
Qed.

(** ** Undo lists of processes *)

Lemma filter_insert_size (tu : gmap ptr ptr) t l l0 :
  tu !! t = None ->
  Z.of_nat (size (filter (fun tl : ptr * ptr => tl.2 = l) (<[t := l0]> tu))) =
  Z.of_nat (size (filter (fun tl : ptr * ptr => tl.2 = l) tu)) + (if decide (l = l0) then 1 else 0).
Proof.
  intros Ht. pose proof (filter_delete_size (<[t := l0]> tu) t l l0 (lookup_insert_eq _ _ _)) as Hd.
  rewrite delete_insert_id in Hd by done. lia.
Qed.

Lemma get_undo_list_ok t new ns :
  ns_wf ns -> (forall ulp, new = Some ulp -> undo_lists ns !! ulp = None) ->
  let '(r, ns') := get_undo_list t new ns in
  ns_wf ns' /\ sem_sets ns' = sem_sets ns /\ sem_ids ns' = sem_ids ns /\
  sem_undos ns' = sem_undos ns /\
  (forall t' l, task_undo ns !! t' = Some l -> task_undo ns' !! t' = Some l) /\
  (forall e, r = inl e -> ns' = ns /\ e = - ENOMEM) /\
  (forall ulp, r = inr ulp -> task_undo ns' !! cur t = Some ulp).
Proof.
  intros W Hnew. unfold get_undo_list. destruct (task_undo ns !! cur t) as [ulp|] eqn:Et.
  { repeat (split; [done|]). intros ?. congruence. }
  destruct new as [ulp|].
  2:{ repeat (split; [done|]). split; [|done]. intros e [= <-]. done. }
  specialize (Hnew ulp eq_refl). cbn [sem_sets sem_ids sem_undos task_undo set_lists].
  split; [|repeat (split; [done|])].
  2:{ split; [|split; [done|]].
      - intros t' l Hl. rewrite lookup_insert_ne; [done|]. congruence.
      - intros l [= <-]. apply lookup_insert_eq. }
  assert (forall l, procs (set_lists (<[ulp:={| refcnt := 1; list_proc := [] |}]> (undo_lists ns))
    (<[cur t:=ulp]> (task_undo ns)) ns) l = procs ns l) as Hp.
  { intros l. unfold procs. cbn. rewrite lookup_insert. case_decide; subst; [by rewrite Hnew|done]. }
  apply ns_wf_lists; [done|intros; by rewrite Hp|intros; rewrite Hp; apply W| | |].
  - intros t' l. rewrite (lookup_insert (task_undo ns)). intros Hl. apply lookup_insert_is_Some'.
    case_decide; simplify_eq; [by left|right; by eapply W].
  - intros l ul. rewrite (filter_insert_size _ _ _ _ Et).
    destruct (decide (l = ulp)) as [->|D]; [rewrite lookup_insert_eq|rewrite lookup_insert_ne by congruence].
    + intros ?. simplify_eq/=.
      enough (filter (fun tl : ptr * ptr => tl.2 = ulp) (task_undo ns) = ∅) as -> by done.
      apply map_empty. intros i. apply map_lookup_filter_None. right. intros y Hy Ey. cbn in Ey. subst y.
      destruct (nw_task _ W _ _ Hy). congruence.
    + intros Hl. rewrite (nw_ref _ W _ _ Hl). lia.
  - intros p a q sq l _ _ _ Hl. rewrite lookup_insert_ne; [done|]. congruence.
Qed.

Lemma copy_semundo_ok t new flags tsk ns :
  ns_wf ns -> (forall ulp, new = Some ulp -> undo_lists ns !! ulp = None) ->
  task_undo ns !! tsk = None -> tsk <> cur t -> ns_wf (copy_semundo t new flags tsk ns).2.
Proof.
  intros W Hnew Ht Hne. unfold copy_semundo. case_if.
  2:{ cbn. rewrite delete_id by done. by apply ns_wf_lists; [done|done|apply W..|]. }
  pose proof (get_undo_list_ok t new ns W Hnew) as Hg.
  assert (task_undo (get_undo_list t new ns).2 !! tsk = None) as Ht1.
  { unfold get_undo_list. destruct (task_undo ns !! cur t); [done|]. destruct new; [|done]. cbn.
    by rewrite lookup_insert_ne by done. }
  destruct (get_undo_list t new ns) as [r ns1]. destruct Hg as (W1 & _ & _ & _ & _ & _ & Hr). cbn in Ht1.
  destruct r as [e|ulp]; [done|]. cbn. specialize (Hr ulp eq_refl).
  destruct (nw_task _ W1 _ _ Hr) as [ul Hul].
  assert (forall l, procs (set_lists (alter (fun l => {| refcnt := refcnt l + 1; list_proc := list_proc l |}) ulp
    (undo_lists ns1)) (<[tsk:=ulp]> (task_undo ns1)) ns1) l = procs ns1 l) as Hp.
  { intros l. unfold procs. cbn. rewrite lookup_alter. case_decide; subst; [by rewrite Hul|done]. }
  apply ns_wf_lists; [done|intros; by rewrite Hp|intros; rewrite Hp; apply W1| | |].
  - intros t' l. rewrite lookup_insert. intros Hl. apply lookup_alter_is_Some.
    case_decide; simplify_eq; [by eexists|by eapply W1].
  - intros l ul'. rewrite (filter_insert_size _ _ _ _ Ht1).
    destruct (decide (l = ulp)) as [->|D]; [rewrite lookup_alter_eq|rewrite lookup_alter_ne by congruence].
    + rewrite Hul. cbn. intros ?. simplify_eq/=. by rewrite (nw_ref _ W1 _ _ Hul).
    + intros Hl. rewrite (nw_ref _ W1 _ _ Hl). lia.
  - intros p a q sq l _ _ _ Hl. rewrite lookup_insert_ne; [done|]. congruence.
Qed.

Lemma lookup_undo_ok ns ulp semid :
  ns_wf ns ->
  let '(r, ns') := lookup_undo ns ulp semid in
  ns_wf ns' /\ sem_sets ns' = sem_sets ns /\ sem_ids ns' = sem_ids ns /\
  sem_undos ns' = sem_undos ns /\ task_undo ns' = task_undo ns /\
  match r with
  | Some un => exists x, sem_undos ns !! un = Some x /\ un_semid x = semid /\ un_ulp x = ulp
  | None => ns' = ns
  end.
Proof.
  intros W. unfold lookup_undo. destruct (lookup_undo_raw ns ulp semid) as [un|] eqn:E; [|done].
  unfold lookup_undo_raw in E. apply bind_Some in E as ([i u] & Hf & [= ->]).
  apply list_find_Some in Hf as (Hi & Hu & _). apply list_elem_of_lookup_2 in Hi.
  destruct (nw_procs _ W ulp un Hi) as (x & Hx & Hul & _). rewrite Hx in Hu. zbool.
  split; [|repeat (split; [done|]); by exists x].
  destruct (undo_lists ns !! ulp) as [ul|] eqn:El.
  2:{ unfold procs in Hi. rewrite El in Hi. by apply not_elem_of_nil in Hi. }
  unfold set_procs. apply ns_wf_lists; [done|..].
  - intros l u. change (procs (set_lists _ _ ns) l) with (procs (set_procs ulp (fun l => un :: list_del un l) ns) l).
    rewrite procs_set_procs. case_decide; [subst l|done]. rewrite El. unfold procs in *. rewrite El in *.
    rewrite elem_of_cons, elem_of_list_del. split; [intros [->|[? ?]]; done|].
    intros Hin. destruct (decide (u = un)); [by left|by right].
  - intros l. change (procs (set_lists _ _ ns) l) with (procs (set_procs ulp (fun l => un :: list_del un l) ns) l).
    pose proof (nw_procs_nodup _ W l) as Hnd.
    rewrite procs_set_procs. case_decide; [subst l|done]. rewrite El. unfold procs in Hnd. rewrite El in Hnd.
    constructor; [rewrite elem_of_list_del; tauto|]. by apply NoDup_filter.
  - intros t l Ht. apply lookup_alter_is_Some. by eapply W.
  - intros l ul'. rewrite lookup_alter. case_decide as D; [|apply W]. rewrite <- D, El. cbn.
    intros ?. simplify_eq/=. by apply W.
  - done.
Qed.

(** Sections that change the undo lists only. *)
Lemma section_lists k dead uls tu ns :
  ns_wf (set_lists uls tu ns) ->
  (forall u l, u <> k -> task_undo ns !! u = Some l -> tu !! u = Some l) ->
  (forall l ul, undo_lists ns !! l = Some ul -> refcnt ul = 0 -> dead <> Some l ->
    exists ul', uls !! l = Some ul' /\ refcnt ul' = 0 /\ (forall u, u ∈ list_proc ul' -> u ∈ list_proc ul)) ->
  section_ok k None dead ns (set_lists uls tu ns) [].
Proof. intros W Ht Hl. apply section_same; try done; intros; eauto. Qed.

Lemma get_undo_list_section t new ns :
  ns_wf ns -> (forall ulp, new = Some ulp -> undo_lists ns !! ulp = None) ->
  section_ok (cur t) None None ns (get_undo_list t new ns).2 [].
Proof.
  intros W Hnew. pose proof (get_undo_list_ok t new ns W Hnew) as Hg. unfold get_undo_list in *.
  destruct (task_undo ns !! cur t); [by apply section_refl|]. destruct new as [ulp|]; [|by apply section_refl].
  apply section_lists; [apply Hg|intros; by rewrite lookup_insert_ne by done|].
  intros l ul Hl Hr _. exists ul. rewrite lookup_insert_ne; [done|]. intros <-. by rewrite (Hnew ulp) in Hl.
Qed.

Lemma lookup_undo_section k ns ulp semid : ns_wf ns -> section_ok k None None ns (lookup_undo ns ulp semid).2 [].
Proof.
  intros W. pose proof (lookup_undo_ok ns ulp semid W) as Hl. pose proof (lookup_raw_spec ns ulp semid) as Hr. unfold lookup_undo in *.
  destruct (lookup_undo_raw ns ulp semid) as [un|]; [|by apply section_refl]. destruct Hr as [Hin _].
  apply section_lists; [apply Hl|done|]. intros l ul Hul Hz _. rewrite lookup_alter. case_decide as D; [|eauto]. subst l.
  rewrite Hul. eexists. split; [reflexivity|]. split; [done|]. cbn. intros u. rewrite elem_of_cons, elem_of_list_del.
  intros [->|[? _]]; [|done]. unfold procs in Hin. by rewrite Hul in Hin.
Qed.

Lemma copy_semundo_section t new flags tsk ns :
  ns_wf ns -> (forall ulp, new = Some ulp -> undo_lists ns !! ulp = None) ->
  task_undo ns !! tsk = None -> tsk <> cur t -> section_ok (cur t) None None ns (copy_semundo t new flags tsk ns).2 [].
Proof.
  intros W Hnew Ht Hne. pose proof (copy_semundo_ok t new flags tsk ns W Hnew Ht Hne) as W'. unfold copy_semundo in *. case_if.
  2:{ apply section_lists; [done| |intros; eauto]. intros u l _ Hl. rewrite lookup_delete_ne; [done|]. congruence. }
  pose proof (get_undo_list_section t new ns W Hnew) as A. pose proof (get_undo_list_ok t new ns W Hnew) as Hg.
  assert (task_undo (get_undo_list t new ns).2 !! tsk = None) as Ht1.
  { unfold get_undo_list. destruct (task_undo ns !! cur t); [done|]. destruct new; [|done]. cbn. by rewrite lookup_insert_ne by done. }
  destruct (get_undo_list t new ns) as [[e|ulp] ns1]; [done|]. destruct Hg as (W1 & _ & _ & _ & _ & _ & Hr). specialize (Hr ulp eq_refl).
  apply (section_trans _ _ _ _ _ _ A). cbn in Ht1. apply section_lists; [done|intros; rewrite lookup_insert_ne; congruence|].
  intros l ul Hl Hz _. exists ul. rewrite lookup_alter_ne; [done|]. intros <-. pose proof (used_list ns1 (cur t) ulp ul W1 Hr Hl). lia.
Qed.

(** ** A new undo structure *)

Definition link_undo (p new ulp : ptr) (a : sem_array) (x : sem_undo) (ns : sem_ns I) : sem_ns I :=
  set_heap (used_sems ns) (<[p := set_list_id (new :: list_id a) a]> (sem_sets ns)) (sem_queues ns)
    (<[new := x]> (sem_undos ns)) (set_procs ulp (fun l => new :: l) ns).

Lemma fresh_undo ns new p a :
  ns_wf ns -> sem_undos ns !! new = None -> sem_sets ns !! p = Some a -> new ∉ list_id a.
Proof.
  intros W Hn Ha Hin. destruct (so_undo _ _ (nw_set _ W p a Ha) new Hin) as (x & Hx & _). congruence.
Qed.

Section LinkUndo.
Context (ns : sem_ns I) (p new ulp : ptr) (a : sem_array) (ul : undo_list) (x : sem_undo).
Hypothesis (W : ns_wf ns) (Ha : sem_sets ns !! p = Some a) (Hd : deleted (sem_perm a) = false)
  (Hul : undo_lists ns !! ulp = Some ul) (Hn : sem_undos ns !! new = None)
  (Hfree : forall u y, u ∈ procs ns ulp -> sem_undos ns !! u = Some y -> un_semid y <> perm_id (sem_perm a))
  (Hx : x = {| un_semid := perm_id (sem_perm a); un_ulp := ulp; semadj := replicate (length (sem_base a)) 0 |}).
Let ns' : sem_ns I := link_undo p new ulp a x ns.

Lemma link_short u y : sem_undos ns' !! u = Some y -> Forall is_short (semadj y).
Proof.
  cbn. rewrite lookup_insert_Some. intros [[<- <-]|[_ Hy]]; [|by apply (nw_short _ W u)].
  rewrite Hx. apply Forall_replicate. by unfold is_short.
Qed.

Lemma link_set_ok r b : sem_sets ns' !! r = Some b -> set_ok ns' b.
Proof.
  assert (forall r b, sem_sets ns !! r = Some b -> set_ok ns' b) as Hold.
  { intros r' b' Hb. apply (set_ok_ext ns); [by apply (nw_set _ W r')|done| |apply link_short].
    intros u Hin. cbn. rewrite lookup_insert_ne; [done|]. intros <-. by apply (fresh_undo ns new r' b'). }
  cbn. rewrite lookup_insert_Some. intros [[<- <-]|[_ Hb]]; [|by apply (Hold r)].
  pose proof (Hold p a Ha) as O. constructor; cbn.
  - apply (set_wf_values (state_of ns' a)); [apply O|done..|apply (so_wf _ _ O)|apply link_short].
  - apply (so_stable _ _ O).
  - apply O.
  - congruence.
  - constructor; [by apply (fresh_undo ns new p)|apply O].
  - intros u. rewrite elem_of_cons. destruct (decide (u = new)) as [->|].
    + intros _. exists x. rewrite lookup_insert_eq. subst x. cbn. by rewrite length_replicate.
    + intros [|Hin]; [done|]. by apply (so_undo _ _ O).
  - intros q sq Hq Hsq. destruct (so_entry _ _ O q sq Hq Hsq) as [? Hun]. split; [done|].
    intros u Hq'. right. by apply Hun.
Qed.

Lemma link_undo_ok : ns_wf ns'.
Proof.
  assert (forall l, new ∉ procs ns l) as Hnp.
  { intros l Hin. destruct (nw_procs _ W l new Hin) as (y & Hy & _). congruence. }
  apply (change_undos_ok ns p ulp a ul); try done.
  - apply link_set_ok.
  - intros u y. rewrite lookup_insert_Some. intros [[<- <-]|[Hne Hy]] Hv.
    + split; [exists p, (set_list_id (new :: list_id a) a); cbn; rewrite lookup_insert_eq; split; [done|left]|].
      rewrite (change_procs ns p ulp a ul) by done. rewrite Hx, decide_True by done. left.
    + destruct (nw_undo _ W u y Hy Hv) as [(r & b & Hb & Hin) Hpr]. split.
      * destruct (change_set_of ns p ulp a (new :: list_id a) (<[new := x]> (sem_undos ns)) (fun l => new :: l) Ha r b Hb) as (b' & Hb' & _ & E).
        exists r, b'. split; [done|]. rewrite E. case_decide; [subst r; simplify_eq; by right|done].
      * rewrite (change_procs ns p ulp a ul) by done. case_decide; [by right|done].
  - intros l u. rewrite (change_procs ns p ulp a ul) by done. intros Hin. destruct (decide (u = new)) as [->|Hne].
    + exists x. rewrite lookup_insert_eq. split; [done|]. rewrite Hx. cbn.
      destruct (ids_live _ _ (nw_ids _ W) p a Ha Hd) as [Hid _]. cbn in Hid. split; [|lia]. case_decide; [done|]. by destruct (Hnp l).
    + rewrite lookup_insert_ne by done. apply W. case_decide; [|done]. by apply elem_of_cons in Hin as [|].
  - constructor; [done|apply W].
  - intros l u u' y y'. rewrite !(change_procs ns p ulp a ul) by done. rewrite !lookup_insert. intros Hu Hu' Hy Hy' E.
    assert (forall v z, v <> new -> v ∈ (if decide (l = ulp) then new :: procs ns l else procs ns l) -> sem_undos ns !! v = Some z ->
      v ∈ procs ns l /\ (l = ulp -> un_semid z <> un_semid x)) as Hold.
    { intros v z Hv Hin Hz. assert (v ∈ procs ns l) as Hin' by (case_decide; [by apply elem_of_cons in Hin as [|]|done]).
      split; [done|]. intros ->. subst x. by apply (Hfree v). }
    assert (forall v, v = new -> v ∈ (if decide (l = ulp) then new :: procs ns l else procs ns l) -> l = ulp) as Hnew
      by (intros v -> Hin; case_decide; [done|by destruct (Hnp l)]).
    destruct (decide (new = u)) as [<-|D], (decide (new = u')) as [<-|D']; [done| | |].
    + injection Hy as <-. destruct (Hold u' y' ltac:(done) Hu' Hy') as [_ Hne]. by destruct (Hne (Hnew _ eq_refl Hu)).
    + injection Hy' as <-. destruct (Hold u y ltac:(done) Hu Hy) as [_ Hne]. by destruct (Hne (Hnew _ eq_refl Hu')).
    + destruct (Hold u y ltac:(done) Hu Hy) as [Hi _]. destruct (Hold u' y' ltac:(done) Hu' Hy') as [Hi' _]. by apply (nw_unique _ W l u u' y y').
  - intros r b q sq u y Hb Hq Hsq Hqu. rewrite lookup_insert_ne; [done|]. intros <-.
    apply (fresh_undo ns new r b W Hn Hb). by apply (so_entry _ _ (nw_set _ W r b Hb) q sq).
  - apply link_short.
Qed.

Lemma link_section k : 0 < refcnt ul -> section_ok k None None ns ns' [].
Proof.
  intros Hpos. constructor; [apply link_undo_ok|done| | | |intros; eauto|intros; eauto| |constructor|by intros q ?%not_elem_of_nil].
  - intros v y Hy _. exists y. cbn. rewrite lookup_insert_ne by congruence. auto.
  - intros r b Hb. cbn. destruct (decide (r = p)) as [->|]; [|rewrite lookup_insert_ne by done; eauto].
    rewrite lookup_insert_eq. simplify_eq. eauto.
  - intros l ul' Hl Hz _. cbn. rewrite lookup_alter_ne by (intros <-; simplify_eq; lia). eauto.
  - intros r b q Hb Hq. right. destruct (change_set ns p ulp a _ _ _ Ha r b Hb) as (b0 & ? & E). rewrite E in Hq. eauto.
Qed.
End LinkUndo.

(** What the other tasks may do while the caller holds no lock: they keep the
    invariant, leave the caller's undo list alone, may invalidate its undo
    structures by removing the set, and cannot free a set that is referenced. *)
Record interferes (t : task) (ns ns' : sem_ns I) : Prop := {
  if_wf : ns_wf ns';
  if_task : task_undo ns' !! cur t = task_undo ns !! cur t;
  if_undo u x : sem_undos ns !! u = Some x -> task_undo ns !! cur t = Some (un_ulp x) ->
    exists x', sem_undos ns' !! u = Some x' /\ un_ulp x' = un_ulp x /\
      (un_semid x' = un_semid x \/ un_semid x' = -1);
  if_set p a : sem_sets ns !! p = Some a ->
    exists a', sem_sets ns' !! p = Some a' /\ perm_id (sem_perm a') = perm_id (sem_perm a) /\
      sem_nsems a' = sem_nsems a
}.

Lemma sem_lock_check_live ns semid p :
  ns_wf ns -> 0 <= semid -> sem_lock_check ns semid = inr p ->
  exists a, sem_sets ns !! p = Some a /\ deleted (sem_perm a) = false /\ perm_id (sem_perm a) = semid.
Proof.
  intros W Hid Hl. pose proof (lock_check_spec _ _ semid (nw_ids _ W) Hid) as Hs.
  unfold sem_lock_check in Hl. by rewrite Hl in Hs.
Qed.

Definition alloc_undo_ok (new : sem_ns I -> option ptr) : Prop :=
  forall ns u, new ns = Some u -> sem_undos ns !! u = None.

(** The undo structure of the caller for the set [semid]. *)
Definition undo_for (k : ptr) (semid : Z) (u : ptr) (ns : sem_ns I) : Prop :=
  exists x, sem_undos ns !! u = Some x /\ un_semid x = semid /\ task_undo ns !! k = Some (un_ulp x).

Lemma lookup_undo_for k ns ulp semid :
  ns_wf ns -> task_undo ns !! k = Some ulp ->
  task_undo (lookup_undo ns ulp semid).2 !! k = Some ulp /\
  forall u, (lookup_undo ns ulp semid).1 = Some u -> undo_for k semid u (lookup_undo ns ulp semid).2.
Proof.
  intros W Ht. pose proof (lookup_undo_ok ns ulp semid W) as Hl. destruct (lookup_undo ns ulp semid) as [r ns'].
  destruct Hl as (_ & _ & _ & Eu & Et & Hr). cbn. split; [by rewrite Et|]. intros u ->. destruct Hr as (x & Hx & Hs & <-).
  exists x. by rewrite Eu, Et.
Qed.

Lemma find_undo_ok t new_list semid ns :
  ns_wf ns -> (forall l, new_list = Some l -> undo_lists ns !! l = None) ->
  let '(r, ns') := find_undo t new_list semid ns in
  section_ok (cur t) None None ns ns' [] /\
  forall ulp un, r = inr (ulp, un) -> task_undo ns' !! cur t = Some ulp /\ forall u, un = Some u -> undo_for (cur t) semid u ns'.
Proof.
  intros W Hnl. unfold find_undo. pose proof (get_undo_list_section t new_list ns W Hnl) as A.
  pose proof (get_undo_list_ok t new_list ns W Hnl) as Hg.
  destruct (get_undo_list t new_list ns) as [[e|ulp] ns1]; destruct Hg as (W1 & _ & _ & _ & _ & _ & Ht1); [done|].
  specialize (Ht1 ulp eq_refl). pose proof (lookup_undo_section (cur t) ns1 ulp semid W1) as B.
  destruct (lookup_undo_for (cur t) ns1 ulp semid W1 Ht1) as [Ht2 Hu].
  destruct (lookup_undo ns1 ulp semid) as [un ns2]. split; [by eapply section_trans|]. by intros ? ? [= <- <-].
Qed.

Lemma undo_size_ok ns semid p nsems :
  ns_wf ns -> 0 <= semid -> undo_size ns semid = inr (p, nsems) ->
  exists a, sem_sets ns !! p = Some a /\ perm_id (sem_perm a) = semid /\ sem_nsems a = nsems.
Proof.
  intros W Hid. unfold undo_size. destruct (sem_lock_check ns semid) as [e|p'] eqn:El; [done|].
  destruct (sem_lock_check_live ns semid p' W Hid El) as (a & Ha & _ & Hpid). rewrite Ha. intros [= <- <-]. eauto.
Qed.

Lemma attach_undo_ok t p nsems ulp new semid ns a :
  ns_wf ns -> task_undo ns !! cur t = Some ulp -> sem_sets ns !! p = Some a -> perm_id (sem_perm a) = semid ->
  sem_nsems a = nsems -> (forall u, new = Some u -> sem_undos ns !! u = None) ->
  let '(r, ns') := attach_undo p nsems ulp new semid ns in
  section_ok (cur t) None None ns ns' [] /\ forall u, r = inr u -> undo_for (cur t) semid u ns'.
Proof.
  intros W Ht Ha Hpid Hns Hnew. unfold attach_undo. pose proof (section_refl (cur t) None None ns W) as Hrefl.
  destruct new as [un|]; [|done]. specialize (Hnew un eq_refl). rewrite Ha. destruct (deleted (sem_perm a)) eqn:Ed; [done|].
  pose proof (lookup_undo_section (cur t) ns ulp semid W) as B. destruct (lookup_undo_for (cur t) ns ulp semid W Ht) as [_ Hu].
  pose proof (lookup_raw_spec ns ulp semid) as Hraw. unfold lookup_undo in *. destruct (lookup_undo_raw ns ulp semid) as [un2|].
  { split; [done|]. intros u [= <-]. by apply Hu. }
  destruct (nw_task _ W _ _ Ht) as [ul Hul]. set (x := {| un_semid := semid; un_ulp := ulp; semadj := _ |}).
  assert (x = {| un_semid := perm_id (sem_perm a); un_ulp := ulp; semadj := replicate (length (sem_base a)) 0 |}) as Hx.
  { unfold x. by rewrite Hpid, <- Hns, (so_nsems _ _ (nw_set _ W p a Ha)), Nat2Z.id. }
  split.
  - apply (link_section ns p un ulp a ul x); try done; [by rewrite Hpid|]. by eapply used_list.
  - intros u [= <-]. exists x. cbn. by rewrite lookup_insert_eq.
Qed.

Lemma find_alloc_undo_ok t yield new_list new ns semid :
  ns_wf ns -> 0 <= semid -> (forall l, new_list = Some l -> undo_lists ns !! l = None) ->
  (forall ns0, ns_wf ns0 -> interferes t ns0 (yield ns0)) ->
  alloc_undo_ok new ->
  let '(r, ns') := find_alloc_undo t yield new_list new ns semid in
  ns_wf ns' /\ forall u, r = inr u -> undo_for (cur t) semid u ns'.
Proof.
  intros W Hid Hnl Hy Hnew. unfold find_alloc_undo.
  pose proof (find_undo_ok t new_list semid ns W Hnl) as Hf.
  destruct (find_undo t new_list semid ns) as [[e|[ulp un]] ns1]; destruct Hf as [A Ht]; pose proof (sc_wf _ _ _ _ _ _ A) as W1; [done|].
  destruct (Ht ulp un eq_refl) as [Ht1 Hu1]. destruct un as [un|]; [split; [done|]; intros u [= <-]; by apply Hu1|].
  pose proof (Hy ns1 W1) as Hi1. pose proof (if_wf _ _ _ Hi1) as W2.
  destruct (undo_size (yield ns1) semid) as [e|[p nsems]] eqn:Es; [done|].
  destruct (undo_size_ok _ _ _ _ W2 Hid Es) as (a & Ha & Hpid & Hns).
  pose proof (Hy (yield ns1) W2) as Hi2. pose proof (if_wf _ _ _ Hi2) as W3.
  destruct (if_set _ _ _ Hi2 p a Ha) as (a3 & Ha3 & Epid & Ens).
  assert (task_undo (yield (yield ns1)) !! cur t = Some ulp) as Ht3 by (by rewrite (if_task _ _ _ Hi2), (if_task _ _ _ Hi1)).
  pose proof (attach_undo_ok t p nsems ulp (new (yield (yield ns1))) semid _ a3 W3 Ht3 Ha3 ltac:(congruence) ltac:(congruence) (Hnew _)) as Hat.
  destruct (attach_undo _ _ _ _ _ _) as [r ns4]. destruct Hat as [B Hu]. split; [apply B|done].
Qed.

Lemma section_queue k dead ns ns' tasks q :
  section_ok k None dead ns ns' tasks -> sem_queues ns !! q = None -> sem_queues ns' !! q = None.
Proof.
  intros A Hq. destruct (sem_queues ns' !! q) as [sq|] eqn:E; [|done].
  destruct (sc_old _ _ _ _ _ _ A q sq E) as (? & ? & _); congruence.
Qed.

Lemma attach_undo_queues p nsems ulp new semid ns : sem_queues (attach_undo p nsems ulp new semid ns).2 = sem_queues ns.
Proof.
  unfold attach_undo. destruct new; [|done]. destruct (sem_sets ns !! p); [|done]. destruct (deleted _); [done|].
  unfold lookup_undo. by destruct (lookup_undo_raw ns ulp semid).
Qed.

Lemma find_alloc_undo_queues t yield new_list new ns semid q :
  ns_wf ns -> (forall l, new_list = Some l -> undo_lists ns !! l = None) -> sem_queues ns !! q = None ->
  (forall ns0, sem_queues ns0 !! q = None -> sem_queues (yield ns0) !! q = None) ->
  sem_queues (find_alloc_undo t yield new_list new ns semid).2 !! q = None.
Proof.
  intros W Hnl Hq Hy. unfold find_alloc_undo. pose proof (find_undo_ok t new_list semid ns W Hnl) as Hf.
  destruct (find_undo t new_list semid ns) as [[e|[ulp un]] ns1]; destruct Hf as [A _]; pose proof (section_queue _ _ _ _ _ q A Hq) as Hq1; [done|].
  destruct un; [done|]. destruct (undo_size (yield ns1) semid) as [e|[p nsems]]; [by apply Hy|]. rewrite attach_undo_queues. by apply Hy, Hy.
Qed.

(** ** semtimedop up to the sleep *)

Lemma semop_lock_ok t q c un ns :
  ns_wf ns -> call_ok c -> own_undo (cur t) (c_semid c) ns un -> sem_queues ns !! q = None ->
  semop_section (cur t) q (c_semid c) ns (semop_lock lsm t q c un ns).
Proof.
  intros W C Hown Hq. unfold semop_lock. destruct (sem_lock_check ns (c_semid c)) as [e|p] eqn:El; [by apply section_refl|].
  destruct (sem_lock_check_live _ _ p W (co_id _ C) El) as (a & Ha & Hd & E). rewrite <- E in *.
  apply (semop_locked_ok _ _ _ _ _ _ _ _ a); try done; [apply C..|].
  intros p2 a2 Ha2 Hin. destruct (wf_entry _ (so_wf _ _ (nw_set _ W p2 a2 Ha2)) q Hin) as (sq & Hsq & _). cbn in Hsq. congruence.
Qed.

Lemma semop_end_ok k q semid ns r : semop_section k q semid ns r -> semop_post (semop_end r).
Proof. destruct r as [[e ns'|ns'|] tasks]; cbn; [apply section_wake|intros [A _]; apply A|done]. Qed.

Lemma semtimedop_ok t yield1 yield2 mem_ok new_list new q ns semid tsops nsops timeout :
  ns_wf ns -> (forall l, new_list = Some l -> undo_lists ns !! l = None) ->
  (forall ns0, ns_wf ns0 -> interferes t ns0 (yield1 ns0)) ->
  (forall ns0, ns_wf ns0 -> interferes t ns0 (yield2 ns0)) ->
  alloc_undo_ok new -> sem_queues ns !! q = None ->
  (forall ns0, sem_queues ns0 !! q = None -> sem_queues (yield1 ns0) !! q = None) ->
  (forall ns0, sem_queues ns0 !! q = None -> sem_queues (yield2 ns0) !! q = None) ->
  (forall mem i, tsops = Some mem -> is_short (sem_op (mem i))) ->
  semop_post (semtimedop lsm t yield1 yield2 mem_ok new_list new q ns semid tsops nsops timeout).
Proof.
  intros W Hnl Hy1 Hy2 Hnew Hq Hq1 Hq2 Hmem. unfold semtimedop.
  destruct (semop_args mem_ok ns semid tsops nsops timeout) as [e|[c undos]] eqn:Ea; [done|].
  destruct (semop_args_ok _ _ _ _ _ _ _ _ Hmem Ea) as [C <-].
  assert (forall un ns1, ns_wf ns1 -> own_undo (cur t) (c_semid c) ns1 un -> sem_queues ns1 !! q = None ->
    semop_post (semop_end (semop_lock lsm t q c un (yield2 ns1)))) as Hlast.
  { intros un ns1 W1 Hown Hfq. pose proof (Hy2 ns1 W1) as Hi. apply (semop_end_ok (cur t) q (c_semid c) (yield2 ns1)).
    apply semop_lock_ok; [apply Hi|done| |by apply Hq2]. intros u ->. destruct (Hown u eq_refl) as (x & Hx & Hs & Htk).
    destruct (if_undo _ _ _ Hi u x Hx Htk) as (x' & Hx' & Hul & Hs'). exists x'. split; [done|].
    split; [destruct Hs' as [->|]; tauto|]. rewrite (if_task _ _ _ Hi), Hul. done. }
  destruct undos; [|by apply Hlast].
  pose proof (find_alloc_undo_ok t yield1 new_list new ns (c_semid c) W (co_id _ C) Hnl Hy1 Hnew) as Hf.
  pose proof (find_alloc_undo_queues t yield1 new_list new ns (c_semid c) q W Hnl Hq Hq1) as Hfq.
  destruct (find_alloc_undo t yield1 new_list new ns (c_semid c)) as [[e|u] ns1]; destruct Hf as [W1 Hu]; [done|].
  apply Hlast; [done| |exact Hfq]. intros u' [= <-]. destruct (Hu u eq_refl) as (x & Hx & Hs & Ht).
  exists x. split; [done|]. split; [by right|done].
Qed.

(** ** semtimedop after the sleep *)

(** The entry of a sleeping task, seen from a namespace: as long as it has no
    result it is queued on the set it went to sleep on. *)
Record sleeps (q p : ptr) (semid : Z) (ns : sem_ns I) : Prop := {
  sl_wf : ns_wf ns;
  sl_entry : is_Some (sem_queues ns !! q);
  sl_pending : queue_status ns q = - EINTR ->
    exists a, sem_sets ns !! p = Some a /\ q ∈ sem_pending a /\ perm_id (sem_perm a) = semid
}.

Lemma drop_queue_ok q ns :
  ns_wf ns -> (forall p a, sem_sets ns !! p = Some a -> q ∉ sem_pending a) -> ns_wf (drop_queue q ns).
Proof.
  intros W Hq. assert (forall x, x <> q -> sem_queues (drop_queue q ns) !! x = sem_queues ns !! x) as Hx
    by (intros; cbn; by rewrite lookup_delete_ne).
  constructor; try apply W.
  - intros p a Ha. pose proof (nw_set _ W p a Ha) as O.
    apply (set_ok_ext ns); [done| |done|apply (so_wf _ _ O)]. intros x Hin. apply Hx. intros ->. by apply (Hq p a).
  - intros p a x sq u y Ha Hin. rewrite Hx by (intros ->; by apply (Hq p a)). by apply (nw_sleeper _ W p a).
  - intros x sq. cbn. rewrite lookup_delete_Some. intros [_ ?]. by apply W.
Qed.

Lemma unlink_ok q p a sq ns :
  ns_wf ns -> sem_sets ns !! p = Some a -> q ∈ sem_pending a -> sem_queues ns !! q = Some sq ->
  ns_wf (drop_queue q (set_heap (used_sems ns) (<[p := unlink_queue q sq a]> (sem_sets ns))
                         (sem_queues ns) (sem_undos ns) ns)).
Proof.
  intros W Ha Hq Hsq. pose proof (nw_set _ W p a Ha) as O.
  set (ns' := drop_queue q _).
  assert (forall x, x <> q -> sem_queues ns' !! x = sem_queues ns !! x) as Hx
    by (intros; cbn; by rewrite lookup_delete_ne).
  pose proof (wf_finish (state_of ns a) q sq 0 (so_wf _ _ O) Hq Hsq) as Wf.
  apply (ns_wf_local ns _ p a (unlink_queue q sq a)); try done.
  - intros p2 a2 x Hne Ha2 Hin. cbn. rewrite elem_of_list_del. split.
    + intros [Hina _]. by apply Hne, (nw_disj _ W p2 p a2 a x).
    + apply Hx. intros ->. by apply Hne, (nw_disj _ W p2 p a2 a q).
  - constructor.
    + apply (set_wf_ext (finish (state_of ns a) q sq 0)); [done|done| |apply (so_wf _ _ O)].
      intros x Hin. cbn in Hin. apply elem_of_list_del in Hin as [_ Hne].
      rewrite finish_lookup by done. by apply Hx.
    + pose proof (so_stable _ _ O) as S. unfold stable in *. cbn in *. rewrite Forall_forall in *.
      intros x [Hin Hne]%elem_of_list_del. apply (blocked_ext (state_of ns a)); [|by apply Hx|done|by apply S].
      apply (vals_unlink q sq a).
    + rewrite length_unlink. apply O.
    + intros D. cbn in D. destruct (so_deleted _ _ O D) as [E1 E2]. cbn. by rewrite E1, E2.
    + apply O.
    + intros u Hu. rewrite length_unlink. by apply (so_undo _ _ O).
    + intros x xq. cbn. rewrite elem_of_list_del. intros [Hin Hne]. rewrite lookup_delete_ne by done.
      by apply (so_entry _ _ O).
  - intros x xq u y. cbn. rewrite elem_of_list_del. intros [Hin Hne]. rewrite lookup_delete_ne by done.
    by apply (nw_sleeper _ W p a).
  - intros x xq. cbn. rewrite lookup_delete_Some, elem_of_list_del. intros [Hne Hxq] _ Hnin. split; [|done].
    intros Hin. by apply Hnin.
Qed.

Lemma drop_queue_section k q ns :
  ns_wf ns -> (forall p a, sem_sets ns !! p = Some a -> q ∉ sem_pending a) -> section_ok k (Some q) None ns (drop_queue q ns) [].
Proof.
  intros W Hq. constructor; [by apply drop_queue_ok|done|intros; eauto..| | |intros; eauto|constructor|by intros x ?%not_elem_of_nil].
  - intros x sq Hx Hne. exists sq. cbn. rewrite lookup_delete_ne by congruence. done.
  - intros x sq Hx _. cbn in Hx. apply lookup_delete_Some in Hx as [_ Hx]. eauto.
Qed.

Lemma abandon_queue_ok k q p a ns :
  ns_wf ns -> sem_sets ns !! p = Some a -> q ∈ sem_pending a ->
  exists ns', abandon_queue q p ns = Some ns' /\ section_ok k (Some q) None ns ns' [] /\ sem_queues ns' !! q = None.
Proof.
  intros W Ha Hq. destruct (wf_entry _ (so_wf _ _ (nw_set _ W p a Ha)) q Hq) as (sq & Hsq & _). cbn in Hsq.
  unfold abandon_queue. rewrite Ha, Hsq. eexists. split; [reflexivity|]. split; [|apply lookup_delete_eq].
  constructor; [by apply unlink_ok|done|intros; eauto| |intros; eauto| | | |constructor|by intros x ?%not_elem_of_nil].
  - intros r b Hb. cbn. destruct (decide (r = p)) as [->|]; [|rewrite lookup_insert_ne by done; eauto].
    rewrite lookup_insert_eq. simplify_eq. eauto.
  - intros x xq Hx Hne. exists xq. cbn. rewrite lookup_delete_ne by congruence. done.
  - intros x xq Hx _. cbn in Hx. apply lookup_delete_Some in Hx as [_ Hx]. eauto.
  - intros r b x. cbn. rewrite lookup_insert_Some. intros [[<- <-]|[_ Hb]] Hx; [|eauto].
    cbn in Hx. apply elem_of_list_del in Hx as [Hx _]. eauto.
Qed.

Lemma get_queue_result_spec q (P : sem_ns I -> Prop) later : forall ns,
  P ns -> Forall P later -> Forall (fun v => queue_status v q <> - EINTR) later ->
  Exists (fun v => queue_status v q <> IN_WAKEUP) (ns :: later) ->
  exists ns', get_queue_result q ns later = Some (queue_status ns' q, ns') /\ P ns' /\
    (queue_status ns' q = - EINTR -> ns' = ns).
Proof.
  induction later as [|ns2 later IH]; intros ns Hns Hl Hn Hex; cbn [get_queue_result]; case_if; zbool.
  - apply Exists_cons in Hex as [?|Hex]; [done|]. by apply Exists_nil in Hex.
  - by exists ns.
  - apply Forall_cons in Hl as [H2 Hl]. apply Forall_cons in Hn as [Hn2 Hn].
    apply Exists_cons in Hex as [?|Hex]; [done|].
    destruct (IH ns2 H2 Hl Hn Hex) as (ns' & E1 & HP & Hst). exists ns'. split; [done|]. split; [done|].
    intros Hs. specialize (Hst Hs). subst ns'. done.
  - by exists ns.
Qed.

Lemma not_pending q p semid ns :
  sleeps q p semid ns -> queue_status ns q <> - EINTR ->
  forall p a, sem_sets ns !! p = Some a -> q ∉ sem_pending a.
Proof.
  intros S Hst p' a Ha Hin. destruct (sl_entry _ _ _ _ S) as [sq Hsq]. apply Hst.
  unfold queue_status. rewrite Hsq. by apply (so_entry _ _ (nw_set _ (sl_wf _ _ _ _ S) p' a Ha) q).
Qed.

(** The set somebody waits on can be locked. *)
Lemma sleeps_lock q p semid ns :
  sleeps q p semid ns -> queue_status ns q = - EINTR ->
  exists a, sem_sets ns !! p = Some a /\ q ∈ sem_pending a /\ sem_lock ns semid = inr p.
Proof.
  intros S Hst. destruct (sl_pending _ _ _ _ S Hst) as (a & Ha & Hq & Hid). exists a. split; [done|]. split; [done|].
  pose proof (nw_ids _ (sl_wf _ _ _ _ S)) as Wi. assert (deleted (ipc_perm a) = false) as Hd.
  { apply not_true_iff_false. intros D. destruct (so_deleted _ _ (nw_set _ (sl_wf _ _ _ _ S) p a Ha) D) as [En _].
    rewrite En in Hq. by apply not_elem_of_nil in Hq. }
  destruct (ids_live _ _ Wi p a Ha Hd) as [_ Hf]. unfold sem_lock, ipc_lock.
  rewrite <- Hid. change (sem_perm a) with (ipc_perm a). by rewrite Hf, Ha, Hd.
Qed.

Lemma resume_ok q p semid timed_out yield ns later1 later2 :
  sleeps q p semid ns -> Forall (sleeps q p semid) later1 -> Forall (sleeps q p semid) later2 ->
  (forall ns0, sleeps q p semid ns0 -> sleeps q p semid (yield ns0)) ->
  Forall (fun v => queue_status v q <> - EINTR) (later1 ++ later2) ->
  Exists (fun v => queue_status v q <> IN_WAKEUP) (ns :: later1) ->
  (forall ns0, sleeps q p semid ns0 -> queue_status ns0 q = - EINTR ->
     Exists (fun v => queue_status v q <> IN_WAKEUP) (yield ns0 :: later2)) ->
  exists err ns', semtimedop_resume q semid timed_out yield ns later1 later2 = Some (err, ns') /\
    ns_wf ns' /\ sem_queues ns' !! q = None /\
    ((exists v, err = queue_status v q /\ err <> - EINTR /\ ns' = drop_queue q v) \/
     err = (if timed_out then - EAGAIN else - EINTR) \/ err = - EIDRM).
Proof.
  intros S Hl1 Hl2 Hy Hn Hx1 Hx2. apply Forall_app in Hn as [Hn1 Hn2]. unfold semtimedop_resume.
  assert (forall v : sem_ns I, sem_queues (drop_queue q v) !! q = None) as Hdrop by (intros; cbn; apply lookup_delete_eq).
  assert (forall v, sleeps q p semid v -> queue_status v q <> - EINTR -> ns_wf (drop_queue q v)) as Hok.
  { intros v Sv Hst. apply drop_queue_ok; [apply Sv|]. by apply (not_pending q p semid). }
  destruct (get_queue_result_spec q _ later1 ns S Hl1 Hn1 Hx1) as (ns1 & -> & S1 & Hst1).
  case_if; zbool; [exists (queue_status ns1 q), (drop_queue q ns1); eauto 10|].
  specialize (Hy ns1 S1). specialize (Hx2 ns1 S1 E).
  destruct (get_queue_result_spec q _ later2 (yield ns1) Hy Hl2 Hn2 Hx2) as (ns2 & E2 & S2 & Hst2).
  pose proof (sleeps_lock q p semid _ Hy) as Hlock.
  destruct (sem_lock (yield ns1) semid) as [e|p'] eqn:El.
  - assert (queue_status (yield ns1) q <> - EINTR) as Hst by (intros Hst; by destruct (Hlock Hst) as (? & _ & _ & ?)).
    exists (- EIDRM), (drop_queue q (yield ns1)). split; [done|]. split; [by apply Hok|]. split; [done|].
    right. by right.
  - rewrite E2. destruct (negb (queue_status ns2 q =? - EINTR)) eqn:E3; zbool.
    + exists (queue_status ns2 q), (drop_queue q ns2). eauto 10.
    + pose proof (Hst2 E3) as En. subst ns2. destruct (Hlock E3) as (a & Ha & Hq & [= ->]).
      destruct (abandon_queue_ok 0%nat q p a _ (sl_wf _ _ _ _ Hy) Ha Hq) as (ns' & -> & A & Hn'). eexists _, ns'. split; [reflexivity|].
      split; [apply A|]. split; [done|]. right; left. by rewrite E3.
Qed.

(** ** Creation *)

Lemma ns_wf_ids ns ids :
  ns_wf ns -> ids_wf ids (sem_sets ns) -> ns_wf (set_ids ids ns).
Proof.
  intros W Hi. constructor; try apply W; [done|]. intros p a Ha.
  pose proof (nw_set _ W p a Ha) as O. by apply (set_ok_ext ns); [| | |apply (so_wf _ _ O)].
Qed.

(** A set nobody waits on and without undo structures. *)
Lemma blank_set_ok ns a n :
  sem_pending a = [] -> list_id a = [] -> complex_count a = 0 -> sem_base a = replicate n (Sem 0 0 []) ->
  sem_nsems a = Z.of_nat n ->
  (forall u x, sem_undos ns !! u = Some x -> Forall is_short (semadj x)) -> set_ok ns a.
Proof.
  intros Ep El Ec Eb En Hu. constructor.
  - constructor; cbn; rewrite ?Ep, ?Ec; try done; [constructor|by intros q ?%not_elem_of_nil| | |].
    + intros k s. rewrite Eb. intros [-> _]%lookup_replicate. done.
    + by exists [], [].
    + rewrite Eb. unfold vals. rewrite fmap_replicate. by apply Forall_replicate.
  - unfold stable. cbn. by rewrite Ep.
  - by rewrite Eb, length_replicate.
  - done.
  - rewrite El. constructor.
  - intros u. rewrite El. by intros ?%not_elem_of_nil.
  - intros q sq. rewrite Ep. by intros ?%not_elem_of_nil.
Qed.

Lemma new_set_ok ns ids p a :
  ns_wf ns -> (perm_key (sem_perm a) <> IPC_PRIVATE -> no_key (sem_sets ns) (perm_key (sem_perm a))) ->
  sem_sets ns !! p = None -> sem_pending a = [] -> list_id a = [] -> set_ok ns a ->
  ids_wf ids (<[p := a]> (sem_sets ns)) -> forall used,
  ns_wf (set_heap used (<[p := a]> (sem_sets ns)) (sem_queues ns) (sem_undos ns) (set_ids ids ns)).
Proof.
  intros W Hk Hp Ep El O Hi used. set (ns' := set_heap _ _ _ _ _).
  assert (forall b, set_ok ns b -> set_ok ns' b) as Hext.
  { intros b Ob. by apply (set_ok_ext ns); [| | |apply (so_wf _ _ Ob)]. }
  assert (forall r b, sem_sets ns' !! r = Some b -> r = p /\ b = a \/ r <> p /\ sem_sets ns !! r = Some b) as Hsets.
  { intros r b. cbn. rewrite lookup_insert_Some. intros [[-> ->]|[? ?]]; [by left|by right]. }
  constructor; try apply W.
  - done.
  - intros r b [[-> ->]|[_ Hb]]%Hsets; apply Hext; [done|by apply (nw_set _ W r)].
  - intros r r' b b' q [[-> ->]|[_ Hb]]%Hsets [[-> ->]|[_ Hb']]%Hsets; rewrite ?Ep;
      try (intros ?%not_elem_of_nil; done); try (intros _ ?%not_elem_of_nil; done).
    by apply (nw_disj _ W r r' b b').
  - intros u x Hx Hv. destruct (nw_undo _ W u x Hx Hv) as [(r & b & Hb & Hin) ?]. split; [|done].
    exists r, b. split; [|done]. cbn. rewrite lookup_insert_ne; [done|]. intros ->. congruence.
  - intros r b q sq u x [[-> ->]|[_ Hb]]%Hsets; [rewrite Ep; by intros ?%not_elem_of_nil|].
    by apply (nw_sleeper _ W r b).
  - intros q sq Hsq Hst. destruct (nw_queue _ W q sq Hsq Hst) as (r & b & Hb & Hq). exists r, b.
    split; [|done]. cbn. rewrite lookup_insert_ne; [done|]. intros ->. congruence.
  - by apply keys_unique_new; [apply W|].
Qed.

Lemma section_ids k ids ns : ns_wf ns -> ids_wf ids (sem_sets ns) -> section_ok k None None ns (set_ids ids ns) [].
Proof. intros W Hi. apply section_same; try done; [by apply ns_wf_ids|intros; eauto..]. Qed.

Lemma new_set_section k ns ids p a used :
  sem_sets ns !! p = None -> sem_pending a = [] ->
  ns_wf (set_heap used (<[p := a]> (sem_sets ns)) (sem_queues ns) (sem_undos ns) (set_ids ids ns)) ->
  section_ok k None None ns (set_heap used (<[p := a]> (sem_sets ns)) (sem_queues ns) (sem_undos ns) (set_ids ids ns)) [].
Proof.
  intros Hp Ep W. apply section_same; try done; [| |intros; eauto].
  - intros r b Hb. exists b. cbn. rewrite lookup_insert_ne by congruence. done.
  - intros r b q. cbn. rewrite lookup_insert_Some. intros [[<- <-]|[_ Hb]]; [rewrite Ep; by intros ?%not_elem_of_nil|eauto].
Qed.

(** What the code relies on of the security module: a hook answers 0 or an
    error other than -EAGAIN. *)
Definition lsm_ok : Prop :=
  (forall a, security_sem_alloc lsm a <= 0 /\ security_sem_alloc lsm a <> - EAGAIN) /\
  (forall a f, security_sem_associate lsm a f <= 0 /\ security_sem_associate lsm a f <> - EAGAIN).

Definition alloc_ok (alloc : sem_ns I -> option ptr) : Prop :=
  forall ns p, alloc ns = Some p -> sem_sets ns !! p = None.

Lemma newary_spec t alloc ns params :
  ns_wf ns -> lsm_ok -> alloc_ok alloc -> 0 <= par_u params ->
  (par_key params <> IPC_PRIVATE -> no_key (sem_sets ns) (par_key params)) ->
  let '(r, ns') := newary lsm t alloc ns params in
  section_ok (cur t) None None ns ns' [] /\
  (sem_sets ns' = sem_sets ns /\ r < 0 /\
     (r = - EAGAIN -> exists p, idr_room (ipcs_idr (sem_ids ns)) /\ (idr_get_new (ipcs_idr (sem_ids ns)) p).1.1 = - EAGAIN) \/
   exists p a, sem_sets ns !! p = None /\ sem_sets ns' = <[p := a]> (sem_sets ns) /\
     deleted (sem_perm a) = false /\ perm_key (sem_perm a) = par_key params /\
     perm_id (sem_perm a) = r /\ 0 <= r).
Proof.
  intros W [Hlsm _] Hal Hn Hnk. unfold newary. pose proof (section_refl (cur t) None None ns W) as Hrefl.
  case_if; [by split; [|left]|]. case_if; [by split; [|left]|].
  destruct (alloc ns) as [p|] eqn:Ep; [|by split; [|left]]. specialize (Hal ns p Ep).
  case_if; [split; [done|left]; zbool; repeat (split; [done|]); destruct (Hlsm (
    {| sem_perm := {| deleted := false; perm_id := 0; perm_key := par_key params; perm_uid := 0; perm_gid := 0;
         perm_cuid := 0; perm_cgid := 0; perm_mode := Z.land (par_flg params) S_IRWXUGO; perm_seq := 0 |};
       sem_otime := 0; sem_ctime := 0; sem_base := replicate (Z.to_nat (par_u params)) (Sem 0 0 []);
       sem_pending := []; list_id := []; sem_nsems := par_u params; complex_count := 0 |})); split; [lia|done]|].
  set (perm0 := {| deleted := false; perm_id := 0; perm_key := par_key params |}).
  destruct (ipc_addid (cur_cred t) (sem_ids ns) p perm0 (sc_semmni ns)) as [[id ids] perm] eqn:Ea.
  case_if; zbool.
  - split; [apply section_ids; [done|]; exact (addid_error _ _ _ _ _ _ _ _ _ (nw_ids _ W) Ea E2)|].
    left. split; [done|]. split; [done|]. intros ->. exists p.
    apply (addid_eagain (cur_cred t) (sem_ids ns) p perm0 (sc_semmni ns) _ (nw_ids _ W)). by rewrite Ea.
  - set (a := {| sem_perm := perm; sem_otime := 0; sem_ctime := now t;
         sem_base := replicate (Z.to_nat (par_u params)) (Sem 0 0 []); sem_pending := []; list_id := [];
         sem_nsems := par_u params; complex_count := 0 |}).
    destruct (addid_ok (cur_cred t) (sem_ids ns) p perm0 (sc_semmni ns) id ids perm (sem_sets ns) a
      (nw_ids _ W) Ea E2 Hal eq_refl) as (Wi & Hpid & Hd & Hk & Hid & _).
    split.
    + refine (new_set_section (cur t) ns ids p _ _ Hal _ _); [done|]. refine (new_set_ok ns ids p _ W _ Hal _ _ _ Wi _); [cbn; by rewrite Hk|done|done|].
      apply (blank_set_ok _ _ (Z.to_nat (par_u params))); try done; [cbn; lia|apply W].
    + right. exists p, a. repeat (split; [done|]). rewrite Hpid.
      pose proof (ids_seq_range _ _ (nw_ids _ W)).
      destruct (buildid_split id (ids_seq (sem_ids ns)) Hid ltac:(lia)) as (_ & _ & ?). lia.
Qed.

(** ** semget *)

#[export] Instance sem_ns_laws : IpcNsLaws (sem_ns I) I sem_array.
Proof. by split. Qed.

Lemma preload_ok k m ns :
  ns_wf ns -> section_ok k None None ns (set_ns_idr (idr_pre_get m (ipcs_idr (ns_ids ns))).2 ns) [].
Proof.
  intros W. apply section_ids; [done|]. apply ids_wf_preload, W.
Qed.

Lemma newary_get t alloc m ns params :
  ns_wf ns -> lsm_ok -> alloc_ok alloc -> 0 <= par_u params ->
  (idr_pre_get m (ipcs_idr (ns_ids ns))).1 = true ->
  (par_key params <> IPC_PRIVATE -> no_key (sem_sets ns) (par_key params)) ->
  let '(r, ns') := newary lsm t alloc (set_ns_idr (idr_pre_get m (ipcs_idr (ns_ids ns))).2 ns) params in
  r <> - EAGAIN /\ section_ok (cur t) None None ns ns' [] /\ get_answer (par_key params) r ns'.
Proof.
  intros W HL Hal Hn Hm Hk. pose proof (preload_ok (cur t) m ns W) as A. pose proof (sc_wf _ _ _ _ _ _ A) as W1.
  destruct (idr_pre_get m (ipcs_idr (ns_ids ns))) as [got i'] eqn:Ei. cbn in Hm. subst got. cbn [snd] in *.
  pose proof (newary_spec t alloc (set_ns_idr i' ns) params W1 HL Hal Hn Hk) as Hs.
  destruct (newary lsm t alloc (set_ns_idr i' ns) params) as [r ns'].
  destruct Hs as [B [(Es & Hr & Hag)|(p & a & Hp & Es & Hd & Hky & Hid & Hr)]]; cbn in Es.
  - split; [|split; [by eapply section_trans|intros ?; lia]].
    intros ->. destruct (Hag eq_refl) as (p & Hroom & Hp).
    by apply (law_preload m _ i' p (ids_inv _ _ (nw_ids _ W)) Ei Hroom).
  - split; [unfold EAGAIN; lia|]. split; [by eapply section_trans|].
    rewrite <- Hky, <- Hid. refine (get_answer_live ns' p a _ _ _); [apply B| |done].
    cbn. rewrite Es. apply lookup_insert_eq.
Qed.

Lemma sem_ops_ok t alloc :
  lsm_ok -> ops_ok {| getnew := newary lsm t alloc; associate := sem_security lsm; more_checks := Some sem_more_checks |}.
Proof.
  intros [_ HL]. split; [apply HL|]. intros f a params [= <-]. unfold sem_more_checks, EINVAL, EAGAIN. case_if; lia.
Qed.

Lemma semget_ok t alloc m ns key nsems flg :
  ns_wf ns -> lsm_ok -> alloc_ok alloc ->
  exists r ns', semget lsm t alloc [m] ns key nsems flg = Some (r, ns') /\
    section_ok (cur t) None None ns ns' [] /\ get_answer key r ns'.
Proof.
  intros W HL Hal. unfold semget. destruct ((nsems <? 0) || _) eqn:E.
  { exists (- EINVAL), ns. split; [done|]. split; [by apply section_refl|]. intros ?. unfold EINVAL in *. lia. }
  zbool. refine (ipcget_ok (cur_cred t) (security_ipc_permission lsm) m ns _ _
    (fun r ns' => section_ok (cur t) None None ns ns' [] /\ get_answer key r ns') _ _ _ _).
  - apply W.
  - by apply sem_ops_ok.
  - cbn [getnew]. intros Hm Hk.
    pose proof (newary_get t alloc m ns (IpcParams key flg nsems) W HL Hal ltac:(done) Hm Hk) as Hg.
    by destruct (newary _ _ _ _ _).
  - intros e Ha. split; [by apply preload_ok|done].
Qed.

(** ** Removal *)

Lemma free_undos_spec uns : forall us uls,
  NoDup uns -> (forall u, u ∈ uns -> is_Some (us !! u)) ->
  let '(us', uls') := free_undos uns us uls in
  (forall u, u ∉ uns -> us' !! u = us !! u) /\
  (forall u x, u ∈ uns -> us !! u = Some x ->
     us' !! u = Some {| un_semid := -1; un_ulp := un_ulp x; semadj := semadj x |}) /\
  (forall l, match uls !! l, uls' !! l with
             | Some ul, Some ul' =>
                 refcnt ul' = refcnt ul /\ (NoDup (list_proc ul) -> NoDup (list_proc ul')) /\
                 (forall v, v ∈ list_proc ul' <-> v ∈ list_proc ul /\
                    ~ (v ∈ uns /\ exists x, us !! v = Some x /\ un_ulp x = l))
             | None, None => True
             | _, _ => False
             end).
Proof.
  induction uns as [|un uns IH]; intros us uls Hnd Hin; cbn [free_undos].
  { split; [done|]. split; [by intros u x ?%not_elem_of_nil|].
    intros l. destruct (uls !! l); [|done]. split; [done|]. split; [done|]. intros v.
    split; [intros; split; [done|by intros [?%not_elem_of_nil _]]|tauto]. }
  apply NoDup_cons in Hnd as [Hnin Hnd]. destruct (Hin un ltac:(left)) as [x Hx]. rewrite Hx.
  set (us1 := <[un := _]> us). set (uls1 := alter _ (un_ulp x) uls).
  assert (forall u, u <> un -> us1 !! u = us !! u) as Hus1 by (intros; unfold us1; by rewrite lookup_insert_ne).
  specialize (IH us1 uls1 Hnd). destruct (free_undos uns us1 uls1) as [us' uls'].
  destruct IH as (H1 & H2 & H3).
  { intros u Hu. rewrite Hus1 by (by intros ->). apply Hin. by right. }
  split; [|split].
  - intros u [Hne Hu]%not_elem_of_cons. rewrite H1 by done. by apply Hus1.
  - intros u y Hu Hy. destruct (decide (u = un)) as [->|Hne].
    + rewrite H1 by done. unfold us1. rewrite lookup_insert_eq. by simplify_eq.
    + apply elem_of_cons in Hu as [|Hu]; [done|]. apply H2; [done|]. by rewrite Hus1.
  - intros l. specialize (H3 l). unfold uls1 in H3. rewrite lookup_alter in H3.
    assert (forall v, v ∈ uns /\ (exists y, us1 !! v = Some y /\ un_ulp y = l) <->
                      v ∈ uns /\ (exists y, us !! v = Some y /\ un_ulp y = l)) as Hv.
    { intros v. split; intros [Hv Hy]; (split; [done|]); [rewrite Hus1 in Hy|rewrite Hus1]; try done; by intros ->. }
    case_decide as D.
    + subst l. destruct (uls !! un_ulp x) as [ul|] eqn:El; cbn in H3; [|done].
      destruct (uls' !! un_ulp x) as [ul'|]; [|done]. destruct H3 as (-> & Hnd' & Hm). split; [done|].
      split; [intros; apply Hnd'; by apply NoDup_filter|].
      intros v. cbn in Hm. rewrite Hm, Hv, elem_of_list_del, elem_of_cons.
      split; [intros [[? ?] Hn]|intros [? Hn]].
      * split; [done|]. intros [[->|?] ?]; [done|tauto].
      * split; [split; [done|]|]; [intros ->; apply Hn; split; [by left|eauto]|]. intros [? ?]. apply Hn. tauto.
    + destruct (uls !! l) as [ul|]; [|done]. destruct (uls' !! l) as [ul'|]; [|done].
      destruct H3 as (-> & Hnd' & Hm). split; [done|]. split; [done|]. intros v.
      rewrite Hm, Hv, elem_of_cons. split; intros [? Hn]; (split; [done|]); [|tauto].
      intros [[->|?] (y & Hy & E)]; [congruence|]. apply Hn. eauto.
Qed.

Lemma fail_pending_spec us walk : forall a qs tasks,
  set_wf {| sma := a; queues := qs; undos := us |} -> sem_pending a = walk ->
  let '(a', qs', tasks') := fail_pending walk a qs tasks in
  set_wf {| sma := a'; queues := qs'; undos := us |} /\ sem_pending a' = [] /\ tasks' = tasks ++ walk /\
  sem_perm a' = sem_perm a /\ list_id a' = list_id a /\ sem_nsems a' = sem_nsems a /\
  length (sem_base a') = length (sem_base a) /\
  (forall q, q ∉ walk -> qs' !! q = qs !! q) /\
  (forall q, q ∈ walk -> exists sq sq', qs !! q = Some sq /\ qs' !! q = Some sq' /\ q_sleeper sq' = q_sleeper sq /\
     q_status sq' = IN_WAKEUP /\ q_pid sq' = - EIDRM).
Proof.
  induction walk as [|q walk IH]; intros a qs tasks W Ep; cbn [fail_pending].
  { rewrite app_nil_r. repeat (split; [done|]). by intros q ?%not_elem_of_nil. }
  assert (q ∈ sem_pending a) as Hq by (rewrite Ep; left).
  destruct (wf_entry _ W q Hq) as (sq & Hsq & _). cbn in Hsq. rewrite Hsq.
  pose proof (wf_nodup _ W) as Hnd. cbn in Hnd. rewrite Ep in Hnd. apply NoDup_cons in Hnd as [Hnin Hnd].
  pose proof (wf_finish _ q sq (- EIDRM) W Hq Hsq) as W1.
  cbn [wake_up_sem_queue_prepare].
  specialize (IH (unlink_queue q sq a) (wake_up_sem_queue_prepare [] q (- EIDRM) qs).2 (tasks ++ [q]) W1).
  unfold wake_up_sem_queue_prepare in IH at 2. cbn [snd] in IH.
  destruct (fail_pending walk _ _ _) as [[a' qs'] tasks'].
  destruct IH as (W' & E1 & E2 & E3 & E4 & E5 & E6 & Hout & Hin).
  { cbn. rewrite Ep. change (list_del q (q :: walk) = walk). pose proof (list_del_nodup q [] walk) as Hd. cbn [app] in Hd.
    apply Hd. by constructor. }
  rewrite length_unlink in E6. rewrite <- app_assoc in E2. repeat (split; [done|]). split.
  - intros x [Hne Hx]%not_elem_of_cons. rewrite Hout by done.
    change (alter _ q qs) with (wake_up_sem_queue_prepare [] q (- EIDRM) qs).2.
    rewrite prepare_lookup. destruct (qs !! x); [|done]. by rewrite decide_False by congruence.
  - intros x [->|Hx]%elem_of_cons.
    + rewrite Hout by done. change (alter _ q qs) with (wake_up_sem_queue_prepare [] q (- EIDRM) qs).2.
      rewrite prepare_lookup, Hsq, decide_True by done. eexists _, _. split; [reflexivity|]. by split.
    + destruct (Hin x Hx) as (xq & xq' & Hxq & Hrest). exists xq, xq'. split; [|done].
      change (alter _ q qs) with (wake_up_sem_queue_prepare [] q (- EIDRM) qs).2 in Hxq.
      rewrite prepare_lookup in Hxq. destruct (qs !! x); [|done]. rewrite decide_False in Hxq by (by intros <-). done.
Qed.

(** [freeary_locked] in one step: what the two loops leave behind. *)
Lemma freeary_eq p a ns :
  ns_wf ns -> sem_sets ns !! p = Some a ->
  exists a1 qs us uls,
    freeary_locked p a ns =
      (set_lists uls (task_undo ns)
        (set_heap (used_sems ns - sem_nsems a) (<[p := set_ipc_perm (ipc_rmid (sem_ids ns) (sem_perm a)).2 a1]> (sem_sets ns))
           qs us (set_ids (ipc_rmid (sem_ids ns) (sem_perm a)).1 ns)), sem_pending a) /\
    free_undos (list_id a) (sem_undos ns) (undo_lists ns) = (us, uls) /\
    set_wf {| sma := a1; queues := qs; undos := sem_undos ns |} /\
    sem_pending a1 = [] /\ list_id a1 = [] /\ sem_nsems a1 = sem_nsems a /\
    length (sem_base a1) = length (sem_base a) /\
    (forall q, q ∉ sem_pending a -> qs !! q = sem_queues ns !! q) /\
    (forall q, q ∈ sem_pending a -> exists sq sq', sem_queues ns !! q = Some sq /\ qs !! q = Some sq' /\ q_sleeper sq' = q_sleeper sq /\
       q_status sq' = IN_WAKEUP /\ q_pid sq' = - EIDRM).
Proof.
  intros W Ha. pose proof (nw_set _ W p a Ha) as O. unfold freeary_locked.
  destruct (free_undos _ _ _) as [us uls].
  assert (set_wf {| sma := set_list_id [] a; queues := sem_queues ns; undos := sem_undos ns |}) as W0.
  { apply (set_wf_values (state_of ns a)); [apply O|done..|apply (so_wf _ _ O)|apply W]. }
  pose proof (fail_pending_spec (sem_undos ns) (sem_pending a) (set_list_id [] a) (sem_queues ns) [] W0 eq_refl) as Hf.
  cbn [sem_pending set_list_id] in Hf |- *.
  destruct (fail_pending _ _ _ _) as [[a1 qs] tasks]. destruct Hf as (W1 & E1 & -> & E3 & E4 & E5 & E6 & Ho & Hi).
  rewrite E3. cbn [sem_perm set_list_id]. destruct (ipc_rmid (sem_ids ns) (sem_perm a)) as [ids perm].
  exists a1, qs, us, uls. cbn in *. rewrite E5. repeat (split; [done|]). done.
Qed.

(** What [free_undos] leaves of the undo structures and lists, seen from the
    namespace: those of the set [a] are invalid and off the lists. *)
Record undos_freed (ns : sem_ns I) (a : sem_array) (us : gmap ptr sem_undo) (uls : gmap ptr undo_list) : Prop := {
  uf_other u : u ∉ list_id a -> us !! u = sem_undos ns !! u;
  uf_keep u x : sem_undos ns !! u = Some x -> exists x', us !! u = Some x' /\ un_ulp x' = un_ulp x /\
    (un_semid x' = un_semid x \/ un_semid x' = -1);
  uf_undo u x : us !! u = Some x -> exists x0, sem_undos ns !! u = Some x0 /\ un_ulp x = un_ulp x0 /\
    semadj x = semadj x0 /\ (un_semid x <> -1 -> (u ∉ list_id a) /\ x = x0);
  uf_list l ul' : uls !! l = Some ul' -> exists ul, undo_lists ns !! l = Some ul /\ refcnt ul' = refcnt ul /\ NoDup (list_proc ul') /\
    forall v, v ∈ list_proc ul' <-> v ∈ list_proc ul /\ v ∉ list_id a;
  uf_some l : is_Some (undo_lists ns !! l) -> is_Some (uls !! l)
}.

Lemma free_undos_freed p a ns us uls :
  ns_wf ns -> sem_sets ns !! p = Some a -> free_undos (list_id a) (sem_undos ns) (undo_lists ns) = (us, uls) -> undos_freed ns a us uls.
Proof.
  intros W Ha Ef. pose proof (nw_set _ W p a Ha) as O.
  pose proof (free_undos_spec (list_id a) (sem_undos ns) (undo_lists ns) (so_nodup _ _ O)) as Hfu.
  rewrite Ef in Hfu. destruct Hfu as (Hu1 & Hu2 & Hl).
  { intros u Hu. destruct (so_undo _ _ O u Hu) as (x & Hx & _). by eexists. }
  constructor; [done| | | |].
  - intros u x Hx. destruct (decide (u ∈ list_id a)) as [Hin|Hnin]; [rewrite (Hu2 u x Hin Hx)|rewrite Hu1 by done]; eauto.
  - intros u x Hx. destruct (decide (u ∈ list_id a)) as [Hin|Hnin].
    + destruct (so_undo _ _ O u Hin) as (x0 & Hx0 & _). rewrite (Hu2 u x0 Hin Hx0) in Hx. simplify_eq.
      exists x0. cbn. repeat (split; [done|]). done.
    + rewrite Hu1 in Hx by done. by exists x.
  - intros l ul' Hul'. specialize (Hl l). rewrite Hul' in Hl. destruct (undo_lists ns !! l) as [ul|] eqn:Eul; [|done].
    destruct Hl as (Er & Hnd & Hm). assert (procs ns l = list_proc ul) as Epr by (unfold procs; by rewrite Eul).
    pose proof (nw_procs_nodup _ W l) as Hnd0. rewrite Epr in Hnd0. exists ul. split; [done|]. split; [done|]. split; [by apply Hnd|].
    intros v. rewrite Hm. split; [|tauto]. intros [Hv Hn]. split; [done|]. intros Hin. apply Hn. split; [done|].
    destruct (nw_procs _ W l v) as (x & Hx & Hxl & _); [by rewrite Epr|]. eauto.
  - intros l [ul Hul]. specialize (Hl l). rewrite Hul in Hl. destruct (uls !! l); [by eexists|done].
Qed.

(** A set without sleepers and undo structures. *)
Lemma emptied_ok ns a :
  set_wf (state_of ns a) -> sem_pending a = [] -> list_id a = [] -> sem_nsems a = Z.of_nat (length (sem_base a)) -> set_ok ns a.
Proof.
  intros W Ep El En. constructor; [done| |done|done| | |].
  - unfold stable. cbn. by rewrite Ep.
  - rewrite El. constructor.
  - rewrite El. by intros u ?%not_elem_of_nil.
  - rewrite Ep. by intros q sq ?%not_elem_of_nil.
Qed.

Lemma freeary_ok p a ns :
  ns_wf ns -> sem_sets ns !! p = Some a -> deleted (sem_perm a) = false -> ns_wf (freeary_locked p a ns).1.
Proof.
  intros W Ha Hd. pose proof (nw_set _ W p a Ha) as O.
  destruct (freeary_eq p a ns W Ha) as (a1 & qs & us & uls & -> & Ef & W1 & Ep & El & Ens & Elen & Ho & Hi).
  destruct (free_undos_freed p a ns us uls W Ha Ef) as [Hu1 _ Hus Hl Hsome]. cbn [fst].
  set (a' := set_ipc_perm _ a1). set (ns' := set_lists _ _ _).
  assert (forall r b, sem_sets ns' !! r = Some b -> r = p /\ b = a' \/ r <> p /\ sem_sets ns !! r = Some b) as Hsets.
  { intros r b. cbn. rewrite lookup_insert_Some. intros [[-> ->]|[? ?]]; [by left|by right]. }
  assert (forall q, q ∉ sem_pending a -> sem_queues ns' !! q = sem_queues ns !! q) as Hq by apply Ho.
  assert (forall r b u, r <> p -> sem_sets ns !! r = Some b -> u ∈ list_id b -> u ∉ list_id a) as Hown.
  { intros r b u Hne Hb Hu Hu'. by apply Hne, (undo_owner ns r p b a u). }
  assert (forall r b q, r <> p -> sem_sets ns !! r = Some b -> q ∈ sem_pending b -> q ∉ sem_pending a) as Hpd.
  { intros r b q Hne Hb Hin Hin'. by apply Hne, (nw_disj _ W r p b a q). }
  assert (forall u x, us !! u = Some x -> Forall is_short (semadj x)) as Hshort.
  { intros u x Hx. destruct (Hus u x Hx) as (x0 & Hx0 & _ & -> & _). by apply (nw_short _ W u). }
  assert (forall l, NoDup (procs ns' l) /\ forall v, v ∈ procs ns' l <-> v ∈ procs ns l /\ v ∉ list_id a) as Hp.
  { intros l. unfold procs. cbn. destruct (uls !! l) as [ul'|] eqn:E; [destruct (Hl l ul' E) as (ul & -> & _ & Hm); exact Hm|].
    destruct (undo_lists ns !! l) eqn:E'; [|split; [constructor|set_solver]]. destruct (Hsome l) as [? ?]; [by eexists|congruence]. }
  constructor.
  - destruct (rmid_ok (sem_ids ns) (sem_sets ns) p a a' (nw_ids _ W) Ha Hd eq_refl) as [Wi _]. exact Wi.
  - intros r b [[-> ->]|[Hne Hb]]%Hsets.
    + apply emptied_ok; [|done|done|cbn; rewrite Ens, Elen; apply O].
      apply (set_wf_ext {| sma := a'; queues := qs; undos := us |}); [|done| |exact Hshort].
      * by apply (set_wf_values _ a' us W1); [..|apply W1|].
      * cbn. rewrite Ep. by intros q ?%not_elem_of_nil.
    + apply (set_ok_ext ns); [by apply (nw_set _ W r)| | |done].
      * intros q Hin. apply Hq. by apply (Hpd r b).
      * intros u Hin. cbn. apply Hu1. by apply (Hown r b).
  - intros r r' b b' q [[-> ->]|[Hne Hb]]%Hsets [[-> ->]|[Hne' Hb']]%Hsets; cbn; rewrite ?Ep;
      try (intros ?%not_elem_of_nil; done); try (intros _ ?%not_elem_of_nil; done).
    by apply (nw_disj _ W r r' b b').
  - intros u x Hx Hv. cbn in Hx. destruct (Hus u x Hx) as (x0 & Hx0 & _ & _ & Hs).
    destruct (Hs Hv) as [Hnin ->]. destruct (nw_undo _ W u x0 Hx0 Hv) as [(r & b & Hb & Hin) Hpr]. split; [|by apply Hp].
    exists r, b. split; [|done]. cbn. rewrite lookup_insert_ne; [done|]. intros <-. by simplify_eq.
  - intros l u [Hin0 Hnin]%Hp. cbn. rewrite Hu1 by done. by apply W.
  - intros l. apply Hp.
  - intros l u u' x x' [Hin Hn]%Hp [Hin' Hn']%Hp. cbn. rewrite !Hu1 by done. by apply (nw_unique _ W l).
  - intros t l Ht. cbn in *. by apply Hsome, (nw_task _ W t).
  - intros l ul' Hul'. cbn in *. destruct (Hl l ul' Hul') as (ul & Eul & -> & _). by apply W.
  - intros r b q sq u x [[-> ->]|[Hne Hb]]%Hsets; [cbn; rewrite Ep; by intros ?%not_elem_of_nil|].
    intros Hin Hsq Hqu Hx. rewrite Hq in Hsq by (by apply (Hpd r b)).
    assert (u ∉ list_id a) as Hna by (apply (Hown r b); [done|done|]; by apply (so_entry _ _ (nw_set _ W r b Hb) q sq)).
    cbn in Hx |- *. rewrite Hu1 in Hx by done. by apply (nw_sleeper _ W r b q sq u x).
  - intros q sq Hsq Hst. destruct (decide (q ∈ sem_pending a)) as [Hin|Hnin].
    + exfalso. destruct (Hi q Hin) as (_ & sq0 & _ & Hsq0 & _ & Hw & _). cbn in Hsq. simplify_eq. by rewrite Hst in Hw.
    + rewrite Hq in Hsq by done. destruct (nw_queue _ W q sq Hsq Hst) as (r & b & Hb & Hin). exists r, b.
      split; [|done]. cbn. rewrite lookup_insert_ne; [done|]. intros <-. by simplify_eq.
  - done.
  - by apply (keys_unique_change _ p a); [apply W|..].
Qed.

Lemma freeary_section k p a ns :
  ns_wf ns -> sem_sets ns !! p = Some a -> deleted (sem_perm a) = false ->
  section_ok k None None ns (freeary_locked p a ns).1 (freeary_locked p a ns).2.
Proof.
  intros W Ha Hd. pose proof (nw_set _ W p a Ha) as O. pose proof (freeary_ok p a ns W Ha Hd) as W'.
  destruct (freeary_eq p a ns W Ha) as (a1 & qs & us & uls & E & Ef & _ & Ep & _ & Ens & _ & Ho & Hi). rewrite E in *. clear E. cbn [fst snd].
  destruct (free_undos_freed p a ns us uls W Ha Ef) as [_ Hu _ Hl Hsome].
  constructor; [done|done|intros v x Hx _; by apply Hu| | | | | |apply (so_wf _ _ O)|].
  - intros r b Hb. cbn. destruct (decide (r = p)) as [->|]; [|rewrite lookup_insert_ne by done; eauto].
    rewrite lookup_insert_eq. simplify_eq. eexists. split; [reflexivity|]. cbn. by rewrite Ens.
  - intros l ul Hul Hz _. cbn. destruct (Hsome l) as [ul' Hul']; [eauto|]. rewrite Hul'. exists ul'. split; [done|].
    destruct (Hl l ul' Hul') as (ul0 & ? & Er & _ & Hm). simplify_eq. split; [lia|]. intros u Hin. by apply Hm.
  - intros q sq Hq _. cbn. destruct (decide (q ∈ sem_pending a)) as [Hin|Hnin]; [|rewrite Ho by done; eauto].
    destruct (Hi q Hin) as (sq0 & sq' & ? & Hsq' & Hs & _). simplify_eq. exists sq'. split; [done|]. split; [done|].
    intros Hst. by destruct (so_entry _ _ O q sq Hin Hq).
  - intros q sq' Hq _. cbn in Hq. destruct (decide (q ∈ sem_pending a)) as [Hin|Hnin]; [|rewrite Ho in Hq by done; eauto].
    destruct (Hi q Hin) as (sq0 & ? & ? & ? & _). eauto.
  - intros r b q. cbn. rewrite lookup_insert_Some. intros [[<- <-]|[_ Hb]]; [|eauto]. cbn. rewrite Ep. by intros ?%not_elem_of_nil.
  - intros q Hin. destruct (Hi q Hin) as (sq & sq' & Hsq & Hsq' & _ & Hw & Hc). exists sq, sq'. split; [done|].
    split; [by apply (so_entry _ _ O q sq)|]. split; [done|]. split; [done|]. unfold result_code. rewrite Hc. set_solver.
Qed.

(** ** semctl *)

Definition ctl_post (k : ptr) (ns : sem_ns I) (c : ctl_section) : Prop :=
  match c with
  | CtlDone _ _ ns' tasks => section_ok k None None ns ns' tasks
  | CtlUnlocked p nsems => exists a, sem_sets ns !! p = Some a /\ sem_nsems a = nsems
  | CtlBug => False
  end.

Lemma semctl_lock_ok t ok ns semid semnum cmd val :
  ns_wf ns -> 0 <= semid -> ctl_post (cur t) ns (semctl_lock lsm t ok ns semid semnum cmd val).
Proof.
  intros W Hid. unfold semctl_lock. pose proof (section_refl (cur t) None None ns W) as Hr.
  destruct (sem_lock_check ns semid) as [e|p] eqn:El; [done|].
  destruct (sem_lock_check_live ns semid p W Hid El) as (a & Ha & Hd & _). rewrite Ha.
  destruct (negb (ipcperms _ _ _ _ =? 0)); [done|]. destruct (negb (_ =? 0)); [done|].
  destruct (cmd =? GETALL); [destruct (_ >? _); [by exists a|unfold sem_getall; by destruct ok]|].
  destruct (cmd =? SETALL); [by exists a|]. destruct (_ || _) eqn:Er; [done|]. zbool.
  destruct (cmd =? GETVAL); [done|]. destruct (cmd =? GETPID); [done|].
  destruct (cmd =? GETNCNT); [done|]. destruct (cmd =? GETZCNT); [done|].
  destruct (cmd =? SETVAL); [|done]. destruct (_ || _) eqn:Ev; [done|]. zbool.
  destruct (sem_setval_ok t p a (Z.to_nat semnum) val ns W Ha Hd ltac:(lia)) as (ns' & tasks & -> & A). apply A.
Qed.

Lemma semctl_relock_ok t mem_ok ok p nsems cmd arg ns a :
  ns_wf ns -> sem_sets ns !! p = Some a -> sem_nsems a = nsems ->
  exists err out ns' tasks, semctl_relock t mem_ok ok p nsems cmd arg ns = CtlDone err out ns' tasks /\
    section_ok (cur t) None None ns ns' tasks.
Proof.
  intros W Ha Hns. unfold semctl_relock. rewrite Ha. pose proof (section_refl (cur t) None None ns W) as Hr.
  assert (forall e o, exists err out ns' tasks, CtlDone e o ns [] = CtlDone err out ns' tasks /\ section_ok (cur t) None None ns ns' tasks) as Hd
    by (intros e o; by exists e, o, ns, []).
  destruct (_ && negb mem_ok); [done|]. destruct (cmd =? GETALL); [destruct (deleted _); [done|unfold sem_getall; by destruct ok]|].
  destruct arg as [mem|]; [|done]. destruct (existsb _ _) eqn:Ex; [done|]. destruct (deleted (sem_perm a)) eqn:Ed; [done|].
  destruct (sem_setall_ok t p a (fun i => u16 (mem i)) nsems ns W Ha Ed) as (ns' & tasks & -> & A).
  { intros i Hlt. pose proof (wrapu_range 16 (mem i) ltac:(lia)) as Hw. unfold u16. split; [lia|].
    apply Z.nlt_ge. intros Hgt. assert (existsb (fun i => u16 (mem i) >? SEMVMX) (seq 0 (Z.to_nat nsems)) = true) as Ht.
    { apply existsb_exists. exists i. split; [apply in_seq; lia|]. unfold u16. lia. }
    congruence. }
  exists 0, OutNone, ns', tasks. split; [done|apply A].
Qed.

Lemma semctl_main_ok t yield mem_ok ok ns semid semnum cmd val arg :
  ns_wf ns -> 0 <= semid -> (forall ns0, ns_wf ns0 -> interferes t ns0 (yield ns0)) ->
  exists r out ns', semctl_main lsm t yield mem_ok ok ns semid semnum cmd val arg = Some (r, out, ns') /\ ns_wf ns'.
Proof.
  intros W Hid Hy. unfold semctl_main. pose proof (semctl_lock_ok t ok ns semid semnum cmd val W Hid) as Hl.
  destruct (semctl_lock lsm t ok ns semid semnum cmd val) as [e o ns' tasks|p nsems|]; cbn in Hl; [|destruct Hl as (a & Ha & Hn)|done].
  - eexists e, o, _. split; [reflexivity|]. by eapply section_wake.
  - pose proof (Hy ns W) as Hi. destruct (if_set _ _ _ Hi p a Ha) as (a2 & Ha2 & _ & En).
    destruct (semctl_relock_ok t mem_ok ok p nsems cmd arg (yield ns) a2 (if_wf _ _ _ Hi) Ha2 ltac:(congruence)) as (e & o & ns' & tasks & -> & A).
    eexists e, o, _. split; [reflexivity|]. by eapply section_wake.
Qed.

Lemma semctl_down_section t ns semid cmd buf :
  ns_wf ns -> 0 <= semid ->
  let '(_, ns', tasks) := semctl_down_locked lsm t ns semid cmd buf in section_ok (cur t) None None ns ns' tasks.
Proof.
  intros W Hid. unfold semctl_down_locked. pose proof (section_refl (cur t) None None ns W) as Hr. case_if; [done|].
  unfold ipcctl_pre_down. destruct (ipc_lock_check _ _ _) as [e|p] eqn:El; [done|].
  destruct (sem_lock_check_live ns semid p W Hid El) as (a & Ha & Hd & _). rewrite Ha.
  destruct (_ || _); [|done]. rewrite Ha. destruct (negb _); [done|].
  destruct (cmd =? IPC_RMID); [by apply freeary_section|]. destruct (cmd =? IPC_SET); [|done].
  destruct buf as [b|]; [|done]. pose proof (nw_set _ W p a Ha) as O.
  apply section_same; [|done|done|done| | |intros; eauto].
  - apply (ns_wf_local ns _ p a (set_ctime (now t) (set_ipc_perm (ipc_update_perm b (sem_perm a)) a))); try done; cbn.
    + intros p2 a2 q Hne Ha2 Hq. split; [|done]. intros Hin. by apply Hne, (nw_disj _ W p2 p a2 a q).
    + constructor; cbn; try apply O. by apply (set_wf_values (state_of ns a)); [apply O|..|apply (so_wf _ _ O)|apply W].
    + intros q sq u x Hq Hsq Hu Hx. by apply (nw_sleeper _ W p a q sq u x).
  - intros r c Hc. cbn. destruct (decide (r = p)) as [->|]; [|rewrite lookup_insert_ne by done; eauto].
    rewrite lookup_insert_eq. simplify_eq. eauto.
  - intros r c q. cbn. rewrite lookup_insert_Some. intros [[<- <-]|[_ Hc]] Hq; eauto.
Qed.

Lemma semctl_down_ok t ns semid cmd buf :
  ns_wf ns -> 0 <= semid -> ns_wf (semctl_down lsm t ns semid cmd buf).2.
Proof.
  intros W Hid. unfold semctl_down. pose proof (semctl_down_section t ns semid cmd buf W Hid) as A.
  destruct (semctl_down_locked lsm t ns semid cmd buf) as [[e ns'] tasks]. by eapply section_wake.
Qed.

Lemma semctl_ok t yield ou og mem_ok ok ns semid semnum cmd val arg buf :
  ns_wf ns -> (forall ns0, ns_wf ns0 -> interferes t ns0 (yield ns0)) ->
  exists r out ns', semctl lsm t yield ou og mem_ok ok ns semid semnum cmd val arg buf = Some (r, out, ns') /\ ns_wf ns'.
Proof.
  intros W Hy. unfold semctl. destruct (semid <? 0) eqn:E; [by eauto|]. zbool.
  destruct (ipc_parse_version cmd) as [version cmd'].
  destruct (bool_decide _); [destruct (semctl_nolock _ _ _ _ _ _ _ _ _); by eauto|].
  destruct (bool_decide _); [by apply semctl_main_ok|].
  destruct (bool_decide _); [|by eauto].
  pose proof (semctl_down_ok t ns semid cmd' buf W E) as Wd.
  destruct (semctl_down lsm t ns semid cmd' buf) as [r ns']. by eauto.
Qed.

(** ** Reachable namespaces *)

(** Everything the system calls, [clone] and [exit] can do to a namespace; a
    call that gives up its lock runs against any interference. *)
Inductive sem_reach : sem_ns I -> Prop :=
| sr_init : sem_reach sem_init_ns
| sr_semget t alloc m ns key nsems flg r ns' :
    sem_reach ns -> alloc_ok alloc ->
    semget lsm t alloc [m] ns key nsems flg = Some (r, ns') -> sem_reach ns'
| sr_semctl t yield ou og mem_ok ok ns semid semnum cmd val arg buf r out ns' :
    sem_reach ns -> (forall ns0, ns_wf ns0 -> interferes t ns0 (yield ns0)) ->
    semctl lsm t yield ou og mem_ok ok ns semid semnum cmd val arg buf = Some (r, out, ns') ->
    sem_reach ns'
| sr_semop t yield1 yield2 mem_ok new_list new q ns semid tsops nsops timeout ns' :
    sem_reach ns -> (forall l, new_list = Some l -> undo_lists ns !! l = None) ->
    (forall ns0, ns_wf ns0 -> interferes t ns0 (yield1 ns0)) ->
    (forall ns0, ns_wf ns0 -> interferes t ns0 (yield2 ns0)) ->
    alloc_undo_ok new -> sem_queues ns !! q = None ->
    (forall ns0, sem_queues ns0 !! q = None -> sem_queues (yield1 ns0) !! q = None) ->
    (forall ns0, sem_queues ns0 !! q = None -> sem_queues (yield2 ns0) !! q = None) ->
    (forall mem i, tsops = Some mem -> is_short (sem_op (mem i))) ->
    match semtimedop lsm t yield1 yield2 mem_ok new_list new q ns semid tsops nsops timeout with
    | SemopDone _ ns1 | SemopSleep ns1 => ns1 = ns'
    | SemopBug => False
    end -> sem_reach ns'
| sr_resume q p semid timed_out ns err ns' :
    sem_reach ns -> sleeps q p semid ns -> queue_status ns q <> IN_WAKEUP ->
    semtimedop_resume q semid timed_out (fun ns => ns) ns [] [] = Some (err, ns') -> sem_reach ns'
| sr_clone t new flags tsk ns :
    sem_reach ns -> (forall ulp, new = Some ulp -> undo_lists ns !! ulp = None) ->
    task_undo ns !! tsk = None -> tsk <> cur t -> sem_reach (copy_semundo t new flags tsk ns).2
| sr_exit t yield stale tsk ns ns' :
    sem_reach ns -> (forall ulp ns0, ns_wf ns0 -> exit_interferes ulp tsk ns0 (yield ns0)) ->
    (forall p a q sq, sem_sets ns !! p = Some a -> q ∈ sem_pending a -> sem_queues ns !! q = Some sq ->
       q_sleeper sq <> tsk) ->
    exit_sem t yield stale tsk ns = Some ns' -> sem_reach ns'.

Lemma sem_init_wf : ns_wf sem_init_ns.
Proof.
  assert (forall {A} (x : A) (k : ptr), (∅ : gmap ptr A) !! k = Some x -> False) as He
    by (intros A x k; by rewrite lookup_empty).
  constructor; cbn.
  - apply ids_wf_init.
  - intros p a Ha. by destruct (He _ _ _ Ha).
  - intros p p' a a' q Ha. by destruct (He _ _ _ Ha).
  - intros u x Hx. by destruct (He _ _ _ Hx).
  - intros l u. unfold procs. cbn. rewrite lookup_empty. by intros ?%not_elem_of_nil.
  - intros l. unfold procs. cbn. rewrite lookup_empty. constructor.
  - intros l u u' x x' _ _ Hx. by destruct (He _ _ _ Hx).
  - intros t l Ht. by destruct (He _ _ _ Ht).
  - intros l ul Hl. by destruct (He _ _ _ Hl).
  - intros p a q sq u x Ha. by destruct (He _ _ _ Ha).
  - intros q sq Hq. by destruct (He _ _ _ Hq).
  - intros u x Hx. by destruct (He _ _ _ Hx).
  - intros p p' a a' Ha. by destruct (He _ _ _ Ha).
Qed.

Lemma reach_wf ns : lsm_ok -> sem_reach ns -> ns_wf ns.
Proof.
  intros HL. induction 1 as [|t alloc m ns key nsems flg r ns' _ W Hal E
    |t yield ou og mem_ok ok ns semid semnum cmd val arg buf r out ns' _ W Hy E
    |t yield1 yield2 mem_ok new_list new q ns semid tsops nsops timeout ns' _ W Hnl Hy1 Hy2 Hnew Hq Hq1 Hq2 Hm E
    |q p semid timed_out ns err ns' _ W S Hst E|t new flags tsk ns _ W Hnew Ht Hne|t yield stale tsk ns ns' _ W Hy Hs E].
  - apply sem_init_wf.
  - destruct (semget_ok t alloc m ns key nsems flg W HL Hal) as (r' & ns1 & E1 & A & _). simplify_eq. apply A.
  - destruct (semctl_ok t yield ou og mem_ok ok ns semid semnum cmd val arg buf W Hy) as (r' & out' & ns1 & E1 & W1).
    by simplify_eq.
  - pose proof (semtimedop_ok t yield1 yield2 mem_ok new_list new q ns semid tsops nsops timeout W Hnl Hy1 Hy2 Hnew Hq Hq1 Hq2 Hm) as Hp.
    destruct (semtimedop _ _ _ _ _ _ _ _ _ _ _ _ _); by subst.
  - destruct (resume_ok q p semid timed_out (fun ns => ns) ns [] [] S (Forall_nil_2 _) (Forall_nil_2 _)) as (e & ns1 & E1 & W1 & _).
    + done.
    + apply Forall_nil_2.
    + by left.
    + intros ns0 _ Hs0. left. by rewrite Hs0.
    + by simplify_eq.
  - by apply copy_semundo_ok.
  - destruct (exit_sem_ok t yield stale tsk ns W Hs Hy) as (ns1 & E1 & W1 & _). by simplify_eq.
Qed.
End Inv.

(** ** Properties *)

(** C25. [semctl] always returns: for every command, id, argument and
    interference no BUG_ON of the wake-up code fires, and the namespace it
    leaves satisfies the invariant: values in range, queues consistent, undo
    structures linked to their set and process. *)
Theorem semctl_total {I} `{IdrLaws I} (lsm : sem_lsm) t yield ou og mem_ok ok (ns : sem_ns I)
    semid semnum cmd val arg buf :
  lsm_ok lsm -> sem_reach lsm ns -> (forall ns0, ns_wf ns0 -> interferes t ns0 (yield ns0)) ->
  exists r out ns', semctl lsm t yield ou og mem_ok ok ns semid semnum cmd val arg buf = Some (r, out, ns') /\
    ns_wf ns'.
Proof. intros HL Hr Hy. apply semctl_ok; [by eapply reach_wf|done]. Qed.

(** C24. A semop system call never trips a BUG_ON: it answers a result or goes
    to sleep, and either way leaves a namespace that satisfies the invariant. *)
Theorem semtimedop_total {I} `{IdrLaws I} (lsm : sem_lsm) t yield1 yield2 mem_ok new_list new q
    (ns : sem_ns I) semid tsops nsops timeout :
  lsm_ok lsm -> sem_reach lsm ns -> (forall l, new_list = Some l -> undo_lists ns !! l = None) ->
  (forall ns0, ns_wf ns0 -> interferes t ns0 (yield1 ns0)) ->
  (forall ns0, ns_wf ns0 -> interferes t ns0 (yield2 ns0)) ->
  alloc_undo_ok new -> sem_queues ns !! q = None ->
  (forall ns0, sem_queues ns0 !! q = None -> sem_queues (yield1 ns0) !! q = None) ->
  (forall ns0, sem_queues ns0 !! q = None -> sem_queues (yield2 ns0) !! q = None) ->
  (forall mem i, tsops = Some mem -> is_short (sem_op (mem i))) ->
  match semtimedop lsm t yield1 yield2 mem_ok new_list new q ns semid tsops nsops timeout with
  | SemopDone _ ns' | SemopSleep ns' => ns_wf ns'
  | SemopBug => False
  end.
Proof. intros HL Hr. intros. by apply semtimedop_ok; [eapply reach_wf|..]. Qed.

(** The lockless end of a sleep: once the entry of the task has a value
    other than IN_WAKEUP, the call returns. It returns the result its waker
    stored, or, if it found none under the lock, unlinks its entry and returns
    -EINTR or -EAGAIN (or -EIDRM when the set is gone); in every case nothing
    of the entry remains in the namespace. *)
Theorem semtimedop_resume_total {I} `{IdrLaws I} q p semid timed_out yield (ns : sem_ns I) later1 later2 :
  sleeps q p semid ns -> Forall (sleeps q p semid) later1 -> Forall (sleeps q p semid) later2 ->
  (forall ns0, sleeps q p semid ns0 -> sleeps q p semid (yield ns0)) ->
  Forall (fun v => queue_status v q <> - EINTR) (later1 ++ later2) ->
  Exists (fun v => queue_status v q <> IN_WAKEUP) (ns :: later1) ->
  (forall ns0, sleeps q p semid ns0 -> queue_status ns0 q = - EINTR ->
     Exists (fun v => queue_status v q <> IN_WAKEUP) (yield ns0 :: later2)) ->
  exists err ns', semtimedop_resume q semid timed_out yield ns later1 later2 = Some (err, ns') /\
    ns_wf ns' /\ sem_queues ns' !! q = None /\
    ((exists v, err = queue_status v q /\ err <> - EINTR /\ ns' = drop_queue q v) \/
     err = (if timed_out then - EAGAIN else - EINTR) \/ err = - EIDRM).
Proof. apply resume_ok. Qed.

(** [semget] always answers, and a non-negative answer is the id of a live
    set with the requested key, the only one with that key unless it is
    IPC_PRIVATE. *)
Theorem semget_unique {I} `{IdrLaws I} (lsm : sem_lsm) t alloc m (ns : sem_ns I) key nsems flg :
  lsm_ok lsm -> sem_reach lsm ns -> alloc_ok alloc ->
  exists r ns', semget lsm t alloc [m] ns key nsems flg = Some (r, ns') /\ ns_wf ns' /\
    (0 <= r -> exists p a, sem_lock_check ns' r = inr p /\ sem_sets ns' !! p = Some a /\
       deleted (sem_perm a) = false /\ perm_key (sem_perm a) = key /\
       (key <> IPC_PRIVATE -> forall p' a', sem_sets ns' !! p' = Some a' -> deleted (sem_perm a') = false ->
          perm_key (sem_perm a') = key -> p' = p)).
Proof.
  intros HL Hr Hal.
  destruct (semget_ok lsm t alloc m ns key nsems flg (reach_wf lsm ns HL Hr) HL Hal) as (r & ns' & E & A & Ha).
  pose proof (sc_wf _ _ _ _ _ _ A) as W.
  exists r, ns'. split; [done|]. split; [done|]. intros Hr0. destruct (Ha Hr0) as (p & a & Hl & Hp & Hd & Hk).
  exists p, a. repeat (split; [done|]). intros Hne p' a' Hp' Hd' Hk'. 
  refine (nw_keys _ W p' p a' a Hp' Hp Hd' Hd _ _); cbn in *; congruence.
Qed.

(** The exit of a task that does not sleep terminates and keeps the
    invariant; the task has no undo list afterwards, and the list it was the
    last user of is gone after one pass over its structures, with no sleeper
    left that refers to one of them. *)
Theorem exit_sem_total {I} `{IdrLaws I} (lsm : sem_lsm) t yield stale tsk (ns : sem_ns I) :
  lsm_ok lsm -> sem_reach lsm ns -> (forall ulp ns0, ns_wf ns0 -> exit_interferes ulp tsk ns0 (yield ns0)) ->
  (forall p a q sq, sem_sets ns !! p = Some a -> q ∈ sem_pending a -> sem_queues ns !! q = Some sq ->
     q_sleeper sq <> tsk) ->
  exists ns', exit_sem t yield stale tsk ns = Some ns' /\ ns_wf ns' /\ task_undo ns' !! tsk = None /\
    (forall ulp ul, task_undo ns !! tsk = Some ulp -> undo_lists ns !! ulp = Some ul -> refcnt ul = 1 ->
       undo_lists ns' !! ulp = None).
Proof. intros HL Hr Hy Hs. by apply exit_sem_ok; [eapply reach_wf|..]. Qed.

(** What exit adds to a semaphore is the registered adjustment, clamped to
    0 and SEMVMX; semaphores without one keep their value. *)
Theorem adjust_sems_clamps pid adj b i v :
  Forall (fun v => 0 <= v <= SEMVMX) (vals b) -> vals b !! i = Some v ->
  vals (adjust_sems pid (Z.of_nat (length b)) adj b) !! i = Some (Z.min SEMVMX (Z.max 0 (v + adj_at adj i))).
Proof.
  intros Hr Hv. rewrite Forall_lookup in Hr. specialize (Hr i v Hv). unfold vals in *.
  unfold adjust_sems. rewrite list_lookup_fmap, list_lookup_imap. rewrite list_lookup_fmap in Hv.
  destruct (b !! i) as [s|] eqn:Es; [|done]. cbn in *. simplify_eq. apply lookup_lt_Some in Es as Hlt.
  destruct ((_ <? _) && _) eqn:E; zbool; cbn; f_equal.
  - unfold cap_semval. repeat case_if; zbool; lia.
  - destruct E as [E|E]; zbool; [lia|]. rewrite E. lia.
Qed.

(** A namespace with one set of one semaphore, made by [semget], on which task
    2 sleeps to decrement it. *)
Module SemInvDemo.
Import RefIdr.

Definition lsm0 : sem_lsm :=
  SemLsm (fun _ _ => 0) (fun _ => 0) (fun _ _ => 0) (fun _ _ => 0) (fun _ _ _ => 0).
Definition root : cred := Cred 0 0 (fun _ => false) (fun _ => true).
Definition t1 : task := Task 1 root 100 1000.
Definition t2 : task := Task 2 root 200 1001.
Definition alloc (ns : sem_ns (gmap Z ptr)) : option ptr := Some (fresh (dom (sem_sets ns))).
Definition no_undo (ns : sem_ns (gmap Z ptr)) : option ptr := Some (fresh (dom (sem_undos ns))).
Definition same (ns : sem_ns (gmap Z ptr)) := ns.
Definition ns0 : sem_ns (gmap Z ptr) := sem_init_ns.
Definition ns1 : sem_ns (gmap Z ptr) :=
  (default (0, ns0) (semget lsm0 t1 alloc [true] ns0 7 1 (Z.lor IPC_CREAT 384))).2.
Definition down : nat -> sembuf := fun _ => Sembuf 0 (-1) SEM_UNDO.
Definition ns2 : sem_ns (gmap Z ptr) :=
  match semtimedop lsm0 t2 same same true (Some 3%nat) no_undo 5%nat ns1 0 (Some down) 1 None with
  | SemopDone _ ns | SemopSleep ns => ns
  | SemopBug => ns0
  end.

Lemma lsm0_ok : lsm_ok lsm0.
Proof. split; intros; cbn; unfold EAGAIN; lia. Qed.

Lemma alloc_fresh : alloc_ok alloc.
Proof. intros ns p [= <-]. apply not_elem_of_dom, is_fresh. Qed.

Lemma no_undo_fresh : alloc_undo_ok no_undo.
Proof. intros ns u [= <-]. apply not_elem_of_dom, is_fresh. Qed.

Lemma same_ok t ns : ns_wf ns -> interferes t ns (same ns).
Proof. intros W. constructor; [done|done| |]; intros; eexists; eauto. Qed.

Lemma sem_reach1 : sem_reach lsm0 ns1.
Proof.
  refine (sr_semget lsm0 t1 alloc true ns0 7 1 (Z.lor IPC_CREAT 384) 0 ns1 (sr_init lsm0) alloc_fresh _).
  reflexivity.
Qed.

Lemma sem_reach2 : sem_reach lsm0 ns2.
Proof.
  refine (sr_semop lsm0 t2 same same true (Some 3%nat) no_undo 5%nat ns1 0 (Some down) 1 None ns2 sem_reach1
    _ (same_ok t2) (same_ok t2) no_undo_fresh _ _ _ _ _); [|reflexivity|done|done| |reflexivity].
  - intros l Hl. assert (l = 3%nat) as -> by congruence. reflexivity.
  - intros mem i Hm. assert (mem = down) as -> by congruence. cbn. unfold is_short. lia.
Qed.

Lemma semctl_total_witness :
  exists r out ns', semctl lsm0 t1 same 65534 65534 true true ns2 0 0 SETVAL 1 None None = Some (r, out, ns') /\
    ns_wf ns'.
Proof. exact (semctl_total lsm0 t1 same 65534 65534 true true ns2 0 0 SETVAL 1 None None lsm0_ok sem_reach2 (same_ok t1)). Defined.

Lemma semtimedop_total_witness :
  match semtimedop lsm0 t1 same same true (Some 4%nat) no_undo 6%nat ns2 0 (Some (fun _ => Sembuf 0 1 0)) 1 None with
  | SemopDone _ ns' | SemopSleep ns' => ns_wf ns'
  | SemopBug => False
  end.
Proof.
  refine (semtimedop_total lsm0 t1 same same true (Some 4%nat) no_undo 6%nat ns2 0 (Some (fun _ => Sembuf 0 1 0)) 1 None
    lsm0_ok sem_reach2 _ (same_ok t1) (same_ok t1) no_undo_fresh _ _ _ _); [|reflexivity|done|done|].
  - intros l Hl. assert (l = 4%nat) as -> by congruence. reflexivity.
  - intros mem i Hm. assert (mem = fun _ => Sembuf 0 1 0) as -> by congruence. cbn. unfold is_short. lia.
Defined.

Lemma semtimedop_resume_total_witness :
  exists err ns', semtimedop_resume 5%nat 0 true same ns2 [] [] = Some (err, ns') /\
    ns_wf ns' /\ sem_queues ns' !! 5%nat = None /\
    ((exists v, err = queue_status v 5%nat /\ err <> - EINTR /\ ns' = drop_queue 5%nat v) \/
     err = - EAGAIN \/ err = - EIDRM).
Proof.
  refine (semtimedop_resume_total 5%nat 0%nat 0 true same ns2 [] [] _ _ _ _ _ _ _).
  - constructor; [exact (reach_wf lsm0 ns2 lsm0_ok sem_reach2)|by eexists|]. intros _. eexists. split; [reflexivity|].
    split; [left|reflexivity].
  - constructor.
  - constructor.
  - done.
  - constructor.
  - by left.
  - intros v _ Hv. left. unfold same. by rewrite Hv.
Defined.

Lemma semget_unique_witness :
  exists r ns', semget lsm0 t1 alloc [true] ns2 7 1 0 = Some (r, ns') /\ ns_wf ns' /\
    (0 <= r -> exists p a, sem_lock_check ns' r = inr p /\ sem_sets ns' !! p = Some a /\
       deleted (sem_perm a) = false /\ perm_key (sem_perm a) = 7 /\
       (7 <> IPC_PRIVATE -> forall p' a', sem_sets ns' !! p' = Some a' -> deleted (sem_perm a') = false ->
          perm_key (sem_perm a') = 7 -> p' = p)).
Proof. exact (semget_unique lsm0 t1 alloc true ns2 7 1 0 lsm0_ok sem_reach2 alloc_fresh). Defined.

Lemma exit_sem_total_witness :
  exists ns', exit_sem t1 same (fun _ => 7) 1%nat ns2 = Some ns' /\ ns_wf ns' /\ task_undo ns' !! 1%nat = None /\
    (forall ulp ul, task_undo ns2 !! 1%nat = Some ulp -> undo_lists ns2 !! ulp = Some ul -> refcnt ul = 1 ->
       undo_lists ns' !! ulp = None).
Proof.
  refine (exit_sem_total lsm0 t1 same (fun _ => 7) 1%nat ns2 lsm0_ok sem_reach2 _ _); [intros ulp ns W; constructor; [done|done|eauto|eauto]|].
  intros p a q sq _ _. assert (sem_queues ns2 = {[ 5%nat := default (SemDemo.entry 1) (sem_queues ns2 !! 5%nat) ]}) as -> by reflexivity.
  intros [_ <-]%lookup_singleton_Some. vm_compute. congruence.
Defined.
End SemInvDemo.

Lemma adjust_sems_clamps_witness :
  vals (adjust_sems 9 1 [5] [Sem 32766 0 []]) !! 0%nat = Some (Z.min SEMVMX (Z.max 0 (32766 + adj_at [5] 0))).
Proof.
  apply (adjust_sems_clamps 9 [5] [Sem 32766 0 []] 0%nat 32766); [|reflexivity].
  constructor; [cbn; unfold SEMVMX; lia|constructor].
Defined.
