(* ===== verification/SemConc.v ===== *)
(** * SemConc: tasks running against each other on one namespace of ipc/sem.c

    The system calls, [clone] and [exit] of SemCtl.v are cut into their
    sections: what runs from taking a lock to dropping it is one action of the
    system, and so is every wake-up, every read of the own queue entry and every
    choice [exit_sem] makes without a lock. Between two actions of a task any
    other task may run. A task that is inside a call has a [pc] that says where
    it stands and holds its local variables; a task without one is in user mode.

    Atomic besides: [exit_pick], which reads the first undo structure and its set id,
    and [semget], whose preload of the identifiers is not a step of its own. A
    task that spins on its entry with the lock of the set held does not keep the
    others from running, which only adds behaviour.

    The invariant [sys_ok] ties the entries of the namespace to the tasks that
    sleep on them and to those that have to wake them up. It gives the main
    theorem, that no wake-up is lost, and that no action runs into a BUG_ON. *)

From S2P Require Import Prelude IpcUtil SemOp SemCtl SemInv.

(** ** The system *)

(** Where a task stands. [Waking] holds the tasks it has still to wake up and
    the undo list it goes on with, [None] when the call returns after it. *)
Inductive pc :=
| CtlWait (cmd : Z) (p : ptr) (nsems : Z)
| UndoSize (c : semop_call) (ulp : ptr)
| UndoAttach (c : semop_call) (ulp p : ptr) (nsems : Z)
| SemopLock (c : semop_call) (un : option ptr)
| Asleep (semid : Z) (q : ptr)
| Relock (semid : Z) (q : ptr)
| Spin (q : ptr)
| Waking (l : list ptr) (next : option ptr)
| ExitNext (ulp : ptr)
| ExitLock (ulp un : ptr) (semid : Z).

(** The queue entry on the stack of the task. *)
Definition pc_entry (c : option pc) : option ptr :=
  match c with
  | Some (Asleep _ q) | Some (Relock _ q) | Some (Spin q) => Some q
  | _ => None
  end.

(** The undo list it is taking apart. *)
Definition pc_exit (c : option pc) : option ptr :=
  match c with
  | Some (Waking _ (Some ulp)) | Some (ExitNext ulp) | Some (ExitLock ulp _ _) => Some ulp
  | _ => None
  end.

Definition pc_waking (c : option pc) : list ptr :=
  match c with Some (Waking l _) => l | _ => [] end.

Section Conc.
Context {I : Type} `{IdrOps I}.
Context (lsm : sem_lsm).

Record system := Sys { sys_ns : sem_ns I; sys_pc : gmap ptr pc }.

Definition goto (k : ptr) (c : option pc) (ns : sem_ns I) (pcs : gmap ptr pc) : system :=
  Sys ns (partial_alter (fun _ => c) k pcs).

(** The next section of a task, with what its environment decides: the
    allocations, user memory, a signal or timeout, the value of freed memory. *)
Inductive action :=
| DoSemget (alloc : sem_ns I -> option ptr) (mem : bool) (key nsems semflg : Z)
| DoSemctl (ok : bool) (semid semnum cmd val : Z) (buf : option ipc64_perm)
| DoCtlRelock (mem_ok ok : bool) (arg : option (nat -> Z))
| DoSemop (mem_ok : bool) (new_list : option ptr) (semid : Z) (tsops : option (nat -> sembuf)) (nsops : Z)
    (timeout : option (option (Z * Z)))
| DoUndoSize
| DoUndoAttach (new : option ptr)
| DoSemopLock (q : ptr)
| DoAwake
| DoRelock
| DoSpin
| DoWake
| DoClone (new_list : option ptr) (clone_flags : Z) (tsk : ptr)
| DoExit
| DoExitNext
| DoExitLock (stale : Z).

(** [Wait]: the task is elsewhere, or spins. *)
Inductive outcome := Next (s : system) | Wait | Bug.

(** [semctl] up to the place where it drops its lock. *)
Definition ctl_start (t : task) (ok : bool) (semid semnum cmd val : Z) (buf : option ipc64_perm)
    (ns : sem_ns I) (pcs : gmap ptr pc) : outcome :=
  if semid <? 0 then Next (Sys ns pcs)
  else
    let '(_, cmd) := ipc_parse_version cmd in
    if bool_decide (cmd ∈ [GETALL; GETVAL; GETPID; GETNCNT; GETZCNT; SETVAL; SETALL]) then
      match semctl_lock lsm t ok ns semid semnum cmd val with
      | CtlDone _ _ ns tasks => Next (goto (cur t) (Some (Waking tasks None)) ns pcs)
      | CtlUnlocked p nsems => Next (goto (cur t) (Some (CtlWait cmd p nsems)) ns pcs)
      | CtlBug => Bug
      end
    else if bool_decide (cmd ∈ [IPC_RMID; IPC_SET]) then
      let '(_, ns, tasks) := semctl_down_locked lsm t ns semid cmd buf in
      Next (goto (cur t) (Some (Waking tasks None)) ns pcs)
    else Next (Sys ns pcs).

(** [semtimedop] up to the first place where it holds no lock. *)
Definition semop_start (t : task) (mem_ok : bool) (new_list : option ptr) (semid : Z)
    (tsops : option (nat -> sembuf)) (nsops : Z) (timeout : option (option (Z * Z)))
    (ns : sem_ns I) (pcs : gmap ptr pc) : outcome :=
  match semop_args mem_ok ns semid tsops nsops timeout with
  | inl _ => Next (Sys ns pcs)
  | inr (c, false) => Next (goto (cur t) (Some (SemopLock c None)) ns pcs)
  | inr (c, true) =>
      let '(r, ns) := find_undo t new_list semid ns in
      Next (goto (cur t)
        (match r with
         | inl _ => None
         | inr (_, Some un) => Some (SemopLock c (Some un))
         | inr (ulp, None) => Some (UndoSize c ulp)
         end) ns pcs)
  end.

(** One section of [t]. *)
Definition sem_run (t : task) (a : action) (s : system) : outcome :=
  let '(Sys ns pcs) := s in
  let go c ns := Next (goto (cur t) c ns pcs) in
  match a, pcs !! cur t with
  | DoSemget alloc mem key nsems semflg, None =>
      match semget lsm t alloc [mem] ns key nsems semflg with
      | Some (_, ns) => Next (Sys ns pcs)
      | None => Bug
      end
  | DoSemctl ok semid semnum cmd val buf, None => ctl_start t ok semid semnum cmd val buf ns pcs
  | DoCtlRelock mem_ok ok arg, Some (CtlWait cmd p nsems) =>
      match semctl_relock t mem_ok ok p nsems cmd arg ns with
      | CtlDone _ _ ns tasks => go (Some (Waking tasks None)) ns
      | _ => Bug
      end
  | DoSemop mem_ok new_list semid tsops nsops timeout, None =>
      semop_start t mem_ok new_list semid tsops nsops timeout ns pcs
  | DoUndoSize, Some (UndoSize c ulp) =>
      match undo_size ns (c_semid c) with
      | inl _ => go None ns
      | inr (p, nsems) => go (Some (UndoAttach c ulp p nsems)) ns
      end
  | DoUndoAttach new, Some (UndoAttach c ulp p nsems) =>
      match attach_undo p nsems ulp new (c_semid c) ns with
      | (inl _, ns) => go None ns
      | (inr un, ns) => go (Some (SemopLock c (Some un))) ns
      end
  | DoSemopLock q, Some (SemopLock c un) =>
      match semop_lock lsm t q c un ns with
      | (SemopDone _ ns, tasks) => go (Some (Waking tasks None)) ns
      | (SemopSleep ns, _) => go (Some (Asleep (c_semid c) q)) ns
      | (SemopBug, _) => Bug
      end
  | DoAwake, Some (Asleep semid q) =>
      if queue_status ns q =? IN_WAKEUP then Wait
      else if queue_status ns q =? - EINTR then go (Some (Relock semid q)) ns
      else go None (drop_queue q ns)
  | DoRelock, Some (Relock semid q) =>
      match sem_lock ns semid with
      | inl _ => go None (drop_queue q ns)
      | inr p =>
          if queue_status ns q =? IN_WAKEUP then go (Some (Spin q)) ns
          else if queue_status ns q =? - EINTR then
            match abandon_queue q p ns with Some ns => go None ns | None => Bug end
          else go None (drop_queue q ns)
      end
  | DoSpin, Some (Spin q) => if queue_status ns q =? IN_WAKEUP then Wait else go None (drop_queue q ns)
  | DoWake, Some (Waking l next) =>
      match l with
      | q :: l => go (Some (Waking l next)) (do_wake_ups [q] ns)
      | [] => go (ExitNext <$> next) ns
      end
  | DoClone new_list clone_flags tsk, None => Next (Sys (copy_semundo t new_list clone_flags tsk ns).2 pcs)
  | DoExit, None => let '(ulp, ns) := exit_start (cur t) ns in go (ExitNext <$> ulp) ns
  | DoExitNext, Some (ExitNext ulp) =>
      match exit_pick ulp ns with
      | None => go None (exit_free ulp ns)
      | Some (un, semid) => go (Some (ExitLock ulp un semid)) ns
      end
  | DoExitLock stale, Some (ExitLock ulp un semid) =>
      match exit_round t ulp un semid stale ns with
      | Some (ns, tasks) => go (Some (Waking tasks (Some ulp))) ns
      | None => Bug
      end
  | _, _ => Wait
  end.

(** What the environment owes an action: an allocation returns memory that is not
    in use, a child is new, the operations in user memory are shorts. For the
    entry on the stack of [semtimedop] memory in use includes an entry that a
    waker has still on its list. *)
Definition action_ok (t : task) (a : action) (s : system) : Prop :=
  let ns := sys_ns s in
  let pcs := sys_pc s in
  match a with
  | DoSemget alloc _ _ _ _ => alloc_ok alloc
  | DoSemop _ new_list _ tsops _ _ =>
      (forall l, new_list = Some l -> undo_lists ns !! l = None) /\
      (forall mem i, tsops = Some mem -> is_short (sem_op (mem i)))
  | DoUndoAttach new => forall u, new = Some u -> sem_undos ns !! u = None
  | DoSemopLock q => sem_queues ns !! q = None /\ forall k, q ∉ pc_waking (pcs !! k)
  | DoClone new_list _ tsk =>
      (forall l, new_list = Some l -> undo_lists ns !! l = None) /\
      tsk <> cur t /\ task_undo ns !! tsk = None
  | _ => True
  end.

Definition sys_init : system := Sys sem_init_ns ∅.

(** A schedule: which task runs its next section, and with what. *)
Fixpoint sem_runs (l : list (task * action)) (s : system) : outcome :=
  match l with
  | [] => Next s
  | (t, a) :: l => match sem_run t a s with Next s => sem_runs l s | o => o end
  end.

(** The operations of an entry of the set [a] cannot be done now. *)
Definition would_block (ns : sem_ns I) (a : sem_array) (sq : sem_queue) : Prop :=
  0 < (semop_run (vals (sem_base a)) (undo_adj (sem_undos ns) (q_undo sq)) (q_sops sq)).1.

Inductive sys_reach : system -> Prop :=
| sys_start : sys_reach sys_init
| sys_step t a s s' : sys_reach s -> action_ok t a s -> sem_run t a s = Next s' -> sys_reach s'.

(** ** The invariant *)

(** What a task may rely on where it stands, whatever the others do. *)
Definition pc_ok (k : ptr) (c : pc) (ns : sem_ns I) : Prop :=
  match c with
  | CtlWait _ p nsems => exists a, sem_sets ns !! p = Some a /\ sem_nsems a = nsems
  | UndoSize c ulp => call_ok c /\ task_undo ns !! k = Some ulp
  | UndoAttach c ulp p nsems =>
      call_ok c /\ task_undo ns !! k = Some ulp /\
      exists a, sem_sets ns !! p = Some a /\ perm_id (sem_perm a) = c_semid c /\ sem_nsems a = nsems
  | SemopLock c un => call_ok c /\ own_undo k (c_semid c) ns un
  | Asleep semid q | Relock semid q =>
      exists sq, sem_queues ns !! q = Some sq /\ q_sleeper sq = k /\
        (q_status sq = - EINTR -> exists p, waits k q p semid ns)
  | Spin q => exists sq, sem_queues ns !! q = Some sq /\ q_sleeper sq = k /\ q_status sq <> - EINTR
  | Waking l next =>
      NoDup l /\
      (forall q sq, q ∈ l -> sem_queues ns !! q = Some sq -> q_status sq = IN_WAKEUP /\ result_code (q_pid sq)) /\
      (forall ulp, next = Some ulp -> exists ul, undo_lists ns !! ulp = Some ul /\ refcnt ul = 0)
  | ExitNext ulp => exists ul, undo_lists ns !! ulp = Some ul /\ refcnt ul = 0
  | ExitLock ulp un semid => chosen ulp un semid ns
  end.

Record sys_ok (s : system) : Prop := {
  sk_wf : ns_wf (sys_ns s);
  sk_pc k c : sys_pc s !! k = Some c -> pc_ok k c (sys_ns s);
  (** an entry belongs to a task that is inside [semtimedop] *)
  sk_owner q sq : sem_queues (sys_ns s) !! q = Some sq -> pc_entry (sys_pc s !! q_sleeper sq) = Some q;
  sk_status q sq : sem_queues (sys_ns s) !! q = Some sq ->
    q_status sq = - EINTR \/ q_status sq = IN_WAKEUP \/ result_code (q_status sq);
  (** a wake-up that has begun is on the list of a task that will finish it *)
  sk_wake q sq : sem_queues (sys_ns s) !! q = Some sq -> q_status sq = IN_WAKEUP ->
    exists k, q ∈ pc_waking (sys_pc s !! k);
  sk_waker k k' q : q ∈ pc_waking (sys_pc s !! k) -> q ∈ pc_waking (sys_pc s !! k') -> k = k';
  sk_exit k k' ulp : pc_exit (sys_pc s !! k) = Some ulp -> pc_exit (sys_pc s !! k') = Some ulp -> k = k'
}.
End Conc.

Section ConcInv.
Context {I : Type} `{IdrLaws I}.
Context (lsm : sem_lsm).

(** A list that is being taken apart has no users. *)
Lemma exit_list k c ulp (ns : sem_ns I) :
  pc_ok k c ns -> pc_exit (Some c) = Some ulp -> exists ul, undo_lists ns !! ulp = Some ul /\ refcnt ul = 0.
Proof. destruct c as [| | | | | | |l [ulp'|]| |]; cbn; intros Hc [= <-]; [by apply Hc|done|apply Hc]. Qed.

Lemma waking_pc k c (ns : sem_ns I) q sq :
  pc_ok k c ns -> q ∈ pc_waking (Some c) -> sem_queues ns !! q = Some sq -> q_status sq = IN_WAKEUP /\ result_code (q_pid sq).
Proof. destruct c; cbn; try by intros _ ?%not_elem_of_nil. intros (_ & Hl & _) Hq. by apply Hl. Qed.

Lemma goto_lookup k k2 c (ns : sem_ns I) pcs : sys_pc (goto k c ns pcs) !! k2 = if decide (k2 = k) then c else pcs !! k2.
Proof. cbn. case_decide as D; [subst; apply lookup_partial_alter_eq|by apply lookup_partial_alter_ne]. Qed.

(** A section of task [k], which stands at [c'] afterwards. *)
Section Preserve.
Context (k : ptr) (c' : option pc) (kq dead : option ptr) (ns ns' : sem_ns I) (tasks : list ptr) (pcs : gmap ptr pc).
Hypothesis (S : sys_ok (Sys ns pcs)) (A : section_ok k kq dead ns ns' tasks)
  (Hdead : forall ulp, dead = Some ulp -> pc_exit (pcs !! k) = Some ulp)
  (Hkq : forall q, kq = Some q -> (forall sq, sem_queues ns !! q = Some sq -> q_sleeper sq = k) /\
     forall sq, sem_queues ns' !! q = Some sq -> q_sleeper sq = k /\ q_status sq = - EINTR /\ forall k2, q ∉ pc_waking (pcs !! k2))
  (Hold : pc_waking (pcs !! k) = []) (Hc : forall c, c' = Some c -> pc_ok k c ns') (Hwk : pc_waking c' = tasks)
  (Hent : forall q sq, sem_queues ns' !! q = Some sq -> q_sleeper sq = k -> pc_entry c' = Some q)
  (Hex : forall ulp, pc_exit c' = Some ulp -> pc_exit (pcs !! k) = Some ulp \/ task_undo ns !! k = Some ulp).

Lemma preserve_dead k2 l : k2 <> k -> task_undo ns !! k2 = Some l -> dead <> Some l.
Proof.
  intros Hne Hl Hd. pose proof (Hdead l Hd) as He. destruct (pcs !! k) as [c|] eqn:Ec; [|done].
  destruct (exit_list k c l ns (sk_pc _ S k c Ec) He) as (ul & Hul & Hz).
  pose proof (used_list ns k2 l ul (sk_wf _ S) Hl Hul). lia.
Qed.

Lemma preserve_exit k2 ulp : k2 <> k -> pc_exit (pcs !! k2) = Some ulp -> dead <> Some ulp.
Proof. intros Hne He Hd. by apply Hne, (sk_exit _ S k2 k ulp He), Hdead. Qed.

(** The entry of another task. *)
Lemma preserve_entry k2 q sq : k2 <> k -> sem_queues ns !! q = Some sq -> q_sleeper sq = k2 ->
  exists sq', sem_queues ns' !! q = Some sq' /\ q_sleeper sq' = k2 /\ (q_status sq <> - EINTR -> sq' = sq) /\ kq <> Some q.
Proof.
  intros Hne Hsq Hs. assert (kq <> Some q) as Hq by (intros Hq; destruct (Hkq q Hq) as [Ho _]; specialize (Ho sq Hsq); congruence).
  destruct (sc_entry _ _ _ _ _ _ A q sq Hsq Hq) as (sq' & Hsq' & Hs' & Hst). exists sq'. split; [done|]. split; [congruence|done].
Qed.

Lemma preserve_waits k2 q p semid sq' :
  kq <> Some q -> waits k2 q p semid ns -> sem_queues ns' !! q = Some sq' -> q_sleeper sq' = k2 -> q_status sq' = - EINTR ->
  waits k2 q p semid ns'.
Proof.
  intros Hkq0 (a & sq & Ha & Hid & Hin & Hsq & Hk2 & Hst) Hsq' Hk2' Hst'.
  destruct (nw_queue _ (sc_wf _ _ _ _ _ _ A) q sq' Hsq' Hst') as (p' & a' & Ha' & Hin').
  destruct (sc_pending _ _ _ _ _ _ A p' a' q Ha' Hin') as [|(a0 & Ha0 & Hin0)]; [done|].
  assert (p' = p) as -> by (by apply (nw_disj _ (sk_wf _ S) p' p a0 a q)).
  destruct (sc_set _ _ _ _ _ _ A p a Ha) as (a2 & Ha2 & Hid2 & _). simplify_eq. exists a', sq'. done.
Qed.

Lemma preserve_asleep k2 semid q :
  k2 <> k ->
  (exists sq, sem_queues ns !! q = Some sq /\ q_sleeper sq = k2 /\ (q_status sq = - EINTR -> exists p, waits k2 q p semid ns)) ->
  exists sq, sem_queues ns' !! q = Some sq /\ q_sleeper sq = k2 /\ (q_status sq = - EINTR -> exists p, waits k2 q p semid ns').
Proof.
  intros Hne (sq & Hsq & Hs & Hw). destruct (preserve_entry k2 q sq Hne Hsq Hs) as (sq' & Hsq' & Hs' & Hst & Hq).
  exists sq'. split; [done|]. split; [done|]. intros Hst'. destruct (decide (q_status sq = - EINTR)) as [E|E].
  - destruct (Hw E) as [p Hp]. exists p. by apply (preserve_waits k2 q p semid sq').
  - by rewrite Hst in Hst' by done.
Qed.

Lemma preserve_list l : (exists ul, undo_lists ns !! l = Some ul /\ refcnt ul = 0) -> dead <> Some l ->
  exists ul, undo_lists ns' !! l = Some ul /\ refcnt ul = 0.
Proof. intros (ul & Hul & Hz) Hd. destruct (sc_list _ _ _ _ _ _ A l ul Hul Hz Hd) as (ul' & ? & ? & _). eauto. Qed.

Lemma preserve_pc k2 c : k2 <> k -> pcs !! k2 = Some c -> pc_ok k2 c ns'.
Proof.
  intros Hne Hp. pose proof (sk_pc _ S k2 c Hp) as Hok. pose proof (fun l => preserve_dead k2 l Hne) as Hdl.
  assert (forall ulp, pc_exit (Some c) = Some ulp -> dead <> Some ulp) as Hde by (rewrite <- Hp; intros ulp; by apply preserve_exit).
  pose proof (sc_task _ _ _ _ _ _ A k2) as Htk. destruct c as [cmd p nsems|c ulp|c ulp p nsems|c un|semid q|semid q|q|l next|ulp|ulp un semid]; cbn in Hok |- *.
  - destruct Hok as (a & Ha & Hn). destruct (sc_set _ _ _ _ _ _ A p a Ha) as (a' & ? & _ & ?). exists a'. split; [done|congruence].
  - destruct Hok as [? ?]. split; [done|]. by apply Htk.
  - destruct Hok as (? & ? & a & Ha & Hid & Hn). split; [done|]. split; [by apply Htk|].
    destruct (sc_set _ _ _ _ _ _ A p a Ha) as (a' & ? & ? & ?). exists a'. split; [done|]. split; congruence.
  - destruct Hok as [? Hown]. split; [done|]. intros u ->. destruct (Hown u eq_refl) as (x & Hx & Hs & Ht).
    destruct (sc_undo _ _ _ _ _ _ A u x Hx (Hdl _ Ht)) as (x' & Hx' & Hu & Hs'). exists x'. split; [done|].
    split; [destruct Hs' as [->|]; tauto|]. rewrite Hu. by apply Htk.
  - by apply preserve_asleep.
  - by apply preserve_asleep.
  - destruct Hok as (sq & Hsq & Hs & Hst). destruct (preserve_entry k2 q sq Hne Hsq Hs) as (sq' & Hsq' & Hs' & Hst' & Hq).
    exists sq'. split; [done|]. split; [done|]. by rewrite Hst'.
  - destruct Hok as (Hnd & Hl & Hn). split; [done|]. split.
    + intros q sq' Hq Hsq'. destruct (decide (kq = Some q)) as [E|E].
      * destruct (Hkq q E) as [_ Hf]. destruct (Hf sq' Hsq') as (_ & _ & Hnw). specialize (Hnw k2). rewrite Hp in Hnw. done.
      * destruct (sc_old _ _ _ _ _ _ A q sq' Hsq' E) as (sq & Hsq & _). destruct (Hl q sq Hq Hsq) as [Hst Hr].
        destruct (sc_entry _ _ _ _ _ _ A q sq Hsq E) as (sq2 & Hsq2 & _ & Heq). rewrite Heq in Hsq2 by (by rewrite Hst). by simplify_eq.
    + intros ulp ->. apply preserve_list; [by apply Hn|by apply Hde].
  - apply preserve_list; [done|by apply Hde].
  - apply (chosen_keeps ulp un semid ns); [apply S|apply A|done| |].
    + intros ul Hul Hz. destruct (sc_list _ _ _ _ _ _ A ulp ul Hul Hz (Hde ulp eq_refl)) as (ul' & ? & ? & ?). eauto.
    + intros u x Hx Hu. apply (sc_undo _ _ _ _ _ _ A u x Hx). rewrite Hu. by apply Hde.
Qed.

Lemma preserve_waker k1 k2 q :
  q ∈ pc_waking (sys_pc (goto k c' ns' pcs) !! k1) -> q ∈ pc_waking (sys_pc (goto k c' ns' pcs) !! k2) -> k1 = k2.
Proof.
  assert (forall k2 q, k2 <> k -> q ∈ pc_waking (pcs !! k2) -> q ∉ tasks) as Hdis.
  { intros k3 x Hne Hin Ht. destruct (sc_woken _ _ _ _ _ _ A x Ht) as (sq & _ & Hsq & Hst & _).
    destruct (pcs !! k3) as [c|] eqn:Ec; [|by apply not_elem_of_nil in Hin].
    destruct (waking_pc k3 c ns x sq (sk_pc _ S k3 c Ec) Hin Hsq) as [Hw _]. by rewrite Hst in Hw. }
  rewrite !goto_lookup. repeat case_decide; subst; try done.
  - intros Hin1 Hin2. by destruct (Hdis k2 q).
  - intros Hin1 Hin2. by destruct (Hdis k1 q).
  - apply (sk_waker _ S).
Qed.

Lemma preserve_exits k1 k2 ulp :
  pc_exit (sys_pc (goto k c' ns' pcs) !! k1) = Some ulp -> pc_exit (sys_pc (goto k c' ns' pcs) !! k2) = Some ulp -> k1 = k2.
Proof.
  assert (forall k2, k2 <> k -> pc_exit (pcs !! k2) = Some ulp -> pc_exit c' <> Some ulp) as Hdis.
  { intros k3 Hne He Hc'. destruct (Hex ulp Hc') as [Hk|Ht]; [by apply Hne, (sk_exit _ S k3 k ulp)|].
    destruct (pcs !! k3) as [c|] eqn:Ec; [|done]. destruct (exit_list k3 c ulp ns (sk_pc _ S k3 c Ec) He) as (ul & Hul & Hz).
    pose proof (used_list ns k ulp ul (sk_wf _ S) Ht Hul). lia. }
  rewrite !goto_lookup. repeat case_decide; subst; try done.
  - intros He1 He2. by destruct (Hdis k2).
  - intros He1 He2. by destruct (Hdis k1).
  - apply (sk_exit _ S).
Qed.

Lemma preserve_ok : sys_ok (goto k c' ns' pcs).
Proof.
  constructor.
  - apply A.
  - intros k2 c. rewrite goto_lookup. case_decide as D; [subst; apply Hc|]. by apply preserve_pc.
  - intros q sq' Hsq'. rewrite goto_lookup. case_decide as D; [by apply (Hent q sq')|].
    assert (kq <> Some q) as Hq by (intros E; destruct (Hkq q E) as [_ Hf]; by destruct (Hf sq' Hsq')).
    destruct (sc_old _ _ _ _ _ _ A q sq' Hsq' Hq) as (sq & Hsq & _).
    destruct (sc_entry _ _ _ _ _ _ A q sq Hsq Hq) as (sq2 & Hsq2 & Hs & _).
    assert (sq2 = sq') as -> by (cbn in Hsq'; congruence). rewrite Hs. by apply (sk_owner _ S q sq).
  - intros q sq' Hsq'. cbn in Hsq'. destruct (decide (kq = Some q)) as [E|E].
    { destruct (Hkq q E) as [_ Hf]. destruct (Hf sq' Hsq') as (_ & ? & _). by left. }
    destruct (sc_old _ _ _ _ _ _ A q sq' Hsq' E) as (sq & Hsq & [->|Hin]); [by apply (sk_status _ S q sq)|].
    destruct (sc_woken _ _ _ _ _ _ A q Hin) as (_ & sq2 & _ & _ & Hsq2 & Hst & _). simplify_eq. by right; left.
  - intros q sq' Hsq' Hst. cbn in Hsq'. assert (kq <> Some q) as Hq.
    { intros E. destruct (Hkq q E) as [_ Hf]. destruct (Hf sq' Hsq') as (_ & Hst' & _). by rewrite Hst in Hst'. }
    destruct (sc_old _ _ _ _ _ _ A q sq' Hsq' Hq) as (sq & Hsq & [->|Hin]).
    + destruct (sk_wake _ S q sq Hsq Hst) as [k2 Hin]. exists k2. rewrite goto_lookup. case_decide as D; [|done].
      subst k2. cbn in Hin. rewrite Hold in Hin. by apply not_elem_of_nil in Hin.
    + exists k. rewrite goto_lookup, decide_True, Hwk by done. done.
  - apply preserve_waker.
  - apply preserve_exits.
Qed.
End Preserve.

(** The sections of a task that is not asleep. *)
Lemma plain_ok k c' dead ns ns' tasks pcs :
  sys_ok (Sys ns pcs) -> section_ok k None dead ns ns' tasks ->
  (forall ulp, dead = Some ulp -> pc_exit (pcs !! k) = Some ulp) ->
  pc_waking (pcs !! k) = [] -> pc_entry (pcs !! k) = None -> (forall c, c' = Some c -> pc_ok k c ns') ->
  pc_waking c' = tasks ->
  (forall ulp, pc_exit c' = Some ulp -> pc_exit (pcs !! k) = Some ulp \/ task_undo ns !! k = Some ulp) ->
  sys_ok (goto k c' ns' pcs).
Proof.
  intros S A Hdead Hold Hne Hc Hwk Hex. apply (preserve_ok k c' None dead ns ns' tasks pcs); try done.
  intros q sq' Hsq' Hk. destruct (sc_old _ _ _ _ _ _ A q sq' Hsq') as (sq & Hsq & _); [done|].
  destruct (sc_entry _ _ _ _ _ _ A q sq Hsq) as (sq2 & Hsq2 & Hs & _); [done|].
  assert (sq2 = sq') as -> by congruence. pose proof (sk_owner _ S q sq Hsq) as Ho. cbn in Ho. congruence.
Qed.

Lemma waking_ok k dead ns ns' tasks next :
  section_ok k None dead ns ns' tasks ->
  (forall ulp, next = Some ulp -> exists ul, undo_lists ns' !! ulp = Some ul /\ refcnt ul = 0) -> pc_ok k (Waking tasks next) ns'.
Proof.
  intros A Hn. split; [apply A|]. split; [|done]. intros q sq Hq Hsq.
  destruct (sc_woken _ _ _ _ _ _ A q Hq) as (_ & sq' & _ & _ & Hsq' & ? & ?). by simplify_eq.
Qed.

(** The last section of a call, then the wake-ups. *)
Lemma end_ok k ns ns' tasks pcs :
  sys_ok (Sys ns pcs) -> section_ok k None None ns ns' tasks -> pc_waking (pcs !! k) = [] -> pc_entry (pcs !! k) = None ->
  sys_ok (goto k (Some (Waking tasks None)) ns' pcs).
Proof. intros S A Hw He. apply (plain_ok k _ None ns ns' tasks); try done. intros c [= <-]. by eapply waking_ok. Qed.

Lemma goto_idle k (ns : sem_ns I) pcs : pcs !! k = None -> Sys ns pcs = goto k None ns pcs.
Proof. intros Hk. unfold goto. f_equal. symmetry. rewrite <- (partial_alter_self pcs k) at 2. by rewrite Hk. Qed.

Lemma idle_ok k ns ns' pcs :
  sys_ok (Sys ns pcs) -> section_ok k None None ns ns' [] -> pcs !! k = None -> sys_ok (Sys ns' pcs).
Proof. intros S A Hk. rewrite (goto_idle k) by done. by apply (plain_ok k None None ns ns' []); try done; rewrite Hk. Qed.

(** The end of a sleep: the entry is gone. *)
Lemma drop_ok k q ns ns' pcs :
  sys_ok (Sys ns pcs) -> section_ok k (Some q) None ns ns' [] -> sem_queues ns' !! q = None -> pc_entry (pcs !! k) = Some q ->
  sys_ok (goto k None ns' pcs).
Proof.
  intros S A Hn He. assert (pc_waking (pcs !! k) = [] /\ pc_exit (pcs !! k) = None) as [Hw Hx] by (by destruct (pcs !! k) as [[]|]).
  assert (exists sq, sem_queues ns !! q = Some sq /\ q_sleeper sq = k) as (sq & Hsq & Hk).
  { destruct (pcs !! k) as [c|] eqn:Ec; [|done]. pose proof (sk_pc _ S k c Ec) as Hok.
    destruct c; try done; cbn in He; injection He as ->; cbn in Hok; destruct Hok as (sq & ? & ? & _); eauto. }
  apply (preserve_ok k None (Some q) None ns ns' [] pcs); try done.
  - intros x [= <-]. split; [intros; congruence|]. intros ? ?. congruence.
  - intros x sq' Hsq' Hk'. destruct (decide (x = q)) as [->|Hne]; [congruence|].
    destruct (sc_old _ _ _ _ _ _ A x sq' Hsq') as (xq & Hxq & _); [congruence|].
    destruct (sc_entry _ _ _ _ _ _ A x xq Hxq) as (xq' & Hxq' & Hs & _); [congruence|].
    pose proof (sk_owner _ S x xq Hxq) as Ho. cbn in Ho. assert (q_sleeper xq = k) as E by congruence. rewrite E in Ho. congruence.
Qed.

(** ** One wake-up *)
Section WakeOne.
Context (k q : ptr) (l : list ptr) (next : option ptr) (ns : sem_ns I) (pcs : gmap ptr pc).
Hypothesis (S : sys_ok (Sys ns pcs)) (Hk : pcs !! k = Some (Waking (q :: l) next)).
Let ns' : sem_ns I := do_wake_ups [q] ns.

Lemma woken_other x : x <> q -> sem_queues ns' !! x = sem_queues ns !! x.
Proof.
  intros Hne. cbn -[wake_up_sem_queue_do]. rewrite wake_do_lookup. destruct (sem_queues ns !! x); [|done].
  by rewrite decide_False by (by intros ->%list_elem_of_singleton).
Qed.

Lemma woken_entry x sq' : sem_queues ns' !! x = Some sq' ->
  exists sq, sem_queues ns !! x = Some sq /\ q_sleeper sq' = q_sleeper sq /\ (x = q /\ result_code (q_status sq') \/ x <> q /\ sq' = sq).
Proof.
  destruct (decide (x = q)) as [->|Hne]; [|rewrite woken_other by done; eauto 10].
  cbn -[wake_up_sem_queue_do]. rewrite wake_do_lookup. destruct (sem_queues ns !! q) as [sq|] eqn:Esq; [|done].
  rewrite decide_True by left. intros [= <-]. exists sq. split; [done|]. split; [done|]. left. split; [done|].
  destruct (sk_pc _ S k _ Hk) as (_ & Hl & _). apply (Hl q sq); [left|done].
Qed.

Lemma woken_keep x sq : sem_queues ns !! x = Some sq ->
  exists sq', sem_queues ns' !! x = Some sq' /\ q_sleeper sq' = q_sleeper sq.
Proof.
  intros Hsq. destruct (sem_queues ns' !! x) as [sq'|] eqn:E.
  - exists sq'. split; [done|]. destruct (woken_entry x sq' E) as (sq0 & ? & -> & _). by simplify_eq.
  - revert E. cbn -[wake_up_sem_queue_do]. by rewrite wake_do_lookup, Hsq.
Qed.

Lemma woken_asleep k2 semid x :
  (exists sq, sem_queues ns !! x = Some sq /\ q_sleeper sq = k2 /\ (q_status sq = - EINTR -> exists p, waits k2 x p semid ns)) ->
  exists sq, sem_queues ns' !! x = Some sq /\ q_sleeper sq = k2 /\ (q_status sq = - EINTR -> exists p, waits k2 x p semid ns').
Proof.
  intros (sq & Hsq & Hs & Hw). destruct (woken_keep x sq Hsq) as (sq' & Hsq' & Hs'). exists sq'. split; [done|]. split; [congruence|].
  intros Hst. destruct (woken_entry x sq' Hsq') as (sq0 & Hsq0 & _ & [[_ Hr]|[Hne ->]]).
  - by destruct (result_not_eintr _ Hr).
  - assert (sq0 = sq) as -> by congruence. destruct (Hw Hst) as (p & a & sq1 & Ha & Hid & Hin & _ & _ & _). exists p, a, sq. done.
Qed.

Lemma woken_pc k2 c : k2 <> k -> pcs !! k2 = Some c -> pc_ok k2 c ns'.
Proof.
  intros Hne Hp. pose proof (sk_pc _ S k2 c Hp) as Hok. destruct c; cbn -[do_wake_ups] in Hok |- *; try exact Hok.
  - by apply woken_asleep.
  - by apply woken_asleep.
  - destruct Hok as (sq & Hsq & Hs & Hst). destruct (woken_keep q0 sq Hsq) as (sq' & Hsq' & Hs'). exists sq'. split; [done|]. split; [congruence|].
    destruct (woken_entry q0 sq' Hsq') as (sq0 & Hsq0 & _ & [[_ Hr]|[_ ->]]); [by apply result_not_eintr|congruence].
  - destruct Hok as (Hnd & Hl & Hn). split; [done|]. split; [|done]. intros x sq Hx Hsq. rewrite woken_other in Hsq; [by apply (Hl x)|].
    intros ->. apply Hne, (sk_waker _ S k2 k q); cbn; [by rewrite Hp|]. rewrite Hk. left.
  - destruct Hok as [? ? ? ?]. by constructor.
Qed.

Lemma wake_one_ok : sys_ok (goto k (Some (Waking l next)) ns' pcs).
Proof.
  destruct (sk_pc _ S k _ Hk) as (Hnd & Hl & Hn). apply NoDup_cons in Hnd as [Hnin Hnd]. constructor.
  - apply wake_ok; [apply S|]. intros x sq ->%list_elem_of_singleton Hsq. destruct (Hl q sq ltac:(left) Hsq) as [Hst Hr].
    split; [by rewrite Hst|by apply result_not_eintr].
  - intros k2 c. rewrite goto_lookup. case_decide as D; [|by apply woken_pc]. intros [= <-]. subst k2.
    split; [done|]. split; [|done]. intros x sq Hx. rewrite woken_other by (by intros ->). apply (Hl x). by right.
  - intros x sq' Hsq'. destruct (woken_entry x sq' Hsq') as (sq & Hsq & -> & _). pose proof (sk_owner _ S x sq Hsq) as Ho.
    rewrite goto_lookup. case_decide as D; [|done]. rewrite D in Ho. cbn in Ho. by rewrite Hk in Ho.
  - intros x sq' Hsq'. destruct (woken_entry x sq' Hsq') as (sq & Hsq & _ & [[_ Hr]|[_ ->]]); [by right; right|by apply (sk_status _ S x sq)].
  - intros x sq' Hsq' Hst. destruct (woken_entry x sq' Hsq') as (sq & Hsq & _ & [[_ Hr]|[Hne ->]]); [by destruct (result_not_eintr _ Hr)|].
    destruct (sk_wake _ S x sq Hsq Hst) as [k2 Hin]. exists k2. rewrite goto_lookup. case_decide as D; [|done].
    subst k2. cbn in Hin. rewrite Hk in Hin. by apply elem_of_cons in Hin as [|].
  - assert (forall k2 x, x ∈ pc_waking (sys_pc (goto k (Some (Waking l next)) ns' pcs) !! k2) -> x ∈ pc_waking (pcs !! k2)) as Hsub.
    { intros k2 x. rewrite goto_lookup. case_decide as D; [|done]. subst k2. rewrite Hk. by right. }
    intros k1 k2 x Hx1%Hsub Hx2%Hsub. by apply (sk_waker _ S k1 k2 x).
  - assert (forall k2, pc_exit (sys_pc (goto k (Some (Waking l next)) ns' pcs) !! k2) = pc_exit (pcs !! k2)) as He.
    { intros k2. rewrite goto_lookup. case_decide as D; [|done]. subst k2. by rewrite Hk. }
    intros k1 k2 ulp. rewrite !He. apply (sk_exit _ S).
Qed.
End WakeOne.

(** ** Every action *)

Definition fine (o : outcome) : Prop :=
  match o with Next s => sys_ok s | Wait => True | Bug => False end.

Lemma ctl_start_ok t ok semid semnum cmd val buf (ns : sem_ns I) pcs :
  sys_ok (Sys ns pcs) -> pcs !! cur t = None -> fine (ctl_start lsm t ok semid semnum cmd val buf ns pcs).
Proof.
  intros S Hk. pose proof (sk_wf _ S) as W. cbn in W. unfold ctl_start. destruct (semid <? 0) eqn:Es; [done|]. zbool.
  destruct (ipc_parse_version cmd) as [v cmd']. assert (pc_waking (pcs !! cur t) = [] /\ pc_entry (pcs !! cur t) = None) as [Hw He] by (by rewrite Hk).
  case_bool_decide.
  - pose proof (semctl_lock_ok lsm t ok ns semid semnum cmd' val W Es) as Hl.
    destruct (semctl_lock lsm t ok ns semid semnum cmd' val) as [e o ns' tasks|p nsems|]; [by apply (end_ok (cur t) ns)| |done].
    apply (plain_ok (cur t) _ None ns ns []); try done; [by apply section_refl|]. by intros c [= <-].
  - case_bool_decide; [|done]. pose proof (semctl_down_section lsm t ns semid cmd' buf W Es) as A.
    destruct (semctl_down_locked lsm t ns semid cmd' buf) as [[e ns'] tasks]. by apply (end_ok (cur t) ns).
Qed.

Lemma undo_for_own k semid u (ns : sem_ns I) : undo_for k semid u ns -> own_undo k semid ns (Some u).
Proof. intros (x & Hx & Hs & Ht) u' [= <-]. exists x. auto. Qed.

Lemma semop_start_ok t mem_ok new_list semid tsops nsops timeout (ns : sem_ns I) pcs :
  sys_ok (Sys ns pcs) -> pcs !! cur t = None -> action_ok t (DoSemop mem_ok new_list semid tsops nsops timeout) (Sys ns pcs) ->
  fine (semop_start t mem_ok new_list semid tsops nsops timeout ns pcs).
Proof.
  intros S Hk [Hnl Hmem]. pose proof (sk_wf _ S) as W. cbn in W. unfold semop_start.
  assert (pc_waking (pcs !! cur t) = [] /\ pc_entry (pcs !! cur t) = None) as [Hw He] by (by rewrite Hk).
  destruct (semop_args mem_ok ns semid tsops nsops timeout) as [e|[c []]] eqn:Ea; [done| |];
    destruct (semop_args_ok _ _ _ _ _ _ _ _ Hmem Ea) as [C <-].
  - pose proof (find_undo_ok t new_list (c_semid c) ns W Hnl) as Hf. destruct (find_undo t new_list (c_semid c) ns) as [r ns'].
    destruct Hf as [A Hr]. cbn. apply (plain_ok (cur t) _ None ns ns' []); try done; destruct r as [e|[ulp [un|]]]; try done.
    + intros x [= <-]. destruct (Hr ulp (Some un) eq_refl) as [_ Hu]. split; [done|]. by apply undo_for_own, Hu.
    + intros x [= <-]. split; [done|]. by apply (Hr ulp None).
  - apply (plain_ok (cur t) _ None ns ns []); try done; [by apply section_refl|]. by intros x [= <-].
Qed.

Lemma semop_lock_run t q c un (ns : sem_ns I) pcs :
  sys_ok (Sys ns pcs) -> pcs !! cur t = Some (SemopLock c un) -> action_ok t (DoSemopLock q) (Sys ns pcs) ->
  fine (sem_run lsm t (DoSemopLock q) (Sys ns pcs)).
Proof.
  intros S Hk [Hq Hnw]. cbn in Hq, Hnw |- *. rewrite Hk. destruct (sk_pc _ S _ _ Hk) as [C Hown].
  pose proof (semop_lock_ok lsm t q c un ns (sk_wf _ S) C Hown Hq) as Hs.
  assert (pc_waking (pcs !! cur t) = [] /\ pc_entry (pcs !! cur t) = None) as [Hw He] by (by rewrite Hk).
  destruct (semop_lock lsm t q c un ns) as [[e ns'|ns'|] tasks]; [by apply (end_ok (cur t) ns)| |done].
  destruct Hs as (A & p & Wt). destruct Wt as (a & sq & Ha & Hid & Hin & Hsq & Hsl & Hst). cbn.
  apply (preserve_ok (cur t) _ (Some q) None ns ns' [] pcs); try done.
  - intros x [= <-]. split; intros xq Hx; [congruence|]. assert (xq = sq) as -> by congruence. done.
  - intros x [= <-]. exists sq. split; [done|]. split; [done|]. intros _. exists p, a, sq. done.
  - intros x xq Hx Hxk. destruct (decide (x = q)) as [->|Hne]; [done|].
    destruct (sc_old _ _ _ _ _ _ A x xq Hx) as (y & Hy & _); [congruence|].
    destruct (sc_entry _ _ _ _ _ _ A x y Hy) as (y' & Hy' & Hs & _); [congruence|].
    pose proof (sk_owner _ S x y Hy) as Ho. cbn in Ho. replace (q_sleeper y) with (cur t) in Ho by congruence. congruence.
Qed.

(** The reads of the own entry. *)
Lemma own_entry k (ns : sem_ns I) pcs q :
  sys_ok (Sys ns pcs) -> pc_entry (pcs !! k) = Some q ->
  is_Some (sem_queues ns !! q) /\ (queue_status ns q <> - EINTR -> sys_ok (goto k None (drop_queue q ns) pcs)) /\
  forall c, pc_entry (Some c) = Some q -> pc_ok k c ns -> sys_ok (goto k (Some c) ns pcs).
Proof.
  intros S He. pose proof (sk_wf _ S) as W. cbn in W.
  assert (exists sq, sem_queues ns !! q = Some sq /\ q_sleeper sq = k) as (sq & Hsq & Hs).
  { destruct (pcs !! k) as [c|] eqn:Ec; [|done]. pose proof (sk_pc _ S k c Ec) as Hok.
    destruct c; try done; cbn in He; injection He as ->; cbn in Hok; destruct Hok as (sq & ? & ? & _); eauto. }
  split; [eauto|]. split.
  - intros Hst. apply (drop_ok k q ns); try done; [|apply lookup_delete_eq]. apply drop_queue_section; [done|].
    intros p a Ha Hin. apply Hst. unfold queue_status. rewrite Hsq. by apply (so_entry _ _ (nw_set _ W p a Ha) q).
  - intros c Hce Hok. assert (pc_waking (Some c) = [] /\ pc_exit (Some c) = None) as [Hw Hx] by (by destruct c).
    apply (preserve_ok k _ None None ns ns [] pcs); try done.
    + by apply section_refl.
    + by destruct (pcs !! k) as [[]|].
    + intros x [= <-]. done.
    + intros x xq Hx' Hxk. pose proof (sk_owner _ S x xq Hx') as Ho. cbn in Ho. rewrite Hxk in Ho. congruence.
    + intros ulp. rewrite Hx. done.
Qed.

Lemma read_status (ns : sem_ns I) q sq : sem_queues ns !! q = Some sq -> queue_status ns q = q_status sq.
Proof. intros Hsq. unfold queue_status. by rewrite Hsq. Qed.

Lemma awake_ok t (ns : sem_ns I) pcs : sys_ok (Sys ns pcs) -> fine (sem_run lsm t DoAwake (Sys ns pcs)).
Proof.
  intros S. cbn. destruct (pcs !! cur t) as [[]|] eqn:Ek; try done.
  destruct (own_entry (cur t) ns pcs q S) as (_ & Hdrop & Hgo); [by rewrite Ek|].
  case_if; [done|]. case_if; zbool; [|by apply Hdrop]. apply Hgo; [done|]. exact (sk_pc _ S _ _ Ek).
Qed.

Lemma relock_ok t (ns : sem_ns I) pcs : sys_ok (Sys ns pcs) -> fine (sem_run lsm t DoRelock (Sys ns pcs)).
Proof.
  intros S. cbn. destruct (pcs !! cur t) as [[]|] eqn:Ek; try done.
  destruct (own_entry (cur t) ns pcs q S) as ([sq Hsq] & Hdrop & Hgo); [by rewrite Ek|].
  destruct (sk_pc _ S _ _ Ek) as (sq0 & Hsq0 & Hk & Hw). cbn in Hsq0, Hw. assert (sq0 = sq) as -> by congruence.
  rewrite (read_status ns q sq Hsq) in *.
  assert (q_status sq = - EINTR -> exists p a, sem_sets ns !! p = Some a /\ q ∈ sem_pending a /\ sem_lock ns semid = inr p) as Hl.
  { intros Hst. destruct (Hw Hst) as (p & a & _ & Ha & Hid & Hin & _). exists p.
    apply sleeps_lock; [|by rewrite (read_status ns q sq)]. constructor; [apply S|eauto|]. eauto. }
  destruct (sem_lock ns semid) as [e|p] eqn:El.
  - apply Hdrop. intros Hst. by destruct (Hl Hst) as (p & a & _ & _ & ?).
  - case_if; zbool; [apply Hgo; [done|]; exists sq; by rewrite E|]. case_if; zbool; [|by apply Hdrop].
    destruct (Hl E0) as (p' & a & Ha & Hin & [= <-]). destruct (abandon_queue_ok (cur t) q p a ns (sk_wf _ S) Ha Hin) as (ns' & -> & A & Hn).
    apply (drop_ok (cur t) q ns); try done. by rewrite Ek.
Qed.

Lemma spin_ok t (ns : sem_ns I) pcs : sys_ok (Sys ns pcs) -> fine (sem_run lsm t DoSpin (Sys ns pcs)).
Proof.
  intros S. cbn. destruct (pcs !! cur t) as [[]|] eqn:Ek; try done.
  destruct (own_entry (cur t) ns pcs q S) as (_ & Hdrop & _); [by rewrite Ek|].
  destruct (sk_pc _ S _ _ Ek) as (sq & Hsq & _ & Hst). cbn in Hsq. case_if; [done|]. apply Hdrop. by rewrite (read_status ns q sq).
Qed.

Lemma exit_ok t (ns : sem_ns I) pcs : sys_ok (Sys ns pcs) -> fine (sem_run lsm t DoExit (Sys ns pcs)).
Proof.
  intros S. cbn. destruct (pcs !! cur t) as [c|] eqn:Ek; [by destruct c|].
  pose proof (exit_start_ok (cur t) ns (sk_wf _ S)) as Hx.
  assert (forall ulp ns', exit_start (cur t) ns = (Some ulp, ns') -> task_undo ns !! cur t = Some ulp) as Ht.
  { intros ulp ns'. unfold exit_start. destruct (task_undo ns !! cur t) as [l|]; [|done]. destruct (undo_lists _ !! l) as [ul|]; [|done].
    destruct (negb _); [done|]. by intros [= <- _]. }
  destruct (exit_start (cur t) ns) as [r ns']. destruct Hx as (A & _ & Hr & _).
  { intros p a q sq _ _ Hsq Hs. pose proof (sk_owner _ S q sq Hsq) as Ho. cbn in Ho. by rewrite Hs, Ek in Ho. }
  apply (plain_ok (cur t) _ None ns ns' []); try done; rewrite ?Ek; try done; destruct r as [ulp|]; try done.
  - intros c [= <-]. by apply Hr.
  - intros u [= <-]. right. by eapply Ht.
Qed.

Lemma exit_next_ok t (ns : sem_ns I) pcs : sys_ok (Sys ns pcs) -> fine (sem_run lsm t DoExitNext (Sys ns pcs)).
Proof.
  intros S. cbn. destruct (pcs !! cur t) as [[]|] eqn:Ek; try done. destruct (sk_pc _ S _ _ Ek) as (ul & Hul & Hz). cbn in Hul.
  pose proof (exit_pick_ok ulp ul ns (sk_wf _ S) Hul Hz) as Hp. destruct (exit_pick ulp ns) as [[un semid]|].
  - apply (plain_ok (cur t) _ None ns ns []); try done; rewrite ?Ek; try done; [apply section_refl, S|intros c [= <-]; apply Hp|by left].
  - apply (plain_ok (cur t) _ (Some ulp) ns _ []); try done; rewrite ?Ek; try done. by eapply exit_free_ok; [apply S|..].
Qed.

Lemma exit_lock_ok t stale (ns : sem_ns I) pcs : sys_ok (Sys ns pcs) -> fine (sem_run lsm t (DoExitLock stale) (Sys ns pcs)).
Proof.
  intros S. cbn. destruct (pcs !! cur t) as [[]|] eqn:Ek; try done. pose proof (sk_pc _ S _ _ Ek) as Hch. cbn in Hch.
  destruct (ch_list _ _ _ _ Hch) as (ul & Hul & _).
  destruct (exit_round_ok t ulp un semid stale ns ul (sk_wf _ S) Hch Hul) as (ns' & tasks & -> & A & _ & ul' & Hul' & Hz' & _).
  apply (plain_ok (cur t) _ (Some ulp) ns _ tasks); try done; rewrite ?Ek; try done; [|by left].
  intros c [= <-]. apply (waking_ok (cur t) (Some ulp) ns); [done|]. intros l [= <-]. eauto.
Qed.

Lemma undo_run_ok t a (ns : sem_ns I) pcs :
  a = DoUndoSize \/ (exists new, a = DoUndoAttach new) -> sys_ok (Sys ns pcs) -> action_ok t a (Sys ns pcs) ->
  fine (sem_run lsm t a (Sys ns pcs)).
Proof.
  intros [->|[new ->]] S Ha; cbn; destruct (pcs !! cur t) as [[]|] eqn:Ek; try done.
  - destruct (sk_pc _ S _ _ Ek) as [C Ht]. cbn in Ht. pose proof (undo_size_ok ns (c_semid c)) as Hs.
    destruct (undo_size ns (c_semid c)) as [e|[p nsems]];
      (apply (plain_ok (cur t) _ None ns ns []); try done; rewrite ?Ek; try done; try apply section_refl, S).
    intros x [= <-]. split; [done|]. split; [done|]. apply Hs; [apply S|apply C|done].
  - destruct (sk_pc _ S _ _ Ek) as (C & Ht & a & Hset & Hid & Hn). cbn in Ht, Hset, Ha.
    pose proof (attach_undo_ok t p nsems ulp new (c_semid c) ns a (sk_wf _ S) Ht Hset Hid Hn Ha) as Hat.
    destruct (attach_undo p nsems ulp new (c_semid c) ns) as [[e|un] ns']; destruct Hat as [A Hu];
      (apply (plain_ok (cur t) _ None ns ns' []); try done; rewrite ?Ek; try done).
    intros x [= <-]. split; [done|]. by apply undo_for_own, Hu.
Qed.

Lemma run_ok t a (s : system) : lsm_ok lsm -> sys_ok s -> action_ok t a s -> fine (sem_run lsm t a s).
Proof.
  intros HL S Ha. destruct s as [ns pcs]. pose proof (sk_wf _ S) as W. cbn in W.
  destruct a as [alloc m key nsems flg|ok semid semnum cmd val buf|mem_ok ok arg|mem_ok nl semid tsops nsops timeout| |new|q| | | | |nl flags tsk| | |stale].
  - cbn. destruct (pcs !! cur t) as [c|] eqn:Ek; [by destruct c|].
    destruct (semget_ok lsm t alloc m ns key nsems flg W HL Ha) as (r & ns' & -> & A & _). by apply (idle_ok (cur t) ns).
  - cbn. destruct (pcs !! cur t) as [c|] eqn:Ek; [by destruct c|]. by apply ctl_start_ok.
  - cbn. destruct (pcs !! cur t) as [[]|] eqn:Ek; try done. destruct (sk_pc _ S _ _ Ek) as (a & Hset & Hn).
    destruct (semctl_relock_ok t mem_ok ok p nsems cmd arg ns a W Hset Hn) as (e & o & ns' & tasks & -> & A).
    by apply (end_ok (cur t) ns); rewrite ?Ek.
  - cbn. destruct (pcs !! cur t) as [c|] eqn:Ek; [by destruct c|]. by apply semop_start_ok.
  - apply undo_run_ok; auto.
  - apply undo_run_ok; eauto.
  - destruct (pcs !! cur t) as [[]|] eqn:Ek; try by cbn; rewrite Ek. by eapply semop_lock_run.
  - by apply awake_ok.
  - by apply relock_ok.
  - by apply spin_ok.
  - cbn. destruct (pcs !! cur t) as [[| | | | | | |[|q l] next| |]|] eqn:Ek; try done; [|by apply (wake_one_ok (cur t) q l)].
    destruct (sk_pc _ S _ _ Ek) as (_ & _ & Hn).
    apply (plain_ok (cur t) _ None ns ns []); try done; rewrite ?Ek; try done; destruct next as [ulp|]; try done; try by apply section_refl.
    + intros c [= <-]. by apply Hn.
    + by left.
  - cbn. destruct (pcs !! cur t) as [c|] eqn:Ek; [by destruct c|]. destruct Ha as (Hnl & Hne & Ht).
    apply (idle_ok (cur t) ns); [done| |done]. by apply copy_semundo_section.
  - by apply exit_ok.
  - by apply exit_next_ok.
  - by apply exit_lock_ok.
Qed.

Lemma init_ok : sys_ok (sys_init : system (I := I)).
Proof.
  constructor; cbn; try (intros *; rewrite ?lookup_empty; done); [apply sem_init_wf|].
  intros k k' q. rewrite !lookup_empty. by intros ?%not_elem_of_nil.
Qed.

Lemma sys_reach_ok (s : system) : lsm_ok lsm -> sys_reach lsm s -> sys_ok s.
Proof.
  intros HL. induction 1 as [|t a s s' _ S Ha Hr]; [apply init_ok|].
  pose proof (run_ok t a s HL S Ha) as Hf. by rewrite Hr in Hf.
Qed.

Lemma pending_blocked (ns : sem_ns I) p a q :
  ns_wf ns -> sem_sets ns !! p = Some a -> q ∈ sem_pending a ->
  exists sq, sem_queues ns !! q = Some sq /\ q_status sq = - EINTR /\ would_block ns a sq.
Proof.
  intros W Ha Hq. pose proof (nw_set _ W p a Ha) as O. pose proof (so_stable _ _ O) as St. unfold stable in St. rewrite Forall_forall in St.
  destruct (St q Hq) as (sq & Hsq & Hb). exists sq. split; [done|]. split; [|done]. by apply (so_entry _ _ O q sq).
Qed.

(** The owner of a pending entry sleeps, or has been woken by something else and
    is on its way to the lock. *)
Lemma pending_owner (s : system) p a q sq :
  sys_ok s -> sem_sets (sys_ns s) !! p = Some a -> q ∈ sem_pending a -> sem_queues (sys_ns s) !! q = Some sq -> q_status sq = - EINTR ->
  sys_pc s !! q_sleeper sq = Some (Asleep (perm_id (sem_perm a)) q) \/ sys_pc s !! q_sleeper sq = Some (Relock (perm_id (sem_perm a)) q).
Proof.
  intros S Ha Hq Hsq Hst. pose proof (sk_owner _ S q sq Hsq) as Ho.
  assert (forall semid k, (exists sq, sem_queues (sys_ns s) !! q = Some sq /\ q_sleeper sq = k /\
    (q_status sq = - EINTR -> exists p, waits k q p semid (sys_ns s))) -> perm_id (sem_perm a) = semid) as Hid.
  { intros semid k (sq' & Hsq' & _ & Hw). assert (sq' = sq) as -> by congruence. destruct (Hw Hst) as (p' & a' & _ & Ha' & <- & Hin & _).
    assert (p' = p) as -> by (by apply (nw_disj _ (sk_wf _ S) p' p a' a q)). congruence. }
  destruct (sys_pc s !! q_sleeper sq) as [c|] eqn:Ec; [|done]. pose proof (sk_pc _ S _ c Ec) as Hok.
  destruct c as [| | | |semid x|semid x|x| | |]; try done; cbn in Ho; injection Ho as ->.
  - left. by rewrite (Hid semid _ Hok).
  - right. by rewrite (Hid semid _ Hok).
  - destruct Hok as (sq' & Hsq' & _ & Hn). congruence.
Qed.

(** A waker delivers: its next steps reach [q], which then has its result. *)
Lemma wake_run t l1 q l2 next : forall (ns : sem_ns I) pcs,
  sys_ok (Sys ns pcs) -> pcs !! cur t = Some (Waking (l1 ++ q :: l2) next) -> is_Some (sem_queues ns !! q) ->
  exists s', sem_runs lsm (replicate (S (length l1)) (t, DoWake)) (Sys ns pcs) = Next s' /\
    exists sq, sem_queues (sys_ns s') !! q = Some sq /\ result_code (q_status sq).
Proof.
  induction l1 as [|x l1 IH]; intros ns pcs S Hk [sq Hsq]; cbn in Hk |- *; rewrite Hk.
  - eexists. split; [reflexivity|]. cbn [sys_ns]. destruct (woken_keep (cur t) q l2 next ns pcs S Hk q sq Hsq) as (sq' & Hsq' & _). exists sq'. split; [done|].
    destruct (woken_entry (cur t) q l2 next ns pcs S Hk q sq' Hsq') as (_ & _ & _ & [[_ ?]|[? _]]); done.
  - destruct (woken_keep (cur t) x (l1 ++ q :: l2) next ns pcs S Hk q sq Hsq) as (sq' & Hsq' & _).
    apply (IH (do_wake_ups [x] ns) (partial_alter (fun _ => Some (Waking (l1 ++ q :: l2) next)) (cur t) pcs)).
    + by apply (wake_one_ok (cur t) x (l1 ++ q :: l2) next ns pcs).
    + apply lookup_partial_alter_eq.
    + eauto.
Qed.
End ConcInv.


(** ** Properties *)

(** C1. No lost wake-ups, with the tasks interleaved at every point where
    they hold no lock: in every state the system can reach, (1) an entry queued on a
    set has no result, its operations block on the current values, and its
    owner is asleep on it or on its way to give up; (2) a task that is asleep has
    its entry queued that way, or a result is on its way and the entry is on
    the wake-up list of a task, or the entry has its final result; (3) in the
    second case the remaining wake-ups of that task end with the result in the entry;
    and (4) no action of any task runs into a BUG_ON. *)
Theorem sem_no_lost_wakeup {I} `{IdrLaws I} (lsm : sem_lsm) (s : system (I := I)) :
  lsm_ok lsm -> sys_reach lsm s ->
  (forall p a q, sem_sets (sys_ns s) !! p = Some a -> q ∈ sem_pending a ->
     exists sq, sem_queues (sys_ns s) !! q = Some sq /\ q_status sq = - EINTR /\ would_block (sys_ns s) a sq /\
       (sys_pc s !! q_sleeper sq = Some (Asleep (perm_id (sem_perm a)) q) \/
        sys_pc s !! q_sleeper sq = Some (Relock (perm_id (sem_perm a)) q))) /\
  (forall k semid q, sys_pc s !! k = Some (Asleep semid q) ->
     exists sq, sem_queues (sys_ns s) !! q = Some sq /\ q_sleeper sq = k /\
       ((exists p a, sem_sets (sys_ns s) !! p = Some a /\ perm_id (sem_perm a) = semid /\ q ∈ sem_pending a /\
           q_status sq = - EINTR /\ would_block (sys_ns s) a sq) \/
        (q_status sq = IN_WAKEUP /\ exists waker l next, sys_pc s !! waker = Some (Waking l next) /\ q ∈ l) \/
        result_code (q_status sq))) /\
  (forall t l1 q l2 next, sys_pc s !! cur t = Some (Waking (l1 ++ q :: l2) next) -> is_Some (sem_queues (sys_ns s) !! q) ->
     exists s', sem_runs lsm (replicate (S (length l1)) (t, DoWake)) s = Next s' /\
       exists sq, sem_queues (sys_ns s') !! q = Some sq /\ result_code (q_status sq)) /\
  (forall t a, action_ok t a s -> sem_run lsm t a s <> Bug).
Proof.
  intros HL Hr. pose proof (sys_reach_ok lsm s HL Hr) as S. split; [|split; [|split]].
  - intros p a q Ha Hq. destruct (pending_blocked (sys_ns s) p a q (sk_wf _ S) Ha Hq) as (sq & Hsq & Hst & Hb).
    exists sq. repeat (split; [done|]). by apply (pending_owner s p a q sq).
  - intros k semid q Hk. destruct (sk_pc _ S k _ Hk) as (sq & Hsq & Hs & Hw). exists sq. split; [done|]. split; [done|].
    destruct (sk_status _ S q sq Hsq) as [Hst|[Hst|Hst]]; [left|right; left|by right; right].
    + destruct (Hw Hst) as (p & a & _ & Ha & Hid & Hin & _). exists p, a. repeat (split; [done|]).
      destruct (pending_blocked (sys_ns s) p a q (sk_wf _ S) Ha Hin) as (sq' & ? & ? & ?). by simplify_eq.
    + split; [done|]. destruct (sk_wake _ S q sq Hsq Hst) as [k2 Hin]. exists k2.
      destruct (sys_pc s !! k2) as [[]|] eqn:E; cbn in Hin; try by apply not_elem_of_nil in Hin. eauto.
  - intros t l1 q l2 next. destruct s as [ns pcs]. by apply wake_run.
  - intros t a Ha Hb. pose proof (run_ok lsm t a s HL S Ha) as Hf. by rewrite Hb in Hf.
Qed.

Lemma not_waking (pcs : gmap ptr pc) q :
  forallb (fun kc => bool_decide (q ∉ pc_waking (Some kc.2))) (map_to_list pcs) = true -> forall k, q ∉ pc_waking (pcs !! k).
Proof.
  intros Hf k. destruct (pcs !! k) as [c|] eqn:E; [|apply not_elem_of_nil].
  rewrite forallb_forall in Hf. assert (bool_decide (q ∉ pc_waking (Some c)) = true) as Hb by (apply (Hf (k, c)); by apply list_elem_of_In, elem_of_map_to_list).
  by apply bool_decide_eq_true in Hb.
Qed.

(** Task 2 sleeps to decrement a semaphore of a set task 1 made; task 1 sets its
    value and has still to wake task 2. *)
Module SemConcDemo.
Import RefIdr SemInvDemo.

Definition next (t : task) (a : action) (s : system (I := gmap Z ptr)) : system :=
  match sem_run lsm0 t a s with Next s => s | _ => s end.

Definition s1 := next t1 (DoSemget alloc true 7 1 (Z.lor IPC_CREAT 384)) sys_init.
Definition s2 := next t2 (DoSemop true (Some 3%nat) 0 (Some down) 1 None) s1.
Definition s3 := next t2 DoUndoSize s2.
Definition s4 := next t2 (DoUndoAttach (Some 9%nat)) s3.
Definition s5 := next t2 (DoSemopLock 5%nat) s4.
Definition s6 := next t1 (DoSemctl true 0 0 SETVAL 1 None) s5.

Lemma next_reach t a s : sys_reach lsm0 s -> action_ok t a s -> sys_reach lsm0 (next t a s).
Proof. intros R Ha. unfold next. destruct (sem_run lsm0 t a s) eqn:E; [|done..]. by eapply sys_step. Qed.

Lemma down_short mem i : Some down = Some mem -> is_short (sem_op (mem i)).
Proof. intros E. assert (mem = down) as -> by congruence. cbn. unfold is_short. lia. Qed.

Lemma reach1 : sys_reach lsm0 s1.
Proof. apply next_reach; [constructor|exact alloc_fresh]. Qed.

Lemma reach5 : sys_reach lsm0 s5.
Proof.
  apply next_reach; [apply next_reach; [apply next_reach; [apply next_reach; [apply reach1|]|done]|]|].
  - split; [|apply down_short]. intros l Hl. assert (l = 3%nat) as -> by congruence. reflexivity.
  - intros u Hu. assert (u = 9%nat) as -> by congruence. reflexivity.
  - split; [reflexivity|]. by apply not_waking.
Qed.

Lemma reach6 : sys_reach lsm0 s6.
Proof. apply next_reach; [apply reach5|done]. Qed.

(** Task 2 is asleep, with a result on its way from task 1. *)
Lemma on_its_way : sys_pc s6 !! 2%nat = Some (Asleep 0 5) /\ sys_pc s6 !! 1%nat = Some (Waking [5%nat] None) /\
  queue_status (sys_ns s6) 5 = IN_WAKEUP.
Proof. repeat split; reflexivity. Qed.

Lemma sem_no_lost_wakeup_witness :
  exists s', sem_runs lsm0 [(t1, DoWake)] s6 = Next s' /\
    exists sq, sem_queues (sys_ns s') !! 5%nat = Some sq /\ result_code (q_status sq).
Proof.
  destruct (sem_no_lost_wakeup lsm0 s6 lsm0_ok reach6) as (_ & _ & Hw & _).
  refine (Hw t1 [] 5%nat [] None _ _); [reflexivity|by eexists].
Defined.

(** The set is removed between the two reads of a sleeper that got a signal. It
    finds the set gone and returns -EIDRM, while its entry is still on the list of
    the task that removed the set. *)
Definition dec : nat -> sembuf := fun _ => Sembuf 0 (-1) 0.
Definition u1 := next t1 (DoSemget alloc true 8 1 (Z.lor IPC_CREAT 384)) s1.
Definition u2 := next t2 (DoSemop true None 0 (Some dec) 1 None) u1.
Definition u3 := next t2 (DoSemopLock 5%nat) u2.
Definition u4 := next t2 DoAwake u3.
Definition u5 := next t1 (DoSemctl true 0 0 IPC_RMID 0 None) u4.
Definition u6 := next t2 DoRelock u5.

(** The next call of the task, on another set, with its entry at the same place of
    its stack; the wake-up that was left; the task returns. *)
Definition u7 := next t2 (DoSemop true None 32769 (Some dec) 1 None) u6.
Definition u8 := next t2 (DoSemopLock 5%nat) u7.
Definition u9 := next t1 DoWake u8.
Definition u10 := next t2 DoAwake u9.

Lemma waker_outlives_entry :
  sys_reach lsm0 u6 /\ sys_pc u6 !! 1%nat = Some (Waking [5%nat] None) /\ sem_queues (sys_ns u6) !! 5%nat = None /\ sys_pc u6 !! 2%nat = None.
Proof.
  split; [|repeat (split; [by vm_compute|]); by vm_compute].
  apply (next_reach t2 DoRelock u5), Logic.I. apply (next_reach t1 (DoSemctl true 0 0 IPC_RMID 0 None) u4), Logic.I.
  apply (next_reach t2 DoAwake u3), Logic.I. apply (next_reach t2 (DoSemopLock 5%nat) u2).
  { apply (next_reach t2 (DoSemop true None 0 (Some dec) 1 None) u1); [apply (next_reach t1 (DoSemget alloc true 8 1 (Z.lor IPC_CREAT 384)) s1)|].
    - apply reach1.
    - exact alloc_fresh.
    - split; [done|]. intros mem i E. assert (mem = dec) as -> by congruence. cbn. unfold is_short. lia. }
  split; [by vm_compute|]. apply not_waking. by vm_compute.
Qed.

(** The late write makes a sleeper return its own process id as the result of
    [semop], and leaves an entry that no longer exists on the queue of a live set. *)
Lemma stale_wakeup_corrupts :
  queue_status (sys_ns u9) 5 = tgid t2 /\ sys_pc u10 !! 2%nat = None /\ sem_queues (sys_ns u10) !! 5%nat = None /\
  exists a, sem_sets (sys_ns u10) !! 1%nat = Some a /\ deleted (sem_perm a) = false /\ 5%nat ∈ sem_pending a.
Proof.
  repeat (split; [by vm_compute|]). assert ((a ← sem_sets (sys_ns u10) !! 1%nat; Some (deleted (sem_perm a), sem_pending a)) = Some (false, [5%nat])) as E
    by (by vm_compute). destruct (sem_sets (sys_ns u10) !! 1%nat) as [a|]; [|done]. exists a. cbn in E. injection E as -> ->.
  split; [done|]. split; [done|]. left.
Qed.
End SemConcDemo.
