(* ===== verification/Msg.v ===== *)
(** * Msg: System V message queues

    Models ipc/msg.c and the message copying of ipc/msgutil.c: queues with
    their messages and the tasks that sleep to receive or to send, the direct
    hand-over to a waiting receiver ([pipelined_send]), and the system calls
    msgget, msgctl, msgsnd and msgrcv before and after a sleep. *)

From S2P Require Import Prelude IpcUtil.

Definition MSGMNI : Z := 16.
Definition MSGMAX : Z := 8192.
Definition MSGMNB : Z := 16384.
Definition MSG_MEM_SCALE : Z := 32.
Definition MSGPOOL : Z := MSGMNI * MSGMNB / 1024.
Definition MSGTQL : Z := MSGMNB.
Definition MSGMAP : Z := MSGMNB.
Definition MSGSSZ : Z := 16.
Definition MSGSEG : Z := Z.min (MSGPOOL * 1024 / MSGSSZ) 65535.
Definition MSG_NOERROR : Z := 4096.
Definition MSG_EXCEPT : Z := 8192.
Definition MSG_STAT : Z := 11.
Definition MSG_INFO : Z := 12.
Definition CAP_SYS_RESOURCE : Z := 24.

(** ** Data *)

(** The text that follows [struct msg_msg] and each [struct msg_msgseg]. *)
Record msg_msg := MsgMsg { m_type : Z; m_ts : Z; m_text : list Z; m_segs : list (list Z) }.

Inductive search_mode := SEARCH_ANY | SEARCH_EQUAL | SEARCH_NOTEQUAL | SEARCH_LESSEQUAL.

#[export] Instance search_mode_eq_dec : EqDecision search_mode.
Proof. solve_decision. Defined.

(** [r_msg]: an error or the message. The waker sets it to NULL only while it
    runs [wake_up_process], and the receiver spins until that is over. *)
Inductive rmsg :=
| RErr (e : Z)
| RMsg (m : msg_msg).

(** [r_asleep]: the task is still in TASK_INTERRUPTIBLE. *)
Record msg_receiver := MsgReceiver {
  r_tsk : ptr; r_mode : search_mode; r_msgtype : Z; r_maxsize : Z; r_msg : rmsg; r_asleep : bool
}.

(** [s_linked]: [list.next] is not NULL. [s_asleep] is the state of the task;
    [s_msgsz] is the size it waits to send, from the same stack frame. *)
Record msg_sender := MsgSender { s_tsk : ptr; s_linked : bool; s_asleep : bool; s_msgsz : Z }.

Record msg_queue := MsgQueue {
  q_perm : kern_ipc_perm;
  q_stime : Z;
  q_rtime : Z;
  q_ctime : Z;
  q_cbytes : Z;
  q_qnum : Z;
  q_qbytes : Z;
  q_lspid : Z;
  q_lrpid : Z;
  q_messages : list msg_msg;
  q_receivers : list ptr;
  q_senders : list ptr
}.

Record msg_ns (I : Type) := MsgNs {
  msg_ctlmax : Z;
  msg_ctlmnb : Z;
  msg_ctlmni : Z;
  msg_bytes : Z;
  msg_hdrs : Z;
  msg_ids : ipc_ids I;
  msg_queues : gmap ptr msg_queue;
  receivers : gmap ptr msg_receiver;
  senders : gmap ptr msg_sender
}.
Arguments MsgNs {I}.
Arguments msg_ctlmax {I}.
Arguments msg_ctlmnb {I}.
Arguments msg_ctlmni {I}.
Arguments msg_bytes {I}.
Arguments msg_hdrs {I}.
Arguments msg_ids {I}.
Arguments msg_queues {I}.
Arguments receivers {I}.
Arguments senders {I}.

#[export] Instance msg_queue_object : IpcObject msg_queue := {
  ipc_perm := q_perm;
  set_ipc_perm p q :=
    {| q_perm := p; q_stime := q_stime q; q_rtime := q_rtime q; q_ctime := q_ctime q;
       q_cbytes := q_cbytes q; q_qnum := q_qnum q; q_qbytes := q_qbytes q;
       q_lspid := q_lspid q; q_lrpid := q_lrpid q; q_messages := q_messages q;
       q_receivers := q_receivers q; q_senders := q_senders q |};
  ipc_perm_set _ _ := eq_refl
}.

Record msg_lsm := MsgLsm {
  msg_permission : kern_ipc_perm -> Z -> Z;
  security_msg_queue_alloc : kern_ipc_perm -> Z;
  security_msg_queue_associate : msg_queue -> Z -> Z;
  security_msg_queue_msgctl : option msg_queue -> Z -> Z;
  security_msg_queue_msgsnd : msg_queue -> msg_msg -> Z -> Z;
  security_msg_queue_msgrcv : kern_ipc_perm -> msg_msg -> ptr -> Z -> search_mode -> Z;
  security_msg_msg_alloc : Z -> Z
}.

(** ** Copying messages (ipc/msgutil.c) *)

Section MsgUtil.
(** The payload of the first and of the following pages. *)
Context (DATALEN_MSG DATALEN_SEG : Z).

(** [alloc]: the outcomes of the [kmalloc]s to come; [src]: the readable bytes
    of the user buffer. Returns the segments or the error. *)
Fixpoint load_segs (fuel : nat) (alloc : list bool) (src : list Z) (len : Z) : Z + list (list Z) :=
  match fuel with
  | O => inr []
  | S fuel =>
      if len >? 0 then
        let alen := if len >? DATALEN_SEG then DATALEN_SEG else len in
        match alloc with
        | true :: alloc =>
            if Z.of_nat (length src) <? alen then inl (- EFAULT)
            else
              match load_segs fuel alloc (drop (Z.to_nat alen) src) (len - alen) with
              | inl e => inl e
              | inr segs => inr (take (Z.to_nat alen) src :: segs)
              end
        | _ => inl (- ENOMEM)
        end
      else inr []
  end.

(** [m_type] and [m_ts] are filled in by the caller. Every iteration consumes
    at least one byte, so [len] iterations are enough. *)
Definition load_msg (lsm : msg_lsm) (alloc : list bool) (src : list Z) (len : Z) : Z + msg_msg :=
  let alen := if len >? DATALEN_MSG then DATALEN_MSG else len in
  match alloc with
  | true :: alloc =>
      if Z.of_nat (length src) <? alen then inl (- EFAULT)
      else
        match load_segs (Z.to_nat len) alloc (drop (Z.to_nat alen) src) (len - alen) with
        | inl e => inl e
        | inr segs =>
            let err := security_msg_msg_alloc lsm len in
            if negb (err =? 0) then inl err
            else inr {| m_type := 0; m_ts := 0; m_text := take (Z.to_nat alen) src; m_segs := segs |}
        end
  | _ => inl (- ENOMEM)
  end.

Inductive store_result :=
| Stored (out : list Z)
| StoreFault
| StoreOops.

Definition store_cat (a : list Z) (r : store_result) : store_result :=
  match r with Stored out => Stored (a ++ out) | _ => r end.

(** [room]: the writable bytes of the user buffer; [StoreOops]: the code would
    follow a NULL segment. *)
Fixpoint store_segs (segs : list (list Z)) (room len : Z) : store_result :=
  if len >? 0 then
    let alen := if len >? DATALEN_SEG then DATALEN_SEG else len in
    match segs with
    | [] => StoreOops
    | seg :: segs =>
        if room <? alen then StoreFault
        else store_cat (take (Z.to_nat alen) seg) (store_segs segs (room - alen) (len - alen))
    end
  else Stored [].

Definition store_msg (msg : msg_msg) (room len : Z) : store_result :=
  let alen := if len >? DATALEN_MSG then DATALEN_MSG else len in
  if room <? alen then StoreFault
  else store_cat (take (Z.to_nat alen) (m_text msg)) (store_segs (m_segs msg) (room - alen) (len - alen)).
End MsgUtil.

(** ** One queue *)

(** [r_msg] is set and the task woken. *)
Definition set_r_msg (m : rmsg) (r : msg_receiver) : msg_receiver :=
  {| r_tsk := r_tsk r; r_mode := r_mode r; r_msgtype := r_msgtype r; r_maxsize := r_maxsize r;
     r_msg := m; r_asleep := false |}.

Definition expunge_all (q : msg_queue) (res : Z) (rs : gmap ptr msg_receiver) : gmap ptr msg_receiver :=
  foldl (fun rs r => alter (set_r_msg (RErr res)) r rs) rs (q_receivers q).

(** [wake_up_process]; with [kill], [list.next] becomes NULL. *)
Definition wake_sender (kill : bool) (s : msg_sender) : msg_sender :=
  {| s_tsk := s_tsk s; s_linked := if kill then false else s_linked s; s_asleep := false;
     s_msgsz := s_msgsz s |}.

Definition ss_wakeup (l : list ptr) (kill : bool) (ss : gmap ptr msg_sender) : gmap ptr msg_sender :=
  foldl (fun ss s => alter (wake_sender kill) s ss) ss l.

Definition testmsg (msg : msg_msg) (type : Z) (mode : search_mode) : bool :=
  match mode with
  | SEARCH_ANY => true
  | SEARCH_LESSEQUAL => m_type msg <=? type
  | SEARCH_EQUAL => m_type msg =? type
  | SEARCH_NOTEQUAL => negb (m_type msg =? type)
  end.

Definition set_receivers (l : list ptr) (q : msg_queue) : msg_queue :=
  {| q_perm := q_perm q; q_stime := q_stime q; q_rtime := q_rtime q; q_ctime := q_ctime q;
     q_cbytes := q_cbytes q; q_qnum := q_qnum q; q_qbytes := q_qbytes q;
     q_lspid := q_lspid q; q_lrpid := q_lrpid q; q_messages := q_messages q;
     q_receivers := l; q_senders := q_senders q |}.

Definition set_senders (l : list ptr) (q : msg_queue) : msg_queue :=
  {| q_perm := q_perm q; q_stime := q_stime q; q_rtime := q_rtime q; q_ctime := q_ctime q;
     q_cbytes := q_cbytes q; q_qnum := q_qnum q; q_qbytes := q_qbytes q;
     q_lspid := q_lspid q; q_lrpid := q_lrpid q; q_messages := q_messages q;
     q_receivers := q_receivers q; q_senders := l |}.

Definition set_received (pid time : Z) (q : msg_queue) : msg_queue :=
  {| q_perm := q_perm q; q_stime := q_stime q; q_rtime := time; q_ctime := q_ctime q;
     q_cbytes := q_cbytes q; q_qnum := q_qnum q; q_qbytes := q_qbytes q;
     q_lspid := q_lspid q; q_lrpid := pid; q_messages := q_messages q;
     q_receivers := q_receivers q; q_senders := q_senders q |}.

(** [walk]: the receivers still to be examined; [pid_of]: [task_pid_vnr]. *)
Fixpoint pipelined_walk (lsm : msg_lsm) (pid_of : ptr -> Z) (time : Z) (msg : msg_msg)
    (walk : list ptr) (q : msg_queue) (rs : gmap ptr msg_receiver)
    : bool * msg_queue * gmap ptr msg_receiver :=
  match walk with
  | [] => (false, q, rs)
  | r :: walk =>
      match rs !! r with
      | None => pipelined_walk lsm pid_of time msg walk q rs
      | Some msr =>
          if testmsg msg (r_msgtype msr) (r_mode msr) &&
             (security_msg_queue_msgrcv lsm (q_perm q) msg (r_tsk msr) (r_msgtype msr) (r_mode msr) =? 0)
          then
            let q := set_receivers (list_del r (q_receivers q)) q in
            if r_maxsize msr <? m_ts msg then
              pipelined_walk lsm pid_of time msg walk q (<[r := set_r_msg (RErr (- E2BIG)) msr]> rs)
            else
              (true, set_received (pid_of (r_tsk msr)) time q, <[r := set_r_msg (RMsg msg) msr]> rs)
          else pipelined_walk lsm pid_of time msg walk q rs
      end
  end.

Definition pipelined_send (lsm : msg_lsm) (pid_of : ptr -> Z) (time : Z) (msg : msg_msg)
    (q : msg_queue) (rs : gmap ptr msg_receiver) : bool * msg_queue * gmap ptr msg_receiver :=
  pipelined_walk lsm pid_of time msg (q_receivers q) q rs.

Definition convert_mode (msgtyp msgflg : Z) : search_mode * Z :=
  if msgtyp =? 0 then (SEARCH_ANY, msgtyp)
  else if msgtyp <? 0 then (SEARCH_LESSEQUAL, s64 (- msgtyp))
  else if has msgflg MSG_EXCEPT then (SEARCH_NOTEQUAL, msgtyp)
  else (SEARCH_EQUAL, msgtyp).

(** The search of [do_msgrcv] from position [i] on: the position of the
    message to take. [msgtyp] shrinks as better candidates appear. *)
Fixpoint find_msg (lsm : msg_lsm) (perm : kern_ipc_perm) (tsk : ptr) (mode : search_mode)
    (i : nat) (walk : list msg_msg) (msgtyp : Z) (msg : option nat) : option nat :=
  match walk with
  | [] => msg
  | walk_msg :: walk =>
      if testmsg walk_msg msgtyp mode &&
         (security_msg_queue_msgrcv lsm perm walk_msg tsk msgtyp mode =? 0)
      then
        if bool_decide (mode = SEARCH_LESSEQUAL) && negb (m_type walk_msg =? 1)
        then find_msg lsm perm tsk mode (S i) walk (m_type walk_msg - 1) (Some i)
        else Some i
      else find_msg lsm perm tsk mode (S i) walk msgtyp msg
  end.

(** ** The namespace *)

Record msginfo := Msginfo {
  i_msgpool : Z; i_msgmap : Z; i_msgmax : Z; i_msgmnb : Z; i_msgmni : Z; i_msgssz : Z;
  i_msgtql : Z; i_msgseg : Z
}.

Record msqid64_ds := Msqid64 {
  ds_perm : ipc64_perm; ds_stime : Z; ds_rtime : Z; ds_ctime : Z; ds_cbytes : Z; ds_qnum : Z;
  ds_qbytes : Z; ds_lspid : Z; ds_lrpid : Z
}.

(** The layout of version [IPC_OLD]. *)
Record msqid_ds := MsqidOld {
  old_perm : ipc64_perm; old_stime : Z; old_rtime : Z; old_ctime : Z; old_lcbytes : Z;
  old_lqbytes : Z; old_cbytes : Z; old_qnum : Z; old_qbytes : Z; old_lspid : Z; old_lrpid : Z
}.

Inductive msg_out :=
| MOutNone
| MOutInfo (i : msginfo)
| MOutStat (d : msqid64_ds)
| MOutStatOld (d : msqid_ds).

(** [overflowuid], [overflowgid]: see [ipc64_perm_to_ipc_perm]; [ok]: the
    buffer is writable. *)
Definition copy_msqid_to_user (overflowuid overflowgid : Z) (ok : bool) (i : msqid64_ds)
    (version : Z) : Z * msg_out :=
  if version =? IPC_64 then if ok then (0, MOutStat i) else (1, MOutNone)
  else if version =? IPC_OLD then
    let cap x := if x >? USHRT_MAX then USHRT_MAX else x in
    if ok then
      (0, MOutStatOld
            {| old_perm := ipc64_perm_to_ipc_perm overflowuid overflowgid (ds_perm i);
               old_stime := ds_stime i; old_rtime := ds_rtime i; old_ctime := ds_ctime i;
               old_lcbytes := ds_cbytes i; old_lqbytes := ds_qbytes i;
               old_cbytes := cap (ds_cbytes i); old_qnum := cap (ds_qnum i);
               old_qbytes := cap (ds_qbytes i); old_lspid := ds_lspid i;
               old_lrpid := ds_lrpid i |})
    else (1, MOutNone)
  else (- EINVAL, MOutNone).

(** The user's buffer read in either layout, [None] when it faults. *)
Record msqid_buf := MsqidBuf { as_64 : option msqid64_ds; as_old : option msqid_ds }.

(** The permissions and [msg_qbytes] are the fields [msgctl_down] uses. *)
Definition copy_msqid_from_user (buf : msqid_buf) (version : Z) : Z + (ipc64_perm * Z) :=
  if version =? IPC_64 then
    match as_64 buf with
    | None => inl (- EFAULT)
    | Some d => inr (ds_perm d, ds_qbytes d)
    end
  else if version =? IPC_OLD then
    match as_old buf with
    | None => inl (- EFAULT)
    | Some d => inr (old_perm d, if old_qbytes d =? 0 then old_lqbytes d else old_qbytes d)
    end
  else inl (- EINVAL).

Section MsgNs.
Context {I : Type} `{IdrOps I}.
Context (lsm : msg_lsm) (pid_of : ptr -> Z).
Implicit Types ns : msg_ns I.

Definition set_msg_ids (ids : ipc_ids I) (ns : msg_ns I) : msg_ns I :=
  {| msg_ctlmax := msg_ctlmax ns; msg_ctlmnb := msg_ctlmnb ns; msg_ctlmni := msg_ctlmni ns;
     msg_bytes := msg_bytes ns; msg_hdrs := msg_hdrs ns; msg_ids := ids;
     msg_queues := msg_queues ns; receivers := receivers ns; senders := senders ns |}.

Definition set_total (bytes hdrs : Z) (ns : msg_ns I) : msg_ns I :=
  {| msg_ctlmax := msg_ctlmax ns; msg_ctlmnb := msg_ctlmnb ns; msg_ctlmni := msg_ctlmni ns;
     msg_bytes := bytes; msg_hdrs := hdrs; msg_ids := msg_ids ns;
     msg_queues := msg_queues ns; receivers := receivers ns; senders := senders ns |}.

Definition put_queue (p : ptr) (q : msg_queue) (rs : gmap ptr msg_receiver)
    (ss : gmap ptr msg_sender) (ns : msg_ns I) : msg_ns I :=
  {| msg_ctlmax := msg_ctlmax ns; msg_ctlmnb := msg_ctlmnb ns; msg_ctlmni := msg_ctlmni ns;
     msg_bytes := msg_bytes ns; msg_hdrs := msg_hdrs ns; msg_ids := msg_ids ns;
     msg_queues := <[p := q]> (msg_queues ns); receivers := rs; senders := ss |}.

Definition set_stacks (rs : gmap ptr msg_receiver) (ss : gmap ptr msg_sender) (ns : msg_ns I)
    : msg_ns I :=
  {| msg_ctlmax := msg_ctlmax ns; msg_ctlmnb := msg_ctlmnb ns; msg_ctlmni := msg_ctlmni ns;
     msg_bytes := msg_bytes ns; msg_hdrs := msg_hdrs ns; msg_ids := msg_ids ns;
     msg_queues := msg_queues ns; receivers := rs; senders := ss |}.

#[export] Instance msg_ipc_ns : IpcNs (msg_ns I) I msg_queue := {
  ns_ids := msg_ids;
  ns_objs := msg_queues;
  set_ns_idr i ns :=
    set_msg_ids {| in_use := in_use (msg_ids ns); ids_seq := ids_seq (msg_ids ns);
                   seq_max := seq_max (msg_ids ns); ipcs_idr := i |} ns
}.

(** [totalram], [totalhigh] and [mem_unit] are those of [si_meminfo], [nb_ns]
    the number of namespaces. *)
Definition recompute_msgmni (totalram totalhigh mem_unit nb_ns : Z) : Z :=
  let allowed := u64 (u64 (totalram - totalhigh) / MSG_MEM_SCALE * mem_unit) / MSGMNB / nb_ns in
  if allowed <? MSGMNI then MSGMNI
  else if allowed >? IPCMNI / nb_ns then IPCMNI / nb_ns
  else allowed.

Definition msg_init_ns (totalram totalhigh mem_unit nb_ns : Z) : msg_ns I :=
  {| msg_ctlmax := MSGMAX; msg_ctlmnb := MSGMNB;
     msg_ctlmni := recompute_msgmni totalram totalhigh mem_unit nb_ns;
     msg_bytes := 0; msg_hdrs := 0; msg_ids := ipc_init_ids; msg_queues := ∅;
     receivers := ∅; senders := ∅ |}.

Definition msg_lock (ns : msg_ns I) (id : Z) : Z + ptr := ipc_lock (msg_ids ns) (msg_queues ns) id.

Definition msg_lock_check (ns : msg_ns I) (id : Z) : Z + ptr :=
  ipc_lock_check (msg_ids ns) (msg_queues ns) id.

(** [alloc] is the address [ipc_rcu_alloc] returns. *)
Definition newque (t : task) (alloc : msg_ns I -> option ptr) (ns : msg_ns I) (params : ipc_params)
    : Z * msg_ns I :=
  match alloc ns with
  | None => (- ENOMEM, ns)
  | Some p =>
      let perm := {| deleted := false; perm_id := 0; perm_key := par_key params;
                     perm_uid := 0; perm_gid := 0; perm_cuid := 0; perm_cgid := 0;
                     perm_mode := Z.land (par_flg params) S_IRWXUGO; perm_seq := 0 |} in
      let retval := security_msg_queue_alloc lsm perm in
      if negb (retval =? 0) then (retval, ns)
      else
        let '(id, ids, perm) := ipc_addid (cur_cred t) (msg_ids ns) p perm (msg_ctlmni ns) in
        let ns := set_msg_ids ids ns in
        if id <? 0 then (id, ns)
        else
          (perm_id perm,
           put_queue p
             {| q_perm := perm; q_stime := 0; q_rtime := 0; q_ctime := now t; q_cbytes := 0;
                q_qnum := 0; q_qbytes := u64 (msg_ctlmnb ns); q_lspid := 0; q_lrpid := 0;
                q_messages := []; q_receivers := []; q_senders := [] |}
             (receivers ns) (senders ns) ns)
  end.

Definition msg_security (q : msg_queue) (msgflg : Z) : Z := security_msg_queue_associate lsm q msgflg.

Definition msgget (t : task) (alloc : msg_ns I -> option ptr) (mem : list bool) (ns : msg_ns I)
    (key msgflg : Z) : option (Z * msg_ns I) :=
  ipcget (cur_cred t) (msg_permission lsm) mem ns
    {| getnew := newque t alloc; associate := msg_security; more_checks := None |}
    {| par_key := key; par_flg := msgflg; par_u := 0 |}.

(** The messages are freed one by one, each lowering [msg_hdrs]; the queue
    stays readable for the tasks that wait for its lock, until RCU frees it. *)
Definition freeque (p : ptr) (q : msg_queue) (ns : msg_ns I) : msg_ns I :=
  let rs := expunge_all q (- EIDRM) (receivers ns) in
  let ss := ss_wakeup (q_senders q) true (senders ns) in
  let '(ids, perm) := ipc_rmid (msg_ids ns) (q_perm q) in
  let q := set_ipc_perm perm q in
  let hdrs := foldl (fun n _ => s32 (n - 1)) (msg_hdrs ns) (q_messages q) in
  set_total (s32 (msg_bytes ns - q_cbytes q)) hdrs (put_queue p q rs ss (set_msg_ids ids ns)).

(** [free_ipcs] with [freeque]. *)
Fixpoint free_queues (fuel : nat) (in_use total next_id : Z) (ns : msg_ns I) : option (msg_ns I) :=
  match fuel with
  | O => None
  | S fuel =>
      if total <? in_use then
        match idr_find (ipcs_idr (msg_ids ns)) next_id with
        | None => free_queues fuel in_use total (next_id + 1) ns
        | Some p =>
            match msg_queues ns !! p with
            | None => None
            | Some q => free_queues fuel in_use (total + 1) (next_id + 1) (freeque p q ns)
            end
        end
      else Some ns
  end.

Definition msg_exit_ns (ns : msg_ns I) : option (msg_ns I) :=
  match free_queues (S (Z.to_nat IPCMNI)) (in_use (msg_ids ns)) 0 0 ns with
  | None => None
  | Some ns => Some (set_msg_ids (ids_destroy (msg_ids ns)) ns)
  end.

(** ** msgctl *)

Definition set_queue_limits (qbytes : Z) (perm : kern_ipc_perm) (time : Z) (q : msg_queue)
    : msg_queue :=
  {| q_perm := perm; q_stime := q_stime q; q_rtime := q_rtime q; q_ctime := time;
     q_cbytes := q_cbytes q; q_qnum := q_qnum q; q_qbytes := qbytes;
     q_lspid := q_lspid q; q_lrpid := q_lrpid q; q_messages := q_messages q;
     q_receivers := q_receivers q; q_senders := q_senders q |}.

Definition msgctl_down (t : task) (ns : msg_ns I) (msqid cmd : Z) (buf : msqid_buf)
    (version : Z) : Z * msg_ns I :=
  let msqid64 := copy_msqid_from_user buf version in
  if (cmd =? IPC_SET) && match msqid64 with inl _ => true | inr _ => false end then (- EFAULT, ns)
  else
    match ipcctl_pre_down (cur_cred t) (msg_ids ns) (msg_queues ns) msqid with
    | inl err => (err, ns)
    | inr p =>
    match msg_queues ns !! p with
    | None => (- EINVAL, ns)
    | Some q =>
        let err := security_msg_queue_msgctl lsm (Some q) cmd in
        if negb (err =? 0) then (err, ns)
        else if cmd =? IPC_RMID then (err, freeque p q ns)
        else if cmd =? IPC_SET then
          match msqid64 with
          | inl _ => (- EFAULT, ns)
          | inr (perm, qbytes) =>
              if (qbytes >? u64 (msg_ctlmnb ns)) && negb (capable (cur_cred t) CAP_SYS_RESOURCE)
              then (- EPERM, ns)
              else
                let q := set_queue_limits qbytes (ipc_update_perm perm (q_perm q)) (now t) q in
                (err, put_queue p q (expunge_all q (- EAGAIN) (receivers ns))
                        (ss_wakeup (q_senders q) false (senders ns)) ns)
          end
        else (- EINVAL, ns)
    end
    end.

Definition msg_stat (q : msg_queue) : msqid64_ds :=
  {| ds_perm := kernel_to_ipc64_perm (q_perm q); ds_stime := q_stime q; ds_rtime := q_rtime q;
     ds_ctime := q_ctime q; ds_cbytes := q_cbytes q; ds_qnum := q_qnum q;
     ds_qbytes := q_qbytes q; ds_lspid := q_lspid q; ds_lrpid := q_lrpid q |}.

(** [nonnull]: the user pointer is not NULL. *)
Definition msgctl (t : task) (overflowuid overflowgid : Z) (nonnull ok : bool) (ns : msg_ns I)
    (msqid cmd : Z) (buf : msqid_buf) : Z * msg_out * msg_ns I :=
  if (msqid <? 0) || (cmd <? 0) then (- EINVAL, MOutNone, ns)
  else
    let '(version, cmd) := ipc_parse_version cmd in
    if (cmd =? IPC_INFO) || (cmd =? MSG_INFO) then
      if negb nonnull then (- EFAULT, MOutNone, ns)
      else
        let err := security_msg_queue_msgctl lsm None cmd in
        if negb (err =? 0) then (err, MOutNone, ns)
        else
          let info :=
            {| i_msgpool := if cmd =? MSG_INFO then in_use (msg_ids ns) else MSGPOOL;
               i_msgmap := if cmd =? MSG_INFO then msg_hdrs ns else MSGMAP;
               i_msgmax := msg_ctlmax ns; i_msgmnb := msg_ctlmnb ns; i_msgmni := msg_ctlmni ns;
               i_msgssz := MSGSSZ;
               i_msgtql := if cmd =? MSG_INFO then msg_bytes ns else MSGTQL;
               i_msgseg := MSGSEG |} in
          let max_id := ipc_get_maxid (msg_ids ns) in
          if negb ok then (- EFAULT, MOutNone, ns)
          else (if max_id <? 0 then 0 else max_id, MOutInfo info, ns)
    else if (cmd =? MSG_STAT) || (cmd =? IPC_STAT) then
      if negb nonnull then (- EFAULT, MOutNone, ns)
      else
        match (if cmd =? MSG_STAT then msg_lock ns msqid else msg_lock_check ns msqid) with
        | inl err => (err, MOutNone, ns)
        | inr p =>
        match msg_queues ns !! p with
        | None => (- EINVAL, MOutNone, ns)
        | Some q =>
            let success_return := if cmd =? MSG_STAT then perm_id (q_perm q) else 0 in
            if negb (ipcperms (cur_cred t) (msg_permission lsm) (q_perm q) S_IRUGO =? 0)
            then (- EACCES, MOutNone, ns)
            else
              let err := security_msg_queue_msgctl lsm (Some q) cmd in
              if negb (err =? 0) then (err, MOutNone, ns)
              else
                let '(failed, out) :=
                  copy_msqid_to_user overflowuid overflowgid ok (msg_stat q) version in
                if negb (failed =? 0) then (- EFAULT, MOutNone, ns)
                else (success_return, out, ns)
        end
        end
    else if (cmd =? IPC_SET) || (cmd =? IPC_RMID) then
      let '(err, ns) := msgctl_down t ns msqid cmd buf version in (err, MOutNone, ns)
    else (- EINVAL, MOutNone, ns).

(** ** msgsnd *)

Definition set_sent (pid time : Z) (q : msg_queue) : msg_queue :=
  {| q_perm := q_perm q; q_stime := time; q_rtime := q_rtime q; q_ctime := q_ctime q;
     q_cbytes := q_cbytes q; q_qnum := q_qnum q; q_qbytes := q_qbytes q;
     q_lspid := pid; q_lrpid := q_lrpid q; q_messages := q_messages q;
     q_receivers := q_receivers q; q_senders := q_senders q |}.

Definition set_messages (l : list msg_msg) (cbytes qnum : Z) (q : msg_queue) : msg_queue :=
  {| q_perm := q_perm q; q_stime := q_stime q; q_rtime := q_rtime q; q_ctime := q_ctime q;
     q_cbytes := cbytes; q_qnum := qnum; q_qbytes := q_qbytes q;
     q_lspid := q_lspid q; q_lrpid := q_lrpid q; q_messages := l;
     q_receivers := q_receivers q; q_senders := q_senders q |}.

(** The sums are those of unsigned longs. *)
Definition msg_fits (q : msg_queue) (msgsz : Z) : bool :=
  (u64 (msgsz + q_cbytes q) <=? q_qbytes q) && (u64 (1 + q_qnum q) <=? q_qbytes q).

Inductive snd_result :=
| SndDone (err : Z) (ns : msg_ns I)
| SndSleep (p : ptr) (ns : msg_ns I).

(** The end of [do_msgsnd], once the message fits. *)
Definition msg_deliver (t : task) (p : ptr) (q : msg_queue) (msg : msg_msg) (msgsz : Z)
    (ns : msg_ns I) : msg_ns I :=
  let q := set_sent (tgid t) (now t) q in
  let '(taken, q, rs) := pipelined_send lsm pid_of (now t) msg q (receivers ns) in
  if taken then put_queue p q rs (senders ns) ns
  else
    let q := set_messages (q_messages q ++ [msg]) (u64 (q_cbytes q + msgsz)) (u64 (q_qnum q + 1)) q in
    set_total (s32 (msg_bytes ns + msgsz)) (s32 (msg_hdrs ns + 1)) (put_queue p q rs (senders ns) ns).

(** One round of the loop on the locked queue [p]; [s] is the address of the
    [msg_sender] on the caller's stack. *)
Definition msgsnd_round (t : task) (p s : ptr) (msg : msg_msg) (msgsz msgflg : Z) (ns : msg_ns I)
    : snd_result :=
  match msg_queues ns !! p with
  | None => SndDone (- EINVAL) ns
  | Some q =>
      if negb (ipcperms (cur_cred t) (msg_permission lsm) (q_perm q) S_IWUGO =? 0)
      then SndDone (- EACCES) ns
      else
        let err := security_msg_queue_msgsnd lsm q msg msgflg in
        if negb (err =? 0) then SndDone err ns
        else if msg_fits q msgsz then SndDone 0 (msg_deliver t p q msg msgsz ns)
        else if has msgflg IPC_NOWAIT then SndDone (- EAGAIN) ns
        else
          let mss := {| s_tsk := cur t; s_linked := true; s_asleep := true; s_msgsz := msgsz |} in
          SndSleep p (put_queue p (set_senders (q_senders q ++ [s]) q) (receivers ns)
                        (<[s := mss]> (senders ns)) ns)
  end.

(** [load]: what [load_msg] returns for the user's buffer. *)
Definition do_msgsnd (t : task) (s : ptr) (load : Z -> Z + msg_msg) (ns : msg_ns I)
    (msqid mtype msgsz msgflg : Z) : snd_result :=
  if (msgsz >? u64 (msg_ctlmax ns)) || (s64 msgsz <? 0) || (msqid <? 0) then SndDone (- EINVAL) ns
  else if mtype <? 1 then SndDone (- EINVAL) ns
  else
    match load (s32 msgsz) with
    | inl err => SndDone err ns
    | inr msg =>
        let msg := {| m_type := mtype; m_ts := s32 msgsz; m_text := m_text msg; m_segs := m_segs msg |} in
        match msg_lock_check ns msqid with
        | inl err => SndDone err ns
        | inr p => msgsnd_round t p s msg msgsz msgflg ns
        end
    end.

(** The loop from the return of [schedule] to the next sleep. *)
Definition do_msgsnd_resume (t : task) (p s : ptr) (msg : msg_msg) (msgsz msgflg : Z)
    (signal : bool) (ns : msg_ns I) : snd_result :=
  match msg_queues ns !! p, senders ns !! s with
  | Some q, Some mss =>
      if deleted (q_perm q) then SndDone (- EIDRM) (set_stacks (receivers ns) (delete s (senders ns)) ns)
      else
        let q := if s_linked mss then set_senders (list_del s (q_senders q)) q else q in
        let ns := put_queue p q (receivers ns) (delete s (senders ns)) ns in
        if signal then SndDone (- ERESTARTNOHAND) ns
        else msgsnd_round t p s msg msgsz msgflg ns
  | _, _ => SndDone (- EINVAL) ns
  end.

(** ** msgrcv *)

Inductive rcv_result :=
| RcvDone (r : Z + msg_msg) (ns : msg_ns I)
| RcvSleep (p : ptr) (ns : msg_ns I).

(** Unlinking message [i] of the queue. *)
Definition msg_take (t : task) (p : ptr) (q : msg_queue) (i : nat) (msg : msg_msg) (ns : msg_ns I)
    : msg_ns I :=
  let q := set_received (tgid t) (now t)
             (set_messages (delete i (q_messages q)) (u64 (q_cbytes q - m_ts msg))
                (u64 (q_qnum q - 1)) q) in
  set_total (s32 (msg_bytes ns - m_ts msg)) (s32 (msg_hdrs ns - 1))
    (put_queue p q (receivers ns) (ss_wakeup (q_senders q) false (senders ns)) ns).

(** One round of the loop on the locked queue [p]; [r] is the address of the
    [msg_receiver] on the caller's stack. *)
Definition msgrcv_round (t : task) (p r : ptr) (msgsz msgtyp : Z) (mode : search_mode) (msgflg : Z)
    (ns : msg_ns I) : rcv_result :=
  match msg_queues ns !! p with
  | None => RcvDone (inl (- EINVAL)) ns
  | Some q =>
      if negb (ipcperms (cur_cred t) (msg_permission lsm) (q_perm q) S_IRUGO =? 0)
      then RcvDone (inl (- EACCES)) ns
      else
        match find_msg lsm (q_perm q) (cur t) mode 0 (q_messages q) msgtyp None with
        | Some i =>
            match q_messages q !! i with
            | None => RcvDone (inl (- EINVAL)) ns
            | Some msg =>
                if (msgsz <? u64 (m_ts msg)) && negb (has msgflg MSG_NOERROR)
                then RcvDone (inl (- E2BIG)) ns
                else RcvDone (inr msg) (msg_take t p q i msg ns)
            end
        | None =>
            if has msgflg IPC_NOWAIT then RcvDone (inl (- ENOMSG)) ns
            else
              let msr := {| r_tsk := cur t; r_mode := mode; r_msgtype := msgtyp;
                            r_maxsize := if has msgflg MSG_NOERROR then INT_MAX else s64 msgsz;
                            r_msg := RErr (- EAGAIN); r_asleep := true |} in
              RcvSleep p (put_queue p (set_receivers (q_receivers q ++ [r]) q)
                            (<[r := msr]> (receivers ns)) (senders ns) ns)
        end
  end.

Definition do_msgrcv (t : task) (r : ptr) (ns : msg_ns I) (msqid msgsz msgtyp msgflg : Z) : rcv_result :=
  if (msqid <? 0) || (s64 msgsz <? 0) then RcvDone (inl (- EINVAL)) ns
  else
    let '(mode, msgtyp) := convert_mode msgtyp msgflg in
    match msg_lock_check ns msqid with
    | inl err => RcvDone (inl err) ns
    | inr p => msgrcv_round t p r msgsz msgtyp mode msgflg ns
    end.

(** The loop from the return of [schedule] to the next sleep: the lockless
    receive, or under the lock when [r_msg] still is -EAGAIN. [other] is what
    the other tasks do between the first read of [r_msg] and the lock. *)
Definition do_msgrcv_resume (t : task) (other : msg_ns I -> msg_ns I) (p r : ptr)
    (msgsz msgtyp : Z) (mode : search_mode) (msgflg : Z) (signal : bool) (ns : msg_ns I)
    : rcv_result :=
  let leave ns := set_stacks (delete r (receivers ns)) (senders ns) ns in
  match receivers ns !! r with
  | None => RcvDone (inl (- EINVAL)) ns
  | Some msr =>
      match r_msg msr with
      | RMsg m => RcvDone (inr m) (leave ns)
      | RErr e =>
          if negb (e =? - EAGAIN) then RcvDone (inl e) (leave ns)
          else
            let ns := other ns in
            match receivers ns !! r with
            | None => RcvDone (inl (- EINVAL)) ns
            | Some msr =>
                match r_msg msr with
                | RMsg m => RcvDone (inr m) (leave ns)
                | RErr e =>
                    if negb (e =? - EAGAIN) then RcvDone (inl e) (leave ns)
                    else
                      match msg_queues ns !! p with
                      | None => RcvDone (inl (- EINVAL)) ns
                      | Some q =>
                          let ns := put_queue p (set_receivers (list_del r (q_receivers q)) q)
                                      (delete r (receivers ns)) (senders ns) ns in
                          if signal then RcvDone (inl (- ERESTARTNOHAND)) ns
                          else msgrcv_round t p r msgsz msgtyp mode msgflg ns
                      end
                end
            end
      end
  end.

(** What [do_msgrcv] copies to the user once it has the message: the length it
    returns, [*pmtype] and the text. *)
Definition msgrcv_copy (DATALEN_MSG DATALEN_SEG : Z) (msg : msg_msg) (room msgsz : Z)
    : option (Z * Z * list Z) :=
  let msgsz := if msgsz >? u64 (m_ts msg) then u64 (m_ts msg) else msgsz in
  match store_msg DATALEN_MSG DATALEN_SEG msg room (s32 msgsz) with
  | Stored out => Some (msgsz, m_type msg, out)
  | StoreFault => Some (- EFAULT, m_type msg, [])
  | StoreOops => None
  end.
End MsgNs.
Arguments SndDone {I}.
Arguments SndSleep {I}.
Arguments RcvDone {I}.
Arguments RcvSleep {I}.
