(* ===== verification/MsgInv.v ===== *)
(** * MsgInv: correctness of the message queues

    The invariant of the namespace of [Msg], its preservation by every system
    call, and the properties that follow: what is received, that nobody sleeps
    next to a message or to room they wait for, and the accounting. *)

From S2P Require Import Prelude IpcUtil Msg.

(** ** Copying a message in and out *)

Section Copy.
Context (DATALEN_MSG DATALEN_SEG : Z).
Hypothesis msg_pos : 0 < DATALEN_MSG.
Hypothesis seg_pos : 0 < DATALEN_SEG.

(** The segments a message of [len] bytes needs after [struct msg_msg]. *)
Definition nsegs (len : Z) : Z := Z.max 0 ((len + DATALEN_SEG - 1) / DATALEN_SEG).

(** Every segment but the last one is full. *)
Inductive chunked : list (list Z) -> Prop :=
| chunked_nil : chunked []
| chunked_last seg : 0 < Z.of_nat (length seg) <= DATALEN_SEG -> chunked [seg]
| chunked_cons seg segs : Z.of_nat (length seg) = DATALEN_SEG -> chunked segs -> chunked (seg :: segs).

Lemma nsegs_pred len : 0 < len -> nsegs (len - Z.min len DATALEN_SEG) = nsegs len - 1.
Proof.
  intros. unfold nsegs. assert (1 <= (len + DATALEN_SEG - 1) / DATALEN_SEG) by (apply Z.div_le_lower_bound; lia).
  destruct (Z.min_spec len DATALEN_SEG) as [[? ->]|[? ->]].
  - rewrite Z.sub_diag, Z.div_small by lia.
    assert ((len + DATALEN_SEG - 1) / DATALEN_SEG < 2) by (apply Z.div_lt_upper_bound; lia). lia.
  - replace (len - DATALEN_SEG + DATALEN_SEG - 1) with (len + DATALEN_SEG - 1 + (-1) * DATALEN_SEG) by lia.
    rewrite Z.div_add by lia. lia.
Qed.

Lemma load_segs_ok fuel : forall alloc src len,
  (Z.to_nat len <= fuel)%nat -> len <= Z.of_nat (length src) -> Forall (eq true) alloc ->
  nsegs len <= Z.of_nat (length alloc) ->
  exists segs, load_segs DATALEN_SEG fuel alloc src len = inr segs /\
    concat segs = take (Z.to_nat len) src /\ chunked segs.
Proof.
  induction fuel as [|fuel IH]; intros alloc src len Hf Hs Ha Hn; cbn [load_segs].
  { exists []. replace (Z.to_nat len) with 0%nat by lia. repeat constructor. }
  destruct (len >? 0) eqn:E; zbool.
  2:{ exists []. replace (Z.to_nat len) with 0%nat by lia. repeat constructor. }
  replace (if len >? DATALEN_SEG then DATALEN_SEG else len) with (Z.min len DATALEN_SEG)
    by (case_if; zbool; lia).
  pose proof (nsegs_pred len ltac:(lia)) as Hp. set (alen := Z.min len DATALEN_SEG) in *.
  assert (0 <= nsegs (len - alen)) by (unfold nsegs; lia).
  destruct alloc as [|b alloc]; [cbn in Hn; lia|]. apply Forall_cons in Ha as [<- Ha].
  replace (Z.of_nat (length src) <? alen) with false by lia.
  destruct (IH alloc (drop (Z.to_nat alen) src) (len - alen)) as (segs & -> & Hc & Hch).
  { lia. } { rewrite length_drop. lia. } { done. } { cbn [length] in Hn. lia. }
  eexists. split; [reflexivity|]. split.
  - cbn [concat]. rewrite Hc, (take_split (Z.to_nat len) (Z.to_nat alen)) by lia. do 2 f_equal. lia.
  - destruct (decide (len <= DATALEN_SEG)).
    + replace (len - alen) with 0 in Hc by lia. destruct Hch as [|seg Hseg|seg segs Hseg Hch].
      * apply chunked_last. rewrite length_take. lia.
      * apply (f_equal length) in Hc. rewrite take_0 in Hc. cbn in Hc. rewrite length_app in Hc. cbn in Hc. lia.
      * apply (f_equal length) in Hc. rewrite take_0 in Hc. cbn in Hc. rewrite length_app in Hc. lia.
    + apply chunked_cons; [|done]. rewrite length_take. lia.
Qed.

Lemma store_segs_ok segs : chunked segs -> forall room n, n <= Z.of_nat (length (concat segs)) ->
  store_segs DATALEN_SEG segs room n =
  if (0 <? n) && (room <? n) then StoreFault else Stored (take (Z.to_nat n) (concat segs)).
Proof.
  assert (forall n segs, n <= 0 -> Stored [] = Stored (take (Z.to_nat n) (concat segs))) as H0.
  { intros n l Hle. by replace (Z.to_nat n) with 0%nat by lia. }
  induction 1 as [|seg Hl|seg segs Hl _ IH]; intros room n Hn; cbn [store_segs]; rewrite Z.gtb_ltb;
    destruct (0 <? n) eqn:E; zbool; cbn [andb]; try (by apply H0); [cbn in Hn; lia| |].
  - cbn in Hn. rewrite app_nil_r in Hn. replace (n >? DATALEN_SEG) with false by lia.
    destruct (room <? n); [done|]. rewrite Z.sub_diag. cbn. by rewrite app_nil_r, app_nil_r.
  - cbn in Hn. rewrite length_app in Hn. destruct (n >? DATALEN_SEG) eqn:E1; zbool.
    + destruct (room <? DATALEN_SEG) eqn:E2; zbool; [by replace (room <? n) with true by lia|].
      rewrite IH by lia. replace (0 <? n - DATALEN_SEG) with true by lia.
      replace (room - DATALEN_SEG <? n - DATALEN_SEG) with (room <? n) by lia. cbn [andb].
      destruct (room <? n); [done|]. cbn. f_equal. rewrite take_ge, take_app by lia.
      rewrite (take_ge seg) by lia. do 2 f_equal. lia.
    + destruct (room <? n) eqn:E2; [done|]. rewrite Z.sub_diag, IH by lia. cbn.
      rewrite take_app_le by lia. by rewrite app_nil_r.
Qed.

(** What [load_msg] makes of a readable buffer. *)
Lemma load_msg_ok lsm alloc src len :
  0 <= len <= Z.of_nat (length src) -> Forall (eq true) alloc ->
  1 + nsegs (len - Z.min len DATALEN_MSG) <= Z.of_nat (length alloc) ->
  security_msg_msg_alloc lsm len = 0 ->
  exists m, load_msg DATALEN_MSG DATALEN_SEG lsm alloc src len = inr m /\
    m_text m ++ concat (m_segs m) = take (Z.to_nat len) src /\
    Z.of_nat (length (m_text m)) = Z.min len DATALEN_MSG /\ chunked (m_segs m).
Proof.
  intros Hl Ha Hn Hsec. unfold load_msg.
  replace (if len >? DATALEN_MSG then DATALEN_MSG else len) with (Z.min len DATALEN_MSG)
    by (case_if; zbool; lia).
  set (alen := Z.min len DATALEN_MSG) in *. assert (0 <= nsegs (len - alen)) by (unfold nsegs; lia).
  destruct alloc as [|b alloc]; [cbn in Hn; lia|]. apply Forall_cons in Ha as [<- Ha].
  replace (Z.of_nat (length src) <? alen) with false by lia.
  destruct (load_segs_ok (Z.to_nat len) alloc (drop (Z.to_nat alen) src) (len - alen)) as (segs & -> & Hc & Hch).
  { lia. } { rewrite length_drop. lia. } { done. } { cbn [length] in Hn. lia. }
  rewrite Hsec. eexists. split; [reflexivity|]. cbn. split; [|split; [rewrite length_take; lia|done]].
  rewrite Hc, (take_split (Z.to_nat len) (Z.to_nat alen)) by lia. do 2 f_equal. lia.
Qed.

Lemma store_msg_ok m room n :
  chunked (m_segs m) -> Z.of_nat (length (m_text m)) <= DATALEN_MSG ->
  (m_segs m <> [] -> Z.of_nat (length (m_text m)) = DATALEN_MSG) ->
  0 <= n <= Z.of_nat (length (m_text m ++ concat (m_segs m))) -> 0 <= room ->
  store_msg DATALEN_MSG DATALEN_SEG m room n =
  if room <? n then StoreFault else Stored (take (Z.to_nat n) (m_text m ++ concat (m_segs m))).
Proof.
  intros Hc Hle Heq Hn Hr. unfold store_msg. rewrite length_app in Hn.
  destruct (n >? DATALEN_MSG) eqn:E; zbool.
  - assert (Z.of_nat (length (m_text m)) = DATALEN_MSG) as El.
    { apply Heq. intros Es. rewrite Es in Hn. cbn in Hn. lia. }
    destruct (room <? DATALEN_MSG) eqn:E2; zbool; [by replace (room <? n) with true by lia|].
    rewrite store_segs_ok by (done || lia). replace (0 <? n - DATALEN_MSG) with true by lia.
    replace (room - DATALEN_MSG <? n - DATALEN_MSG) with (room <? n) by lia. cbn [andb].
    destruct (room <? n); [done|]. cbn. f_equal. rewrite take_app, (take_ge (m_text m) (Z.to_nat DATALEN_MSG)), (take_ge (m_text m) (Z.to_nat n)) by lia. do 2 f_equal. lia.
  - destruct (room <? n) eqn:E2; [done|]. rewrite Z.sub_diag, store_segs_ok by (done || lia). cbn.
    f_equal. rewrite app_nil_r. destruct (decide (m_segs m = [])) as [Es|Hne].
    + rewrite Es. cbn. by rewrite app_nil_r.
    + rewrite take_app_le; [done|]. specialize (Heq Hne). lia.
Qed.
End Copy.

(** ** The search of msgrcv *)

Section Search.
Context (lsm : msg_lsm).

(** A receiver that looks for [type] in [mode] may take [m]. *)
Definition wants (perm : kern_ipc_perm) (tsk : ptr) (type : Z) (mode : search_mode) (m : msg_msg) : bool :=
  testmsg m type mode && (security_msg_queue_msgrcv lsm perm m tsk type mode =? 0).

Lemma find_msg_some perm tsk mode walk : forall i typ n,
  is_Some (find_msg lsm perm tsk mode i walk typ (Some n)).
Proof.
  induction walk as [|w walk IH]; intros i typ n; cbn [find_msg]; [by eexists|].
  destruct (_ && _); [|apply IH]. destruct (_ && _); [apply IH|by eexists].
Qed.

Lemma find_msg_none perm tsk mode walk typ : forall i,
  find_msg lsm perm tsk mode i walk typ None = None ->
  Forall (fun m => wants perm tsk typ mode m = false) walk.
Proof.
  induction walk as [|w walk IH]; intros i; cbn [find_msg]; [constructor|].
  fold (wants perm tsk typ mode w). destruct (wants perm tsk typ mode w) eqn:E.
  - destruct (_ && _); [|done]. intros Hn. destruct (find_msg_some perm tsk mode walk (S i) (m_type w - 1) i).
    congruence.
  - constructor; [done|by eapply IH].
Qed.

Lemma find_msg_elem perm tsk mode walk : forall i typ acc n,
  find_msg lsm perm tsk mode i walk typ acc = Some n ->
  acc = Some n \/ exists k m, n = (i + k)%nat /\ walk !! k = Some m.
Proof.
  induction walk as [|w walk IH]; intros i typ acc n; cbn [find_msg]; [by left|].
  assert (forall acc' typ', find_msg lsm perm tsk mode (S i) walk typ' acc' = Some n ->
    acc' = Some n \/ exists k m, n = (i + k)%nat /\ (w :: walk) !! k = Some m) as Hs.
  { intros acc' typ' Hf. destruct (IH _ _ _ _ Hf) as [?|(k & m & -> & Hk)]; [by left|]. right.
    exists (S k), m. split; [lia|done]. }
  destruct (_ && _); [|apply Hs]. destruct (_ && _).
  - intros Hf. right. destruct (Hs _ _ Hf) as [[= <-]|?]; [|done]. exists 0%nat, w. split; [lia|done].
  - intros [= <-]. right. exists 0%nat, w. split; [lia|done].
Qed.



(** ** Handing a message to a receiver *)

Definition accepts (perm : kern_ipc_perm) (msg : msg_msg) (rs : gmap ptr msg_receiver) (r : ptr) : bool :=
  match rs !! r with
  | Some x => wants perm (r_tsk x) (r_msgtype x) (r_mode x) msg
  | None => false
  end.

Definition big_enough (msg : msg_msg) (rs : gmap ptr msg_receiver) (r : ptr) : bool :=
  match rs !! r with Some x => m_ts msg <=? r_maxsize x | None => false end.

(** The first receiver that accepts the message and has room for it, with the
    receivers before and after it. *)
Fixpoint first_taker (perm : kern_ipc_perm) (msg : msg_msg) (rs : gmap ptr msg_receiver) (l : list ptr)
    : list ptr * option (ptr * list ptr) :=
  match l with
  | [] => ([], None)
  | r :: l =>
      if accepts perm msg rs r && big_enough msg rs r then ([], Some (r, l))
      else let '(l1, o) := first_taker perm msg rs l in (r :: l1, o)
  end.

(** The receivers that go on waiting, of those examined before the taker. *)
Definition passed_over (perm : kern_ipc_perm) (msg : msg_msg) (rs : gmap ptr msg_receiver) (l : list ptr)
    : list ptr := filter (fun r => accepts perm msg rs r = false) l.

(** The receivers as the walk leaves them: those before the taker that accept
    the message get -E2BIG, the taker gets the message. *)
Definition after_send (perm : kern_ipc_perm) (msg : msg_msg) (rs : gmap ptr msg_receiver) (l1 : list ptr)
    (taker : option ptr) (r : ptr) : option msg_receiver :=
  if decide (taker = Some r) then set_r_msg (RMsg msg) <$> rs !! r
  else if decide (r ∈ l1 /\ accepts perm msg rs r = true) then set_r_msg (RErr (- E2BIG)) <$> rs !! r
  else rs !! r.

Lemma accepts_set perm msg rs r x e y :
  rs !! r = Some x -> accepts perm msg (<[r := set_r_msg e x]> rs) y = accepts perm msg rs y.
Proof.
  intros Hx. unfold accepts. destruct (decide (y = r)) as [->|]; [by rewrite lookup_insert_eq, Hx|].
  by rewrite lookup_insert_ne.
Qed.

Lemma big_set msg rs r x e y :
  rs !! r = Some x -> big_enough msg (<[r := set_r_msg e x]> rs) y = big_enough msg rs y.
Proof.
  intros Hx. unfold big_enough. destruct (decide (y = r)) as [->|]; [by rewrite lookup_insert_eq, Hx|].
  by rewrite lookup_insert_ne.
Qed.

Lemma first_taker_set perm msg rs r x e l :
  rs !! r = Some x -> first_taker perm msg (<[r := set_r_msg e x]> rs) l = first_taker perm msg rs l.
Proof.
  intros Hx. induction l as [|y l IH]; [done|]. cbn [first_taker].
  by rewrite (accepts_set perm msg rs r x), (big_set msg rs r x), IH.
Qed.

Lemma first_taker_spec perm msg rs l :
  let '(l1, o) := first_taker perm msg rs l in
  Forall (fun r => accepts perm msg rs r && big_enough msg rs r = false) l1 /\
  match o with
  | Some (r, l2) => l = l1 ++ r :: l2 /\ accepts perm msg rs r = true /\ big_enough msg rs r = true
  | None => l = l1
  end.
Proof.
  induction l as [|r l IH]; cbn [first_taker]; [by split|]. destruct (_ && _) eqn:E.
  - zbool. by split.
  - destruct (first_taker perm msg rs l) as [l1 o]. destruct IH as [Hf Ho]. split; [by constructor|].
    destruct o as [[r' l2]|]; [|by subst]. destruct Ho as (-> & ? & ?). done.
Qed.

Lemma first_taker_sub perm msg rs l l1 o :
  first_taker perm msg rs l = (l1, o) -> (forall y, y ∈ l1 -> y ∈ l) /\ (forall y, fst <$> o = Some y -> y ∈ l).
Proof.
  intros E. pose proof (first_taker_spec perm msg rs l) as H. rewrite E in H. destruct H as [_ Ho].
  destruct o as [[r l2]|]; [|by subst; split]. destruct Ho as (-> & _). cbn.
  split; [intros y Hy; apply elem_of_app; by left|]. intros y [= <-]. apply elem_of_app. right. left.
Qed.

(** One receiver more in front of those examined. *)
Lemma after_send_skip perm msg rs r l1 o :
  accepts perm msg rs r = false -> forall y,
  after_send perm msg rs l1 o y = after_send perm msg rs (r :: l1) o y.
Proof.
  intros Ha y. unfold after_send. case_decide; [done|].
  destruct (decide (y ∈ l1 /\ accepts perm msg rs y = true)) as [[Hy Hacc]|Hn].
  - rewrite decide_True; [done|]. split; [by right|done].
  - rewrite decide_False; [done|]. intros [[->|?]%elem_of_cons ?]; [congruence|tauto].
Qed.

Lemma after_send_refuse perm msg rs r x l1 o :
  rs !! r = Some x -> accepts perm msg rs r = true -> r ∉ l1 -> o <> Some r -> forall y,
  after_send perm msg (<[r := set_r_msg (RErr (- E2BIG)) x]> rs) l1 o y = after_send perm msg rs (r :: l1) o y.
Proof.
  intros Hx Ha Hl Ho y. unfold after_send. rewrite (accepts_set perm msg rs r x) by done.
  destruct (decide (y = r)) as [->|Hne].
  - destruct (decide (o = Some r)); [done|]. destruct (decide (r ∈ l1 /\ _)) as [[? _]|_]; [done|].
    rewrite decide_True by (split; [left|done]). by rewrite lookup_insert_eq, Hx.
  - rewrite lookup_insert_ne by done. case_decide; [done|].
    destruct (decide (y ∈ l1 /\ accepts perm msg rs y = true)) as [[Hy Hacc]|Hn].
    + rewrite decide_True; [done|]. split; [by right|done].
    + rewrite decide_False; [done|]. intros [[->|?]%elem_of_cons ?]; [done|tauto].
Qed.

Lemma pipelined_walk_eq pid_of time msg walk : forall pre q rs,
  q_receivers q = pre ++ walk -> NoDup (pre ++ walk) -> (forall r, r ∈ walk -> is_Some (rs !! r)) ->
  let '(l1, o) := first_taker (q_perm q) msg rs walk in
  let '(taken, q', rs') := pipelined_walk lsm pid_of time msg walk q rs in
  taken = bool_decide (is_Some o) /\
  q' = (if o is Some (r, l2) then
          set_received (pid_of (from_option r_tsk 0%nat (rs !! r))) time
            (set_receivers (pre ++ passed_over (q_perm q) msg rs l1 ++ l2) q)
        else set_receivers (pre ++ passed_over (q_perm q) msg rs l1) q) /\
  forall r, rs' !! r = after_send (q_perm q) msg rs l1 (fst <$> o) r.
Proof.
  induction walk as [|r walk IH]; intros pre q rs Eq Hnd Hin; cbn [first_taker pipelined_walk].
  { split; [done|]. split; [destruct q; cbn in *; by subst|]. intros r. unfold after_send. cbn.
    destruct (decide (r ∈ [] /\ _)) as [[Hn _]|_]; [by apply not_elem_of_nil in Hn|done]. }
  destruct (Hin r ltac:(left)) as [x Hx]. rewrite Hx.
  apply NoDup_app in Hnd as (Hndp & Hdis & [Hrw Hndw]%NoDup_cons).
  assert (r ∉ pre) as Hrp by (intros Hp; apply (Hdis r Hp); left).
  assert (forall y, y ∈ walk -> is_Some (rs !! y)) as Hin' by (intros; apply Hin; by right).
  assert (NoDup (pre ++ walk)) as Hnd'.
  { apply NoDup_app. split; [done|]. split; [|done]. intros y Hy Hyw. apply (Hdis y Hy). by right. }
  fold (wants (q_perm q) (r_tsk x) (r_msgtype x) (r_mode x) msg).
  assert (accepts (q_perm q) msg rs r = wants (q_perm q) (r_tsk x) (r_msgtype x) (r_mode x) msg) as Ea
    by (unfold accepts; by rewrite Hx).
  assert (big_enough msg rs r = negb (r_maxsize x <? m_ts msg)) as Eb
    by (unfold big_enough; rewrite Hx; lia).
  rewrite <- Ea, Eb. destruct (accepts (q_perm q) msg rs r) eqn:Eacc; cbn [andb].
  - rewrite Eq, list_del_middle by done. set (q1 := set_receivers (pre ++ walk) q).
    destruct (r_maxsize x <? m_ts msg) eqn:E; cbn [negb].
    + set (rs1 := <[r := _]> rs). specialize (IH pre q1 rs1 eq_refl Hnd').
      pose proof (first_taker_set (q_perm q) msg rs r x (RErr (- E2BIG)) walk Hx) as Et. fold rs1 in Et.
      change (q_perm q1) with (q_perm q) in IH. rewrite Et in IH.
      destruct (first_taker (q_perm q) msg rs walk) as [l1 o] eqn:Ef.
      destruct (first_taker_sub _ _ _ _ _ _ Ef) as [Hl1 Ho].
      assert (passed_over (q_perm q) msg rs1 l1 = passed_over (q_perm q) msg rs (r :: l1)) as Ep.
      { unfold passed_over. rewrite filter_cons_False by (by rewrite Eacc). apply list_filter_iff.
        intros y. unfold rs1. by rewrite (accepts_set _ _ rs r x). }
      destruct (pipelined_walk lsm pid_of time msg walk q1 rs1) as [[taken q'] rs'].
      destruct IH as (-> & -> & Hrs).
      { intros y Hy. unfold rs1. rewrite lookup_insert_ne; [by apply Hin'|]. by intros ->. }
      split; [done|]. split.
      * rewrite Ep. destruct o as [[r' l2]|]; [|by destruct q].
        unfold rs1. rewrite lookup_insert_ne; [by destruct q|]. intros ->. by apply Hrw, Ho.
      * intros y. rewrite Hrs. apply after_send_refuse; [done|done|by intros ?%Hl1|by intros ?%Ho].
    + split; [done|]. rewrite Hx. split; [by destruct q|]. intros y. unfold after_send. cbn.
      destruct (decide (Some r = Some y)) as [[= <-]|Hne]; [by rewrite lookup_insert_eq, Hx|].
      destruct (decide (y ∈ [] /\ _)) as [[Hn _]|_]; [by apply not_elem_of_nil in Hn|].
      rewrite lookup_insert_ne; [done|congruence].
  - specialize (IH (pre ++ [r]) q rs). rewrite <- !app_assoc in IH. cbn in IH.
    specialize (IH Eq). destruct (first_taker (q_perm q) msg rs walk) as [l1 o].
    destruct (pipelined_walk lsm pid_of time msg walk q rs) as [[taken q'] rs'].
    destruct IH as (-> & -> & Hrs); [|done|].
    { apply NoDup_app. split; [done|]. split; [done|]. by constructor. }
    split; [done|]. split.
    + unfold passed_over at 3 4. rewrite filter_cons_True by done.
      destruct o as [[r' l2]|]; by rewrite <- !app_assoc.
    + intros y. rewrite Hrs. by apply after_send_skip.
Qed.
End Search.

(** ** The invariant *)

Definition bytes (l : list msg_msg) : Z := foldr (fun m n => m_ts m + n) 0 l.

Lemma bytes_app l1 l2 : bytes (l1 ++ l2) = bytes l1 + bytes l2.
Proof. unfold bytes. induction l1 as [|m l1 IH]; cbn; lia. Qed.

Lemma bytes_delete i l m : l !! i = Some m -> bytes l = bytes (delete i l) + m_ts m.
Proof.
  intros Hm. transitivity (bytes (take i l ++ m :: drop (S i) l)); [by rewrite take_drop_middle|].
  rewrite delete_take_drop, !bytes_app. unfold bytes. cbn [foldr]. lia.
Qed.

(** The sum over the live queues. *)
Definition live_sum (f : msg_queue -> Z) (m : gmap ptr msg_queue) : Z :=
  map_fold (fun _ q n => (if deleted (q_perm q) then 0 else f q) + n) 0 m.

Lemma live_sum_insert_new f m p q :
  m !! p = None -> live_sum f (<[p := q]> m) = (if deleted (q_perm q) then 0 else f q) + live_sum f m.
Proof. intros Hp. unfold live_sum. rewrite map_fold_insert_L; [done| |done]. intros; lia. Qed.

Lemma live_sum_insert f m p q q' :
  m !! p = Some q ->
  live_sum f (<[p := q']> m) =
  live_sum f m - (if deleted (q_perm q) then 0 else f q) + (if deleted (q_perm q') then 0 else f q').
Proof.
  intros Hp. rewrite <- (insert_delete_id m p q Hp) at 2. rewrite <- insert_delete_eq.
  rewrite !live_sum_insert_new by apply lookup_delete_eq. lia.
Qed.

(** The entries of one kind of wait list: [on] is the list of a queue, [waits]
    says that an entry has no answer yet, [asleep] that its task sleeps. *)
Section WaitLists.
Context {A : Type} (on : msg_queue -> list ptr) (waits asleep : A -> Prop).

Record wait_lists (m : gmap ptr A) (qs : gmap ptr msg_queue) : Prop := {
  wl_nodup p q : qs !! p = Some q -> deleted (q_perm q) = false -> NoDup (on q);
  wl_on p q x : qs !! p = Some q -> deleted (q_perm q) = false -> x ∈ on q ->
    exists a, m !! x = Some a /\ waits a;
  wl_owner p p' q q' x : qs !! p = Some q -> qs !! p' = Some q' ->
    deleted (q_perm q) = false -> deleted (q_perm q') = false -> x ∈ on q -> x ∈ on q' -> p = p';
  wl_waits x a : m !! x = Some a -> waits a ->
    exists p q, qs !! p = Some q /\ deleted (q_perm q) = false /\ x ∈ on q;
  wl_asleep x a : m !! x = Some a -> asleep a -> waits a
}.

(** A step on one queue: it may answer and drop its own entries, and add one
    that was not in use. *)
Record wait_local (m m' : gmap ptr A) (q q' : msg_queue) : Prop := {
  wc_nodup : NoDup (on q) -> NoDup (on q');
  wc_other x : x ∉ on q -> m' !! x = m !! x \/ m !! x = None;
  wc_sub x : deleted (q_perm q') = false -> x ∈ on q' ->
    (x ∈ on q \/ m !! x = None) /\ exists a, m' !! x = Some a /\ waits a;
  wc_still x a : x ∈ on q \/ m !! x = None -> m' !! x = Some a -> waits a ->
    deleted (q_perm q') = false /\ x ∈ on q';
  wc_asleep x a : x ∈ on q \/ m !! x = None -> m' !! x = Some a -> asleep a -> waits a
}.

(** The other queues keep their entries. *)
Lemma wait_other m m' qs p q q' r b x :
  wait_lists m qs -> wait_local m m' q q' -> qs !! p = Some q -> deleted (q_perm q) = false ->
  r <> p -> qs !! r = Some b -> deleted (q_perm b) = false -> x ∈ on b ->
  m' !! x = m !! x /\ (x ∉ on q) /\ (deleted (q_perm q') = false -> x ∉ on q').
Proof.
  intros W L Hq Hd Hne Hb Hdb Hx. destruct (wl_on _ _ W r b x Hb Hdb Hx) as (a & Ha & _).
  assert (x ∉ on q) as Hn by (intros Hx'; by apply Hne, (wl_owner _ _ W r p b q x)). split; [|split; [done|]].
  - destruct (wc_other _ _ _ _ L x Hn); congruence.
  - intros Hd' Hx'. destruct (wc_sub _ _ _ _ L x Hd' Hx') as [[?|?] _]; congruence.
Qed.

Lemma wait_lists_local m m' qs p q q' :
  wait_lists m qs -> qs !! p = Some q -> deleted (q_perm q) = false -> wait_local m m' q q' ->
  wait_lists m' (<[p := q']> qs).
Proof.
  intros W Hq Hd L.
  assert (forall r b, <[p := q']> qs !! r = Some b -> r = p /\ b = q' \/ r <> p /\ qs !! r = Some b) as Hqs.
  { intros r b. rewrite lookup_insert_Some. intros [[-> ->]|[? ?]]; [by left|by right]. }
  pose proof (fun r b x => wait_other m m' qs p q q' r b x W L Hq Hd) as Ho.
  assert (forall x a, m' !! x = Some a -> (x ∈ on q \/ m !! x = None) \/ (x ∉ on q) /\ m !! x = Some a) as Hm.
  { intros x a Hx. destruct (decide (x ∈ on q)); [by left; left|].
    destruct (wc_other _ _ _ _ L x) as [E|E]; [done| |by left; right]. rewrite <- E. by right. }
  constructor.
  - intros r b [[-> ->]|[Hne Hb]]%Hqs Hdb; [|by apply (wl_nodup _ _ W r)].
    by apply (wc_nodup _ _ _ _ L), (wl_nodup _ _ W p).
  - intros r b x [[-> ->]|[Hne Hb]]%Hqs Hdb Hx; [by apply (wc_sub _ _ _ _ L)|].
    destruct (Ho r b x Hne Hb Hdb Hx) as [-> _]. by apply (wl_on _ _ W r b).
  - intros r r' b b' x [[-> ->]|[Hne Hb]]%Hqs [[-> ->]|[Hne' Hb']]%Hqs D D' Hx Hx'; [done| | |].
    + by destruct (Ho r' b' x Hne' Hb' D' Hx') as (_ & _ & []).
    + by destruct (Ho r b x Hne Hb D Hx) as (_ & _ & []).
    + by apply (wl_owner _ _ W r r' b b' x).
  - intros x a Hx Hw. destruct (Hm x a Hx) as [Hor|[Hn Hx0]].
    + destruct (wc_still _ _ _ _ L x a Hor Hx Hw). exists p, q'. by rewrite lookup_insert_eq.
    + destruct (wl_waits _ _ W x a Hx0 Hw) as (r & b & Hb & Hdb & Hin). exists r, b.
      rewrite lookup_insert_ne; [done|]. intros <-. by simplify_eq.
  - intros x a Hx Has. destruct (Hm x a Hx) as [Hor|[Hn Hx0]]; [by apply (wc_asleep _ _ _ _ L x)|].
    by apply (wl_asleep _ _ W x).
Qed.
End WaitLists.

Definition r_waits (x : msg_receiver) : Prop := r_msg x = RErr (- EAGAIN).
Definition s_waits (x : msg_sender) : Prop := s_linked x = true.

#[local] Arguments expunge_all : simpl never.
#[local] Arguments ss_wakeup : simpl never.
#[local] Arguments ipc_rmid : simpl never.
#[local] Arguments bytes : simpl never.

Section Inv.
Context {I : Type} `{IdrLaws I}.
Context (lsm : msg_lsm) (pid_of : ptr -> Z).
Implicit Types ns : msg_ns I.

(** [msg_qbytes] above this bound is not considered: sums of unsigned longs
    then cannot wrap around. *)
Definition QBYTES_MAX : Z := 2 ^ 63.

Record queue_ok (rs : gmap ptr msg_receiver) (ss : gmap ptr msg_sender) (q : msg_queue) : Prop := {
  qo_cbytes : q_cbytes q = bytes (q_messages q);
  qo_qnum : q_qnum q = Z.of_nat (length (q_messages q));
  qo_bounds : q_cbytes q <= QBYTES_MAX /\ q_qnum q <= QBYTES_MAX /\ 0 <= q_qbytes q <= QBYTES_MAX;
  qo_msgs : Forall (fun m => 1 <= m_type m /\ 0 <= m_ts m <= INT_MAX) (q_messages q);
  (** a sleeping receiver has nothing to take *)
  qo_wait r x : r ∈ q_receivers q -> rs !! r = Some x -> r_asleep x = true ->
    Forall (fun m => wants lsm (q_perm q) (r_tsk x) (r_msgtype x) (r_mode x) m = false) (q_messages q);
  (** a sleeping sender has no room *)
  qo_full s x : s ∈ q_senders q -> ss !! s = Some x -> s_asleep x = true ->
    0 <= s_msgsz x <= INT_MAX /\ msg_fits q (s_msgsz x) = false
}.

Definition rcv_lists := wait_lists q_receivers r_waits (fun x => r_asleep x = true).
Definition snd_lists := wait_lists q_senders s_waits (fun x => s_asleep x = true).

Record msg_wf (ns : msg_ns I) : Prop := {
  mw_ids : ids_wf (msg_ids ns) (msg_queues ns);
  mw_keys : keys_unique (msg_queues ns);
  mw_max : 0 <= msg_ctlmax ns <= INT_MAX /\ 0 <= msg_ctlmnb ns <= INT_MAX;
  mw_queue p q : msg_queues ns !! p = Some q -> deleted (q_perm q) = false ->
    queue_ok (receivers ns) (senders ns) q;
  mw_rcv : rcv_lists (receivers ns) (msg_queues ns);
  mw_snd : snd_lists (senders ns) (msg_queues ns);
  mw_bytes : msg_bytes ns = s32 (live_sum (fun q => bytes (q_messages q)) (msg_queues ns));
  mw_hdrs : msg_hdrs ns = s32 (live_sum (fun q => Z.of_nat (length (q_messages q))) (msg_queues ns))
}.

(** The queue only sees its own receivers and senders. *)
Lemma queue_ok_ext rs rs' ss ss' q :
  queue_ok rs ss q -> (forall r, r ∈ q_receivers q -> rs' !! r = rs !! r) ->
  (forall s, s ∈ q_senders q -> ss' !! s = ss !! s) -> queue_ok rs' ss' q.
Proof.
  intros O Hr Hs. constructor; try apply O.
  - intros r x Hin. rewrite Hr by done. by apply O.
  - intros s x Hin. rewrite Hs by done. by apply O.
Qed.

Definition rcv_local := wait_local q_receivers r_waits (fun x => r_asleep x = true).
Definition snd_local := wait_local q_senders s_waits (fun x => s_asleep x = true).

(** A step on the live queue [p]. *)
Record local (ns ns' : msg_ns I) (p : ptr) (q q' : msg_queue) : Prop := {
  lc_queues : msg_queues ns' = <[p := q']> (msg_queues ns);
  lc_max : msg_ctlmax ns' = msg_ctlmax ns /\ msg_ctlmnb ns' = msg_ctlmnb ns;
  lc_ids : ids_wf (msg_ids ns') (msg_queues ns');
  lc_key : perm_key (q_perm q') = perm_key (q_perm q);
  lc_ok : deleted (q_perm q') = false -> queue_ok (receivers ns') (senders ns') q';
  lc_rcv : rcv_local (receivers ns) (receivers ns') q q';
  lc_snd : snd_local (senders ns) (senders ns') q q';
  lc_bytes : msg_bytes ns' = s32 (msg_bytes ns - bytes (q_messages q) +
    (if deleted (q_perm q') then 0 else bytes (q_messages q')));
  lc_hdrs : msg_hdrs ns' = s32 (msg_hdrs ns - Z.of_nat (length (q_messages q)) +
    (if deleted (q_perm q') then 0 else Z.of_nat (length (q_messages q'))))
}.

Lemma local_total (total total' : Z) (f : msg_queue -> Z) (m : gmap ptr msg_queue) p q q' :
  m !! p = Some q -> deleted (q_perm q) = false -> total = s32 (live_sum f m) ->
  total' = s32 (total - f q + (if deleted (q_perm q') then 0 else f q')) ->
  total' = s32 (live_sum f (<[p := q']> m)).
Proof.
  intros Hq Hd -> ->. rewrite (live_sum_insert f m p q q' Hq), Hd. unfold s32.
  rewrite <- Z.add_opp_r, <- Z.add_assoc, wraps_add_l. f_equal. lia.
Qed.

Lemma local_ok ns ns' p q q' :
  msg_wf ns -> msg_queues ns !! p = Some q -> deleted (q_perm q) = false -> local ns ns' p q q' -> msg_wf ns'.
Proof.
  intros W Hq Hd L. pose proof (lc_queues _ _ _ _ _ L) as Es.
  constructor; rewrite ?Es.
  - rewrite <- Es. apply L.
  - apply (keys_unique_change _ p q); [apply W|done|apply L|done].
  - destruct (lc_max _ _ _ _ _ L) as [-> ->]. apply W.
  - intros r b. rewrite lookup_insert_Some. intros [[-> <-]|[Hne Hb]] Hdb; [by apply L|].
    apply (queue_ok_ext (receivers ns) _ (senders ns)); [by apply (mw_queue _ W r)| |].
    + intros x Hx. by destruct (wait_other _ _ _ _ _ _ p q q' r b x (mw_rcv _ W) (lc_rcv _ _ _ _ _ L) Hq Hd).
    + intros x Hx. by destruct (wait_other _ _ _ _ _ _ p q q' r b x (mw_snd _ W) (lc_snd _ _ _ _ _ L) Hq Hd).
  - by apply (wait_lists_local _ _ _ (receivers ns) _ _ p q); [apply W|..|apply L].
  - by apply (wait_lists_local _ _ _ (senders ns) _ _ p q); [apply W|..|apply L].
  - apply (local_total (msg_bytes ns) _ (fun q => bytes (q_messages q)) _ p q q'); [done|done|apply W|apply L].
  - apply (local_total (msg_hdrs ns) _ (fun q => Z.of_nat (length (q_messages q))) _ p q q'); [done|done|apply W|apply L].
Qed.

Lemma total_same (total x k : Z) : total = s32 x -> total = s32 (total - k + k).
Proof.
  intros ->. unfold s32. rewrite Z.sub_add. pose proof (wraps_add_l 32 x 0) as E.
  rewrite !Z.add_0_r in E. by rewrite E.
Qed.

Lemma bytes_nonneg l : Forall (fun m => 1 <= m_type m /\ 0 <= m_ts m <= INT_MAX) l -> 0 <= bytes l.
Proof. unfold bytes. induction 1 as [|m l Hm _ IH]; cbn; lia. Qed.

(** Under the bounds the test of msgsnd is the one it means. *)
Lemma msg_fits_eq rs ss q sz :
  queue_ok rs ss q -> 0 <= sz <= INT_MAX ->
  msg_fits q sz = (sz + bytes (q_messages q) <=? q_qbytes q) &&
                  (1 + Z.of_nat (length (q_messages q)) <=? q_qbytes q).
Proof.
  intros O Hs. unfold msg_fits, u64. rewrite (qo_cbytes _ _ _ O), (qo_qnum _ _ _ O).
  pose proof (qo_bounds _ _ _ O) as Hb. rewrite (qo_cbytes _ _ _ O), (qo_qnum _ _ _ O) in Hb.
  pose proof (bytes_nonneg _ (qo_msgs _ _ _ O)). unfold QBYTES_MAX, INT_MAX in *.
  rewrite !wrapu_small by lia. done.
Qed.

(** *** Steps on the wait lists *)

Lemma wait_local_same {A} on (waits asleep : A -> Prop) m qs p q q' :
  wait_lists on waits asleep m qs -> qs !! p = Some q -> deleted (q_perm q) = false ->
  on q' = on q -> deleted (q_perm q') = false -> wait_local on waits asleep m m q q'.
Proof.
  intros W Hq Hd E Hd'. constructor; rewrite ?E.
  - done.
  - by left.
  - intros x _ Hx. split; [by left|by apply (wl_on _ _ _ _ _ W p q)].
  - intros x a [Hx|Hx] Ha; [done|congruence].
  - intros x a _ Ha. by apply (wl_asleep _ _ _ _ _ W x).
Qed.

(** A new entry at the end of the list. *)
Lemma wait_local_add {A} on (waits asleep : A -> Prop) m qs p q q' x a :
  wait_lists on waits asleep m qs -> qs !! p = Some q -> deleted (q_perm q) = false ->
  on q' = on q ++ [x] -> deleted (q_perm q') = false -> m !! x = None -> waits a ->
  wait_local on waits asleep m (<[x := a]> m) q q'.
Proof.
  intros W Hq Hd E Hd' Hx Hw. assert (x ∉ on q) as Hn.
  { intros Hin. destruct (wl_on _ _ _ _ _ W p q x Hq Hd Hin) as (y & ? & _). congruence. }
  constructor; rewrite ?E.
  - intros Hnd. apply NoDup_app. split; [done|]. split; [|apply NoDup_singleton].
    intros y Hy ->%list_elem_of_singleton. done.
  - intros y _. destruct (decide (y = x)) as [->|]; [by right|left; by rewrite lookup_insert_ne].
  - intros y _ [Hy| ->%list_elem_of_singleton]%elem_of_app; [|rewrite lookup_insert_eq; eauto].
    split; [by left|]. rewrite lookup_insert_ne by (by intros ->). by apply (wl_on _ _ _ _ _ W p q).
  - intros y b Hor. rewrite lookup_insert_Some. rewrite elem_of_app, list_elem_of_singleton.
    intros [[<- <-]|[Hne Hy]] _; [tauto|]. destruct Hor; [tauto|congruence].
  - intros y b _. rewrite lookup_insert_Some. intros [[<- <-]|[Hne Hy]]; [done|]. by apply (wl_asleep _ _ _ _ _ W y).
Qed.

(** An entry leaves the list with its task. *)
Lemma wait_local_del {A} on (waits asleep : A -> Prop) m qs p q q' x :
  wait_lists on waits asleep m qs -> qs !! p = Some q -> deleted (q_perm q) = false ->
  on q' = list_del x (on q) -> deleted (q_perm q') = false -> x ∈ on q ->
  wait_local on waits asleep m (delete x m) q q'.
Proof.
  intros W Hq Hd E Hd' Hx. constructor; rewrite ?E.
  - apply NoDup_filter.
  - intros y Hy. left. rewrite lookup_delete_ne; [done|]. by intros ->.
  - intros y _ [Hy Hne]%elem_of_list_del. split; [by left|]. rewrite lookup_delete_ne by done.
    by apply (wl_on _ _ _ _ _ W p q).
  - intros y b Hor. rewrite lookup_delete_Some, elem_of_list_del. intros [Hne Hy] _.
    destruct Hor; [done|congruence].
  - intros y b _. rewrite lookup_delete_Some. intros [_ Hy]. by apply (wl_asleep _ _ _ _ _ W y).
Qed.

(** All entries of the list are woken; they stay on it. *)
Lemma wait_local_wake {A} on (waits asleep : A -> Prop) m m' qs p q q' f :
  wait_lists on waits asleep m qs -> qs !! p = Some q -> deleted (q_perm q) = false ->
  on q' = on q -> deleted (q_perm q') = false ->
  (forall x, m' !! x = if decide (x ∈ on q) then f <$> m !! x else m !! x) ->
  (forall a, waits a -> waits (f a)) -> (forall a, ~ asleep (f a)) -> wait_local on waits asleep m m' q q'.
Proof.
  intros W Hq Hd E Hd' Hm Hf Hs. constructor; rewrite ?E.
  - done.
  - intros x Hx. left. by rewrite Hm, decide_False.
  - intros x _ Hx. split; [by left|]. destruct (wl_on _ _ _ _ _ W p q x Hq Hd Hx) as (a & Ha & Hw).
    exists (f a). rewrite Hm, decide_True, Ha by done. split; [done|by apply Hf].
  - intros x a [Hx|Hx]; [done|]. rewrite Hm. case_decide; [done|]. congruence.
  - intros x a _. rewrite Hm. case_decide.
    + destruct (m !! x); [|done]. intros [= <-] Ha. by destruct (Hs a0).
    + apply (wl_asleep _ _ _ _ _ W x).
Qed.

(** The queue goes away: all entries get an answer. *)
Lemma wait_local_kill {A} on (waits asleep : A -> Prop) m m' qs p q q' f :
  wait_lists on waits asleep m qs -> qs !! p = Some q -> deleted (q_perm q) = false ->
  on q' = on q -> deleted (q_perm q') = true ->
  (forall x, m' !! x = if decide (x ∈ on q) then f <$> m !! x else m !! x) ->
  (forall a, ~ waits (f a)) -> (forall a, ~ asleep (f a)) -> wait_local on waits asleep m m' q q'.
Proof.
  intros W Hq Hd E Hd' Hm Hf Hs. constructor; rewrite ?E, ?Hd'.
  - done.
  - intros x Hx. left. by rewrite Hm, decide_False.
  - done.
  - intros x a Hor. rewrite Hm. case_decide.
    + destruct (m !! x); [|done]. intros [= <-] Ha. by destruct (Hf a0).
    + destruct Hor; [done|congruence].
  - intros x a _. rewrite Hm. case_decide.
    + destruct (m !! x); [|done]. intros [= <-] Ha. by destruct (Hs a0).
    + apply (wl_asleep _ _ _ _ _ W x).
Qed.

Lemma expunge_lookup q res rs x :
  expunge_all q res rs !! x = if decide (x ∈ q_receivers q) then set_r_msg (RErr res) <$> rs !! x else rs !! x.
Proof. by apply fold_alter_lookup. Qed.

Lemma ss_wakeup_lookup l kill ss x :
  ss_wakeup l kill ss !! x = if decide (x ∈ l) then wake_sender kill <$> ss !! x else ss !! x.
Proof. apply fold_alter_lookup. intros s. unfold wake_sender. cbn. by destruct kill. Qed.

(** *** The pieces of the system calls *)

Lemma freeque_ok ns p q :
  msg_wf ns -> msg_queues ns !! p = Some q -> deleted (q_perm q) = false -> msg_wf (freeque p q ns).
Proof.
  intros W Hq Hd. unfold freeque.
  pose proof (fun o' => rmid_ok (msg_ids ns) (msg_queues ns) p q o' (mw_ids _ W) Hq Hd) as Hrm.
  destruct (ipc_rmid (msg_ids ns) (q_perm q)) as [ids perm] eqn:Er.
  set (q' := set_ipc_perm perm q). change (ipc_perm q) with (q_perm q) in Hrm. rewrite Er in Hrm.
  destruct (Hrm q' eq_refl) as [Wi Hd']. cbn in Wi, Hd'.
  assert (perm_key perm = perm_key (q_perm q)) as Hk by (unfold ipc_rmid in Er; by simplify_eq).
  apply (local_ok ns _ p q q' W Hq Hd). constructor; cbn.
  - done.
  - done.
  - done.
  - done.
  - by rewrite Hd'.
  - by apply (wait_local_kill _ _ _ _ _ (msg_queues ns) p q q' (set_r_msg (RErr (- EIDRM)))); [apply W|..|apply expunge_lookup| |].
  - by apply (wait_local_kill _ _ _ _ _ (msg_queues ns) p q q' (wake_sender true)); [apply W|..|apply ss_wakeup_lookup| |].
  - rewrite Hd', (qo_cbytes _ _ _ (mw_queue _ W p q Hq Hd)). by rewrite Z.add_0_r.
  - rewrite Hd', Z.add_0_r. generalize (mw_hdrs _ W). generalize (live_sum (fun q => Z.of_nat (length (q_messages q))) (msg_queues ns)).
    intros z ->. clear. revert z. induction (q_messages q) as [|m l IH]; intros z; cbn [foldl length].
    + unfold s32. rewrite Z.sub_0_r. pose proof (wraps_add_l 32 z 0) as E. rewrite !Z.add_0_r in E. by rewrite E.
    + unfold s32 at 2. rewrite <- Z.add_opp_r, wraps_add_l. fold s32. rewrite IH. unfold s32.
      rewrite <- !Z.add_opp_r, !wraps_add_l. f_equal. lia.
Qed.

(** Limits and permissions change: everybody is woken. *)
Lemma set_limits_ok ns p q perm qbytes time :
  msg_wf ns -> msg_queues ns !! p = Some q -> deleted (q_perm q) = false -> 0 <= qbytes <= QBYTES_MAX ->
  let q' := set_queue_limits qbytes (ipc_update_perm perm (q_perm q)) time q in
  msg_wf (put_queue p q' (expunge_all q' (- EAGAIN) (receivers ns)) (ss_wakeup (q_senders q') false (senders ns)) ns).
Proof.
  intros W Hq Hd Hb q'. pose proof (mw_queue _ W p q Hq Hd) as O.
  apply (local_ok ns _ p q q' W Hq Hd). constructor; cbn.
  - done.
  - done.
  - by apply (ids_wf_update _ _ _ q); [apply W|..].
  - done.
  - intros _. constructor; cbn; try apply O.
    + pose proof (qo_bounds _ _ _ O). tauto.
    + intros r x Hr. rewrite expunge_lookup, decide_True by done.
      destruct (receivers ns !! r); [|done]. intros [= <-]. done.
    + intros s x Hs. rewrite ss_wakeup_lookup, decide_True by done.
      destruct (senders ns !! s); [|done]. intros [= <-]. done.
  - by apply (wait_local_wake _ _ _ _ _ (msg_queues ns) p q q' (set_r_msg (RErr (- EAGAIN)))); [apply W|..|exact (expunge_lookup q' _ _)| |].
  - by apply (wait_local_wake _ _ _ _ _ (msg_queues ns) p q q' (wake_sender false)); [apply W|..|apply ss_wakeup_lookup| |].
  - rewrite Hd. apply (total_same _ _ _ (mw_bytes _ W)).
  - rewrite Hd. apply (total_same _ _ _ (mw_hdrs _ W)).
Qed.

(** A message is taken off the queue: the senders are woken. *)
Lemma msg_take_ok t ns p q i m :
  msg_wf ns -> msg_queues ns !! p = Some q -> deleted (q_perm q) = false -> q_messages q !! i = Some m ->
  msg_wf (msg_take t p q i m ns).
Proof.
  intros W Hq Hd Hi. pose proof (mw_queue _ W p q Hq Hd) as O. unfold msg_take.
  set (q' := set_received _ _ _).
  pose proof (bytes_delete _ _ _ Hi) as Eb. pose proof (qo_bounds _ _ _ O) as Hbd.
  pose proof (length_delete _ _ (ltac:(by eexists) : is_Some (q_messages q !! i))) as El.
  pose proof (lookup_lt_Some _ _ _ Hi) as Hlt. rewrite (qo_cbytes _ _ _ O), (qo_qnum _ _ _ O) in Hbd.
  assert (0 <= bytes (delete i (q_messages q)) /\ 0 <= m_ts m) as [Hb0 Hm0].
  { pose proof (qo_msgs _ _ _ O) as Hf. split; [by apply bytes_nonneg, Forall_delete|].
    by apply (Forall_lookup_1 _ _ _ _ Hf Hi). }
  assert (u64 (q_cbytes q - m_ts m) = bytes (delete i (q_messages q))) as Ec.
  { unfold u64. rewrite (qo_cbytes _ _ _ O), wrapu_small; unfold QBYTES_MAX in *; lia. }
  assert (u64 (q_qnum q - 1) = Z.of_nat (length (delete i (q_messages q)))) as En.
  { unfold u64. rewrite (qo_qnum _ _ _ O), wrapu_small; unfold QBYTES_MAX in *; lia. }
  apply (local_ok ns _ p q q' W Hq Hd). constructor; cbn.
  - done.
  - done.
  - by apply (ids_wf_update _ _ _ q); [apply W|..].
  - done.
  - intros _. constructor; cbn; [done|done| | | |].
    + rewrite Ec, En. lia.
    + apply Forall_delete, O.
    + intros r x Hr Hx Ha. apply Forall_delete. by apply (qo_wait _ _ _ O r x).
    + intros s x Hs. rewrite ss_wakeup_lookup, decide_True by done.
      destruct (senders ns !! s); [|done]. intros [= <-]. done.
  - by apply (wait_local_same _ _ _ _ (msg_queues ns) p q q'); [apply W|..].
  - by apply (wait_local_wake _ _ _ _ _ (msg_queues ns) p q q' (wake_sender false)); [apply W|..|apply ss_wakeup_lookup| |].
  - rewrite Hd. f_equal. lia.
  - rewrite Hd. f_equal. lia.
Qed.

(** The receivers after a hand-over. *)
Lemma send_rcv_local ns p q q' msg rs' l1 o :
  msg_wf ns -> msg_queues ns !! p = Some q -> deleted (q_perm q) = false -> deleted (q_perm q') = false ->
  first_taker lsm (q_perm q) msg (receivers ns) (q_receivers q) = (l1, o) ->
  q_receivers q' = passed_over lsm (q_perm q) msg (receivers ns) l1 ++ from_option snd [] o ->
  (forall r, rs' !! r = after_send lsm (q_perm q) msg (receivers ns) l1 (fst <$> o) r) ->
  rcv_local (receivers ns) rs' q q' /\
  (forall r, r ∈ q_receivers q' -> rs' !! r = receivers ns !! r /\ r ∈ q_receivers q).
Proof.
  intros W Hq Hd Hd' Ef Eq' Hrs. set (rs := receivers ns) in *. set (perm := q_perm q) in *.
  pose proof (wl_nodup _ _ _ _ _ (mw_rcv _ W) p q Hq Hd) as Hnd.
  pose proof (first_taker_spec lsm perm msg rs (q_receivers q)) as Hft. rewrite Ef in Hft. destruct Hft as [_ Ho].
  assert (q_receivers q = l1 ++ from_option (fun '(r, l2) => r :: l2) [] o) as Eq.
  { destruct o as [[r l2]|]; [by destruct Ho|]. cbn. by rewrite app_nil_r. }
  clear Ho. rewrite Eq in Hnd. apply NoDup_app in Hnd as (Hnd1 & Hdis & Hnd2).
  assert (forall r, r ∈ q_receivers q' -> rs' !! r = rs !! r /\ r ∈ q_receivers q) as Hsub.
  { intros r. rewrite Eq', Eq, Hrs. unfold passed_over, after_send. rewrite elem_of_app, list_elem_of_filter, elem_of_app.
    intros [[Ha Hr]|Hr].
    - rewrite (decide_False (P := r ∈ l1 /\ _)) by (rewrite Ha; by intros [_ ?]). split; [|by left].
      case_decide as D; [|done]. destruct o as [[r' l2]|]; [|done]. simplify_eq/=. exfalso. apply (Hdis r Hr). left.
    - destruct o as [[r' l2]|]; cbn in *; [|by apply not_elem_of_nil in Hr].
      apply NoDup_cons in Hnd2 as [Hr' _]. rewrite (decide_False (P := Some r' = Some r)) by congruence.
      split; [|right; by right]. rewrite decide_False; [done|]. intros [Hr1 _]. apply (Hdis r Hr1). by right. }
  split; [|done]. constructor.
  - intros _. rewrite Eq'. apply NoDup_app. split; [by apply NoDup_filter|].
    destruct o as [[r' l2]|]; cbn in *; [|split; [|constructor]; intros ? _; apply not_elem_of_nil].
    apply NoDup_cons in Hnd2 as [_ Hnd2]. split; [|done].
    intros x [_ Hx]%list_elem_of_filter Hx2. apply (Hdis x Hx). by right.
  - intros x Hx. left. rewrite Hrs. unfold after_send. rewrite Eq, elem_of_app in Hx.
    rewrite decide_False. { rewrite decide_False; [done|]. tauto. }
    destruct o as [[r' l2]|]; cbn; [|done]. intros [= ->]. apply Hx. right. left.
  - intros x _ Hx. destruct (Hsub x Hx) as [Ex Hin]. split; [by left|]. rewrite Ex.
    by apply (wl_on _ _ _ _ _ (mw_rcv _ W) p q).
  - intros x a Hor. rewrite Hrs. unfold after_send, r_waits. intros Hx Hw. split; [done|].
    case_decide as D1; [destruct (rs !! x); by simplify_eq/=|].
    case_decide as D2; [destruct (rs !! x); by simplify_eq/=|].
    destruct Hor as [Hor|Hor]; [|congruence]. rewrite Eq, elem_of_app in Hor. rewrite Eq', elem_of_app.
    unfold passed_over. rewrite list_elem_of_filter. destruct Hor as [Hor|Hor].
    + left. split; [|done]. apply not_true_is_false. tauto.
    + right. destruct o as [[r' l2]|]; cbn in *; [|done]. by apply elem_of_cons in Hor as [->|].
  - intros x a _. rewrite Hrs. unfold after_send. intros Hx Hs.
    case_decide; [destruct (rs !! x); by simplify_eq/=|].
    case_decide; [destruct (rs !! x); by simplify_eq/=|]. by apply (wl_asleep _ _ _ _ _ (mw_rcv _ W) x).
Qed.

(** What pipelined_send makes of a well-formed queue. *)
Lemma pipelined_send_eq ns p q time msg pid :
  msg_wf ns -> msg_queues ns !! p = Some q -> deleted (q_perm q) = false ->
  exists l1 o q' rs',
    first_taker lsm (q_perm q) msg (receivers ns) (q_receivers q) = (l1, o) /\
    pipelined_send lsm pid_of time msg (set_sent pid time q) (receivers ns) = (bool_decide (is_Some o), q', rs') /\
    q_receivers q' = passed_over lsm (q_perm q) msg (receivers ns) l1 ++ from_option snd [] o /\
    q_perm q' = q_perm q /\ q_messages q' = q_messages q /\ q_senders q' = q_senders q /\
    q_cbytes q' = q_cbytes q /\ q_qnum q' = q_qnum q /\ q_qbytes q' = q_qbytes q /\
    (forall r, rs' !! r = after_send lsm (q_perm q) msg (receivers ns) l1 (fst <$> o) r).
Proof.
  intros W Hq Hd. pose proof (pipelined_walk_eq lsm pid_of time msg (q_receivers q) [] (set_sent pid time q) (receivers ns) eq_refl
    (wl_nodup _ _ _ _ _ (mw_rcv _ W) p q Hq Hd)) as Hw. unfold pipelined_send.
  change (q_perm (set_sent pid time q)) with (q_perm q) in Hw.
  change (q_receivers (set_sent pid time q)) with (q_receivers q).
  destruct (first_taker _ _ _ _ _) as [l1 o]. destruct (pipelined_walk _ _ _ _ _ _ _) as [[taken q'] rs'].
  destruct Hw as (-> & -> & Hrs).
  { intros r Hr. destruct (wl_on _ _ _ _ _ (mw_rcv _ W) p q r Hq Hd Hr) as (x & ? & _). by eexists. }
  exists l1, o. destruct o as [[r l2]|]; eexists _, rs'; (split; [done|]); (split; [reflexivity|]); cbn.
  - by repeat (split; [done|]).
  - rewrite app_nil_r. by repeat (split; [done|]).
Qed.

Definition good_msg (msg : msg_msg) (msgsz : Z) : Prop :=
  1 <= m_type msg /\ m_ts msg = msgsz /\ 0 <= msgsz <= INT_MAX.

(** A receiver took the message. *)
Lemma deliver_taken_ok ns p q q1 rs' :
  msg_wf ns -> msg_queues ns !! p = Some q -> deleted (q_perm q) = false ->
  rcv_local (receivers ns) rs' q q1 ->
  (forall r, r ∈ q_receivers q1 -> rs' !! r = receivers ns !! r /\ r ∈ q_receivers q) ->
  q_perm q1 = q_perm q -> q_messages q1 = q_messages q -> q_senders q1 = q_senders q ->
  q_cbytes q1 = q_cbytes q -> q_qnum q1 = q_qnum q -> q_qbytes q1 = q_qbytes q ->
  msg_wf (put_queue p q1 rs' (senders ns) ns).
Proof.
  intros W Hq Hd Lr Hsame Ep Em Es Ec En Eb. pose proof (mw_queue _ W p q Hq Hd) as O.
  apply (local_ok ns _ p q q1 W Hq Hd). constructor; cbn; rewrite ?Ep.
  - done.
  - done.
  - by apply (ids_wf_update _ _ _ q); [apply W|done|cbn; rewrite Ep..].
  - done.
  - intros _. constructor; rewrite ?Em, ?Ep, ?Es, ?Ec, ?En, ?Eb; try apply O.
    + intros x y Hx. destruct (Hsame x Hx) as [-> Hin]. by apply (qo_wait _ _ _ O).
    + intros s y Hs Hy Ha. unfold msg_fits. rewrite Ec, En, Eb. by apply (qo_full _ _ _ O s y).
  - done.
  - by apply (wait_local_same _ _ _ _ (msg_queues ns) p q q1); [apply W|..|congruence].
  - rewrite Hd, Em. apply (total_same _ _ _ (mw_bytes _ W)).
  - rewrite Hd, Em. apply (total_same _ _ _ (mw_hdrs _ W)).
Qed.

(** Nobody took it: it is queued. *)
Lemma deliver_queued_ok ns p q q1 rs' msg msgsz :
  msg_wf ns -> msg_queues ns !! p = Some q -> deleted (q_perm q) = false -> good_msg msg msgsz ->
  msg_fits q msgsz = true -> rcv_local (receivers ns) rs' q q1 ->
  (forall r, r ∈ q_receivers q1 -> rs' !! r = receivers ns !! r /\ r ∈ q_receivers q) ->
  (forall r, r ∈ q_receivers q1 -> accepts lsm (q_perm q) msg (receivers ns) r = false) ->
  q_perm q1 = q_perm q -> q_messages q1 = q_messages q ++ [msg] -> q_senders q1 = q_senders q ->
  q_cbytes q1 = u64 (q_cbytes q + msgsz) -> q_qnum q1 = u64 (q_qnum q + 1) -> q_qbytes q1 = q_qbytes q ->
  msg_wf (set_total (s32 (msg_bytes ns + msgsz)) (s32 (msg_hdrs ns + 1)) (put_queue p q1 rs' (senders ns) ns)).
Proof.
  intros W Hq Hd (Hty & Hts & Hsz) Hfit Lr Hsame Hacc Ep Em Es Ec En Eb.
  pose proof (mw_queue _ W p q Hq Hd) as O. pose proof (qo_bounds _ _ _ O) as Hbd.
  rewrite (msg_fits_eq _ _ _ _ O Hsz) in Hfit. zbool.
  rewrite (qo_cbytes _ _ _ O), (qo_qnum _ _ _ O) in Hbd. pose proof (bytes_nonneg _ (qo_msgs _ _ _ O)).
  assert (bytes (q_messages q1) = bytes (q_messages q) + msgsz) as Eby.
  { rewrite Em, bytes_app. unfold bytes at 2. cbn. lia. }
  assert (Z.of_nat (length (q_messages q1)) = Z.of_nat (length (q_messages q)) + 1) as Ele.
  { rewrite Em, length_app. cbn. lia. }
  assert (q_cbytes q1 = bytes (q_messages q1)) as Ec'.
  { rewrite Ec, Eby, (qo_cbytes _ _ _ O). apply wrapu_small. unfold QBYTES_MAX in *. lia. }
  assert (q_qnum q1 = Z.of_nat (length (q_messages q1))) as En'.
  { rewrite En, Ele, (qo_qnum _ _ _ O). apply wrapu_small. unfold QBYTES_MAX in *. lia. }
  assert (forall k, 0 <= k <= INT_MAX -> msg_fits q k = false -> msg_fits q1 k = false) as Hmono.
  { intros k Hk. rewrite (msg_fits_eq _ _ _ _ O Hk). unfold msg_fits, u64, QBYTES_MAX, INT_MAX in *.
    rewrite Ec', En', Eby, Ele, Eb. rewrite !wrapu_small by lia. lia. }
  apply (local_ok ns _ p q q1 W Hq Hd). constructor; cbn; rewrite ?Ep.
  - done.
  - done.
  - by apply (ids_wf_update _ _ _ q); [apply W|done|cbn; rewrite Ep..].
  - done.
  - intros _. constructor; rewrite ?Ep, ?Es; [done|done|rewrite Eb, Ec', En', Eby, Ele; lia| | |].
    + rewrite Em. apply Forall_app. split; [apply O|]. constructor; [lia|constructor].
    + intros x y Hx. destruct (Hsame x Hx) as [-> Hin]. intros Hy Ha. rewrite Em. apply Forall_app.
      split; [by apply (qo_wait _ _ _ O x)|]. constructor; [|constructor].
      specialize (Hacc x Hx). unfold accepts in Hacc. by rewrite Hy in Hacc.
    + intros s y Hs Hy Ha. destruct (qo_full _ _ _ O s y Hs Hy Ha). split; [done|by apply Hmono].
  - done.
  - by apply (wait_local_same _ _ _ _ (msg_queues ns) p q q1); [apply W|..|congruence].
  - rewrite Hd, Eby. f_equal. lia.
  - rewrite Hd, Ele. f_equal. lia.
Qed.

Lemma msg_deliver_ok t ns p q msg msgsz :
  msg_wf ns -> msg_queues ns !! p = Some q -> deleted (q_perm q) = false -> good_msg msg msgsz ->
  msg_fits q msgsz = true -> msg_wf (msg_deliver lsm pid_of t p q msg msgsz ns).
Proof.
  intros W Hq Hd Hg Hfit. unfold msg_deliver.
  destruct (pipelined_send_eq ns p q (now t) msg (tgid t) W Hq Hd)
    as (l1 & o & q1 & rs' & Ef & -> & Er & Ep & Em & Es & Ec & En & Eb & Hrs).
  destruct o as [[r l2]|]; [rewrite bool_decide_eq_true_2 by (by eexists)|rewrite bool_decide_eq_false_2 by (by intros [])].
  - destruct (send_rcv_local ns p q q1 msg rs' l1 (Some (r, l2)) W Hq Hd ltac:(congruence) Ef Er Hrs) as [Lr Hsame].
    by apply (deliver_taken_ok ns p q).
  - set (q2 := set_messages _ _ _ q1).
    destruct (send_rcv_local ns p q q2 msg rs' l1 None W Hq Hd ltac:(cbn; congruence) Ef Er Hrs) as [Lr Hsame].
    apply (deliver_queued_ok ns p q q2 rs' msg msgsz); try done; cbn; [|congruence..].
    intros x. rewrite Er, app_nil_r. unfold passed_over. by intros [? _]%list_elem_of_filter.
Qed.

(** *** Going to sleep and leaving *)

Lemma sleep_sender_ok ns p q s x :
  msg_wf ns -> msg_queues ns !! p = Some q -> deleted (q_perm q) = false -> senders ns !! s = None ->
  s_linked x = true -> 0 <= s_msgsz x <= INT_MAX -> msg_fits q (s_msgsz x) = false ->
  msg_wf (put_queue p (set_senders (q_senders q ++ [s]) q) (receivers ns) (<[s := x]> (senders ns)) ns).
Proof.
  intros W Hq Hd Hs Hl Hsz Hf. pose proof (mw_queue _ W p q Hq Hd) as O.
  apply (local_ok ns _ p q (set_senders (q_senders q ++ [s]) q) W Hq Hd). constructor; cbn.
  - done.
  - done.
  - by apply (ids_wf_update _ _ _ q); [apply W|..].
  - done.
  - intros _. constructor; cbn; try apply O.
    intros y z Hy. rewrite lookup_insert_Some. intros [[<- <-]|[Hne Hz]] Ha; [done|].
    apply elem_of_app in Hy as [Hy|Hy%list_elem_of_singleton]; [|done]. by apply (qo_full _ _ _ O y z).
  - by apply (wait_local_same _ _ _ _ (msg_queues ns) p q); [apply W|..].
  - by apply (wait_local_add _ _ _ _ (msg_queues ns) p q _ s x); [apply W|..].
  - rewrite Hd. apply (total_same _ _ _ (mw_bytes _ W)).
  - rewrite Hd. apply (total_same _ _ _ (mw_hdrs _ W)).
Qed.

Lemma sleep_receiver_ok ns p q r x :
  msg_wf ns -> msg_queues ns !! p = Some q -> deleted (q_perm q) = false -> receivers ns !! r = None ->
  r_msg x = RErr (- EAGAIN) ->
  Forall (fun m => wants lsm (q_perm q) (r_tsk x) (r_msgtype x) (r_mode x) m = false) (q_messages q) ->
  msg_wf (put_queue p (set_receivers (q_receivers q ++ [r]) q) (<[r := x]> (receivers ns)) (senders ns) ns).
Proof.
  intros W Hq Hd Hr Hm Hf. pose proof (mw_queue _ W p q Hq Hd) as O.
  apply (local_ok ns _ p q (set_receivers (q_receivers q ++ [r]) q) W Hq Hd). constructor; cbn.
  - done.
  - done.
  - by apply (ids_wf_update _ _ _ q); [apply W|..].
  - done.
  - intros _. constructor; cbn; try apply O.
    intros y z Hy. rewrite lookup_insert_Some. intros [[<- <-]|[Hne Hz]] Ha; [done|].
    apply elem_of_app in Hy as [Hy|Hy%list_elem_of_singleton]; [|done]. by apply (qo_wait _ _ _ O y z).
  - by apply (wait_local_add _ _ _ _ (msg_queues ns) p q _ r x); [apply W|..].
  - by apply (wait_local_same _ _ _ _ (msg_queues ns) p q); [apply W|..].
  - rewrite Hd. apply (total_same _ _ _ (mw_bytes _ W)).
  - rewrite Hd. apply (total_same _ _ _ (mw_hdrs _ W)).
Qed.

Lemma leave_sender_ok ns p q s :
  msg_wf ns -> msg_queues ns !! p = Some q -> deleted (q_perm q) = false -> s ∈ q_senders q ->
  msg_wf (put_queue p (set_senders (list_del s (q_senders q)) q) (receivers ns) (delete s (senders ns)) ns).
Proof.
  intros W Hq Hd Hs. pose proof (mw_queue _ W p q Hq Hd) as O.
  apply (local_ok ns _ p q (set_senders (list_del s (q_senders q)) q) W Hq Hd). constructor; cbn.
  - done.
  - done.
  - by apply (ids_wf_update _ _ _ q); [apply W|..].
  - done.
  - intros _. constructor; cbn; try apply O.
    intros y z [Hy Hne]%elem_of_list_del. rewrite lookup_delete_ne by done. by apply (qo_full _ _ _ O y z).
  - by apply (wait_local_same _ _ _ _ (msg_queues ns) p q); [apply W|..].
  - by apply (wait_local_del _ _ _ _ (msg_queues ns) p q); [apply W|..].
  - rewrite Hd. apply (total_same _ _ _ (mw_bytes _ W)).
  - rewrite Hd. apply (total_same _ _ _ (mw_hdrs _ W)).
Qed.

Lemma leave_receiver_ok ns p q r :
  msg_wf ns -> msg_queues ns !! p = Some q -> deleted (q_perm q) = false -> r ∈ q_receivers q ->
  msg_wf (put_queue p (set_receivers (list_del r (q_receivers q)) q) (delete r (receivers ns)) (senders ns) ns).
Proof.
  intros W Hq Hd Hr. pose proof (mw_queue _ W p q Hq Hd) as O.
  apply (local_ok ns _ p q (set_receivers (list_del r (q_receivers q)) q) W Hq Hd). constructor; cbn.
  - done.
  - done.
  - by apply (ids_wf_update _ _ _ q); [apply W|..].
  - done.
  - intros _. constructor; cbn; try apply O.
    intros y z [Hy Hne]%elem_of_list_del. rewrite lookup_delete_ne by done. by apply (qo_wait _ _ _ O y z).
  - by apply (wait_local_del _ _ _ _ (msg_queues ns) p q); [apply W|..].
  - by apply (wait_local_same _ _ _ _ (msg_queues ns) p q); [apply W|..].
  - rewrite Hd. apply (total_same _ _ _ (mw_bytes _ W)).
  - rewrite Hd. apply (total_same _ _ _ (mw_hdrs _ W)).
Qed.

(** An entry that has its answer is on no live queue. *)
Lemma wait_lists_drop {A} on (waits asleep : A -> Prop) m qs x a :
  wait_lists on waits asleep m qs -> m !! x = Some a -> ~ waits a ->
  wait_lists on waits asleep (delete x m) qs /\
  (forall p q, qs !! p = Some q -> deleted (q_perm q) = false -> x ∉ on q).
Proof.
  intros W Hx Hw. assert (forall p q, qs !! p = Some q -> deleted (q_perm q) = false -> x ∉ on q) as Hn.
  { intros p q Hq Hd Hin. destruct (wl_on _ _ _ _ _ W p q x Hq Hd Hin) as (b & Hb & Hwb). congruence. }
  split; [|done]. constructor; try apply W.
  - intros p q y Hq Hd Hy. rewrite lookup_delete_ne by (intros ->; by apply (Hn p q)). by apply (wl_on _ _ _ _ _ W p q).
  - intros y b. rewrite lookup_delete_Some. intros [_ ?]. by apply (wl_waits _ _ _ _ _ W y b).
  - intros y b. rewrite lookup_delete_Some. intros [_ ?]. by apply (wl_asleep _ _ _ _ _ W y b).
Qed.

Lemma drop_sender_ok ns s x :
  msg_wf ns -> senders ns !! s = Some x -> s_linked x = false ->
  msg_wf (set_stacks (receivers ns) (delete s (senders ns)) ns).
Proof.
  intros W Hx Hl. destruct (wait_lists_drop _ _ _ _ _ s x (mw_snd _ W) Hx) as [Ws Hn].
  { unfold s_waits. by rewrite Hl. }
  constructor; try apply W; [|done]. intros p q Hq Hd. apply (queue_ok_ext (receivers ns) _ (senders ns)); [by apply (mw_queue _ W p)|done|].
  intros y Hy. cbn. rewrite lookup_delete_ne; [done|]. intros ->. by apply (Hn p q).
Qed.

Lemma drop_receiver_ok ns r x :
  msg_wf ns -> receivers ns !! r = Some x -> r_msg x <> RErr (- EAGAIN) ->
  msg_wf (set_stacks (delete r (receivers ns)) (senders ns) ns).
Proof.
  intros W Hx Hl. destruct (wait_lists_drop _ _ _ _ _ r x (mw_rcv _ W) Hx Hl) as [Ws Hn].
  constructor; try apply W; [|done]. intros p q Hq Hd. apply (queue_ok_ext (receivers ns) _ (senders ns)); [by apply (mw_queue _ W p)| |done].
  intros y Hy. cbn. rewrite lookup_delete_ne; [done|]. intros ->. by apply (Hn p q).
Qed.

(** *** msgsnd *)

(** The sender on the stack frame [s] sleeps on queue [p], or was told that the
    queue is gone; its reference keeps the queue in memory. *)
Definition snd_sleeps (s p : ptr) (msgsz : Z) (ns : msg_ns I) : Prop :=
  exists x q, senders ns !! s = Some x /\ s_msgsz x = msgsz /\ 0 <= msgsz <= INT_MAX /\
    msg_queues ns !! p = Some q /\
    if deleted (q_perm q) then s_linked x = false else s_linked x = true /\ s ∈ q_senders q.

(** What one call of msgsnd leaves behind. *)
Definition snd_post (s p0 : ptr) (msgsz : Z) (res : snd_result) : Prop :=
  match res with
  | SndDone err ns' => msg_wf ns' /\ senders ns' !! s = None
  | SndSleep p ns' => msg_wf ns' /\ snd_sleeps s p msgsz ns' /\ p = p0
  end.

Lemma deliver_senders t p q msg msgsz ns : senders (msg_deliver lsm pid_of t p q msg msgsz ns) = senders ns.
Proof. unfold msg_deliver. destruct (pipelined_send _ _ _ _ _ _) as [[[] ?] ?]; done. Qed.

Lemma msgsnd_round_ok t p s msg msgsz msgflg ns q :
  msg_wf ns -> msg_queues ns !! p = Some q -> deleted (q_perm q) = false -> good_msg msg msgsz ->
  senders ns !! s = None -> snd_post s p msgsz (msgsnd_round lsm pid_of t p s msg msgsz msgflg ns).
Proof.
  intros W Hq Hd Hg Hs. unfold msgsnd_round. rewrite Hq. destruct (negb _); [done|]. destruct (negb _); [done|].
  destruct (msg_fits q msgsz) eqn:Hf.
  { split; [by apply msg_deliver_ok|]. by rewrite deliver_senders. }
  destruct (has _ _); [done|]. destruct Hg as (_ & _ & Hsz).
  split; [by apply sleep_sender_ok|]. split; [|done].
  eexists _, _. cbn. rewrite !lookup_insert_eq. repeat (split; [done|]). cbn. rewrite Hd.
  split; [done|]. apply elem_of_app. right. by apply list_elem_of_singleton.
Qed.

Lemma msg_lock_check_live ns msqid p :
  msg_wf ns -> 0 <= msqid -> msg_lock_check ns msqid = inr p ->
  exists q, msg_queues ns !! p = Some q /\ deleted (q_perm q) = false /\ perm_id (q_perm q) = msqid.
Proof.
  intros W Hid Hl. pose proof (lock_check_spec _ _ msqid (mw_ids _ W) Hid) as Hs. unfold msg_lock_check in Hl.
  by rewrite Hl in Hs.
Qed.

Lemma do_msgsnd_ok t s load ns msqid mtype msgsz msgflg :
  msg_wf ns -> 0 <= msgsz < 2 ^ 64 -> senders ns !! s = None ->
  exists p, snd_post s p msgsz (do_msgsnd lsm pid_of t s load ns msqid mtype msgsz msgflg).
Proof.
  intros W Hsz Hs. unfold do_msgsnd. destruct (_ || _) eqn:E; [by exists 0%nat|]. zbool.
  destruct (mtype <? 1) eqn:E1; [by exists 0%nat|]. zbool. destruct (load _) as [e|msg]; [by exists 0%nat|].
  destruct (mw_max _ W) as [Hmax _]. unfold u64 in *. rewrite wrapu_small in * by (unfold INT_MAX in *; lia).
  destruct (msg_lock_check ns msqid) as [e|p] eqn:El; [by exists 0%nat|]. exists p.
  destruct (msg_lock_check_live ns msqid p W ltac:(lia) El) as (q & Hq & Hd & _).
  apply (msgsnd_round_ok _ _ _ _ _ _ _ q); try done. repeat split; cbn; try lia.
  apply wraps_small; unfold INT_MAX in *; lia.
Qed.

Lemma do_msgsnd_resume_ok t p s msg msgsz msgflg signal ns :
  msg_wf ns -> snd_sleeps s p msgsz ns -> good_msg msg msgsz ->
  snd_post s p msgsz (do_msgsnd_resume lsm pid_of t p s msg msgsz msgflg signal ns).
Proof.
  intros W (x & q & Hx & _ & _ & Hq & Hst) Hg. unfold do_msgsnd_resume. rewrite Hq, Hx.
  destruct (deleted (q_perm q)) eqn:Hd.
  { split; [by apply (drop_sender_ok ns s x)|]. cbn. apply lookup_delete_eq. }
  destruct Hst as [-> Hin]. pose proof (leave_sender_ok ns p q s W Hq Hd Hin) as W'.
  destruct signal; [split; [done|]; cbn; apply lookup_delete_eq|].
  apply (msgsnd_round_ok _ _ _ _ _ _ _ (set_senders (list_del s (q_senders q)) q)); try done; cbn.
  - apply lookup_insert_eq.
  - apply lookup_delete_eq.
Qed.

(** *** msgrcv *)

Definition rcv_sleeps (r p : ptr) (ns : msg_ns I) : Prop :=
  exists x, receivers ns !! r = Some x /\
    (r_msg x = RErr (- EAGAIN) ->
     exists q, msg_queues ns !! p = Some q /\ deleted (q_perm q) = false /\ r ∈ q_receivers q).

Definition rcv_post (r p0 : ptr) (res : rcv_result) : Prop :=
  match res with
  | RcvDone _ ns' => msg_wf ns' /\ receivers ns' !! r = None
  | RcvSleep p ns' => msg_wf ns' /\ rcv_sleeps r p ns' /\ p = p0
  end.

Lemma msgrcv_round_ok t p r msgsz msgtyp mode msgflg ns q :
  msg_wf ns -> msg_queues ns !! p = Some q -> deleted (q_perm q) = false -> receivers ns !! r = None ->
  rcv_post r p (msgrcv_round lsm t p r msgsz msgtyp mode msgflg ns).
Proof.
  intros W Hq Hd Hr. unfold msgrcv_round. rewrite Hq. destruct (negb _); [done|].
  destruct (find_msg _ _ _ _ _ _ _ _) as [i|] eqn:Ef.
  - destruct (q_messages q !! i) as [m|] eqn:Ei; [|done]. destruct (_ && _); [done|].
    split; [by apply msg_take_ok|]. done.
  - destruct (has _ _); [done|]. split.
    + apply sleep_receiver_ok; try done. by apply find_msg_none in Ef.
    + split; [|done]. eexists. cbn. rewrite !lookup_insert_eq. split; [done|]. intros _.
      eexists. split; [done|]. split; [done|]. cbn. apply elem_of_app. right. by apply list_elem_of_singleton.
Qed.

Lemma do_msgrcv_ok t r ns msqid msgsz msgtyp msgflg :
  msg_wf ns -> receivers ns !! r = None ->
  exists p, rcv_post r p (do_msgrcv lsm t r ns msqid msgsz msgtyp msgflg).
Proof.
  intros W Hr. unfold do_msgrcv. destruct (_ || _) eqn:E; [by exists 0%nat|]. zbool.
  destruct (convert_mode _ _) as [mode typ]. destruct (msg_lock_check ns msqid) as [e|p] eqn:El; [by exists 0%nat|].
  exists p. destruct (msg_lock_check_live ns msqid p W ltac:(done) El) as (q & Hq & Hd & _).
  by apply (msgrcv_round_ok _ _ _ _ _ _ _ _ q).
Qed.

Lemma do_msgrcv_resume_ok t other p r msgsz msgtyp mode msgflg signal ns :
  msg_wf ns -> rcv_sleeps r p ns ->
  (forall ns0, msg_wf ns0 -> rcv_sleeps r p ns0 -> msg_wf (other ns0) /\ rcv_sleeps r p (other ns0)) ->
  rcv_post r p (do_msgrcv_resume lsm t other p r msgsz msgtyp mode msgflg signal ns).
Proof.
  intros W Sl Ho. pose proof Sl as (x & Hx & Hs). unfold do_msgrcv_resume. rewrite Hx.
  assert (forall ns0 x0, msg_wf ns0 -> receivers ns0 !! r = Some x0 -> r_msg x0 <> RErr (- EAGAIN) -> forall a,
    rcv_post r p (RcvDone a (set_stacks (delete r (receivers ns0)) (senders ns0) ns0))) as Hleave.
  { intros ns0 x0 W0 Hx0 Hne a. split; [by apply (drop_receiver_ok ns0 r x0)|]. cbn. apply lookup_delete_eq. }
  destruct (r_msg x) as [e|m] eqn:Em; [|by apply (Hleave ns x); [..|rewrite Em]].
  destruct (e =? - EAGAIN) eqn:Ee; zbool; cbn [negb]; [subst e|apply (Hleave ns x); [done|done|rewrite Em; congruence]].
  destruct (Ho ns W Sl) as [W1 (x1 & Hx1 & Hs1)]. rewrite Hx1.
  destruct (r_msg x1) as [e|m] eqn:Em1.
  - destruct (e =? - EAGAIN) eqn:Ee; zbool; [subst e|].
    + destruct (Hs1 eq_refl) as (q & Hq & Hd & Hin). cbn [negb]. rewrite Hq.
      pose proof (leave_receiver_ok (other ns) p q r W1 Hq Hd Hin) as W2.
      destruct signal; [split; [done|]; cbn; apply lookup_delete_eq|].
      apply (msgrcv_round_ok _ _ _ _ _ _ _ _ (set_receivers (list_del r (q_receivers q)) q)); try done; cbn.
      * apply lookup_insert_eq.
      * apply lookup_delete_eq.
    + cbn [negb]. apply (Hleave (other ns) x1); [done|done|rewrite Em1; congruence].
  - by apply (Hleave (other ns) x1); [..|rewrite Em1].
Qed.

(** *** msgget *)

Lemma wait_lists_new {A} on (waits asleep : A -> Prop) m qs p q :
  wait_lists on waits asleep m qs -> qs !! p = None -> on q = [] ->
  wait_lists on waits asleep m (<[p := q]> qs).
Proof.
  intros W Hp E.
  assert (forall r b x, <[p := q]> qs !! r = Some b -> x ∈ on b -> qs !! r = Some b) as Hqs.
  { intros r b x. rewrite lookup_insert_Some. intros [[_ <-]|[_ ?]]; [|done]. rewrite E. by intros ?%not_elem_of_nil. }
  constructor.
  - intros r b. rewrite lookup_insert_Some. intros [[_ <-]|[_ ?]]; [|by apply (wl_nodup _ _ _ _ _ W r)].
    rewrite E. constructor.
  - intros r b x Hb Hd Hx. apply (wl_on _ _ _ _ _ W r b); [by apply (Hqs r b x)|done|done].
  - intros r r' b b' x Hb Hb' Hd Hd' Hx Hx'. apply (wl_owner _ _ _ _ _ W r r' b b' x); eauto.
  - intros x a Hx Hw. destruct (wl_waits _ _ _ _ _ W x a Hx Hw) as (r & b & Hb & Hd & Hin). exists r, b.
    rewrite lookup_insert_ne; [done|]. intros ->. congruence.
  - apply W.
Qed.

Lemma msg_wf_ids ns ids : msg_wf ns -> ids_wf ids (msg_queues ns) -> msg_wf (set_msg_ids ids ns).
Proof. intros W Hi. constructor; try apply W. done. Qed.

Lemma new_queue_ok ns ids p q :
  msg_wf ns -> msg_queues ns !! p = None -> ids_wf ids (<[p := q]> (msg_queues ns)) ->
  (perm_key (q_perm q) <> IPC_PRIVATE -> no_key (msg_queues ns) (perm_key (q_perm q))) ->
  q_messages q = [] -> q_receivers q = [] -> q_senders q = [] -> q_cbytes q = 0 -> q_qnum q = 0 ->
  0 <= q_qbytes q <= QBYTES_MAX -> msg_wf (put_queue p q (receivers ns) (senders ns) (set_msg_ids ids ns)).
Proof.
  intros W Hp Wi Hk Em Er Es Ec En Hb. constructor; cbn.
  - done.
  - by apply keys_unique_new; [apply W|].
  - apply W.
  - intros r b. rewrite lookup_insert_Some. intros [[_ <-]|[_ ?]] Hd; [|by apply (mw_queue _ W r)].
    constructor; rewrite ?Em, ?Er, ?Es, ?Ec, ?En; try done. by intros s x ?%not_elem_of_nil.
  - by apply wait_lists_new; [apply W|..].
  - by apply wait_lists_new; [apply W|..].
  - rewrite live_sum_insert_new, Em by done. rewrite (mw_bytes _ W). by destruct (deleted _).
  - rewrite live_sum_insert_new, Em by done. rewrite (mw_hdrs _ W). by destruct (deleted _).
Qed.

(** What the code relies on of the security module. *)
Definition msg_lsm_ok : Prop :=
  (forall p, security_msg_queue_alloc lsm p <= 0 /\ security_msg_queue_alloc lsm p <> - EAGAIN) /\
  (forall q f, security_msg_queue_associate lsm q f <= 0 /\ security_msg_queue_associate lsm q f <> - EAGAIN).

Definition msg_alloc_ok (alloc : msg_ns I -> option ptr) : Prop :=
  forall ns p, alloc ns = Some p -> msg_queues ns !! p = None.

#[export] Instance msg_ns_laws : IpcNsLaws (msg_ns I) I msg_queue.
Proof. by split. Qed.

Lemma msg_preload_ok m ns :
  msg_wf ns -> msg_wf (set_ns_idr (idr_pre_get m (ipcs_idr (ns_ids ns))).2 ns).
Proof.
  intros W. apply msg_wf_ids; [done|]. apply ids_wf_preload, W.
Qed.

Lemma newque_ok t alloc m ns params :
  msg_wf ns -> msg_lsm_ok -> msg_alloc_ok alloc -> (idr_pre_get m (ipcs_idr (ns_ids ns))).1 = true ->
  (par_key params <> IPC_PRIVATE -> no_key (msg_queues ns) (par_key params)) ->
  let '(r, ns') := newque lsm t alloc (set_ns_idr (idr_pre_get m (ipcs_idr (ns_ids ns))).2 ns) params in
  r <> - EAGAIN /\ msg_wf ns' /\ get_answer (par_key params) r ns'.
Proof.
  intros W [HL _] Hal Hm Hk. pose proof (msg_preload_ok m ns W) as W1.
  destruct (idr_pre_get m _) as [got i'] eqn:Ei. cbn in Hm. subst got. cbn [snd] in *.
  set (ns1 := set_ns_idr i' ns) in *. unfold newque.
  destruct (alloc ns1) as [p|] eqn:Ep; [|split; [done|]; split; [done|]; intros ?; done].
  specialize (Hal _ _ Ep). set (perm0 := KernIpcPerm _ _ _ _ _ _ _ _ _).
  destruct (HL perm0) as [HL1 HL2].
  destruct (negb _) eqn:E; zbool; [split; [done|]; split; [done|]; intros ?; lia|]. clear E.
  destruct (ipc_addid (cur_cred t) (msg_ids ns1) p perm0 (msg_ctlmni ns1)) as [[id ids] perm] eqn:Ea.
  destruct (id <? 0) eqn:E; zbool.
  - split; [|split; [|intros ?; lia]].
    + intros ->. destruct (addid_eagain (cur_cred t) (msg_ids ns1) p perm0 (msg_ctlmni ns1) _ (mw_ids _ W1)) as [Hroom Hp];
        [by rewrite Ea|]. by apply (law_preload m _ i' p (ids_inv _ _ (mw_ids _ W)) Ei Hroom).
    + apply msg_wf_ids; [done|]. exact (addid_error _ _ _ _ _ _ _ _ _ (mw_ids _ W1) Ea E).
  - set (q := MsgQueue _ _ _ _ _ _ _ _ _ _ _ _).
    destruct (addid_ok (cur_cred t) (msg_ids ns1) p perm0 (msg_ctlmni ns1) id ids perm (msg_queues ns1) q
      (mw_ids _ W1) Ea E Hal eq_refl) as (Wi & Hpid & Hd & Hky & Hid & _).
    assert (msg_wf (put_queue p q (receivers ns1) (senders ns1) (set_msg_ids ids ns1))) as W'.
    { apply new_queue_ok; try done.
      - cbn. rewrite Hky. exact Hk.
      - destruct (mw_max _ W) as [_ Hmnb]. cbn. unfold u64, INT_MAX, QBYTES_MAX in *. rewrite wrapu_small; lia. }
    assert (get_answer (perm_key perm0) (perm_id perm) (put_queue p q (receivers ns1) (senders ns1) (set_msg_ids ids ns1))) as Ha.
    { rewrite <- Hky. refine (get_answer_live _ p q (mw_ids _ W') _ _); [apply lookup_insert_eq|done]. }
    split; [|done]. pose proof (ids_seq_range _ _ (mw_ids _ W1)).
    destruct (buildid_split id (ids_seq (msg_ids ns1)) Hid ltac:(lia)) as (_ & _ & ?). unfold EAGAIN. lia.
Qed.

Lemma msgget_ok t alloc m ns key flg :
  msg_wf ns -> msg_lsm_ok -> msg_alloc_ok alloc ->
  exists r ns', msgget lsm t alloc [m] ns key flg = Some (r, ns') /\ msg_wf ns' /\ get_answer key r ns'.
Proof.
  intros W HL Hal. unfold msgget.
  refine (ipcget_ok (cur_cred t) (msg_permission lsm) m ns _ _ (fun r ns' => msg_wf ns' /\ get_answer key r ns') _ _ _ _).
  - apply W.
  - split; [apply HL|done].
  - cbn [getnew]. intros Hm Hk.
    pose proof (newque_ok t alloc m ns (IpcParams key flg 0) W HL Hal Hm Hk) as Hg. by destruct (newque _ _ _ _ _).
  - intros e Ha. split; [by apply msg_preload_ok|done].
Qed.

(** *** msgctl *)

Definition buf_ok (buf : msqid_buf) : Prop :=
  forall version perm n, copy_msqid_from_user buf version = inr (perm, n) -> 0 <= n <= QBYTES_MAX.

Lemma msgctl_ok t ou og nonnull ok ns msqid cmd buf :
  msg_wf ns -> buf_ok buf -> msg_wf (msgctl lsm t ou og nonnull ok ns msqid cmd buf).2.
Proof.
  intros W Hb. unfold msgctl. destruct (_ || _) eqn:E0; [done|]. zbool.
  destruct (ipc_parse_version cmd) as [version c].
  destruct (_ || _); [destruct (negb _); [done|]; destruct (negb _); [done|]; by destruct (negb _)|].
  destruct (_ || _).
  { destruct (negb _); [done|]. destruct (if c =? MSG_STAT then _ else _); [done|].
    destruct (msg_queues ns !! _); [|done]. destruct (negb _); [done|]. destruct (negb _); [done|].
    destruct (copy_msqid_to_user _ _ _ _ _). by destruct (negb _). }
  destruct (_ || _); [|done].
  assert (msg_wf (msgctl_down lsm t ns msqid c buf version).2) as Hm; [|by destruct (msgctl_down _ _ _ _ _ _ _)].
  unfold msgctl_down. destruct (_ && _); [done|]. unfold ipcctl_pre_down.
  destruct (ipc_lock_check _ _ _) as [e|p] eqn:El; [done|].
  destruct (msg_lock_check_live ns msqid p W ltac:(done) El) as (q & Hq & Hd & _). rewrite Hq.
  destruct (_ || _); [|done]. rewrite Hq. destruct (negb _); [done|].
  destruct (c =? IPC_RMID); [by apply freeque_ok|]. destruct (c =? IPC_SET); [|done].
  destruct (copy_msqid_from_user buf version) as [e|[perm n]] eqn:Ec; [done|].
  destruct (_ && _); [done|]. apply set_limits_ok; try done. by apply (Hb version perm).
Qed.

(** *** The end of the namespace *)

Lemma freeque_ids p q ns : msg_ids (freeque p q ns) = (ipc_rmid (msg_ids ns) (q_perm q)).1.
Proof. unfold freeque. by destruct (ipc_rmid _ _). Qed.

#[local] Opaque Z.to_nat.

Lemma free_queues_ok fuel total0 : forall total next ns,
  msg_wf ns -> 0 <= next <= IPCMNI -> (Z.to_nat (IPCMNI - next) < fuel)%nat ->
  (forall j, 0 <= j < next -> idr_find (ipcs_idr (msg_ids ns)) j = None) ->
  total0 - total = in_use (msg_ids ns) ->
  exists ns', free_queues fuel total0 total next ns = Some ns' /\ msg_wf ns' /\ in_use (msg_ids ns') = 0.
Proof.
  induction fuel as [|fuel IH]; intros total next ns W Hn Hf Hlow Ht; [lia|]. cbn [free_queues].
  pose proof (ids_wf_in_use _ _ (mw_ids _ W)) as Hu.
  destruct (total <? total0) eqn:E; zbool; [|exists ns; split; [done|]; split; [done|lia]].
  assert (next < IPCMNI) as Hlt.
  { apply (in_use_pos _ _ next (mw_ids _ W)); [done|lia]. }
  destruct (idr_find (ipcs_idr (msg_ids ns)) next) as [p|] eqn:Ei.
  - destruct (ids_slot _ _ (mw_ids _ W) next p ltac:(lia) Ei) as (q & Hq & Hd & Hid & Hseq). rewrite Hq.
    pose proof (ids_seq_range _ _ (mw_ids _ W)) as Hsr. cbn in Hid, Hseq.
    assert (ipcid_to_idx (perm_id (q_perm q)) = next) as Hidx.
    { rewrite Hid. by destruct (buildid_split next (perm_seq (q_perm q)) ltac:(lia) ltac:(lia)) as [-> _]. }
    apply IH; [by apply freeque_ok|lia|lia| |].
    + intros j Hj. rewrite freeque_ids. unfold ipc_rmid. cbn. rewrite Hidx.
      rewrite law_remove by (apply (mw_ids _ W) || (by rewrite Ei) || (unfold IDR_CAPACITY, MAX_ID, INT_MAX, IPCMNI in *; lia)).
      destruct (Z.eqb_spec j next); [done|]. apply Hlow. lia.
    + rewrite freeque_ids. unfold ipc_rmid. cbn. lia.
  - apply IH; [done|lia|lia| |lia]. intros j Hj. destruct (decide (j = next)) as [->|]; [done|]. apply Hlow. lia.
Qed.

Lemma live_sum_dead f m : (forall p q, m !! p = Some q -> deleted (q_perm q) = true) -> live_sum f m = 0.
Proof.
  induction m as [|p q m Hp IH] using map_ind; intros Hd; [done|].
  rewrite live_sum_insert_new, (Hd p q) by (done || apply lookup_insert_eq).
  apply IH. intros r b Hb. apply (Hd r). rewrite lookup_insert_ne; [done|]. intros ->. congruence.
Qed.

Lemma msg_exit_ok ns :
  msg_wf ns -> exists ns', msg_exit_ns ns = Some ns' /\ msg_wf ns' /\ in_use (msg_ids ns') = 0.
Proof.
  intros W. unfold msg_exit_ns.
  destruct (free_queues_ok (S (Z.to_nat IPCMNI)) (in_use (msg_ids ns)) 0 0 ns) as (ns' & -> & W' & E); [done|done| |intros; lia|lia|].
  { rewrite Z.sub_0_r. lia. }
  eexists. split; [done|]. split; [|exact E]. by apply msg_wf_ids, ids_wf_destroy, W'.
Qed.

(** ** Reachable namespaces *)

Lemma msg_init_wf a b c d : msg_wf (msg_init_ns a b c d).
Proof.
  assert (forall {A} (k : ptr) (v : A), (∅ : gmap ptr A) !! k = Some v -> False) as He.
  { intros A k v. by rewrite lookup_empty. }
  constructor; cbn.
  - apply ids_wf_init.
  - intros p p' q q' Hq. by destruct (He _ _ _ Hq).
  - done.
  - intros p q Hq. by destruct (He _ _ _ Hq).
  - constructor; intros; exfalso; by eapply He.
  - constructor; intros; exfalso; by eapply He.
  - done.
  - done.
Qed.

Definition snd_ns (res : snd_result) : msg_ns I :=
  match res with SndDone _ ns => ns | SndSleep _ ns => ns end.
Definition rcv_ns (res : rcv_result) : msg_ns I :=
  match res with RcvDone _ ns => ns | RcvSleep _ ns => ns end.

(** Everything the system calls can do to a namespace, in any order and
    interleaved at every sleep. *)
Inductive msg_reach : msg_ns I -> Prop :=
| mr_init a b c d : msg_reach (msg_init_ns a b c d)
| mr_msgget t alloc m ns key flg r ns' :
    msg_reach ns -> msg_alloc_ok alloc -> msgget lsm t alloc [m] ns key flg = Some (r, ns') -> msg_reach ns'
| mr_msgctl t ou og nonnull ok ns msqid cmd buf :
    msg_reach ns -> buf_ok buf -> msg_reach (msgctl lsm t ou og nonnull ok ns msqid cmd buf).2
| mr_msgsnd t s load ns msqid mtype msgsz msgflg :
    msg_reach ns -> 0 <= msgsz < 2 ^ 64 -> senders ns !! s = None ->
    msg_reach (snd_ns (do_msgsnd lsm pid_of t s load ns msqid mtype msgsz msgflg))
| mr_msgsnd_resume t p s msg msgsz msgflg signal ns :
    msg_reach ns -> snd_sleeps s p msgsz ns -> good_msg msg msgsz ->
    msg_reach (snd_ns (do_msgsnd_resume lsm pid_of t p s msg msgsz msgflg signal ns))
| mr_msgrcv t r ns msqid msgsz msgtyp msgflg :
    msg_reach ns -> receivers ns !! r = None ->
    msg_reach (rcv_ns (do_msgrcv lsm t r ns msqid msgsz msgtyp msgflg))
| mr_msgrcv_resume t p r msgsz msgtyp mode msgflg signal ns :
    msg_reach ns -> rcv_sleeps r p ns ->
    msg_reach (rcv_ns (do_msgrcv_resume lsm t (fun ns => ns) p r msgsz msgtyp mode msgflg signal ns)).

Lemma snd_post_wf s p msgsz res : snd_post s p msgsz res -> msg_wf (snd_ns res).
Proof. destruct res; cbn; tauto. Qed.

Lemma rcv_post_wf r p res : rcv_post r p res -> msg_wf (rcv_ns res).
Proof. destruct res; cbn; tauto. Qed.

Lemma msg_reach_wf ns : msg_lsm_ok -> msg_reach ns -> msg_wf ns.
Proof.
  intros HL. induction 1 as [|t alloc m ns key flg r ns' _ W Hal E|t ou og nonnull ok ns msqid cmd buf _ W Hb
    |t s load ns msqid mtype msgsz msgflg _ W Hsz Hs|t p s msg msgsz msgflg signal ns _ W Hs Hg
    |t r ns msqid msgsz msgtyp msgflg _ W Hr|t p r msgsz msgtyp mode msgflg signal ns _ W Hs].
  - apply msg_init_wf.
  - destruct (msgget_ok t alloc m ns key flg W HL Hal) as (r' & ns1 & E1 & W1 & _). by simplify_eq.
  - by apply msgctl_ok.
  - destruct (do_msgsnd_ok t s load ns msqid mtype msgsz msgflg W Hsz Hs) as [p Hp]. by eapply snd_post_wf.
  - eapply snd_post_wf. by apply do_msgsnd_resume_ok.
  - destruct (do_msgrcv_ok t r ns msqid msgsz msgtyp msgflg W Hr) as [p Hp]. by eapply rcv_post_wf.
  - eapply rcv_post_wf. by apply do_msgrcv_resume_ok.
Qed.
End Inv.

(** ** Properties *)

(** C2. No lost wake-ups: in every reachable namespace a receiver that sleeps
    is on a live queue without a message it could take, and a sender that
    sleeps is on a live queue its message does not fit in. *)
Theorem msg_no_lost_wakeup {I} `{IdrLaws I} (lsm : msg_lsm) (pid_of : ptr -> Z) (ns : msg_ns I) :
  msg_lsm_ok lsm -> msg_reach lsm pid_of ns ->
  (forall r x, receivers ns !! r = Some x -> r_asleep x = true ->
     exists p q, msg_queues ns !! p = Some q /\ deleted (q_perm q) = false /\ r ∈ q_receivers q /\
       Forall (fun m => testmsg m (r_msgtype x) (r_mode x) = false \/
         security_msg_queue_msgrcv lsm (q_perm q) m (r_tsk x) (r_msgtype x) (r_mode x) <> 0) (q_messages q)) /\
  (forall s x, senders ns !! s = Some x -> s_asleep x = true ->
     exists p q, msg_queues ns !! p = Some q /\ deleted (q_perm q) = false /\ s ∈ q_senders q /\
       (q_qbytes q < s_msgsz x + bytes (q_messages q) \/ q_qbytes q < 1 + Z.of_nat (length (q_messages q)))).
Proof.
  intros HL Hr. pose proof (msg_reach_wf lsm pid_of ns HL Hr) as W. split.
  - intros r x Hx Ha. pose proof (wl_asleep _ _ _ _ _ (mw_rcv _ _ W) r x Hx Ha) as Hw.
    destruct (wl_waits _ _ _ _ _ (mw_rcv _ _ W) r x Hx Hw) as (p & q & Hq & Hd & Hin).
    exists p, q. repeat (split; [done|]).
    apply (Forall_impl _ _ _ (qo_wait _ _ _ _ (mw_queue _ _ W p q Hq Hd) r x Hin Hx Ha)).
    unfold wants. intros m Hm. zbool. destruct Hm as [|Hm]; [by left|]. zbool. by right.
  - intros s x Hx Ha. pose proof (wl_asleep _ _ _ _ _ (mw_snd _ _ W) s x Hx Ha) as Hw.
    destruct (wl_waits _ _ _ _ _ (mw_snd _ _ W) s x Hx Hw) as (p & q & Hq & Hd & Hin).
    exists p, q. repeat (split; [done|]). pose proof (mw_queue _ _ W p q Hq Hd) as O.
    destruct (qo_full _ _ _ _ O s x Hin Hx Ha) as [Hsz Hf]. rewrite (msg_fits_eq _ _ _ _ _ O Hsz) in Hf.
    zbool. destruct Hf; zbool; [left|right]; lia.
Qed.

(** C26. The accounting is exact: a live queue records the number and the total
    size of its messages, and the namespace totals are those of all live
    queues, modulo the width of an [atomic_t]. *)
Theorem msg_accounting {I} `{IdrLaws I} (lsm : msg_lsm) (pid_of : ptr -> Z) (ns : msg_ns I) :
  msg_lsm_ok lsm -> msg_reach lsm pid_of ns ->
  (forall p q, msg_queues ns !! p = Some q -> deleted (q_perm q) = false ->
     q_cbytes q = bytes (q_messages q) /\ q_qnum q = Z.of_nat (length (q_messages q))) /\
  msg_bytes ns = s32 (live_sum (fun q => bytes (q_messages q)) (msg_queues ns)) /\
  msg_hdrs ns = s32 (live_sum (fun q => Z.of_nat (length (q_messages q))) (msg_queues ns)).
Proof.
  intros HL Hr. pose proof (msg_reach_wf lsm pid_of ns HL Hr) as W. split; [|split; apply W].
  intros p q Hq Hd. split; apply (mw_queue _ _ W p q Hq Hd).
Qed.

(** C13. A message that fits is handed to the first waiting receiver that
    accepts it and has room for it; the accepting receivers before it are sent
    -E2BIG and leave the queue, all others keep waiting in their order. Only
    when there is no such receiver is the message queued, at the end. *)
Theorem msgsnd_hands_over {I} `{IdrLaws I} (lsm : msg_lsm) (pid_of : ptr -> Z) t (ns : msg_ns I) p q msg msgsz l1 o :
  msg_lsm_ok lsm -> msg_reach lsm pid_of ns -> msg_queues ns !! p = Some q -> deleted (q_perm q) = false ->
  first_taker lsm (q_perm q) msg (receivers ns) (q_receivers q) = (l1, o) ->
  let ns' := msg_deliver lsm pid_of t p q msg msgsz ns in
  exists q', msg_queues ns' !! p = Some q' /\
    q_receivers q' = passed_over lsm (q_perm q) msg (receivers ns) l1 ++ from_option snd [] o /\
    q_messages q' = (if o is Some _ then q_messages q else q_messages q ++ [msg]) /\
    (forall r, receivers ns' !! r = after_send lsm (q_perm q) msg (receivers ns) l1 (fst <$> o) r) /\
    (forall p2, p2 <> p -> msg_queues ns' !! p2 = msg_queues ns !! p2).
Proof.
  intros HL Hr Hq Hd Ef. pose proof (msg_reach_wf lsm pid_of ns HL Hr) as W. cbn zeta. unfold msg_deliver.
  destruct (pipelined_send_eq lsm pid_of ns p q (now t) msg (tgid t) W Hq Hd)
    as (l1' & o' & q1 & rs' & Ef' & -> & Er & Ep & Em & Es & Ec & En & Eb & Hrs). rewrite Ef in Ef'. simplify_eq.
  destruct o' as [x|]; [rewrite bool_decide_eq_true_2 by (by eexists)|rewrite bool_decide_eq_false_2 by (by intros [])];
    eexists; cbn; rewrite lookup_insert_eq; (split; [reflexivity|]); (split; [done|]).
  - split; [done|]. split; [done|]. intros p2 Hne. by rewrite lookup_insert_ne.
  - cbn. rewrite Em. split; [done|]. split; [done|]. intros p2 Hne. by rewrite lookup_insert_ne.
Qed.




(** C27. What was sent is what is received: the text loaded from the sender's
    buffer, cut into pages, is the text the receiver gets, up to the length it
    asked for. *)
Theorem msg_text_roundtrip DATALEN_MSG DATALEN_SEG lsm alloc src mtype len msgsz room :
  0 < DATALEN_MSG -> 0 < DATALEN_SEG -> 0 <= len <= Z.of_nat (length src) -> len <= INT_MAX ->
  Forall (eq true) alloc -> 1 + nsegs DATALEN_SEG (len - Z.min len DATALEN_MSG) <= Z.of_nat (length alloc) ->
  security_msg_msg_alloc lsm len = 0 -> 0 <= msgsz -> Z.min msgsz len <= room ->
  exists m, load_msg DATALEN_MSG DATALEN_SEG lsm alloc src len = inr m /\
    msgrcv_copy DATALEN_MSG DATALEN_SEG
      {| m_type := mtype; m_ts := len; m_text := m_text m; m_segs := m_segs m |} room msgsz =
    Some (Z.min msgsz len, mtype, take (Z.to_nat (Z.min msgsz len)) src).
Proof.
  intros Hm Hs Hl Hmax Ha Hn Hsec Hsz Hroom.
  destruct (load_msg_ok DATALEN_MSG DATALEN_SEG Hm Hs lsm alloc src len Hl Ha Hn Hsec) as (m & -> & Ht & Hlen & Hc).
  exists m. split; [done|]. unfold msgrcv_copy. cbn [m_ts m_type].
  assert (u64 len = len) as -> by (apply wrapu_small; unfold INT_MAX in *; lia).
  replace (if msgsz >? len then len else msgsz) with (Z.min msgsz len) by (case_if; zbool; lia).
  assert (s32 (Z.min msgsz len) = Z.min msgsz len) as -> by (apply wraps_small; unfold INT_MAX in *; lia).
  assert (length (m_text m ++ concat (m_segs m)) = Z.to_nat len) as El by (rewrite Ht, length_take; lia).
  rewrite (store_msg_ok DATALEN_MSG DATALEN_SEG Hm Hs); cbn [m_text m_segs]; [|done|lia| |lia|lia].
  - replace (room <? Z.min msgsz len) with false by lia. rewrite Ht, take_take. do 4 f_equal. lia.
  - intros Hne. rewrite Hlen. destruct (decide (len <= DATALEN_MSG)); [|lia]. exfalso.
    rewrite length_app in El. destruct Hc as [|seg Hseg|seg segs Hseg _]; [done| |]; cbn in El; rewrite ?length_app in El; cbn in El; lia.
Qed.

(** C28. The exit of a namespace terminates, removes every queue, tells every
    task that waited on one, and brings the totals back to 0. *)
Theorem msg_exit_ns_clean {I} `{IdrLaws I} (lsm : msg_lsm) (pid_of : ptr -> Z) (ns : msg_ns I) :
  msg_lsm_ok lsm -> msg_reach lsm pid_of ns ->
  exists ns', msg_exit_ns ns = Some ns' /\ in_use (msg_ids ns') = 0 /\ msg_bytes ns' = 0 /\ msg_hdrs ns' = 0 /\
    (forall p q, msg_queues ns' !! p = Some q -> deleted (q_perm q) = true) /\
    (forall r x, receivers ns' !! r = Some x -> r_asleep x = false /\ r_msg x <> RErr (- EAGAIN)) /\
    (forall s x, senders ns' !! s = Some x -> s_asleep x = false).
Proof.
  intros HL Hr. destruct (msg_exit_ok lsm ns (msg_reach_wf lsm pid_of ns HL Hr)) as (ns' & E & W & Hu).
  assert (forall p q, msg_queues ns' !! p = Some q -> deleted (q_perm q) = true) as Hdead.
  { intros p q Hq. exact (in_use_zero _ _ p q (mw_ids _ _ W) Hu Hq). }
  exists ns'. split; [done|]. split; [done|].
  rewrite (mw_bytes _ _ W), (mw_hdrs _ _ W), !live_sum_dead by done. split; [done|]. split; [done|]. split; [done|].
  assert (forall r x, receivers ns' !! r = Some x -> r_msg x <> RErr (- EAGAIN)) as Hrw.
  { intros r x Hx Hm. destruct (wl_waits _ _ _ _ _ (mw_rcv _ _ W) r x Hx Hm) as (p & q & Hq & Hd & _).
    rewrite (Hdead p q Hq) in Hd. done. }
  split.
  - intros r x Hx. split; [|by apply (Hrw r)]. apply not_true_is_false. intros Ha.
    by apply (Hrw r x Hx), (wl_asleep _ _ _ _ _ (mw_rcv _ _ W) r x Hx Ha).
  - intros s x Hx. apply not_true_is_false. intros Ha.
    pose proof (wl_asleep _ _ _ _ _ (mw_snd _ _ W) s x Hx Ha) as Hl.
    destruct (wl_waits _ _ _ _ _ (mw_snd _ _ W) s x Hx Hl) as (p & q & Hq & Hd & _).
    rewrite (Hdead p q Hq) in Hd. done.
Qed.

(** Up to 2048 namespaces, msgmni stays between MSGMNI and the equal share
    of the identifiers. *)
Theorem recompute_msgmni_range totalram totalhigh mem_unit nb_ns :
  0 < nb_ns <= IPCMNI / MSGMNI ->
  MSGMNI <= recompute_msgmni totalram totalhigh mem_unit nb_ns <= IPCMNI / nb_ns.
Proof.
  intros Hn. assert (MSGMNI <= IPCMNI / nb_ns).
  { apply Z.div_le_lower_bound; [lia|]. change (IPCMNI / MSGMNI) with 2048 in Hn. unfold MSGMNI, IPCMNI. lia. }
  unfold recompute_msgmni. repeat case_if; zbool; lia.
Qed.

(** ** Witnesses *)

Module MsgDemo.
Import RefIdr.

Definition lsm0 : msg_lsm :=
  MsgLsm (fun _ _ => 0) (fun _ => 0) (fun _ _ => 0) (fun _ _ => 0) (fun _ _ _ => 0) (fun _ _ _ _ _ => 0) (fun _ => 0).
Definition root : cred := Cred 0 0 (fun _ => false) (fun _ => true).
Definition t1 : task := Task 1 root 100 1000.
Definition t2 : task := Task 2 root 200 1001.
Definition pid_of (t : ptr) : Z := Z.of_nat t.
Definition alloc (ns : msg_ns (gmap Z ptr)) : option ptr := Some (fresh (dom (msg_queues ns))).
Definition load (len : Z) : Z + msg_msg := load_msg 4 2 lsm0 [true; true] [72; 105] len.
Definition ns0 : msg_ns (gmap Z ptr) := msg_init_ns 1000000 0 4096 1.
Definition ns1 : msg_ns (gmap Z ptr) :=
  (default (0, ns0) (msgget lsm0 t1 alloc [true] ns0 7 (Z.lor IPC_CREAT 384))).2.
(** A message of type 3 is queued; another task sleeps for type 8. *)
Definition ns2 : msg_ns (gmap Z ptr) := snd_ns (do_msgsnd lsm0 pid_of t1 5 load ns1 0 3 2 0).
Definition ns3 : msg_ns (gmap Z ptr) := rcv_ns (do_msgrcv lsm0 t2 6 ns2 0 100 8 0).
Definition queue : msg_queue := default (MsgQueue (IpcUtil.IdsDemo.blank 0) 0 0 0 0 0 0 0 0 [] [] []) (msg_queues ns3 !! 0%nat).
Definition mail : msg_msg := MsgMsg 8 2 [72; 105] [].

Lemma msg_lsm0_ok : msg_lsm_ok lsm0.
Proof. split; intros; cbn; unfold EAGAIN; lia. Qed.

Lemma msg_alloc_fresh : msg_alloc_ok alloc.
Proof. intros ns p [= <-]. apply not_elem_of_dom, is_fresh. Qed.

Lemma msg_reach3 : msg_reach lsm0 pid_of ns3.
Proof.
  apply mr_msgrcv; [|reflexivity]. apply mr_msgsnd; [|done|reflexivity].
  refine (mr_msgget lsm0 pid_of t1 alloc true ns0 7 (Z.lor IPC_CREAT 384) 0 ns1 (mr_init _ _ _ _ _ _) msg_alloc_fresh _).
  reflexivity.
Qed.

Lemma msg_no_lost_wakeup_witness :
  (forall r x, receivers ns3 !! r = Some x -> r_asleep x = true ->
     exists p q, msg_queues ns3 !! p = Some q /\ deleted (q_perm q) = false /\ r ∈ q_receivers q /\
       Forall (fun m => testmsg m (r_msgtype x) (r_mode x) = false \/
         security_msg_queue_msgrcv lsm0 (q_perm q) m (r_tsk x) (r_msgtype x) (r_mode x) <> 0) (q_messages q)) /\
  (forall s x, senders ns3 !! s = Some x -> s_asleep x = true ->
     exists p q, msg_queues ns3 !! p = Some q /\ deleted (q_perm q) = false /\ s ∈ q_senders q /\
       (q_qbytes q < s_msgsz x + bytes (q_messages q) \/ q_qbytes q < 1 + Z.of_nat (length (q_messages q)))).
Proof. exact (msg_no_lost_wakeup lsm0 pid_of ns3 msg_lsm0_ok msg_reach3). Defined.

Lemma msg_accounting_witness :
  (forall p q, msg_queues ns3 !! p = Some q -> deleted (q_perm q) = false ->
     q_cbytes q = bytes (q_messages q) /\ q_qnum q = Z.of_nat (length (q_messages q))) /\
  msg_bytes ns3 = s32 (live_sum (fun q => bytes (q_messages q)) (msg_queues ns3)) /\
  msg_hdrs ns3 = s32 (live_sum (fun q => Z.of_nat (length (q_messages q))) (msg_queues ns3)).
Proof. exact (msg_accounting lsm0 pid_of ns3 msg_lsm0_ok msg_reach3). Defined.

Lemma msgsnd_hands_over_witness :
  let ns' := msg_deliver lsm0 pid_of t1 0 queue mail 2 ns3 in
  exists q', msg_queues ns' !! 0%nat = Some q' /\
    q_receivers q' = passed_over lsm0 (q_perm queue) mail (receivers ns3) [] ++ [] /\
    q_messages q' = q_messages queue /\
    (forall r, receivers ns' !! r = after_send lsm0 (q_perm queue) mail (receivers ns3) [] (Some 6%nat) r) /\
    (forall p2, p2 <> 0%nat -> msg_queues ns' !! p2 = msg_queues ns3 !! p2).
Proof.
  exact (msgsnd_hands_over lsm0 pid_of t1 ns3 0 queue mail 2 [] (Some (6%nat, [])) msg_lsm0_ok msg_reach3
    eq_refl eq_refl eq_refl).
Defined.


Lemma msg_text_roundtrip_witness :
  exists m, load_msg 4 2 lsm0 [true; true; true] [1; 2; 3; 4; 5; 6; 7] 7 = inr m /\
    msgrcv_copy 4 2 {| m_type := 3; m_ts := 7; m_text := m_text m; m_segs := m_segs m |} 6 6 =
    Some (6, 3, [1; 2; 3; 4; 5; 6]).
Proof.
  apply (msg_text_roundtrip 4 2 lsm0 [true; true; true] [1; 2; 3; 4; 5; 6; 7] 3 7 6 6); try done; repeat constructor.
Defined.

Lemma msg_exit_ns_clean_witness :
  exists ns', msg_exit_ns ns3 = Some ns' /\ in_use (msg_ids ns') = 0 /\ msg_bytes ns' = 0 /\ msg_hdrs ns' = 0 /\
    (forall p q, msg_queues ns' !! p = Some q -> deleted (q_perm q) = true) /\
    (forall r x, receivers ns' !! r = Some x -> r_asleep x = false /\ r_msg x <> RErr (- EAGAIN)) /\
    (forall s x, senders ns' !! s = Some x -> s_asleep x = false).
Proof. exact (msg_exit_ns_clean lsm0 pid_of ns3 msg_lsm0_ok msg_reach3). Defined.

Lemma recompute_msgmni_range_witness :
  MSGMNI <= recompute_msgmni 1000000 0 4096 4 <= IPCMNI / 4.
Proof. apply (recompute_msgmni_range 1000000 0 4096 4). split; [lia|]. vm_compute. congruence. Defined.
End MsgDemo.
