(* ===== verification/Bpf.v ===== *)
(** * Bpf: the socket filter

    Models net/core/filter.c: the checker [sk_chk_filter], the interpreter
    [sk_run_filter] with its packet loads (skb_header_pointer and
    skb_copy_bits of net/core/skbuff.c) and ancillary loads (netlink attribute
    search of lib/nlattr.c), and attaching a filter to a socket. Every access
    to memory is explicit: one outside its object is a [Fault]. *)

From S2P Require Import Prelude.

Definition BPF_MAXINSNS : Z := 4096.
Definition BPF_MEMWORDS : Z := 16.
Definition SKF_AD_OFF : Z := -4096.
Definition SKF_AD_PROTOCOL : Z := 0.
Definition SKF_AD_PKTTYPE : Z := 4.
Definition SKF_AD_IFINDEX : Z := 8.
Definition SKF_AD_NLATTR : Z := 12.
Definition SKF_AD_NLATTR_NEST : Z := 16.
Definition SKF_AD_MARK : Z := 20.
Definition SKF_AD_QUEUE : Z := 24.
Definition SKF_AD_HATYPE : Z := 28.
Definition SKF_NET_OFF : Z := -1048576.
Definition SKF_LL_OFF : Z := -2097152.

(** ** Packets *)

(** The header of a [struct sk_buff]: [h_mem] is the memory from [skb->head]
    on, shared info included; data, tail and the protocol headers are offsets
    into it. *)
Record skb_head := SkbHead {
  h_mem : list Z; h_data : Z; h_tail : Z; h_len : Z; network_header : Z; mac_header : Z;
  protocol : Z; pkt_type : Z; dev : option (Z * Z); mark : Z; queue_mapping : Z
}.

(** With the page fragments and the fragment list of its shared info. *)
#[warnings="-register-all"]
Inductive sk_buff := SkBuff (h : skb_head) (frags : list (list Z)) (frag_list : list sk_buff).

Definition skb_h (skb : sk_buff) : skb_head := let 'SkBuff h _ _ := skb in h.
Definition skb_frags (skb : sk_buff) : list (list Z) := let 'SkBuff _ f _ := skb in f.
Definition skb_len (skb : sk_buff) : Z := h_len (skb_h skb).

(** [skb->len - skb->data_len]: the bytes between data and tail. *)
Definition skb_headlen (skb : sk_buff) : Z := h_tail (skb_h skb) - h_data (skb_h skb).

Definition skb_is_nonlinear (skb : sk_buff) : bool := negb (skb_len skb - skb_headlen skb =? 0).

Definition slice (l : list Z) (off n : Z) : list Z := take (Z.to_nat n) (drop (Z.to_nat off) l).

(** The page fragments, from position [start] of the packet on: [inl] is a
    finished copy, [inr] what is left to do. *)
Fixpoint copy_frags (frags : list (list Z)) (start offset : Z) (to : list Z) (len : Z)
    : list Z + (Z * Z * list Z * Z) :=
  match frags with
  | [] => inr (start, offset, to, len)
  | f :: frags =>
      let fend := start + Z.of_nat (length f) in
      let copy := fend - offset in
      if copy >? 0 then
        let copy := if copy >? len then len else copy in
        let to := to ++ slice f (offset - start) copy in
        if len - copy =? 0 then inl to
        else copy_frags frags fend (offset + copy) to (len - copy)
      else copy_frags frags fend offset to len
  end.

Fixpoint skb_copy_bits (skb : sk_buff) (offset len : Z) : option (list Z) :=
  match skb with
  | SkBuff h frags frag_list =>
      let start := h_tail h - h_data h in
      if offset >? h_len h - len then None
      else
        let walk :=
          fix walk (l : list sk_buff) (start offset : Z) (to : list Z) (len : Z) : option (list Z) :=
            match l with
            | [] => if len =? 0 then Some to else None
            | frag_iter :: l =>
                let fend := start + skb_len frag_iter in
                let copy := fend - offset in
                if copy >? 0 then
                  let copy := if copy >? len then len else copy in
                  match skb_copy_bits frag_iter (offset - start) copy with
                  | None => None
                  | Some b =>
                      if len - copy =? 0 then Some (to ++ b)
                      else walk l fend (offset + copy) (to ++ b) (len - copy)
                  end
                else walk l fend offset to len
            end in
        let copy := start - offset in
        let copied := if copy >? 0 then if copy >? len then len else copy else 0 in
        let to := if copy >? 0 then slice (h_mem h) (h_data h + offset) copied else [] in
        if (copy >? 0) && (len - copied =? 0) then Some to
        else
          match copy_frags frags start (offset + copied) to (len - copied) with
          | inl to => Some to
          | inr (start, offset, to, len) => walk frag_list start offset to len
          end
  end.

(** Reading [n] bytes at an offset from [skb->head]. *)
Definition read_mem (skb : sk_buff) (off n : Z) : option (list Z) :=
  if (0 <=? off) && (off + n <=? Z.of_nat (length (h_mem (skb_h skb))))
  then Some (slice (h_mem (skb_h skb)) off n) else None.

(** A load: no such data, the bytes, or an access outside the memory. *)
Inductive load_result :=
| LoadNull
| LoadBytes (b : list Z)
| LoadFault.

Definition read_load (o : option (list Z)) : load_result :=
  match o with Some b => LoadBytes b | None => LoadFault end.

Definition skb_header_pointer (skb : sk_buff) (offset len : Z) : load_result :=
  if skb_headlen skb - offset >=? len then read_load (read_mem skb (h_data (skb_h skb) + offset) len)
  else match skb_copy_bits skb offset len with None => LoadNull | Some b => LoadBytes b end.

(** [__load_pointer]: only the first byte is compared with tail. *)
Definition load_pointer_neg (skb : sk_buff) (k size : Z) : load_result :=
  let h := skb_h skb in
  let ptr :=
    if k >=? SKF_NET_OFF then Some (network_header h + k - SKF_NET_OFF)
    else if k >=? SKF_LL_OFF then Some (mac_header h + k - SKF_LL_OFF)
    else None in
  match ptr with
  | None => LoadNull
  | Some p => if (p >=? 0) && (p <? h_tail h) then read_load (read_mem skb p size) else LoadNull
  end.

Definition load_pointer (skb : sk_buff) (k size : Z) : load_result :=
  if k >=? 0 then skb_header_pointer skb k size
  else if k >=? SKF_AD_OFF then LoadNull
  else load_pointer_neg skb k size.

Definition get_be (b : list Z) : Z := foldl (fun n x => n * 256 + x) 0 b.

(** ** Netlink attributes *)

Definition NLA_HDRLEN : Z := 4.
Definition NLA_ALIGN (len : Z) : Z := Z.land (len + 3) (Z.lnot 3).
Definition NLA_TYPE_MASK : Z := 16383.

(** A [__u16] in the byte order of the machine (little endian). *)
Definition read_u16 (skb : sk_buff) (off : Z) : option Z :=
  match read_mem skb off 2 with
  | Some [a; b] => Some (a + 256 * b)
  | _ => None
  end.

(** The attribute found, as an offset from [skb->head]; the outer [None] is an
    access outside the memory. *)
Fixpoint nla_find (fuel : nat) (skb : sk_buff) (pos rem attrtype : Z) : option (option Z) :=
  match fuel with
  | O => None
  | S fuel =>
      if rem >=? NLA_HDRLEN then
        match read_u16 skb pos with
        | None => None
        | Some nlen =>
            if (nlen >=? NLA_HDRLEN) && (nlen <=? rem) then
              match read_u16 skb (pos + 2) with
              | None => None
              | Some ntype =>
                  if Z.land ntype NLA_TYPE_MASK =? attrtype then Some (Some pos)
                  else nla_find fuel skb (pos + NLA_ALIGN nlen) (rem - NLA_ALIGN nlen) attrtype
              end
            else Some None
        end
      else Some None
  end.

(** Each attribute takes at least four bytes. *)
Definition nla_fuel (rem : Z) : nat := S (Z.to_nat rem).

(** ** Instructions *)

Definition BPF_LD : Z := 0.
Definition BPF_LDX : Z := 1.
Definition BPF_ST : Z := 2.
Definition BPF_STX : Z := 3.
Definition BPF_ALU : Z := 4.
Definition BPF_JMP : Z := 5.
Definition BPF_RET : Z := 6.
Definition BPF_MISC : Z := 7.
Definition BPF_CLASS (code : Z) : Z := Z.land code 7.
Definition BPF_W : Z := 0.
Definition BPF_H : Z := 8.
Definition BPF_B : Z := 16.
Definition BPF_IMM : Z := 0.
Definition BPF_ABS : Z := 32.
Definition BPF_IND : Z := 64.
Definition BPF_MEM : Z := 96.
Definition BPF_LEN : Z := 128.
Definition BPF_MSH : Z := 160.
Definition BPF_ADD : Z := 0.
Definition BPF_SUB : Z := 16.
Definition BPF_MUL : Z := 32.
Definition BPF_DIV : Z := 48.
Definition BPF_OR : Z := 64.
Definition BPF_AND : Z := 80.
Definition BPF_LSH : Z := 96.
Definition BPF_RSH : Z := 112.
Definition BPF_NEG : Z := 128.
Definition BPF_JA : Z := 0.
Definition BPF_JEQ : Z := 16.
Definition BPF_JGT : Z := 32.
Definition BPF_JGE : Z := 48.
Definition BPF_JSET : Z := 64.
Definition BPF_K : Z := 0.
Definition BPF_X : Z := 8.
Definition BPF_A : Z := 16.
Definition BPF_TAX : Z := 0.
Definition BPF_TXA : Z := 128.

Infix "|||" := Z.lor (at level 50, left associativity) : Z_scope.

Record sock_filter := SockFilter { code : Z; jt : Z; jf : Z; insn_k : Z }.

(** The operand of an ALU or jump instruction. *)
Inductive operand := OpK | OpX.
Inductive alu_op := ADD | SUB | MUL | DIV | AND | OR | LSH | RSH.
Inductive jmp_op := JEQ | JGT | JGE | JSET.
Inductive width := SzW | SzH | SzB.

(** The cases of the two switches. *)
Inductive insn :=
| Alu (op : alu_op) (src : operand)
| Neg
| Ja
| Jmp (op : jmp_op) (src : operand)
| LdAbs (w : width)
| LdInd (w : width)
| LdLen
| LdxLen
| LdxMsh
| LdImm
| LdxImm
| LdMem
| LdxMem
| Tax
| Txa
| RetK
| RetA
| St
| Stx.

Definition src_code (s : operand) : Z := match s with OpK => BPF_K | OpX => BPF_X end.
Definition alu_code (o : alu_op) : Z :=
  match o with
  | ADD => BPF_ADD | SUB => BPF_SUB | MUL => BPF_MUL | DIV => BPF_DIV
  | AND => BPF_AND | OR => BPF_OR | LSH => BPF_LSH | RSH => BPF_RSH
  end.
Definition jmp_code (o : jmp_op) : Z :=
  match o with JEQ => BPF_JEQ | JGT => BPF_JGT | JGE => BPF_JGE | JSET => BPF_JSET end.
Definition width_code (w : width) : Z := match w with SzW => BPF_W | SzH => BPF_H | SzB => BPF_B end.
Definition width_size (w : width) : Z := match w with SzW => 4 | SzH => 2 | SzB => 1 end.

(** The case label of each instruction. *)
Definition code_of (i : insn) : Z :=
  match i with
  | Alu o s => BPF_ALU ||| alu_code o ||| src_code s
  | Neg => BPF_ALU ||| BPF_NEG
  | Ja => BPF_JMP ||| BPF_JA
  | Jmp o s => BPF_JMP ||| jmp_code o ||| src_code s
  | LdAbs w => BPF_LD ||| width_code w ||| BPF_ABS
  | LdInd w => BPF_LD ||| width_code w ||| BPF_IND
  | LdLen => BPF_LD ||| BPF_W ||| BPF_LEN
  | LdxLen => BPF_LDX ||| BPF_W ||| BPF_LEN
  | LdxMsh => BPF_LDX ||| BPF_B ||| BPF_MSH
  | LdImm => BPF_LD ||| BPF_IMM
  | LdxImm => BPF_LDX ||| BPF_IMM
  | LdMem => BPF_LD ||| BPF_MEM
  | LdxMem => BPF_LDX ||| BPF_MEM
  | Tax => BPF_MISC ||| BPF_TAX
  | Txa => BPF_MISC ||| BPF_TXA
  | RetK => BPF_RET ||| BPF_K
  | RetA => BPF_RET ||| BPF_A
  | St => BPF_ST
  | Stx => BPF_STX
  end.

Definition all_insns : list insn :=
  (o ← [ADD; SUB; MUL; DIV; AND; OR; LSH; RSH]; s ← [OpK; OpX]; [Alu o s]) ++ [Neg; Ja] ++
  (o ← [JEQ; JGT; JGE; JSET]; s ← [OpK; OpX]; [Jmp o s]) ++
  (w ← [SzW; SzH; SzB]; [LdAbs w]) ++ (w ← [SzW; SzH; SzB]; [LdInd w]) ++
  [LdLen; LdxLen; LdxMsh; LdImm; LdxImm; LdMem; LdxMem; Tax; Txa; RetK; RetA; St; Stx].

(** The case a code selects, [None] for [default]. *)
Definition decode (c : Z) : option insn := List.find (fun i => code_of i =? c) all_insns.

(** ** The checker *)

Definition chk_insn (flen pc : Z) (f : sock_filter) : bool :=
  match decode (code f) with
  | None => false
  | Some i =>
      match i with
      | Alu DIV OpK => negb (insn_k f =? 0)
      | LdMem | LdxMem | St | Stx => negb (insn_k f >=? BPF_MEMWORDS)
      | Ja => negb (insn_k f >=? u32 (flen - pc - 1))
      | Jmp _ _ => negb ((pc + jt f + 1 >=? flen) || (pc + jf f + 1 >=? flen))
      | _ => true
      end
  end.

Fixpoint chk_loop (flen pc : Z) (l : list sock_filter) : bool :=
  match l with
  | [] => true
  | f :: l => chk_insn flen pc f && chk_loop flen (pc + 1) l
  end.

(** [filter] has [flen] entries. *)
Definition sk_chk_filter (filter : list sock_filter) : Z :=
  let flen := Z.of_nat (length filter) in
  if (flen =? 0) || (flen >? BPF_MAXINSNS) then - EINVAL
  else if negb (chk_loop flen 0 filter) then - EINVAL
  else
    match last filter with
    | Some f => if BPF_CLASS (code f) =? BPF_RET then 0 else - EINVAL
    | None => - EINVAL
    end.

(** ** The interpreter *)

Record regs := Regs { reg_A : Z; reg_X : Z; reg_mem : list Z }.

(** What can go wrong in a run. *)
Inductive fault :=
| BadFetch
| BadMem
| BadLoad
| BadNlattr
| BadInsn
| DivByZero
| FellOff.

Inductive outcome :=
| Returned (v : Z)
| Fault (f : fault).

(** One iteration: the next [pc] before the increment of the loop, or the end. *)
Inductive step_result :=
| Continue (pc : Z) (r : regs)
| Stop (o : outcome).

Definition set_A (a : Z) (r : regs) : regs := {| reg_A := a; reg_X := reg_X r; reg_mem := reg_mem r |}.
Definition set_X (x : Z) (r : regs) : regs := {| reg_A := reg_A r; reg_X := x; reg_mem := reg_mem r |}.
Definition set_mem (m : list Z) (r : regs) : regs := {| reg_A := reg_A r; reg_X := reg_X r; reg_mem := m |}.

Section Run.
(** Shifts by 32 and more are undefined in C: whatever the machine computes. *)
Context (shl_big shr_big : Z -> Z -> Z).
Context (skb : sk_buff).

Definition alu (op : alu_op) (a b : Z) : option Z :=
  match op with
  | ADD => Some (u32 (a + b))
  | SUB => Some (u32 (a - b))
  | MUL => Some (u32 (a * b))
  | DIV => if b =? 0 then None else Some (a / b)
  | AND => Some (Z.land a b)
  | OR => Some (Z.lor a b)
  | LSH => Some (if b <? 32 then u32 (Z.shiftl a b) else u32 (shl_big a b))
  | RSH => Some (if b <? 32 then Z.shiftr a b else u32 (shr_big a b))
  end.

Definition cond (op : jmp_op) (a b : Z) : bool :=
  match op with
  | JEQ => a =? b
  | JGT => a >? b
  | JGE => a >=? b
  | JSET => negb (Z.land a b =? 0)
  end.

(** [sizeof(struct nlattr)] makes the comparison one of unsigned longs. *)
Definition nlattr_out (a : Z) : bool := a >? u64 (skb_len skb - NLA_HDRLEN).

Definition nla_result (pc : Z) (r : regs) (o : option (option Z)) : step_result :=
  match o with
  | None => Stop (Fault BadNlattr)
  | Some None => Continue pc (set_A 0 r)
  | Some (Some p) => Continue pc (set_A (u32 (p - h_data (skb_h skb))) r)
  end.

(** The ancillary loads, after a failed packet load. *)
Definition ancillary (pc k : Z) (r : regs) : step_result :=
  let h := skb_h skb in
  let ad := k - SKF_AD_OFF in
  if ad =? SKF_AD_PROTOCOL then Continue pc (set_A (protocol h) r)
  else if ad =? SKF_AD_PKTTYPE then Continue pc (set_A (pkt_type h) r)
  else if ad =? SKF_AD_IFINDEX then
    match dev h with None => Stop (Returned 0) | Some d => Continue pc (set_A (u32 d.1) r) end
  else if ad =? SKF_AD_MARK then Continue pc (set_A (mark h) r)
  else if ad =? SKF_AD_QUEUE then Continue pc (set_A (queue_mapping h) r)
  else if ad =? SKF_AD_HATYPE then
    match dev h with None => Stop (Returned 0) | Some d => Continue pc (set_A d.2 r) end
  else if ad =? SKF_AD_NLATTR then
    if skb_is_nonlinear skb then Stop (Returned 0)
    else if nlattr_out (reg_A r) then Stop (Returned 0)
    else
      let rem := s32 (skb_len skb - reg_A r) in
      nla_result pc r (nla_find (nla_fuel rem) skb (h_data h + reg_A r) rem (s32 (reg_X r)))
  else if ad =? SKF_AD_NLATTR_NEST then
    if skb_is_nonlinear skb then Stop (Returned 0)
    else if nlattr_out (reg_A r) then Stop (Returned 0)
    else
      let nla := h_data h + reg_A r in
      match read_u16 skb nla with
      | None => Stop (Fault BadNlattr)
      | Some nlen =>
          if nlen >? u32 (reg_A r - skb_len skb) then Stop (Returned 0)
          else
            let rem := nlen - NLA_HDRLEN in
            nla_result pc r (nla_find (nla_fuel rem) skb (nla + NLA_HDRLEN) rem (s32 (reg_X r)))
      end
  else Stop (Returned 0).

Definition load (pc k : Z) (w : width) (r : regs) : step_result :=
  match load_pointer skb k (width_size w) with
  | LoadBytes b => Continue pc (set_A (get_be b) r)
  | LoadFault => Stop (Fault BadLoad)
  | LoadNull => ancillary pc k r
  end.

Definition mem_get (k : Z) (r : regs) : option Z := reg_mem r !! Z.to_nat k.

Definition exec (pc : Z) (f : sock_filter) (r : regs) : step_result :=
  let k := insn_k f in
  match decode (code f) with
  | None => Stop (Fault BadInsn)
  | Some i =>
      match i with
      | Alu op s =>
          let b := match s with OpK => k | OpX => reg_X r end in
          match alu op (reg_A r) b with
          | Some a => Continue pc (set_A a r)
          | None => match s with OpX => Stop (Returned 0) | OpK => Stop (Fault DivByZero) end
          end
      | Neg => Continue pc (set_A (u32 (- reg_A r)) r)
      | Ja => Continue (s32 (pc + k)) r
      | Jmp op s =>
          let b := match s with OpK => k | OpX => reg_X r end in
          Continue (pc + (if cond op (reg_A r) b then jt f else jf f)) r
      | LdAbs w => load pc (s32 k) w r
      | LdInd w => load pc (s32 (reg_X r + k)) w r
      | LdLen => Continue pc (set_A (skb_len skb) r)
      | LdxLen => Continue pc (set_X (skb_len skb) r)
      | LdxMsh =>
          match load_pointer skb (s32 k) 1 with
          | LoadBytes b => Continue pc (set_X (Z.shiftl (Z.land (get_be b) 15) 2) r)
          | LoadFault => Stop (Fault BadLoad)
          | LoadNull => Stop (Returned 0)
          end
      | LdImm => Continue pc (set_A k r)
      | LdxImm => Continue pc (set_X k r)
      | LdMem => match mem_get k r with Some a => Continue pc (set_A a r) | None => Stop (Fault BadMem) end
      | LdxMem => match mem_get k r with Some x => Continue pc (set_X x r) | None => Stop (Fault BadMem) end
      | Tax => Continue pc (set_X (reg_A r) r)
      | Txa => Continue pc (set_A (reg_X r) r)
      | RetK => Stop (Returned k)
      | RetA => Stop (Returned (reg_A r))
      | St =>
          match mem_get k r with
          | Some _ => Continue pc (set_mem (<[Z.to_nat k := reg_A r]> (reg_mem r)) r)
          | None => Stop (Fault BadMem)
          end
      | Stx =>
          match mem_get k r with
          | Some _ => Continue pc (set_mem (<[Z.to_nat k := reg_X r]> (reg_mem r)) r)
          | None => Stop (Fault BadMem)
          end
      end
  end.

(** [FellOff]: the loop ended because [pc] reached the end of the filter; the
    code then returns 0. [None]: still running. *)
Fixpoint run_loop (fuel : nat) (filter : list sock_filter) (pc : Z) (r : regs) : option outcome :=
  match fuel with
  | O => None
  | S fuel =>
      if pc <? Z.of_nat (length filter) then
        match (if pc <? 0 then None else filter !! Z.to_nat pc) with
        | None => Some (Fault BadFetch)
        | Some f =>
            match exec pc f r with
            | Stop o => Some o
            | Continue pc r => run_loop fuel filter (pc + 1) r
            end
        end
      else Some (Fault FellOff)
  end.

(** [stack]: what the uninitialised array [mem] happens to hold. *)
Definition sk_run_filter (stack : list Z) (filter : list sock_filter) : option outcome :=
  run_loop (S (length filter)) filter 0 {| reg_A := 0; reg_X := 0; reg_mem := stack |}.
End Run.

(** ** Sockets *)

Definition FILTER_HDR : Z := 24.
Definition INSN_SIZE : Z := 8.

(** [sk_filter] is the attached program. *)
Record sock := Sock { sk_filter : option (list sock_filter); sk_omem_alloc : Z }.

Definition sk_filter_len (f : list sock_filter) : Z := u32 (Z.of_nat (length f) * INSN_SIZE + FILTER_HDR).

(** [mem_ok]: the kmalloc succeeds. *)
Definition sock_kmalloc (optmem_max : Z) (mem_ok : bool) (sk : sock) (size : Z) : bool * sock :=
  if (u32 size <=? optmem_max) && (sk_omem_alloc sk + size <? optmem_max) then
    if mem_ok then (true, {| sk_filter := sk_filter sk; sk_omem_alloc := sk_omem_alloc sk + size |})
    else (false, sk)
  else (false, sk).

Definition uncharge (sk : sock) (size : Z) : sock :=
  {| sk_filter := sk_filter sk; sk_omem_alloc := sk_omem_alloc sk - size |}.

(** [fprog]: the program in user memory, [None] for a NULL pointer; [readable]:
    copy_from_user succeeds. *)
Definition sk_attach_filter (optmem_max : Z) (mem_ok readable : bool) (fprog : option (list sock_filter))
    (sk : sock) : Z * sock :=
  match fprog with
  | None => (- EINVAL, sk)
  | Some prog =>
      let fsize := u32 (INSN_SIZE * Z.of_nat (length prog)) in
      let '(got, sk) := sock_kmalloc optmem_max mem_ok sk (fsize + FILTER_HDR) in
      if negb got then (- ENOMEM, sk)
      else if negb readable then (- EFAULT, uncharge sk (fsize + FILTER_HDR))
      else
        let err := sk_chk_filter prog in
        if negb (err =? 0) then (err, uncharge sk (sk_filter_len prog))
        else
          let old_fp := sk_filter sk in
          let sk := {| sk_filter := Some prog; sk_omem_alloc := sk_omem_alloc sk |} in
          match old_fp with
          | Some old => (0, uncharge sk (sk_filter_len old))
          | None => (0, sk)
          end
  end.

Definition sk_detach_filter (sk : sock) : Z * sock :=
  match sk_filter sk with
  | Some f => (0, uncharge {| sk_filter := None; sk_omem_alloc := sk_omem_alloc sk |} (sk_filter_len f))
  | None => (- ENOENT, sk)
  end.

(** ** Receiving a packet *)

(** Pages up to [len]: [inl] when the cut is in one of them, [inr] the position
    behind the last one. *)
Fixpoint trim_frags (frags : list (list Z)) (offset len : Z) : list (list Z) + Z :=
  match frags with
  | [] => inr offset
  | f :: frags =>
      let fend := offset + Z.of_nat (length f) in
      if fend <? len then
        match trim_frags frags fend len with inl kept => inl (f :: kept) | inr offset => inr offset end
      else inl [take (Z.to_nat (len - offset)) f]
  end.

Definition set_len (len : Z) (h : skb_head) : skb_head :=
  {| h_mem := h_mem h; h_data := h_data h; h_tail := h_tail h; h_len := len;
     network_header := network_header h; mac_header := mac_header h; protocol := protocol h;
     pkt_type := pkt_type h; dev := dev h; mark := mark h; queue_mapping := queue_mapping h |}.

Definition skb_set_tail_pointer (len : Z) (h : skb_head) : skb_head :=
  {| h_mem := h_mem h; h_data := h_data h; h_tail := h_data h + len; h_len := h_len h;
     network_header := network_header h; mac_header := mac_header h; protocol := protocol h;
     pkt_type := pkt_type h; dev := dev h; mark := mark h; queue_mapping := queue_mapping h |}.

(** The end of [___pskb_trim]; [data_len] is not stored, see [skb_headlen]. *)
Definition trim_done (len : Z) (h : skb_head) : skb_head :=
  if len >? h_tail h - h_data h then set_len len h
  else skb_set_tail_pointer len (set_len len h).

Section Trim.
(** [expand_head]: what making the head of a buffer private answers, 0 also when
    it is not cloned; [clone_ok]: the fragment is not shared or skb_clone gets
    its memory. Neither changes the bytes of the packet. *)
Context (expand_head : skb_head -> Z) (clone_ok : skb_head -> bool).

Fixpoint pskb_trim (skb : sk_buff) (len : Z) : Z * sk_buff :=
  match skb with
  | SkBuff h frags frag_list =>
      if negb (len <? h_len h) then (0, skb)
      else if h_len h - (h_tail h - h_data h) =? 0 then
        (0, SkBuff (skb_set_tail_pointer len (set_len len h)) frags frag_list)
      else
        let walk :=
          fix walk (l : list sk_buff) (offset : Z) : Z * list sk_buff :=
            match l with
            | [] => (0, [])
            | frag :: l =>
                let fend := offset + skb_len frag in
                if negb (clone_ok (skb_h frag)) then (- ENOMEM, frag :: l)
                else if fend <? len then
                  let '(err, l) := walk l fend in (err, frag :: l)
                else if fend >? len then
                  let '(err, frag) := pskb_trim frag (len - offset) in
                  if negb (err =? 0) then (err, frag :: l) else (0, [frag])
                else (0, [frag])
            end in
        let err := expand_head h in
        if negb (err =? 0) then (err, skb)
        else
          let offset := h_tail h - h_data h in
          if offset >=? len then (0, SkBuff (trim_done len h) [] [])
          else
            match trim_frags frags offset len with
            | inl kept => (0, SkBuff (trim_done len h) kept [])
            | inr offset =>
                let '(err, l) := walk frag_list offset in
                if negb (err =? 0) then (err, SkBuff h frags l)
                else (0, SkBuff (trim_done len h) frags l)
            end
  end.

(** [security]: the answer of the security module. The function [sk_filter]; a
    faulting filter has no result. *)
Definition sk_filter_packet (shl_big shr_big : Z -> Z -> Z) (stack : list Z) (security : Z)
    (sk : sock) (skb : sk_buff) : option (Z * sk_buff) :=
  if negb (security =? 0) then Some (security, skb)
  else
    match sk_filter sk with
    | None => Some (0, skb)
    | Some filter =>
        match sk_run_filter shl_big shr_big skb stack filter with
        | Some (Returned pkt_len) =>
            if negb (pkt_len =? 0) then Some (pskb_trim skb pkt_len) else Some (- EPERM, skb)
        | _ => None
        end
    end.
End Trim.
