(* ===== verification/BpfInv.v ===== *)
(** * BpfInv: correctness of the socket filter

    Packet loads read exactly the payload, checked filters terminate without
    any access outside their objects other than the one of the netlink
    attribute loads, and only checked filters are ever attached. *)

From S2P Require Import Prelude Bpf.

(** ** Packet bytes *)

Lemma length_slice l off n :
  0 <= off -> 0 <= n -> off + n <= Z.of_nat (length l) -> Z.of_nat (length (slice l off n)) = n.
Proof. intros. unfold slice. rewrite length_take, length_drop. lia. Qed.

Lemma slice_0 l off : slice l off 0 = [].
Proof. unfold slice. by rewrite take_0. Qed.

Lemma slice_app a b off n :
  0 <= off -> 0 <= n ->
  let m := Z.max 0 (Z.min n (Z.of_nat (length a) - off)) in
  slice (a ++ b) off n = slice a off m ++ slice b (off + m - Z.of_nat (length a)) (n - m).
Proof.
  intros Ho Hn m. unfold slice. rewrite drop_app, take_app, length_drop. f_equal.
  - destruct (decide (n <= Z.of_nat (length a) - off)).
    + do 2 f_equal. lia.
    + rewrite !take_ge; [done|rewrite length_drop; lia..].
  - destruct (decide (n - m = 0)) as [E|].
    + replace (Z.to_nat n - _)%nat with 0%nat by lia. replace (Z.to_nat (n - m)) with 0%nat by lia. done.
    + f_equal; [lia|]. f_equal. lia.
Qed.

(** Consecutive slices. *)
Lemma slice_slice_app l off n m :
  0 <= off -> 0 <= n -> 0 <= m -> slice l off (n + m) = slice l off n ++ slice l (off + n) m.
Proof.
  intros. unfold slice. rewrite (take_split (Z.to_nat (n + m)) (Z.to_nat n)) by lia.
  rewrite drop_drop. f_equal. f_equal; [lia|]. f_equal. lia.
Qed.

Section Ind.
Context (P : sk_buff -> Prop).
Hypothesis step : forall h frags l, Forall P l -> P (SkBuff h frags l).

Fixpoint sk_buff_nested (skb : sk_buff) : P skb :=
  match skb with
  | SkBuff h frags l =>
      step h frags l
        ((fix go (l : list sk_buff) : Forall P l :=
            match l with
            | [] => Forall_nil_2 P
            | x :: l => Forall_cons_2 P x l (sk_buff_nested x) (go l)
            end) l)
  end.
End Ind.

(** All bytes of the packet in order. *)
Fixpoint payload (skb : sk_buff) : list Z :=
  match skb with
  | SkBuff h frags l =>
      slice (h_mem h) (h_data h) (h_tail h - h_data h) ++ concat frags ++
      (fix go (l : list sk_buff) : list Z := match l with [] => [] | x :: l => payload x ++ go l end) l
  end.

Definition payloads (l : list sk_buff) : list Z := concat (payload <$> l).

Lemma payload_eq h frags l :
  payload (SkBuff h frags l) =
  slice (h_mem h) (h_data h) (h_tail h - h_data h) ++ concat frags ++ payloads l.
Proof.
  cbn [payload]. do 2 f_equal. unfold payloads. induction l as [|x l IH]; [done|]. cbn. by rewrite IH.
Qed.

Definition byte (x : Z) : Prop := 0 <= x < 256.

(** The header of a well-formed packet: data and tail inside the memory, with
    the shared info behind it; [skb->len] counts all bytes. *)
Record head_ok (h : skb_head) : Prop := {
  ho_data : 0 <= h_data h <= h_tail h;
  ho_tail : h_tail h + 4 <= Z.of_nat (length (h_mem h));
  ho_bytes : Forall byte (h_mem h);
  ho_len : 0 <= h_len h <= INT_MAX;
  ho_meta : 0 <= protocol h < 2 ^ 32 /\ 0 <= pkt_type h < 2 ^ 32 /\ 0 <= mark h < 2 ^ 32 /\
    0 <= queue_mapping h < 2 ^ 32;
  ho_dev d : dev h = Some d -> 0 <= d.2 < 2 ^ 32
}.

#[warnings="-register-all"]
Inductive skb_ok : sk_buff -> Prop :=
| skb_ok_intro h frags l :
    head_ok h -> Forall (Forall byte) frags -> Forall skb_ok l ->
    h_len h = h_tail h - h_data h + Z.of_nat (length (concat frags)) + Z.of_nat (length (payloads l)) ->
    skb_ok (SkBuff h frags l).

Lemma payload_length skb : skb_ok skb -> Z.of_nat (length (payload skb)) = skb_len skb.
Proof.
  intros [h frags l Ho _ _ Hl]. rewrite payload_eq, !length_app. change (skb_len _) with (h_len h). rewrite Hl.
  pose proof (ho_data _ Ho). pose proof (ho_tail _ Ho).
  pose proof (length_slice (h_mem h) (h_data h) (h_tail h - h_data h) ltac:(lia) ltac:(lia) ltac:(lia)). lia.
Qed.

Lemma copy_frags_spec frags : forall start offset to len,
  start <= offset -> 0 < len ->
  let total := Z.of_nat (length (concat frags)) in
  let n := Z.max 0 (Z.min len (start + total - offset)) in
  copy_frags frags start offset to len =
  if len - n =? 0 then inl (to ++ slice (concat frags) (offset - start) n)
  else inr (start + total, offset + n, to ++ slice (concat frags) (offset - start) n, len - n).
Proof.
  induction frags as [|f frags IH]; intros start offset to len Hs Hl; cbn [copy_frags concat].
  { cbn [length]. set (n := Z.max _ _). assert (n = 0) as -> by lia. rewrite !Z.sub_0_r, slice_0, app_nil_r.
    replace (len =? 0) with false by lia. cbn. do 3 f_equal. { f_equal; lia. } }
  rewrite length_app, Nat2Z.inj_add. set (lf := Z.of_nat (length f)). set (lr := Z.of_nat (length (concat frags))).
  cbn zeta. rewrite slice_app by lia. fold lf.
  destruct (start + lf - offset >? 0) eqn:E; zbool.
  - set (c := if start + lf - offset >? len then len else start + lf - offset).
    assert (c = Z.min len (start + lf - offset)) as Ec by (unfold c; case_if; zbool; lia).
    destruct (len - c =? 0) eqn:E1; zbool.
    + replace (len - Z.max 0 (Z.min len (start + (lf + lr) - offset)) =? 0) with true by lia.
      do 2 f_equal. set (m := Z.max 0 (Z.min (Z.max _ _) _)). replace m with c by lia.
      replace (Z.max 0 (Z.min len (start + (lf + lr) - offset)) - c) with 0 by lia.
      by rewrite slice_0, app_nil_r.
    + rewrite IH by lia. fold lr.
      set (n := Z.max 0 (Z.min (len - c) _)). set (N := Z.max 0 (Z.min len (start + (lf + lr) - offset))).
      assert (N = c + n) as EN by lia. replace (len - c - n) with (len - N) by lia.
      replace (Z.max 0 (Z.min N (lf - (offset - start)))) with c by lia.
      replace (N - c) with n by lia. replace (offset + c - (start + lf)) with (offset - start + c - lf) by lia.
      rewrite app_assoc. destruct (len - N =? 0); [done|]. do 2 f_equal. f_equal. f_equal; lia.
  - rewrite IH by lia. fold lr. replace (start + lf + lr - offset) with (start + (lf + lr) - offset) by lia.
    set (N := Z.max 0 (Z.min len _)). replace (Z.max 0 (Z.min N (lf - (offset - start)))) with 0 by lia.
    rewrite slice_0. cbn [app]. replace (offset - start + 0 - lf) with (offset - (start + lf)) by lia.
    rewrite Z.sub_0_r. destruct (len - N =? 0); [done|]. do 4 f_equal. lia.
Qed.

(** The walk over the fragment list, named. *)
Fixpoint walk_frag_list (l : list sk_buff) (start offset : Z) (to : list Z) (len : Z) : option (list Z) :=
  match l with
  | [] => if len =? 0 then Some to else None
  | frag_iter :: l =>
      let fend := start + skb_len frag_iter in
      let copy := fend - offset in
      if copy >? 0 then
        let copy := if copy >? len then len else copy in
        match skb_copy_bits frag_iter (offset - start) copy with
        | None => None
        | Some b =>
            if len - copy =? 0 then Some (to ++ b)
            else walk_frag_list l fend (offset + copy) (to ++ b) (len - copy)
        end
      else walk_frag_list l fend offset to len
  end.

Lemma skb_copy_bits_eq h frags l offset len :
  skb_copy_bits (SkBuff h frags l) offset len =
  let start := h_tail h - h_data h in
  if offset >? h_len h - len then None
  else
    let copy := start - offset in
    let copied := if copy >? 0 then if copy >? len then len else copy else 0 in
    let to := if copy >? 0 then slice (h_mem h) (h_data h + offset) copied else [] in
    if (copy >? 0) && (len - copied =? 0) then Some to
    else
      match copy_frags frags start (offset + copied) to (len - copied) with
      | inl to => Some to
      | inr (start, offset, to, len) => walk_frag_list l start offset to len
      end.
Proof. reflexivity. Qed.

(** What copying from a packet means. *)
Definition copies (skb : sk_buff) : Prop :=
  skb_ok skb -> forall offset len, 0 <= offset -> 0 < len ->
  skb_copy_bits skb offset len =
  if offset + len <=? skb_len skb then Some (slice (payload skb) offset len) else None.

Lemma walk_frag_list_spec l : Forall skb_ok l -> Forall copies l -> forall start offset to len,
  start <= offset -> 0 < len -> offset + len <= start + Z.of_nat (length (payloads l)) ->
  walk_frag_list l start offset to len = Some (to ++ slice (payloads l) (offset - start) len).
Proof.
  induction l as [|x l IH]; intros Hok Hc start offset to len Hs Hl Ht.
  { cbn in Ht. lia. }
  apply Forall_cons in Hok as [Hx Hok]. apply Forall_cons in Hc as [Hcx Hc]. cbn [walk_frag_list].
  change (payloads (x :: l)) with (payload x ++ payloads l) in *. rewrite length_app in Ht.
  pose proof (payload_length x Hx) as Ex. rewrite slice_app by lia. rewrite Ex.
  destruct (start + skb_len x - offset >? 0) eqn:E; zbool.
  - set (c := if start + skb_len x - offset >? len then len else start + skb_len x - offset).
    assert (c = Z.min len (start + skb_len x - offset)) as Ec by (unfold c; case_if; zbool; lia).
    rewrite (Hcx Hx) by lia. replace (offset - start + c <=? skb_len x) with true by lia.
    replace (Z.max 0 (Z.min len (skb_len x - (offset - start)))) with c by lia.
    destruct (len - c =? 0) eqn:E1; zbool.
    + rewrite E1, slice_0, app_nil_r. done.
    + rewrite IH by (done || lia). rewrite <- app_assoc. do 4 f_equal. lia.
  - rewrite IH by (done || lia). replace (Z.max 0 (Z.min len (skb_len x - (offset - start)))) with 0 by lia.
    rewrite slice_0, Z.sub_0_r. cbn [app]. do 3 f_equal. lia.
Qed.

Lemma slice_within l a n off m :
  0 <= a -> 0 <= n -> 0 <= off -> 0 <= m -> off + m <= n -> slice (slice l a n) off m = slice l (a + off) m.
Proof.
  intros. unfold slice. rewrite List.skipn_firstn_comm, take_take, drop_drop. f_equal; [lia|]. f_equal. lia.
Qed.

(** The whole of skb_copy_bits: the bytes asked for, or a fault when they are
    not all in the packet. *)
Lemma skb_copy_bits_spec skb : copies skb.
Proof.
  induction skb as [h frags l IH] using sk_buff_nested. intros Hok offset len Ho Hl.
  inversion Hok as [h' frags' l' Hh Hf Hokl Hlen]; subst. rewrite skb_copy_bits_eq. cbn zeta.
  change (skb_len (SkBuff h frags l)) with (h_len h). pose proof (ho_data _ Hh). pose proof (ho_tail _ Hh).
  set (start := h_tail h - h_data h) in *. destruct (offset >? h_len h - len) eqn:E; zbool.
  { by replace (offset + len <=? h_len h) with false by lia. }
  replace (offset + len <=? h_len h) with true by lia.
  assert (Z.of_nat (length (slice (h_mem h) (h_data h) start)) = start) as Els by (apply length_slice; lia).
  rewrite payload_eq. fold start. rewrite slice_app by lia. rewrite Els.
  set (copied := if start - offset >? 0 then _ else 0).
  assert (copied = Z.max 0 (Z.min len (start - offset))) as Ec.
  { unfold copied. destruct (start - offset >? 0) eqn:E1; zbool; [case_if; zbool|]; lia. }
  rewrite <- Ec.
  assert ((if start - offset >? 0 then slice (h_mem h) (h_data h + offset) copied else []) =
          slice (slice (h_mem h) (h_data h) start) offset copied) as ->.
  { destruct (start - offset >? 0) eqn:E1; zbool; [rewrite slice_within by lia; done|].
    replace copied with 0 by lia. by rewrite slice_0. }
  set (to := slice (slice _ _ start) offset copied).
  destruct ((start - offset >? 0) && (len - copied =? 0)) eqn:E1; zbool.
  { replace (len - copied) with 0 by lia. by rewrite slice_0, app_nil_r. }
  rewrite copy_frags_spec by lia. set (total := Z.of_nat (length (concat frags))) in *.
  set (n := Z.max 0 _). rewrite slice_app by lia. fold total.
  replace (Z.max 0 (Z.min (len - copied) (total - (offset + copied - start)))) with n by lia.
  destruct (len - copied - n =? 0) eqn:E2; zbool.
  - rewrite E2, slice_0, app_nil_r. done.
  - rewrite walk_frag_list_spec by (done || lia). rewrite <- app_assoc. do 4 f_equal. lia.
Qed.

(** ** Loads *)

Lemma slice_bytes l off n : Forall byte l -> Forall byte (slice l off n).
Proof. intros. unfold slice. by apply Forall_take, Forall_drop. Qed.

Lemma payload_bytes skb : skb_ok skb -> Forall byte (payload skb).
Proof.
  induction skb as [h frags l IH] using sk_buff_nested. intros Hok.
  inversion Hok as [h' frags' l' Hh Hf Hokl Hlen]; subst. rewrite payload_eq.
  apply Forall_app. split; [by apply slice_bytes, Hh|]. apply Forall_app. split; [by apply Forall_concat|].
  unfold payloads. apply Forall_concat, Forall_fmap. rewrite Forall_forall in *.
  intros x Hx. cbn. by apply IH, Hokl.
Qed.

Lemma get_be_range b : Forall byte b -> (length b <= 4)%nat -> 0 <= get_be b < 2 ^ 32.
Proof.
  intros Hb Hl. unfold get_be.
  assert (forall n k, 0 <= k -> 0 <= n < 256 ^ k ->
    0 <= foldl (fun n x => n * 256 + x) n b < 256 ^ (k + Z.of_nat (length b))) as Hg.
  { clear Hl. induction Hb as [|x b Hx _ IH]; intros n k Hk Hn; cbn [foldl length].
    - by rewrite Z.add_0_r.
    - replace (k + Z.of_nat (S (length b))) with (k + 1 + Z.of_nat (length b)) by lia. apply IH; [lia|].
      rewrite Z.pow_add_r, Z.pow_1_r by lia. unfold byte in Hx. lia. }
  destruct (Hg 0 0 ltac:(lia) ltac:(lia)) as [H1 H2]. split; [done|].
  apply (Z.lt_le_trans _ _ _ H2). change (2 ^ 32) with (256 ^ 4). apply Z.pow_le_mono_r; lia.
Qed.

Lemma skb_ok_head skb : skb_ok skb -> head_ok (skb_h skb).
Proof. by intros []. Qed.

(** A load at a non-negative offset reads the packet, however it is split. *)
Lemma header_pointer_spec skb k n :
  skb_ok skb -> 0 <= k -> 0 < n ->
  skb_header_pointer skb k n =
  if k + n <=? skb_len skb then LoadBytes (slice (payload skb) k n) else LoadNull.
Proof.
  intros Hok Hk Hn. pose proof (skb_ok_head _ Hok) as Hh. unfold skb_header_pointer.
  pose proof (ho_data _ Hh). pose proof (ho_tail _ Hh). pose proof (payload_length _ Hok) as Hp.
  destruct (skb_headlen skb - k >=? n) eqn:E; zbool.
  - unfold read_mem, skb_headlen in *. set (h := skb_h skb) in *.
    replace (0 <=? h_data h + k) with true by lia.
    replace (h_data h + k + n <=? Z.of_nat (length (h_mem h))) with true by lia. cbn [andb read_load].
    destruct skb as [h0 frags l]. cbn in h. subst h. rewrite payload_eq in Hp |- *. rewrite length_app in Hp.
    rewrite slice_app by lia. pose proof (length_slice (h_mem h0) (h_data h0) (h_tail h0 - h_data h0) ltac:(lia) ltac:(lia) ltac:(lia)) as Els.
    rewrite Els. replace (Z.max 0 _) with n by lia. rewrite Z.sub_diag, slice_0, app_nil_r, slice_within by lia.
    by replace (k + n <=? _) with true by lia.
  - rewrite (skb_copy_bits_spec skb Hok k n Hk Hn). by destruct (k + n <=? skb_len skb).
Qed.

Definition load_ok (r : load_result) : Prop :=
  match r with LoadNull => True | LoadBytes b => 0 <= get_be b < 2 ^ 32 | LoadFault => False end.

Lemma load_pointer_ok skb k n : skb_ok skb -> 0 < n <= 4 -> load_ok (load_pointer skb k n).
Proof.
  intros Hok Hn. pose proof (skb_ok_head _ Hok) as Hh. unfold load_pointer. destruct (k >=? 0) eqn:E; zbool.
  - rewrite (header_pointer_spec skb k n Hok E) by lia. destruct (k + n <=? skb_len skb); [|done].
    apply get_be_range; [by apply slice_bytes, payload_bytes|]. unfold slice. rewrite length_take. lia.
  - destruct (k >=? SKF_AD_OFF); [done|]. unfold load_pointer_neg.
    destruct (if k >=? SKF_NET_OFF then _ else _) as [p|]; [|done].
    destruct ((p >=? 0) && (p <? h_tail (skb_h skb))) eqn:E1; [|done]. zbool. pose proof (ho_tail _ Hh).
    unfold read_mem. replace (0 <=? p) with true by lia.
    replace (p + n <=? Z.of_nat (length (h_mem (skb_h skb)))) with true by lia. cbn.
    apply get_be_range; [apply slice_bytes, Hh|]. unfold slice. rewrite length_take. lia.
Qed.

(** ** One instruction *)

Definition word (x : Z) : Prop := 0 <= x < 2 ^ 32.

Record regs_ok (r : regs) : Prop := {
  ro_A : word (reg_A r);
  ro_X : word (reg_X r);
  ro_mem : Forall word (reg_mem r);
  ro_mem_len : length (reg_mem r) = Z.to_nat BPF_MEMWORDS
}.

(** The fields of an instruction have their widths. *)
Record insn_ok (f : sock_filter) : Prop := {
  io_jt : 0 <= jt f < 256;
  io_jf : 0 <= jf f < 256;
  io_k : word (insn_k f)
}.

(** Only the netlink loads may leave the packet. *)
Definition outcome_ok (o : outcome) : Prop :=
  match o with Returned v => word v | Fault f => f = BadNlattr end.

Definition step_ok (flen pc : Z) (s : step_result) : Prop :=
  match s with
  | Continue pc' r => pc <= pc' /\ pc' + 1 < flen /\ regs_ok r
  | Stop o => outcome_ok o
  end.

Lemma u32_word x : word (u32 x).
Proof. apply wrapu_range. lia. Qed.

Lemma set_A_ok a r : regs_ok r -> word a -> regs_ok (set_A a r).
Proof. intros [] ?. by constructor. Qed.

Lemma set_X_ok x r : regs_ok r -> word x -> regs_ok (set_X x r).
Proof. intros [] ?. by constructor. Qed.

Lemma word_bits x : word x <-> 0 <= x /\ forall l, 32 <= l -> Z.testbit x l = false.
Proof.
  unfold word. split.
  - intros Hx. split; [lia|]. apply Z.bounded_iff_bits_nonneg; lia.
  - intros [Hx Hb]. split; [done|]. apply Z.bounded_iff_bits_nonneg; [lia|done|done].
Qed.

Lemma land_word a b : word a -> word b -> word (Z.land a b).
Proof.
  rewrite !word_bits. intros [Ha Ba] [Hb Bb]. split; [apply Z.land_nonneg; by left|].
  intros l Hl. by rewrite Z.land_spec, Ba.
Qed.

Lemma lor_word a b : word a -> word b -> word (Z.lor a b).
Proof.
  rewrite !word_bits. intros [Ha Ba] [Hb Bb]. split; [by apply Z.lor_nonneg|].
  intros l Hl. by rewrite Z.lor_spec, Ba, Bb.
Qed.

Lemma alu_ok shl shr op a b v : word a -> word b -> alu shl shr op a b = Some v -> word v.
Proof.
  intros Ha Hb. destruct op; cbn; try (intros [= <-]; apply u32_word).
  - case_if; [done|]. zbool. intros [= <-]. unfold word in *. split; [apply Z.div_pos; lia|].
    apply (Z.le_lt_trans _ a); [apply Z.div_le_upper_bound; nia|lia].
  - intros [= <-]. by apply land_word.
  - intros [= <-]. by apply lor_word.
  - intros [= <-]. case_if; apply u32_word.
  - intros [= <-]. case_if; [|apply u32_word]. unfold word in *. rewrite Z.shiftr_div_pow2 by lia.
    assert (0 < 2 ^ b) by (apply Z.pow_pos_nonneg; lia). split; [apply Z.div_pos; lia|].
    apply (Z.le_lt_trans _ a); [apply Z.div_le_upper_bound; nia|lia].
Qed.

Lemma decode_code c i : decode c = Some i -> code_of i = c.
Proof. intros Hd. apply List.find_some in Hd as [_ Hd]. by apply Z.eqb_eq. Qed.

(** The last instruction returns. *)
Lemma ret_class c i : decode c = Some i -> BPF_CLASS c = BPF_RET -> i = RetK \/ i = RetA.
Proof.
  intros <-%decode_code. destruct i as [[] []| | |[] []|[]|[]| | | | | | | | | | | | |]; vm_compute; try done; auto.
Qed.

Section Exec.
Context (shl_big shr_big : Z -> Z -> Z).
Context (skb : sk_buff).
Hypothesis skb_good : skb_ok skb.

Lemma skb_len_word : word (skb_len skb).
Proof. pose proof (ho_len _ (skb_ok_head _ skb_good)). unfold word, skb_len, INT_MAX in *. lia. Qed.

Lemma nla_result_ok flen pc r o :
  pc + 1 < flen -> regs_ok r -> step_ok flen pc (nla_result skb pc r o).
Proof.
  intros Hpc Hr. destruct o as [[p|]|]; cbn; [..|done]; (split; [lia|]); (split; [done|]);
    apply set_A_ok; [done|apply u32_word|done|]. done.
Qed.

Lemma ancillary_ok flen pc k r :
  pc + 1 < flen -> regs_ok r -> step_ok flen pc (ancillary skb pc k r).
Proof.
  intros Hpc Hr. pose proof (skb_ok_head _ skb_good) as Hh. destruct (ho_meta _ Hh) as (H1 & H2 & H3 & H4).
  assert (forall a, word a -> step_ok flen pc (Continue pc (set_A a r))) as Hc.
  { intros a Ha. split; [lia|]. split; [done|]. by apply set_A_ok. }
  unfold ancillary. destruct (_ =? _); [by apply Hc|]. destruct (_ =? _); [by apply Hc|].
  destruct (_ =? _); [destruct (dev _); [apply Hc, u32_word|done]|].
  destruct (_ =? _); [by apply Hc|]. destruct (_ =? _); [by apply Hc|].
  destruct (_ =? _).
  { destruct (dev _) as [d|] eqn:Ed; [apply Hc; by apply (ho_dev _ Hh)|done]. }
  destruct (_ =? _).
  { destruct (skb_is_nonlinear skb); [done|]. destruct (nlattr_out _ _); [done|]. by apply nla_result_ok. }
  destruct (_ =? _); [|done]. destruct (skb_is_nonlinear skb); [done|]. destruct (nlattr_out _ _); [done|].
  destruct (read_u16 _ _); [|done]. destruct (_ >? _); [done|]. by apply nla_result_ok.
Qed.

Lemma load_step_ok flen pc k w r :
  pc + 1 < flen -> regs_ok r -> step_ok flen pc (load skb pc k w r).
Proof.
  intros Hpc Hr. unfold load. assert (0 < width_size w <= 4) as Hw by (destruct w; cbn; lia).
  pose proof (load_pointer_ok skb k (width_size w) skb_good Hw) as Hl.
  destruct (load_pointer _ _ _); [by apply ancillary_ok| |done]. cbn in Hl |- *. split; [lia|]. split; [done|].
  by apply set_A_ok.
Qed.

Lemma mem_get_ok k r : regs_ok r -> 0 <= k < BPF_MEMWORDS -> exists v, mem_get k r = Some v /\ word v.
Proof.
  intros Hr Hk. unfold mem_get. destruct (lookup_lt_is_Some_2 (reg_mem r) (Z.to_nat k)) as [v Hv].
  { rewrite (ro_mem_len _ Hr). lia. }
  exists v. split; [done|]. exact (Forall_lookup_1 _ _ _ _ (ro_mem _ Hr) Hv).
Qed.

Lemma set_mem_ok k v r : regs_ok r -> word v -> regs_ok (set_mem (<[k := v]> (reg_mem r)) r).
Proof.
  intros [] Hv. constructor; cbn; [done|done|by apply Forall_insert|by rewrite length_insert].
Qed.

(** A checked instruction in front of another one goes forward or ends the
    run properly. *)
Lemma exec_ok flen pc f r :
  0 <= pc -> pc + 1 < flen -> flen <= BPF_MAXINSNS -> insn_ok f -> chk_insn flen pc f = true -> regs_ok r ->
  step_ok flen pc (exec shl_big shr_big skb pc f r).
Proof.
  intros Hpc Hlt Hmax [Hjt Hjf Hk] Hchk Hr. unfold chk_insn, exec in *.
  destruct (decode (code f)) as [i|]; [|done].
  assert (forall r', regs_ok r' -> step_ok flen pc (Continue pc r')) as Hc by (intros; cbn; split; [lia|done]).
  destruct i as [op s| | |op s|w|w| | | | | | | | | | | | |].
  - assert (word (match s with OpK => insn_k f | OpX => reg_X r end)) as Hb by (destruct s; [done|apply Hr]).
    destruct (alu _ _ op _ _) as [a|] eqn:Ea.
    + apply Hc, set_A_ok; [done|]. exact (alu_ok _ _ _ _ _ _ (ro_A _ Hr) Hb Ea).
    + destruct s; [|done]. destruct op; try discriminate. cbn in Ea. by destruct (insn_k f =? 0).
  - apply Hc, set_A_ok; [done|apply u32_word].
  - zbool. unfold u32 in Hchk. rewrite wrapu_small in Hchk by (unfold BPF_MAXINSNS in *; lia).
    unfold word, BPF_MAXINSNS in *. cbn. unfold s32. rewrite wraps_small by lia. split; [lia|]. split; [lia|done].
  - zbool. cbn. destruct (cond _ _ _); (split; [lia|]); (split; [lia|done]).
  - by apply load_step_ok.
  - by apply load_step_ok.
  - apply Hc, set_A_ok; [done|apply skb_len_word].
  - apply Hc, set_X_ok; [done|apply skb_len_word].
  - pose proof (load_pointer_ok skb (s32 (insn_k f)) 1 skb_good ltac:(lia)) as Hl.
    destruct (load_pointer _ _ _) as [|b|]; [done| |done]. cbn in Hl. apply Hc, set_X_ok; [done|].
    assert (0 <= Z.land (get_be b) 15 < 2 ^ 4) by (rewrite (Z.land_ones _ 4) by lia; apply Z.mod_pos_bound; lia).
    unfold word. rewrite Z.shiftl_mul_pow2 by lia. lia.
  - apply Hc, set_A_ok; [done|done].
  - apply Hc, set_X_ok; [done|done].
  - zbool. destruct (mem_get_ok (insn_k f) r Hr) as (v & -> & Hv); [unfold word in Hk; lia|]. by apply Hc, set_A_ok.
  - zbool. destruct (mem_get_ok (insn_k f) r Hr) as (v & -> & Hv); [unfold word in Hk; lia|]. by apply Hc, set_X_ok.
  - apply Hc, set_X_ok; [done|apply Hr].
  - apply Hc, set_A_ok; [done|apply Hr].
  - done.
  - apply Hr.
  - zbool. destruct (mem_get_ok (insn_k f) r Hr) as (v & -> & Hv); [unfold word in Hk; lia|].
    apply Hc, set_mem_ok; [done|apply Hr].
  - zbool. destruct (mem_get_ok (insn_k f) r Hr) as (v & -> & Hv); [unfold word in Hk; lia|].
    apply Hc, set_mem_ok; [done|apply Hr].
Qed.
End Exec.

(** ** Whole filters *)

(** Where an instruction can go on. *)
Definition succs (pc : Z) (f : sock_filter) (i : insn) : list Z :=
  match i with
  | RetK | RetA => []
  | Ja => [pc + 1 + insn_k f]
  | Jmp _ _ => [pc + 1 + jt f; pc + 1 + jf f]
  | _ => [pc + 1]
  end.

Definition uses_mem (i : insn) : bool :=
  match i with LdMem | LdxMem | St | Stx => true | _ => false end.

(** The instruction at [pc] is legal and goes forward, inside the filter. *)
Definition valid_at (flen pc : Z) (f : sock_filter) : Prop :=
  exists i, decode (code f) = Some i /\ Forall (fun t => pc < t < flen) (succs pc f i) /\
    (uses_mem i = true -> insn_k f < BPF_MEMWORDS) /\ (i = Alu DIV OpK -> insn_k f <> 0).

Definition valid_filter (filter : list sock_filter) : Prop :=
  0 < Z.of_nat (length filter) <= BPF_MAXINSNS /\
  forall pc f, filter !! pc = Some f -> valid_at (Z.of_nat (length filter)) (Z.of_nat pc) f.

Lemma chk_loop_spec flen l : forall pc,
  chk_loop flen pc l = true <-> forall i f, l !! i = Some f -> chk_insn flen (pc + Z.of_nat i) f = true.
Proof.
  induction l as [|f l IH]; intros pc; cbn [chk_loop]; [by split|]. rewrite andb_true_iff, IH. split.
  - intros [Hf Hl] [|i] g; cbn; [intros [= <-]; by rewrite Z.add_0_r|]. intros Hg.
    replace (pc + Z.of_nat (S i)) with (pc + 1 + Z.of_nat i) by lia. by apply Hl.
  - intros Hall. split; [rewrite <- (Z.add_0_r pc); by apply (Hall 0%nat)|]. intros i g Hg.
    replace (pc + 1 + Z.of_nat i) with (pc + Z.of_nat (S i)) by lia. by apply (Hall (S i)).
Qed.

Lemma chk_filter_parts filter :
  sk_chk_filter filter = 0 <->
  0 < Z.of_nat (length filter) <= BPF_MAXINSNS /\
  (forall i f, filter !! i = Some f -> chk_insn (Z.of_nat (length filter)) (Z.of_nat i) f = true) /\
  (forall f, last filter = Some f -> BPF_CLASS (code f) = BPF_RET).
Proof.
  unfold sk_chk_filter. destruct (_ || _) eqn:E; zbool.
  { split; [done|]. intros [? _]. destruct E; zbool; lia. }
  destruct (chk_loop _ 0 filter) eqn:El; cbn [negb].
  - rewrite chk_loop_spec in El. destruct (last filter) as [f|] eqn:Ef.
    + destruct (BPF_CLASS (code f) =? BPF_RET) eqn:Ec; zbool.
      * split; [|done]. intros _. split; [lia|]. split; [exact El|]. by intros g [= <-].
      * split; [done|]. intros (_ & _ & Hl). destruct Ec. by apply Hl.
    + apply last_None in Ef. subst. done.
  - split; [done|]. intros (_ & Hall & _). apply not_true_iff_false in El. destruct El. by apply chk_loop_spec.
Qed.

Lemma last_pc (filter : list sock_filter) pc f :
  filter !! pc = Some f -> Z.of_nat pc + 1 = Z.of_nat (length filter) -> last filter = Some f.
Proof. intros Hf Hl. rewrite last_lookup. by replace (pred (length filter)) with pc by lia. Qed.

Lemma chk_insn_valid flen pc f :
  0 <= pc < flen -> flen <= BPF_MAXINSNS -> insn_ok f -> chk_insn flen pc f = true ->
  (pc + 1 = flen -> BPF_CLASS (code f) = BPF_RET) -> valid_at flen pc f.
Proof.
  intros Hpc Hmax [Hjt Hjf Hk] Hchk Hlast. unfold chk_insn, valid_at in *.
  destruct (decode (code f)) as [i|] eqn:Ed; [|done]. exists i. split; [done|].
  assert (pc + 1 < flen \/ i = RetK \/ i = RetA) as Hor.
  { destruct (decide (pc + 1 < flen)); [by left|]. right. apply (ret_class _ _ Ed), Hlast. lia. }
  assert (pc + 1 < flen -> Forall (fun t => pc < t < flen) [pc + 1]) as H1 by (intros; repeat constructor; lia).
  destruct i as [op s| | |op s| | | | | | | | | | | | | | |]; cbn [succs uses_mem];
    try (split; [first [by constructor|apply H1; by destruct Hor as [?|[?|?]]]|split; [|done]; intros; zbool; lia]).
  - split; [apply H1; by destruct Hor as [?|[?|?]]|]. split; [done|]. intros [= -> ->]. by zbool.
  - zbool. unfold u32 in Hchk. rewrite wrapu_small in Hchk by (unfold BPF_MAXINSNS in *; lia).
    unfold word in Hk. split; [repeat constructor; lia|done].
  - zbool. split; [repeat constructor; lia|done].
Qed.

(** An instruction with no way on returns. *)
Lemma valid_last flen f : valid_at flen (flen - 1) f -> BPF_CLASS (code f) = BPF_RET.
Proof.
  intros (i & Hd & Hs & _). apply decode_code in Hd. rewrite <- Hd.
  destruct i; cbn [succs] in Hs; try done;
    match goal with Hs : Forall _ (_ :: _) |- _ => apply Forall_cons in Hs as [Hs _] end.
  all: cbn beta in Hs; lia.
Qed.

Lemma chk_insn_intro flen pc f :
  0 <= pc < flen -> flen <= BPF_MAXINSNS -> insn_ok f -> valid_at flen pc f -> chk_insn flen pc f = true.
Proof.
  intros Hpc Hmax [Hjt Hjf Hk] (i & Hd & Hs & Hm & Hz). unfold chk_insn. rewrite Hd. unfold word in Hk.
  assert (uses_mem i = true -> negb (insn_k f >=? BPF_MEMWORDS) = true) as Hmem.
  { intros H. specialize (Hm H). apply negb_true_iff. lia. }
  destruct i as [op s| | |op s| | | | | | | | | | | | | | |]; try done; try by apply Hmem.
  - destruct op, s; try done. apply negb_true_iff, Z.eqb_neq. by apply Hz.
  - apply Forall_cons in Hs as [Hs _]. apply negb_true_iff. unfold u32.
    rewrite wrapu_small by (unfold BPF_MAXINSNS in *; lia). lia.
  - apply Forall_cons in Hs as [H1 Hs]. apply Forall_cons in Hs as [H2 _].
    apply negb_true_iff, orb_false_iff. lia.
Qed.

(** C11. The checker accepts exactly the filters whose every instruction is a
    known one, continues only forward and inside the filter, uses only the
    sixteen memory words and does not divide by the constant zero; so the
    last instruction of an accepted filter returns. *)
Theorem sk_chk_filter_exact filter :
  Forall insn_ok filter -> sk_chk_filter filter = 0 <-> valid_filter filter.
Proof.
  intros Hok. rewrite chk_filter_parts. unfold valid_filter. split.
  - intros (Hlen & Hall & Hlast). split; [done|]. intros pc f Hf.
    pose proof (lookup_lt_Some _ _ _ Hf).
    apply chk_insn_valid; [lia|lia|exact (Forall_lookup_1 _ _ _ _ Hok Hf)|by apply Hall|].
    intros He. by apply Hlast, (last_pc _ pc).
  - intros (Hlen & Hall). split; [done|]. split.
    + intros pc f Hf. pose proof (lookup_lt_Some _ _ _ Hf).
      apply chk_insn_intro; [lia|lia|exact (Forall_lookup_1 _ _ _ _ Hok Hf)|by apply Hall].
    + intros f Hl. rewrite last_lookup in Hl. specialize (Hall _ _ Hl).
      apply (valid_last (Z.of_nat (length filter))).
      by replace (Z.of_nat (length filter) - 1) with (Z.of_nat (pred (length filter))) by lia.
Qed.

(** ** Runs of checked filters *)

Section RunSafe.
Context (shl_big shr_big : Z -> Z -> Z).
Context (skb : sk_buff).
Hypothesis skb_good : skb_ok skb.
Context (filter : list sock_filter).
Hypothesis widths : Forall insn_ok filter.
Hypothesis checked : sk_chk_filter filter = 0.

Lemma exec_last pc f r :
  Z.of_nat pc + 1 = Z.of_nat (length filter) -> filter !! pc = Some f -> regs_ok r ->
  exists v, exec shl_big shr_big skb (Z.of_nat pc) f r = Stop (Returned v) /\ word v.
Proof.
  intros Hpc Hf Hr. apply chk_filter_parts in checked as (Hlen & Hall & Hlast).
  specialize (Hall _ _ Hf). unfold chk_insn, exec in *.
  destruct (decode (code f)) as [i|] eqn:Ed; [|done].
  destruct (ret_class _ _ Ed (Hlast _ (last_pc _ _ _ Hf Hpc))) as [-> | ->].
  - exists (insn_k f). split; [done|]. by apply (io_k _ (Forall_lookup_1 _ _ _ _ widths Hf)).
  - exists (reg_A r). split; [done|apply Hr].
Qed.

Lemma run_loop_ok fuel : forall pc r,
  0 <= pc < Z.of_nat (length filter) -> Z.of_nat (length filter) - pc <= Z.of_nat fuel -> regs_ok r ->
  exists o, run_loop shl_big shr_big skb fuel filter pc r = Some o /\ outcome_ok o.
Proof.
  induction fuel as [|fuel IH]; intros pc r Hpc Hfuel Hr; [lia|]. cbn [run_loop].
  replace (pc <? Z.of_nat (length filter)) with true by lia. replace (pc <? 0) with false by lia.
  destruct (lookup_lt_is_Some_2 filter (Z.to_nat pc)) as [f Hf]; [lia|]. rewrite Hf.
  pose proof checked as (Hlen & Hall & _)%chk_filter_parts.
  destruct (decide (pc + 1 < Z.of_nat (length filter))) as [Hlt|Hlast].
  - pose proof (Forall_lookup_1 _ _ _ _ widths Hf) as Hf'. specialize (Hall _ _ Hf).
    rewrite Z2Nat.id in Hall by lia.
    pose proof (exec_ok shl_big shr_big skb skb_good _ pc f r ltac:(lia) Hlt ltac:(lia) Hf' Hall Hr) as Hs.
    destruct (exec _ _ _ pc f r) as [pc' r'|o]; [|by exists o]. cbn in Hs. apply IH; [lia|lia|apply Hs].
  - destruct (exec_last (Z.to_nat pc) f r) as (v & He & Hv); [lia|done|done|].
    rewrite Z2Nat.id in He by lia. rewrite He. by exists (Returned v).
Qed.
End RunSafe.

(** C10. A run of an accepted filter over any well-formed packet ends, within
    one instruction more than the filter has, with a 32-bit value: it never
    fetches outside the filter, never touches memory words outside [mem],
    never reads outside the packet through a load, never divides by zero and
    never falls off the end. The netlink attribute search is the only
    place left that may leave the packet. *)
Theorem sk_run_filter_safe shl_big shr_big skb stack filter :
  skb_ok skb -> Forall insn_ok filter -> sk_chk_filter filter = 0 ->
  Forall word stack -> length stack = Z.to_nat BPF_MEMWORDS ->
  exists o, sk_run_filter shl_big shr_big skb stack filter = Some o /\ outcome_ok o.
Proof.
  intros Hskb Hw Hchk Hst Hlen. pose proof Hchk as (Hpos & _)%chk_filter_parts.
  unfold sk_run_filter. apply run_loop_ok; [done|done|done|lia|lia|].
  by constructor.
Qed.

(** C17. A packet load at a non-negative offset gives the big-endian value of
    the bytes of the payload at that offset, or ends the filter with 0 when
    the packet is too short, however the packet is split into a linear part,
    page fragments and a list of further buffers. *)
Theorem bpf_load_payload skb pc k w r :
  skb_ok skb -> 0 <= k ->
  load skb pc k w r =
  if k + width_size w <=? skb_len skb
  then Continue pc (set_A (get_be (slice (payload skb) k (width_size w))) r)
  else Stop (Returned 0).
Proof.
  intros Hok Hk. unfold load, load_pointer. replace (k >=? 0) with true by lia.
  rewrite header_pointer_spec by (try done; destruct w; cbn; lia).
  destruct (_ <=? _); [done|]. unfold ancillary.
  repeat match goal with |- context [?a - SKF_AD_OFF =? ?b] =>
    replace (a - SKF_AD_OFF =? b) with false
      by (symmetry; apply Z.eqb_neq; unfold SKF_AD_OFF, SKF_AD_PROTOCOL, SKF_AD_PKTTYPE, SKF_AD_IFINDEX,
        SKF_AD_MARK, SKF_AD_QUEUE, SKF_AD_HATYPE, SKF_AD_NLATTR, SKF_AD_NLATTR_NEST; lia) end.
  done.
Qed.

(** ** Netlink attribute loads *)

Lemma read_u16_ok skb pos :
  skb_ok skb -> h_data (skb_h skb) <= pos -> pos + 2 <= h_tail (skb_h skb) ->
  exists v, read_u16 skb pos = Some v /\ 0 <= v < 65536.
Proof.
  intros Hok Hlo Hhi. pose proof (skb_ok_head _ Hok) as Hh. pose proof (ho_data _ Hh). pose proof (ho_tail _ Hh).
  unfold read_u16, read_mem. replace (0 <=? pos) with true by lia.
  replace (pos + 2 <=? Z.of_nat (length (h_mem (skb_h skb)))) with true by lia. cbn [andb].
  pose proof (slice_bytes (h_mem (skb_h skb)) pos 2 (ho_bytes _ Hh)) as Hb.
  pose proof (length_slice (h_mem (skb_h skb)) pos 2 ltac:(lia) ltac:(lia) ltac:(lia)) as Hl.
  destruct (slice _ pos 2) as [|a [|b [|? ?]]]; cbn in Hl; try lia.
  exists (a + 256 * b). split; [done|]. apply Forall_cons in Hb as [Ha Hb]. apply Forall_cons in Hb as [Hb _].
  unfold byte in *. lia.
Qed.

(** Alignment rounds up to the next multiple of four. *)
Lemma NLA_ALIGN_div n : NLA_ALIGN n = 4 * ((n + 3) / 4).
Proof.
  unfold NLA_ALIGN. change (Z.lnot 3) with (Z.lnot (Z.ones 2)). rewrite <- Z.ldiff_land, Z.ldiff_ones_r by lia.
  rewrite Z.shiftr_div_pow2, Z.shiftl_mul_pow2 by lia. change (2 ^ 2) with 4. lia.
Qed.

Lemma NLA_ALIGN_bounds n : n <= NLA_ALIGN n < n + 4.
Proof.
  rewrite NLA_ALIGN_div. pose proof (Z.div_mod (n + 3) 4). pose proof (Z.mod_pos_bound (n + 3) 4). lia.
Qed.

(** The search over a region that ends inside the linear part stays in it and
    gives an attribute of the type asked for that lies in the region. *)
Lemma nla_find_ok skb attrtype : skb_ok skb -> forall fuel pos rem,
  h_data (skb_h skb) <= pos -> pos + rem <= h_tail (skb_h skb) -> rem < Z.of_nat fuel ->
  (0 < fuel)%nat ->
  exists o, nla_find fuel skb pos rem attrtype = Some o /\
    forall p, o = Some p -> pos <= p /\ exists nlen ntype, read_u16 skb p = Some nlen /\
      read_u16 skb (p + 2) = Some ntype /\ Z.land ntype NLA_TYPE_MASK = attrtype /\
      NLA_HDRLEN <= nlen /\ p + nlen <= pos + rem.
Proof.
  intros Hok. induction fuel as [|fuel IH]; intros pos rem Hlo Hhi Hf Hp; [lia|]. cbn [nla_find].
  destruct (rem >=? NLA_HDRLEN) eqn:E; zbool; [|by exists None]. unfold NLA_HDRLEN in *.
  destruct (read_u16_ok skb pos Hok) as (nlen & En & Hn); [lia|lia|]. rewrite En.
  destruct ((nlen >=? 4) && (nlen <=? rem)) eqn:E1; zbool; [|by exists None].
  destruct (read_u16_ok skb (pos + 2) Hok) as (ntype & Et & Ht); [lia|lia|]. rewrite Et.
  destruct (Z.land ntype NLA_TYPE_MASK =? attrtype) eqn:E2; zbool.
  - exists (Some pos). split; [done|]. intros p [= <-]. split; [done|]. exists nlen, ntype.
    repeat (split; [done|]). lia.
  - pose proof (NLA_ALIGN_bounds nlen).
    destruct (IH (pos + NLA_ALIGN nlen) (rem - NLA_ALIGN nlen)) as (o & Eo & Ho); [lia|lia|lia|lia|].
    exists o. split; [done|]. intros p Hop. destruct (Ho p Hop) as (Hpp & nl & nt & Hl1 & Ht1 & Hm1 & Hh1 & He1).
    split; [lia|]. exists nl, nt. repeat (split; [done|]). lia.
Qed.

(** On a packet of at least four bytes the ancillary load of a netlink
    attribute never leaves the packet: it ends the filter with 0 on a packet
    that is not linear and on an offset out of range, and else sets A to 0
    or to the offset, not below the old A, of an attribute of type X whose
    whole length lies in the packet. *)
Theorem nlattr_load_safe skb pc r :
  skb_ok skb -> regs_ok r -> NLA_HDRLEN <= skb_len skb ->
  ancillary skb pc (SKF_AD_OFF + SKF_AD_NLATTR) r = Stop (Returned 0) \/
  exists a, ancillary skb pc (SKF_AD_OFF + SKF_AD_NLATTR) r = Continue pc (set_A a r) /\
    (a = 0 \/ reg_A r <= a /\ exists nlen ntype, read_u16 skb (h_data (skb_h skb) + a) = Some nlen /\
      read_u16 skb (h_data (skb_h skb) + a + 2) = Some ntype /\
      Z.land ntype NLA_TYPE_MASK = s32 (reg_X r) /\ NLA_HDRLEN <= nlen /\ a + nlen <= skb_len skb).
Proof.
  intros Hok Hr Hlen. pose proof (skb_ok_head _ Hok) as Hh. pose proof (ro_A _ Hr) as HA. unfold word in HA.
  pose proof (ho_len _ Hh) as Hmax. fold (skb_len skb) in Hmax. unfold INT_MAX, NLA_HDRLEN in *.
  change (ancillary skb pc (SKF_AD_OFF + SKF_AD_NLATTR) r) with
    (if skb_is_nonlinear skb then Stop (Returned 0)
     else if nlattr_out skb (reg_A r) then Stop (Returned 0)
     else nla_result skb pc r (nla_find (nla_fuel (s32 (skb_len skb - reg_A r))) skb
       (h_data (skb_h skb) + reg_A r) (s32 (skb_len skb - reg_A r)) (s32 (reg_X r)))).
  destruct (skb_is_nonlinear skb) eqn:El; [by left|]. destruct (nlattr_out skb (reg_A r)) eqn:Eo; [by left|].
  right. unfold skb_is_nonlinear, skb_headlen, nlattr_out, NLA_HDRLEN, u64 in *. zbool.
  rewrite wrapu_small in Eo by lia. unfold s32. rewrite wraps_small by lia.
  destruct (nla_find_ok skb (s32 (reg_X r)) Hok (nla_fuel (skb_len skb - reg_A r))
    (h_data (skb_h skb) + reg_A r) (skb_len skb - reg_A r)) as (o & Eq & Ho);
    [lia|lia|unfold nla_fuel; lia|unfold nla_fuel; lia|].
  unfold s32 in Eq. rewrite Eq. destruct o as [p|]; cbn [nla_result]; [|exists 0; split; [done|by left]].
  destruct (Ho p eq_refl) as (Hp & nlen & ntype & H1 & H2 & H3 & H4 & H5). unfold NLA_HDRLEN in H4.
  exists (p - h_data (skb_h skb)). split; [unfold u32; by rewrite wrapu_small by lia|]. right.
  split; [lia|]. exists nlen, ntype. replace (h_data (skb_h skb) + (p - h_data (skb_h skb))) with p by lia.
  repeat (split; [done|]). lia.
Qed.

(** ** Attaching and detaching *)

(** The filter calls a process makes on a socket, with the outcome of the
    allocation and of the copy from user space. *)
Inductive sock_call :=
| AttachFilter (mem_ok readable : bool) (fprog : option (list sock_filter))
| DetachFilter.

Definition do_call (optmem_max : Z) (sk : sock) (c : sock_call) : sock :=
  match c with
  | AttachFilter mem_ok readable fprog => (sk_attach_filter optmem_max mem_ok readable fprog sk).2
  | DetachFilter => (sk_detach_filter sk).2
  end.

(** The length of a program is an [unsigned short] and its fields have their
    widths. *)
Definition call_ok (c : sock_call) : Prop :=
  match c with
  | AttachFilter _ _ (Some prog) => Z.of_nat (length prog) <= USHRT_MAX /\ Forall insn_ok prog
  | _ => True
  end.

(** What the attached filter is charged. *)
Definition attached_size (sk : sock) : Z :=
  match sk_filter sk with Some f => INSN_SIZE * Z.of_nat (length f) + FILTER_HDR | None => 0 end.

Record sock_ok (optmem_max : Z) (sk : sock) : Prop := {
  so_checked f : sk_filter sk = Some f -> sk_chk_filter f = 0 /\ Forall insn_ok f;
  so_charged : sk_omem_alloc sk = attached_size sk;
  so_bound f : sk_filter sk = Some f -> attached_size sk < optmem_max
}.

Lemma sk_filter_len_eq f :
  Z.of_nat (length f) <= USHRT_MAX -> sk_filter_len f = INSN_SIZE * Z.of_nat (length f) + FILTER_HDR.
Proof.
  intros Hl. unfold sk_filter_len, INSN_SIZE, FILTER_HDR, u32, USHRT_MAX in *. rewrite wrapu_small by lia. lia.
Qed.

Lemma checked_len f : sk_chk_filter f = 0 -> Z.of_nat (length f) <= USHRT_MAX.
Proof. intros (Hl & _)%chk_filter_parts. unfold BPF_MAXINSNS, USHRT_MAX in *. lia. Qed.

Lemma uncharge_old optmem_max sk :
  sock_ok optmem_max sk -> forall old, sk_filter sk = Some old -> sk_omem_alloc sk = sk_filter_len old.
Proof.
  intros Hok old Ho. rewrite (so_charged _ _ Hok). unfold attached_size. rewrite Ho.
  symmetry. apply sk_filter_len_eq, checked_len. by apply (so_checked _ _ Hok).
Qed.

(** A failing attach leaves the socket as it was; a successful one replaces the
    filter and its charge. *)
Lemma attach_result optmem_max mem_ok readable fprog sk :
  sock_ok optmem_max sk -> call_ok (AttachFilter mem_ok readable fprog) ->
  let '(err, sk') := sk_attach_filter optmem_max mem_ok readable fprog sk in
  (err <> 0 /\ sk' = sk) \/
  exists prog, err = 0 /\ fprog = Some prog /\ sk_filter sk' = Some prog /\ sk_chk_filter prog = 0 /\
    sk_omem_alloc sk' = attached_size sk' /\ sk_omem_alloc sk' < optmem_max.
Proof.
  intros Hok Hc. destruct sk as [old omem] eqn:Esk. rewrite <- Esk in Hok.
  destruct fprog as [prog|]; [|by left]. destruct Hc as [Hlen Hw]. unfold sk_attach_filter, sock_kmalloc.
  assert (u32 (INSN_SIZE * Z.of_nat (length prog)) + FILTER_HDR = INSN_SIZE * Z.of_nat (length prog) + FILTER_HDR) as ->.
  { unfold u32, INSN_SIZE, USHRT_MAX in *. rewrite wrapu_small by lia. done. }
  rewrite (sk_filter_len_eq prog Hlen).
  set (size := INSN_SIZE * _ + FILTER_HDR). assert (uncharge (Sock old (omem + size)) size = Sock old omem) as Hun.
  { unfold uncharge. cbn. f_equal. lia. }
  destruct (_ && _) eqn:E; [|by left].
  apply andb_true_iff in E as [_ Hmax%Z.ltb_lt]. destruct mem_ok; [|by left]. cbn [negb Bpf.sk_filter Bpf.sk_omem_alloc].
  destruct readable; cbn [negb]; [|left; split; [done|exact Hun]].
  destruct (sk_chk_filter prog =? 0) eqn:E1; cbn [negb]; zbool; [|left; split; [done|exact Hun]].
  pose proof (so_charged _ _ Hok) as Hch. pose proof (uncharge_old _ _ Hok) as Hold. rewrite Esk in Hch, Hold.
  cbn in Hch, Hold, Hmax.
  assert (0 <= omem) as Hpos.
  { rewrite Hch. unfold attached_size, INSN_SIZE, FILTER_HDR. cbn. destruct old; lia. }
  destruct old as [o|]; right; exists prog; cbn; do 4 (split; [done|]); unfold attached_size; cbn.
  - specialize (Hold o eq_refl). fold size. lia.
  - unfold attached_size in Hch. cbn in Hch. fold size. lia.
Qed.

Lemma do_call_ok optmem_max sk c : sock_ok optmem_max sk -> call_ok c -> sock_ok optmem_max (do_call optmem_max sk c).
Proof.
  intros Hok Hc. destruct c as [mem_ok readable fprog|]; cbn [do_call].
  - pose proof (attach_result optmem_max mem_ok readable fprog sk Hok Hc) as Hr.
    destruct (sk_attach_filter _ _ _ _ _) as [err sk']. cbn.
    destruct Hr as [[_ ->]|(prog & _ & -> & Hf & Hchk & Hm & Hb)]; [done|]. destruct Hc as [_ Hw].
    constructor; [|done|]; intros f; rewrite Hf; intros [= <-]; [done|lia].
  - unfold sk_detach_filter. destruct (sk_filter sk) as [f|] eqn:Ef; [|done]. cbn.
    constructor; cbn; [done| |done]. rewrite (uncharge_old _ _ Hok _ Ef). unfold attached_size. cbn. lia.
Qed.

Definition new_sock : sock := {| sk_filter := None; sk_omem_alloc := 0 |}.

Lemma calls_ok optmem_max cs : forall sk,
  sock_ok optmem_max sk -> Forall call_ok cs -> sock_ok optmem_max (foldl (do_call optmem_max) sk cs).
Proof.
  induction cs as [|c cs IH]; intros sk Hok Hcs; [done|]. apply Forall_cons in Hcs as [Hc Hcs].
  cbn. apply IH; [by apply do_call_ok|done].
Qed.

(** C20. Whatever filters a process attaches and detaches, with any failures
    of allocation, copying and checking in between, the filter on the socket
    is a checked one whose runs over well-formed packets are safe, and the
    socket is charged exactly for that filter, below the limit. *)
Theorem sock_filter_safe optmem_max calls shl_big shr_big skb stack :
  Forall call_ok calls -> skb_ok skb -> Forall word stack -> length stack = Z.to_nat BPF_MEMWORDS ->
  let sk := foldl (do_call optmem_max) new_sock calls in
  sk_omem_alloc sk = attached_size sk /\
  forall filter, sk_filter sk = Some filter ->
    sk_omem_alloc sk < optmem_max /\
    exists o, sk_run_filter shl_big shr_big skb stack filter = Some o /\ outcome_ok o.
Proof.
  intros Hc Hskb Hst Hlen sk. assert (sock_ok optmem_max new_sock) as H0 by by constructor.
  pose proof (calls_ok optmem_max calls _ H0 Hc) as Hok. fold sk in Hok. split; [apply Hok|].
  intros filter Hf. destruct (so_checked _ _ Hok _ Hf) as [Hchk Hw].
  split; [rewrite (so_charged _ _ Hok); by apply (so_bound _ _ Hok filter)|].
  unfold sk_run_filter. pose proof Hchk as (Hpos & _)%chk_filter_parts.
  apply run_loop_ok; [done|done|done|lia|lia|]. by constructor.
Qed.

(** ** Trimming *)

Lemma trim_frags_spec frags len : forall offset,
  offset < len ->
  match trim_frags frags offset len with
  | inl kept =>
      concat kept = take (Z.to_nat (len - offset)) (concat frags) /\
      len <= offset + Z.of_nat (length (concat frags)) /\ (Forall (Forall byte) frags -> Forall (Forall byte) kept)
  | inr fend => fend = offset + Z.of_nat (length (concat frags)) /\ fend < len
  end.
Proof.
  induction frags as [|f frags IH]; intros offset Ho; cbn [trim_frags concat]; [cbn; lia|].
  rewrite length_app. destruct (offset + Z.of_nat (length f) <? len) eqn:E; zbool.
  - specialize (IH _ E). destruct (trim_frags frags _ len) as [kept|fend]; [|lia].
    destruct IH as (Hk & Hl & Hb). split; [|split; [lia|]].
    + cbn [concat]. rewrite Hk, take_app_ge by lia. do 2 f_equal. lia.
    + intros [H1 H2]%Forall_cons. constructor; [done|by apply Hb].
  - split; [|split; [lia|]].
    + cbn [concat]. by rewrite app_nil_r, take_app_le by lia.
    + intros [H1 _]%Forall_cons. constructor; [by apply Forall_take|constructor].
Qed.

Lemma trim_done_ok len h :
  head_ok h -> 0 <= len <= h_len h -> head_ok (trim_done len h) /\ h_len (trim_done len h) = len /\
  h_mem (trim_done len h) = h_mem h /\ h_data (trim_done len h) = h_data h /\
  h_tail (trim_done len h) = h_data h + Z.min len (h_tail h - h_data h).
Proof.
  intros [Hd Ht Hb Hl Hm Hv] Hlen. unfold trim_done. unfold INT_MAX in Hl.
  case_if; zbool; cbn; (split; [constructor; cbn; try done; unfold INT_MAX; lia|]); repeat (split; [done|]); lia.
Qed.

Section TrimSpec.
Context (expand_head : skb_head -> Z) (clone_ok : skb_head -> bool).

(** The walk over the fragment list, with the recursive call as an argument. *)
Definition trim_walk (trim : sk_buff -> Z -> Z * sk_buff) (len : Z) : list sk_buff -> Z -> Z * list sk_buff :=
  fix walk (l : list sk_buff) (offset : Z) : Z * list sk_buff :=
    match l with
    | [] => (0, [])
    | frag :: l =>
        let fend := offset + skb_len frag in
        if negb (clone_ok (skb_h frag)) then (- ENOMEM, frag :: l)
        else if fend <? len then
          let '(err, l) := walk l fend in (err, frag :: l)
        else if fend >? len then
          let '(err, frag) := trim frag (len - offset) in
          if negb (err =? 0) then (err, frag :: l) else (0, [frag])
        else (0, [frag])
    end.

Lemma pskb_trim_eq h frags frag_list len :
  pskb_trim expand_head clone_ok (SkBuff h frags frag_list) len =
  if negb (len <? h_len h) then (0, SkBuff h frags frag_list)
  else if h_len h - (h_tail h - h_data h) =? 0 then
    (0, SkBuff (skb_set_tail_pointer len (set_len len h)) frags frag_list)
  else if negb (expand_head h =? 0) then (expand_head h, SkBuff h frags frag_list)
  else if h_tail h - h_data h >=? len then (0, SkBuff (trim_done len h) [] [])
  else
    match trim_frags frags (h_tail h - h_data h) len with
    | inl kept => (0, SkBuff (trim_done len h) kept [])
    | inr offset =>
        let '(err, l) := trim_walk (pskb_trim expand_head clone_ok) len frag_list offset in
        if negb (err =? 0) then (err, SkBuff h frags l) else (0, SkBuff (trim_done len h) frags l)
    end.
Proof. reflexivity. Qed.

(** An error leaves the packet as it was; success keeps its first bytes. *)
Definition trim_good (skb : sk_buff) (len : Z) (r : Z * sk_buff) : Prop :=
  (r.1 <> 0 /\ r.2 = skb) \/ (r.1 = 0 /\ skb_ok r.2 /\ payload r.2 = take (Z.to_nat len) (payload skb)).

Lemma trim_walk_spec trim len l :
  Forall (fun skb => skb_ok skb -> forall n, 0 <= n -> trim_good skb n (trim skb n)) l -> Forall skb_ok l ->
  forall offset, offset < len ->
  let r := trim_walk trim len l offset in
  (r.1 <> 0 /\ r.2 = l) \/
  (r.1 = 0 /\ Forall skb_ok r.2 /\ payloads r.2 = take (Z.to_nat (len - offset)) (payloads l)).
Proof.
  induction 1 as [|frag l Hfrag _ IH]; intros Hok offset Ho; cbn [trim_walk].
  { right. split; [done|]. split; [done|]. symmetry. apply take_nil. }
  apply Forall_cons in Hok as [Hf Hl]. pose proof (payload_length _ Hf) as Hpl.
  change (payloads (frag :: l)) with (payload frag ++ payloads l).
  destruct (negb (clone_ok _)); [by left|]. destruct (offset + skb_len frag <? len) eqn:E; zbool.
  - specialize (IH Hl _ E). destruct (trim_walk trim len l _) as [err l']. cbn in IH |- *.
    destruct IH as [[? ->]|(? & Hl' & Hp)]; [by left|right]. split; [done|]. split; [by constructor|].
    change (payloads (frag :: l')) with (payload frag ++ payloads l').
    rewrite Hp, take_app_ge by lia. do 2 f_equal. lia.
  - assert (forall x, payloads [x] = payload x) as H1 by (intros; apply app_nil_r).
    destruct (offset + skb_len frag >? len) eqn:E1; zbool.
    + specialize (Hfrag Hf (len - offset) ltac:(lia)). destruct (trim frag (len - offset)) as [err frag'].
      destruct Hfrag as [[He Hs]|(He & Hs & Hp)]; cbn in He, Hs; subst.
      * left. by replace (err =? 0) with false by lia.
      * right. cbn [negb Z.eqb fst snd]. split; [done|]. split; [by constructor|]. cbn [fst snd] in Hp. by rewrite H1, Hp, take_app_le by lia.
    + right. cbn [negb Z.eqb fst snd]. split; [done|]. split; [by constructor|]. rewrite H1, take_app_le by lia.
      by rewrite take_ge by lia.
Qed.

(** A packet with the parts left over is well-formed and has the first bytes. *)
Lemma trimmed_ok h frags l len kept l' :
  skb_ok (SkBuff h frags l) -> 0 <= len <= h_len h ->
  Forall (Forall byte) kept -> Forall skb_ok l' ->
  concat kept ++ payloads l' = take (Z.to_nat (len - (h_tail h - h_data h))) (concat frags ++ payloads l) ->
  skb_ok (SkBuff (trim_done len h) kept l') /\
  payload (SkBuff (trim_done len h) kept l') = take (Z.to_nat len) (payload (SkBuff h frags l)).
Proof.
  intros Hok Hlen Hk Hl' He. inversion Hok as [? ? ? Hh Hb Hl Hlens]; subst.
  destruct (trim_done_ok len h Hh Hlen) as (Hh' & E1 & E2 & E3 & E4).
  pose proof (ho_data _ Hh) as Hd. pose proof (ho_tail _ Hh) as Ht.
  pose proof (length_slice (h_mem h) (h_data h) (h_tail h - h_data h) ltac:(lia) ltac:(lia) ltac:(lia)) as Hs.
  split.
  - constructor; [done|done|done|]. rewrite E1, E3, E4. apply (f_equal length) in He.
    rewrite length_take, !length_app in He. lia.
  - rewrite !payload_eq, E2, E3, E4, He.
    rewrite (take_app (slice (h_mem h) (h_data h) (h_tail h - h_data h))). f_equal.
    + replace (h_data h + _ - _) with (Z.min len (h_tail h - h_data h)) by lia. unfold slice.
      rewrite take_take. f_equal. lia.
    + f_equal. lia.
Qed.

Lemma pskb_trim_spec skb : skb_ok skb -> forall len, 0 <= len ->
  trim_good skb len (pskb_trim expand_head clone_ok skb len).
Proof.
  induction skb as [h frags l IH] using sk_buff_nested. intros Hok len Hlen. rewrite pskb_trim_eq.
  pose proof (payload_length _ Hok) as Hpl. change (skb_len _) with (h_len h) in Hpl.
  inversion Hok as [? ? ? Hh Hb Hl Hlens]; subst. pose proof (ho_data _ Hh) as Hd.
  destruct (len <? h_len h) eqn:E; zbool; [|right; split; [done|]; split; [done|]; cbn [snd]; by rewrite take_ge by lia].
  destruct (_ =? 0) eqn:E1; zbool.
  { right. cbn [fst snd]. split; [done|].
    assert (skb_set_tail_pointer len (set_len len h) = trim_done len h) as ->
      by (unfold trim_done; by replace (len >? h_tail h - h_data h) with false by lia).
    apply trimmed_ok; [done|lia|done|done|]. rewrite !take_ge; [done|rewrite length_app; lia..]. }
  destruct (expand_head h =? 0) eqn:E2; zbool; [|by left].
  destruct (h_tail h - h_data h >=? len) eqn:E3; zbool.
  { right. split; [done|]. apply trimmed_ok; [done|lia|done|done|].
    by replace (Z.to_nat _) with 0%nat by lia. }
  pose proof (trim_frags_spec frags len (h_tail h - h_data h) E3) as Hf.
  destruct (trim_frags _ _ _) as [kept|fend].
  - destruct Hf as (Hk & Hle & Hkb). right. split; [done|]. apply trimmed_ok; [done|lia|by apply Hkb|done|].
    rewrite app_nil_r, Hk, take_app_le by lia. done.
  - destruct Hf as [Hfe Hlt]. pose proof (trim_walk_spec _ len l IH Hl fend Hlt) as Hw.
    destruct (trim_walk _ len l fend) as [err l']. cbn [fst snd] in Hw. destruct Hw as [[He ->]|(-> & Hl' & Hp)].
    + left. by replace (err =? 0) with false by lia.
    + right. split; [done|]. apply trimmed_ok; [done|lia|done|done|].
      rewrite Hp, take_app_ge by lia. do 2 f_equal. lia.
Qed.
End TrimSpec.

(** A packet that arrives at a socket whose filter returns [v]: with 0
    it is tossed with -EPERM and unchanged; else it is either cut to its
    first [v] bytes, all of it when it is shorter, and stays well-formed, or
    refused with the error of a failed allocation and unchanged, fragment
    lists and nested fragments included. *)
Theorem sk_filter_cuts expand_head clone_ok shl_big shr_big stack sk filter skb v :
  skb_ok skb -> sk_filter sk = Some filter -> word v ->
  sk_run_filter shl_big shr_big skb stack filter = Some (Returned v) ->
  exists err skb',
    sk_filter_packet expand_head clone_ok shl_big shr_big stack 0 sk skb = Some (err, skb') /\
    (v = 0 /\ err = - EPERM /\ skb' = skb \/
     v <> 0 /\ err <> 0 /\ skb' = skb \/
     v <> 0 /\ err = 0 /\ skb_ok skb' /\ payload skb' = take (Z.to_nat v) (payload skb)).
Proof.
  intros Hok Hf Hv Hrun. unfold sk_filter_packet. cbn [Z.eqb negb]. rewrite Hf, Hrun. unfold word in Hv.
  destruct (v =? 0) eqn:E; zbool; cbn [negb].
  - exists (- EPERM), skb. split; [done|]. by left.
  - pose proof (pskb_trim_spec expand_head clone_ok skb Hok v ltac:(lia)) as Ht.
    destruct (pskb_trim _ _ skb v) as [err skb']. exists err, skb'. split; [done|]. right.
    destruct Ht as [[He Hs]|(He & Hs & Hp)]; cbn in He, Hs; [left|right]; done.
Qed.

(** ** Where the code does not keep to the packet *)

(** On a linear packet shorter than four bytes the bound
    [skb->len - sizeof(struct nlattr)] of the netlink attribute load wraps
    around, so that an A near [2 ^ 32] passes the check and the search reads
    at that distance behind the packet. *)
Theorem nlattr_short_packet_fault skb pc r :
  skb_is_nonlinear skb = false -> 0 <= skb_len skb < NLA_HDRLEN -> 0 <= h_data (skb_h skb) ->
  Z.of_nat (length (h_mem (skb_h skb))) <= reg_A r ->
  2 ^ 31 + skb_len skb < reg_A r <= 2 ^ 32 - NLA_HDRLEN + skb_len skb ->
  ancillary skb pc (SKF_AD_OFF + SKF_AD_NLATTR) r = Stop (Fault BadNlattr).
Proof.
  intros Hlin Hlen Hd Hmem HA.
  change (ancillary skb pc (SKF_AD_OFF + SKF_AD_NLATTR) r) with
    (if skb_is_nonlinear skb then Stop (Returned 0)
     else if nlattr_out skb (reg_A r) then Stop (Returned 0)
     else nla_result skb pc r (nla_find (nla_fuel (s32 (skb_len skb - reg_A r))) skb
       (h_data (skb_h skb) + reg_A r) (s32 (skb_len skb - reg_A r)) (s32 (reg_X r)))).
  rewrite Hlin. unfold NLA_HDRLEN in *.
  assert (nlattr_out skb (reg_A r) = false) as ->.
  { unfold nlattr_out, NLA_HDRLEN, u64. rewrite <- (wrapu_shift 64 _ 1), wrapu_small by lia. lia. }
  assert (s32 (skb_len skb - reg_A r) = skb_len skb - reg_A r + 2 ^ 32) as ->.
  { unfold s32. rewrite <- (wraps_shift 32 _ 1), wraps_small by lia. lia. }
  unfold nla_fuel. cbn [nla_find]. unfold NLA_HDRLEN. replace (_ >=? 4) with true by lia.
  unfold read_u16, read_mem.
  replace (h_data (skb_h skb) + reg_A r + 2 <=? Z.of_nat (length (h_mem (skb_h skb)))) with false by lia.
  by rewrite andb_false_r.
Qed.

(** ld M[k]; ret a *)
Definition mem_prog (k : Z) : list sock_filter :=
  [SockFilter (code_of LdMem) 0 0 k; SockFilter (code_of RetA) 0 0 0].

(** The checker accepts loads from memory words no store has written:
    for each of the sixteen words there is an accepted filter that returns
    what the kernel stack held at its place. *)
Theorem mem_uninitialised shl_big shr_big skb stack k w :
  0 <= k < BPF_MEMWORDS -> stack !! Z.to_nat k = Some w ->
  sk_chk_filter (mem_prog k) = 0 /\
  sk_run_filter shl_big shr_big skb stack (mem_prog k) = Some (Returned w).
Proof.
  intros Hk Hw. split.
  - unfold sk_chk_filter, mem_prog. cbn [length chk_loop last].
    unfold chk_insn. cbn [code insn_k]. change (decode (code_of LdMem)) with (Some LdMem).
    change (decode (code_of RetA)) with (Some RetA). unfold BPF_MEMWORDS in *.
    by replace (k >=? 16) with false by lia.
  - set (r := {| reg_A := 0; reg_X := 0; reg_mem := stack |}).
    assert (exec shl_big shr_big skb 0 (SockFilter (code_of LdMem) 0 0 k) r = Continue 0 (set_A w r)) as He.
    { unfold exec. cbn [code insn_k]. change (decode (code_of LdMem)) with (Some LdMem).
      unfold mem_get. cbn [reg_mem r]. by rewrite Hw. }
    transitivity
      (match exec shl_big shr_big skb 0 (SockFilter (code_of LdMem) 0 0 k) r with
       | Stop o => Some o
       | Continue pc r => run_loop shl_big shr_big skb 2 (mem_prog k) (pc + 1) r
       end); [reflexivity|]. by rewrite He.
Qed.

(** ** Concrete packets and filters *)
Module BpfDemo.
(** 12 bytes of linear data at offset 2 of 18, the last 6 in a page. *)
Definition h0 : skb_head :=
  {| h_mem := [0; 0; 8; 0; 3; 0; 1; 2; 3; 4; 0; 0; 0; 0; 0; 0; 0; 0]; h_data := 2; h_tail := 14; h_len := 18;
     network_header := 2; mac_header := 0; protocol := 8; pkt_type := 0; dev := Some (3, 1); mark := 7;
     queue_mapping := 0 |}.
Definition split_skb : sk_buff := SkBuff h0 [[17; 34; 51]; [68; 85; 102]] [].

Definition lin_skb : sk_buff :=
  SkBuff {| h_mem := h_mem h0; h_data := 2; h_tail := 14; h_len := 12; network_header := 2; mac_header := 0;
     protocol := 8; pkt_type := 0; dev := None; mark := 7; queue_mapping := 0 |} [] [].

(** Two bytes only. *)
Definition short_skb : sk_buff :=
  SkBuff {| h_mem := [1; 2; 0; 0; 0; 0; 0; 0]; h_data := 0; h_tail := 2; h_len := 2; network_header := 0;
     mac_header := 0; protocol := 8; pkt_type := 0; dev := None; mark := 0; queue_mapping := 0 |} [] [].

Definition stack0 : list Z := replicate 16 0.

(** ldh [11]; jeq #0x11, 0, 1; ret #96; st 3; ret a *)
Definition prog : list sock_filter :=
  [ SockFilter (code_of (LdAbs SzH)) 0 0 11; SockFilter (code_of (Jmp JEQ OpK)) 0 1 17;
    SockFilter (code_of RetK) 0 0 96; SockFilter (code_of St) 0 0 3; SockFilter (code_of RetA) 0 0 0 ].

Lemma bytes_dec l : forallb (fun x => (0 <=? x) && (x <? 256)) l = true -> Forall byte l.
Proof.
  intros H. apply Forall_forall. intros x Hx. rewrite forallb_forall in H.
  specialize (H x). rewrite <- list_elem_of_In in H. specialize (H Hx). unfold byte. zbool. lia.
Qed.

Lemma split_ok : skb_ok split_skb.
Proof.
  constructor; [|repeat constructor; unfold byte; lia|constructor|done].
  constructor; cbn; [lia|lia|by apply bytes_dec|unfold INT_MAX; lia|lia|by intros ? [= <-]].
Qed.

Lemma lin_ok : skb_ok lin_skb.
Proof.
  constructor; [|constructor|constructor|done].
  constructor; cbn; [lia|lia|by apply bytes_dec|unfold INT_MAX; lia|lia|done].
Qed.

Lemma short_ok : skb_ok short_skb.
Proof.
  constructor; [|constructor|constructor|done].
  constructor; cbn; [lia|lia|by apply bytes_dec|unfold INT_MAX; lia|lia|done].
Qed.

Lemma prog_ok : Forall insn_ok prog.
Proof. repeat constructor; unfold word; cbn; lia. Qed.

Lemma stack0_ok : Forall word stack0.
Proof. apply Forall_replicate. unfold word. lia. Qed.

Lemma sk_chk_filter_exact_witness : valid_filter prog.
Proof. apply (sk_chk_filter_exact prog prog_ok). vm_compute. reflexivity. Defined.

Lemma sk_run_filter_safe_witness :
  (exists o, sk_run_filter (fun _ _ => 0) (fun _ _ => 0) split_skb stack0 prog = Some o /\ outcome_ok o) /\
  sk_run_filter (fun _ _ => 0) (fun _ _ => 0) split_skb stack0 prog = Some (Returned 96).
Proof.
  split; [|vm_compute; reflexivity].
  apply (sk_run_filter_safe (fun _ _ => 0) (fun _ _ => 0) split_skb stack0 prog split_ok prog_ok);
    [vm_compute; reflexivity|exact stack0_ok|vm_compute; reflexivity].
Defined.

Definition r0 : regs := {| reg_A := 0; reg_X := 3; reg_mem := stack0 |}.

Lemma r0_ok : regs_ok r0.
Proof. constructor; cbn; [unfold word; lia|unfold word; lia|exact stack0_ok|done]. Qed.

(** The load crosses from the linear part into the first page. *)
Lemma bpf_load_payload_witness :
  load split_skb 0 11 SzW r0 = Continue 0 (set_A (get_be [0; 17; 34; 51]) r0).
Proof. rewrite (bpf_load_payload split_skb 0 11 SzW r0 split_ok) by lia. reflexivity. Defined.

(** The attribute of type 3 and length 8 is at the start. *)
Lemma nlattr_load_safe_witness :
  ancillary lin_skb 0 (SKF_AD_OFF + SKF_AD_NLATTR) r0 <> Stop (Fault BadNlattr).
Proof.
  destruct (nlattr_load_safe lin_skb 0 r0 lin_ok r0_ok) as [H|(a & H & _)];
    [vm_compute; discriminate|rewrite H; discriminate|rewrite H; discriminate].
Defined.

Definition calls0 : list sock_call :=
  [AttachFilter true true (Some prog); AttachFilter true true (Some []); AttachFilter false true (Some prog);
   DetachFilter; AttachFilter true true (Some prog)].

Lemma calls0_ok : Forall call_ok calls0.
Proof. repeat constructor; unfold USHRT_MAX, word; cbn; lia. Qed.

Lemma sock_filter_safe_witness :
  sk_filter (foldl (do_call 20480) new_sock calls0) = Some prog /\
  sk_omem_alloc (foldl (do_call 20480) new_sock calls0) = 64 /\
  exists o, sk_run_filter (fun _ _ => 0) (fun _ _ => 0) split_skb stack0 prog = Some o /\ outcome_ok o.
Proof.
  destruct (sock_filter_safe 20480 calls0 (fun _ _ => 0) (fun _ _ => 0) split_skb stack0 calls0_ok split_ok
    stack0_ok eq_refl) as [_ H].
  split; [vm_compute; reflexivity|]. split; [vm_compute; reflexivity|].
  apply H. vm_compute. reflexivity.
Defined.

(** ret #14 cuts the packet in the second byte of its first page. *)
Definition cut_prog : list sock_filter := [SockFilter (code_of RetK) 0 0 14].

Lemma sk_filter_cuts_witness :
  exists err skb',
    sk_filter_packet (fun _ => 0) (fun _ => true) (fun _ _ => 0) (fun _ _ => 0) stack0 0
      (Sock (Some cut_prog) 32) split_skb = Some (err, skb') /\
    err = 0 /\ payload skb' = [8; 0; 3; 0; 1; 2; 3; 4; 0; 0; 0; 0; 17; 34].
Proof.
  destruct (sk_filter_cuts (fun _ => 0) (fun _ => true) (fun _ _ => 0) (fun _ _ => 0) stack0
    (Sock (Some cut_prog) 32) cut_prog split_skb 14 split_ok eq_refl ltac:(unfold word; lia) eq_refl)
    as (err & skb' & Hr & [(Hv & _)|[(_ & He & _)|(_ & He & _ & Hp)]]).
  - discriminate Hv.
  - exfalso. vm_compute in Hr. injection Hr as Hr _. by destruct He.
  - exists err, skb'. split; [exact Hr|]. split; [exact He|]. rewrite Hp. vm_compute. reflexivity.
Defined.

(** ld #-2; ld #nlattr; ret a: on a packet of two bytes the bound
    [skb->len - sizeof(struct nlattr)] wraps around, so the search starts
    4 GB behind the packet. *)
Definition nlattr_prog : list sock_filter :=
  [ SockFilter (code_of LdImm) 0 0 4294967294;
    SockFilter (code_of (LdAbs SzW)) 0 0 (u32 (SKF_AD_OFF + SKF_AD_NLATTR)); SockFilter (code_of RetA) 0 0 0 ].

Lemma nlattr_short_packet_fault_witness :
  ancillary short_skb 1 (SKF_AD_OFF + SKF_AD_NLATTR) (set_A 4294967294 r0) = Stop (Fault BadNlattr) /\
  sk_chk_filter nlattr_prog = 0 /\
  sk_run_filter (fun _ _ => 0) (fun _ _ => 0) short_skb stack0 nlattr_prog = Some (Fault BadNlattr).
Proof.
  split; [|split; vm_compute; reflexivity].
  apply (nlattr_short_packet_fault short_skb 1 (set_A 4294967294 r0)); vm_compute; intuition discriminate.
Defined.

(** A linear packet of four bytes holding one nested attribute that claims to
    be 65532 bytes long. *)
Definition nest_skb : sk_buff :=
  SkBuff {| h_mem := [252; 255; 0; 0; 0; 0; 0; 0]; h_data := 0; h_tail := 4; h_len := 4; network_header := 0;
     mac_header := 0; protocol := 8; pkt_type := 0; dev := None; mark := 0; queue_mapping := 0 |} [] [].

Definition nest_prog : list sock_filter :=
  [ SockFilter (code_of (LdAbs SzW)) 0 0 (u32 (SKF_AD_OFF + SKF_AD_NLATTR_NEST));
    SockFilter (code_of RetA) 0 0 0 ].

(** The attribute's length is compared with [A - skb->len], which is the wrong
    way round: the search goes on outside the packet, in the bytes behind it,
    where it takes the zero length for the end. *)
Definition nest_mem_skb : sk_buff :=
  SkBuff {| h_mem := [252; 255; 0; 0; 4; 0; 0; 0]; h_data := 0; h_tail := 4; h_len := 4; network_header := 0;
     mac_header := 0; protocol := 8; pkt_type := 0; dev := None; mark := 0; queue_mapping := 0 |} [] [].

Lemma nlattr_nest_leaves_packet :
  sk_chk_filter nest_prog = 0 /\
  sk_run_filter (fun _ _ => 0) (fun _ _ => 0) nest_skb stack0 nest_prog = Some (Returned 0) /\
  sk_run_filter (fun _ _ => 0) (fun _ _ => 0) nest_mem_skb stack0 nest_prog = Some (Returned 4).
Proof. repeat split; vm_compute; reflexivity. Qed.

Lemma mem_uninitialised_witness :
  sk_run_filter (fun _ _ => 0) (fun _ _ => 0) short_skb (<[5%nat := 3735928559]> stack0) (mem_prog 5) =
    Some (Returned 3735928559).
Proof.
  apply (mem_uninitialised (fun _ _ => 0) (fun _ _ => 0) short_skb (<[5%nat := 3735928559]> stack0) 5 3735928559);
    [vm_compute; intuition discriminate|vm_compute; reflexivity].
Defined.
End BpfDemo.
