(* ===== verification/IdrIpc.v ===== *)
(** * IdrIpc: the identifier sets of ipc/ on the tree of lib/idr.c

    The operations of lib/idr.c as an instance of the interface of IpcUtil.v:
    what the identifier sets, the semaphores and the message queues rely on
    holds of the radix tree. *)

From S2P Require Import Prelude Idr IdrInv IdrSpec IdrWalk IpcUtil SemOp SemCtl SemInv Msg MsgInv.

(** A call that would crash has no result; on a well-formed IDR there is none. *)
#[export] Instance tree_ops : IdrOps idr := {
  idr_inv := idr_wf;
  idr_init := Idr.idr_init;
  idr_pre_get m i :=
    default (false, i) (Idr.idr_pre_get pre_get_fuel (if m : bool then Z.to_nat IDR_FREE_MAX else 0%nat) i);
  idr_find i id := default None (Idr.idr_find i id);
  idr_get_new i p := default (- ENOSPC, 0, i) (Idr.idr_get_new p i);
  idr_remove i id := default i (snd <$> Idr.idr_remove id i);
  idr_destroy i := default i (Idr.idr_destroy i)
}.

Lemma find_total i id : idr_wf i -> 0 <= id <= MAX_ID -> Idr.idr_find i id = Some (idr_find i id).
Proof.
  intros (N & fl & Hok) Hid. cbn. unfold MAX_ID, INT_MAX in Hid. by rewrite (idr_find_spec every i N fl id Hok) by lia.
Qed.

Lemma tree_room i : idr_wf i -> idr_room i -> has_room i 0.
Proof.
  intros Hwf (j & Hj & Hf). exists j. split; [done|]. rewrite find_total, Hf; [done|done|].
  unfold MAX_ID, INT_MAX, IDR_CAPACITY in *. lia.
Qed.

Lemma find_eq i i' id j o :
  idr_wf i -> idr_wf i' -> ptrs_with i id o i' -> 0 <= j <= MAX_ID -> idr_find i' j = if j =? id then o else idr_find i j.
Proof.
  intros Hwf Hwf' Hp Hj. specialize (Hp j Hj). rewrite !find_total in Hp by done.
  destruct (j =? id); by injection Hp.
Qed.

Lemma find_eq_same i i' j : idr_wf i -> idr_wf i' -> same_ptrs i i' -> 0 <= j <= MAX_ID -> idr_find i' j = idr_find i j.
Proof. intros Hwf Hwf' Hp Hj. specialize (Hp j Hj). rewrite !find_total in Hp by done. by injection Hp. Qed.

Lemma tree_get_new i p :
  idr_wf i -> idr_room i -> exists err id i', idr_get_new i p = (err, id, i') /\ idr_wf i' /\ first_fit i p 0 err id i'.
Proof.
  intros Hwf Hroom. cbn [idr_get_new tree_ops]. rewrite get_new_is_above.
  destruct (get_new_above_first p 0 i Hwf ltac:(lia) (tree_room i Hwf Hroom)) as (err & id & i' & -> & H1 & H2).
  by exists err, id, i'.
Qed.

Lemma tree_pre_get m i : idr_wf i -> exists r i', idr_pre_get m i = (r, i') /\ idr_wf i' /\ same_ptrs i i' /\
  (r = true -> IDR_FREE_MAX <= id_free_cnt i').
Proof.
  intros Hwf. cbn [idr_pre_get tree_ops]. destruct (pre_get_ok (if m then Z.to_nat IDR_FREE_MAX else 0%nat) i Hwf) as (r & i' & -> & H1 & H2 & H3 & _).
  by exists r, i'.
Qed.

Lemma tree_remove i id :
  idr_wf i -> 0 <= id < IDR_CAPACITY -> is_Some (idr_find i id) -> idr_wf (idr_remove i id) /\ ptrs_with i id None (idr_remove i id).
Proof.
  intros Hwf Hid [v Hv]. assert (0 <= id <= MAX_ID) as Hmax by (unfold MAX_ID, INT_MAX, IDR_CAPACITY in *; lia).
  pose proof (find_total i id Hwf Hmax) as Hf. rewrite Hv in Hf.
  pose proof (find_in_tree i id v Hwf Hmax Hf) as Hlt.
  destruct (remove_exact id i Hwf ltac:(lia)) as (w & i' & E & Hwf' & _ & Hm). rewrite Hf in Hm. cbn [idr_remove tree_ops]. rewrite E. by destruct Hm.
Qed.

Lemma tree_destroy i : idr_wf i -> idr_wf (idr_destroy i) /\ same_ptrs i (idr_destroy i).
Proof.
  intros (N & fl & Hok). cbn [idr_destroy tree_ops]. destruct (destroy_spec i N fl Hok) as (i' & -> & Hok' & Hs). split; [by exists N, []|done].
Qed.

#[export] Instance tree_laws : IdrLaws idr.
Proof.
  constructor.
  - apply init_wf.
  - done.
  - intros m i Hwf. by destruct (tree_pre_get m i Hwf) as (r & i' & -> & ? & _).
  - intros m i id Hwf Hid. destruct (tree_pre_get m i Hwf) as (r & i' & -> & ? & ? & _). by apply find_eq_same.
  - intros i p Hwf Hroom. by destruct (tree_get_new i p Hwf Hroom) as (err & id & i' & -> & ? & _).
  - intros i p err id i' Hwf Hroom E. destruct (tree_get_new i p Hwf Hroom) as (err1 & id1 & i1 & E1 & Hwf1 & Hff).
    rewrite E in E1. injection E1 as <- <- <-. destruct Hff as [(-> & Hid & Hn & Htaken & Hp)|(-> & _ & Hs)].
    + left. assert (0 <= id <= MAX_ID) as Hmax by (unfold MAX_ID, INT_MAX; lia). split; [done|]. split; [done|].
      rewrite find_total in Hn by done. split; [by apply (inj Some)|]. split.
      * intros j Hj. destruct (Htaken j Hj) as [q Hq]. exists q.
        apply (inj Some). by rewrite <- find_total by (done || lia).
      * intros j Hj. by apply (find_eq i i').
    + right. split; [done|]. intros j Hj. by apply find_eq_same.
  - intros m i i' p Hwf E Hroom. destruct (tree_pre_get m i Hwf) as (r & i1 & E1 & Hwf1 & _ & Hcnt).
    rewrite E in E1. injection E1 as <- <-. specialize (Hcnt eq_refl). change IDR_FREE_MAX with 12 in Hcnt.
    destruct (tree_get_new i' p Hwf1 Hroom) as (err & id & i2 & -> & _ & Hff). cbn.
    destruct Hff as [(-> & _)|(_ & ? & _)]; [done|lia].
  - intros i id Hwf Hid Hs. by apply tree_remove.
  - intros i id j Hwf Hid Hs Hj. destruct (tree_remove i id Hwf Hid Hs) as [Hwf' Hp]. by apply (find_eq i).
  - intros i Hwf. by apply tree_destroy.
  - intros i id Hwf Hid. destruct (tree_destroy i Hwf). by apply find_eq_same.
Qed.

(** ** Identifier sets on the tree *)

Lemma ids_on_tree {Obj} `{IpcObject Obj} (ids : ipc_ids idr) (objs : gmap ptr Obj) :
  ids_wf ids objs ->
  idr_wf (ipcs_idr ids) /\
  (forall j, 0 <= j <= MAX_ID -> exists o, Idr.idr_find (ipcs_idr ids) j = Some o /\
    forall p, o = Some p <-> exists ob, objs !! p = Some ob /\ deleted (ipc_perm ob) = false /\
      ipcid_to_idx (perm_id (ipc_perm ob)) = j).
Proof.
  intros W. pose proof (ids_inv _ _ W) as Hwf. split; [done|]. intros j Hj. exists (idr_find (ipcs_idr ids) j).
  split; [by apply find_total|]. intros p. split.
  - intros Hf. destruct (decide (j < IPCMNI)) as [Hlt|Hge]; [|rewrite (ids_bound _ _ W) in Hf by lia; done].
    destruct (ids_slot _ _ W j p ltac:(lia) Hf) as (ob & Ho & Hd & Hid & Hseq). exists ob. split; [done|]. split; [done|].
    pose proof (ids_seq_range _ _ W). rewrite Hid. apply buildid_split; lia.
  - intros (ob & Ho & Hd & <-). by apply (ids_live _ _ W p ob).
Qed.

(** C19. The semaphore sets on the tree of lib/idr.c: in every namespace the
    system calls, clone and exit can reach, the tree is well-formed, lookup of
    any id returns without a crash, and the pointer it gives for a slot is that
    of the live set whose id has this slot, and none if there is no such
    set. *)
Theorem sem_sets_on_tree lsm (ns : sem_ns idr) :
  lsm_ok lsm -> sem_reach lsm ns ->
  idr_wf (ipcs_idr (sem_ids ns)) /\
  (forall j, 0 <= j <= MAX_ID -> exists o, Idr.idr_find (ipcs_idr (sem_ids ns)) j = Some o /\
    forall p, o = Some p <-> exists a, sem_sets ns !! p = Some a /\ deleted (ipc_perm a) = false /\
      ipcid_to_idx (perm_id (ipc_perm a)) = j).
Proof. intros HL Hr. apply ids_on_tree. apply (reach_wf lsm ns HL Hr). Qed.

Module TreeDemo.
Import SemInvDemo.
Definition alloc_set (ns : sem_ns idr) : option ptr := Some (fresh (dom (sem_sets ns))).
Definition new_set (key : Z) (ns : sem_ns idr) : sem_ns idr :=
  (default (0, ns) (semget lsm0 t1 alloc_set [true] ns key 1 (Z.lor IPC_CREAT 384))).2.
Definition ns_a : sem_ns idr := new_set 7 sem_init_ns.

Lemma alloc_set_fresh : alloc_ok alloc_set.
Proof. intros ns p [= <-]. apply not_elem_of_dom, is_fresh. Qed.

Lemma tree_reach_a : sem_reach lsm0 ns_a.
Proof.
  refine (sr_semget lsm0 t1 alloc_set true sem_init_ns 7 1 (Z.lor IPC_CREAT 384) 0 ns_a (sr_init lsm0) alloc_set_fresh _).
  vm_compute. reflexivity.
Qed.

Lemma sem_sets_on_tree_witness :
  idr_wf (ipcs_idr (sem_ids ns_a)) /\ Idr.idr_find (ipcs_idr (sem_ids ns_a)) 0 = Some (Some 0%nat).
Proof.
  destruct (sem_sets_on_tree lsm0 ns_a lsm0_ok tree_reach_a) as [H1 H2]. split; [exact H1|].
  destruct (H2 0 ltac:(unfold MAX_ID, INT_MAX; lia)) as (o & -> & Ho). f_equal. apply Ho.
  eexists. split; [vm_compute; reflexivity|]. split; vm_compute; reflexivity.
Defined.
End TreeDemo.
