(* ===== verification/Timer.v ===== *)
(** * Timer: the timer wheel

    Models kernel/timer.c and include/linux/timer.h on a 64-bit machine with
    CONFIG_SMP and CONFIG_NO_HZ: per-CPU wheels of five vectors of lists,
    adding, changing and deleting timers, the cascade, and the loop that runs
    the expired ones. [None] is a BUG_ON, a call of a NULL function, or a loop
    that did not end within its fuel. *)

From S2P Require Import Prelude.

Definition TVN_BITS : Z := 6.
Definition TVR_BITS : Z := 8.
Definition TVN_SIZE : Z := Z.shiftl 1 TVN_BITS.
Definition TVR_SIZE : Z := Z.shiftl 1 TVR_BITS.
Definition TVN_MASK : Z := TVN_SIZE - 1.
Definition TVR_MASK : Z := TVR_SIZE - 1.
Definition NEXT_TIMER_MAX_DELTA : Z := Z.shiftl 1 30 - 1.

(** ** Data *)

(** [struct timer_list]; [pending] is [entry.next != NULL], [base] the CPU whose
    wheel the timer belongs to, and [deferrable] the low bit of the pointer. *)
Record timer_list := TimerList {
  pending : bool; expires : Z; base : Z; deferrable : bool; function : option Z; data : Z; slack : Z
}.

(** [struct tvec_base]: the lists of tv1 to tv5 by vector and index, a missing
    one being empty, and the list [__run_timers] works on. *)
Record tvec_base := TvecBase {
  vec : gmap (Z * Z) (list ptr); timer_jiffies : Z; next_timer : Z; running_timer : option ptr; work_list : list ptr
}.

(** A call of a timer function: the timer as it was taken off its list, and the
    tick that is being processed. *)
Record call := Call { call_timer : ptr; call_fn : Z; call_data : Z; call_expires : Z; call_tick : Z }.

(** The timers, the wheels by CPU, and the calls made so far. *)
Record timers := Timers { tl : gmap ptr timer_list; bases : gmap Z tvec_base; calls : list call }.

Definition set_pending (v : bool) (l : timer_list) : timer_list :=
  {| pending := v; expires := expires l; base := base l; deferrable := deferrable l;
     function := function l; data := data l; slack := slack l |}.
Definition set_expires (v : Z) (l : timer_list) : timer_list :=
  {| pending := pending l; expires := v; base := base l; deferrable := deferrable l;
     function := function l; data := data l; slack := slack l |}.
Definition timer_set_base (v : Z) (l : timer_list) : timer_list :=
  {| pending := pending l; expires := expires l; base := v; deferrable := deferrable l;
     function := function l; data := data l; slack := slack l |}.
Definition set_slack (v : Z) (l : timer_list) : timer_list :=
  {| pending := pending l; expires := expires l; base := base l; deferrable := deferrable l;
     function := function l; data := data l; slack := v |}.

Definition set_vec (v : gmap (Z * Z) (list ptr)) (b : tvec_base) : tvec_base :=
  {| vec := v; timer_jiffies := timer_jiffies b; next_timer := next_timer b;
     running_timer := running_timer b; work_list := work_list b |}.
Definition set_next_timer (v : Z) (b : tvec_base) : tvec_base :=
  {| vec := vec b; timer_jiffies := timer_jiffies b; next_timer := v;
     running_timer := running_timer b; work_list := work_list b |}.
Definition set_running_timer (v : option ptr) (b : tvec_base) : tvec_base :=
  {| vec := vec b; timer_jiffies := timer_jiffies b; next_timer := next_timer b;
     running_timer := v; work_list := work_list b |}.
Definition set_timer_jiffies (v : Z) (b : tvec_base) : tvec_base :=
  {| vec := vec b; timer_jiffies := v; next_timer := next_timer b;
     running_timer := running_timer b; work_list := work_list b |}.
Definition set_work (v : list ptr) (b : tvec_base) : tvec_base :=
  {| vec := vec b; timer_jiffies := timer_jiffies b; next_timer := next_timer b;
     running_timer := running_timer b; work_list := v |}.

Definition set_timer (t : ptr) (l : timer_list) (st : timers) : timers :=
  {| tl := <[t := l]> (tl st); bases := bases st; calls := calls st |}.
Definition set_base (c : Z) (b : tvec_base) (st : timers) : timers :=
  {| tl := tl st; bases := <[c := b]> (bases st); calls := calls st |}.
Definition log_call (e : call) (st : timers) : timers :=
  {| tl := tl st; bases := bases st; calls := calls st ++ [e] |}.

(** The list [k] of a wheel. *)
Definition slot (b : tvec_base) (k : Z * Z) : list ptr := default [] (vec b !! k).

(** ** Times *)

Definition time_after (a b : Z) : bool := s64 (b - a) <? 0.
Definition time_before (a b : Z) : bool := time_after b a.
Definition time_after_eq (a b : Z) : bool := s64 (a - b) >=? 0.
Definition time_before_eq (a b : Z) : bool := time_after_eq b a.

(** ** Lists *)

(** The list a timer goes to. *)
Definition vec_of (b : tvec_base) (expires : Z) : Z * Z :=
  let idx := u64 (expires - timer_jiffies b) in
  if idx <? TVR_SIZE then (1, Z.land expires TVR_MASK)
  else if idx <? Z.shiftl 1 (TVR_BITS + TVN_BITS) then (2, Z.land (Z.shiftr expires TVR_BITS) TVN_MASK)
  else if idx <? Z.shiftl 1 (TVR_BITS + 2 * TVN_BITS) then
    (3, Z.land (Z.shiftr expires (TVR_BITS + TVN_BITS)) TVN_MASK)
  else if idx <? Z.shiftl 1 (TVR_BITS + 3 * TVN_BITS) then
    (4, Z.land (Z.shiftr expires (TVR_BITS + 2 * TVN_BITS)) TVN_MASK)
  else if s64 idx <? 0 then (1, Z.land (timer_jiffies b) TVR_MASK)
  else
    let expires := if idx >? 0xffffffff then u64 (0xffffffff + timer_jiffies b) else expires in
    (5, Z.land (Z.shiftr expires (TVR_BITS + 3 * TVN_BITS)) TVN_MASK).

Definition internal_add_timer (b : tvec_base) (t : ptr) (expires : Z) : tvec_base :=
  let k := vec_of b expires in
  set_vec (<[k := slot b k ++ [t]]> (vec b)) b.

(** The timer is on one list of its wheel; [__list_del] takes it off. *)
Definition unlink (t : ptr) (b : tvec_base) : tvec_base :=
  set_work (list_del t (work_list b)) (set_vec (list_del t <$> vec b) b).

Definition detach_timer (t : ptr) (clear_pending : bool) (st : timers) : option timers :=
  l ← tl st !! t;
  b ← bases st !! base l;
  let st := set_base (base l) (unlink t b) st in
  Some (if clear_pending then set_timer t (set_pending false l) st else st).

(** A timer that may have been the next one leaves. *)
Definition leave_next (l : timer_list) (b : tvec_base) : tvec_base :=
  if (expires l =? next_timer b) && negb (deferrable l) then set_next_timer (timer_jiffies b) b else b.

(** A timer that may be the next one enters. *)
Definition enter_next (l : timer_list) (b : tvec_base) : tvec_base :=
  if time_before (expires l) (next_timer b) && negb (deferrable l) then set_next_timer (expires l) b else b.

(** ** Starting and stopping timers *)

(** What a call finds: the CPU it runs on, the NO_HZ balancer, jiffies, and the
    value the machine gives to [1 << n] for [n] past 30. *)
Record cpu_env := CpuEnv {
  smp_processor_id : Z; timer_migration : bool; idle_cpu : bool; nohz_load_balancer : Z; jiffies : Z;
  wide_shift : Z -> Z
}.

Definition target_cpu (e : cpu_env) (pinned : bool) : Z :=
  if negb pinned && timer_migration e && idle_cpu e && (nohz_load_balancer e >=? 0)
  then nohz_load_balancer e else smp_processor_id e.

Definition mod_timer_common (e : cpu_env) (t : ptr) (expires : Z) (pending_only pinned : bool) (st : timers)
    : option (Z * timers) :=
  l ← tl st !! t;
  if bool_decide (function l = None) then None
  else if negb (pending l) && pending_only then Some (0, st)
  else
    b ← bases st !! base l;
    let ret := if pending l then 1 else 0 in
    let b := if pending l then leave_next l (unlink t b) else b in
    let st := set_base (base l) b st in
    let cpu := target_cpu e pinned in
    let l := if negb (base l =? cpu) && negb (bool_decide (running_timer b = Some t))
             then timer_set_base cpu l else l in
    b ← bases st !! base l;
    let l := set_pending true (set_expires expires l) in
    let b := internal_add_timer (enter_next l b) t expires in
    Some (ret, set_timer t l (set_base (base l) b st)).

Definition mod_timer_pending (e : cpu_env) (t : ptr) (expires : Z) (st : timers) : option (Z * timers) :=
  mod_timer_common e t expires true false st.

(** [find_last_bit(&mask, BITS_PER_LONG)] for [mask != 0] *)
Definition find_last_bit (mask : Z) : Z := Z.log2 mask.

(** The latest time the slack of a timer allows. *)
Definition slack_limit (e : cpu_env) (l : timer_list) (expires : Z) : Z :=
  if slack l >=? 0 then u64 (expires + slack l)
  else if time_after expires (jiffies e) then u64 (expires + u64 (expires - jiffies e) / 256)
  else expires.

Definition apply_slack (e : cpu_env) (l : timer_list) (expires : Z) : Z :=
  let expires_limit := slack_limit e l expires in
  let mask := Z.lxor expires expires_limit in
  if mask =? 0 then expires
  else
    let bit := find_last_bit mask in
    let mask := u64 ((if bit <? 31 then Z.shiftl 1 bit else wide_shift e bit) - 1) in
    Z.ldiff expires_limit mask.

Definition mod_timer (e : cpu_env) (t : ptr) (expires' : Z) (st : timers) : option (Z * timers) :=
  l ← tl st !! t;
  if pending l && (expires l =? expires') then Some (1, st)
  else mod_timer_common e t (apply_slack e l expires') false false st.

Definition mod_timer_pinned (e : cpu_env) (t : ptr) (expires' : Z) (st : timers) : option (Z * timers) :=
  l ← tl st !! t;
  if (expires l =? expires') && pending l then Some (1, st)
  else mod_timer_common e t expires' false true st.

Definition add_timer (e : cpu_env) (t : ptr) (st : timers) : option timers :=
  l ← tl st !! t;
  if pending l then None else snd <$> mod_timer e t (expires l) st.

Definition add_timer_on (t : ptr) (cpu : Z) (st : timers) : option timers :=
  l ← tl st !! t;
  if pending l || bool_decide (function l = None) then None
  else
    b ← bases st !! cpu;
    let l := timer_set_base cpu l in
    let b := internal_add_timer (enter_next l b) t (expires l) in
    Some (set_timer t (set_pending true l) (set_base cpu b st)).

Definition del_timer (t : ptr) (st : timers) : option (Z * timers) :=
  l ← tl st !! t;
  if pending l then
    st ← detach_timer t true st;
    b ← bases st !! base l;
    Some (1, set_base (base l) (leave_next l b) st)
  else Some (0, st).

Definition try_to_del_timer_sync (t : ptr) (st : timers) : option (Z * timers) :=
  l ← tl st !! t;
  b ← bases st !! base l;
  if bool_decide (running_timer b = Some t) then Some (-1, st)
  else if pending l then
    st ← detach_timer t true st;
    b ← bases st !! base l;
    Some (1, set_base (base l) (leave_next l b) st)
  else Some (0, st).

(** [init_timer_key] or [init_timer_deferrable_key] on a CPU with a wheel, with
    the fields the owner sets; a pending timer must not be initialised. *)
Definition init_timer (cpu : Z) (t : ptr) (defer : bool) (fn : option Z) (d e : Z) (st : timers) : option timers :=
  _ ← bases st !! cpu;
  if default false (pending <$> tl st !! t) then None
  else
    Some (set_timer t {| pending := false; expires := e; base := cpu; deferrable := defer; function := fn;
                         data := d; slack := -1 |} st).

Definition set_timer_slack (t : ptr) (slack_hz : Z) (st : timers) : option timers :=
  l ← tl st !! t;
  Some (set_timer t (set_slack slack_hz l) st).

(** ** Running timers *)

(** The timers of [l], taken off their list, are sorted in again. *)
Fixpoint add_all (c : Z) (l : list ptr) (st : timers) : option timers :=
  match l with
  | [] => Some st
  | t :: l =>
      x ← tl st !! t;
      b ← bases st !! c;
      if negb (base x =? c) then None else add_all c l (set_base c (internal_add_timer b t (expires x)) st)
  end.

Definition cascade (c tv index : Z) (st : timers) : option (Z * timers) :=
  b ← bases st !! c;
  let tv_list := slot b (tv, index) in
  st ← add_all c tv_list (set_base c (set_vec (<[(tv, index) := []]> (vec b)) b) st);
  Some (index, st).

Definition INDEX (b : tvec_base) (N : Z) : Z :=
  Z.land (Z.shiftr (timer_jiffies b) (TVR_BITS + N * TVN_BITS)) TVN_MASK.

(** [cascade] of the vectors from [tv] on, each one only after the index of the
    one before was 0. *)
Fixpoint cascades (fuel : nat) (c tv : Z) (st : timers) : option timers :=
  match fuel with
  | O => Some st
  | S fuel =>
      b ← bases st !! c;
      '(index, st) ← cascade c tv (INDEX b (tv - 2)) st;
      if index =? 0 then cascades fuel c (tv + 1) st else Some st
  end.

Inductive timer_op :=
| OpInit (cpu : Z) (t : ptr) (defer : bool) (fn : option Z) (d e : Z)
| OpSlack (t : ptr) (slack_hz : Z)
| OpMod (e : cpu_env) (t : ptr) (expires : Z)
| OpModPending (e : cpu_env) (t : ptr) (expires : Z)
| OpModPinned (e : cpu_env) (t : ptr) (expires : Z)
| OpAdd (e : cpu_env) (t : ptr)
| OpAddOn (t : ptr) (cpu : Z)
| OpDel (t : ptr)
| OpTryDel (t : ptr).

Definition run_op (o : timer_op) (st : timers) : option timers :=
  match o with
  | OpInit cpu t defer fn d e => init_timer cpu t defer fn d e st
  | OpSlack t s => set_timer_slack t s st
  | OpMod e t x => snd <$> mod_timer e t x st
  | OpModPending e t x => snd <$> mod_timer_pending e t x st
  | OpModPinned e t x => snd <$> mod_timer_pinned e t x st
  | OpAdd e t => add_timer e t st
  | OpAddOn t cpu => add_timer_on t cpu st
  | OpDel t => snd <$> del_timer t st
  | OpTryDel t => snd <$> try_to_del_timer_sync t st
  end.

Fixpoint run_ops (l : list timer_op) (st : timers) : option timers :=
  match l with
  | [] => Some st
  | o :: l => st ← run_op o st; run_ops l st
  end.

Section Run.
(** What happens to the timers while the lock is dropped for a call of a timer
    function: its own operations, and those of other CPUs. *)
Context (handler : Z -> Z -> timers -> list timer_op).

Definition call_timer_fn (e : call) (st : timers) : option timers :=
  run_ops (handler (call_fn e) (call_data e) st) (log_call e st).

(** The timers on the work list, first to last. *)
Fixpoint run_work (fuel : nat) (c : Z) (st : timers) : option timers :=
  match fuel with
  | O => None
  | S fuel =>
      b ← bases st !! c;
      match work_list b with
      | [] => Some st
      | t :: _ =>
          l ← tl st !! t;
          fn ← function l;
          st ← detach_timer t true (set_base c (set_running_timer (Some t) b) st);
          st ← call_timer_fn {| call_timer := t; call_fn := fn; call_data := data l; call_expires := expires l;
                                call_tick := u64 (timer_jiffies b - 1) |} st;
          run_work fuel c st
      end
  end.

(** One tick. *)
Definition run_tick (c : Z) (st : timers) : option timers :=
  b ← bases st !! c;
  let index := Z.land (timer_jiffies b) TVR_MASK in
  st ← if index =? 0 then cascades 4 c 2 st else Some st;
  b ← bases st !! c;
  let b := set_timer_jiffies (u64 (timer_jiffies b + 1)) b in
  let work := slot b (1, index) in
  let st := set_base c (set_work work (set_vec (<[(1, index) := []]> (vec b)) b)) st in
  run_work (S (length work)) c st.

(** [clock k]: what [jiffies] is when the loop reads it for the [k]th time. *)
Fixpoint run_timers_loop (fuel : nat) (clock : nat -> Z) (k : nat) (c : Z) (st : timers) : option timers :=
  match fuel with
  | O => None
  | S fuel =>
      b ← bases st !! c;
      if time_after_eq (clock k) (timer_jiffies b) then
        st ← run_tick c st;
        run_timers_loop fuel clock (S k) c st
      else Some (set_base c (set_running_timer None b) st)
  end.

(** [run_timer_softirq]; the second reading of [jiffies] is the first of
    [__run_timers]. *)
Definition run_timer_softirq (fuel : nat) (clock : nat -> Z) (c : Z) (st : timers) : option timers :=
  b ← bases st !! c;
  if time_after_eq (clock 0%nat) (timer_jiffies b) then run_timers_loop fuel clock 1%nat c st else Some st.
End Run.

(** ** CPUs coming and going *)

(** A CPU that was never up takes the zeroed memory [mem] stands for (the boot
    CPU its static base); one that comes back reuses its base, of which only
    the vectors and the two clocks are written. *)
Definition init_timers_cpu (cpu now : Z) (mem : bool) (st : timers) : Z * timers :=
  match bases st !! cpu with
  | None =>
      if mem then (0, set_base cpu {| vec := ∅; timer_jiffies := now; next_timer := now; running_timer := None; work_list := [] |} st)
      else (- ENOMEM, st)
  | Some b =>
      (0, set_base cpu {| vec := ∅; timer_jiffies := now; next_timer := now; running_timer := running_timer b; work_list := work_list b |} st)
  end.

(** The timers of one list of an old wheel go to a new one. *)
Fixpoint migrate_list (new : Z) (l : list ptr) (st : timers) : option timers :=
  match l with
  | [] => Some st
  | t :: l =>
      st ← detach_timer t false st;
      x ← tl st !! t;
      b ← bases st !! new;
      let x := timer_set_base new x in
      migrate_list new l (set_timer t x (set_base new (internal_add_timer (enter_next x b) t (expires x)) st))
  end.

Fixpoint migrate_lists (old new : Z) (ks : list (Z * Z)) (st : timers) : option timers :=
  match ks with
  | [] => Some st
  | k :: ks =>
      b ← bases st !! old;
      st ← migrate_list new (slot b k) st;
      migrate_lists old new ks st
  end.

(** The lists in the order of the two loops. *)
Definition all_lists : list (Z * Z) :=
  ((fun i => (1, i)) <$> seqZ 0 TVR_SIZE) ++
  (seqZ 0 TVN_SIZE ≫= fun i => [(2, i); (3, i); (4, i); (5, i)]).

Definition migrate_timers (old new : Z) (st : timers) : option timers :=
  b ← bases st !! old;
  if bool_decide (running_timer b = None) then migrate_lists old new all_lists st else None.
