(* ===== verification/TimerInv.v ===== *)
(** * TimerInv: correctness of the timer wheel

    A wheel at tick [n] keeps each pending timer on one list, chosen so that the
    timer is back in the first vector when its tick comes. Ticks are counted
    without wrap-around here; [timer_jiffies] is their value modulo 2^64. *)

From S2P Require Import Prelude Timer.

(** ** Arithmetic modulo 2^64 *)

Lemma u64_mod x : u64 x = x mod 2 ^ 64.
Proof. done. Qed.

Lemma s64_cases x : exists k, s64 x = x + k * 2 ^ 64 /\ - 2 ^ 63 <= s64 x < 2 ^ 63.
Proof.
  unfold s64, wraps. change (2 ^ (64 - 1)) with (2 ^ 63). exists (- ((x + 2 ^ 63) / 2 ^ 64)).
  pose proof (Z.div_mod (x + 2 ^ 63) (2 ^ 64) ltac:(lia)). pose proof (Z.mod_pos_bound (x + 2 ^ 63) (2 ^ 64) ltac:(lia)). lia.
Qed.

Lemma u64_cases x : exists k, u64 x = x + k * 2 ^ 64 /\ 0 <= u64 x < 2 ^ 64.
Proof.
  rewrite u64_mod. exists (- (x / 2 ^ 64)). pose proof (Z.div_mod x (2 ^ 64) ltac:(lia)).
  pose proof (Z.mod_pos_bound x (2 ^ 64) ltac:(lia)). lia.
Qed.

Lemma u64_eq x y k : x = y + k * 2 ^ 64 -> u64 x = u64 y.
Proof. intros ->. apply wrapu_shift. lia. Qed.

Lemma s64_eq x y k : x = y + k * 2 ^ 64 -> s64 x = s64 y.
Proof. intros ->. apply wraps_shift. lia. Qed.

(** The bits of a wrapped value below bit 64. *)
Lemma digit_u64 x s w : 0 <= s -> 0 <= w -> s + w <= 64 -> Z.land (Z.shiftr (u64 x) s) (Z.ones w) = (x / 2 ^ s) mod 2 ^ w.
Proof.
  intros Hs Hw H. rewrite Z.land_ones, Z.shiftr_div_pow2, u64_mod by lia.
  assert (2 ^ 64 = 2 ^ s * (2 ^ w * 2 ^ (64 - s - w))) as E by (rewrite <- !Z.pow_add_r by lia; f_equal; lia).
  pose proof (Z.pow_pos_nonneg 2 s). pose proof (Z.pow_pos_nonneg 2 w). pose proof (Z.pow_pos_nonneg 2 (64 - s - w)).
  rewrite E, Z.rem_mul_r by nia. rewrite Z.mul_comm, Z.div_add by lia. rewrite (Z.div_small (x mod _)) by (apply Z.mod_pos_bound; lia).
  rewrite Z.add_0_l. rewrite Z.rem_mul_r by lia. rewrite (Z.mul_comm (2 ^ w)), Z.mod_add by lia. rewrite Z.mod_mod by lia. done.
Qed.

Lemma digit_id x s w : 0 <= x < 2 ^ 64 -> 0 <= s -> 0 <= w -> s + w <= 64 -> Z.land (Z.shiftr x s) (Z.ones w) = (x / 2 ^ s) mod 2 ^ w.
Proof. intros Hx. intros. rewrite <- digit_u64 by lia. do 2 f_equal. symmetry. by apply wrapu_small. Qed.

(** ** Where a timer belongs *)

(** The ticks a list of vector [k] stands for, and those of the whole vector. *)
Definition unit (k : Z) : Z := 2 ^ (TVR_BITS + (k - 2) * TVN_BITS).

Lemma unit_pos k : 2 <= k -> 0 < unit k.
Proof. intros. unfold unit, TVR_BITS, TVN_BITS. apply Z.pow_pos_nonneg; lia. Qed.

Lemma unit_succ k : 2 <= k -> unit (k + 1) = 64 * unit k.
Proof.
  intros. unfold unit, TVR_BITS, TVN_BITS. replace (8 + (k + 1 - 2) * 6) with (6 + (8 + (k - 2) * 6)) by lia.
  rewrite Z.pow_add_r by lia. done.
Qed.

(** The tick a timer set to [e] at tick [n] is due at. *)
Definition due_of (n e : Z) : Z := n + Z.max 0 (s64 (e - n)).

(** [D] is the tick the timer is set to, or the tick [n] it was set at when it
    had expired then. *)
Definition on_time (n D e : Z) : Prop := e = u64 D \/ (D = n /\ s64 (e - D) < 0).

(** The timer is on list [p] at tick [n], due at [D]; a list of the vectors 2 to
    5 is sorted again at the tick its block starts with, which is [lo] or later.
    Only in vector 5 the block may not be the one of [D]. *)
Definition placed (lo : Z -> Z) (n D e : Z) (p : Z * Z) : Prop :=
  (p.1 = 1 /\ n <= D < n + 256 /\ p.2 = D mod 256) \/
  (2 <= p.1 <= 5 /\ e = u64 D /\ D - n < 2 ^ 63 /\ exists P, p.2 = (P / unit p.1) mod 64 /\
    lo p.1 <= P / unit p.1 * unit p.1 < n + 64 * unit p.1 /\ P <= D /\ (p.1 < 5 -> P = D)).

Lemma placed_due lo n D e p : (forall k, n <= lo k) -> placed lo n D e p -> n <= D.
Proof.
  intros Hlo [(_ & HD & _)|(Hk & _ & _ & P & _ & HP & HPD)]; [lia|]. specialize (Hlo p.1).
  pose proof (unit_pos p.1 ltac:(lia)). pose proof (Z.mul_div_le P (unit p.1) ltac:(lia)). lia.
Qed.

Lemma block_start P u : 0 < u -> P - u < P / u * u <= P.
Proof. intros. pose proof (Z.div_mod P u ltac:(lia)). pose proof (Z.mod_pos_bound P u ltac:(lia)). lia. Qed.

(** A timer is put where it belongs, past the block that starts now. *)
Lemma placed_later lo n D e k : 2 <= k <= 5 -> e = u64 D -> D - n < 2 ^ 63 -> (forall j, lo j <= n + 1) ->
  forall P, unit k <= P - n < 64 * unit k -> P <= D -> (k < 5 -> P = D) -> placed lo n D e (k, (P / unit k) mod 64).
Proof.
  intros Hk He HD Hlo P HP HPD Hex. right. cbn. split; [done|]. split; [done|]. split; [done|]. exists P. split; [done|].
  split; [|done]. pose proof (unit_pos k ltac:(lia)). pose proof (block_start P (unit k) ltac:(lia)). specialize (Hlo k). lia.
Qed.

Lemma due_on_time n e : 0 <= e < 2 ^ 64 -> on_time n (due_of n e) e.
Proof.
  intros He. unfold on_time, due_of. destruct (s64_cases (e - n)) as (k1 & E1 & R1). destruct (decide (s64 (e - n) < 0)).
  - right. replace (n + Z.max 0 (s64 (e - n))) with n by lia. done.
  - left. rewrite (u64_eq _ e k1) by lia. symmetry. by apply wrapu_small.
Qed.

Lemma vec_of_placed lo b n e :
  timer_jiffies b = u64 n -> 0 <= e < 2 ^ 64 -> (forall k, lo k <= n + 1) -> placed lo n (due_of n e) e (vec_of b e).
Proof.
  intros Hn He Hlo. unfold vec_of, due_of. rewrite Hn. destruct (s64_cases (e - n)) as (k1 & E1 & R1).
  assert (u64 (e - u64 n) = u64 (s64 (e - n))) as ->.
  { destruct (u64_cases n) as (k3 & E3 & _). apply (u64_eq _ _ (- k3 - k1)). lia. }
  set (d := s64 (e - n)) in *. destruct (decide (d < 0)) as [Hneg|Hpos].
  - assert (u64 d = d + 2 ^ 64) as -> by (rewrite (u64_eq _ (d + 2 ^ 64) (-1)) by lia; apply wrapu_small; lia).
    change TVR_SIZE with 256. change (Z.shiftl 1 (TVR_BITS + TVN_BITS)) with (2 ^ 14).
    change (Z.shiftl 1 (TVR_BITS + 2 * TVN_BITS)) with (2 ^ 20). change (Z.shiftl 1 (TVR_BITS + 3 * TVN_BITS)) with (2 ^ 26).
    replace (s64 (d + 2 ^ 64)) with d by (rewrite (s64_eq _ d 1) by lia; symmetry; apply s64_small; lia).
    do 4 (case_if; zbool; [lia|]). replace (d <? 0) with true by lia. left. cbn. split; [done|]. split; [lia|].
    change TVR_MASK with (Z.ones 8). rewrite Z.land_ones by lia. rewrite u64_mod.
    replace (n + Z.max 0 d) with n by lia. apply Z.mod_mod_divide. by exists (2 ^ 56).
  - assert (u64 d = d) as -> by (apply wrapu_small; lia). rewrite s64_small by lia. replace (Z.max 0 d) with d by lia.
    assert (e = u64 (n + d)) as Ee by (rewrite (u64_eq _ e k1) by lia; symmetry; apply wrapu_small; lia).
    assert (forall s, 0 <= s <= 58 -> Z.land (Z.shiftr e s) TVN_MASK = ((n + d) / 2 ^ s) mod 64) as Hdig.
    { intros s Hs. rewrite Ee. change TVN_MASK with (Z.ones 6). rewrite digit_u64 by lia. done. }
    replace (d <? 0) with false by lia.
    destruct (d <? TVR_SIZE) eqn:L1; [|destruct (d <? Z.shiftl 1 (TVR_BITS + TVN_BITS)) eqn:L2;
      [|destruct (d <? Z.shiftl 1 (TVR_BITS + 2 * TVN_BITS)) eqn:L3;
      [|destruct (d <? Z.shiftl 1 (TVR_BITS + 3 * TVN_BITS)) eqn:L4]]]; zbool;
      change TVR_SIZE with 256 in *; change (Z.shiftl 1 (TVR_BITS + TVN_BITS)) with (2 ^ 14) in *;
      change (Z.shiftl 1 (TVR_BITS + 2 * TVN_BITS)) with (2 ^ 20) in *;
      change (Z.shiftl 1 (TVR_BITS + 3 * TVN_BITS)) with (2 ^ 26) in *.
    + left. cbn. split; [done|]. split; [lia|]. change TVR_MASK with (Z.ones 8). rewrite Ee.
      rewrite <- (Z.shiftr_0_r (u64 _)), digit_u64 by lia. by rewrite Z.pow_0_r, Z.div_1_r.
    + rewrite Hdig by (unfold TVR_BITS; lia). apply (placed_later lo n _ e 2); try done; try lia; change (unit 2) with 256; lia.
    + rewrite Hdig by (unfold TVR_BITS, TVN_BITS; lia). apply (placed_later lo n _ e 3); try done; try lia; change (unit 3) with (2 ^ 14); lia.
    + rewrite Hdig by (unfold TVR_BITS, TVN_BITS; lia). apply (placed_later lo n _ e 4); try done; try lia; change (unit 4) with (2 ^ 20); lia.
    + destruct (d >? 4294967295) eqn:L5; zbool.
      * destruct (u64_cases n) as (k3 & E3 & _).
        assert (u64 (4294967295 + u64 n) = u64 (n + 4294967295)) as -> by (apply (u64_eq _ _ k3); lia).
        change TVN_MASK with (Z.ones 6). rewrite digit_u64 by (unfold TVR_BITS, TVN_BITS; lia).
        apply (placed_later lo n _ e 5); try done; try lia; change (unit 5) with (2 ^ 26); lia.
      * rewrite Hdig by (unfold TVR_BITS, TVN_BITS; lia). apply (placed_later lo n _ e 5); try done; try lia; change (unit 5) with (2 ^ 26); lia.
Qed.

(** ** Well-formed wheels *)

(** The wheel of CPU [c] at tick [n]; [due]: when each timer is due; [X]: timers
    that are off their list for the moment. *)
Record wheel (m : gmap ptr timer_list) (c : Z) (lo : Z -> Z) (n : Z) (due : gmap ptr Z) (X : list ptr) (b : tvec_base)
    : Prop := {
  w_now : timer_jiffies b = u64 n;
  w_slot k t : t ∈ slot b k -> exists l D, m !! t = Some l /\ pending l = true /\ base l = c /\ due !! t = Some D /\
    on_time n D (expires l) /\ placed lo n D (expires l) k;
  w_one k k' t : t ∈ slot b k -> t ∈ slot b k' -> k = k';
  w_nodup k : NoDup (slot b k);
  w_work t : t ∈ work_list b -> exists l, m !! t = Some l /\ pending l = true /\ base l = c /\ due !! t = Some (n - 1) /\
    on_time (n - 1) (n - 1) (expires l);
  w_work_nodup : NoDup (work_list b);
  w_work_off t k : t ∈ work_list b -> t ∉ slot b k;
  w_off t : t ∈ X -> (t ∉ work_list b) /\ forall k, t ∉ slot b k;
  w_all t l : m !! t = Some l -> pending l = true -> base l = c -> t ∉ X -> t ∈ work_list b \/ exists k, t ∈ slot b k
}.

(** Between two ticks. *)
Definition at_tick (n : Z) : Z -> Z := fun _ => n.

Lemma slot_set_vec_insert b v k l k' : slot (set_vec (<[k := l]> v) b) k' = if decide (k = k') then l else default [] (v !! k').
Proof.
  unfold slot. cbn. case_decide as E; [subst; by rewrite lookup_insert_eq|by rewrite lookup_insert_ne].
Qed.

Lemma slot_unlink t b k : slot (unlink t b) k = list_del t (slot b k).
Proof. unfold slot, unlink. cbn. rewrite lookup_fmap. by destruct (vec b !! k). Qed.

(** Only the lists and the tick matter. *)
Lemma wheel_same m c lo n due X b b' :
  vec b' = vec b -> work_list b' = work_list b -> timer_jiffies b' = timer_jiffies b ->
  wheel m c lo n due X b -> wheel m c lo n due X b'.
Proof.
  intros E1 E2 E3 [H1 H2 H3 H4 H5 H6 H7 H8 H9].
  assert (forall k, slot b' k = slot b k) as Es by (intros k; unfold slot; by rewrite E1).
  constructor; try rewrite E2; try rewrite E3; try setoid_rewrite Es; done.
Qed.

Lemma wheel_unlink m c lo n due X b t : wheel m c lo n due X b -> wheel m c lo n due (t :: X) (unlink t b).
Proof.
  intros [H1 H2 H3 H4 H5 H6 H7 H8 H9]. constructor; try setoid_rewrite slot_unlink; try setoid_rewrite elem_of_list_del; cbn.
  - done.
  - intros k t' [? _]. by apply (H2 k).
  - intros k k' t' [? _] [? _]. by apply (H3 k k' t').
  - intros k. by apply NoDup_filter.
  - intros t' [? _]. by apply H5.
  - by apply NoDup_filter.
  - intros t' k [? _] [? _]. by apply (H7 t' k).
  - intros t' [->|Ht']%elem_of_cons; [split; [tauto|]; intros k; tauto|]. destruct (H8 t' Ht') as [A B].
    split; [tauto|]. intros k [? _]. by apply (B k).
  - intros t' l Hm Hp Hb Hx. apply not_elem_of_cons in Hx as [Hne Hx]. destruct (H9 t' l Hm Hp Hb Hx) as [?|[k ?]]; [by left|].
    right. by exists k.
Qed.

(** A timer that is off the lists is sorted in. *)
Lemma wheel_add m c lo n due X b t l :
  wheel m c lo n due (t :: X) b -> t ∉ X -> m !! t = Some l -> pending l = true -> base l = c -> 0 <= expires l < 2 ^ 64 ->
  (forall k, lo k <= n + 1) ->
  wheel m c lo n (<[t := due_of n (expires l)]> due) X (internal_add_timer b t (expires l)).
Proof.
  intros [H1 H2 H3 H4 H5 H6 H7 H8 H9] Hx Hm Hp Hb He Hlo. destruct (H8 t ltac:(by constructor)) as [Hw Hs].
  unfold internal_add_timer. set (p := vec_of b (expires l)).
  assert (forall k, slot (set_vec (<[p := slot b p ++ [t]]> (vec b)) b) k = if decide (p = k) then slot b k ++ [t] else slot b k) as Es.
  { intros k. rewrite slot_set_vec_insert. case_decide; [by subst|done]. }
  assert (forall k t', t' ∈ slot (set_vec (<[p := slot b p ++ [t]]> (vec b)) b) k <-> t' ∈ slot b k \/ (t' = t /\ k = p)) as Hin.
  { intros k t'. rewrite Es. case_decide as E; [subst k; rewrite elem_of_app, list_elem_of_singleton; tauto|].
    split; [tauto|]. intros [?|[_ ->]]; [done|by destruct E]. }
  constructor; cbn; try setoid_rewrite Hin.
  - done.
  - intros k t' [Ht'|[-> ->]].
    + assert (t' <> t) by (intros ->; by apply (Hs k)). rewrite lookup_insert_ne by done. by apply H2.
    + exists l, (due_of n (expires l)). rewrite lookup_insert_eq. split; [done|]. split; [done|]. split; [done|]. split; [done|].
      split; [by apply due_on_time|by apply vec_of_placed].
  - intros k k' t' [?|[-> ->]] [?|[? ->]]; [by apply (H3 k k' t')|subst; by destruct (Hs k)|by destruct (Hs k')|done].
  - intros k. rewrite Es. case_decide; [|done]. apply NoDup_app. split; [done|]. split; [|apply NoDup_singleton].
    intros t' Ht' ->%list_elem_of_singleton. by apply (Hs k).
  - intros t' Ht'. assert (t' <> t) by (intros ->; done). rewrite lookup_insert_ne by done. by apply H5.
  - done.
  - intros t' k Ht' [?|[-> _]]; [by apply (H7 t' k)|done].
  - intros t' Ht'. destruct (H8 t' ltac:(by constructor)) as [A B]. split; [done|]. intros k [?|[-> _]]; [by apply (B k)|done].
  - intros t' l' Hm' Hp' Hb' Hx'. destruct (decide (t' = t)) as [->|Hne]; [right; exists p; by right|].
    destruct (H9 t' l' Hm' Hp' Hb') as [?|[k ?]]; [by apply not_elem_of_cons|by left|right; exists k; by left].
Qed.

(** Another timer changes. *)
Lemma wheel_other m c lo n due due' X b t l' :
  wheel m c lo n due X b -> ((t ∉ work_list b) /\ forall k, t ∉ slot b k) ->
  (pending l' = true -> base l' = c -> t ∈ X) -> (forall t', t' <> t -> due' !! t' = due !! t') ->
  wheel (<[t := l']> m) c lo n due' X b.
Proof.
  intros [H1 H2 H3 H4 H5 H6 H7 H8 H9] [Hw Hs] Hl Hd. constructor; try done.
  - intros k t' Ht'. assert (t' <> t) by (intros ->; by apply (Hs k)). rewrite lookup_insert_ne, Hd by done. by apply H2.
  - intros t' Ht'. assert (t' <> t) by (intros ->; done). rewrite lookup_insert_ne, Hd by done. by apply H5.
  - intros t' l Hm Hp Hb Hx. destruct (decide (t' = t)) as [->|Hne].
    + rewrite lookup_insert_eq in Hm. injection Hm as ->. by destruct Hx; apply Hl.
    + rewrite lookup_insert_ne in Hm by done. by apply (H9 t' l).
Qed.

(** A timer that is not this wheel's need not be on it. *)
Lemma wheel_drop m c lo n due X b t :
  wheel m c lo n due (t :: X) b -> (forall l, m !! t = Some l -> pending l = true -> base l <> c) -> wheel m c lo n due X b.
Proof.
  intros [H1 H2 H3 H4 H5 H6 H7 H8 H9] Hl. constructor; try done.
  - intros t' Ht'. apply H8. by constructor.
  - intros t' l Hm Hp Hb Hx. apply (H9 t' l Hm Hp Hb). apply not_elem_of_cons. split; [|done]. intros ->. by apply (Hl l).
Qed.

Lemma wheel_take m c lo n due X b t :
  wheel m c lo n due X b -> ((t ∉ work_list b) /\ forall k, t ∉ slot b k) -> wheel m c lo n due (t :: X) b.
Proof.
  intros [H1 H2 H3 H4 H5 H6 H7 H8 H9] Ht. constructor; try done.
  - intros t' [->|Ht']%elem_of_cons; [done|by apply H8].
  - intros t' l Hm Hp Hb Hx. apply not_elem_of_cons in Hx as [_ Hx]. by apply (H9 t' l).
Qed.

Lemma wheel_foreign m c lo n due X b t l :
  wheel m c lo n due X b -> m !! t = Some l -> pending l = false \/ base l <> c ->
  (t ∉ work_list b) /\ forall k, t ∉ slot b k.
Proof.
  intros Hw Hm Hl. split.
  - intros Ht. destruct (w_work _ _ _ _ _ _ _ Hw _ Ht) as (l' & E & Hp & Hc & _). rewrite Hm in E. simplify_eq. destruct Hl; congruence.
  - intros k Ht. destruct (w_slot _ _ _ _ _ _ _ Hw _ _ Ht) as (l' & D & E & Hp & Hc & _). rewrite Hm in E. simplify_eq. destruct Hl; congruence.
Qed.

Lemma wheel_fresh m c lo n due X b t :
  wheel m c lo n due X b -> m !! t = None -> (t ∉ work_list b) /\ forall k, t ∉ slot b k.
Proof.
  intros Hw Hm. split.
  - intros Ht. destruct (w_work _ _ _ _ _ _ _ Hw _ Ht) as (l' & E & _). congruence.
  - intros k Ht. destruct (w_slot _ _ _ _ _ _ _ Hw _ _ Ht) as (l' & D & E & _). congruence.
Qed.

(** ** The cascade *)

(** Vectors below [k] have had their turn at tick [n]. *)
Definition turned (k n : Z) : Z -> Z := fun j => if j <? k then n + 1 else n.

Lemma wheel_lo m c lo lo' n due X b :
  wheel m c lo n due X b ->
  (forall k i t D e, t ∈ slot b (k, i) -> 2 <= k <= 5 -> placed lo n D e (k, i) -> placed lo' n D e (k, i)) ->
  wheel m c lo' n due X b.
Proof.
  intros [H1 H2 H3 H4 H5 H6 H7 H8 H9] Hp. constructor; try done. intros [k i] t Ht.
  destruct (H2 _ _ Ht) as (l & D & A1 & A2 & A3 & A4 & A5 & A6). exists l, D. split; [done|]. split; [done|]. split; [done|].
  split; [done|]. split; [done|]. destruct (decide (k = 1)) as [->|Hne].
  - destruct A6 as [A6|(? & _)]; [by left|cbn in *; lia].
  - apply (Hp k i t D); [done| |done]. destruct A6 as [(? & _)|(? & _)]; cbn in *; lia.
Qed.

(** A block that has not started starts later than a tick that starts none. *)
Lemma start_later P u n : 0 < u -> n mod u <> 0 -> n <= P / u * u -> n + 1 <= P / u * u.
Proof.
  intros Hu Hn Hle. destruct (decide (n = P / u * u)) as [E|]; [|lia]. destruct Hn. rewrite E. apply Z.mod_mul. lia.
Qed.

Lemma placed_turned lo lo' n D e k i :
  2 <= k <= 5 -> placed lo n D e (k, i) -> (forall P, lo k <= P / unit k * unit k -> i = (P / unit k) mod 64 ->
    P / unit k * unit k < n + 64 * unit k -> lo' k <= P / unit k * unit k) -> placed lo' n D e (k, i).
Proof.
  intros Hk [(E & _)|(H1 & H2 & H3 & P & H4 & H5 & H6)] Hlo; [cbn in E; lia|]. cbn [fst snd] in *. right. cbn [fst snd].
  split; [done|]. split; [done|]. split; [done|]. exists P. split; [done|]. split; [|done]. split; [apply Hlo; (done || lia)|lia].
Qed.

(** The list of vector [k] that is sorted again at tick [n]. *)
Lemma block_now P u n i : 0 < u -> n mod u = 0 -> n <= P / u * u < n + 64 * u -> i = (P / u) mod 64 -> i = (n / u) mod 64 -> P / u * u = n.
Proof.
  intros Hu Hn HP Hi Hi'. pose proof (Z.div_mod n u ltac:(lia)) as En. rewrite Hn, Z.add_0_r in En.
  assert (n / u <= P / u < n / u + 64) as HB.
  { revert HP En. generalize (P / u) (n / u). intros x y HP En. nia. }
  pose proof (Z.div_mod (P / u) 64 ltac:(lia)). pose proof (Z.div_mod (n / u) 64 ltac:(lia)).
  assert (P / u = n / u) as -> by lia. lia.
Qed.

Lemma placed_now lo n D e k :
  2 <= k <= 5 -> n <= lo k -> n mod unit k = 0 -> placed lo n D e (k, (n / unit k) mod 64) -> D = due_of n e /\ e = u64 D.
Proof.
  intros Hk Hlo Hn [(E & _)|(_ & He & HD & P & Hi & HP & HPD)]; [cbn in E; lia|]. cbn [fst snd] in *.
  pose proof (unit_pos k ltac:(lia)) as Hu.
  pose proof (block_now P (unit k) n _ Hu Hn ltac:(lia) Hi eq_refl) as E. pose proof (block_start P (unit k) Hu).
  split; [|done]. unfold due_of. destruct (u64_cases D) as (k1 & E1 & _). rewrite He.
  rewrite (s64_eq _ (D - n) k1) by lia. rewrite s64_small by lia. lia.
Qed.

Lemma set_base_id c b st : bases st !! c = Some b -> set_base c b st = st.
Proof. intros Hb. destruct st. unfold set_base. cbn in *. by rewrite insert_id. Qed.

Lemma set_base_twice c b b' st : set_base c b' (set_base c b st) = set_base c b' st.
Proof. unfold set_base. cbn. by rewrite insert_insert_eq. Qed.

Lemma add_all_spec c lo n due X : (forall k, lo k <= n + 1) -> forall l st b,
  bases st !! c = Some b -> wheel (tl st) c lo n due (l ++ X) b -> NoDup (l ++ X) ->
  (forall t, t ∈ l -> exists x, tl st !! t = Some x /\ pending x = true /\ base x = c /\ 0 <= expires x < 2 ^ 64 /\
    due !! t = Some (due_of n (expires x))) ->
  exists b', add_all c l st = Some (set_base c b' st) /\ wheel (tl st) c lo n due X b' /\ b' = set_vec (vec b') b.
Proof.
  intros Hlo. induction l as [|t l IH]; intros st b Hb Hw Hnd Hl; cbn [add_all].
  { exists b. rewrite set_base_id by done. split; [done|]. split; [done|]. by destruct b. }
  destruct (Hl t ltac:(by constructor)) as (x & Hx & Hp & Hc & He & Hd). rewrite Hx, Hb. cbn [mbind option_bind].
  rewrite Hc, Z.eqb_refl. cbn [negb]. cbn [app] in Hnd, Hw. apply NoDup_cons in Hnd as [Hn Hnd].
  pose proof (wheel_add _ _ _ _ _ _ _ _ _ Hw Hn Hx Hp Hc He Hlo) as Hw1. rewrite insert_id in Hw1 by done.
  destruct (IH (set_base c (internal_add_timer b t (expires x)) st) (internal_add_timer b t (expires x))) as (b' & E & W & S).
  - cbn. apply lookup_insert_eq.
  - done.
  - done.
  - intros t' Ht'. apply Hl. by constructor.
  - exists b'. rewrite E, set_base_twice. split; [done|]. split; [done|]. rewrite S. by destruct b.
Qed.

(** What may not change: the tick, the running timer and the list in work. *)
Lemma INDEX_spec b n k : timer_jiffies b = u64 n -> 2 <= k <= 5 -> INDEX b (k - 2) = (n / unit k) mod 64.
Proof.
  intros Hn Hk. unfold INDEX. rewrite Hn. change TVN_MASK with (Z.ones 6). unfold TVR_BITS, TVN_BITS.
  rewrite digit_u64 by lia. done.
Qed.

Definition ranges (m : gmap ptr timer_list) : Prop := forall t x, m !! t = Some x -> 0 <= expires x < 2 ^ 64.

Lemma cascade_spec st c b n due k :
  bases st !! c = Some b -> wheel (tl st) c (turned k n) n due [] b -> ranges (tl st) -> 2 <= k <= 5 -> n mod unit k = 0 ->
  exists b', cascade c k (INDEX b (k - 2)) st = Some ((n / unit k) mod 64, set_base c b' st) /\
    wheel (tl st) c (turned (k + 1) n) n due [] b' /\ b' = set_vec (vec b') b.
Proof.
  intros Hb Hw Hr Hk Hn. unfold cascade. rewrite Hb. cbn [mbind option_bind].
  rewrite (INDEX_spec b n k (w_now _ _ _ _ _ _ _ Hw) Hk). set (i := (n / unit k) mod 64).
  pose proof (unit_pos k ltac:(lia)) as Hu. set (b1 := set_vec (<[(k, i) := []]> (vec b)) b).
  assert (forall j, slot b1 j = if decide ((k, i) = j) then [] else slot b j) as Es.
  { intros j. unfold b1. rewrite slot_set_vec_insert. done. }
  assert (wheel (tl st) c (turned (k + 1) n) n due (slot b (k, i) ++ []) b1) as Hw1.
  { pose proof Hw as [H1 H2 H3 H4 H5 H6 H7 H8 H9]. rewrite app_nil_r. constructor; try setoid_rewrite Es; cbn; try done.
    - intros [k' i'] t. case_decide as E; [by intros ?%not_elem_of_nil|]. intros Ht.
      destruct (H2 _ _ Ht) as (l & D & A1 & A2 & A3 & A4 & A5 & A6). exists l, D. do 5 (split; [done|]).
      destruct (decide (k' = 1)) as [->|Hne]; [destruct A6 as [A6|(? & _)]; [by left|cbn in *; lia]|].
      assert (2 <= k' <= 5) as Hk' by (destruct A6 as [(? & _)|(? & _)]; cbn in *; lia).
      apply (placed_turned (turned k n)); [done|done|]. intros P HP Hi' HP'. unfold turned in *.
      destruct (decide (k' = k)) as [->|Hkk].
      + replace (k <? k) with false in HP by lia. replace (k <? k + 1) with true by lia.
        destruct (decide (P / unit k * unit k = n)) as [Eq|]; [|lia]. destruct E. f_equal. subst i'. unfold i. rewrite <- Eq.
        rewrite Z.div_mul by lia. done.
      + replace (k' <? k + 1) with (k' <? k) by lia. done.
    - intros k1 k2 t. case_decide; [by intros ?%not_elem_of_nil|]. case_decide; [by intros _ ?%not_elem_of_nil|]. apply H3.
    - intros j. case_decide; [constructor|done].
    - intros t j Ht. case_decide; [apply not_elem_of_nil|]. by apply H7.
    - intros t Ht. split; [intros Hwk; by apply (H7 t (k, i))|]. intros j. case_decide as E; [apply not_elem_of_nil|].
      intros Hj. apply E. by apply (H3 _ _ t).
    - intros t l Hm Hp Hc Hx. destruct (H9 t l Hm Hp Hc) as [?|[j Hj]]; [apply not_elem_of_nil|by left|]. right. exists j.
      case_decide as E; [subst j; done|done]. }
  destruct (add_all_spec c (turned (k + 1) n) n due [] ltac:(intros j; unfold turned; case_if; lia) (slot b (k, i))
    (set_base c b1 st) b1) as (b' & E & W & S).
  - cbn. apply lookup_insert_eq.
  - done.
  - rewrite app_nil_r. apply Hw.
  - intros t Ht. destruct (w_slot _ _ _ _ _ _ _ Hw _ _ Ht) as (l & D & A1 & A2 & A3 & A4 & _ & A6). exists l.
    do 3 (split; [done|]). split; [by apply (Hr t)|]. rewrite A4. f_equal.
    apply (placed_now (turned k n) n D (expires l) k); [done| |done|done]. unfold turned. case_if; lia.
  - exists b'. rewrite E. cbn [mbind option_bind]. rewrite set_base_twice. split; [done|]. split; [done|]. rewrite S. by destruct b.
Qed.

(** A tick that starts no block of the vectors from [k] on. *)
Lemma wheel_no_start m c n due X b k :
  2 <= k -> n mod unit k <> 0 -> wheel m c (turned k n) n due X b -> wheel m c (turned 6 n) n due X b.
Proof.
  intros Hk Hn Hw. apply (wheel_lo _ _ _ _ _ _ _ _ Hw). intros j i t D e Ht Hj Hp.
  apply (placed_turned (turned k n)); [done|done|]. intros P HP _ _. unfold turned in *. replace (j <? 6) with true by lia.
  destruct (j <? k) eqn:E; zbool; [done|]. pose proof (unit_pos j ltac:(lia)). apply start_later; [done| |done].
  intros E0. apply Hn. assert (unit j = unit k * 2 ^ ((j - k) * 6)) as Eu.
  { unfold unit, TVR_BITS, TVN_BITS. rewrite <- Z.pow_add_r by lia. f_equal. lia. }
  apply Z.mod_divide; [pose proof (unit_pos k Hk); lia|]. apply Z.mod_divide in E0; [|lia]. rewrite Eu in E0.
  destruct E0 as [z ->]. exists (z * 2 ^ ((j - k) * 6)). lia.
Qed.

Lemma index_unit n k : 2 <= k -> n mod unit k = 0 -> (n / unit k) mod 64 = 0 <-> n mod unit (k + 1) = 0.
Proof.
  intros Hk Hn. rewrite unit_succ, Z.mul_comm, Z.rem_mul_r, Hn by (pose proof (unit_pos k Hk); lia).
  pose proof (unit_pos k Hk). pose proof (Z.mod_pos_bound (n / unit k) 64 ltac:(lia)). split; [intros ->; lia|nia].
Qed.

Lemma cascades_spec c n due : forall fuel st b k,
  bases st !! c = Some b -> wheel (tl st) c (turned k n) n due [] b -> ranges (tl st) -> 2 <= k <= 6 ->
  Z.of_nat fuel = 6 - k -> (k <= 5 -> n mod unit k = 0) ->
  exists b', cascades fuel c k st = Some (set_base c b' st) /\ wheel (tl st) c (turned 6 n) n due [] b' /\ b' = set_vec (vec b') b.
Proof.
  induction fuel as [|fuel IH]; intros st b k Hb Hw Hr Hk Hf Hn; cbn [cascades].
  { assert (k = 6) as -> by lia. exists b. rewrite set_base_id by done. split; [done|]. split; [done|]. by destruct b. }
  rewrite Hb. cbn [mbind option_bind]. specialize (Hn ltac:(lia)).
  destruct (cascade_spec st c b n due k Hb Hw Hr ltac:(lia) Hn) as (b1 & E & W & S). rewrite E. cbn [mbind option_bind].
  pose proof (index_unit n k ltac:(lia) Hn) as Hi. destruct ((n / unit k) mod 64 =? 0) eqn:E0; zbool.
  - destruct (IH (set_base c b1 st) b1 (k + 1)) as (b2 & E2 & W2 & S2);
      [cbn; apply lookup_insert_eq|done|done|lia|lia|intros; by apply Hi|].
    exists b2. rewrite E2, set_base_twice. split; [done|]. split; [done|]. rewrite S2, S. by destruct b.
  - exists b1. split; [done|]. split; [|done]. destruct (decide (k = 5)) as [->|]; [done|].
    apply (wheel_no_start _ _ _ _ _ _ (k + 1)); [lia| |done]. by rewrite <- Hi.
Qed.

(** The lists for the first part of a tick. *)
Lemma cascade_all_spec st c b n due :
  bases st !! c = Some b -> wheel (tl st) c (at_tick n) n due [] b -> ranges (tl st) ->
  exists b', (if Z.land (timer_jiffies b) TVR_MASK =? 0 then cascades 4 c 2 st else Some st) = Some (set_base c b' st) /\
    wheel (tl st) c (turned 6 n) n due [] b' /\ b' = set_vec (vec b') b.
Proof.
  intros Hb Hw Hr.
  assert (wheel (tl st) c (turned 2 n) n due [] b) as Hw2.
  { apply (wheel_lo _ _ _ _ _ _ _ _ Hw). intros k i t D e Ht Hk Hp. apply (placed_turned (at_tick n)); [done|done|].
    intros P HP _ _. unfold turned. by replace (k <? 2) with false by lia. }
  assert (Z.land (timer_jiffies b) TVR_MASK = n mod unit 2) as ->.
  { rewrite (w_now _ _ _ _ _ _ _ Hw). change TVR_MASK with (Z.ones 8). rewrite <- (Z.shiftr_0_r (u64 n)), digit_u64 by lia.
    by rewrite Z.pow_0_r, Z.div_1_r. }
  destruct (n mod unit 2 =? 0) eqn:E; zbool; [apply (cascades_spec c n due 4 st b 2); (done || lia)|].
  exists b. rewrite set_base_id by done. split; [done|]. split; [|by destruct b]. by apply (wheel_no_start _ _ _ _ _ _ 2).
Qed.

(** The tick advances and its list becomes the work list. *)
Lemma wheel_tick m c b n due :
  wheel m c (turned 6 n) n due [] b -> work_list b = [] ->
  let i := Z.land (timer_jiffies b) TVR_MASK in let b1 := set_timer_jiffies (u64 (timer_jiffies b + 1)) b in
  wheel m c (at_tick (n + 1)) (n + 1) due [] (set_work (slot b1 (1, i)) (set_vec (<[(1, i) := []]> (vec b1)) b1)).
Proof.
  intros Hw Hwork i b1. pose proof Hw as [H1 H2 H3 H4 H5 H6 H7 H8 H9].
  assert (i = n mod 256) as Ei.
  { unfold i. rewrite H1. change TVR_MASK with (Z.ones 8). rewrite <- (Z.shiftr_0_r (u64 n)), digit_u64 by lia.
    by rewrite Z.pow_0_r, Z.div_1_r. }
  set (b2 := set_work _ _). assert (forall j, slot b2 j = if decide ((1, i) = j) then [] else slot b j) as Es.
  { intros j. unfold slot, b2. cbn. case_decide as E; [subst; by rewrite lookup_insert_eq|by rewrite lookup_insert_ne]. }
  assert (work_list b2 = slot b (1, i)) as Ew by done.
  constructor; try setoid_rewrite Es; rewrite ?Ew.
  - cbn. rewrite H1. destruct (u64_cases n) as (k & E & _). apply (u64_eq _ _ k). lia.
  - intros [k j] t. case_decide as E; [by intros ?%not_elem_of_nil|]. intros Ht.
    destruct (H2 _ _ Ht) as (l & D & A1 & A2 & A3 & A4 & A5 & A6). exists l, D. do 4 (split; [done|]).
    destruct A6 as [(B1 & B2 & B3)|(B1 & B2 & B3 & P & B4 & B5 & B6)]; cbn [fst snd] in *.
    + assert (D <> n) as Hne by (intros ->; subst k j; by rewrite Ei in E).
      split; [destruct A5 as [?|[? _]]; [by left|done]|]. left. cbn [fst snd]. split; [done|]. split; [lia|done].
    + split; [by left|]. right. cbn [fst snd]. split; [done|]. split; [done|]. split; [lia|]. exists P. split; [done|]. split; [|done].
      unfold turned, at_tick in *. replace (k <? 6) with true in B5 by lia. lia.
  - intros k k' t. case_decide; [by intros ?%not_elem_of_nil|]. case_decide; [by intros _ ?%not_elem_of_nil|]. apply H3.
  - intros k. case_decide; [constructor|done].
  - intros t Ht. destruct (H2 _ _ Ht) as (l & D & A1 & A2 & A3 & A4 & A5 & A6). exists l. do 3 (split; [done|]).
    assert (D = n) as ->.
    { destruct A6 as [(B1 & B2 & B3)|(B1 & _)]; cbn [fst snd] in *; [|lia]. rewrite Ei in B3.
      pose proof (Z.div_mod D 256 ltac:(lia)). pose proof (Z.div_mod n 256 ltac:(lia)). lia. }
    replace (n + 1 - 1) with n by lia. done.
  - apply H4.
  - intros t k Ht. case_decide as E; [apply not_elem_of_nil|]. intros Hk. apply E. by apply (H3 _ _ t).
  - intros t []%not_elem_of_nil.
  - intros t l Hm Hp Hc Hx. destruct (H9 t l Hm Hp Hc Hx) as [Hin|[k Hk]]; [rewrite Hwork in Hin; by apply not_elem_of_nil in Hin|].
    destruct (decide ((1, i) = k)) as [<-|Hne]; [by left|]. right. exists k. by rewrite decide_False.
Qed.

(** ** Well-formed timers *)

(** [N]: the tick each wheel is at; [due]: when each timer is due. *)
Record timers_wf (st : timers) (N : gmap Z Z) (due : gmap ptr Z) : Prop := {
  tw_base c b : bases st !! c = Some b -> exists n, N !! c = Some n /\ wheel (tl st) c (at_tick n) n due [] b;
  tw_timer t l : tl st !! t = Some l -> is_Some (bases st !! base l) /\ 0 <= expires l < 2 ^ 64 /\
    (pending l = true -> function l <> None)
}.

(** Nothing but timer [t] has changed. *)
Record only (t : ptr) (st : timers) (due : gmap ptr Z) (st' : timers) (due' : gmap ptr Z) : Prop := {
  on_timer t' : t' <> t -> tl st' !! t' = tl st !! t';
  on_due t' : t' <> t -> due' !! t' = due !! t';
  on_calls : calls st' = calls st;
  on_dom : dom (bases st') = dom (bases st);
  on_base c b : bases st !! c = Some b ->
    exists b', bases st' !! c = Some b' /\ timer_jiffies b' = timer_jiffies b /\ (length (work_list b') <= length (work_list b))%nat
}.

(** [b'] is [b] but for the fields of the loops and of NO_HZ. *)
Definition same_lists (b b' : tvec_base) : Prop :=
  vec b' = vec b /\ work_list b' = work_list b /\ timer_jiffies b' = timer_jiffies b.

Lemma leave_next_lists l b : same_lists b (leave_next l b).
Proof. unfold leave_next. by case_if. Qed.

Lemma enter_next_lists l b : same_lists b (enter_next l b).
Proof. unfold enter_next. by case_if. Qed.

Lemma wheel_lists m c lo n due X b b' : same_lists b b' -> wheel m c lo n due X b -> wheel m c lo n due X b'.
Proof. intros (E1 & E2 & E3). by apply wheel_same. Qed.

Lemma only_refl t st due : only t st due st due.
Proof. constructor; try done. intros c b Hb. exists b. done. Qed.

Lemma only_trans t st due st1 due1 st2 due2 : only t st due st1 due1 -> only t st1 due1 st2 due2 -> only t st due st2 due2.
Proof.
  intros [A1 A2 A3 A5 A4] [B1 B2 B3 B5 B4]. constructor.
  - intros t' Ht. by rewrite B1, A1.
  - intros t' Ht. by rewrite B2, A2.
  - by rewrite B3.
  - by rewrite B5.
  - intros c b Hb. destruct (A4 c b Hb) as (b1 & Hb1 & E1 & L1). destruct (B4 c b1 Hb1) as (b2 & Hb2 & E2 & L2).
    exists b2. split; [done|]. split; [congruence|lia].
Qed.

(** A timer is taken off its list. *)
Lemma wf_stop st N due t l b b' :
  timers_wf st N due -> tl st !! t = Some l -> bases st !! base l = Some b -> same_lists (unlink t b) b' ->
  let st' := set_timer t (set_pending false l) (set_base (base l) b' st) in
  timers_wf st' N due /\ only t st due st' due.
Proof.
  intros W Ht Hb Hs st'. destruct (tw_timer _ _ _ W t l Ht) as (_ & He & _). split.
  - constructor.
    + intros c b0. cbn. intros Hc. destruct (decide (c = base l)) as [->|Hne].
      * rewrite lookup_insert_eq in Hc. injection Hc as <-. destruct (tw_base _ _ _ W _ _ Hb) as (n & Hn & Hw).
        exists n. split; [done|]. apply (wheel_lists _ _ _ _ _ _ (unlink t b)); [done|].
        apply (wheel_drop _ _ _ _ _ _ _ t).
        -- apply (wheel_other _ _ _ _ due); [by apply wheel_unlink| |by constructor|done].
           apply (w_off _ _ _ _ _ _ _ (wheel_unlink _ _ _ _ _ _ _ t Hw)). by constructor.
        -- intros l' E. rewrite lookup_insert_eq in E. by injection E as <-.
      * rewrite lookup_insert_ne in Hc by done. destruct (tw_base _ _ _ W _ _ Hc) as (n & Hn & Hw). exists n. split; [done|].
        apply (wheel_other _ _ _ _ due); [done| |done|done]. apply (wheel_foreign _ _ _ _ _ _ _ _ _ Hw Ht). right. by intros E; symmetry in E.
    + intros t' l'. cbn. intros Hl'. assert (is_Some (<[base l := b']> (bases st) !! base l)) as Hsome by (rewrite lookup_insert_eq; by eexists).
      destruct (decide (t' = t)) as [->|Hne].
      * rewrite lookup_insert_eq in Hl'. injection Hl' as <-. cbn. done.
      * rewrite lookup_insert_ne in Hl' by done. destruct (tw_timer _ _ _ W t' l' Hl') as (Hb' & ?). split; [|done].
        rewrite lookup_insert_is_Some'. by right.
  - constructor; try done.
    + intros t' Hne. cbn. by rewrite lookup_insert_ne.
    + cbn. apply dom_insert_lookup_L. by eexists.
    + intros c b0 Hc. cbn. destruct (decide (c = base l)) as [->|Hne].
      * rewrite lookup_insert_eq. exists b'. destruct Hs as (_ & Hwk & Htj). rewrite Hwk, Htj. rewrite Hb in Hc. injection Hc as <-.
        split; [done|]. split; [done|]. cbn. unfold list_del. apply length_filter.
      * rewrite lookup_insert_ne by done. by exists b0.
Qed.

(** A timer that is on no list is put on one. *)
Lemma wf_start st N due t l0 l c n b b' :
  timers_wf st N due -> tl st !! t = Some l0 -> pending l0 = false -> bases st !! c = Some b -> N !! c = Some n ->
  same_lists b b' -> pending l = true -> base l = c -> 0 <= expires l < 2 ^ 64 -> function l <> None ->
  let st' := set_timer t l (set_base c (internal_add_timer b' t (expires l)) st) in
  let due' := <[t := due_of n (expires l)]> due in
  timers_wf st' N due' /\ only t st due st' due'.
Proof.
  intros W Ht Hp0 Hb Hn Hs Hp Hc He Hfn st' due'. destruct (tw_base _ _ _ W _ _ Hb) as (n' & Hn' & Hw).
  rewrite Hn in Hn'. injection Hn' as <-. split.
  - constructor.
    + intros c0 b0. cbn. intros Hc0. destruct (decide (c0 = c)) as [->|Hne].
      * rewrite lookup_insert_eq in Hc0. injection Hc0 as <-. exists n. split; [done|].
        pose proof (wheel_foreign _ _ _ _ _ _ _ _ _ Hw Ht (or_introl Hp0)) as Hoff.
        apply (wheel_add _ _ _ _ _ _ _ _ l); [|apply not_elem_of_nil|apply lookup_insert_eq|done|done|done|unfold at_tick; lia].
        apply (wheel_other _ _ _ _ due); [|by destruct Hs as (Hv & Hk & _); unfold slot; rewrite Hv, Hk|by constructor|done].
        apply (wheel_lists _ _ _ _ _ _ b); [done|]. by apply wheel_take.
      * rewrite lookup_insert_ne in Hc0 by done. destruct (tw_base _ _ _ W _ _ Hc0) as (n' & Hn' & Hw'). exists n'. split; [done|].
        apply (wheel_other _ _ _ _ due); [done| | |].
        -- apply (wheel_foreign _ _ _ _ _ _ _ _ _ Hw' Ht). by left.
        -- intros _ E. congruence.
        -- intros t' Hne'. unfold due'. by rewrite lookup_insert_ne.
    + intros t' l'. cbn. intros Hl'. destruct (decide (t' = t)) as [->|Hne].
      * rewrite lookup_insert_eq in Hl'. injection Hl' as <-. rewrite Hc, lookup_insert_eq. split; [by eexists|done].
      * rewrite lookup_insert_ne in Hl' by done. destruct (tw_timer _ _ _ W t' l' Hl') as (Hb' & ?). split; [|done].
        rewrite lookup_insert_is_Some'. by right.
  - constructor; try done.
    + intros t' Hne. cbn. by rewrite lookup_insert_ne.
    + intros t' Hne. unfold due'. by rewrite lookup_insert_ne.
    + cbn. apply dom_insert_lookup_L. by eexists.
    + intros c0 b0 Hc0. cbn. destruct (decide (c0 = c)) as [->|Hne].
      * rewrite lookup_insert_eq. eexists. split; [done|]. destruct Hs as (_ & Hwk & Htj). cbn. rewrite Hwk, Htj.
        rewrite Hb in Hc0. by injection Hc0 as <-.
      * rewrite lookup_insert_ne by done. by exists b0.
Qed.

(** ** Operations *)

Lemma set_timer_over t l l0 c b st : set_timer t l (set_base c b (set_timer t l0 st)) = set_timer t l (set_base c b st).
Proof. unfold set_timer, set_base. cbn. by rewrite insert_insert_eq. Qed.

(** Timer [t] is started for [x], at tick [n] of its wheel. *)
Record started (t : ptr) (x : Z) (st : timers) (N : gmap Z Z) (due : gmap ptr Z) (l : timer_list) (st' : timers) : Prop := {
  sd_ex : exists l' n, tl st' !! t = Some l' /\ pending l' = true /\ expires l' = x /\ function l' = function l /\
    data l' = data l /\ N !! base l' = Some n /\ timers_wf st' N (<[t := due_of n x]> due) /\
    only t st due st' (<[t := due_of n x]> due)
}.

Lemma mod_common_spec e t x po pi st N due l :
  timers_wf st N due -> tl st !! t = Some l -> function l <> None -> 0 <= x < 2 ^ 64 -> is_Some (bases st !! target_cpu e pi) ->
  if negb (pending l) && po then mod_timer_common e t x po pi st = Some (0, st)
  else exists st', mod_timer_common e t x po pi st = Some (if pending l then 1 else 0, st') /\ started t x st N due l st'.
Proof.
  intros W Ht Hfn Hx [bt Hbt]. unfold mod_timer_common. rewrite Ht. cbn [mbind option_bind].
  rewrite bool_decide_eq_false_2 by done. destruct (negb (pending l) && po); [done|].
  destruct (tw_timer _ _ _ W t l Ht) as ([b Hb] & _ & _). rewrite Hb. cbn [mbind option_bind].
  set (b1 := if pending l then leave_next l (unlink t b) else b).
  set (l1 := if negb (base l =? target_cpu e pi) && _ then _ else l).
  assert (function l1 = function l /\ data l1 = data l /\ (base l1 = target_cpu e pi \/ base l1 = base l)) as (Hf1 & Hd1 & Hb1).
  { unfold l1. case_if; cbn; auto. }
  assert (exists st1 l0, timers_wf st1 N due /\ only t st due st1 due /\ tl st1 !! t = Some l0 /\ pending l0 = false /\
    bases st1 = bases (set_base (base l) b1 st) /\
    forall l' c b', set_timer t l' (set_base c b' (set_base (base l) b1 st)) = set_timer t l' (set_base c b' st1))
    as (st1 & l0 & W1 & O1 & Ht1 & Hp1 & Hbs & Hst).
  { unfold b1. destruct (pending l) eqn:Ep.
    - destruct (wf_stop st N due t l b (leave_next l (unlink t b)) W Ht Hb (leave_next_lists _ _)) as [W1 O1].
      exists (set_timer t (set_pending false l) (set_base (base l) (leave_next l (unlink t b)) st)), (set_pending false l).
      split; [done|]. split; [done|]. split; [apply lookup_insert_eq|]. split; [done|]. split; [done|].
      intros l' c b'. by rewrite set_timer_over.
    - exists st, l. rewrite set_base_id by done. split; [done|]. split; [apply only_refl|]. done. }
  assert (is_Some (bases st1 !! base l1)) as [b2 Hb2].
  { rewrite Hbs. cbn. rewrite lookup_insert_is_Some'. destruct Hb1 as [->| ->]; [right; by eexists|by left]. }
  assert (bases (set_base (base l) b1 st) !! base l1 = Some b2) as -> by (by rewrite <- Hbs).
  cbn [mbind option_bind]. eexists. split; [done|]. set (l' := set_pending true (set_expires x l1)). constructor.
  change (base l1) with (base l') in *. destruct (tw_base _ _ _ W1 _ _ Hb2) as (n & Hn & _).
  destruct (wf_start st1 N due t l0 l' (base l') n b2 (enter_next l' b2) W1 Ht1 Hp1 Hb2 Hn (enter_next_lists _ _))
    as [W2 O2]; [done|done|done|by cbn; rewrite Hf1|].
  exists l', n. rewrite Hst. cbn [expires l' set_pending set_expires] in W2, O2. split; [apply lookup_insert_eq|].
  do 4 (split; [done|]). split; [done|]. split; [exact W2|]. by apply (only_trans _ _ _ st1 due).
Qed.

Lemma ldiff_below a b : 0 <= a -> 0 <= Z.ldiff a b <= a.
Proof.
  intros Ha. apply Z.ldiff_le; [done|]. apply Z.bits_inj'. intros k Hk. rewrite !Z.ldiff_spec, Z.bits_0.
  by destruct (Z.testbit a k), (Z.testbit b k).
Qed.

Lemma apply_slack_range e l x : 0 <= x < 2 ^ 64 -> 0 <= apply_slack e l x < 2 ^ 64.
Proof.
  intros Hx. unfold apply_slack. set (lim := slack_limit e l x).
  assert (0 <= lim < 2 ^ 64) as Hlim by (unfold lim, slack_limit; repeat case_if; try done; apply wrapu_range; lia).
  case_if; [done|]. match goal with |- context [Z.ldiff lim ?m] => pose proof (ldiff_below lim m ltac:(lia)) end. lia.
Qed.

(** Stopping. *)
Lemma del_spec t st N due l :
  timers_wf st N due -> tl st !! t = Some l ->
  exists st', del_timer t st = Some (if pending l then 1 else 0, st') /\ timers_wf st' N due /\ only t st due st' due /\
    tl st' !! t = Some (set_pending false l).
Proof.
  intros W Ht. unfold del_timer, detach_timer. rewrite Ht. cbn [mbind option_bind]. destruct (pending l) eqn:Ep.
  2: { exists st. split; [done|]. split; [done|]. split; [apply only_refl|]. rewrite Ht. by destruct l; cbn in *; subst. }
  destruct (tw_timer _ _ _ W t l Ht) as ([b Hb] & _ & _). rewrite Hb. cbn [mbind option_bind bases set_timer set_base].
  rewrite lookup_insert_eq. cbn [mbind option_bind].
  destruct (wf_stop st N due t l b (leave_next l (unlink t b)) W Ht Hb (leave_next_lists _ _)) as [W1 O1].
  eexists. split; [done|].
  assert (set_base (base l) (leave_next l (unlink t b)) (set_timer t (set_pending false l) (set_base (base l) (unlink t b) st)) =
    set_timer t (set_pending false l) (set_base (base l) (leave_next l (unlink t b)) st)) as ->
    by (unfold set_timer, set_base; cbn; by rewrite insert_insert_eq).
  split; [done|]. split; [done|]. apply lookup_insert_eq.
Qed.

Lemma try_del_spec t st N due l :
  timers_wf st N due -> tl st !! t = Some l ->
  exists b, bases st !! base l = Some b /\
    (running_timer b = Some t /\ try_to_del_timer_sync t st = Some (-1, st) \/
     running_timer b <> Some t /\ try_to_del_timer_sync t st = del_timer t st).
Proof.
  intros W Ht. destruct (tw_timer _ _ _ W t l Ht) as ([b Hb] & _ & _). exists b. split; [done|].
  unfold try_to_del_timer_sync, del_timer. rewrite Ht. cbn [mbind option_bind]. rewrite Hb. cbn [mbind option_bind].
  case_bool_decide; [by left|by right].
Qed.

(** The timer an operation is about. *)
Definition op_timer (o : timer_op) : ptr :=
  match o with
  | OpInit _ t _ _ _ _ | OpSlack t _ | OpMod _ t _ | OpModPending _ t _ | OpModPinned _ t _ | OpAdd _ t | OpAddOn t _
  | OpDel t | OpTryDel t => t
  end.

(** A time is an [unsigned long], and the CPU the timer goes to has a wheel. *)
Definition op_ok (st : timers) (o : timer_op) : Prop :=
  match o with
  | OpInit _ _ _ _ _ x => 0 <= x < 2 ^ 64
  | OpMod e _ x | OpModPending e _ x => 0 <= x < 2 ^ 64 /\ is_Some (bases st !! target_cpu e false)
  | OpModPinned e _ x => 0 <= x < 2 ^ 64 /\ is_Some (bases st !! target_cpu e true)
  | OpAdd e _ => is_Some (bases st !! target_cpu e false)
  | _ => True
  end.

(** A timer on no list gets other fields. *)
Lemma wf_idle st N due t l :
  timers_wf st N due -> default false (pending <$> tl st !! t) = false -> pending l = false ->
  is_Some (bases st !! base l) -> 0 <= expires l < 2 ^ 64 ->
  timers_wf (set_timer t l st) N due /\ only t st due (set_timer t l st) due.
Proof.
  intros W Hp Hl Hb He. split; [|constructor; try done].
  - constructor.
    + intros c b Hc. destruct (tw_base _ _ _ W _ _ Hc) as (n & Hn & Hw). exists n. split; [done|].
      apply (wheel_other _ _ _ _ due); [done| |congruence|done]. destruct (tl st !! t) as [l0|] eqn:E.
      * apply (wheel_foreign _ _ _ _ _ _ _ _ _ Hw E). by left.
      * by apply (wheel_fresh _ _ _ _ _ _ _ _ Hw).
    + intros t' l'. cbn. intros Hl'. destruct (decide (t' = t)) as [->|Hne].
      * rewrite lookup_insert_eq in Hl'. injection Hl' as <-. split; [done|]. split; [done|]. congruence.
      * rewrite lookup_insert_ne in Hl' by done. by apply (tw_timer _ _ _ W t').
  - intros t' Hne. cbn. by rewrite lookup_insert_ne.
  - intros c b Hb'. by exists b.
Qed.

(** The slack of a timer does not matter to the lists. *)
Lemma wf_slack st N due t l s :
  timers_wf st N due -> tl st !! t = Some l ->
  timers_wf (set_timer t (set_slack s l) st) N due /\ only t st due (set_timer t (set_slack s l) st) due.
Proof.
  intros W Ht. assert (forall t' l', tl (set_timer t (set_slack s l) st) !! t' = Some l' ->
    exists l0, tl st !! t' = Some l0 /\ pending l' = pending l0 /\ expires l' = expires l0 /\ base l' = base l0 /\ function l' = function l0) as Hsame.
  { intros t' l'. cbn. intros Hl'. destruct (decide (t' = t)) as [->|Hne].
    - rewrite lookup_insert_eq in Hl'. injection Hl' as <-. by exists l.
    - rewrite lookup_insert_ne in Hl' by done. by exists l'. }
  assert (forall t' l0, tl st !! t' = Some l0 -> exists l', tl (set_timer t (set_slack s l) st) !! t' = Some l' /\
    pending l' = pending l0 /\ expires l' = expires l0 /\ base l' = base l0) as Hback.
  { intros t' l0 Hl0. cbn. destruct (decide (t' = t)) as [->|Hne].
    - rewrite lookup_insert_eq. rewrite Ht in Hl0. injection Hl0 as <-. by eexists.
    - rewrite lookup_insert_ne by done. by exists l0. }
  split; [|constructor; try done].
  - constructor.
    + intros c b Hc. destruct (tw_base _ _ _ W _ _ Hc) as (n & Hn & [H1 H2 H3 H4 H5 H6 H7 H8 H9]). exists n. split; [done|].
      constructor; try done.
      * intros k t' Hk. destruct (H2 _ _ Hk) as (l0 & D & A1 & A2 & A3 & A4 & A5 & A6).
        destruct (Hback _ _ A1) as (l' & B1 & B2 & B3 & B4). exists l', D. rewrite B2, B3, B4. done.
      * intros t' Hk. destruct (H5 _ Hk) as (l0 & A1 & A2 & A3 & A4 & A5).
        destruct (Hback _ _ A1) as (l' & B1 & B2 & B3 & B4). exists l'. rewrite B2, B3, B4. done.
      * intros t' l' Hl' Hp Hb Hx. destruct (Hsame _ _ Hl') as (l0 & A1 & A2 & A3 & A4 & _). apply (H9 t' l0); congruence.
    + intros t' l' Hl'. destruct (Hsame _ _ Hl') as (l0 & A1 & A2 & A3 & A4 & A5). rewrite A2, A3, A4, A5. by apply (tw_timer _ _ _ W t').
  - intros t' Hne. cbn. by rewrite lookup_insert_ne.
  - intros c b Hb'. by exists b.
Qed.

Lemma add_on_spec t cpu st N due st' :
  timers_wf st N due -> add_timer_on t cpu st = Some st' ->
  exists due', timers_wf st' N due' /\ only t st due st' due'.
Proof.
  intros W E. unfold add_timer_on in E. destruct (tl st !! t) as [l|] eqn:Ht; [|done]. cbn [mbind option_bind] in E.
  destruct (pending l || bool_decide (function l = None)) eqn:Ec; [done|]. zbool.
  destruct (bases st !! cpu) as [b|] eqn:Hb; [|done]. cbn [mbind option_bind] in E. injection E as <-.
  destruct (tw_base _ _ _ W _ _ Hb) as (n & Hn & _). destruct (tw_timer _ _ _ W t l Ht) as (_ & He & _).
  eexists. apply (wf_start st N due t l (set_pending true (timer_set_base cpu l)) cpu n b (enter_next (timer_set_base cpu l) b) W Ht);
    (done || apply enter_next_lists).
Qed.

Lemma started_wf t x st N due l st' : started t x st N due l st' -> exists due', timers_wf st' N due' /\ only t st due st' due'.
Proof. intros [(l' & n & _ & _ & _ & _ & _ & _ & W & O)]. by eexists. Qed.

Lemma mod_common_wf e t x po pi st N due r st' :
  timers_wf st N due -> 0 <= x < 2 ^ 64 -> is_Some (bases st !! target_cpu e pi) ->
  mod_timer_common e t x po pi st = Some (r, st') -> exists due', timers_wf st' N due' /\ only t st due st' due'.
Proof.
  intros W Hx Hb E. destruct (tl st !! t) as [l|] eqn:Ht; [|unfold mod_timer_common in E; by rewrite Ht in E].
  destruct (decide (function l = None)) as [Hf|Hf].
  { unfold mod_timer_common in E. rewrite Ht in E. cbn [mbind option_bind] in E. by rewrite bool_decide_eq_true_2 in E by done. }
  pose proof (mod_common_spec e t x po pi st N due l W Ht Hf Hx Hb) as S. destruct (negb (pending l) && po).
  - rewrite E in S. injection S as -> ->. exists due. split; [done|apply only_refl].
  - destruct S as (st1 & E1 & S). rewrite E in E1. injection E1 as -> ->. by apply (started_wf t x st N due l).
Qed.

Lemma mod_timer_wf e t x st N due r st' :
  timers_wf st N due -> 0 <= x < 2 ^ 64 -> is_Some (bases st !! target_cpu e false) ->
  mod_timer e t x st = Some (r, st') -> exists due', timers_wf st' N due' /\ only t st due st' due'.
Proof.
  intros W Hx Hb E. unfold mod_timer in E. destruct (tl st !! t) as [l|] eqn:Ht; [|done]. cbn [mbind option_bind] in E.
  case_if_in E; [injection E as _ <-; exists due; split; [done|apply only_refl]|].
  apply (mod_common_wf e t (apply_slack e l x) false false st N due r st'); [done|by apply apply_slack_range|done|done].
Qed.

Lemma run_op_spec o st N due st' :
  timers_wf st N due -> op_ok st o -> run_op o st = Some st' ->
  exists due', timers_wf st' N due' /\ only (op_timer o) st due st' due'.
Proof.
  intros W Hok E. destruct o as [cpu t defer fn d x|t s|e t x|e t x|e t x|e t|t cpu|t|t]; cbn [run_op op_ok op_timer] in *.
  - unfold init_timer in E. destruct (bases st !! cpu) as [b|] eqn:Hb; [|done]. cbn [mbind option_bind] in E.
    case_if_in E; [done|]. injection E as <-. exists due. by apply wf_idle.
  - unfold set_timer_slack in E. destruct (tl st !! t) as [l|] eqn:Ht; [|done]. injection E as <-. exists due. by apply wf_slack.
  - destruct (mod_timer e t x st) as [[r st1]|] eqn:E1; [|done]. injection E as <-. destruct Hok. by apply (mod_timer_wf e t x st N due r).
  - unfold mod_timer_pending in E. destruct (mod_timer_common _ _ _ _ _ _) as [[r st1]|] eqn:E1; [|done]. injection E as <-.
    destruct Hok. by apply (mod_common_wf e t x true false st N due r).
  - destruct (mod_timer_pinned e t x st) as [[r st1]|] eqn:E1; [|done]. injection E as <-. unfold mod_timer_pinned in E1.
    destruct (tl st !! t) as [l|] eqn:Ht; [|done]. cbn [mbind option_bind] in E1.
    case_if_in E1; [injection E1 as _ <-; exists due; split; [done|apply only_refl]|].
    destruct Hok. by apply (mod_common_wf e t x false true st N due r).
  - unfold add_timer in E. destruct (tl st !! t) as [l|] eqn:Ht; [|done]. cbn [mbind option_bind] in E. case_if_in E; [done|].
    destruct (mod_timer e t (expires l) st) as [[r st1]|] eqn:E1; [|done]. injection E as <-.
    apply (mod_timer_wf e t (expires l) st N due r); try done. by apply (tw_timer _ _ _ W t).
  - by apply (add_on_spec t cpu st N due).
  - destruct (tl st !! t) as [l|] eqn:Ht; [|unfold del_timer in E; by rewrite Ht in E].
    destruct (del_spec t st N due l W Ht) as (st1 & E1 & W1 & O1 & _). rewrite E1 in E. injection E as <-. by exists due.
  - destruct (tl st !! t) as [l|] eqn:Ht; [|unfold try_to_del_timer_sync in E; by rewrite Ht in E].
    destruct (try_del_spec t st N due l W Ht) as (b & _ & [[_ E1]|[_ E1]]); rewrite E1 in E.
    + injection E as <-. exists due. split; [done|apply only_refl].
    + destruct (del_spec t st N due l W Ht) as (st1 & E2 & W1 & O1 & _). rewrite E2 in E. injection E as <-. by exists due.
Qed.

(** ** Runs *)

(** What a sequence of operations leaves alone. *)
Record frame (P : ptr -> Prop) (st : timers) (due : gmap ptr Z) (st' : timers) (due' : gmap ptr Z) : Prop := {
  fr_timer t : P t -> tl st' !! t = tl st !! t;
  fr_due t : P t -> due' !! t = due !! t;
  fr_dom : dom (bases st') = dom (bases st);
  fr_base c b : bases st !! c = Some b ->
    exists b', bases st' !! c = Some b' /\ timer_jiffies b' = timer_jiffies b /\ (length (work_list b') <= length (work_list b))%nat
}.

Lemma frame_refl P st due : frame P st due st due.
Proof. constructor; try done. intros c b Hb. by exists b. Qed.

Lemma frame_trans P st due st1 due1 st2 due2 : frame P st due st1 due1 -> frame P st1 due1 st2 due2 -> frame P st due st2 due2.
Proof.
  intros [A1 A2 A3 A4] [B1 B2 B3 B4]. constructor.
  - intros t Ht. by rewrite B1, A1.
  - intros t Ht. by rewrite B2, A2.
  - by rewrite B3.
  - intros c b Hb. destruct (A4 c b Hb) as (b1 & Hb1 & E1 & L1). destruct (B4 c b1 Hb1) as (b2 & Hb2 & E2 & L2).
    exists b2. split; [done|]. split; [congruence|lia].
Qed.

Lemma only_frame (P : ptr -> Prop) t st due st' due' : only t st due st' due' -> ~ P t -> frame P st due st' due'.
Proof. intros [A1 A2 A3 A5 A4] HP. constructor; [| |done|done]; intros t' Ht'; [apply A1|apply A2]; by intros ->. Qed.

Lemma wf_log e st N due : timers_wf st N due -> timers_wf (log_call e st) N due.
Proof. intros [H1 H2]. by constructor. Qed.

(** Operations that meet no BUG_ON. *)
Fixpoint ops_ok (l : list timer_op) (st : timers) : Prop :=
  match l with
  | [] => True
  | o :: l => op_ok st o /\ match run_op o st with Some st' => ops_ok l st' | None => False end
  end.

Lemma run_ops_spec (P : ptr -> Prop) l : forall st N due,
  timers_wf st N due -> ops_ok l st -> Forall (fun o => ~ P (op_timer o)) l ->
  exists st' due', run_ops l st = Some st' /\ timers_wf st' N due' /\ frame P st due st' due' /\ calls st' = calls st.
Proof.
  induction l as [|o l IH]; intros st N due W Hok HP; cbn [run_ops].
  { exists st, due. split; [done|]. split; [done|]. split; [apply frame_refl|done]. }
  destruct Hok as [Ho Hl]. apply Forall_cons in HP as [HPo HPl]. destruct (run_op o st) as [st1|] eqn:E; [|done].
  destruct (run_op_spec o st N due st1 W Ho E) as (due1 & W1 & O1). cbn [mbind option_bind].
  destruct (IH st1 N due1 W1 Hl HPl) as (st2 & due2 & E2 & W2 & F2 & C2). exists st2, due2. split; [done|]. split; [done|].
  split; [apply (frame_trans _ _ _ st1 due1); [by apply (only_frame _ (op_timer o))|done]|]. by rewrite C2, (on_calls _ _ _ _ _ O1).
Qed.

(** The calls of timer [t]. *)
Definition calls_of (t : ptr) (l : list call) : list call := filter (fun e => call_timer e = t) l.

(** A call that does not come before the timer expires. *)
Definition not_early (e : call) : Prop := s64 (call_expires e - call_tick e) <= 0.

Section Handler.
Context (handler : Z -> Z -> timers -> list timer_op).

(** The functions of the timers meet no BUG_ON. *)
Definition handler_ok : Prop := forall e st N due,
  timers_wf st N due -> ops_ok (handler (call_fn e) (call_data e) st) (log_call e st).

(** No timer function, and nothing that runs meanwhile, touches the timers in [P]. *)
Definition leaves_alone (P : ptr -> Prop) : Prop := forall fn d st, Forall (fun o => ~ P (op_timer o)) (handler fn d st).

(** The first timer on the work list is called. *)
Lemma run_first (P : ptr -> Prop) c st N due b n t work :
  handler_ok -> leaves_alone P -> timers_wf st N due -> bases st !! c = Some b -> N !! c = Some n -> work_list b = t :: work ->
  exists l fn st' due' b',
    tl st !! t = Some l /\ function l = Some fn /\ pending l = true /\
    let e := Call t fn (data l) (expires l) (u64 (n - 1)) in
    (forall fuel, run_work handler (S fuel) c st = run_work handler fuel c st') /\
    timers_wf st' N due' /\ calls st' = calls st ++ [e] /\ not_early e /\
    bases st' !! c = Some b' /\ timer_jiffies b' = timer_jiffies b /\ (length (work_list b') <= length work)%nat /\
    (P t -> tl st' !! t = Some (set_pending false l)) /\ frame (fun t' => P t' /\ t' <> t) st due st' due'.
Proof.
  intros Hh HP W Hb Hn Hwork. destruct (tw_base _ _ _ W _ _ Hb) as (n' & Hn' & Hw). rewrite Hn in Hn'. injection Hn' as <-.
  destruct (w_work _ _ _ _ _ _ _ Hw t ltac:(rewrite Hwork; by constructor)) as (l & Hl & Hp & Hc & Hdue & He).
  destruct (tw_timer _ _ _ W t l Hl) as (_ & _ & Hfn). specialize (Hfn Hp). destruct (function l) as [fn|] eqn:Ef; [|done].
  set (b1 := unlink t (set_running_timer (Some t) b)). set (st1 := set_timer t (set_pending false l) (set_base c b1 st)).
  destruct (wf_stop st N due t l b b1) as [W1 O1]; [done|done|by rewrite Hc|done|]. rewrite Hc in W1, O1. fold st1 in W1, O1.
  set (e := Call t fn (data l) (expires l) (u64 (n - 1))).
  destruct (run_ops_spec P (handler fn (data l) st1) (log_call e st1) N due) as (st2 & due2 & E2 & W2 & F2 & C2);
    [by apply wf_log|by apply (Hh e st1 N due)|apply HP|].
  destruct (fr_base _ _ _ _ _ F2 c b1) as (b2 & Hb2 & Htj & Hlen); [cbn; apply lookup_insert_eq|].
  assert (list_del t (t :: work) = work) as Hdel.
  { pose proof (w_work_nodup _ _ _ _ _ _ _ Hw) as Hnd. rewrite Hwork in Hnd. apply NoDup_cons in Hnd as [Hnot _].
    apply (list_del_middle t [] work); [apply not_elem_of_nil|done]. }
  exists l, fn, st2, due2, b2. split; [done|]. split; [done|]. split; [done|]. split; [|split; [done|]; split; [|split; [|split; [done|]; split; [done|]; split; [|split]]]].
  - intros fuel. cbn [run_work]. rewrite Hb. cbn [mbind option_bind]. rewrite Hwork, Hl. cbn [mbind option_bind]. rewrite Ef.
    cbn [mbind option_bind]. unfold detach_timer. cbn [tl set_base bases]. rewrite Hl. cbn [mbind option_bind]. rewrite Hc, lookup_insert_eq.
    cbn [mbind option_bind]. fold b1. rewrite set_base_twice. fold st1. unfold call_timer_fn.
    assert (u64 (timer_jiffies b - 1) = u64 (n - 1)) as ->.
    { rewrite (w_now _ _ _ _ _ _ _ Hw). destruct (u64_cases n) as (k & Ek & _). apply (u64_eq _ _ k). lia. }
    fold e. cbn [call_fn call_data e]. by rewrite E2.
  - by rewrite C2.
  - unfold not_early, e. cbn. destruct (u64_cases (n - 1)) as (k & Ek & _). destruct He as [->|[_ He]]; [by rewrite Z.sub_diag|].
    rewrite (s64_eq _ (expires l - (n - 1)) (- k)) by lia. lia.
  - change (work_list b1) with (list_del t (work_list b)) in Hlen. by rewrite Hwork, Hdel in Hlen.
  - intros HPt. rewrite (fr_timer _ _ _ _ _ F2 t HPt). cbn. apply lookup_insert_eq.
  - constructor.
    + intros t' [HPt' Hne]. rewrite (fr_timer _ _ _ _ _ F2 t' HPt'). apply (on_timer _ _ _ _ _ O1 t' Hne).
    + intros t' [HPt' Hne]. by rewrite (fr_due _ _ _ _ _ F2 t' HPt').
    + rewrite (fr_dom _ _ _ _ _ F2). apply (on_dom _ _ _ _ _ O1).
    + intros c' b' Hb'. destruct (on_base _ _ _ _ _ O1 c' b' Hb') as (b3 & Hb3 & E3 & L3).
      destruct (fr_base _ _ _ _ _ F2 c' b3 Hb3) as (b4 & Hb4 & E4 & L4). exists b4. split; [done|]. split; [congruence|lia].
Qed.


(** The timers on the work list are those due at the tick before. *)
Lemma work_due m c n due b t :
  wheel m c (at_tick n) n due [] b ->
  t ∈ work_list b <-> exists l, m !! t = Some l /\ pending l = true /\ base l = c /\ due !! t = Some (n - 1).
Proof.
  intros Hw. split.
  - intros Ht. destruct (w_work _ _ _ _ _ _ _ Hw t Ht) as (l & H1 & H2 & H3 & H4 & _). by exists l.
  - intros (l & H1 & H2 & H3 & H4). destruct (w_all _ _ _ _ _ _ _ Hw t l H1 H2 H3) as [?|[k Hk]]; [apply not_elem_of_nil|done|].
    destruct (w_slot _ _ _ _ _ _ _ Hw k t Hk) as (l' & D & A1 & _ & _ & A4 & _ & A6). rewrite H4 in A4. injection A4 as <-.
    apply placed_due in A6; [lia|done].
Qed.

(** What a run does to a timer nobody touches: it is called once, with what it
    held, and is no longer pending; or nothing happens to it. *)
Definition called (t : ptr) (tick : Z) (st : timers) (cs : list call) (st' : timers) : Prop :=
  exists l fn, tl st !! t = Some l /\ function l = Some fn /\ pending l = true /\
    calls_of t cs = [Call t fn (data l) (expires l) tick] /\ tl st' !! t = Some (set_pending false l).

Definition untouched (t : ptr) (st : timers) (due : gmap ptr Z) (cs : list call) (st' : timers) (due' : gmap ptr Z) : Prop :=
  calls_of t cs = [] /\ tl st' !! t = tl st !! t /\ due' !! t = due !! t.

Context (P : ptr -> Prop).
Hypothesis Hh : handler_ok.
Hypothesis Halone : leaves_alone P.

(** No work list grows. *)
Definition shrinks (st st' : timers) : Prop := forall c b', bases st' !! c = Some b' ->
  exists b, bases st !! c = Some b /\ (length (work_list b') <= length (work_list b))%nat.

Lemma frame_shrinks Q st due st' due' : frame Q st due st' due' -> shrinks st st'.
Proof.
  intros [_ _ Hdom Hbase] c b' Hb'. assert (c ∈ dom (bases st)) as Hc by (rewrite <- Hdom; apply elem_of_dom; by eexists).
  apply elem_of_dom in Hc as [b Hb]. exists b. split; [done|]. destruct (Hbase c b Hb) as (b1 & E & _ & L). congruence.
Qed.

Lemma shrinks_trans st st1 st2 : shrinks st st1 -> shrinks st1 st2 -> shrinks st st2.
Proof.
  intros H1 H2 c b2 Hb2. destruct (H2 c b2 Hb2) as (b1 & Hb1 & L1). destruct (H1 c b1 Hb1) as (b & Hb & L). exists b. split; [done|lia].
Qed.

Lemma run_work_spec c N n : N !! c = Some n -> forall fuel st due b,
  timers_wf st N due -> bases st !! c = Some b -> (length (work_list b) < fuel)%nat ->
  exists st' due' b' cs, run_work handler fuel c st = Some st' /\ timers_wf st' N due' /\ bases st' !! c = Some b' /\
    timer_jiffies b' = timer_jiffies b /\ work_list b' = [] /\ calls st' = calls st ++ cs /\ Forall not_early cs /\ shrinks st st' /\
    (forall t0, P t0 -> (t0 ∈ work_list b -> called t0 (u64 (n - 1)) st cs st') /\
      (t0 ∉ work_list b -> untouched t0 st due cs st' due')).
Proof.
  intros Hn. induction fuel as [|fuel IH]; intros st due b W Hb Hf; [lia|].
  destruct (work_list b) as [|t work] eqn:Ework.
  { exists st, due, b, []. cbn [run_work]. rewrite Hb. cbn [mbind option_bind]. rewrite Ework, app_nil_r. do 7 (split; [done|]).
    split; [by apply (frame_shrinks P st due st due), frame_refl|]. intros t0 _. split; [by intros ?%not_elem_of_nil|done]. }
  destruct (run_first P c st N due b n t work Hh Halone W Hb Hn Ework)
    as (l & fn & st1 & due1 & b1 & Hl & Hfn & Hp & E & W1 & C1 & Hearly & Hb1 & Htj1 & Hlen & Ht & F1).
  rewrite E. destruct (IH st1 due1 b1 W1 Hb1 ltac:(cbn in Hf; lia)) as (st2 & due2 & b2 & cs & E2 & W2 & Hb2 & Htj2 & Hw2 & C2 & Hcs & Hsh & Hall).
  destruct (tw_base _ _ _ W _ _ Hb) as (n' & Hn' & Hw). rewrite Hn in Hn'. injection Hn' as <-.
  destruct (tw_base _ _ _ W1 _ _ Hb1) as (n' & Hn' & Hw1). rewrite Hn in Hn'. injection Hn' as <-.
  exists st2, due2, b2, (Call t fn (data l) (expires l) (u64 (n - 1)) :: cs). rewrite E2, C2, C1, <- app_assoc.
  split; [done|]. split; [done|]. split; [done|]. split; [congruence|]. split; [done|]. split; [done|]. split; [by constructor|].
  split; [apply (shrinks_trans _ st1); [by apply (frame_shrinks _ _ _ _ _ F1)|done]|].
  intros t0 HP0. destruct (Hall t0 HP0) as [In Out]. destruct (decide (t = t0)) as [->|Hne].
  - destruct Out as (O1 & O2 & O3).
    { specialize (Ht HP0). apply (wheel_foreign _ _ _ _ _ _ _ _ _ Hw1 Ht). by left. }
    split; [intros _|intros Hnot; destruct Hnot; constructor]. exists l, fn. split; [done|]. split; [done|]. split; [done|].
    split; [|by rewrite O2, (Ht HP0)]. unfold calls_of in *. rewrite filter_cons_True by done. by rewrite O1.
  - destruct F1 as [F1 F2 _]. specialize (F1 t0 (conj HP0 (not_eq_sym Hne))). specialize (F2 t0 (conj HP0 (not_eq_sym Hne))).
    assert (t0 ∈ work_list b1 <-> t0 ∈ t :: work) as Hiff.
    { rewrite <- Ework, (work_due _ _ _ _ _ _ Hw1), (work_due _ _ _ _ _ _ Hw), F1, F2. done. }
    assert (forall cs', calls_of t0 (Call t fn (data l) (expires l) (u64 (n - 1)) :: cs') = calls_of t0 cs') as Hskip.
    { intros cs'. unfold calls_of. by rewrite filter_cons_False. }
    split; intros H0; [apply Hiff, In in H0|rewrite <- Hiff in H0; apply Out in H0].
    + destruct H0 as (l0 & fn0 & A1 & A2 & A3 & A4 & A5). exists l0, fn0. rewrite Hskip, <- F1. done.
    + destruct H0 as (A1 & A2 & A3). unfold untouched. rewrite Hskip, A2, A3. done.
Qed.

(** Timer [t] is pending on the wheel of CPU [c], due at [D]. *)
Definition on_wheel (t : ptr) (c D : Z) (st : timers) (due : gmap ptr Z) : Prop :=
  exists l, tl st !! t = Some l /\ pending l = true /\ base l = c /\ due !! t = Some D.

Lemma calls_of_app t cs cs' : calls_of t (cs ++ cs') = calls_of t cs ++ calls_of t cs'.
Proof. apply filter_app. Qed.

Lemma called_then t tick st cs st1 due1 cs' st2 due2 :
  called t tick st cs st1 -> untouched t st1 due1 cs' st2 due2 -> called t tick st (cs ++ cs') st2.
Proof.
  intros (l & fn & A1 & A2 & A3 & A4 & A5) (B1 & B2 & _). exists l, fn. rewrite calls_of_app, A4, B1, B2. done.
Qed.

Lemma untouched_then_called t tick st due cs st1 due1 cs' st2 :
  untouched t st due cs st1 due1 -> called t tick st1 cs' st2 -> called t tick st (cs ++ cs') st2.
Proof.
  intros (B1 & B2 & _) (l & fn & A1 & A2 & A3 & A4 & A5). exists l, fn. rewrite calls_of_app, A4, B1, <- B2. done.
Qed.

Lemma untouched_then t st due cs st1 due1 cs' st2 due2 :
  untouched t st due cs st1 due1 -> untouched t st1 due1 cs' st2 due2 -> untouched t st due (cs ++ cs') st2 due2.
Proof. intros (A1 & A2 & A3) (B1 & B2 & B3). unfold untouched. rewrite calls_of_app, A1, B1, B2, B3. done. Qed.

Lemma on_wheel_untouched t c D st due cs st' due' :
  untouched t st due cs st' due' -> on_wheel t c D st' due' <-> on_wheel t c D st due.
Proof. intros (_ & E1 & E2). unfold on_wheel. by rewrite E1, E2. Qed.

Lemma called_off t tick st cs st' c D due : called t tick st cs st' -> ~ on_wheel t c D st' due.
Proof. intros (l & fn & _ & _ & _ & _ & E) (l' & E' & Hp & _). rewrite E in E'. injection E' as <-. done. Qed.

Lemma on_wheel_fun t c D D' st due : on_wheel t c D st due -> on_wheel t c D' st due -> D = D'.
Proof. intros (l & _ & _ & _ & E) (l' & _ & _ & _ & E'). congruence. Qed.

(** One tick: what is due now is called, the rest stays. *)
Lemma run_tick_spec c N n st due b :
  timers_wf st N due -> bases st !! c = Some b -> N !! c = Some n -> work_list b = [] ->
  exists st' due' b' cs, run_tick handler c st = Some st' /\ timers_wf st' (<[c := n + 1]> N) due' /\ bases st' !! c = Some b' /\
    work_list b' = [] /\ calls st' = calls st ++ cs /\ Forall not_early cs /\ shrinks st st' /\
    (forall t0, P t0 -> (on_wheel t0 c n st due -> called t0 (u64 n) st cs st') /\
      (~ on_wheel t0 c n st due -> untouched t0 st due cs st' due')).
Proof.
  intros W Hb Hn Hwork. destruct (tw_base _ _ _ W _ _ Hb) as (n' & Hn' & Hw). rewrite Hn in Hn'. injection Hn' as <-.
  assert (ranges (tl st)) as Hr by (intros t x Hx; by apply (tw_timer _ _ _ W t)).
  destruct (cascade_all_spec st c b n due Hb Hw Hr) as (b1 & E1 & W1 & S1). unfold run_tick. rewrite Hb. cbn [mbind option_bind].
  rewrite E1. cbn [mbind option_bind bases set_base]. rewrite lookup_insert_eq. cbn [mbind option_bind].
  assert (timer_jiffies b1 = timer_jiffies b /\ work_list b1 = []) as [Htj Hwk] by (rewrite S1; by destruct b).
  rewrite <- Htj. pose proof (wheel_tick (tl st) c b1 n due W1 Hwk) as W2. cbn zeta in W2.
  set (b2 := set_work _ _) in *. rewrite set_base_twice.
  assert (timers_wf (set_base c b2 st) (<[c := n + 1]> N) due) as W3.
  { constructor.
    - intros c' b' Hb'. cbn in Hb'. destruct (decide (c' = c)) as [->|Hne].
      + rewrite lookup_insert_eq in Hb'. injection Hb' as <-. exists (n + 1). by rewrite lookup_insert_eq.
      + rewrite lookup_insert_ne in Hb' by done. destruct (tw_base _ _ _ W _ _ Hb') as (n' & Hn' & Hw'). exists n'.
        by rewrite lookup_insert_ne.
    - intros t l Hl. destruct (tw_timer _ _ _ W t l Hl) as (Hs & ?). split; [|done]. cbn. rewrite lookup_insert_is_Some'. by right. }
  destruct (run_work_spec c (<[c := n + 1]> N) (n + 1) ltac:(apply lookup_insert_eq) (S (length (work_list b2))) (set_base c b2 st) due b2 W3)
    as (st' & due' & b' & cs & E & W' & Hb' & _ & Hw' & C & Hcs & Hsh & Hall); [cbn; apply lookup_insert_eq|lia|].
  exists st', due', b', cs. split; [done|]. do 5 (split; [done|]). replace (n + 1 - 1) with n in Hall by lia.
  split.
  { intros c' b0 Hb0. destruct (decide (c' = c)) as [->|Hne].
    - exists b. split; [done|]. rewrite Hb' in Hb0. injection Hb0 as <-. rewrite Hw'. cbn. lia.
    - destruct (Hsh c' b0 Hb0) as (b3 & Hb3 & L). cbn in Hb3. rewrite lookup_insert_ne in Hb3 by done. by exists b3. }
  intros t0 HP0. destruct (Hall t0 HP0) as [In Out].
  assert (t0 ∈ work_list b2 <-> on_wheel t0 c n st due) as Hiff.
  { unfold on_wheel. rewrite (work_due _ _ _ _ _ _ W2). by replace (n + 1 - 1) with n by lia. }
  split; intros H; [by apply In, Hiff|]. apply Out. by rewrite Hiff.
Qed.


Section Clock.
Context (c : Z) (clock : nat -> Z) (z : nat -> Z) (last : Z).
Hypothesis Hclock : forall k, clock k = u64 (z k).
Hypothesis Hmono : forall k, z k <= z (S k).
Hypothesis Hlast : forall k, z k <= last.

Lemma clock_test k n b : timer_jiffies b = u64 n -> n - z k <= 2 ^ 63 -> last - n < 2 ^ 63 ->
  time_after_eq (clock k) (timer_jiffies b) = (n <=? z k).
Proof.
  intros Htj H1 H2. unfold time_after_eq. rewrite Htj, Hclock. specialize (Hlast k).
  destruct (u64_cases (z k)) as (k1 & E1 & _). destruct (u64_cases n) as (k2 & E2 & _).
  rewrite (s64_eq _ (z k - n) (k1 - k2)) by lia. rewrite s64_small by lia. lia.
Qed.

Lemma run_loop_spec : forall fuel k N n st due b,
  timers_wf st N due -> bases st !! c = Some b -> N !! c = Some n -> work_list b = [] ->
  n - z k <= 2 ^ 63 -> last - n < 2 ^ 63 -> Z.max 0 (last + 1 - n) < Z.of_nat fuel ->
  exists st' due' b' cs n', run_timers_loop handler fuel clock k c st = Some st' /\ timers_wf st' (<[c := n']> N) due' /\
    bases st' !! c = Some b' /\ work_list b' = [] /\ running_timer b' = None /\ calls st' = calls st ++ cs /\
    Forall not_early cs /\ n <= n' /\ z k < n' /\ shrinks st st' /\
    (forall t0, P t0 -> (forall D, on_wheel t0 c D st due -> D < n' -> called t0 (u64 D) st cs st') /\
      ((forall D, on_wheel t0 c D st due -> n' <= D) -> untouched t0 st due cs st' due')).
Proof.
  induction fuel as [|fuel IH]; intros k N n st due b W Hb Hn Hwork H1 H2 Hf; [lia|]. cbn [run_timers_loop].
  rewrite Hb. cbn [mbind option_bind]. destruct (tw_base _ _ _ W _ _ Hb) as (n' & Hn' & Hw). rewrite Hn in Hn'. injection Hn' as <-.
  rewrite (clock_test k n b) by (done || apply Hw). destruct (n <=? z k) eqn:E; zbool.
  - destruct (run_tick_spec c N n st due b W Hb Hn Hwork) as (st1 & due1 & b1 & cs1 & E1 & W1 & Hb1 & Hwk1 & C1 & Hcs1 & Hsh1 & Hall1).
    rewrite E1. cbn [mbind option_bind].
    destruct (IH (S k) (<[c := n + 1]> N) (n + 1) st1 due1 b1) as (st2 & due2 & b2 & cs2 & n2 & E2 & W2 & Hb2 & Hwk2 & Hr2 & C2 & Hcs2 & L2 & Z2 & Hsh2 & Hall2);
      [done|done|apply lookup_insert_eq|done|specialize (Hmono k); lia|lia|specialize (Hlast k); lia|].
    exists st2, due2, b2, (cs1 ++ cs2), n2. rewrite insert_insert_eq in W2. split; [done|]. split; [done|]. split; [done|]. split; [done|].
    split; [done|]. split; [by rewrite C2, C1, app_assoc|]. split; [by apply Forall_app|]. split; [lia|].
    split; [specialize (Hmono k); lia|]. split; [by apply (shrinks_trans _ st1)|].
    intros t0 HP0. destruct (Hall1 t0 HP0) as [In Out]. destruct (Hall2 t0 HP0) as [In2 Out2]. split.
    + intros D HD Hlt. destruct (decide (D = n)) as [->|Hne].
      * specialize (In HD). apply (called_then _ _ _ _ st1 due1 _ _ due2); [done|]. apply Out2. intros D' HD'.
        by destruct (called_off _ _ _ _ _ c D' due1 In).
      * assert (untouched t0 st due cs1 st1 due1) as Hu. { apply Out. intros Hx. apply Hne. by apply (on_wheel_fun t0 c D n st due). }
        apply (untouched_then_called _ _ _ due _ st1 due1); [done|]. apply In2; [|done].
        by apply (on_wheel_untouched _ _ _ _ _ _ _ _ Hu).
    + intros Hall. assert (untouched t0 st due cs1 st1 due1) as Hu. { apply Out. intros Hx. specialize (Hall n Hx). lia. }
      apply (untouched_then _ _ _ _ st1 due1); [done|]. apply Out2. intros D HD. apply Hall.
      by apply (on_wheel_untouched _ _ _ _ _ _ _ _ Hu).
  - exists (set_base c (set_running_timer None b) st), due, (set_running_timer None b), [], n.
    rewrite insert_id by done. split; [done|]. split; [|split; [cbn; apply lookup_insert_eq|]; split; [done|]; split; [done|]; split; [by rewrite app_nil_r|];
      split; [done|]; split; [lia|]; split; [lia|]; split; [|intros t0 _; split]].
    + constructor.
      * intros c' b' Hb'. cbn in Hb'. destruct (decide (c' = c)) as [->|Hne].
        -- rewrite lookup_insert_eq in Hb'. injection Hb' as <-. exists n. split; [done|]. by apply (wheel_same _ _ _ _ _ _ b).
        -- rewrite lookup_insert_ne in Hb' by done. by apply (tw_base _ _ _ W).
      * intros t l Hl. destruct (tw_timer _ _ _ W t l Hl) as (Hs & ?). split; [|done]. cbn. rewrite lookup_insert_is_Some'. by right.
    + intros c' b' Hb'. cbn in Hb'. destruct (decide (c' = c)) as [->|Hne].
      * rewrite lookup_insert_eq in Hb'. injection Hb' as <-. by exists b.
      * rewrite lookup_insert_ne in Hb' by done. by exists b'.
    + intros D (l & Hl & Hp & Hc & Hd) Hlt. exfalso.
      destruct (w_all _ _ _ _ _ _ _ Hw t0 l Hl Hp Hc) as [Hin|[j Hj]]; [apply not_elem_of_nil|rewrite Hwork in Hin; by apply not_elem_of_nil in Hin|].
      destruct (w_slot _ _ _ _ _ _ _ Hw j t0 Hj) as (l' & D' & _ & _ & _ & A4 & _ & A6). rewrite Hd in A4. injection A4 as <-.
      apply placed_due in A6; [lia|done].
    + intros _. done.
Qed.
End Clock.
End Handler.

(** ** CPUs coming and going *)

(** The lists of wheel [c] have lost the timers in [l]. *)
Definition lost (c : Z) (l : list ptr) (st st' : timers) : Prop :=
  forall b', bases st' !! c = Some b' -> exists b, bases st !! c = Some b /\
    forall k t, t ∈ slot b' k -> t ∈ slot b k /\ (t ∉ l).

Lemma migrate_one old new t x b bn st N due :
  timers_wf st N due -> old <> new -> tl st !! t = Some x -> pending x = true -> base x = old ->
  bases st !! old = Some b -> bases st !! new = Some bn ->
  let x' := timer_set_base new x in
  let st' := set_timer t x' (set_base new (internal_add_timer (enter_next x' bn) t (expires x')) (set_base old (unlink t b) st)) in
  exists due', timers_wf st' N due' /\ only t st due st' due' /\ lost old [t] st st'.
Proof.
  intros W Hne Hx Hp <- Hb Hbn x' st'. destruct (wf_stop st N due t x b (unlink t b) W Hx Hb) as [W1 O1]; [done|].
  set (st1 := set_timer t (set_pending false x) (set_base (base x) (unlink t b) st)) in *.
  destruct (tw_timer _ _ _ W t x Hx) as (_ & He & Hfn). destruct (tw_base _ _ _ W _ _ Hbn) as (n & Hn & _).
  destruct (wf_start st1 N due t (set_pending false x) x' new n bn (enter_next x' bn) W1) as [W2 O2];
    [apply lookup_insert_eq|done|cbn; by rewrite lookup_insert_ne|done|apply enter_next_lists|done|done|done|by apply Hfn|].
  eexists. assert (st' = set_timer t x' (set_base new (internal_add_timer (enter_next x' bn) t (expires x')) st1)) as ->
    by (unfold st1; by rewrite set_timer_over).
  split; [done|]. split; [by apply (only_trans _ _ _ st1 due)|].
  intros b' Hb'. cbn in Hb'. rewrite lookup_insert_ne, lookup_insert_eq in Hb' by done. injection Hb' as <-.
  exists b. split; [done|]. intros k t'. rewrite slot_unlink, elem_of_list_del, list_elem_of_singleton. done.
Qed.

Lemma migrate_list_spec old new N : old <> new -> forall l st due,
  timers_wf st N due -> is_Some (bases st !! new) -> NoDup l ->
  (forall t, t ∈ l -> exists x, tl st !! t = Some x /\ pending x = true /\ base x = old) ->
  exists st' due', migrate_list new l st = Some st' /\ timers_wf st' N due' /\
    frame (fun t => t ∉ l) st due st' due' /\ calls st' = calls st /\ lost old l st st'.
Proof.
  intros Hne. induction l as [|t l IH]; intros st due W [bn Hbn] Hnd Hl; cbn [migrate_list].
  { exists st, due. split; [done|]. split; [done|]. split; [apply frame_refl|]. split; [done|].
    intros b' Hb'. exists b'. split; [done|]. intros k t Ht. split; [done|apply not_elem_of_nil]. }
  apply NoDup_cons in Hnd as [Hnot Hnd]. destruct (Hl t ltac:(by constructor)) as (x & Hx & Hp & Hc).
  destruct (tw_timer _ _ _ W t x Hx) as ([b Hb] & _ & _). rewrite Hc in Hb.
  destruct (migrate_one old new t x b bn st N due W Hne Hx Hp Hc Hb Hbn) as (due1 & W1 & O1 & L1).
  unfold detach_timer. rewrite Hx. cbn [mbind option_bind]. rewrite Hc, Hb. cbn [mbind option_bind tl set_base]. rewrite Hx.
  cbn [mbind option_bind bases set_base]. rewrite lookup_insert_ne, Hbn by done. cbn [mbind option_bind].
  set (st1 := set_timer t _ _) in *.
  destruct (IH st1 due1) as (st2 & due2 & E2 & W2 & F2 & C2 & L2).
  - done.
  - cbn. rewrite lookup_insert_is_Some'. by left.
  - done.
  - intros t' Ht'. destruct (Hl t' ltac:(by constructor)) as (y & ?). exists y. rewrite (on_timer _ _ _ _ _ O1); [done|]. by intros ->.
  - exists st2, due2. split; [done|]. split; [done|]. split; [|split].
    + apply (frame_trans _ _ _ st1 due1); [apply (only_frame _ t); [done|]; intros Hx'; apply Hx'; by constructor|].
      destruct F2 as [F1 F2 F3 F4]. constructor; [..|done|done]; intros t' Ht'; apply not_elem_of_cons in Ht' as [_ Ht']; auto.
    + by rewrite C2, (on_calls _ _ _ _ _ O1).
    + intros b2 Hb2. destruct (L2 b2 Hb2) as (b1 & Hb1 & S1). destruct (L1 b1 Hb1) as (b0 & Hb0 & S0). exists b0. split; [done|].
      intros k t' Ht'. destruct (S1 k t' Ht') as [A1 A2]. destruct (S0 k t' A1) as [B1 B2]. split; [done|].
      apply not_elem_of_cons. split; [|done]. intros ->. apply B2. by constructor.
Qed.

Lemma migrate_lists_spec old new N : old <> new -> forall ks st due b,
  timers_wf st N due -> is_Some (bases st !! new) -> bases st !! old = Some b ->
  exists st' due' b', migrate_lists old new ks st = Some st' /\ timers_wf st' N due' /\ calls st' = calls st /\ shrinks st st' /\
    bases st' !! old = Some b' /\ forall k t, t ∈ slot b' k -> t ∈ slot b k /\ k ∉ ks.
Proof.
  intros Hne. induction ks as [|k ks IH]; intros st due b W Hnew Hb; cbn [migrate_lists].
  { exists st, due, b. split; [done|]. split; [done|]. split; [done|].
    split; [apply (frame_shrinks (fun _ => True) st due st due), frame_refl|]. split; [done|].
    intros k t Ht. split; [done|apply not_elem_of_nil]. }
  rewrite Hb. cbn [mbind option_bind]. destruct (tw_base _ _ _ W _ _ Hb) as (n & Hn & Hw).
  destruct (migrate_list_spec old new N Hne (slot b k) st due W Hnew) as (st1 & due1 & E1 & W1 & F1 & C1 & L1).
  - apply Hw.
  - intros t Ht. destruct (w_slot _ _ _ _ _ _ _ Hw _ _ Ht) as (x & D & A1 & A2 & A3 & _). by exists x.
  - rewrite E1. cbn [mbind option_bind]. destruct (fr_base _ _ _ _ _ F1 old b Hb) as (b1 & Hb1 & _).
    destruct (IH st1 due1 b1 W1) as (st2 & due2 & b2 & E2 & W2 & C2 & S2 & Hb2 & L2); [|done|].
    { destruct Hnew as [bn Hbn]. destruct (fr_base _ _ _ _ _ F1 new bn Hbn) as (bn1 & ? & _). by exists bn1. }
    exists st2, due2, b2. split; [done|]. split; [done|]. split; [by rewrite C2|].
    split; [apply (shrinks_trans _ st1); [by apply (frame_shrinks _ _ _ _ _ F1)|done]|]. split; [done|].
    intros k' t Ht. destruct (L2 k' t Ht) as [A1 A2]. destruct (L1 b1 Hb1) as (b0 & Hb0 & L0). rewrite Hb in Hb0. injection Hb0 as <-.
    destruct (L0 k' t A1) as [B1 B2]. split; [done|]. apply not_elem_of_cons. split; [|done]. by intros ->.
Qed.

Lemma placed_listed lo n D e p : placed lo n D e p -> p ∈ all_lists.
Proof.
  destruct p as [k i]. intros [(H1 & _ & H3)|(H1 & _ & _ & P & H3 & _)]; cbn [fst snd] in *; unfold all_lists; rewrite elem_of_app.
  - left. apply list_elem_of_fmap. exists i. split; [by rewrite H1|]. apply elem_of_seqZ. change TVR_SIZE with 256.
    pose proof (Z.mod_pos_bound D 256 ltac:(lia)). lia.
  - right. apply list_elem_of_bind. exists i. split.
    + assert (k = 2 \/ k = 3 \/ k = 4 \/ k = 5) as [->|[->|[->| ->]]] by lia; set_solver +.
    + apply elem_of_seqZ. change TVN_SIZE with 64. pose proof (Z.mod_pos_bound (P / unit k) 64 ltac:(lia)). lia.
Qed.

(** All timers of a wheel move to another one. *)
Lemma migrate_spec old new st N due b :
  timers_wf st N due -> old <> new -> is_Some (bases st !! new) -> bases st !! old = Some b -> running_timer b = None ->
  exists st' due' b', migrate_timers old new st = Some st' /\ timers_wf st' N due' /\ calls st' = calls st /\ shrinks st st' /\
    bases st' !! old = Some b' /\ forall k, slot b' k = [].
Proof.
  intros W Hne Hnew Hb Hr. unfold migrate_timers. rewrite Hb. cbn [mbind option_bind]. rewrite bool_decide_eq_true_2 by done.
  destruct (migrate_lists_spec old new N Hne all_lists st due b W Hnew Hb) as (st' & due' & b' & E & W' & C & S & Hb' & L).
  exists st', due', b'. do 5 (split; [done|]). intros k. destruct (slot b' k) as [|t l] eqn:El; [done|]. exfalso.
  destruct (L k t) as [_ Hk]; [rewrite El; by constructor|]. destruct (tw_base _ _ _ W' _ _ Hb') as (n & _ & Hw).
  destruct (w_slot _ _ _ _ _ _ _ Hw k t) as (x & D & _ & _ & _ & _ & _ & Hp); [rewrite El; by constructor|].
  apply Hk. by apply placed_listed in Hp.
Qed.

(** ** Reachable states *)

Inductive timers_reach : timers -> Prop :=
| tr_boot : timers_reach {| tl := ∅; bases := ∅; calls := [] |}
| tr_cpu st cpu now mem :
    timers_reach st -> 0 <= now < 2 ^ 64 -> (forall t l, tl st !! t = Some l -> pending l = true -> base l <> cpu) ->
    timers_reach (init_timers_cpu cpu now mem st).2
| tr_op o st st' : timers_reach st -> op_ok st o -> run_op o st = Some st' -> timers_reach st'
| tr_run handler fuel clock c st st' :
    timers_reach st -> handler_ok handler -> run_timer_softirq handler fuel clock c st = Some st' -> timers_reach st'
| tr_migrate old new st st' :
    timers_reach st -> old <> new -> is_Some (bases st !! new) -> migrate_timers old new st = Some st' -> timers_reach st'.

(** Nothing is being run. *)
Definition idle (st : timers) : Prop := forall c b, bases st !! c = Some b -> work_list b = [].

Lemma shrinks_idle st st' : shrinks st st' -> idle st -> idle st'.
Proof.
  intros Hs Hi c b' Hb'. destruct (Hs c b' Hb') as (b & Hb & L). rewrite (Hi c b Hb) in L. destruct (work_list b'); [done|cbn in L; lia].
Qed.

Definition good (st : timers) : Prop := (exists N due, timers_wf st N due) /\ idle st /\ Forall not_early (calls st).

Lemma good_base st c b b' : good st -> bases st !! c = Some b -> same_lists b b' -> good (set_base c b' st).
Proof.
  intros ((N & due & W) & Hi & Hc) Hb Hs. destruct (tw_base _ _ _ W _ _ Hb) as (n & Hn & Hw). split; [|split; [|done]].
  - exists N, due. constructor.
    + intros c' b0 Hb'. cbn in Hb'. destruct (decide (c' = c)) as [->|Hne].
      * rewrite lookup_insert_eq in Hb'. injection Hb' as <-. exists n. split; [done|]. by apply (wheel_lists _ _ _ _ _ _ b).
      * rewrite lookup_insert_ne in Hb' by done. by apply (tw_base _ _ _ W).
    + intros t l Hl. destruct (tw_timer _ _ _ W t l Hl) as (Hsome & ?). split; [|done]. cbn. rewrite lookup_insert_is_Some'. by right.
  - intros c' b0 Hb'. cbn in Hb'. destruct (decide (c' = c)) as [->|Hne].
    + rewrite lookup_insert_eq in Hb'. injection Hb' as <-. destruct Hs as (_ & -> & _). apply (Hi c b Hb).
    + rewrite lookup_insert_ne in Hb' by done. by apply (Hi c' b0).
Qed.

Lemma run_loop_good handler c clock : handler_ok handler -> forall fuel k st st',
  good st -> run_timers_loop handler fuel clock k c st = Some st' -> good st'.
Proof.
  intros Hh. induction fuel as [|fuel IH]; intros k st st' ((N & due & W) & Hi & Hc) E; [done|]. cbn [run_timers_loop] in E.
  destruct (bases st !! c) as [b|] eqn:Hb; [|done]. cbn [mbind option_bind] in E.
  destruct (tw_base _ _ _ W _ _ Hb) as (n & Hn & Hw). case_if_in E.
  - destruct (run_tick_spec handler (fun _ => False) Hh ltac:(intros fn d s; apply Forall_true; auto) c N n st due b W Hb Hn (Hi c b Hb))
      as (st1 & due1 & b1 & cs & E1 & W1 & _ & _ & C1 & Hcs & Hsh & _).
    rewrite E1 in E. apply (IH (S k) st1); [|done]. split; [by eexists _, _|]. split; [by apply (shrinks_idle st)|].
    rewrite C1. by apply Forall_app.
  - injection E as <-. apply (good_base st c b); [split; [by exists N, due|done]|done|done].
Qed.

(** A wheel with no timers. *)
Lemma wheel_empty m c n due b :
  timer_jiffies b = u64 n -> vec b = ∅ -> work_list b = [] -> (forall t l, m !! t = Some l -> pending l = true -> base l <> c) ->
  wheel m c (at_tick n) n due [] b.
Proof.
  intros Hn Hv Hk Hm. assert (forall k, slot b k = []) as Hs by (intros k; unfold slot; by rewrite Hv, lookup_empty).
  constructor; try setoid_rewrite Hs; rewrite ?Hk; try done.
  - intros k t []%not_elem_of_nil.
  - intros k k' t []%not_elem_of_nil.
  - intros k. constructor.
  - intros t []%not_elem_of_nil.
  - constructor.
  - intros t k []%not_elem_of_nil.
  - intros t []%not_elem_of_nil.
  - intros t l Hl Hp Hb. by destruct (Hm t l Hl Hp).
Qed.

Lemma good_boot : good {| tl := ∅; bases := ∅; calls := [] |}.
Proof.
  split; [|split; [|done]].
  - exists ∅, ∅. constructor; [intros c b|intros t l]; cbn; by rewrite lookup_empty.
  - intros c b. cbn. by rewrite lookup_empty.
Qed.

(** A CPU that cannot come up changes nothing; one that does has empty vectors. *)
Lemma init_timers_eq cpu now mem st :
  (init_timers_cpu cpu now mem st).2 = st \/
  exists b, (init_timers_cpu cpu now mem st).2 = set_base cpu b st /\ vec b = ∅ /\ timer_jiffies b = now /\ next_timer b = now /\
    ((bases st !! cpu = None /\ running_timer b = None /\ work_list b = []) \/
     exists b0, bases st !! cpu = Some b0 /\ running_timer b = running_timer b0 /\ work_list b = work_list b0).
Proof.
  unfold init_timers_cpu. destruct (bases st !! cpu) as [b0|]; [right|destruct mem; [right|by left]]; eexists; split_and!; try done;
    [right; by exists b0|by left].
Qed.

Lemma good_cpu st cpu now mem :
  good st -> 0 <= now < 2 ^ 64 -> (forall t l, tl st !! t = Some l -> pending l = true -> base l <> cpu) ->
  good (init_timers_cpu cpu now mem st).2.
Proof.
  intros ((N & due & W) & Hi & Hc) Hnow Hnone.
  destruct (init_timers_eq cpu now mem st) as [->|(b1 & -> & Hv & Hj & _ & Hb1)]; [split; [by exists N, due|by split]|].
  assert (work_list b1 = []) as Hw1 by (destruct Hb1 as [(_ & _ & ?)|(b0 & Hb0 & _ & ->)]; [done|by apply (Hi cpu b0)]).
  split; [|split; [|done]].
  - exists (<[cpu := now]> N), due. constructor.
    + intros c b Hb. cbn in Hb. destruct (decide (c = cpu)) as [->|Hne].
      * rewrite lookup_insert_eq in Hb. injection Hb as <-. exists now. split; [apply lookup_insert_eq|].
        apply wheel_empty; [rewrite Hj; symmetry; by apply wrapu_small|done|done|done].
      * rewrite lookup_insert_ne in Hb by done. destruct (tw_base _ _ _ W _ _ Hb) as (n & Hn & Hw). exists n. by rewrite lookup_insert_ne.
    + intros t l Hl. destruct (tw_timer _ _ _ W t l Hl) as (Hs & ?). split; [|done]. cbn. rewrite lookup_insert_is_Some'. by right.
  - intros c b Hb. cbn in Hb. destruct (decide (c = cpu)) as [->|Hne]; [rewrite lookup_insert_eq in Hb; by injection Hb as <-|].
    rewrite lookup_insert_ne in Hb by done. by apply (Hi c b).
Qed.

Lemma good_op o st st' : good st -> op_ok st o -> run_op o st = Some st' -> good st'.
Proof.
  intros ((N & due & W) & Hi & Hc) Hok E. destruct (run_op_spec o st N due st' W Hok E) as (due' & W' & O').
  split; [by exists N, due'|]. split; [|by rewrite (on_calls _ _ _ _ _ O')].
  apply (shrinks_idle st); [|done]. apply (frame_shrinks (fun _ => False) st due st' due'), (only_frame _ (op_timer o)); [done|tauto].
Qed.

Lemma good_run handler fuel clock c st st' :
  good st -> handler_ok handler -> run_timer_softirq handler fuel clock c st = Some st' -> good st'.
Proof.
  intros Hg Hh E. unfold run_timer_softirq in E. destruct (bases st !! c) as [b|]; [|done]. cbn [mbind option_bind] in E.
  case_if_in E; [by apply (run_loop_good handler c clock Hh fuel 1 st)|congruence].
Qed.

Lemma good_migrate old new st st' : good st -> old <> new -> is_Some (bases st !! new) -> migrate_timers old new st = Some st' -> good st'.
Proof.
  intros ((N & due & W) & Hi & Hc) Hne Hnew E. unfold migrate_timers in E. destruct (bases st !! old) as [b|] eqn:Hb; [|done].
  cbn [mbind option_bind] in E. case_bool_decide as Hr; [|done].
  destruct (migrate_spec old new st N due b W Hne Hnew Hb Hr) as (st1 & due1 & b1 & E1 & W1 & C1 & S1 & _).
  unfold migrate_timers in E1. rewrite Hb in E1. cbn [mbind option_bind] in E1. rewrite bool_decide_eq_true_2 in E1 by done.
  rewrite E in E1. injection E1 as <-. split; [by exists N, due1|]. split; [by apply (shrinks_idle st)|by rewrite C1].
Qed.

Lemma reach_good st : timers_reach st -> good st.
Proof. induction 1; eauto using good_boot, good_cpu, good_op, good_run, good_migrate. Qed.

(** A pending timer of a wheel at rest is on one of its lists. *)
Lemma pending_listed st N due t l b n :
  timers_wf st N due -> idle st -> tl st !! t = Some l -> pending l = true -> bases st !! base l = Some b -> N !! base l = Some n ->
  exists k D, t ∈ slot b k /\ due !! t = Some D /\ on_time n D (expires l) /\ placed (at_tick n) n D (expires l) k.
Proof.
  intros W Hi Hl Hp Hb Hn. destruct (tw_base _ _ _ W _ _ Hb) as (n' & Hn' & Hw). rewrite Hn in Hn'. injection Hn' as <-.
  destruct (w_all _ _ _ _ _ _ _ Hw t l Hl Hp eq_refl) as [Hin|[k Hk]]; [apply not_elem_of_nil|rewrite (Hi _ _ Hb) in Hin; by apply not_elem_of_nil in Hin|].
  destruct (w_slot _ _ _ _ _ _ _ Hw k t Hk) as (l' & D & A1 & _ & _ & A4 & A5 & A6). rewrite Hl in A1. injection A1 as <-. by exists k, D.
Qed.

(** The tick a pending timer fires at. *)
Definition fire_tick (l : timer_list) (b : tvec_base) : Z :=
  if time_before (expires l) (timer_jiffies b) then timer_jiffies b else expires l.

Lemma due_tick n D l b k lo :
  (forall j, n <= lo j) -> timer_jiffies b = u64 n -> on_time n D (expires l) -> placed lo n D (expires l) k ->
  u64 D = fire_tick l b /\ n <= D /\ D - n <= Z.max 0 (s64 (expires l - timer_jiffies b)).
Proof.
  intros Hlo Hn Ht Hp. pose proof (placed_due _ _ _ _ _ Hlo Hp) as HnD.
  assert (D - n < 2 ^ 63) as HD by (destruct Hp as [(_ & ? & _)|(_ & _ & ? & _)]; lia).
  unfold fire_tick, time_before, time_after. rewrite Hn. destruct (u64_cases n) as (k1 & E1 & _). destruct Ht as [->|[-> Hs]].
  - destruct (u64_cases D) as (k2 & E2 & _). rewrite (s64_eq (u64 D - u64 n) (D - n) (k2 - k1)) by lia. rewrite s64_small by lia.
    replace (D - n <? 0) with false by lia. split; [done|lia].
  - rewrite (s64_eq (expires l - u64 n) (expires l - n) (- k1)) by lia. replace (s64 (expires l - n) <? 0) with true by lia. split; [done|lia].
Qed.

(** ** Theorems *)

(** C18. The shape of the wheels: in every state that starting, changing and
    deleting timers, running them and moving them between CPUs can reach, a
    pending timer is on exactly one list of exactly one wheel, the one of its
    base; and a list holds no timer twice and only pending timers of its wheel
    that have a function. *)
Theorem timers_linked st :
  timers_reach st ->
  (forall t l, tl st !! t = Some l -> pending l = true ->
    exists b k, bases st !! base l = Some b /\ t ∈ slot b k /\
      forall c' b' k', bases st !! c' = Some b' -> t ∈ slot b' k' -> c' = base l /\ k' = k) /\
  (forall c b k, bases st !! c = Some b -> NoDup (slot b k) /\
    forall t, t ∈ slot b k -> exists l, tl st !! t = Some l /\ pending l = true /\ base l = c /\ function l <> None).
Proof.
  intros Hr. destruct (reach_good st Hr) as ((N & due & W) & Hi & _). split.
  - intros t l Hl Hp. destruct (tw_timer _ _ _ W t l Hl) as ([b Hb] & _). destruct (tw_base _ _ _ W _ _ Hb) as (n & Hn & Hw).
    destruct (pending_listed st N due t l b n W Hi Hl Hp Hb Hn) as (k & D & Hk & _). exists b, k. split; [done|]. split; [done|].
    intros c' b' k' Hb' Hk'. destruct (tw_base _ _ _ W _ _ Hb') as (n' & _ & Hw').
    destruct (w_slot _ _ _ _ _ _ _ Hw' k' t Hk') as (l' & D' & A1 & _ & A3 & _). rewrite Hl in A1. injection A1 as <-.
    split; [done|]. subst c'. rewrite Hb in Hb'. injection Hb' as <-. by apply (w_one _ _ _ _ _ _ _ Hw k' k t).
  - intros c b k Hb. destruct (tw_base _ _ _ W _ _ Hb) as (n & Hn & Hw). split; [apply Hw|]. intros t Hk.
    destruct (w_slot _ _ _ _ _ _ _ Hw k t Hk) as (l & D & A1 & A2 & A3 & _). exists l. do 3 (split; [done|]).
    by apply (tw_timer _ _ _ W t l).
Qed.

(** C6. A timer fires: take a pending timer of a reachable state that no timer
    function and nothing that runs meanwhile touches, and let [__run_timers] of
    its wheel read clocks that go forward and have reached the expiry. Then
    the loop returns, and it has called the function of the timer exactly
    once, with its data, at the tick the timer was set to, or at the wheel's
    tick when that is past; and the timer is no longer pending. *)
Theorem timer_fires_once handler st t l b clock ahead last fuel :
  timers_reach st -> tl st !! t = Some l -> pending l = true -> bases st !! base l = Some b ->
  handler_ok handler -> leaves_alone handler (fun t' => t' = t) ->
  (forall k, clock k = u64 (timer_jiffies b + ahead k)) -> (forall k, 0 <= ahead k <= ahead (S k)) -> (forall k, ahead k <= last) ->
  last < 2 ^ 63 -> last + 1 < Z.of_nat fuel -> s64 (expires l - timer_jiffies b) <= ahead 0%nat ->
  exists st' cs fn, run_timers_loop handler fuel clock 0 (base l) st = Some st' /\ calls st' = calls st ++ cs /\
    function l = Some fn /\ calls_of t cs = [Call t fn (data l) (expires l) (fire_tick l b)] /\
    tl st' !! t = Some (set_pending false l).
Proof.
  intros Hr Hl Hp Hb Hh Ha Hclock Hmono Hlast Hmax Hf Hreach. destruct (reach_good st Hr) as ((N & due & W) & Hi & _).
  destruct (tw_base _ _ _ W _ _ Hb) as (n & Hn & Hw). pose proof (w_now _ _ _ _ _ _ _ Hw) as Htj.
  destruct (pending_listed st N due t l b n W Hi Hl Hp Hb Hn) as (k & D & Hk & Hdue & Hot & Hpl).
  destruct (due_tick n D l b k (at_tick n) ltac:(done) Htj Hot Hpl) as (Htick & HnD & HD).
  destruct (run_loop_spec handler (fun t' => t' = t) Hh Ha (base l) clock (fun k => n + ahead k) (n + last)) with (fuel := fuel) (k := 0%nat)
    (N := N) (n := n) (st := st) (due := due) (b := b)
    as (st' & due' & b' & cs & n' & E & _ & _ & _ & _ & C & _ & _ & Hz & _ & Hall); try done.
  - intros j. rewrite Hclock, Htj. destruct (u64_cases n) as (k1 & E1 & _). apply (u64_eq _ _ k1). lia.
  - intros j. specialize (Hmono j). lia.
  - intros j. specialize (Hlast j). lia.
  - by apply (Hi (base l)).
  - specialize (Hmono 0%nat). cbn beta. lia.
  - lia.
  - specialize (Hmono 0%nat). specialize (Hlast 0%nat). lia.
  - destruct (Hall t eq_refl) as [Hcalled _]. destruct (Hcalled D) as (l' & fn & A1 & A2 & A3 & A4 & A5).
    + by exists l.
    + specialize (Hmono 0%nat). lia.
    + rewrite Hl in A1. injection A1 as <-. exists st', cs, fn. rewrite <- Htick. done.
Qed.

(** No timer fires early: every call made in a reachable state was for a
    timer whose expiry is not after the tick it was called at. *)
Theorem timers_never_early st e : timers_reach st -> e ∈ calls st -> s64 (call_expires e - call_tick e) <= 0.
Proof. intros Hr He. destruct (reach_good st Hr) as (_ & _ & Hc). rewrite Forall_forall in Hc. by apply Hc. Qed.

(** Slack: as long as the times do not wrap around and differ only in bits
    below 31, [apply_slack] moves the expiry to a time that is not before it and
    not after the limit the slack allows. *)
Theorem apply_slack_bounds e l x :
  0 <= x <= slack_limit e l x -> Z.lxor x (slack_limit e l x) < 2 ^ 31 ->
  x <= apply_slack e l x <= slack_limit e l x.
Proof.
  intros Hx Hbit. unfold apply_slack. set (lim := slack_limit e l x) in *. destruct (Z.lxor x lim =? 0) eqn:E; zbool; [lia|].
  assert (0 < Z.lxor x lim) as Hpos by (assert (0 <= Z.lxor x lim) by (apply Z.lxor_nonneg; lia); lia).
  set (bit := find_last_bit (Z.lxor x lim)). assert (0 <= bit < 31) as Hb.
  { unfold bit, find_last_bit. split; [apply Z.log2_nonneg|]. by apply Z.log2_lt_pow2. }
  replace (bit <? 31) with true by lia. rewrite Z.shiftl_mul_pow2, Z.mul_1_l by lia.
  assert (u64 (2 ^ bit - 1) = Z.ones bit) as ->.
  { rewrite Z.ones_equiv. apply wrapu_small. pose proof (Z.pow_pos_nonneg 2 bit). assert (2 ^ bit <= 2 ^ 64) by (apply Z.pow_le_mono_r; lia). lia. }
  pose proof (ldiff_below lim (Z.ones bit) ltac:(lia)). split; [|lia]. rewrite Z.ldiff_ones_r by lia.
  rewrite Z.shiftl_mul_pow2, Z.shiftr_div_pow2 by lia. pose proof (Z.pow_pos_nonneg 2 bit ltac:(lia) ltac:(lia)) as Hp2.
  assert (x / 2 ^ bit <> lim / 2 ^ bit) as Hne.
  { intros Eq. assert (Z.lxor x lim / 2 ^ bit = 0) as E0.
    { rewrite <- Z.shiftr_div_pow2, Z.shiftr_lxor, !Z.shiftr_div_pow2, Eq by lia. apply Z.lxor_nilpotent. }
    apply Z.div_small_iff in E0; [|lia]. pose proof (Z.log2_spec (Z.lxor x lim) Hpos) as [Hs _].
    unfold bit, find_last_bit in *. lia. }
  assert (x / 2 ^ bit <= lim / 2 ^ bit) by (apply Z.div_le_mono; lia).
  pose proof (block_start x (2 ^ bit) Hp2). nia.
Qed.

Module TimerDemo.
(** One CPU, 100 ticks before [jiffies] wraps around; timer 3 is set to go off
    after it. *)
Definition env : cpu_env := CpuEnv 0 false false (-1) (2 ^ 64 - 100) (fun _ => 0).
Definition st0 : timers := (init_timers_cpu 0 (2 ^ 64 - 100) true {| tl := ∅; bases := ∅; calls := [] |}).2.
Definition st1 : timers := default st0 (run_op (OpInit 0 3 false (Some 7) 42 0) st0).
Definition st2 : timers := default st0 (run_op (OpModPinned env 3 500) st1).
Definition quiet (fn d : Z) (st : timers) : list timer_op := [].
Definition clock (k : nat) : Z := u64 (2 ^ 64 - 100 + 700).
Definition st3 : timers := default st0 (run_timer_softirq quiet 800 clock 0 st2).
Definition t3 : timer_list := TimerList true 500 0 false (Some 7) 42 (-1).

Lemma timers_reach2 : timers_reach st2.
Proof.
  apply (tr_op (OpModPinned env 3 500) st1); [|split; [lia|by eexists]|vm_compute; reflexivity].
  apply (tr_op (OpInit 0 3 false (Some 7) 42 0) st0); [|cbn; lia|vm_compute; reflexivity].
  apply (tr_cpu _ 0 (2 ^ 64 - 100) true); [constructor|lia|]. intros t l. cbn. by rewrite lookup_empty.
Qed.

Lemma quiet_ok : handler_ok quiet.
Proof. intros e st N due _. exact I. Qed.

Lemma timers_reach3 : timers_reach st3.
Proof. apply (tr_run quiet 800 clock 0 st2); [apply timers_reach2|apply quiet_ok|vm_compute; reflexivity]. Qed.

Lemma timers_linked_witness : exists b k, bases st2 !! 0 = Some b /\ 3%nat ∈ slot b k.
Proof.
  destruct (timers_linked st2 timers_reach2) as [H _]. destruct (H 3%nat t3) as (b & k & Hb & Hk & _); [vm_compute; reflexivity|reflexivity|].
  exists b, k. split; [exact Hb|exact Hk].
Defined.

Lemma timer_fires_once_witness :
  exists st' cs, run_timers_loop quiet 800 clock 0 0 st2 = Some st' /\ calls st' = calls st2 ++ cs /\
    calls_of 3%nat cs = [Call 3 7 42 500 500].
Proof.
  assert (exists b, bases st2 !! 0 = Some b /\ timer_jiffies b = 2 ^ 64 - 100) as (b & Hb & Htj)
    by (eexists; split; vm_compute; reflexivity).
  destruct (timer_fires_once quiet st2 3%nat t3 b clock (fun _ => 700) 700 800 timers_reach2) as (st' & cs & fn & E & C & Hf & Hc & _).
  - vm_compute. reflexivity.
  - reflexivity.
  - exact Hb.
  - exact quiet_ok.
  - intros f d st. constructor.
  - intros k. rewrite Htj. reflexivity.
  - intros k. lia.
  - intros k. lia.
  - lia.
  - lia.
  - rewrite Htj. vm_compute. discriminate.
  - exists st', cs. split; [exact E|]. split; [exact C|]. injection Hf as <-. unfold fire_tick in Hc. rewrite Htj in Hc. exact Hc.
Defined.

Lemma timers_never_early_witness : exists e, e ∈ calls st3 /\ s64 (call_expires e - call_tick e) <= 0.
Proof.
  assert (Call 3 7 42 500 500 ∈ calls st3) as He by (vm_compute; constructor).
  exists (Call 3 7 42 500 500). split; [exact He|]. exact (timers_never_early st3 _ timers_reach3 He).
Defined.

Lemma apply_slack_bounds_witness :
  let l := TimerList false 1000 0 false (Some 7) 42 20 in slack_limit env l 1000 = 1020 /\ 1000 <= apply_slack env l 1000 <= 1020.
Proof.
  split; [vm_compute; reflexivity|].
  exact (apply_slack_bounds env (TimerList false 1000 0 false (Some 7) 42 20) 1000
    ltac:(vm_compute; split; discriminate) ltac:(vm_compute; reflexivity)).
Defined.
End TimerDemo.
