(* ===== verification/Rbtree.v ===== *)
(** * Rbtree: red-black trees

    Models lib/rbtree.c and include/linux/rbtree.h: nodes are objects of a heap,
    linked by pointers to the children and the parent, and every function reads
    and writes them in the order of the source. [None] is a NULL pointer that is
    followed, a pointer to no node, or a loop that did not end within its
    fuel. *)

From S2P Require Import Prelude.

(** ** Data *)

Inductive color := RB_RED | RB_BLACK.

#[export] Instance color_eq : EqDecision color.
Proof. solve_decision. Defined.

(** [struct rb_node]; [rb_parent] and [rb_color] are the two parts of its field
    [rb_parent_color]. *)
Record rb_node := RbNode { rb_parent : option ptr; rb_color : color; rb_right : option ptr; rb_left : option ptr }.

(** [struct rb_root] with the heap the nodes live in. *)
Record rb_root := RbRoot { root : option ptr; nodes : gmap ptr rb_node }.

Definition rb_set_parent (p : option ptr) (n : rb_node) : rb_node :=
  {| rb_parent := p; rb_color := rb_color n; rb_right := rb_right n; rb_left := rb_left n |}.
Definition rb_set_color (c : color) (n : rb_node) : rb_node :=
  {| rb_parent := rb_parent n; rb_color := c; rb_right := rb_right n; rb_left := rb_left n |}.
Definition set_right (p : option ptr) (n : rb_node) : rb_node :=
  {| rb_parent := rb_parent n; rb_color := rb_color n; rb_right := p; rb_left := rb_left n |}.
Definition set_left (p : option ptr) (n : rb_node) : rb_node :=
  {| rb_parent := rb_parent n; rb_color := rb_color n; rb_right := rb_right n; rb_left := p |}.

Definition rb_is_red (n : rb_node) : bool := bool_decide (rb_color n = RB_RED).
Definition rb_is_black (n : rb_node) : bool := bool_decide (rb_color n = RB_BLACK).

Definition set_root (p : option ptr) (t : rb_root) : rb_root := {| root := p; nodes := nodes t |}.

(** The test of a pointer. *)
Definition nonnull (p : option ptr) : bool := match p with Some _ => true | None => false end.

(** Reading and writing the node at [p]. *)
Definition node (p : option ptr) (t : rb_root) : option rb_node :=
  match p with Some p => nodes t !! p | None => None end.

Definition write (p : option ptr) (f : rb_node -> rb_node) (t : rb_root) : option rb_root :=
  match p with
  | Some q => n ← nodes t !! q; Some {| root := root t; nodes := <[q := f n]> (nodes t) |}
  | None => None
  end.

(** The test [!p || rb_is_black(p)]. *)
Definition black_or_null (p : option ptr) (t : rb_root) : option bool :=
  match p with None => Some true | Some _ => n ← node p t; Some (rb_is_black n) end.

(** ** Rotations *)

Definition rb_rotate_left (p : option ptr) (t : rb_root) : option rb_root :=
  n ← node p t;
  let right := rb_right n in
  let parent := rb_parent n in
  r ← node right t;
  t ← write p (set_right (rb_left r)) t;
  t ← (if nonnull (rb_left r) then write (rb_left r) (rb_set_parent p) t else Some t);
  t ← write right (set_left p) t;
  t ← write right (rb_set_parent parent) t;
  t ← (if nonnull parent then
         g ← node parent t;
         if decide (p = rb_left g) then write parent (set_left right) t else write parent (set_right right) t
       else Some (set_root right t));
  write p (rb_set_parent right) t.

Definition rb_rotate_right (p : option ptr) (t : rb_root) : option rb_root :=
  n ← node p t;
  let left := rb_left n in
  let parent := rb_parent n in
  l ← node left t;
  t ← write p (set_left (rb_right l)) t;
  t ← (if nonnull (rb_right l) then write (rb_right l) (rb_set_parent p) t else Some t);
  t ← write left (set_right p) t;
  t ← write left (rb_set_parent parent) t;
  t ← (if nonnull parent then
         g ← node parent t;
         if decide (p = rb_right g) then write parent (set_right left) t else write parent (set_left left) t
       else Some (set_root left t));
  write p (rb_set_parent left) t.

(** ** Insertion *)

(** Where a new node is linked: the pointer [rb_link] points to. *)
Inductive link := RootLink | LeftLink (p : ptr) | RightLink (p : ptr).

Definition rb_link_node (p : ptr) (parent : option ptr) (l : link) (t : rb_root) : option rb_root :=
  let t := {| root := root t;
              nodes := <[p := {| rb_parent := parent; rb_color := RB_RED; rb_right := None; rb_left := None |}]> (nodes t) |} in
  match l with
  | RootLink => Some (set_root (Some p) t)
  | LeftLink q => write (Some q) (set_left (Some p)) t
  | RightLink q => write (Some q) (set_right (Some p)) t
  end.

Fixpoint insert_color_loop (fuel : nat) (p : option ptr) (t : rb_root) : option rb_root :=
  match fuel with
  | O => None
  | S fuel =>
      n ← node p t;
      let parent := rb_parent n in
      match parent with
      | None => Some t
      | Some _ =>
          pn ← node parent t;
          if negb (rb_is_red pn) then Some t
          else
            let gparent := rb_parent pn in
            g ← node gparent t;
            if decide (parent = rb_left g) then
              let uncle := rb_right g in
              red ← (if nonnull uncle then u ← node uncle t; Some (rb_is_red u) else Some false);
              if (red : bool) then
                t ← write uncle (rb_set_color RB_BLACK) t;
                t ← write parent (rb_set_color RB_BLACK) t;
                t ← write gparent (rb_set_color RB_RED) t;
                insert_color_loop fuel gparent t
              else
                '(parent, p, t) ← (if decide (rb_right pn = p) then t ← rb_rotate_left parent t; Some (p, parent, t)
                                   else Some (parent, p, t));
                t ← write parent (rb_set_color RB_BLACK) t;
                t ← write gparent (rb_set_color RB_RED) t;
                t ← rb_rotate_right gparent t;
                insert_color_loop fuel p t
            else
              let uncle := rb_left g in
              red ← (if nonnull uncle then u ← node uncle t; Some (rb_is_red u) else Some false);
              if (red : bool) then
                t ← write uncle (rb_set_color RB_BLACK) t;
                t ← write parent (rb_set_color RB_BLACK) t;
                t ← write gparent (rb_set_color RB_RED) t;
                insert_color_loop fuel gparent t
              else
                '(parent, p, t) ← (if decide (rb_left pn = p) then t ← rb_rotate_right parent t; Some (p, parent, t)
                                   else Some (parent, p, t));
                t ← write parent (rb_set_color RB_BLACK) t;
                t ← write gparent (rb_set_color RB_RED) t;
                t ← rb_rotate_left gparent t;
                insert_color_loop fuel p t
      end
  end.

(** More than the layers a walk up can pass. *)
Definition walk_fuel (t : rb_root) : nat := S (size (nodes t)).

Definition rb_insert_color (p : ptr) (t : rb_root) : option rb_root :=
  t ← insert_color_loop (walk_fuel t) (Some p) t;
  write (root t) (rb_set_color RB_BLACK) t.

(** ** Removal *)

(** The node to be coloured black at the end, and the tree. *)
Fixpoint erase_color_loop (fuel : nat) (p parent : option ptr) (t : rb_root) : option (option ptr * rb_root) :=
  match fuel with
  | O => None
  | S fuel =>
      black ← black_or_null p t;
      if negb black || bool_decide (p = root t) then Some (p, t)
      else
        pn ← node parent t;
        if decide (rb_left pn = p) then
          let other := rb_right pn in
          o ← node other t;
          '(other, t) ← (if rb_is_red o then
                           t ← write other (rb_set_color RB_BLACK) t;
                           t ← write parent (rb_set_color RB_RED) t;
                           t ← rb_rotate_left parent t;
                           pn ← node parent t;
                           Some (rb_right pn, t)
                         else Some (other, t));
          o ← node other t;
          bl ← black_or_null (rb_left o) t;
          br ← (if (bl : bool) then black_or_null (rb_right o) t else Some false);
          if (bl : bool) && (br : bool) then
            t ← write other (rb_set_color RB_RED) t;
            pn ← node parent t;
            erase_color_loop fuel parent (rb_parent pn) t
          else
            br ← black_or_null (rb_right o) t;
            '(other, t) ← (if (br : bool) then
                             t ← write (rb_left o) (rb_set_color RB_BLACK) t;
                             t ← write other (rb_set_color RB_RED) t;
                             t ← rb_rotate_right other t;
                             pn ← node parent t;
                             Some (rb_right pn, t)
                           else Some (other, t));
            pn ← node parent t;
            t ← write other (rb_set_color (rb_color pn)) t;
            t ← write parent (rb_set_color RB_BLACK) t;
            o ← node other t;
            t ← write (rb_right o) (rb_set_color RB_BLACK) t;
            t ← rb_rotate_left parent t;
            Some (root t, t)
        else
          let other := rb_left pn in
          o ← node other t;
          '(other, t) ← (if rb_is_red o then
                           t ← write other (rb_set_color RB_BLACK) t;
                           t ← write parent (rb_set_color RB_RED) t;
                           t ← rb_rotate_right parent t;
                           pn ← node parent t;
                           Some (rb_left pn, t)
                         else Some (other, t));
          o ← node other t;
          bl ← black_or_null (rb_left o) t;
          br ← (if (bl : bool) then black_or_null (rb_right o) t else Some false);
          if (bl : bool) && (br : bool) then
            t ← write other (rb_set_color RB_RED) t;
            pn ← node parent t;
            erase_color_loop fuel parent (rb_parent pn) t
          else
            bl ← black_or_null (rb_left o) t;
            '(other, t) ← (if (bl : bool) then
                             t ← write (rb_right o) (rb_set_color RB_BLACK) t;
                             t ← write other (rb_set_color RB_RED) t;
                             t ← rb_rotate_left other t;
                             pn ← node parent t;
                             Some (rb_left pn, t)
                           else Some (other, t));
            pn ← node parent t;
            t ← write other (rb_set_color (rb_color pn)) t;
            t ← write parent (rb_set_color RB_BLACK) t;
            o ← node other t;
            t ← write (rb_left o) (rb_set_color RB_BLACK) t;
            t ← rb_rotate_right parent t;
            Some (root t, t)
  end.

Definition rb_erase_color (p parent : option ptr) (t : rb_root) : option rb_root :=
  '(p, t) ← erase_color_loop (walk_fuel t) p parent t;
  if nonnull p then write p (rb_set_color RB_BLACK) t else Some t.

(** As far left, or right, as there are nodes. *)
Fixpoint leftmost (fuel : nat) (p : ptr) (t : rb_root) : option ptr :=
  match fuel with
  | O => None
  | S fuel =>
      n ← nodes t !! p;
      match rb_left n with Some l => leftmost fuel l t | None => Some p end
  end.

Fixpoint rightmost (fuel : nat) (p : ptr) (t : rb_root) : option ptr :=
  match fuel with
  | O => None
  | S fuel =>
      n ← nodes t !! p;
      match rb_right n with Some r => rightmost fuel r t | None => Some p end
  end.

(** The child pointer of [parent] that is [old] becomes [new]; the left one is
    looked at first. *)
Definition relink (parent old new : option ptr) (t : rb_root) : option rb_root :=
  if nonnull parent then
    g ← node parent t;
    if decide (rb_left g = old) then write parent (set_left new) t else write parent (set_right new) t
  else Some (set_root new t).

(** A node with at most one child goes: its child, its parent and its colour. *)
Definition erase_single (p : ptr) (child : option ptr) (t : rb_root)
    : option (option ptr * option ptr * color * rb_root) :=
  n ← nodes t !! p;
  let parent := rb_parent n in
  t ← (if nonnull child then write child (rb_set_parent parent) t else Some t);
  t ← relink parent (Some p) child t;
  Some (child, parent, rb_color n, t).

(** The successor of a node with two children takes its place: the child, the
    parent and the colour the successor had. *)
Definition erase_double (old : ptr) (t : rb_root) : option (option ptr * option ptr * color * rb_root) :=
  o ← nodes t !! old;
  right ← rb_right o;
  p ← leftmost (walk_fuel t) right t;
  t ← relink (rb_parent o) (Some old) (Some p) t;
  n ← nodes t !! p;
  let child := rb_right n in
  let parent := rb_parent n in
  let col := rb_color n in
  '(parent, t) ← (if decide (parent = Some old) then Some (Some p, t)
                  else
                    t ← (if nonnull child then write child (rb_set_parent parent) t else Some t);
                    t ← write parent (set_left child) t;
                    o ← nodes t !! old;
                    t ← write (Some p) (set_right (rb_right o)) t;
                    t ← write (rb_right o) (rb_set_parent (Some p)) t;
                    Some (parent, t));
  o ← nodes t !! old;
  t ← write (Some p) (fun n => rb_set_color (rb_color o) (rb_set_parent (rb_parent o) n)) t;
  t ← write (Some p) (set_left (rb_left o)) t;
  t ← write (rb_left o) (rb_set_parent (Some p)) t;
  Some (child, parent, col, t).

Definition rb_erase (p : ptr) (t : rb_root) : option rb_root :=
  n ← nodes t !! p;
  '(child, parent, col, t) ←
    (match rb_left n, rb_right n with
     | None, r => erase_single p r t
     | l, None => erase_single p l t
     | _, _ => erase_double p t
     end);
  if decide (col = RB_BLACK) then rb_erase_color child parent t else Some t.

(** ** Walking *)

Definition rb_first (t : rb_root) : option (option ptr) :=
  match root t with None => Some None | Some p => Some <$> leftmost (walk_fuel t) p t end.

Definition rb_last (t : rb_root) : option (option ptr) :=
  match root t with None => Some None | Some p => Some <$> rightmost (walk_fuel t) p t end.

(** Up while the node is the right, or left, child. *)
Fixpoint up_right (fuel : nat) (p : ptr) (t : rb_root) : option (option ptr) :=
  match fuel with
  | O => None
  | S fuel =>
      n ← nodes t !! p;
      match rb_parent n with
      | None => Some None
      | Some q => g ← nodes t !! q; if decide (Some p = rb_right g) then up_right fuel q t else Some (Some q)
      end
  end.

Fixpoint up_left (fuel : nat) (p : ptr) (t : rb_root) : option (option ptr) :=
  match fuel with
  | O => None
  | S fuel =>
      n ← nodes t !! p;
      match rb_parent n with
      | None => Some None
      | Some q => g ← nodes t !! q; if decide (Some p = rb_left g) then up_left fuel q t else Some (Some q)
      end
  end.

Definition rb_next (p : ptr) (t : rb_root) : option (option ptr) :=
  n ← nodes t !! p;
  if decide (rb_parent n = Some p) then Some None
  else match rb_right n with
       | Some r => Some <$> leftmost (walk_fuel t) r t
       | None => up_right (walk_fuel t) p t
       end.

Definition rb_prev (p : ptr) (t : rb_root) : option (option ptr) :=
  n ← nodes t !! p;
  if decide (rb_parent n = Some p) then Some None
  else match rb_left n with
       | Some l => Some <$> rightmost (walk_fuel t) l t
       | None => up_left (walk_fuel t) p t
       end.

(** ** Replacement *)

Definition rb_replace_node (victim new : ptr) (t : rb_root) : option rb_root :=
  v ← nodes t !! victim;
  let parent := rb_parent v in
  t ← relink parent (Some victim) (Some new) t;
  v ← nodes t !! victim;
  t ← (if nonnull (rb_left v) then write (rb_left v) (rb_set_parent (Some new)) t else Some t);
  t ← (if nonnull (rb_right v) then write (rb_right v) (rb_set_parent (Some new)) t else Some t);
  v ← nodes t !! victim;
  Some {| root := root t; nodes := <[new := v]> (nodes t) |}.

(** ** Data kept in the nodes *)

Section Augment.
(** The caller's function and the data it keeps. *)
Context {D : Type} (func : ptr -> D -> D).

Fixpoint rb_augment_path (fuel : nat) (p : ptr) (t : rb_root) (d : D) : option D :=
  match fuel with
  | O => None
  | S fuel =>
      let d := func p d in
      n ← nodes t !! p;
      match rb_parent n with
      | None => Some d
      | Some q =>
          g ← nodes t !! q;
          let d := match rb_left g, rb_right g with
                   | l, Some r => if decide (Some p = l) then func r d
                                  else match l with Some l => func l d | None => d end
                   | Some l, None => func l d
                   | None, None => d
                   end in
          rb_augment_path fuel q t d
      end
  end.

Definition rb_augment_insert (p : ptr) (t : rb_root) (d : D) : option D :=
  n ← nodes t !! p;
  let p := match rb_left n, rb_right n with Some l, _ => l | None, Some r => r | None, None => p end in
  rb_augment_path (walk_fuel t) p t d.

Definition rb_augment_erase_begin (p : ptr) (t : rb_root) : option (option ptr) :=
  n ← nodes t !! p;
  match rb_left n, rb_right n with
  | None, None => Some (rb_parent n)
  | Some l, None => Some (Some l)
  | None, Some r => Some (Some r)
  | Some _, Some _ =>
      deepest ← rb_next p t;
      d ← deepest;
      m ← nodes t !! d;
      match rb_right m with
      | Some r => Some (Some r)
      | None => if decide (rb_parent m = Some p) then Some (Some d) else Some (rb_parent m)
      end
  end.

Definition rb_augment_erase_end (p : option ptr) (t : rb_root) (d : D) : option D :=
  match p with Some p => rb_augment_path (walk_fuel t) p t d | None => Some d end.
End Augment.
