(* ===== verification/RbtreeInv.v ===== *)
(** * RbtreeInv: correctness of the red-black trees

    The nodes of a heap reachable from a root form a tree of nodes in order; a
    place in it is a subtree with the path from it to the root. Rotations,
    colour changes and the links of nodes in and out act on such places; on the
    trees, insertion and removal keep the red-black invariant and the order. *)

From S2P Require Import Prelude Rbtree.

(** ** Trees and places *)

Inductive tree := Nil | Node (c : color) (l : tree) (p : ptr) (r : tree).

Inductive side := L | R.

#[export] Instance side_eq : EqDecision side.
Proof. solve_decision. Defined.

Definition flip (d : side) : side := match d with L => R | R => L end.

(** The node [p] with the [d]-child [a] and the other one [b]. *)
Definition mk (d : side) (c : color) (a : tree) (p : ptr) (b : tree) : tree :=
  match d with L => Node c a p b | R => Node c b p a end.

(** Going up from a [d]-child: the node above and its other subtree. *)
Record frame := Frame { fr_side : side; fr_color : color; fr_ptr : ptr; fr_other : tree }.

Definition close (f : frame) (t : tree) : tree := mk (fr_side f) (fr_color f) t (fr_ptr f) (fr_other f).

(** The whole tree around a place. *)
Fixpoint plug (k : list frame) (t : tree) : tree :=
  match k with [] => t | f :: k => plug k (close f t) end.

Definition top (t : tree) : option ptr := match t with Nil => None | Node _ _ p _ => Some p end.

Definition above (k : list frame) : option ptr := match k with [] => None | f :: _ => Some (fr_ptr f) end.

Fixpoint elems (t : tree) : list ptr :=
  match t with Nil => [] | Node _ l p r => elems l ++ p :: elems r end.

(** The nodes on the path and beside it. *)
Fixpoint around (k : list frame) : list ptr :=
  match k with [] => [] | f :: k => fr_ptr f :: elems (fr_other f) ++ around k end.

Lemma elems_mk d c a p b : elems (mk d c a p b) ≡ₚ p :: elems a ++ elems b.
Proof. destruct d; cbn; solve_Permutation. Qed.

Lemma elems_plug k : forall t, elems (plug k t) ≡ₚ around k ++ elems t.
Proof.
  induction k as [|f k IH]; intros t; cbn [plug around]; [done|]. rewrite IH. unfold close. rewrite elems_mk. solve_Permutation.
Qed.

(** *** In the heap *)

Definition child (d : side) (n : rb_node) : option ptr := match d with L => rb_left n | R => rb_right n end.

Definition mk_node (d : side) (par : option ptr) (c : color) (a b : option ptr) : rb_node :=
  match d with
  | L => {| rb_parent := par; rb_color := c; rb_left := a; rb_right := b |}
  | R => {| rb_parent := par; rb_color := c; rb_left := b; rb_right := a |}
  end.

Definition set_child (d : side) (v : option ptr) (n : rb_node) : rb_node :=
  match d with L => set_left v n | R => set_right v n end.

(** The tree [t] below [par] is in the heap. *)
Fixpoint rep (h : gmap ptr rb_node) (par : option ptr) (t : tree) : Prop :=
  match t with
  | Nil => True
  | Node c l p r => h !! p = Some (mk_node L par c (top l) (top r)) /\ rep h (Some p) l /\ rep h (Some p) r
  end.

(** The path [k] above a place whose tree starts with [hole] is in the heap. *)
Fixpoint rep_path (h : gmap ptr rb_node) (hole : option ptr) (k : list frame) (rt : option ptr) : Prop :=
  match k with
  | [] => rt = hole
  | Frame d c p s :: k =>
      h !! p = Some (mk_node d (above k) c hole (top s)) /\ rep h (Some p) s /\ rep_path h (Some p) k rt
  end.

(** The tree at [st] seen from a place; [h0]: the nodes that are not of the
    tree. *)
Record at_place (h0 : gmap ptr rb_node) (k : list frame) (t : tree) (st : rb_root) : Prop := {
  ap_tree : rep (nodes st) (above k) t;
  ap_path : rep_path (nodes st) (top t) k (root st);
  ap_nodup : NoDup (around k ++ elems t);
  ap_rest q : q ∉ around k ++ elems t -> nodes st !! q = h0 !! q
}.

Lemma rep_mk h par d c a p b :
  rep h par (mk d c a p b) <-> h !! p = Some (mk_node d par c (top a) (top b)) /\ rep h (Some p) a /\ rep h (Some p) b.
Proof. destruct d; cbn; tauto. Qed.

Lemma top_mk d c a p b : top (mk d c a p b) = Some p.
Proof. by destruct d. Qed.

(** Moving the view down and up. *)
Lemma place_down h0 k t st d c a p b :
  t = mk d c a p b -> at_place h0 k t st <-> at_place h0 (Frame d c p b :: k) a st.
Proof.
  intros ->. split; intros [H1 H2 H3 H4].
  - rewrite rep_mk in H1. rewrite top_mk in H2. destruct H1 as (H1 & Ha & Hb).
    assert (around (Frame d c p b :: k) ++ elems a ≡ₚ around k ++ elems (mk d c a p b)) as HP
      by (rewrite elems_mk; cbn; solve_Permutation).
    constructor; cbn [rep_path above fr_ptr]; [done|done|by rewrite HP|]. intros q. rewrite HP. apply H4.
  - cbn [rep_path above fr_ptr] in *. destruct H2 as (H2 & Hb & Hk).
    assert (around k ++ elems (mk d c a p b) ≡ₚ around (Frame d c p b :: k) ++ elems a) as HP
      by (rewrite elems_mk; cbn; solve_Permutation).
    constructor; [by rewrite rep_mk|by rewrite top_mk|by rewrite HP|]. intros q. rewrite HP. apply H4.
Qed.

Lemma mk_flip d c a p b : mk (flip d) c b p a = mk d c a p b.
Proof. by destruct d. Qed.

Lemma mk_node_flip d par c a b : mk_node (flip d) par c b a = mk_node d par c a b.
Proof. by destruct d. Qed.

(** ** Reading and writing *)

Lemma rep_ext h h' par t : (forall q, q ∈ elems t -> h' !! q = h !! q) -> rep h par t -> rep h' par t.
Proof.
  revert par. induction t as [|c l IHl p r IHr]; intros par Hq; cbn [rep elems] in *; [done|]. intros (Hp & Hl & Hr).
  rewrite Hq by set_solver. split; [done|]. split; [apply IHl|apply IHr]; try done; intros q Hin; apply Hq; set_solver.
Qed.

Lemma rep_path_ext h h' hole k rt :
  (forall q, q ∈ around k -> h' !! q = h !! q) -> rep_path h hole k rt -> rep_path h' hole k rt.
Proof.
  revert hole. induction k as [|[d c p s] k IH]; intros hole Hq; cbn [rep_path around fr_ptr fr_other] in *; [done|].
  intros (Hp & Hs & Hk). rewrite Hq by set_solver. split; [done|]. split.
  - apply (rep_ext h); [|done]. intros q Hin. apply Hq. set_solver.
  - apply IH; [|done]. intros q Hin. apply Hq. set_solver.
Qed.

Lemma top_elem t q : top t = Some q -> q ∈ elems t.
Proof. destruct t; cbn; [done|]. intros [= ->]. set_solver. Qed.

Lemma rep_elem h par t q : rep h par t -> q ∈ elems t -> is_Some (h !! q).
Proof.
  revert par. induction t as [|c l IHl p r IHr]; intros par; cbn [rep elems]; [set_solver|]. intros (Hp & Hl & Hr).
  rewrite elem_of_app, elem_of_cons. intros [?|[->|?]]; [by eapply IHl|by rewrite Hp|by eapply IHr].
Qed.

Lemma write_spec q f st n :
  nodes st !! q = Some n -> write (Some q) f st = Some {| root := root st; nodes := <[q := f n]> (nodes st) |}.
Proof. intros H. unfold write. by rewrite H. Qed.

(** What a sequence of writes leaves alone. *)
Record frames (E : list ptr) (st st' : rb_root) : Prop := {
  fs_other q : q ∉ E -> nodes st' !! q = nodes st !! q;
  fs_dom q : is_Some (nodes st' !! q) <-> is_Some (nodes st !! q)
}.

Lemma frames_rep E st st' par t : frames E st st' -> E ## elems t -> rep (nodes st) par t -> rep (nodes st') par t.
Proof. intros [Hf _] Hd. apply rep_ext. intros q Hq. apply Hf. set_solver. Qed.

Lemma frames_path E st st' hole k rt :
  frames E st st' -> E ## around k -> rep_path (nodes st) hole k rt -> rep_path (nodes st') hole k rt.
Proof. intros [Hf _] Hd. apply rep_path_ext. intros q Hq. apply Hf. set_solver. Qed.

Lemma frames_write q v st n : nodes st !! q = Some n ->
  frames [q] st {| root := root st; nodes := <[q := v]> (nodes st) |}.
Proof.
  intros Hq. constructor; cbn; intros r.
  - intros Hr. rewrite lookup_insert_ne; [done|set_solver].
  - rewrite lookup_insert_is_Some'. split; [intros [<-|?]; [by rewrite Hq|done]|by right].
Qed.

(** The root of a subtree gets another parent. *)
Lemma reparent_top b p st par :
  rep (nodes st) par b -> NoDup (elems b) ->
  exists st', (if nonnull (top b) then write (top b) (rb_set_parent p) st else Some st) = Some st' /\
    rep (nodes st') p b /\ frames (elems b) st st' /\ root st' = root st.
Proof.
  destruct b as [|c l x r]; cbn [top nonnull rep].
  { intros _ _. exists st. split; [done|]. split; [done|]. split; [|done]. done. }
  intros (Hx & Hl & Hr) Hnd. cbn [elems] in Hnd. apply NoDup_app in Hnd as (_ & Hd & Hnd).
  apply NoDup_cons in Hnd as [Hxr _]. rewrite (write_spec x _ st _ Hx). eexists. split; [done|]. cbn [nodes root].
  pose proof (frames_write x (rb_set_parent p (mk_node L par c (top l) (top r))) st _ Hx) as Hf. split; [|split; [|done]].
  - rewrite lookup_insert_eq. split; [done|].
    split; [apply (frames_rep _ _ _ _ _ Hf)|apply (frames_rep _ _ _ _ _ Hf)]; try done; set_solver.
  - destruct Hf as [H1 H2]. constructor; [|done]. intros q Hq. apply H1. set_solver.
Qed.

(** The pointer from the path, or the root, to a place changes. *)
Definition relink_to (d : side) (parent old new : option ptr) (t : rb_root) : option rb_root :=
  if nonnull parent then
    g ← node parent t;
    if decide (old = child d g) then write parent (set_child d new) t else write parent (set_child (flip d) new) t
  else Some (set_root new t).

Lemma relink_place d x new st k :
  rep_path (nodes st) (Some x) k (root st) -> NoDup (around k) -> x ∉ around k ->
  exists st', relink_to d (above k) (Some x) new st = Some st' /\ rep_path (nodes st') new k (root st') /\
    frames (around k) st st'.
Proof.
  destruct k as [|[dk c g s] k]; cbn [rep_path above fr_ptr around fr_other].
  { intros Hr _ _. exists (set_root new st). done. }
  intros (Hg & Hs & Hk) Hnd Hx. apply NoDup_cons in Hnd as [Hg1 Hnd]. apply NoDup_app in Hnd as (_ & Hd & _).
  unfold relink_to. cbn [nonnull node]. rewrite Hg. cbn [mbind option_bind].
  assert (forall dd, child dd (mk_node dk (above k) c (Some x) (top s)) = Some x <-> dd = dk) as Hch.
  { intros dd. destruct (decide (top s = Some x)) as [E|E]; [apply top_elem in E; set_solver|]. by destruct dd, dk; cbn. }
  assert ((if decide (Some x = child d (mk_node dk (above k) c (Some x) (top s)))
           then write (Some g) (set_child d new) st else write (Some g) (set_child (flip d) new) st)
          = write (Some g) (set_child dk new) st) as ->.
  { case_decide as E; [symmetry in E; apply Hch in E as ->; done|].
    assert (d <> dk) by (intros ->; destruct E; symmetry; by apply Hch). by destruct d, dk. }
  rewrite (write_spec g _ st _ Hg). eexists. split; [done|]. cbn [nodes root].
  pose proof (frames_write g (set_child dk new (mk_node dk (above k) c (Some x) (top s))) st _ Hg) as Hf. split.
  - rewrite lookup_insert_eq. split; [by destruct dk|].
    split; [apply (frames_rep _ _ _ _ _ Hf)|apply (frames_path _ _ _ _ _ _ Hf)]; try done; set_solver.
  - destruct Hf as [H1 H2]. constructor; [|done]. intros q Hq. apply H1. set_solver.
Qed.

Ltac nodups H :=
  repeat match type of H with
  | NoDup (_ :: _) => apply NoDup_cons in H as [? H]
  | NoDup (_ ++ _) => let H' := fresh "Hnd" in apply NoDup_app in H as (H' & ? & H); nodups H'
  end.

(** ** Rotations *)

Definition rotate (d : side) (p : option ptr) (t : rb_root) : option rb_root :=
  match d with L => rb_rotate_left p t | R => rb_rotate_right p t end.

Lemma rotate_eq d p t :
  rotate d p t =
  (n ← node p t;
   r ← node (child (flip d) n) t;
   t ← write p (set_child (flip d) (child d r)) t;
   t ← (if nonnull (child d r) then write (child d r) (rb_set_parent p) t else Some t);
   t ← write (child (flip d) n) (set_child d p) t;
   t ← write (child (flip d) n) (rb_set_parent (rb_parent n)) t;
   t ← relink_to d (rb_parent n) p (child (flip d) n) t;
   write p (rb_set_parent (child (flip d) n)) t).
Proof. by destruct d. Qed.

Lemma child_near d par c a b : child d (mk_node d par c a b) = a.
Proof. by destruct d. Qed.
Lemma child_far d par c a b : child (flip d) (mk_node d par c a b) = b.
Proof. by destruct d. Qed.
Lemma parent_mk d par c a b : rb_parent (mk_node d par c a b) = par.
Proof. by destruct d. Qed.
Lemma color_mk d par c a b : rb_color (mk_node d par c a b) = c.
Proof. by destruct d. Qed.
Lemma set_near d par c a b v : set_child d v (mk_node d par c a b) = mk_node d par c v b.
Proof. by destruct d. Qed.
Lemma set_far d par c a b v : set_child (flip d) v (mk_node d par c a b) = mk_node d par c a v.
Proof. by destruct d. Qed.
Lemma set_parent_mk d par c a b v : rb_set_parent v (mk_node d par c a b) = mk_node d v c a b.
Proof. by destruct d. Qed.
Lemma set_color_mk d par c a b v : rb_set_color v (mk_node d par c a b) = mk_node d par v a b.
Proof. by destruct d. Qed.

Create Rewrite HintDb rb.
#[export] Hint Rewrite child_near child_far parent_mk color_mk set_near set_far set_parent_mk set_color_mk top_mk : rb.

Lemma frames_trans E1 E2 st1 st2 st3 : frames E1 st1 st2 -> frames E2 st2 st3 -> frames (E1 ++ E2) st1 st3.
Proof.
  intros [A1 A2] [B1 B2]. constructor; intros q; [|by rewrite B2, A2]. intros Hq. rewrite B1, A1; [done|set_solver..].
Qed.

Lemma rotate_spec d h0 k c a x cy b y e st :
  at_place h0 k (mk d c a x (mk d cy b y e)) st ->
  exists st', rotate d (Some x) st = Some st' /\ at_place h0 k (mk d cy (mk d c a x b) y e) st'.
Proof.
  intros [H1 H2 H3 H4]. rewrite !rep_mk in H1. autorewrite with rb in H1, H2. destruct H1 as (Hx & Ha & Hy & Hb & He).
  assert (around k ++ elems (mk d c a x (mk d cy b y e)) ≡ₚ x :: y :: elems a ++ elems b ++ elems e ++ around k) as HP
    by (rewrite !elems_mk; solve_Permutation).
  assert (around k ++ elems (mk d cy (mk d c a x b) y e) ≡ₚ x :: y :: elems a ++ elems b ++ elems e ++ around k) as HP'
    by (rewrite !elems_mk; solve_Permutation).
  pose proof H3 as Hnd. rewrite HP in H3. nodups H3.
  rewrite rotate_eq. cbn [node]. rewrite Hx. cbn [mbind option_bind]. autorewrite with rb. cbn [node]. rewrite Hy.
  cbn [mbind option_bind]. autorewrite with rb.
  rewrite (write_spec x _ _ _ Hx). cbn [mbind option_bind]. autorewrite with rb.
  pose proof (frames_write x (mk_node d (above k) c (top a) (top b)) st _ Hx) as F1. set (st1 := RbRoot _ _) in *.
  destruct (reparent_top b (Some x) st1 (Some y)) as (st2 & E2 & Hb2 & F2 & R2);
    [apply (frames_rep _ _ _ _ _ F1); [set_solver|done]|done|].
  rewrite E2. cbn [mbind option_bind].
  assert (nodes st2 !! y = Some (mk_node d (Some x) cy (top b) (top e))) as Hy2.
  { rewrite (fs_other _ _ _ F2), (fs_other _ _ _ F1) by set_solver. done. }
  rewrite (write_spec y _ _ _ Hy2). cbn [mbind option_bind]. autorewrite with rb.
  rewrite (write_spec y _ _ (mk_node d (Some x) cy (Some x) (top e))) by apply lookup_insert_eq.
  cbn [mbind option_bind nodes root]. autorewrite with rb. rewrite insert_insert_eq.
  pose proof (frames_write y (mk_node d (above k) cy (Some x) (top e)) st2 _ Hy2) as F4.
  set (st4 := {| root := root st2; nodes := <[y := mk_node d (above k) cy (Some x) (top e)]> (nodes st2) |}) in *.
  pose proof (frames_trans _ _ _ _ _ (frames_trans _ _ _ _ _ F1 F2) F4) as F14.
  destruct (relink_place d x (Some y) st4 k) as (st5 & E5 & Hk5 & F5); [|done|set_solver|].
  { apply (frames_path _ _ _ _ _ _ F14); [set_solver|]. change (root st4) with (root st2). rewrite R2. exact H2. }
  rewrite E5. cbn [mbind option_bind].
  assert (nodes st5 !! x = Some (mk_node d (above k) c (top a) (top b))) as Hx5.
  { rewrite (fs_other _ _ _ F5), (fs_other _ _ _ F4), (fs_other _ _ _ F2) by set_solver. apply lookup_insert_eq. }
  rewrite (write_spec x _ _ _ Hx5). autorewrite with rb. eexists. split; [done|].
  pose proof (frames_write x (mk_node d (Some y) c (top a) (top b)) st5 _ Hx5) as F6.
  set (st6 := {| root := root st5; nodes := <[x := mk_node d (Some y) c (top a) (top b)]> (nodes st5) |}) in *.
  pose proof (frames_trans _ _ _ _ _ (frames_trans _ _ _ _ _ F14 F5) F6) as F16.
  constructor.
  - rewrite !rep_mk. autorewrite with rb. split.
    { rewrite (fs_other _ _ _ F6), (fs_other _ _ _ F5) by set_solver. apply lookup_insert_eq. }
    split; [split; [apply lookup_insert_eq|]; split|].
    + apply (frames_rep _ _ _ _ _ F16); [set_solver|done].
    + apply (frames_rep _ _ _ _ _ (frames_trans _ _ _ _ _ (frames_trans _ _ _ _ _ F4 F5) F6)); [set_solver|done].
    + apply (frames_rep _ _ _ _ _ F16); [set_solver|done].
  - autorewrite with rb. apply (frames_path _ _ _ _ _ _ F6); [set_solver|done].
  - by rewrite HP', <- HP.
  - intros q. rewrite HP'. intros Hq. rewrite (fs_other _ _ _ F16) by set_solver. apply H4. by rewrite HP.
Qed.

(** ** Places *)

Lemma place_whole h0 k st : forall t, at_place h0 k t st <-> at_place h0 [] (plug k t) st.
Proof.
  induction k as [|[d c p s] k IH]; intros t; cbn [plug]; [done|]. rewrite <- IH. symmetry. by apply place_down.
Qed.

Lemma place_move h0 k t k' t' st : plug k t = plug k' t' -> at_place h0 k t st -> at_place h0 k' t' st.
Proof. intros E. rewrite (place_whole h0 k), (place_whole h0 k'), E. done. Qed.

Lemma place_node h0 k d c a p b st :
  at_place h0 k (mk d c a p b) st -> nodes st !! p = Some (mk_node d (above k) c (top a) (top b)).
Proof. intros [H _ _ _]. rewrite rep_mk in H. apply H. Qed.

Lemma place_above h0 d c g s k t st :
  at_place h0 (Frame d c g s :: k) t st -> nodes st !! g = Some (mk_node d (above k) c (top t) (top s)).
Proof. intros [_ H _ _]. apply H. Qed.

(** The node at a place gets another colour. *)
Lemma recolor_place h0 k d c c' a p b st :
  at_place h0 k (mk d c a p b) st ->
  exists st', write (Some p) (rb_set_color c') st = Some st' /\ at_place h0 k (mk d c' a p b) st'.
Proof.
  intros Hap. pose proof (place_node _ _ _ _ _ _ _ _ Hap) as Hp. destruct Hap as [H1 H2 H3 H4]. rewrite (write_spec p _ _ _ Hp).
  autorewrite with rb. eexists. split; [done|].
  pose proof (frames_write p (mk_node d (above k) c' (top a) (top b)) st _ Hp) as F.
  assert (forall c, around k ++ elems (mk d c a p b) ≡ₚ p :: elems a ++ elems b ++ around k) as HP
    by (intros; rewrite elems_mk; solve_Permutation).
  rewrite HP in H3. pose proof H3 as Hall. nodups H3. rewrite rep_mk in H1. destruct H1 as (_ & Ha & Hb). constructor.
  - rewrite rep_mk. split; [apply lookup_insert_eq|].
    split; apply (frames_rep _ _ _ _ _ F); (set_solver || done).
  - autorewrite with rb in *. apply (frames_path _ _ _ _ _ _ F); [set_solver|done].
  - by rewrite HP.
  - intros q. rewrite HP. intros Hq. rewrite (fs_other _ _ _ F) by set_solver. apply H4. by rewrite HP.
Qed.

(** ** The red-black invariant *)

Definition is_black (t : tree) : bool := match t with Node RB_RED _ _ _ => false | _ => true end.

(** Black height [n], and no red node with a red child. *)
Inductive bal : nat -> tree -> Prop :=
| bal_nil : bal 0 Nil
| bal_red n l p r : bal n l -> bal n r -> is_black l = true -> is_black r = true -> bal n (Node RB_RED l p r)
| bal_black n l p r : bal n l -> bal n r -> bal (S n) (Node RB_BLACK l p r).

(** A red-black tree: balanced, with a black root. *)
Definition red_black (t : tree) : Prop := is_black t = true /\ exists n, bal n t.

(** A path above a place of black height [n]; above a red node is a black one. *)
Fixpoint path_ok (n : nat) (k : list frame) : Prop :=
  match k with
  | [] => True
  | Frame _ RB_BLACK _ s :: k => bal n s /\ path_ok (S n) k
  | Frame _ RB_RED _ s :: k =>
      bal n s /\ is_black s = true /\ match k with Frame _ RB_BLACK _ _ :: _ => True | _ => False end /\ path_ok n k
  end.

Definition red_above (k : list frame) : bool := match k with Frame _ RB_RED _ _ :: _ => true | _ => false end.

Lemma bal_mk n d c a p b :
  bal n (mk d c a p b) <->
  match c with
  | RB_RED => bal n a /\ bal n b /\ is_black a = true /\ is_black b = true
  | RB_BLACK => exists m, n = S m /\ bal m a /\ bal m b
  end.
Proof.
  destruct d, c; cbn; split; try (intros H; inversion H; subst; eauto; fail).
  all: try (intros (? & ? & ? & ?); by constructor). all: intros (m & -> & ? & ?); by constructor.
Qed.

Lemma is_black_mk d c a p b : is_black (mk d c a p b) = bool_decide (c = RB_BLACK).
Proof. by destruct d, c. Qed.

(** Filling a place. *)
Lemma plug_bal k : forall n t, path_ok n k -> bal n t -> (red_above k = true -> is_black t = true) ->
  exists m, bal m (plug k t) /\ (is_black (plug k t) = true \/ (k = [] /\ is_black t = false)).
Proof.
  induction k as [|[d c p s] k IH]; intros n t Hk Hb Hr.
  { exists n. split; [done|]. cbn. destruct (is_black t); auto. }
  cbn [plug]. destruct c; cbn [path_ok] in Hk.
  - destruct Hk as (Hs & Hsb & Hk0 & Hk). destruct (IH n (close (Frame d RB_RED p s) t) Hk) as (m & Hm & Ho).
    + unfold close. cbn. rewrite bal_mk. repeat split; try done. by apply Hr.
    + unfold red_above. destruct k as [|[? [] ? ?] k]; done.
    + exists m. split; [done|]. left. destruct Ho as [?|[-> _]]; done.
  - destruct Hk as (Hs & Hk). destruct (IH (S n) (close (Frame d RB_BLACK p s) t) Hk) as (m & Hm & Ho).
    + unfold close. cbn. rewrite bal_mk. by exists n.
    + intros _. unfold close. cbn. by rewrite is_black_mk.
    + exists m. split; [done|]. left. destruct Ho as [?|[-> Ho]]; [done|]. unfold close in Ho. cbn in Ho. by rewrite is_black_mk in Ho.
Qed.

(** Every place of a red-black tree. *)
Lemma plug_inv k : forall t m, bal m (plug k t) -> is_black (plug k t) = true ->
  exists n, path_ok n k /\ bal n t /\ (red_above k = true -> is_black t = true) /\ (k = [] -> is_black t = true).
Proof.
  induction k as [|[d c p s] k IH]; intros t m Hm Hb; cbn [plug] in *; [by exists m|].
  destruct (IH _ _ Hm Hb) as (n & Hk & Hn & Hra & He). unfold close in *. cbn in *. rewrite bal_mk in Hn. rewrite is_black_mk in *.
  destruct c; cbn [path_ok red_above].
  - destruct Hn as (Ha & Hs & Hta & Hsb). exists n. split; [|done]. split; [done|]. split; [done|]. split; [|done].
    destruct k as [|[? [] ? ?] k]; [by specialize (He eq_refl)|by specialize (Hra eq_refl)|done].
  - destruct Hn as (n' & -> & Ha & Hs). exists n'. done.
Qed.

Lemma plug_elems k : forall t t', elems t = elems t' -> elems (plug k t) = elems (plug k t').
Proof.
  induction k as [|[d c p s] k IH]; intros t t' E; cbn [plug]; [done|]. apply IH. unfold close. destruct d; cbn; by rewrite E.
Qed.

(** The same tree from another place. *)
Ltac view H k t :=
  apply (place_move _ _ _ k t) in H; 
  [|cbn [plug]; unfold close; cbn [fr_side fr_color fr_ptr fr_other]; rewrite ?mk_flip; reflexivity].

(** ** Insertion *)

(** One round below the [d]-child [parent] of [gparent]. *)
Definition insert_round (rec : option ptr -> rb_root -> option rb_root) (d : side) (p parent gparent : option ptr)
    (pn g : rb_node) (t : rb_root) : option rb_root :=
  red ← (if nonnull (child (flip d) g) then u ← node (child (flip d) g) t; Some (rb_is_red u) else Some false);
  if (red : bool) then
    t ← write (child (flip d) g) (rb_set_color RB_BLACK) t;
    t ← write parent (rb_set_color RB_BLACK) t;
    t ← write gparent (rb_set_color RB_RED) t;
    rec gparent t
  else
    '(parent, p, t) ← (if decide (child (flip d) pn = p) then t ← rotate d parent t; Some (p, parent, t)
                       else Some (parent, p, t));
    t ← write parent (rb_set_color RB_BLACK) t;
    t ← write gparent (rb_set_color RB_RED) t;
    t ← rotate (flip d) gparent t;
    rec p t.

Lemma insert_loop_eq fuel p t :
  insert_color_loop (S fuel) p t =
  (n ← node p t;
   match rb_parent n with
   | None => Some t
   | Some _ =>
       pn ← node (rb_parent n) t;
       if negb (rb_is_red pn) then Some t
       else
         g ← node (rb_parent pn) t;
         if decide (rb_parent n = rb_left g)
         then insert_round (insert_color_loop fuel) L p (rb_parent n) (rb_parent pn) pn g t
         else insert_round (insert_color_loop fuel) R p (rb_parent n) (rb_parent pn) pn g t
   end).
Proof. done. Qed.

(** What the loop makes of a place with a red node whose parent may be red. *)
Definition insert_done (h0 : gmap ptr rb_node) (k : list frame) (t : tree) (o : option rb_root) : Prop :=
  exists st' t' m, o = Some st' /\ at_place h0 [] t' st' /\ bal m t' /\ elems t' = elems (plug k t).

Lemma is_red_mk d par c a b : rb_is_red (mk_node d par c a b) = bool_decide (c = RB_RED).
Proof. by destruct d. Qed.
Lemma is_black_node d par c a b : rb_is_black (mk_node d par c a b) = bool_decide (c = RB_BLACK).
Proof. by destruct d. Qed.
#[export] Hint Rewrite is_red_mk is_black_node : rb.

(** Nothing to do. *)
Lemma insert_stop fuel h0 k d c a p b st n :
  at_place h0 k (mk d c a p b) st -> red_above k = false -> path_ok n k -> bal n (mk d c a p b) ->
  insert_done h0 k (mk d c a p b) (insert_color_loop (S fuel) (Some p) st).
Proof.
  intros Hap Hr Hk Hb. rewrite insert_loop_eq. cbn [node]. rewrite (place_node _ _ _ _ _ _ _ _ Hap). cbn [mbind option_bind].
  autorewrite with rb.
  exists st, (plug k (mk d c a p b)). destruct (plug_bal k n _ Hk Hb) as (m & Hm & _); [by rewrite Hr|]. exists m.
  split; [|by split; [apply (place_whole h0 k)|]].
  destruct k as [|[dk ck g s] k]; cbn [above fr_ptr node] in *; [done|]. rewrite (place_above _ _ _ _ _ _ _ _ Hap) in *.
  cbn [mbind option_bind] in *. autorewrite with rb in *. by destruct ck.
Qed.

(** The red uncle: the two take the blackness of the grandparent. *)
Lemma insert_recolor rec d dp h0 p parent g st s u1 q u2 du k t n :
  at_place h0 (Frame dp RB_RED parent s :: Frame d RB_BLACK g (mk du RB_RED u1 q u2) :: k) t st ->
  path_ok n (Frame dp RB_RED parent s :: Frame d RB_BLACK g (mk du RB_RED u1 q u2) :: k) ->
  bal n t ->
  let t' := mk d RB_RED (mk dp RB_BLACK t parent s) g (mk du RB_BLACK u1 q u2) in
  (forall st', at_place h0 k t' st' -> path_ok (S n) k -> bal (S n) (mk dp RB_BLACK t parent s) ->
    bal (S n) (mk du RB_BLACK u1 q u2) -> insert_done h0 k t' (rec (Some g) st')) ->
  insert_done h0 (Frame dp RB_RED parent s :: Frame d RB_BLACK g (mk du RB_RED u1 q u2) :: k) t
    (insert_round rec d p (Some parent) (Some g) (mk_node dp (Some g) RB_RED (top t) (top s))
      (mk_node d (above k) RB_BLACK (Some parent) (Some q)) st).
Proof.
  intros Hap Hk Ht t' Hrec. cbn [path_ok] in Hk. destruct Hk as (Hs & Hsb & _ & Hu & Hk).
  rewrite bal_mk in Hu. destruct Hu as (Hu1 & Hu2 & _ & _). unfold insert_round. autorewrite with rb. cbn [nonnull node].
  set (pt := mk dp RB_RED t parent s).
  view Hap (Frame (flip d) RB_BLACK g pt :: k) (mk du RB_RED u1 q u2).
  rewrite (place_node _ _ _ _ _ _ _ _ Hap). cbn [mbind option_bind]. autorewrite with rb.
  destruct (recolor_place _ _ _ _ RB_BLACK _ _ _ _ Hap) as (st1 & E1 & Hap1). rewrite bool_decide_true by done.
  rewrite E1. cbn [mbind option_bind].
  view Hap1 (Frame d RB_BLACK g (mk du RB_BLACK u1 q u2) :: k) pt.
  destruct (recolor_place _ _ _ _ RB_BLACK _ _ _ _ Hap1) as (st2 & E2 & Hap2). rewrite E2. cbn [mbind option_bind].
  view Hap2 k (mk d RB_BLACK (mk dp RB_BLACK t parent s) g (mk du RB_BLACK u1 q u2)).
  destruct (recolor_place _ _ _ _ RB_RED _ _ _ _ Hap2) as (st3 & E3 & Hap3). rewrite E3. cbn [mbind option_bind].
  destruct (Hrec st3 Hap3 Hk) as (st' & t2 & m & E & H1 & H2 & H3); [rewrite bal_mk; by exists n..|].
  exists st', t2, m. split; [done|]. split; [done|]. split; [done|]. rewrite H3. cbn [plug]. apply plug_elems.
  unfold close, t'. cbn. by destruct d, dp, du.
Qed.


(** The same nodes in the same order. *)
Ltac in_order := cbn; repeat (rewrite <- app_assoc; cbn); reflexivity.

Lemma red_test h rt par u : rep h par u ->
  (if nonnull (top u) then n ← node (top u) {| root := rt; nodes := h |}; Some (rb_is_red n) else Some false) = Some (negb (is_black u)).
Proof.
  destruct u as [|c l p r]; cbn; [done|]. intros [-> _]. cbn. by destruct c.
Qed.

Lemma black_test st par u : rep (nodes st) par u -> black_or_null (top u) st = Some (is_black u).
Proof. destruct u as [|c l p r]; cbn; [done|]. intros [-> _]. cbn. by destruct c. Qed.

Lemma root_eta st : st = {| root := root st; nodes := nodes st |}.
Proof. by destruct st. Qed.

(** The place where two red nodes follow each other on the same side, below a
    black one: a rotation ends it. *)
Lemma insert_finish fuel d h0 x1 q x2 P b g u k st n :
  at_place h0 (Frame d RB_BLACK g u :: k) (mk d RB_RED (mk d RB_RED x1 q x2) P b) st -> is_black u = true ->
  path_ok (S n) k -> bal n u -> bal n (mk d RB_RED x1 q x2) -> bal n b -> is_black b = true ->
  insert_done h0 (Frame d RB_BLACK g u :: k) (mk d RB_RED (mk d RB_RED x1 q x2) P b)
    (t ← write (Some P) (rb_set_color RB_BLACK) st;
     t ← write (Some g) (rb_set_color RB_RED) t;
     t ← rotate (flip d) (Some g) t;
     insert_color_loop (S fuel) (Some q) t).
Proof.
  intros Hap Hub Hk Hu Hx Hb Hbb. set (x := mk d RB_RED x1 q x2) in *.
  destruct (recolor_place _ _ _ _ RB_BLACK _ _ _ _ Hap) as (st1 & E1 & Hap1). rewrite E1. cbn [mbind option_bind].
  view Hap1 k (mk d RB_BLACK (mk d RB_BLACK x P b) g u).
  destruct (recolor_place _ _ _ _ RB_RED _ _ _ _ Hap1) as (st2 & E2 & Hap2). rewrite E2. cbn [mbind option_bind].
  rewrite <- (mk_flip d RB_RED), <- (mk_flip d RB_BLACK) in Hap2.
  destruct (rotate_spec _ _ _ _ _ _ _ _ _ _ _ Hap2) as (st3 & E3 & Hap3). rewrite E3. cbn [mbind option_bind].
  rewrite mk_flip in Hap3. set (y := mk (flip d) RB_RED u g b) in *. view Hap3 (Frame d RB_BLACK P y :: k) x.
  destruct (insert_stop fuel h0 (Frame d RB_BLACK P y :: k) d RB_RED x1 q x2 st3 n Hap3) as (st' & t' & m & E & H1 & H2 & H3);
    [done|split; [|done]; unfold y; rewrite bal_mk; done|done|].
  exists st', t', m. split; [done|]. split; [done|]. split; [done|]. rewrite H3. cbn [plug]. apply plug_elems.
  unfold close, y, x. cbn. destruct d; in_order.
Qed.

(** The black uncle. *)
Lemma insert_rotate fuel d dp h0 a p b parent s g u k st n :
  at_place h0 (Frame dp RB_RED parent s :: Frame d RB_BLACK g u :: k) (mk d RB_RED a p b) st -> is_black u = true ->
  path_ok n (Frame dp RB_RED parent s :: Frame d RB_BLACK g u :: k) -> bal n (mk d RB_RED a p b) ->
  insert_done h0 (Frame dp RB_RED parent s :: Frame d RB_BLACK g u :: k) (mk d RB_RED a p b)
    (insert_round (insert_color_loop (S fuel)) d (Some p) (Some parent) (Some g)
      (mk_node dp (Some g) RB_RED (Some p) (top s)) (mk_node d (above k) RB_BLACK (Some parent) (top u)) st).
Proof.
  intros Hap Hub Hk Ht. cbn [path_ok] in Hk. destruct Hk as (Hs & Hsb & _ & Hu & Hk).
  unfold insert_round. autorewrite with rb.
  assert (rep (nodes st) (Some g) u) as Hru by apply (ap_path _ _ _ _ Hap). rewrite (root_eta st) at 1.
  rewrite (red_test _ _ _ _ Hru), Hub. cbn [negb mbind option_bind].
  destruct (decide (dp = d)) as [->|Hdp].
  - autorewrite with rb. rewrite decide_False.
    + cbn [mbind option_bind]. view Hap (Frame d RB_BLACK g u :: k) (mk d RB_RED (mk d RB_RED a p b) parent s).
      by apply (insert_finish fuel d h0 a p b parent s g u k st n).
    + intros E%top_elem. pose proof (ap_nodup _ _ _ _ Hap) as Hnd. rewrite elems_mk in Hnd. cbn in Hnd.
      assert (NoDup (parent :: p :: elems s ++ elems a ++ elems b ++ g :: elems u ++ around k)) as Hnd2.
      { revert Hnd. apply NoDup_Permutation_proper. solve_Permutation. }
      nodups Hnd2. set_solver.
  - assert (dp = flip d) as -> by (by destruct d, dp). autorewrite with rb. rewrite decide_True by done.
    view Hap (Frame d RB_BLACK g u :: k) (mk d RB_RED s parent (mk d RB_RED a p b)).
    destruct (rotate_spec _ _ _ _ _ _ _ _ _ _ _ Hap) as (st1 & E1 & Hap1). rewrite E1. cbn [mbind option_bind].
    rewrite bal_mk in Ht. destruct Ht as (Ha & Hb & Hab & Hbb).
    destruct (insert_finish fuel d h0 s parent a p b g u k st1 n Hap1) as (st' & t' & m & E & H1 & H2 & H3); try done.
    { rewrite bal_mk. done. }
    exists st', t', m. split; [done|]. split; [done|]. split; [done|]. rewrite H3. cbn [plug]. apply plug_elems.
    unfold close. cbn. destruct d; in_order.
Qed.

Lemma mk_side d d' c a p b : exists a' b', mk d c a p b = mk d' c a' p b'.
Proof. destruct d, d'; [by exists a, b|by exists b, a|by exists b, a|by exists a, b]. Qed.

Lemma insert_loop_spec fuel : forall h0 k d a p b st n,
  at_place h0 k (mk d RB_RED a p b) st -> path_ok n k -> bal n (mk d RB_RED a p b) -> (length k < fuel)%nat ->
  insert_done h0 k (mk d RB_RED a p b) (insert_color_loop fuel (Some p) st).
Proof.
  induction fuel as [fuel IH] using lt_wf_ind. intros h0 k d a p b st n Hap Hk Hb Hf. destruct fuel as [|fuel]; [lia|].
  destruct (red_above k) eqn:Er; [|by apply (insert_stop fuel h0 k d _ a p b st n)].
  destruct k as [|[dp [] parent s] k1]; [done| |done]. cbn [path_ok] in Hk. pose proof Hk as (Hs & Hsb & Hne & Hk1).
  destruct k1 as [|[dg [] g u] k]; [done|done|]. rewrite insert_loop_eq. cbn [node].
  rewrite (place_node _ _ _ _ _ _ _ _ Hap). cbn [mbind option_bind]. autorewrite with rb. cbn [above fr_ptr node].
  pose proof (place_above _ _ _ _ _ _ _ _ Hap) as Hpn. autorewrite with rb in Hpn. rewrite Hpn. cbn [mbind option_bind].
  autorewrite with rb. cbn [above fr_ptr node]. rewrite bool_decide_true by done. cbn [negb].
  pose proof Hap as Hg. view Hg (Frame dg RB_BLACK g u :: k) (mk dp RB_RED (mk d RB_RED a p b) parent s).
  pose proof (ap_nodup _ _ _ _ Hg) as Hnd. apply place_above in Hg. autorewrite with rb in Hg. rewrite Hg. cbn [mbind option_bind].
  set (gn := mk_node dg (above k) RB_BLACK (Some parent) (top u)). set (pn := mk_node dp (Some g) RB_RED (Some p) (top s)).
  assert (forall rec, (if decide (Some parent = rb_left gn) then insert_round rec L (Some p) (Some parent) (Some g) pn gn st
    else insert_round rec R (Some p) (Some parent) (Some g) pn gn st) = insert_round rec dg (Some p) (Some parent) (Some g) pn gn st) as Hside.
  { intros rec. unfold gn. destruct dg; cbn [rb_left mk_node]; [by rewrite decide_True|]. rewrite decide_False; [done|].
    intros E. symmetry in E. apply top_elem in E. rewrite elems_mk in Hnd. cbn in Hnd. nodups Hnd. set_solver. }
  rewrite Hside. clear Hside Hnd. destruct (mk_side d dg RB_RED a p b) as (a' & b' & Et). rewrite Et in *.
  destruct (is_black u) eqn:Eu.
  - destruct fuel as [|fuel]; [cbn in Hf; lia|]. by apply (insert_rotate fuel dg dp h0 a' p b' parent s g u k st n).
  - destruct u as [|[] u1 q u2]; [done| |done].
    pose proof (insert_recolor (insert_color_loop fuel) dg dp h0 (Some p) parent g st s u1 q u2 L k (mk dg RB_RED a' p b') n Hap Hk Hb) as HR.
    autorewrite with rb in HR. apply HR. intros st' Hap' Hk' H1 H2.
    apply (IH fuel ltac:(lia) h0 k dg _ g _ st' (S n)); [done|done| |cbn in Hf; lia].
    rewrite bal_mk. split; [done|]. split; [done|]. by rewrite is_black_mk.
Qed.


(** The tree of a root. *)
Record holds (st : rb_root) (t : tree) : Prop := {
  ho_rep : rep (nodes st) None t;
  ho_root : root st = top t;
  ho_nodup : NoDup (elems t)
}.

Lemma holds_place st t : holds st t <-> at_place (nodes st) [] t st.
Proof. split; intros []; by constructor. Qed.

Lemma place_holds h0 k t st : at_place h0 k t st -> holds st (plug k t).
Proof. intros H. apply place_whole in H as [H1 H2 H3 _]. by constructor. Qed.

(** The nodes before and after a place. *)
Fixpoint before (k : list frame) : list ptr :=
  match k with
  | [] => []
  | Frame L _ p s :: k => before k
  | Frame R _ p s :: k => before k ++ elems s ++ [p]
  end.

Fixpoint after (k : list frame) : list ptr :=
  match k with
  | [] => []
  | Frame L _ p s :: k => p :: elems s ++ after k
  | Frame R _ p s :: k => after k
  end.

Lemma plug_order k : forall t, elems (plug k t) = before k ++ elems t ++ after k.
Proof.
  induction k as [|[[] c p s] k IH]; intros t; cbn [plug before after]; [by rewrite app_nil_r|..]; rewrite IH; unfold close; cbn;
    rewrite <- !app_assoc; cbn; by rewrite <- ?app_assoc.
Qed.

(** Where a node is. *)
Lemma find_place t p : p ∈ elems t -> exists k c l r, t = plug k (Node c l p r).
Proof.
  enough (forall k0, p ∈ elems t -> exists k c l r, plug k0 t = plug k (Node c l p r)) as H by apply (H []).
  induction t as [|c l IHl q r IHr]; intros k0; cbn [elems]; [set_solver|]. rewrite elem_of_app, elem_of_cons.
  intros [Hp|[->|Hp]].
  - by destruct (IHl (Frame L c q r :: k0) Hp) as (k & c' & l' & r' & E); exists k, c', l', r'.
  - by exists k0, c, l, r.
  - by destruct (IHr (Frame R c q l :: k0) Hp) as (k & c' & l' & r' & E); exists k, c', l', r'.
Qed.

(** *** Fuel *)

Lemma size_bound (h : gmap ptr rb_node) (l : list ptr) :
  NoDup l -> (forall q, q ∈ l -> is_Some (h !! q)) -> (length l <= size h)%nat.
Proof.
  intros Hnd Hin. rewrite <- size_dom. rewrite <- (size_list_to_set (C := gset ptr) l Hnd). apply subseteq_size.
  intros q Hq%elem_of_list_to_set. apply elem_of_dom. by apply Hin.
Qed.

Lemma path_elem h hole k rt q : rep_path h hole k rt -> q ∈ around k -> is_Some (h !! q).
Proof.
  revert hole. induction k as [|[d c p s] k IH]; intros hole; cbn [rep_path around fr_ptr fr_other]; [set_solver|].
  intros (Hp & Hs & Hk). rewrite elem_of_cons, elem_of_app. intros [->|[?|?]]; [by rewrite Hp|by eapply rep_elem|by eapply IH].
Qed.

Lemma place_size h0 k t st : at_place h0 k t st -> (length (around k) + length (elems t) < walk_fuel st)%nat.
Proof.
  intros [H1 H2 H3 _]. unfold walk_fuel. rewrite <- length_app. apply Nat.lt_succ_r, size_bound; [done|].
  intros q [?|?]%elem_of_app; [by eapply path_elem|by eapply rep_elem].
Qed.

Lemma length_around k : (length k <= length (around k))%nat.
Proof. induction k as [|[d c p s] k IH]; cbn; [lia|]. rewrite length_app. lia. Qed.

(** *** The new node *)

Definition link_of (k : list frame) : link :=
  match k with [] => RootLink | Frame L _ p _ :: _ => LeftLink p | Frame R _ p _ :: _ => RightLink p end.

Lemma link_place h0 k p st :
  at_place h0 k Nil st -> p ∉ around k ->
  exists st', rb_link_node p (above k) (link_of k) st = Some st' /\ at_place h0 k (Node RB_RED Nil p Nil) st'.
Proof.
  intros [_ H2 H3 H4] Hp. cbn [elems top] in *. rewrite app_nil_r in H3, H4. unfold rb_link_node.
  set (n := mk_node L (above k) RB_RED None None). set (h1 := <[p := n]> (nodes st)).
  assert (rep_path h1 None k (root st)) as Hk1.
  { apply (rep_path_ext (nodes st)); [|done]. intros q Hq. unfold h1. rewrite lookup_insert_ne; [done|set_solver]. }
  assert (NoDup (around k ++ [p])) as Hnd. { apply NoDup_app. split; [done|]. split; [set_solver|apply NoDup_singleton]. }
  destruct k as [|[d c g s] k]; cbn [link_of above fr_ptr].
  - eexists. split; [done|]. constructor; cbn; [split; [apply lookup_insert_eq|done]|done|done|].
    intros q Hq. rewrite lookup_insert_ne by set_solver. apply H4. set_solver.
  - cbn [rep_path] in Hk1. destruct Hk1 as (Hg & Hs & Hk). set (st1 := {| root := root st; nodes := h1 |}).
    assert (match d with L => LeftLink g | R => RightLink g end = link_of (Frame d c g s :: k)) as El by (by destruct d).
    assert (match link_of (Frame d c g s :: k) with
            | RootLink => Some (set_root (Some p) st1)
            | LeftLink q => write (Some q) (set_left (Some p)) st1
            | RightLink q => write (Some q) (set_right (Some p)) st1
            end = write (Some g) (set_child d (Some p)) st1) as E by (by destruct d).
    change (nodes st1 !! g = Some (mk_node d (above k) c None (top s))) in Hg. rewrite (write_spec g _ st1 _ Hg) in E.
    autorewrite with rb in E. eexists. split; [exact E|].
    pose proof (frames_write g (mk_node d (above k) c (Some p) (top s)) st1 _ Hg) as F. cbn [around fr_ptr fr_other] in *.
    pose proof Hnd as Hall. cbn in H3. nodups H3. constructor; cbn [above fr_ptr rep_path elems top].
    + split; [|done]. rewrite (fs_other _ _ _ F) by set_solver. apply lookup_insert_eq.
    + split; [apply lookup_insert_eq|].
      split; [apply (frames_rep _ _ _ _ _ F)|apply (frames_path _ _ _ _ _ _ F)]; (set_solver || done).
    + done.
    + intros q Hq. cbn [app around fr_ptr fr_other] in Hq. rewrite (fs_other _ _ _ F) by set_solver. cbn. unfold h1.
      rewrite lookup_insert_ne by set_solver. apply H4. set_solver.
Qed.

Lemma insert_color_spec h0 k p st n :
  at_place h0 k (Node RB_RED Nil p Nil) st -> path_ok n k -> n = 0%nat ->
  exists st' t', rb_insert_color p st = Some st' /\ at_place h0 [] t' st' /\ red_black t' /\
    elems t' = elems (plug k (Node RB_RED Nil p Nil)).
Proof.
  intros Hap Hk ->. pose proof (place_size _ _ _ _ Hap) as Hf. pose proof (length_around k).
  destruct (insert_loop_spec (walk_fuel st) h0 k L Nil p Nil st 0 Hap Hk) as (st1 & t1 & m & E & H1 & H2 & H3);
    [rewrite bal_mk; repeat constructor|lia|].
  unfold rb_insert_color. rewrite E. cbn [mbind option_bind].
  assert (p ∈ elems t1) as Hin by (rewrite H3, plug_order; set_solver). destruct t1 as [|c l q r]; [set_solver|].
  pose proof (ap_path _ _ _ _ H1) as Hr. cbn in Hr. rewrite Hr.
  destruct (recolor_place h0 [] L c RB_BLACK l q r st1 H1) as (st2 & E2 & Hap2). rewrite E2.
  exists st2, (Node RB_BLACK l q r). split; [done|]. split; [done|]. split; [|done]. split; [done|].
  destruct c; [|by exists m]. exists (S m). inversion H2; subst. by constructor.
Qed.

(** ** Removal *)

(** One round of the loop at the [d]-child [p] of [parent]. *)
Definition erase_round (rec : option ptr -> option ptr -> rb_root -> option (option ptr * rb_root)) (d : side)
    (parent : option ptr) (pn : rb_node) (t : rb_root) : option (option ptr * rb_root) :=
  o ← node (child (flip d) pn) t;
  '(other, t) ← (if rb_is_red o then
                   t ← write (child (flip d) pn) (rb_set_color RB_BLACK) t;
                   t ← write parent (rb_set_color RB_RED) t;
                   t ← rotate d parent t;
                   pn ← node parent t;
                   Some (child (flip d) pn, t)
                 else Some (child (flip d) pn, t));
  o ← node other t;
  bl ← black_or_null (rb_left o) t;
  br ← (if (bl : bool) then black_or_null (rb_right o) t else Some false);
  if (bl : bool) && (br : bool) then
    t ← write other (rb_set_color RB_RED) t;
    pn ← node parent t;
    rec parent (rb_parent pn) t
  else
    far ← black_or_null (child (flip d) o) t;
    '(other, t) ← (if (far : bool) then
                     t ← write (child d o) (rb_set_color RB_BLACK) t;
                     t ← write other (rb_set_color RB_RED) t;
                     t ← rotate (flip d) other t;
                     pn ← node parent t;
                     Some (child (flip d) pn, t)
                   else Some (other, t));
    pn ← node parent t;
    t ← write other (rb_set_color (rb_color pn)) t;
    t ← write parent (rb_set_color RB_BLACK) t;
    o ← node other t;
    t ← write (child (flip d) o) (rb_set_color RB_BLACK) t;
    t ← rotate d parent t;
    Some (root t, t).

Lemma erase_loop_eq fuel p parent t :
  erase_color_loop (S fuel) p parent t =
  (black ← black_or_null p t;
   if negb black || bool_decide (p = root t) then Some (p, t)
   else
     pn ← node parent t;
     if decide (rb_left pn = p) then erase_round (erase_color_loop fuel) L parent pn t
     else erase_round (erase_color_loop fuel) R parent pn t).
Proof. done. Qed.

(** The node is coloured black at the end. *)
Definition blacken (o : option (option ptr * rb_root)) : option rb_root :=
  '(p, t) ← o; if nonnull p then write p (rb_set_color RB_BLACK) t else Some t.

Definition erase_done (h0 : gmap ptr rb_node) (E : list ptr) (o : option (option ptr * rb_root)) : Prop :=
  exists st' t', blacken o = Some st' /\ at_place h0 [] t' st' /\ red_black t' /\ elems t' = E.

(** Black height [n], or [n + 1] once the red root is black. *)
Definition short (n : nat) (t : tree) : Prop :=
  match t with Node RB_RED l p r => bal n l /\ bal n r | _ => bal n t end.

(** The loop ends at a red node or at the root. *)
Lemma erase_stop h0 k t st n :
  at_place h0 k t st -> short n t -> (is_black t = false -> path_ok (S n) k) -> is_black t = false \/ k = [] ->
  erase_done h0 (elems (plug k t)) (Some (top t, st)).
Proof.
  intros Hap Hs Hk Ho. destruct t as [|[] l p r]; cbn [top].
  - destruct Ho as [?| ->]; [done|]. exists st, Nil. split; [done|]. split; [done|]. split; [|done]. split; [done|]. by exists n.
  - specialize (Hk eq_refl). destruct (recolor_place h0 k L RB_RED RB_BLACK l p r st Hap) as (st' & E & Hap').
    exists st', (plug k (Node RB_BLACK l p r)). split; [exact E|]. split; [by apply (place_whole h0 k)|].
    split; [|by apply plug_elems]. destruct (plug_bal k (S n) (Node RB_BLACK l p r) Hk) as (m & Hm & Hb); [by constructor; apply Hs|done|].
    split; [by destruct Hb as [?|[_ ?]]|by exists m].
  - destruct Ho as [?| ->]; [done|]. destruct (recolor_place h0 [] L RB_BLACK RB_BLACK l p r st Hap) as (st' & E & Hap').
    exists st', (Node RB_BLACK l p r). split; [exact E|]. split; [done|]. split; [|done]. split; [done|]. by exists n.
Qed.

(** The loop ends with the tree in order. *)
Lemma erase_end h0 k t st n :
  at_place h0 k t st -> bal n t -> path_ok n k -> (red_above k = true -> is_black t = true) -> (k = [] -> is_black t = true) ->
  erase_done h0 (elems (plug k t)) (Some (root st, st)).
Proof.
  intros Hap Hb Hk Hr He. destruct (plug_bal k n t Hk Hb Hr) as (m & Hm & Hbl).
  assert (is_black (plug k t) = true) as Hblack. { destruct Hbl as [?|[Ek Ht]]; [done|]. by rewrite He in Ht. }
  apply place_whole in Hap. pose proof (ap_path _ _ _ _ Hap) as Hroot. cbn in Hroot. rewrite Hroot.
  destruct (erase_stop h0 [] (plug k t) st m Hap) as (st' & t' & E & H1 & H2 & H3); [|congruence|by right|by exists st', t'].
  destruct (plug k t) as [|[] l p r]; [done|done|done].
Qed.

(** The last rotation: the far nephew is red. *)
Lemma erase_last d h0 c t parent N o c2 f1 y f2 k st n :
  at_place h0 (Frame d c parent (mk d RB_BLACK N o (mk d RB_RED f1 y f2)) :: k) t st ->
  path_ok (S n) (Frame d c parent (mk d RB_BLACK N o (mk d RB_RED f1 y f2)) :: k) -> bal n t -> bal n N -> bal n f1 -> bal n f2 ->
  erase_done h0 (elems (plug (Frame d c parent (mk d c2 N o (mk d RB_RED f1 y f2)) :: k) t))
    (pn ← node (Some parent) st;
     t ← write (Some o) (rb_set_color (rb_color pn)) st;
     t ← write (Some parent) (rb_set_color RB_BLACK) t;
     on ← node (Some o) t;
     t ← write (child (flip d) on) (rb_set_color RB_BLACK) t;
     t ← rotate d (Some parent) t;
     Some (root t, t)).
Proof.
  intros Hap Hk Ht HN Hf1 Hf2. cbn [node]. rewrite (place_above _ _ _ _ _ _ _ _ Hap). cbn [mbind option_bind]. autorewrite with rb.
  set (far := mk d RB_RED f1 y f2) in *. assert (top far = Some y) as Hfar by (unfold far; by autorewrite with rb).
  view Hap (Frame (flip d) c parent t :: k) (mk d RB_BLACK N o far).
  destruct (recolor_place _ _ _ _ c _ _ _ _ Hap) as (st1 & E1 & Hap1). rewrite E1. cbn [mbind option_bind].
  view Hap1 k (mk d c t parent (mk d c N o far)).
  destruct (recolor_place _ _ _ _ RB_BLACK _ _ _ _ Hap1) as (st2 & E2 & Hap2). rewrite E2. cbn [mbind option_bind].
  view Hap2 (Frame (flip d) RB_BLACK parent t :: k) (mk d c N o far).
  rewrite (place_node _ _ _ _ _ _ _ _ Hap2). cbn [mbind option_bind]. autorewrite with rb. rewrite Hfar.
  view Hap2 (Frame (flip d) c o N :: Frame (flip d) RB_BLACK parent t :: k) far.
  destruct (recolor_place _ _ _ _ RB_BLACK _ _ _ _ Hap2) as (st3 & E3 & Hap3). rewrite E3. cbn [mbind option_bind].
  view Hap3 k (mk d RB_BLACK t parent (mk d c N o (mk d RB_BLACK f1 y f2))).
  destruct (rotate_spec _ _ _ _ _ _ _ _ _ _ _ Hap3) as (st4 & E4 & Hap4). rewrite E4. cbn [mbind option_bind].
  assert (elems (plug (Frame d c parent (mk d c2 N o far) :: k) t) =
          elems (plug k (mk d c (mk d RB_BLACK t parent N) o (mk d RB_BLACK f1 y f2)))) as ->.
  { cbn [plug]. apply plug_elems. unfold close, far. cbn. destruct d; in_order. }
  destruct c; cbn [path_ok] in Hk.
  - destruct Hk as (_ & _ & Hhead & Hk). apply (erase_end h0 k _ st4 (S n)); [done| |done| |].
    + rewrite bal_mk. split; [rewrite bal_mk; by exists n|]. split; [rewrite bal_mk; by exists n|]. by rewrite !is_black_mk.
    + by destruct k as [|[? [] ? ?] k].
    + by intros ->.
  - destruct Hk as (_ & Hk). apply (erase_end h0 k _ st4 (S (S n))); [done| |done| |].
    + rewrite bal_mk. exists (S n). split; [done|]. split; rewrite bal_mk; by exists n.
    + by rewrite is_black_mk.
    + by rewrite is_black_mk.
Qed.

(** The part of a round after the sibling [o] is black. *)
Definition erase_black (rec : option ptr -> option ptr -> rb_root -> option (option ptr * rb_root)) (d : side)
    (parent other : option ptr) (t : rb_root) : option (option ptr * rb_root) :=
  o ← node other t;
  bl ← black_or_null (rb_left o) t;
  br ← (if (bl : bool) then black_or_null (rb_right o) t else Some false);
  if (bl : bool) && (br : bool) then
    t ← write other (rb_set_color RB_RED) t;
    pn ← node parent t;
    rec parent (rb_parent pn) t
  else
    far ← black_or_null (child (flip d) o) t;
    '(other, t) ← (if (far : bool) then
                     t ← write (child d o) (rb_set_color RB_BLACK) t;
                     t ← write other (rb_set_color RB_RED) t;
                     t ← rotate (flip d) other t;
                     pn ← node parent t;
                     Some (child (flip d) pn, t)
                   else Some (other, t));
    pn ← node parent t;
    t ← write other (rb_set_color (rb_color pn)) t;
    t ← write parent (rb_set_color RB_BLACK) t;
    o ← node other t;
    t ← write (child (flip d) o) (rb_set_color RB_BLACK) t;
    t ← rotate d parent t;
    Some (root t, t).

Lemma red_shape d t : is_black t = false -> exists a p b, t = mk d RB_RED a p b.
Proof. destruct t as [|[] l p r]; [done| |done]. intros _. destruct d; [by exists l, p, r|by exists r, p, l]. Qed.

Lemma black_shape d n t : is_black t = true -> bal (S n) t -> exists a p b, t = mk d RB_BLACK a p b.
Proof.
  destruct t as [|[] l p r]; [intros _ H; inversion H|done|]. intros _ _. destruct d; [by exists l, p, r|by exists r, p, l].
Qed.

Lemma nephews_test d (A : Type) (f : bool -> option A) s1 s2 par c st q :
  rep (nodes st) q s1 -> rep (nodes st) q s2 ->
  (bl ← black_or_null (rb_left (mk_node d par c (top s1) (top s2))) st;
   br ← (if (bl : bool) then black_or_null (rb_right (mk_node d par c (top s1) (top s2))) st else Some false);
   f ((bl : bool) && (br : bool))) = f (is_black s1 && is_black s2).
Proof.
  intros H1 H2. destruct d; cbn [mk_node rb_left rb_right]; rewrite (black_test _ _ _ H1), (black_test _ _ _ H2);
    cbn [mbind option_bind]; by destruct (is_black s1), (is_black s2).
Qed.

(** The near nephew is red, and the far one is not: a rotation of the sibling
    makes the far one red. *)
Lemma erase_turn d h0 c t parent e1 x e2 o s2 k st n :
  at_place h0 (Frame d c parent (mk d RB_BLACK (mk d RB_RED e1 x e2) o s2) :: k) t st ->
  path_ok (S n) (Frame d c parent (mk d RB_BLACK (mk d RB_RED e1 x e2) o s2) :: k) -> is_black s2 = true ->
  exists st',
    (t ← write (Some x) (rb_set_color RB_BLACK) st;
     t ← write (Some o) (rb_set_color RB_RED) t;
     t ← rotate (flip d) (Some o) t;
     pn ← node (Some parent) t;
     Some (child (flip d) pn, t)) = Some (Some x, st') /\
    at_place h0 (Frame d c parent (mk d RB_BLACK e1 x (mk d RB_RED e2 o s2)) :: k) t st' /\
    path_ok (S n) (Frame d c parent (mk d RB_BLACK e1 x (mk d RB_RED e2 o s2)) :: k) /\ bal n e1 /\ bal n e2 /\ bal n s2.
Proof.
  intros Hap Hk Hb2. assert (bal (S n) (mk d RB_BLACK (mk d RB_RED e1 x e2) o s2)) as Hs by (destruct c; apply Hk).
  rewrite bal_mk in Hs. destruct Hs as (n' & [= <-] & Hs1 & Hs2). rewrite bal_mk in Hs1. destruct Hs1 as (He1 & He2 & Hbe1 & Hbe2).
  view Hap (Frame d RB_BLACK o s2 :: Frame (flip d) c parent t :: k) (mk d RB_RED e1 x e2).
  destruct (recolor_place _ _ _ _ RB_BLACK _ _ _ _ Hap) as (st1 & E1 & Hap1). rewrite E1. cbn [mbind option_bind].
  view Hap1 (Frame (flip d) c parent t :: k) (mk d RB_BLACK (mk d RB_BLACK e1 x e2) o s2).
  destruct (recolor_place _ _ _ _ RB_RED _ _ _ _ Hap1) as (st2 & E2 & Hap2). rewrite E2. cbn [mbind option_bind].
  rewrite <- (mk_flip d RB_RED), <- (mk_flip d RB_BLACK) in Hap2.
  destruct (rotate_spec _ _ _ _ _ _ _ _ _ _ _ Hap2) as (st3 & E3 & Hap3). rewrite E3. cbn [mbind option_bind].
  rewrite !mk_flip in Hap3. view Hap3 (Frame d c parent (mk d RB_BLACK e1 x (mk d RB_RED e2 o s2)) :: k) t. cbn [node].
  rewrite (place_above _ _ _ _ _ _ _ _ Hap3). cbn [mbind option_bind]. autorewrite with rb. exists st3.
  split; [done|]. split; [done|]. split; [|done].
  assert (bal (S n) (mk d RB_BLACK e1 x (mk d RB_RED e2 o s2))) by (rewrite bal_mk; exists n; split; [done|]; split; [done|]; by rewrite bal_mk).
  destruct c; cbn [path_ok] in *; rewrite ?is_black_mk; tauto.
Qed.

Lemma erase_black_spec rec d h0 c t parent s1 o s2 k st n :
  at_place h0 (Frame d c parent (mk d RB_BLACK s1 o s2) :: k) t st ->
  path_ok (S n) (Frame d c parent (mk d RB_BLACK s1 o s2) :: k) -> bal n t ->
  (forall st', at_place h0 k (mk d c t parent (mk d RB_RED s1 o s2)) st' -> is_black s1 = true -> is_black s2 = true ->
    erase_done h0 (elems (plug k (mk d c t parent (mk d RB_RED s1 o s2)))) (rec (Some parent) (above k) st')) ->
  erase_done h0 (elems (plug (Frame d c parent (mk d RB_BLACK s1 o s2) :: k) t)) (erase_black rec d (Some parent) (Some o) st).
Proof.
  intros Hap Hk Ht Hrec. unfold erase_black. cbn [node].
  assert (bal (S n) (mk d RB_BLACK s1 o s2)) as Hs by (destruct c; apply Hk).
  rewrite bal_mk in Hs. destruct Hs as (n' & [= <-] & Hs1 & Hs2). pose proof Hap as Ho.
  view Ho (Frame (flip d) c parent t :: k) (mk d RB_BLACK s1 o s2). rewrite (place_node _ _ _ _ _ _ _ _ Ho).
  pose proof (ap_tree _ _ _ _ Ho) as Hrep. rewrite rep_mk in Hrep. destruct Hrep as (_ & Hr1 & Hr2). cbn [mbind option_bind].
  rewrite (nephews_test d _ (fun b => if b then _ else _) s1 s2 _ _ st (Some o) Hr1 Hr2). autorewrite with rb.
  rewrite (black_test _ _ _ Hr2). cbn [mbind option_bind].
  destruct (is_black s2) eqn:Eb2; [destruct (is_black s1) eqn:Eb1|]; rewrite ?andb_false_r; cbn [andb].
  - destruct (recolor_place _ _ _ _ RB_RED _ _ _ _ Ho) as (st1 & E1 & Hap1). rewrite E1. cbn [mbind option_bind].
    view Hap1 k (mk d c t parent (mk d RB_RED s1 o s2)). cbn [node]. rewrite (place_node _ _ _ _ _ _ _ _ Hap1).
    cbn [mbind option_bind]. autorewrite with rb. specialize (Hrec _ Hap1 eq_refl eq_refl).
    assert (elems (plug (Frame d c parent (mk d RB_BLACK s1 o s2) :: k) t) = elems (plug k (mk d c t parent (mk d RB_RED s1 o s2)))) as ->; [|done].
    cbn [plug]. apply plug_elems. unfold close. by destruct d.
  - destruct (red_shape d s1 Eb1) as (e1 & x & e2 & ->). autorewrite with rb.
    destruct (erase_turn d h0 c t parent e1 x e2 o s2 k st n Hap Hk Eb2) as (st1 & E1 & Hap1 & Hk1 & H1 & H2 & H3).
    cbn [node] in *. rewrite E1. cbn [mbind option_bind].
    assert (elems (plug (Frame d c parent (mk d RB_BLACK (mk d RB_RED e1 x e2) o s2) :: k) t) =
            elems (plug (Frame d c parent (mk d RB_BLACK e1 x (mk d RB_RED e2 o s2)) :: k) t)) as ->.
    { cbn [plug]. apply plug_elems. unfold close. cbn. destruct d; in_order. }
    by apply (erase_last d h0 c t parent e1 x RB_BLACK e2 o s2 k st1 n).
  - destruct (red_shape d s2 Eb2) as (f1 & y & f2 & ->). rewrite bal_mk in Hs2. cbn [mbind option_bind].
    apply (erase_last d h0 c t parent s1 o RB_BLACK f1 y f2 k st n); try done; apply Hs2.
Qed.

(** A round: a red sibling is turned into a black one first. *)
Lemma erase_round_spec rec d h0 c t parent s k st n :
  at_place h0 (Frame d c parent s :: k) t st -> path_ok (S n) (Frame d c parent s :: k) -> bal n t ->
  (forall c' s' k' st', at_place h0 k' (mk d c' t parent s') st' -> bal n s' ->
    (c' = RB_RED /\ path_ok (S n) k' \/ k' = k /\ c' = RB_BLACK /\ path_ok (S (S n)) k) ->
    erase_done h0 (elems (plug k' (mk d c' t parent s'))) (rec (Some parent) (above k') st')) ->
  erase_done h0 (elems (plug (Frame d c parent s :: k) t))
    (erase_round rec d (Some parent) (mk_node d (above k) c (top t) (top s)) st).
Proof.
  intros Hap Hk Ht Hrec. unfold erase_round. autorewrite with rb.
  assert (bal (S n) s) as Hs by (destruct c; apply Hk).
  pose proof (ap_path _ _ _ _ Hap) as (_ & Hrs & _). cbn [fr_ptr] in Hrs.
  destruct (is_black s) eqn:Es.
  - destruct (black_shape d n s Es Hs) as (s1 & o & s2 & ->). rewrite rep_mk in Hrs. destruct Hrs as (Ho & _).
    autorewrite with rb. cbn [node]. rewrite Ho. cbn [mbind option_bind]. rewrite is_red_mk, bool_decide_false by done.
    cbn [mbind option_bind]. rewrite bal_mk in Hs. destruct Hs as (n' & [= <-] & Hs1 & Hs2).
    apply (erase_black_spec rec d h0 c t parent s1 o s2 k st n); [done|done|done|]. intros st' Hap' H1 H2.
    apply Hrec; [done|by rewrite bal_mk|]. destruct c; cbn [path_ok] in Hk; [left|right]; tauto.
  - destruct (red_shape d s Es) as (s1 & o & s2 & ->). destruct c; [destruct Hk as (_ & Hk & _); congruence|].
    destruct Hk as (_ & Hk). rewrite rep_mk in Hrs. destruct Hrs as (Ho & _).
    autorewrite with rb. cbn [node]. rewrite Ho. cbn [mbind option_bind]. rewrite is_red_mk, bool_decide_true by done.
    rewrite bal_mk in Hs. destruct Hs as (Hs1 & Hs2 & Hb1 & Hb2).
    view Hap (Frame (flip d) RB_BLACK parent t :: k) (mk d RB_RED s1 o s2).
    destruct (recolor_place _ _ _ _ RB_BLACK _ _ _ _ Hap) as (st1 & E1 & Hap1). rewrite E1. cbn [mbind option_bind].
    view Hap1 k (mk d RB_BLACK t parent (mk d RB_BLACK s1 o s2)).
    destruct (recolor_place _ _ _ _ RB_RED _ _ _ _ Hap1) as (st2 & E2 & Hap2). rewrite E2. cbn [mbind option_bind].
    destruct (rotate_spec _ _ _ _ _ _ _ _ _ _ _ Hap2) as (st3 & E3 & Hap3). rewrite E3. cbn [mbind option_bind].
    view Hap3 (Frame d RB_RED parent s1 :: Frame d RB_BLACK o s2 :: k) t.
    pose proof (place_above _ _ _ _ _ _ _ _ Hap3) as Hp. cbn [node]. rewrite Hp. cbn [mbind option_bind]. autorewrite with rb.
    assert (elems (plug (Frame d RB_BLACK parent (mk d RB_RED s1 o s2) :: k) t) =
            elems (plug (Frame d RB_RED parent s1 :: Frame d RB_BLACK o s2 :: k) t)) as ->.
    { cbn [plug]. apply plug_elems. unfold close. cbn. destruct d; in_order. }
    destruct (black_shape d n s1 Hb1 Hs1) as (e1 & x & e2 & ->). autorewrite with rb.
    assert (path_ok (S n) (Frame d RB_BLACK o s2 :: k)) as Hk' by done. pose proof Hs1 as He.
    rewrite bal_mk in He. destruct He as (n' & [= <-] & He1 & He2).
    apply (erase_black_spec rec d h0 RB_RED t parent e1 x e2 _ st3 n); [done|done|done|]. intros st' Hap' H1 H2.
    apply Hrec; [done|by rewrite bal_mk|by left].
Qed.

Lemma path_root h hole k rt : rep_path h hole k rt -> k <> [] -> exists q, rt = Some q /\ q ∈ around k.
Proof.
  revert hole. induction k as [|[d c p s] k IH]; intros hole; [done|]. cbn [rep_path around fr_ptr fr_other]. intros (_ & _ & Hk) _.
  destruct k as [|f k]; [cbn in Hk; exists p; set_solver|]. destruct (IH _ Hk) as (q & -> & Hq); [done|]. exists q. set_solver.
Qed.

Lemma place_root h0 k t st : at_place h0 k t st -> bool_decide (top t = root st) = bool_decide (k = []).
Proof.
  intros [_ Hk Hnd _]. apply bool_decide_ext. split; [|by intros ->]. intros Et. destruct k as [|f k]; [done|].
  destruct (path_root _ _ _ _ Hk) as (q & Eq & Hq); [done|]. rewrite Eq in Et. apply top_elem in Et.
  apply NoDup_app in Hnd as (_ & Hd & _). by destruct (Hd q).
Qed.

Lemma bal_nonnil n t : bal (S n) t -> is_Some (top t).
Proof. destruct t; [intros H; inversion H|done]. Qed.

Lemma erase_loop_spec fuel : forall h0 k t st n,
  at_place h0 k t st -> short n t -> path_ok (S n) k -> (length k < fuel)%nat ->
  erase_done h0 (elems (plug k t)) (erase_color_loop fuel (top t) (above k) st).
Proof.
  induction fuel as [|fuel IH]; intros h0 k t st n Hap Hs Hk Hf; [lia|]. rewrite erase_loop_eq.
  rewrite (black_test _ _ _ (ap_tree _ _ _ _ Hap)), (place_root _ _ _ _ Hap). cbn [mbind option_bind].
  destruct (is_black t) eqn:Et; cbn [negb orb]; [|apply (erase_stop h0 k t st n); auto].
  case_bool_decide as Ek; [apply (erase_stop h0 k t st n); try done; by right|].
  assert (bal n t) as Ht by (by destruct t as [|[] l p r]).
  destruct k as [|[d c parent s] k]; [done|]. cbn [above fr_ptr node]. rewrite (place_above _ _ _ _ _ _ _ _ Hap).
  cbn [mbind option_bind]. set (pn := mk_node d (above k) c (top t) (top s)).
  assert ((if decide (rb_left pn = top t) then erase_round (erase_color_loop fuel) L (Some parent) pn st
           else erase_round (erase_color_loop fuel) R (Some parent) pn st) = erase_round (erase_color_loop fuel) d (Some parent) pn st) as ->.
  { unfold pn. destruct d; cbn [rb_left mk_node]; [by rewrite decide_True|]. rewrite decide_False; [done|]. intros E.
    assert (bal (S n) s) as Hbs by (destruct c; apply Hk). destruct (bal_nonnil _ _ Hbs) as [q Hq]. rewrite Hq in E.
    symmetry in E. apply top_elem in E, Hq. pose proof (ap_nodup _ _ _ _ Hap) as Hnd. cbn in Hnd. nodups Hnd. set_solver. }
  apply (erase_round_spec _ d h0 c t parent s k st n); [done|done|done|]. intros c' s' k' st' Hap' Hs' Hc.
  destruct fuel as [|fuel]; [cbn in Hf; lia|]. cbn in Hf. destruct Hc as [[-> Hk']|(-> & -> & Hk')].
  - rewrite <- (top_mk d RB_RED t parent s'), erase_loop_eq.
    rewrite (black_test _ _ _ (ap_tree _ _ _ _ Hap')). cbn [mbind option_bind]. rewrite is_black_mk, bool_decide_false by done. cbn [negb orb].
    apply (erase_stop h0 k' _ st' n); [done| |done|left; by rewrite is_black_mk].
    by destruct d.
  - rewrite <- (top_mk d RB_BLACK t parent s'). apply (IH h0 k _ st' (S n)); [done| |done|lia].
    assert (bal (S n) (mk d RB_BLACK t parent s')) by (rewrite bal_mk; by exists n). by destruct d.
Qed.
