(* ===== verification/RbtreeSpec.v ===== *)
(** * RbtreeSpec: what the red-black tree operations promise

    Taking a node out of the tree, the walks in order, and the contract of every
    operation: seen from outside a tree is the list of its nodes in order, an
    operation changes that list and no node of another structure, and the height
    stays logarithmic. *)

From S2P Require Import Prelude Rbtree RbtreeInv.

(** ** Taking a node out *)

Lemma relink_eq parent old new t : relink parent old new t = relink_to L parent old new t.
Proof.
  unfold relink, relink_to. destruct (nonnull parent); [|done]. destruct (node parent t) as [g|]; [|done].
  cbn [mbind option_bind child]. destruct (decide (rb_left g = old)), (decide (old = rb_left g)); first [done|congruence].
Qed.

(** The colours are put right after a node left a place. *)
Lemma erase_fix h0 k d c p t st n :
  at_place h0 k t st -> path_ok n k -> bal n (mk d c Nil p t) -> (red_above k = true -> c = RB_BLACK) -> (k = [] -> c = RB_BLACK) ->
  exists st' t', (if decide (c = RB_BLACK) then rb_erase_color (top t) (above k) st else Some st) = Some st' /\
    at_place h0 [] t' st' /\ red_black t' /\ elems t' = elems (plug k t).
Proof.
  intros Hap Hk Hb Hr He. rewrite bal_mk in Hb. destruct c.
  - destruct Hb as (_ & Hb & _ & Hbt). rewrite decide_False by done. exists st, (plug k t). split; [done|].
    split; [by apply (place_whole h0 k)|]. split; [|done]. destruct (plug_bal k n t Hk Hb) as (m & Hm & Ho); [done|].
    split; [|by exists m]. destruct Ho as [?|[Ek _]]; [done|]. by specialize (He Ek).
  - destruct Hb as (m & -> & _ & Hb). rewrite decide_True by done.
    pose proof (place_size _ _ _ _ Hap) as Hf. pose proof (length_around k).
    destruct (erase_loop_spec (walk_fuel st) h0 k t st m) as (st' & t' & E & H1 & H2 & H3);
      [done| |done|lia|by exists st', t'].
    destruct t as [|[] l q r]; [done| |done]. inversion Hb; subst. done.
Qed.

(** A node with at most one child. *)
Lemma single_place h0 k d c p t st :
  at_place h0 k (mk d c Nil p t) st ->
  exists st', erase_single p (top t) st = Some (top t, above k, c, st') /\
    at_place (<[p := mk_node d (above k) c None (top t)]> h0) k t st'.
Proof.
  intros Hap. pose proof (place_node _ _ _ _ _ _ _ _ Hap) as Hp. destruct Hap as [H1 H2 H3 H4].
  rewrite rep_mk in H1. rewrite top_mk in H2. destruct H1 as (_ & _ & Ht). unfold erase_single. rewrite Hp. cbn [mbind option_bind].
  autorewrite with rb. assert (around k ++ elems (mk d c Nil p t) ≡ₚ p :: elems t ++ around k) as HP
    by (rewrite elems_mk; cbn; solve_Permutation).
  rewrite HP in H3. nodups H3.
  destruct (reparent_top t (above k) st (Some p) Ht) as (st1 & E1 & Ht1 & F1 & R1); [done|]. rewrite E1. cbn [mbind option_bind].
  rewrite relink_eq. destruct (relink_place L p (top t) st1 k) as (st2 & E2 & Hk2 & F2); [|done|set_solver|].
  { apply (frames_path _ _ _ _ _ _ F1); [set_solver|]. rewrite R1. exact H2. }
  rewrite E2. cbn [mbind option_bind]. exists st2. split; [done|].
  pose proof (frames_trans _ _ _ _ _ F1 F2) as F. constructor; [|done| |].
  - apply (frames_rep _ _ _ _ _ F2); [set_solver|done].
  - apply NoDup_app. split; [done|]. split; [set_solver|done].
  - intros q Hq. rewrite (fs_other _ _ _ F) by set_solver. destruct (decide (q = p)) as [->|Hne].
    + by rewrite Hp, lookup_insert_eq.
    + rewrite lookup_insert_ne by done. apply H4. rewrite HP. set_solver.
Qed.

(** *** The successor of a node with two children *)

(** As far as there are nodes to the side [d]. *)
Definition extreme (d : side) (fuel : nat) (p : ptr) (t : rb_root) : option ptr :=
  match d with L => leftmost fuel p t | R => rightmost fuel p t end.

Lemma extreme_eq d fuel p t :
  extreme d (S fuel) p t = (n ← nodes t !! p; match child d n with Some l => extreme d fuel l t | None => Some p end).
Proof. by destruct d. Qed.

Lemma plug_app k1 k2 t : plug (k1 ++ k2) t = plug k2 (plug k1 t).
Proof. revert t. induction k1 as [|f k1 IH]; intros t; [done|]. apply IH. Qed.

Lemma extreme_spec d st t : forall par fuel, rep (nodes st) par t -> t <> Nil -> (length (elems t) < fuel)%nat ->
  exists k c p u, t = plug k (mk d c Nil p u) /\ Forall (fun f => fr_side f = d) k /\
    (q ← top t; extreme d fuel q st) = Some p.
Proof.
  induction t as [|c l IHl q r IHr]; intros par fuel Hrep Hne Hf; [done|]. clear Hne. destruct fuel as [|fuel]; [lia|].
  cbn [top mbind option_bind]. rewrite extreme_eq. cbn [rep] in Hrep. destruct Hrep as (Hq & Hl & Hr). rewrite Hq.
  cbn [mbind option_bind elems] in *. rewrite length_app in Hf. cbn in Hf.
  assert (forall a b, Node c l q r = mk d c a q b -> rep (nodes st) (Some q) a -> (length (elems a) < fuel)%nat ->
    child d (mk_node L par c (top l) (top r)) = top a ->
    (a <> Nil -> exists k c p u, a = plug k (mk d c Nil p u) /\ Forall (fun f => fr_side f = d) k /\ (q ← top a; extreme d fuel q st) = Some p) ->
    exists k c' p u, Node c l q r = plug k (mk d c' Nil p u) /\ Forall (fun f => fr_side f = d) k /\
      match child d (mk_node L par c (top l) (top r)) with Some l => extreme d fuel l st | None => Some q end = Some p) as Hgo.
  { intros a b E Ha Hfa -> IH. destruct a as [|ca la qa ra]; [by exists [], c, q, b|].
    destruct IH as (k & c' & p & u & Ek & Hk & Ee); [done|]. exists (k ++ [Frame d c q b]), c', p, u. rewrite plug_app, <- Ek, E.
    split; [done|]. split; [|done]. apply Forall_app. split; [done|]. by constructor. }
  destruct d; [apply (Hgo l r)|apply (Hgo r l)]; try done; try lia; intros Hn; [apply (IHl (Some q))|apply (IHr (Some q))]; (done || lia).
Qed.

(** A part of a path, below [par]. *)
Definition above_or (par : option ptr) (k : list frame) : option ptr := match k with [] => par | f :: _ => Some (fr_ptr f) end.

Fixpoint seg (h : gmap ptr rb_node) (par hole : option ptr) (k : list frame) : Prop :=
  match k with
  | [] => True
  | Frame d c p s :: k => h !! p = Some (mk_node d (above_or par k) c hole (top s)) /\ rep h (Some p) s /\ seg h par (Some p) k
  end.

Lemma rep_plug h par k : forall t, rep h par (plug k t) <-> rep h (above_or par k) t /\ seg h par (top t) k.
Proof.
  induction k as [|[d c p s] k IH]; intros t; cbn [plug seg above_or]; [tauto|]. rewrite IH. unfold close. cbn.
  rewrite rep_mk, top_mk. tauto.
Qed.

Lemma seg_ext h h' par hole k : (forall q, q ∈ around k -> h' !! q = h !! q) -> seg h par hole k -> seg h' par hole k.
Proof.
  revert hole. induction k as [|[d c p s] k IH]; intros hole Hq; cbn [seg around fr_ptr fr_other] in *; [done|].
  intros (Hp & Hs & Hk). rewrite Hq by set_solver. split; [done|]. split.
  - apply (rep_ext h); [|done]. intros q Hin. apply Hq. set_solver.
  - apply IH; [|done]. intros q Hin. apply Hq. set_solver.
Qed.

(** The successor, below the right child, is unlinked from its parent. *)
Lemma splice_left st par c q s k cp p u :
  let K := Frame L c q s :: k in
  rep (nodes st) par (plug K (Node cp Nil p u)) -> NoDup (elems (plug K (Node cp Nil p u))) ->
  exists st', (t ← (if nonnull (top u) then write (top u) (rb_set_parent (Some q)) st else Some st);
               write (Some q) (set_left (top u)) t) = Some st' /\
    rep (nodes st') par (plug K u) /\ frames (elems (plug K u)) st st' /\ root st' = root st.
Proof.
  intros K Hrep Hnd. apply rep_plug in Hrep as [Hp Hseg]. cbn [rep] in Hp. destruct Hp as (Hp & _ & Hu).
  cbn [top seg K] in Hseg. destruct Hseg as (Hq & Hs & Hk). rewrite elems_plug in Hnd. cbn in Hnd.
  assert (NoDup (p :: q :: elems u ++ elems s ++ around k)) as Hnd2. { revert Hnd. apply NoDup_Permutation_proper. solve_Permutation. }
  clear Hnd. nodups Hnd2.
  destruct (reparent_top u (Some q) st (Some p) Hu) as (st1 & E1 & Hu1 & F1 & R1); [done|]. rewrite E1. cbn [mbind option_bind].
  assert (nodes st1 !! q = Some (mk_node L (above_or par k) c (Some p) (top s))) as Hq1 by (rewrite (fs_other _ _ _ F1); [done|set_solver]).
  rewrite (write_spec q _ st1 _ Hq1). eexists. split; [done|].
  pose proof (frames_write q (set_left (top u) (mk_node L (above_or par k) c (Some p) (top s))) st1 _ Hq1) as F2.
  set (st2 := {| root := root st1; nodes := _ |}) in *. pose proof (frames_trans _ _ _ _ _ F1 F2) as F. split; [|split; [|done]].
  - apply rep_plug. split; [apply (frames_rep _ _ _ _ _ F2); [set_solver|done]|]. split; [apply lookup_insert_eq|].
    split; [apply (frames_rep _ _ _ _ _ F); [set_solver|done]|].
    apply (seg_ext (nodes st)); [|done]. intros x Hx. apply (fs_other _ _ _ F). set_solver.
  - destruct F as [Fa Fb]. constructor; [|done]. intros x Hx. apply Fa. rewrite elems_plug in Hx. cbn in Hx. set_solver.
Qed.

Lemma top_plug k f t t' : top (plug (f :: k) t) = top (plug (f :: k) t').
Proof.
  revert f t t'. induction k as [|g k IH]; intros f t t'; [cbn; unfold close; by rewrite !top_mk|]. apply (IH g (close f t) (close f t')).
Qed.

Lemma some_plug k f t : exists q, top (plug (f :: k) t) = Some q.
Proof. revert f t. induction k as [|g k IH]; intros f t; [exists (fr_ptr f); apply top_mk|]. apply (IH g (close f t)). Qed.

(** The successor [p] of [old] is taken out of the right subtree, and gets that
    subtree as its own. *)
Lemma double_right st old parO c l k cp p u :
  let r := plug k (Node cp Nil p u) in
  nodes st !! old = Some (mk_node L parO c l (top r)) -> rep (nodes st) (Some old) r -> NoDup (old :: elems r) ->
  Forall (fun f => fr_side f = L) k ->
  exists st', (if decide (above_or (Some old) k = Some old) then Some (Some p, st)
               else
                 t ← (if nonnull (top u) then write (top u) (rb_set_parent (above_or (Some old) k)) st else Some st);
                 t ← write (above_or (Some old) k) (set_left (top u)) t;
                 o ← nodes t !! old;
                 t ← write (Some p) (set_right (rb_right o)) t;
                 t ← write (rb_right o) (rb_set_parent (Some p)) t;
                 Some (above_or (Some old) k, t)) = Some (above_or (Some p) k, st') /\
    rep (nodes st') (Some p) (plug k u) /\ (exists n, nodes st' !! p = Some n /\ rb_right n = top (plug k u)) /\
    frames (elems r) st st' /\ root st' = root st.
Proof.
  intros r Hold Hrep Hnd Hk. destruct k as [|[d c2 q s] k]; cbn [above_or fr_ptr].
  { rewrite decide_True by done. exists st. cbn in Hrep. split; [done|]. split; [apply Hrep|]. split; [|done].
    eexists. split; [apply Hrep|done]. }
  apply Forall_cons in Hk as [Hd _]. cbn in Hd. subst d. set (K := Frame L c2 q s :: k) in *.
  apply NoDup_cons in Hnd as [Hold1 Hnd]. rewrite decide_False.
  2: { intros [= ->]. apply Hold1. unfold r. rewrite elems_plug. cbn. set_solver. }
  pose proof Hrep as Hp. apply rep_plug in Hp as [(Hp & _) _].
  destruct (splice_left st (Some old) c2 q s k cp p u Hrep Hnd) as (st1 & E1 & Hr1 & F1 & R1).
  assert (NoDup (p :: elems (plug K u)) /\ (old ∉ elems (plug K u)) /\ (forall x, x ∈ elems r <-> x = p \/ x ∈ elems (plug K u))) as (Hnd2 & Hold2 & Hin).
  { assert (elems r ≡ₚ p :: elems (plug K u)) as HP by (unfold r; rewrite !elems_plug; cbn; solve_Permutation).
    split; [by rewrite <- HP|]. rewrite HP in Hold1. split; [set_solver|]. intros x. rewrite HP. set_solver. }
  apply NoDup_cons in Hnd2 as [Hpn Hnd2]. fold K. 
  destruct (if nonnull (top u) then write (top u) (rb_set_parent (Some q)) st else Some st) as [sta|] eqn:Ea; [|done].
  cbn [mbind option_bind] in *. rewrite E1. cbn [mbind option_bind]. rewrite (fs_other _ _ _ F1), Hold by done. cbn [mbind option_bind].
  autorewrite with rb. change (rb_right (mk_node L parO c l (top r))) with (top r).
  assert (nodes st1 !! p = nodes st !! p) as Hp1 by by apply (fs_other _ _ _ F1).
  rewrite Hp in Hp1. rewrite (write_spec p _ st1 _ Hp1). cbn [mbind option_bind].
  pose proof (frames_write p (set_right (top r) (mk_node L (above_or (Some old) K) cp (top Nil) (top u))) st1 _ Hp1) as F2.
  set (st2 := {| root := root st1; nodes := _ |}) in *.
  destruct (reparent_top (plug K u) (Some p) st2 (Some old)) as (st3 & E3 & Hr3 & F3 & R3); [apply (frames_rep _ _ _ _ _ F2); [set_solver|done]|done|].
  assert (top (plug K u) = top r) as Etop by apply top_plug. rewrite Etop in E3.
  destruct (some_plug k (Frame L c2 q s) (Node cp Nil p u)) as [x Hx]. change (top r = Some x) in Hx. rewrite Hx in E3 |- *. cbn [nonnull] in E3.
  rewrite E3. cbn [mbind option_bind]. exists st3. split; [done|]. split; [done|]. split; [|split].
  - eexists. split; [|rewrite Etop]. { rewrite (fs_other _ _ _ F3) by done. apply lookup_insert_eq. } cbn. done.
  - destruct (frames_trans _ _ _ _ _ (frames_trans _ _ _ _ _ F1 F2) F3) as [Fa Fb]. constructor; [|done].
    intros y Hy. apply Fa. rewrite Hin in Hy. set_solver.
  - by rewrite R3.
Qed.

(** The successor takes the place of [old]. *)
Lemma double_left h0 k c l old p r n st :
  nodes st !! p = Some n -> rb_right n = top r -> rep (nodes st) (Some old) l -> rep (nodes st) (Some p) r ->
  rep_path (nodes st) (Some p) k (root st) -> NoDup (p :: elems l ++ elems r ++ around k) -> l <> Nil ->
  (forall q, q ∉ p :: elems l ++ elems r ++ around k -> nodes st !! q = h0 !! q) ->
  exists st', (t ← write (Some p) (fun n => rb_set_color c (rb_set_parent (above k) n)) st;
               t ← write (Some p) (set_left (top l)) t;
               write (top l) (rb_set_parent (Some p)) t) = Some st' /\ at_place h0 k (Node c l p r) st'.
Proof.
  intros Hp Hnr Hl Hr Hk Hnd Hne Hrest. rewrite (write_spec p _ st _ Hp). cbn [mbind option_bind].
  rewrite (write_spec p _ _ (rb_set_color c (rb_set_parent (above k) n))) by apply lookup_insert_eq. cbn [mbind option_bind nodes root].
  rewrite insert_insert_eq. pose proof Hnd as Hall. nodups Hnd.
  assert (set_left (top l) (rb_set_color c (rb_set_parent (above k) n)) = mk_node L (above k) c (top l) (top r)) as ->
    by (unfold set_left; cbn; by rewrite Hnr).
  pose proof (frames_write p (mk_node L (above k) c (top l) (top r)) st _ Hp) as F1.
  set (st1 := {| root := root st; nodes := _ |}) in *.
  destruct (reparent_top l (Some p) st1 (Some old)) as (st2 & E2 & Hl2 & F2 & R2); [apply (frames_rep _ _ _ _ _ F1); [set_solver|done]|done|].
  assert (nonnull (top l) = true) as Hn by (by destruct l). rewrite Hn in E2. rewrite E2. exists st2. split; [done|].
  pose proof (frames_trans _ _ _ _ _ F1 F2) as F.
  assert (around k ++ elems (Node c l p r) ≡ₚ p :: elems l ++ elems r ++ around k) as HP by (cbn; solve_Permutation). constructor.
  - split; [rewrite (fs_other _ _ _ F2) by set_solver; apply lookup_insert_eq|]. split; [done|].
    apply (frames_rep _ _ _ _ _ F); [set_solver|done].
  - apply (frames_path _ _ _ _ _ _ F); [set_solver|]. rewrite R2. exact Hk.
  - by rewrite HP.
  - intros q. rewrite HP. intros Hq. rewrite (fs_other _ _ _ F) by set_solver. by apply Hrest.
Qed.

Lemma double_place h0 k c l old k2 cp p u st :
  at_place h0 k (Node c l old (plug k2 (Node cp Nil p u))) st -> l <> Nil -> Forall (fun f => fr_side f = L) k2 ->
  leftmost (walk_fuel st) (default old (top (plug k2 (Node cp Nil p u)))) st = Some p ->
  exists st' v, erase_double old st = Some (top u, above (k2 ++ Frame R c p l :: k), cp, st') /\
    at_place (<[old := v]> h0) (k2 ++ Frame R c p l :: k) u st'.
Proof.
  set (r := plug k2 (Node cp Nil p u)). intros [H1 H2 H3 H4] Hl Hk2 Hleft. cbn [rep top] in *. destruct H1 as (Ho & Hrl & Hrr).
  assert (around k ++ elems (Node c l old r) ≡ₚ old :: elems l ++ elems r ++ around k) as HP by (cbn; solve_Permutation).
  assert (elems r ≡ₚ p :: elems (plug k2 u)) as HPr by (unfold r; rewrite !elems_plug; cbn; solve_Permutation).
  rewrite HP in H3. pose proof H3 as Hall. apply NoDup_cons in H3 as [Hold H3]. apply NoDup_app in H3 as (_ & Dl & H3).
  apply NoDup_app in H3 as (Hndr & Dr & Hndk). apply not_elem_of_app in Hold as [Hold_l [Hold_r Hold_k]%not_elem_of_app]. unfold erase_double. rewrite Ho. cbn [mbind option_bind]. autorewrite with rb.
  change (rb_right (mk_node L (above k) c (top l) (top r))) with (top r).
  assert (exists x, top r = Some x) as [x Hx].
  { unfold r. destruct k2 as [|f k2]; [by exists p|]. apply some_plug. }
  rewrite Hx in Hleft |- *. cbn [default from_option] in Hleft. cbn [mbind option_bind]. unfold id in Hleft. rewrite Hleft. cbn [mbind option_bind].
  rewrite relink_eq. destruct (relink_place L old (Some p) st k) as (st1 & E1 & Hk1 & F1); [done|done|done|].
  rewrite E1. cbn [mbind option_bind].
  assert (rep (nodes st1) (Some old) r) as Hr1.
  { apply (frames_rep _ _ _ _ _ F1); [|done]. intros y Hy Hy'. by apply (Dr y). }
  pose proof Hr1 as Hp. apply rep_plug in Hp as [(Hp & _) _]. rewrite Hp. cbn [mbind option_bind]. autorewrite with rb.
  change (rb_right (mk_node L (above_or (Some old) k2) cp (top Nil) (top u))) with (top u).
  assert (nodes st1 !! old = Some (mk_node L (above k) c (top l) (top r))) as Ho1 by by rewrite (fs_other _ _ _ F1).
  destruct (double_right st1 old (above k) c (top l) k2 cp p u Ho1 Hr1) as (st2 & E2 & Hr2 & (np & Hp2 & Hnr) & F2 & R2).
  { by constructor. } { done. }
  rewrite E2. cbn [mbind option_bind]. clear E2. rewrite (fs_other _ _ _ F2), Ho1 by done. cbn [mbind option_bind].
  autorewrite with rb. change (rb_left (mk_node L (above k) c (top l) (top r))) with (top l).
  pose proof (frames_trans _ _ _ _ _ F1 F2) as F.
  set (v := mk_node L (above k) c (top l) (top r)).
  destruct (double_left (<[old := v]> h0) k c l old p (plug k2 u) np st2) as (st3 & E3 & Hap3); [done|done| |done| | |done| |].
  - apply (frames_rep _ _ _ _ _ F); [|done]. intros y [Hy|Hy]%elem_of_app Hy'; apply (Dl y Hy'); apply elem_of_app; auto.
  - apply (frames_path _ _ _ _ _ _ F2); [|rewrite R2; exact Hk1]. intros y Hy Hy'. by apply (Dr y).
  - apply NoDup_cons in Hall as [_ Hall]. revert Hall. apply NoDup_Permutation_proper. rewrite HPr. solve_Permutation.
  - intros q Hq. assert (q ∉ elems l ++ elems r ++ around k) as Hq2.
    { contradict Hq. rewrite HPr in Hq. clear - Hq. set_solver. }
    rewrite (fs_other _ _ _ F) by (clear - Hq2; set_solver). destruct (decide (q = old)) as [->|Hne].
    + by rewrite lookup_insert_eq.
    + rewrite lookup_insert_ne by done. apply H4. rewrite HP. clear - Hq2 Hne. set_solver.
  - exists st3, v. split.
    + destruct (write (Some p) _ st2) as [sa|]; [|done]. cbn [mbind option_bind] in *.
      destruct (write (Some p) _ sa) as [sb|]; [|done]. cbn [mbind option_bind] in *. rewrite E3. cbn [mbind option_bind].
      by destruct k2.
    + apply (place_whole _ k) in Hap3. apply (place_whole _ (k2 ++ _)). by rewrite plug_app.
Qed.

(** *** The whole removal *)

Lemma path_rename n k2 d c p q l k : path_ok n (k2 ++ Frame d c p l :: k) -> path_ok n (k2 ++ Frame d c q l :: k).
Proof.
  revert n. induction k2 as [|[d2 c2 x s] k2 IH]; intros n; [by destruct c|]. cbn [app path_ok].
  destruct c2; [|intros [? ?]; split; auto]. intros (? & ? & Hh & ?). split; [done|]. split; [done|]. split; [|auto].
  destruct k2 as [|[? [] ? ?] k2]; cbn in *; [by destruct c|done|done].
Qed.

Lemma red_rename k2 d c p q l k : red_above (k2 ++ Frame d c p l :: k) = red_above (k2 ++ Frame d c q l :: k).
Proof. by destruct k2 as [|[? [] ? ?] k2]; destruct c. Qed.

Lemma bind_fix (x : option (option ptr * option ptr * color * rb_root)) ch par c st :
  x = Some (ch, par, c, st) ->
  ('(child, parent, col, t) ← x; if decide (col = RB_BLACK) then rb_erase_color child parent t else Some t) =
  (if decide (c = RB_BLACK) then rb_erase_color ch par st else Some st).
Proof. by intros ->. Qed.

Lemma not_red c : bool_decide (c = RB_BLACK) = true -> c = RB_BLACK.
Proof. by intros ?%bool_decide_eq_true. Qed.

Lemma erase_one h0 k d c p t st m :
  at_place h0 k (mk d c Nil p t) st -> bal m (plug k (mk d c Nil p t)) -> is_black (plug k (mk d c Nil p t)) = true ->
  exists st' t' h1, ('(child, parent, col, t) ← erase_single p (top t) st;
                if decide (col = RB_BLACK) then rb_erase_color child parent t else Some t) = Some st' /\
    at_place h1 [] t' st' /\ red_black t' /\ elems t' = elems (plug k t) /\ forall q, q <> p -> h1 !! q = h0 !! q.
Proof.
  intros Hap Hb Hbl. destruct (plug_inv k _ _ Hb Hbl) as (n & Hk & Hn & Hr & He). rewrite is_black_mk in Hr, He.
  destruct (single_place _ _ _ _ _ _ _ Hap) as (st1 & E1 & Hap1). rewrite (bind_fix _ _ _ _ _ E1).
  destruct (erase_fix _ _ _ _ _ _ _ _ Hap1 Hk Hn) as (st' & t' & E & H1 & H2 & H3); [auto using not_red..|].
  eexists st', t', _. split; [done|]. split; [exact H1|]. split; [done|]. split; [done|]. intros q Hq. by rewrite lookup_insert_ne.
Qed.

Lemma erase_two h0 k c l old r st m :
  at_place h0 k (Node c l old r) st -> bal m (plug k (Node c l old r)) -> is_black (plug k (Node c l old r)) = true -> l <> Nil -> r <> Nil ->
  exists st' t' h1, ('(child, parent, col, t) ← erase_double old st;
                if decide (col = RB_BLACK) then rb_erase_color child parent t else Some t) = Some st' /\
    at_place h1 [] t' st' /\ red_black t' /\ elems t' = before k ++ (elems l ++ elems r) ++ after k /\ forall q, q <> old -> h1 !! q = h0 !! q.
Proof.
  intros Hap Hb Hbl Hl Hr. pose proof (place_size _ _ _ _ Hap) as Hf. cbn in Hf. rewrite length_app in Hf. cbn in Hf.
  destruct (extreme_spec L st r (Some old) (walk_fuel st)) as (k2 & cp & p & u & -> & Hk2 & Ee);
    [apply Hap|done|lia|]. cbn [extreme mk] in *.
  assert (Hleft : leftmost (walk_fuel st) (default old (top (plug k2 (Node cp Nil p u)))) st = Some p).
  { destruct (top (plug k2 (Node cp Nil p u))) as [x|]; [exact Ee|done]. }
  destruct (double_place h0 k c l old k2 cp p u st Hap Hl Hk2 Hleft) as (st1 & v & E1 & Hap1). rewrite (bind_fix _ _ _ _ _ E1).
  assert (plug k (Node c l old (plug k2 (Node cp Nil p u))) = plug (k2 ++ Frame R c old l :: k) (Node cp Nil p u)) as Ep
    by (by rewrite plug_app). rewrite Ep in Hb, Hbl.
  destruct (plug_inv _ _ _ Hb Hbl) as (n & Hk & Hn & Hra & He). change (Node cp Nil p u) with (mk L cp Nil p u) in *.
  rewrite is_black_mk in Hra, He. rewrite (red_rename _ _ _ _ p) in Hra. apply (path_rename _ _ _ _ _ p) in Hk.
  destruct (erase_fix _ _ _ _ _ _ _ _ Hap1 Hk Hn) as (st' & t' & E & H1 & H2 & H3); [auto using not_red|by destruct k2|].
  eexists st', t', _. split; [done|]. split; [exact H1|]. split; [done|]. split; [|intros q Hq; by rewrite lookup_insert_ne].
  rewrite H3, plug_app. cbn [plug]. rewrite plug_order. unfold close. cbn. f_equal. f_equal.
  assert (before k2 = []) as Hbf. { clear - Hk2. induction Hk2 as [|[d c p s] k Hd Hk IH]; [done|]. cbn in Hd. by subst d. }
  rewrite !plug_order, Hbf. done.
Qed.

Lemma erase_spec h0 k c l p r st m :
  at_place h0 k (Node c l p r) st -> bal m (plug k (Node c l p r)) -> is_black (plug k (Node c l p r)) = true ->
  exists st' t' h1, rb_erase p st = Some st' /\
    at_place h1 [] t' st' /\ red_black t' /\ elems t' = before k ++ (elems l ++ elems r) ++ after k /\ forall q, q <> p -> h1 !! q = h0 !! q.
Proof.
  intros Hap Hb Hbl. unfold rb_erase. pose proof Hap as [(-> & _) _ _ _]. cbn [mbind option_bind rb_left rb_right mk_node].
  destruct l as [|cl ll lp lr]; [|destruct r as [|cr rl rp rr]]; cbn [top].
  - destruct (erase_one h0 k L c p r st m Hap Hb Hbl) as (st' & t' & h1 & E & H1 & H2 & H3 & H4).
    exists st', t', h1. split; [exact E|]. split; [done|]. split; [done|]. split; [|done]. by rewrite H3, plug_order.
  - destruct (erase_one h0 k R c p (Node cl ll lp lr) st m Hap Hb Hbl) as (st' & t' & h1 & E & H1 & H2 & H3 & H4).
    exists st', t', h1. split; [exact E|]. split; [done|]. split; [done|]. split; [|done]. rewrite H3, plug_order. cbn. by rewrite app_nil_r.
  - by apply (erase_two h0 k c (Node cl ll lp lr) p (Node cr rl rp rr) st m).
Qed.

(** ** Walks *)

(** The end of the nodes on the side [d]. *)
Definition end_of (d : side) (E : list ptr) : option ptr := match d with L => head E | R => last E end.

Lemma before_left k : Forall (fun f => fr_side f = L) k -> before k = [].
Proof. induction 1 as [|[d c p s] k Hd Hk IH]; [done|]. cbn in Hd. by subst d. Qed.

Lemma after_right k : Forall (fun f => fr_side f = R) k -> after k = [].
Proof. induction 1 as [|[d c p s] k Hd Hk IH]; [done|]. cbn in Hd. by subst d. Qed.

Lemma extreme_end d st par t fuel : rep (nodes st) par t -> t <> Nil -> (length (elems t) < fuel)%nat ->
  (q ← top t; extreme d fuel q st) = end_of d (elems t) /\ is_Some (end_of d (elems t)).
Proof.
  intros Hr Hn Hf. destruct (extreme_spec d st t par fuel Hr Hn Hf) as (k & c & p & u & E & Hk & ->). rewrite E, plug_order.
  destruct d; cbn [mk elems end_of].
  - rewrite (before_left k Hk). done.
  - rewrite (after_right k Hk), app_nil_r. rewrite app_assoc, last_snoc. done.
Qed.

(** Up while the node is the [d]-child. *)
Definition up (d : side) (fuel : nat) (p : ptr) (t : rb_root) : option (option ptr) :=
  match d with L => up_left fuel p t | R => up_right fuel p t end.

Lemma up_eq d fuel p t :
  up d (S fuel) p t =
  (n ← nodes t !! p;
   match rb_parent n with
   | None => Some None
   | Some q => g ← nodes t !! q; if decide (Some p = child d g) then up d fuel q t else Some (Some q)
   end).
Proof. by destruct d. Qed.

(** The nodes beyond a place on the side [d], nearest first. *)
Definition beyond (d : side) (k : list frame) : option ptr := match d with L => last (before k) | R => head (after k) end.

Lemma up_spec d h0 st fuel : forall k c l p r, at_place h0 k (Node c l p r) st -> (length k < fuel)%nat ->
  up d fuel p st = Some (beyond d k).
Proof.
  induction fuel as [|fuel IH]; intros k c l p r Hap Hf; [lia|]. rewrite up_eq.
  pose proof Hap as [(-> & _) _ Hnd _]. cbn [mbind option_bind rb_parent mk_node].
  destruct k as [|[dk cg g s] k]; cbn [above fr_ptr]; [by destruct d|]. rewrite (place_above _ _ _ _ _ _ _ _ Hap). cbn [mbind option_bind top].
  destruct (decide (dk = d)) as [->|Hd].
  - rewrite child_near, decide_True by done. apply (place_whole h0) in Hap. cbn [plug] in Hap. unfold close in Hap. cbn in Hap.
    destruct (mk_side d L cg (Node c l p r) g s) as (a' & b' & E). rewrite E in Hap. apply (place_whole h0 k) in Hap.
    rewrite (IH _ _ _ _ _ Hap) by (cbn in Hf; lia). by destruct d.
  - assert (d = flip dk) as -> by (by destruct d, dk). rewrite child_far, decide_False.
    + destruct dk; cbn; [done|]. by rewrite app_assoc, last_snoc.
    + intros E. symmetry in E. apply top_elem in E. cbn in Hnd. nodups Hnd. set_solver.
Qed.

Lemma parent_self h0 k c l p r st : at_place h0 k (Node c l p r) st -> above k <> Some p.
Proof. intros [_ _ Hnd _] E. destruct k as [|f k]; [done|]. injection E as E. cbn in Hnd. nodups Hnd. set_solver. Qed.

Lemma next_spec h0 k c l p r st : at_place h0 k (Node c l p r) st -> rb_next p st = Some (head (elems r ++ after k)).
Proof.
  intros Hap. pose proof (place_size _ _ _ _ Hap) as Hf. pose proof (length_around k). cbn in Hf. rewrite length_app in Hf. cbn in Hf.
  unfold rb_next. pose proof Hap as [(-> & _ & Hr) _ _ _]. cbn [mbind option_bind rb_parent rb_right mk_node].
  rewrite decide_False by by apply (parent_self h0 k c l p r st). destruct r as [|cr rl q rr]; cbn [top].
  - apply (up_spec R h0 st (walk_fuel st) k c l p Nil Hap). lia.
  - destruct (extreme_end L st (Some p) (Node cr rl q rr) (walk_fuel st) Hr) as [E [x Hx]]; [done|lia|].
    cbn [top mbind option_bind extreme] in E. rewrite E, Hx. cbn [end_of] in Hx. cbn [fmap option_fmap option_map].
    destruct (elems (Node cr rl q rr)); [done|]. cbn in *. congruence.
Qed.

Lemma prev_spec h0 k c l p r st : at_place h0 k (Node c l p r) st -> rb_prev p st = Some (last (before k ++ elems l)).
Proof.
  intros Hap. pose proof (place_size _ _ _ _ Hap) as Hf. pose proof (length_around k). cbn in Hf. rewrite length_app in Hf. cbn in Hf.
  unfold rb_prev. pose proof Hap as [(-> & Hl & _) _ _ _]. cbn [mbind option_bind rb_parent rb_left mk_node].
  rewrite decide_False by by apply (parent_self h0 k c l p r st). destruct l as [|cl ll q lr]; cbn [top].
  - rewrite app_nil_r. apply (up_spec L h0 st (walk_fuel st) k c Nil p r Hap). lia.
  - destruct (extreme_end R st (Some p) (Node cl ll q lr) (walk_fuel st) Hl) as [E [x Hx]]; [done|lia|].
    cbn [top mbind option_bind extreme] in E. rewrite E, Hx. cbn [end_of] in Hx. cbn [fmap option_fmap option_map].
    apply last_Some in Hx as [E' Hx]. rewrite Hx, app_assoc, last_snoc. done.
Qed.

(** ** Replacement *)

Lemma replace_place h0 k c l v r new st :
  at_place h0 k (Node c l v r) st -> new ∉ around k ++ elems (Node c l v r) ->
  exists st', rb_replace_node v new st = Some st' /\
    at_place (<[v := mk_node L (above k) c (top l) (top r)]> h0) k (Node c l new r) st'.
Proof.
  intros [(Hv & Hl & Hr) H2 H3 H4] Hnew. cbn [top] in H2.
  assert (forall x, around k ++ elems (Node c l x r) ≡ₚ x :: elems l ++ elems r ++ around k) as HP by (intros; cbn; solve_Permutation).
  rewrite HP in H3, Hnew. pose proof H3 as Hall. apply NoDup_cons in H3 as [Hvn H3]. apply NoDup_app in H3 as (Hndl & Dl & H3).
  apply NoDup_app in H3 as (Hndr & Dr & Hndk). unfold rb_replace_node. rewrite Hv. cbn [mbind option_bind]. rewrite relink_eq.
  destruct (relink_place L v (Some new) st k) as (st1 & E1 & Hk1 & F1); [done|done|set_solver|].
  cbn [rb_parent mk_node]. rewrite E1. cbn [mbind option_bind].
  assert (nodes st1 !! v = Some (mk_node L (above k) c (top l) (top r))) as Hv1 by (rewrite (fs_other _ _ _ F1); [done|set_solver]).
  rewrite Hv1. cbn [mbind option_bind rb_left rb_right mk_node].
  destruct (reparent_top l (Some new) st1 (Some v)) as (st2 & E2 & Hl2 & F2 & R2);
    [apply (frames_rep _ _ _ _ _ F1); [set_solver|done]|done|]. rewrite E2. cbn [mbind option_bind].
  pose proof (frames_trans _ _ _ _ _ F1 F2) as F12.
  destruct (reparent_top r (Some new) st2 (Some v)) as (st3 & E3 & Hr3 & F3 & R3);
    [apply (frames_rep _ _ _ _ _ F12); [set_solver|done]|done|]. rewrite E3. cbn [mbind option_bind].
  pose proof (frames_trans _ _ _ _ _ F2 F3) as F23. pose proof (frames_trans _ _ _ _ _ F1 F23) as F.
  rewrite (fs_other _ _ _ F23), Hv1 by set_solver. cbn [mbind option_bind]. eexists. split; [done|].
  assert (new <> v /\ (new ∉ elems l) /\ (new ∉ elems r) /\ (new ∉ around k)) as (Hn1 & Hn2 & Hn3 & Hn4) by (clear - Hnew; set_solver).
  assert (forall q, q <> new -> nodes {| root := root st3; nodes := <[new := mk_node L (above k) c (top l) (top r)]> (nodes st3) |} !! q = nodes st3 !! q) as Hins.
  { intros q Hq. cbn. by rewrite lookup_insert_ne. }
  constructor.
  - split; [apply lookup_insert_eq|]. split; [apply (rep_ext (nodes st2))|apply (rep_ext (nodes st3))]; try done; intros q Hq.
    + rewrite Hins by (intros ->; done). apply (fs_other _ _ _ F3). intros Hq'. apply (Dl q Hq). set_solver.
    + apply Hins. by intros ->.
  - cbn [root top]. apply (rep_path_ext (nodes st1)); [|rewrite R3, R2; exact Hk1]. intros q Hq. rewrite Hins by (intros ->; done).
    apply (fs_other _ _ _ F23). intros [Hq'|Hq']%elem_of_app; [apply (Dl q Hq')|by apply (Dr q Hq')]. set_solver.
  - rewrite HP. apply NoDup_cons in Hall as [_ Hall]. constructor; [|done]. clear - Hn2 Hn3 Hn4. set_solver.
  - intros q. rewrite HP. intros [Hq1 Hq2]%not_elem_of_cons. rewrite Hins by done.
    rewrite (fs_other _ _ _ F) by (clear - Hq2; set_solver). destruct (decide (q = v)) as [->|Hne]; [by rewrite lookup_insert_eq|].
    rewrite lookup_insert_ne by done. apply H4. rewrite HP. set_solver.
Qed.

(** ** Height *)

Fixpoint height (t : tree) : nat := match t with Nil => 0 | Node _ l _ r => S (Nat.max (height l) (height r)) end.

Lemma bal_height n t : bal n t -> (height t <= 2 * n + (if is_black t then 0 else 1))%nat.
Proof.
  induction 1 as [|n l p r Hl IHl Hr IHr El Er|n l p r Hl IHl Hr IHr]; cbn [height is_black]; [lia| |].
  - rewrite El in IHl. rewrite Er in IHr. lia.
  - destruct (is_black l), (is_black r); lia.
Qed.

Lemma bal_size n t : bal n t -> (2 ^ n <= S (length (elems t)))%nat.
Proof.
  induction 1 as [|n l p r Hl IHl Hr IHr El Er|n l p r Hl IHl Hr IHr]; cbn [elems]; rewrite ?length_app; cbn [length Nat.pow] in *; lia.
Qed.

Lemma height_plug k : forall t, (length k + height t <= height (plug k t))%nat.
Proof.
  induction k as [|[d c p s] k IH]; intros t; cbn [plug length]; [lia|]. specialize (IH (close (Frame d c p s) t)).
  assert (S (height t) <= height (close (Frame d c p s) t))%nat by (destruct d; cbn; lia). lia.
Qed.

Lemma red_black_height t : red_black t -> (height t <= 2 * Nat.log2 (S (length (elems t))))%nat.
Proof.
  intros (Hb & n & Hn). pose proof (bal_height n t Hn) as Hh. rewrite Hb in Hh. pose proof (bal_size n t Hn).
  assert (n <= Nat.log2 (S (length (elems t))))%nat by (apply Nat.log2_le_pow2; lia). lia.
Qed.

(** The links from a node up to the root. *)
Fixpoint depth (fuel : nat) (p : ptr) (t : rb_root) : option nat :=
  match fuel with
  | O => None
  | S fuel => n ← nodes t !! p; match rb_parent n with None => Some 0%nat | Some q => S <$> depth fuel q t end
  end.

Lemma depth_spec h0 st fuel : forall k c l p r, at_place h0 k (Node c l p r) st -> (length k < fuel)%nat ->
  depth fuel p st = Some (length k).
Proof.
  induction fuel as [|fuel IH]; intros k c l p r Hap Hf; [lia|]. cbn [depth].
  pose proof Hap as [(-> & _) _ _ _]. cbn [mbind option_bind rb_parent mk_node].
  destruct k as [|[d cg g s] k]; cbn [above fr_ptr]; [done|]. apply (place_whole h0) in Hap. cbn [plug] in Hap. unfold close in Hap. cbn in Hap.
  destruct (mk_side d L cg (Node c l p r) g s) as (a' & b' & E). rewrite E in Hap. apply (place_whole h0 k) in Hap.
  rewrite (IH _ _ _ _ _ Hap) by (cbn in Hf; lia). done.
Qed.

(** ** The contract *)

(** The root [st] is a red-black tree of the nodes [E], in this order. *)
Definition rbtree (st : rb_root) (E : list ptr) : Prop := exists t, holds st t /\ red_black t /\ elems t = E.

(** The nodes of other structures are left alone. *)
Definition elsewhere (E : list ptr) (st st' : rb_root) : Prop := forall q, q ∉ E -> nodes st' !! q = nodes st !! q.

(** The place a walk down from the root ended at: the empty link [l] of
    [parent]. *)
Definition slot (st : rb_root) (parent : option ptr) (l : link) : bool :=
  match l with
  | RootLink => bool_decide (parent = None) && bool_decide (root st = None)
  | LeftLink q => bool_decide (parent = Some q) && bool_decide (rb_left <$> nodes st !! q = Some None)
  | RightLink q => bool_decide (parent = Some q) && bool_decide (rb_right <$> nodes st !! q = Some None)
  end.

(** The order with a new node: just before or after the node it is linked to. *)
Fixpoint put (p : ptr) (l : link) (E : list ptr) : list ptr :=
  match E with
  | [] => [p]
  | q :: E =>
      match l with
      | LeftLink x => if decide (x = q) then p :: q :: E else q :: put p l E
      | RightLink x => if decide (x = q) then q :: p :: E else q :: put p l E
      | RootLink => q :: put p l E
      end
  end.

Definition link_in (l : link) (E : list ptr) : bool :=
  match l with RootLink => true | LeftLink q | RightLink q => bool_decide (q ∈ E) end.

Lemma rbtree_place st E p : rbtree st E -> p ∈ E ->
  exists k c l r m, at_place (nodes st) k (Node c l p r) st /\ bal m (plug k (Node c l p r)) /\ is_black (plug k (Node c l p r)) = true /\
    E = (before k ++ elems l) ++ p :: elems r ++ after k /\ NoDup E.
Proof.
  intros (t & Hh & (Hb & m & Hm) & <-) Hp. destruct (find_place t p Hp) as (k & c & l & r & ->). exists k, c, l, r, m.
  split; [apply (place_whole _ k); by apply holds_place|]. split; [done|]. split; [done|]. split; [|apply Hh].
  rewrite plug_order. cbn. by rewrite <- !app_assoc.
Qed.

Lemma slot_place st t parent l : holds st t -> slot st parent l = true -> link_in l (elems t) = true ->
  exists k, t = plug k Nil /\ above k = parent /\ link_of k = l.
Proof.
  intros Hh Hs Hl. destruct l as [|q|q]; cbn [slot link_in] in *; apply andb_true_iff in Hs as [Hp%bool_decide_eq_true Hs%bool_decide_eq_true].
  - exists []. rewrite (ho_root _ _ Hh) in Hs. by destruct t.
  - apply bool_decide_eq_true in Hl. destruct (find_place t q Hl) as (k & c & a & b & ->).
    apply holds_place, (place_whole _ k) in Hh. pose proof Hh as [(Hq & _) _ _ _]. rewrite Hq in Hs. cbn in Hs. injection Hs as Hs.
    destruct a; [|done]. by exists (Frame L c q b :: k).
  - apply bool_decide_eq_true in Hl. destruct (find_place t q Hl) as (k & c & a & b & ->).
    apply holds_place, (place_whole _ k) in Hh. pose proof Hh as [(Hq & _) _ _ _]. rewrite Hq in Hs. cbn in Hs. injection Hs as Hs.
    destruct b; [|done]. by exists (Frame R c q a :: k).
Qed.

Lemma put_before p q E1 E2 : q ∉ E1 -> put p (LeftLink q) (E1 ++ q :: E2) = E1 ++ p :: q :: E2.
Proof.
  induction E1 as [|x E1 IH]; intros Hn; cbn; [by rewrite decide_True|]. rewrite decide_False by set_solver. f_equal. apply IH. set_solver.
Qed.

Lemma put_after p q E1 E2 : q ∉ E1 -> put p (RightLink q) (E1 ++ q :: E2) = E1 ++ q :: p :: E2.
Proof.
  induction E1 as [|x E1 IH]; intros Hn; cbn; [by rewrite decide_True|]. rewrite decide_False by set_solver. f_equal. apply IH. set_solver.
Qed.

Lemma put_place p k : NoDup (elems (plug k Nil)) -> put p (link_of k) (elems (plug k Nil)) = elems (plug k (Node RB_RED Nil p Nil)).
Proof.
  intros Hnd. rewrite !plug_order in *. cbn [elems app] in *. destruct k as [|[[] c q s] k]; cbn [before after link_of] in *; [done|..].
  - rewrite put_before; [done|]. apply NoDup_app in Hnd as (_ & Hd & _). intros Hq. apply (Hd q Hq). set_solver.
  - rewrite <- !app_assoc in *. cbn in *. rewrite app_assoc in Hnd. rewrite (app_assoc (before k)), put_after; [by rewrite <- !app_assoc|].
    apply NoDup_app in Hnd as (_ & Hd & _). intros Hq. apply (Hd q Hq). set_solver.
Qed.

Lemma rbtree_of h0 t st E : at_place h0 [] t st -> red_black t -> elems t = E -> rbtree st E.
Proof. intros Hap Hr He. exists t. split; [by apply (place_holds h0 [])|done]. Qed.

Lemma rbtree_insert st E p parent l :
  rbtree st E -> p ∉ E -> slot st parent l = true -> link_in l E = true ->
  exists st', (t ← rb_link_node p parent l st; rb_insert_color p t) = Some st' /\ rbtree st' (put p l E) /\ elsewhere (p :: E) st st'.
Proof.
  intros (t & Hh & (Hb & m & Hm) & <-) Hp Hs Hl. destruct (slot_place st t parent l Hh Hs Hl) as (k & -> & <- & <-).
  pose proof (ho_nodup _ _ Hh) as Hnd. apply holds_place, (place_whole _ k) in Hh.
  destruct (link_place _ k p st Hh) as (st1 & E1 & Hap1); [intros Hin; apply Hp; rewrite elems_plug; set_solver|].
  rewrite E1. cbn [mbind option_bind]. destruct (plug_inv k Nil m Hm Hb) as (n & Hk & Hn & _). inversion Hn; subst n.
  destruct (insert_color_spec _ k p st1 0 Hap1 Hk eq_refl) as (st2 & t2 & E2 & Hap2 & Hr2 & He2). exists st2. split; [done|].
  rewrite put_place by done. split; [by apply (rbtree_of (nodes st) t2)|]. intros q Hq. apply (ap_rest _ _ _ _ Hap2).
  cbn. rewrite He2, elems_plug. rewrite elems_plug in Hq. set_solver.
Qed.

Lemma rbtree_erase st E p :
  rbtree st E -> p ∈ E -> exists st', rb_erase p st = Some st' /\ rbtree st' (list_del p E) /\ elsewhere E st st'.
Proof.
  intros Hrb Hp. destruct (rbtree_place st E p Hrb Hp) as (k & c & l & r & m & Hap & Hm & Hb & -> & Hnd).
  destruct (erase_spec _ _ _ _ _ _ _ _ Hap Hm Hb) as (st' & t' & h1 & E & H1 & H2 & H3 & H4). exists st'. split; [done|].
  apply NoDup_app in Hnd as (_ & Hd & [Hn _]%NoDup_cons). rewrite list_del_middle; [|intros Hi; apply (Hd p Hi); set_solver|done].
  split; [apply (rbtree_of h1 t'); [done|done|]; rewrite H3; by rewrite <- !app_assoc|].
  intros q Hq. rewrite (ap_rest _ _ _ _ H1); [apply H4; set_solver|]. cbn. rewrite H3. set_solver.
Qed.

Definition rename (v new q : ptr) : ptr := if decide (q = v) then new else q.

Lemma rename_id v new (E : list ptr) : v ∉ E -> rename v new <$> E = E.
Proof.
  intros Hv. induction E as [|x E IH]; [done|]. cbn. rewrite IH by set_solver. f_equal. unfold rename. rewrite decide_False; set_solver.
Qed.

Lemma rbtree_replace st E v new :
  rbtree st E -> v ∈ E -> new ∉ E ->
  exists st', rb_replace_node v new st = Some st' /\ rbtree st' (rename v new <$> E) /\ elsewhere (new :: E) st st'.
Proof.
  intros Hrb Hp Hn. destruct (rbtree_place st E v Hrb Hp) as (k & c & l & r & m & Hap & Hm & Hb & -> & Hnd).
  assert (forall q, q ∉ (before k ++ elems l) ++ v :: elems r ++ after k <-> q ∉ around k ++ elems (Node c l v r)) as Hin.
  { intros q. assert ((before k ++ elems l) ++ v :: elems r ++ after k = elems (plug k (Node c l v r))) as ->
      by (rewrite plug_order; cbn; by rewrite <- !app_assoc). by rewrite elems_plug. }
  destruct (replace_place _ _ _ _ _ _ new _ Hap) as (st' & E & Hap'); [by apply Hin|]. exists st'. split; [done|].
  destruct (plug_inv _ _ _ Hm Hb) as (n & Hk & Hbal & Hra & He). split.
  - apply (place_whole _ k) in Hap'. apply (rbtree_of _ _ _ _ Hap').
    + change (Node c l v r) with (mk L c l v r) in *. change (Node c l new r) with (mk L c l new r).
      rewrite bal_mk in Hbal. rewrite is_black_mk in *. destruct (plug_bal k n (mk L c l new r) Hk) as (m' & Hm' & Ho);
        [by rewrite bal_mk|by rewrite is_black_mk|]. split; [|by exists m']. destruct Ho as [?|[Ek Ho]]; [done|].
      rewrite is_black_mk in Ho. rewrite He in Ho by done. done.
    + rewrite plug_order. cbn. apply NoDup_app in Hnd as (_ & Hd & [Hv _]%NoDup_cons). rewrite fmap_app. cbn.
      rewrite (rename_id _ _ (before k ++ elems l)), (rename_id _ _ (elems r ++ after k)) by (done || intros Hi; apply (Hd v Hi); set_solver).
      unfold rename. rewrite decide_True by done. by rewrite <- !app_assoc.
  - intros q [Hq1 Hq2]%not_elem_of_cons. rewrite (ap_rest _ _ _ _ Hap').
    + rewrite lookup_insert_ne; [done|]. intros <-. apply Hq2. set_solver.
    + apply Hin in Hq2. clear - Hq1 Hq2. cbn in *. set_solver.
Qed.

(** *** Operations on a tree and on a list *)

Inductive op := Insert (p : ptr) (parent : option ptr) (l : link) | Erase (p : ptr) | Replace (victim new : ptr).

Definition exec (o : op) (st : rb_root) : option rb_root :=
  match o with
  | Insert p parent l => t ← rb_link_node p parent l st; rb_insert_color p t
  | Erase p => rb_erase p st
  | Replace v new => rb_replace_node v new st
  end.

(** What a caller has to respect. *)
Definition allowed (o : op) (st : rb_root) (E : list ptr) : bool :=
  match o with
  | Insert p parent l => bool_decide (p ∉ E) && slot st parent l && link_in l E
  | Erase p => bool_decide (p ∈ E)
  | Replace v new => bool_decide (v ∈ E) && bool_decide (new ∉ E)
  end.

Definition effect (o : op) (E : list ptr) : list ptr :=
  match o with Insert p _ l => put p l E | Erase p => list_del p E | Replace v new => rename v new <$> E end.

Definition owned (o : op) (E : list ptr) : list ptr :=
  match o with Insert p _ _ => p :: E | Erase _ => E | Replace _ new => new :: E end.

Lemma first_spec st t : holds st t -> rb_first st = Some (head (elems t)) /\ rb_last st = Some (last (elems t)).
Proof.
  intros Hh. unfold rb_first, rb_last. rewrite (ho_root _ _ Hh). destruct t as [|c l p r]; [done|]. cbn [top].
  apply holds_place in Hh. pose proof (place_size _ _ _ _ Hh) as Hf. apply ap_tree in Hh.
  destruct (extreme_end L st _ _ (walk_fuel st) Hh) as [El [x Hx]]; [done|cbn in *; lia|].
  destruct (extreme_end R st _ _ (walk_fuel st) Hh) as [Er [y Hy]]; [done|cbn in *; lia|].
  cbn [top mbind option_bind extreme end_of] in *. by rewrite El, Er, Hx, Hy.
Qed.

Lemma middle_index (A B : list ptr) (p : ptr) i : NoDup (A ++ p :: B) -> (A ++ p :: B) !! i = Some p -> i = length A.
Proof. intros Hnd Hi. eapply NoDup_lookup; [done|done|]. by rewrite list_lookup_middle. Qed.

Lemma step_tree st E o :
  rbtree st E -> allowed o st E = true ->
  exists st', exec o st = Some st' /\ rbtree st' (effect o E) /\ elsewhere (owned o E) st st'.
Proof.
  intros Hrb Ha. destruct o as [p parent l|p|v new]; cbn [allowed exec effect owned] in *.
  - apply andb_true_iff in Ha as [[Hp%bool_decide_eq_true Hs]%andb_true_iff Hl]. by apply rbtree_insert.
  - apply bool_decide_eq_true in Ha. by apply rbtree_erase.
  - apply andb_true_iff in Ha as [Hv%bool_decide_eq_true Hn%bool_decide_eq_true]. by apply rbtree_replace.
Qed.

(** C8. A red-black tree refines the list of its nodes in order: linking a node
    at an empty link and rebalancing, removing a node, and putting a node in the
    place of another all end, on every tree, keep the red-black invariant,
    change the order as the list operation does, and leave every node outside
    the tree as it was. *)
Theorem rb_step_refines st E o :
  rbtree st E -> allowed o st E = true ->
  exists st', exec o st = Some st' /\ rbtree st' (effect o E) /\ elsewhere (owned o E) st st'.
Proof. apply step_tree. Qed.

(** The walks follow the order: the first and the last node are the ends of
    the list, and from every node the next and the previous one are its
    neighbours in it, or NULL at the ends. *)
Theorem rb_walk_order st E :
  rbtree st E ->
  rb_first st = Some (head E) /\ rb_last st = Some (last E) /\
  forall i p, E !! i = Some p ->
    rb_next p st = Some (E !! S i) /\ rb_prev p st = Some (match i with O => None | S j => E !! j end).
Proof.
  intros Hrb. pose proof Hrb as (t & Hh & _ & Et). destruct (first_spec st t Hh) as [H1 H2]. rewrite Et in H1, H2.
  split; [done|]. split; [done|]. intros i p Hi. assert (p ∈ E) as Hp by (by apply list_elem_of_lookup_2 in Hi).
  destruct (rbtree_place st E p Hrb Hp) as (k & c & l & r & m & Hap & _ & _ & HE & Hnd). rewrite HE in Hi, Hnd |- *.
  apply (middle_index _ _ _ _ Hnd) in Hi as ->. rewrite (next_spec _ _ _ _ _ _ _ Hap), (prev_spec _ _ _ _ _ _ _ Hap).
  rewrite lookup_app_r by lia. replace (S _ - _)%nat with 1%nat by lia. split; [by destruct (elems r ++ after k)|].
  destruct (before k ++ elems l) as [|x A] eqn:EA; [done|]. cbn [length]. rewrite lookup_app_l by (cbn; lia).
  by rewrite last_lookup.
Qed.

(** A caller that starts with no tree and makes one call after the other, up to
    the first one that would break the rules; [E] is the order of the nodes. *)
Fixpoint exec_all (ops : list op) (st : rb_root) (E : list ptr) : option (rb_root * list ptr) :=
  match ops with
  | [] => Some (st, E)
  | o :: ops => if allowed o st E then st' ← exec o st; exec_all ops st' (effect o E) else Some (st, E)
  end.

Lemma exec_all_tree ops : forall st E, rbtree st E -> exists st' E', exec_all ops st E = Some (st', E') /\ rbtree st' E'.
Proof.
  induction ops as [|o ops IH]; intros st E Hrb; cbn [exec_all]; [by exists st, E|].
  destruct (allowed o st E) eqn:Ha; [|by exists st, E].
  destruct (step_tree st E o Hrb Ha) as (st' & -> & Hrb' & _). by apply IH.
Qed.

Lemma no_root_tree st : root st = None -> rbtree st [].
Proof. intros Hr. exists Nil. split; [by split; [|rewrite Hr|constructor]|]. split; [split; [done|exists 0%nat; constructor]|done]. Qed.

Lemma tree_depth st E p : rbtree st E -> p ∈ E -> exists d, depth (walk_fuel st) p st = Some d /\ (d < 2 * Nat.log2 (S (length E)))%nat.
Proof.
  intros Hrb Hp. destruct (rbtree_place st E p Hrb Hp) as (k & c & l & r & m & Hap & Hm & Hb & HE & _).
  pose proof (place_size _ _ _ _ Hap) as Hf. pose proof (length_around k). exists (length k).
  split; [apply (depth_spec _ _ _ _ _ _ _ _ Hap); lia|]. pose proof (height_plug k (Node c l p r)) as Hh. cbn [height] in Hh.
  assert (red_black (plug k (Node c l p r))) as Hr by (split; [done|by exists m]). apply red_black_height in Hr.
  rewrite plug_order in Hr. cbn in Hr. rewrite HE, <- !app_assoc in *. cbn in *. lia.
Qed.

(** C30. The calls keep the tree shallow: after any calls that link, remove and
    replace nodes, beginning with an empty root, which all end, the parent links
    of the heap lead from every node of a tree of n nodes to the root in less
    than 2 log2(n + 1) steps. *)
Theorem rb_depth_logarithmic st0 ops :
  root st0 = None ->
  exists st E, exec_all ops st0 [] = Some (st, E) /\
    forall p, p ∈ E -> exists d, depth (walk_fuel st) p st = Some d /\ (d < 2 * Nat.log2 (S (length E)))%nat.
Proof.
  intros Hr. destruct (exec_all_tree ops st0 [] (no_root_tree st0 Hr)) as (st & E & He & Hrb).
  exists st, E. split; [done|]. intros p Hp. by apply tree_depth.
Qed.

(** ** Examples *)

Module demo.
(** Seven nodes, linked one after the other at the right end. *)
Definition grow (n : nat) : option rb_root :=
  foldl (fun st p => st ← st; exec (Insert p (match p with 1%nat => None | _ => Some (pred p) end)
                                          (match p with 1%nat => RootLink | _ => RightLink (pred p) end)) st)
    (Some {| root := None; nodes := ∅ |}) (seq 1 n).

Definition seven : rb_root := default {| root := None; nodes := ∅ |} (grow 7).
Definition leaf (c : color) (p : ptr) : tree := Node c Nil p Nil.
Definition shape : tree :=
  Node RB_BLACK (leaf RB_BLACK 1) 2 (Node RB_RED (leaf RB_BLACK 3) 4 (Node RB_BLACK (leaf RB_RED 5) 6 (leaf RB_RED 7))).

Lemma seven_tree : rbtree seven [1; 2; 3; 4; 5; 6; 7]%nat.
Proof.
  exists shape. split; [|split; [|reflexivity]].
  - split; [vm_compute; repeat split; reflexivity|reflexivity|apply (bool_decide_unpack _); vm_compute; exact I].
  - split; [reflexivity|]. exists 2%nat. repeat constructor.
Qed.

Lemma step_witness :
  exists st', exec (Erase 2) seven = Some st' /\ rbtree st' [1; 3; 4; 5; 6; 7]%nat /\ elsewhere [1; 2; 3; 4; 5; 6; 7]%nat seven st'.
Proof. exact (rb_step_refines seven [1; 2; 3; 4; 5; 6; 7]%nat (Erase 2) seven_tree eq_refl). Defined.

Lemma walk_witness : rb_first seven = Some (Some 1%nat) /\ rb_last seven = Some (Some 7%nat) /\
  rb_next 4 seven = Some (Some 5%nat) /\ rb_prev 1 seven = Some None.
Proof.
  destruct (rb_walk_order seven _ seven_tree) as (H1 & H2 & H3). split; [exact H1|]. split; [exact H2|].
  split; [exact (proj1 (H3 3%nat 4%nat eq_refl))|exact (proj2 (H3 0%nat 1%nat eq_refl))].
Defined.

Lemma depth_witness :
  root {| root := None; nodes := ∅ |} = None /\
  exists st E, exec_all (Insert 1 None RootLink :: map (fun p => Insert p (Some (pred p)) (RightLink (pred p))) (seq 2 6)) {| root := None; nodes := ∅ |} []
      = Some (st, E) /\ length E = 7%nat /\ forall p, p ∈ E -> exists d, depth (walk_fuel st) p st = Some d /\ (d < 6)%nat.
Proof.
  split; [reflexivity|].
  destruct (rb_depth_logarithmic {| root := None; nodes := ∅ |} (Insert 1 None RootLink :: map (fun p => Insert p (Some (pred p)) (RightLink (pred p))) (seq 2 6)) eq_refl)
    as (st & E & He & Hd). exists st, E. split; [exact He|].
  assert (length E = 7%nat) as Hl by (vm_compute in He; injection He as _ <-; reflexivity). split; [exact Hl|].
  intros p Hp. destruct (Hd p Hp) as (d & Hd1 & Hd2). exists d. split; [exact Hd1|]. rewrite Hl in Hd2. exact Hd2.
Defined.
End demo.
