(* ===== verification/Hrtimer.v ===== *)
(** * Hrtimer: high resolution timers

    Models kernel/hrtimer.c, include/linux/hrtimer.h and the programming of the
    event device (kernel/time/tick-oneshot.c, kernel/time/clockevents.c) on a
    64-bit machine with CONFIG_SMP, CONFIG_HIGH_RES_TIMERS and CONFIG_NO_HZ: the
    timers of a CPU and a clock are a red-black tree ordered by expiry, on the
    heap of nodes of Rbtree. [None] is a BUG_ON, a use of a timer the interface
    forbids, a loop that did not end within its fuel, or a lock that is never
    free. *)

From S2P Require Import Prelude Rbtree.

(** ** Times *)

Definition ETIME : Z := 62.
Definition NSEC_PER_SEC : Z := 1000000000.
Definition NSEC_PER_MSEC : Z := 1000000.
Definition HZ : Z := 250.
Definition KTIME_MAX : Z := 2 ^ 63 - 1.
Definition KTIME_SEC_MAX : Z := KTIME_MAX / NSEC_PER_SEC.

Definition ktime_set (secs nsecs : Z) : Z :=
  if secs >=? KTIME_SEC_MAX then KTIME_MAX else s64 (s64 (secs * NSEC_PER_SEC) + s64 nsecs).
Definition ktime_sub (lhs rhs : Z) : Z := s64 (lhs - rhs).
Definition ktime_add (lhs rhs : Z) : Z := s64 (lhs + rhs).
Definition ktime_add_ns (kt nsval : Z) : Z := s64 (kt + nsval).
Definition ns_to_ktime (ns : Z) : Z := ktime_add_ns 0 ns.
(** C's division rounds towards zero. *)
Definition ktime_divns (kt div : Z) : Z := u64 (Z.quot kt div).

Definition ktime_add_safe (lhs rhs : Z) : Z :=
  let res := ktime_add lhs rhs in
  if (res <? 0) || (res <? lhs) || (res <? rhs) then ktime_set KTIME_SEC_MAX 0 else res.

(** ** Data *)

Definition CLOCK_REALTIME : Z := 0.
Definition CLOCK_MONOTONIC : Z := 1.
Definition HRTIMER_MODE_ABS : Z := 0.
Definition HRTIMER_MODE_REL : Z := 1.
Definition HRTIMER_MODE_PINNED : Z := 2.
Definition HRTIMER_STATE_INACTIVE : Z := 0.
Definition HRTIMER_STATE_ENQUEUED : Z := 1.
Definition HRTIMER_STATE_CALLBACK : Z := 2.
Definition HRTIMER_STATE_MIGRATE : Z := 4.

(** [struct hrtimer]; its [node] is the node of the heap with the same pointer,
    and [base] is the clock base, given by the CPU and the clock. *)
Record hrtimer := Hrtimer { expires : Z; softexpires : Z; base : option (Z * Z); state : Z }.

(** [struct hrtimer_clock_base]; the CPU and the index are where it is kept. *)
Record hrtimer_clock_base := ClockBase {
  active : option ptr; first : option ptr; resolution : Z; softirq_time : Z; offset : Z
}.

(** [struct hrtimer_cpu_base] without the clock bases, which are kept apart. *)
Record hrtimer_cpu_base := CpuBase {
  expires_next : Z; hres_active : bool; hang_detected : bool;
  nr_events : Z; nr_retries : Z; nr_hangs : Z; max_hang_time : Z
}.

(** [struct clock_event_device]; [shutdown]: its mode is
    CLOCK_EVT_MODE_SHUTDOWN. *)
Record clock_event_device := ClockEventDevice {
  max_delta_ns : Z; min_delta_ns : Z; mult : Z; shift : Z; shutdown : bool; next_event : Z; retries : Z
}.

(** A call of a timer function: the timer as it was when taken off its queue,
    and the time the queue is run for. *)
Record call := Call { call_timer : ptr; call_softexpires : Z; call_expires : Z; call_base : Z * Z; call_now : Z }.

(** The timers and their nodes; the clock bases, CPU bases and event devices;
    the CPUs whose HRTIMER_SOFTIRQ is raised; how often a clock was read; the
    calls made so far. *)
Record hrtimers := Hrtimers {
  tm : gmap ptr hrtimer; heap : gmap ptr rb_node; clocks : gmap (Z * Z) hrtimer_clock_base;
  cpus : gmap Z hrtimer_cpu_base; devs : gmap Z clock_event_device; raised : gset Z; reads : nat; calls : list call
}.

Definition set_state (v : Z) (x : hrtimer) : hrtimer :=
  {| expires := expires x; softexpires := softexpires x; base := base x; state := v |}.
Definition set_hbase (v : option (Z * Z)) (x : hrtimer) : hrtimer :=
  {| expires := expires x; softexpires := softexpires x; base := v; state := state x |}.
Definition set_range (soft hard : Z) (x : hrtimer) : hrtimer :=
  {| expires := hard; softexpires := soft; base := base x; state := state x |}.

Definition set_active (v : option ptr) (b : hrtimer_clock_base) : hrtimer_clock_base :=
  {| active := v; first := first b; resolution := resolution b; softirq_time := softirq_time b; offset := offset b |}.
Definition set_first (v : option ptr) (b : hrtimer_clock_base) : hrtimer_clock_base :=
  {| active := active b; first := v; resolution := resolution b; softirq_time := softirq_time b; offset := offset b |}.
Definition set_resolution (v : Z) (b : hrtimer_clock_base) : hrtimer_clock_base :=
  {| active := active b; first := first b; resolution := v; softirq_time := softirq_time b; offset := offset b |}.
Definition set_softirq_time (v : Z) (b : hrtimer_clock_base) : hrtimer_clock_base :=
  {| active := active b; first := first b; resolution := resolution b; softirq_time := v; offset := offset b |}.
Definition set_offset (v : Z) (b : hrtimer_clock_base) : hrtimer_clock_base :=
  {| active := active b; first := first b; resolution := resolution b; softirq_time := softirq_time b; offset := v |}.

Definition set_expires_next (v : Z) (c : hrtimer_cpu_base) : hrtimer_cpu_base :=
  {| expires_next := v; hres_active := hres_active c; hang_detected := hang_detected c; nr_events := nr_events c;
     nr_retries := nr_retries c; nr_hangs := nr_hangs c; max_hang_time := max_hang_time c |}.
Definition set_hres_active (v : bool) (c : hrtimer_cpu_base) : hrtimer_cpu_base :=
  {| expires_next := expires_next c; hres_active := v; hang_detected := hang_detected c; nr_events := nr_events c;
     nr_retries := nr_retries c; nr_hangs := nr_hangs c; max_hang_time := max_hang_time c |}.
Definition set_hang (v : bool) (c : hrtimer_cpu_base) : hrtimer_cpu_base :=
  {| expires_next := expires_next c; hres_active := hres_active c; hang_detected := v; nr_events := nr_events c;
     nr_retries := nr_retries c; nr_hangs := nr_hangs c; max_hang_time := max_hang_time c |}.
Definition count_event (c : hrtimer_cpu_base) : hrtimer_cpu_base :=
  {| expires_next := expires_next c; hres_active := hres_active c; hang_detected := hang_detected c;
     nr_events := u64 (nr_events c + 1);
     nr_retries := nr_retries c; nr_hangs := nr_hangs c; max_hang_time := max_hang_time c |}.
Definition count_retry (c : hrtimer_cpu_base) : hrtimer_cpu_base :=
  {| expires_next := expires_next c; hres_active := hres_active c; hang_detected := hang_detected c; nr_events := nr_events c;
     nr_retries := u64 (nr_retries c + 1); nr_hangs := nr_hangs c; max_hang_time := max_hang_time c |}.
(** The counters after three attempts that took [delta]. *)
Definition count_hang (delta : Z) (c : hrtimer_cpu_base) : hrtimer_cpu_base :=
  {| expires_next := expires_next c; hres_active := hres_active c; hang_detected := true; nr_events := nr_events c;
     nr_retries := nr_retries c; nr_hangs := u64 (nr_hangs c + 1);
     max_hang_time := if delta >? max_hang_time c then delta else max_hang_time c |}.

Definition set_tm (v : gmap ptr hrtimer) (st : hrtimers) : hrtimers :=
  {| tm := v; heap := heap st; clocks := clocks st; cpus := cpus st; devs := devs st; raised := raised st;
     reads := reads st; calls := calls st |}.
Definition set_clocks (v : gmap (Z * Z) hrtimer_clock_base) (st : hrtimers) : hrtimers :=
  {| tm := tm st; heap := heap st; clocks := v; cpus := cpus st; devs := devs st; raised := raised st;
     reads := reads st; calls := calls st |}.
Definition set_cpus (v : gmap Z hrtimer_cpu_base) (st : hrtimers) : hrtimers :=
  {| tm := tm st; heap := heap st; clocks := clocks st; cpus := v; devs := devs st; raised := raised st;
     reads := reads st; calls := calls st |}.
Definition set_raised (v : gset Z) (st : hrtimers) : hrtimers :=
  {| tm := tm st; heap := heap st; clocks := clocks st; cpus := cpus st; devs := devs st; raised := v;
     reads := reads st; calls := calls st |}.
Definition set_heap (v : gmap ptr rb_node) (st : hrtimers) : hrtimers :=
  {| tm := tm st; heap := v; clocks := clocks st; cpus := cpus st; devs := devs st; raised := raised st;
     reads := reads st; calls := calls st |}.
Definition set_dev (c : Z) (d : clock_event_device) (k : nat) (st : hrtimers) : hrtimers :=
  {| tm := tm st; heap := heap st; clocks := clocks st; cpus := cpus st; devs := <[c := d]> (devs st); raised := raised st;
     reads := k; calls := calls st |}.
Definition set_reads (k : nat) (st : hrtimers) : hrtimers :=
  {| tm := tm st; heap := heap st; clocks := clocks st; cpus := cpus st; devs := devs st; raised := raised st;
     reads := k; calls := calls st |}.
Definition log_call (e : call) (st : hrtimers) : hrtimers :=
  {| tm := tm st; heap := heap st; clocks := clocks st; cpus := cpus st; devs := devs st; raised := raised st;
     reads := reads st; calls := calls st ++ [e] |}.

Definition set_timer (t : ptr) (x : hrtimer) (st : hrtimers) : hrtimers := set_tm (<[t := x]> (tm st)) st.
Definition set_clock (k : Z * Z) (b : hrtimer_clock_base) (st : hrtimers) : hrtimers := set_clocks (<[k := b]> (clocks st)) st.
Definition set_cpu (c : Z) (b : hrtimer_cpu_base) (st : hrtimers) : hrtimers := set_cpus (<[c := b]> (cpus st)) st.

Definition hrtimer_active (x : hrtimer) : bool := negb (state x =? HRTIMER_STATE_INACTIVE).
Definition hrtimer_is_queued (x : hrtimer) : bool := has (state x) HRTIMER_STATE_ENQUEUED.
Definition hrtimer_callback_running (x : hrtimer) : bool := has (state x) HRTIMER_STATE_CALLBACK.

Definition hrtimer_set_expires (time : Z) (x : hrtimer) : hrtimer := set_range time time x.
Definition hrtimer_set_expires_range_ns (time delta : Z) (x : hrtimer) : hrtimer :=
  set_range time (ktime_add_safe time (ns_to_ktime delta)) x.
Definition hrtimer_add_expires (time : Z) (x : hrtimer) : hrtimer :=
  set_range (ktime_add_safe (softexpires x) time) (ktime_add_safe (expires x) time) x.
Definition hrtimer_add_expires_ns (ns : Z) (x : hrtimer) : hrtimer :=
  set_range (ktime_add_ns (softexpires x) ns) (ktime_add_ns (expires x) ns) x.

(** The timer after forwarding, and the number of overruns; [res] is the
    resolution of its clock. *)
Definition hrtimer_forward (res now interval : Z) (x : hrtimer) : Z * hrtimer :=
  let delta := ktime_sub now (expires x) in
  if delta <? 0 then (0, x)
  else
    let interval := if interval <? res then res else interval in
    if delta >=? interval then
      let orun := ktime_divns delta interval in
      let x := hrtimer_add_expires_ns (u64 (interval * orun)) x in
      if expires x >? now then (orun, x) else (u64 (orun + 1), hrtimer_add_expires interval x)
    else (1, hrtimer_add_expires interval x).

(** ** The event device *)

(** Limit min_delta to a jiffie. *)
Definition MIN_DELTA_LIMIT : Z := NSEC_PER_SEC / HZ.

Definition set_next (v : Z) (d : clock_event_device) : clock_event_device :=
  {| max_delta_ns := max_delta_ns d; min_delta_ns := min_delta_ns d; mult := mult d; shift := shift d;
     shutdown := shutdown d; next_event := v; retries := retries d |}.
Definition set_min_delta (v : Z) (d : clock_event_device) : clock_event_device :=
  {| max_delta_ns := max_delta_ns d; min_delta_ns := v; mult := mult d; shift := shift d;
     shutdown := shutdown d; next_event := next_event d; retries := retries d |}.
Definition count_try (d : clock_event_device) : clock_event_device :=
  {| max_delta_ns := max_delta_ns d; min_delta_ns := min_delta_ns d; mult := mult d; shift := shift d;
     shutdown := shutdown d; next_event := next_event d; retries := u64 (retries d + 1) |}.

Definition tick_increase_min_delta (d : clock_event_device) : Z * clock_event_device :=
  if min_delta_ns d >=? MIN_DELTA_LIMIT then (- ETIME, d)
  else
    let v := if min_delta_ns d <? 5000 then 5000 else u64 (min_delta_ns d + Z.shiftr (min_delta_ns d) 1) in
    (0, set_min_delta (if v >? MIN_DELTA_LIMIT then MIN_DELTA_LIMIT else v) d).

(** The machine: what the clocks show when a clock is read for the [k]th time,
    and what the driver answers when the device is programmed then. *)
Record machine := Machine {
  ktime_get : nat -> Z; ktime_get_real : nat -> Z; set_next_event : nat -> Z -> clock_event_device -> Z
}.

Section Device.
Context (mc : machine).

Definition clockevents_program_event (k : nat) (expires now : Z) (d : clock_event_device) : Z * clock_event_device :=
  if expires <? 0 then (- ETIME, d)
  else
    let delta := ktime_sub expires now in
    if delta <=? 0 then (- ETIME, d)
    else
      let d := set_next expires d in
      if shutdown d then (0, d)
      else
        let delta := if delta >? max_delta_ns d then max_delta_ns d else delta in
        let delta := if delta <? min_delta_ns d then min_delta_ns d else delta in
        let clc := Z.shiftr (u64 (delta * mult d)) (shift d) in
        (set_next_event mc k clc d, d).

(** The loop of [tick_dev_program_event]; [i] failures since the last change of
    the minimal delta. *)
Fixpoint program_loop (fuel : nat) (force : bool) (i : Z) (k : nat) (expires now : Z) (d : clock_event_device)
    : option (Z * clock_event_device * nat) :=
  match fuel with
  | O => None
  | S fuel =>
      let '(ret, d) := clockevents_program_event k expires now d in
      if (ret =? 0) || negb force then Some (ret, d, k)
      else
        let d := count_try d in
        let i := i + 1 in
        let '(err, d) := if i >? 2 then tick_increase_min_delta d else (0, d) in
        if negb (err =? 0) then Some (- ETIME, set_next KTIME_MAX d, k)
        else
          let now := ktime_get mc k in
          program_loop fuel force (if i >? 2 then 0 else i) (S k) (ktime_add_ns now (min_delta_ns d)) now d
  end.

(** Enough for the growth of the minimal delta up to its limit. *)
Definition program_fuel : nat := 64.

Definition tick_dev_program_event (k : nat) (expires : Z) (force : bool) (d : clock_event_device)
    : option (Z * clock_event_device * nat) :=
  program_loop program_fuel force 0 (S k) expires (ktime_get mc k) d.

(** On CPU [c]. *)
Definition tick_program_event (c expires : Z) (force : bool) (st : hrtimers) : option (Z * hrtimers) :=
  d ← devs st !! c;
  '(ret, d, k) ← tick_dev_program_event (reads st) expires force d;
  Some (ret, set_dev c d k st).

(** [base->get_time()] of the clock [index]. *)
Definition get_time (index : Z) (st : hrtimers) : Z * hrtimers :=
  ((if index =? CLOCK_REALTIME then ktime_get_real mc (reads st) else ktime_get mc (reads st)), set_reads (S (reads st)) st).

(** ** Reprogramming *)

(** The smaller of [expires_next] and the first expiry of a clock base. *)
Definition earlier (k : Z * Z) (st : hrtimers) (next : Z) : option Z :=
  b ← clocks st !! k;
  match first b with
  | None => Some next
  | Some t =>
      x ← tm st !! t;
      let e := ktime_sub (expires x) (offset b) in
      let e := if e <? 0 then 0 else e in
      Some (if e <? next then e else next)
  end.

Definition hrtimer_force_reprogram (c : Z) (skip_equal : bool) (st : hrtimers) : option hrtimers :=
  next ← earlier (c, CLOCK_REALTIME) st KTIME_MAX;
  next ← earlier (c, CLOCK_MONOTONIC) st next;
  b ← cpus st !! c;
  if skip_equal && (next =? expires_next b) then Some st
  else
    let st := set_cpu c (set_expires_next next b) st in
    if negb (next =? KTIME_MAX) then snd <$> tick_program_event c next true st else Some st.

(** An error of [set_next_event] or a time in the past is IS_ERR_VALUE. *)
Definition hrtimer_reprogram (this_cpu : Z) (x : hrtimer) (b : hrtimer_clock_base) (st : hrtimers) : option (Z * hrtimers) :=
  cb ← cpus st !! this_cpu;
  let e := ktime_sub (expires x) (offset b) in
  if hrtimer_callback_running x then Some (0, st)
  else if e <? 0 then Some (- ETIME, st)
  else if e >=? expires_next cb then Some (0, st)
  else if hang_detected cb then Some (0, st)
  else
    '(res, st) ← tick_program_event this_cpu e false st;
    Some (res, if (-4095 <=? res) && (res <? 0) then st else set_cpu this_cpu (set_expires_next e cb) st).

Definition hrtimer_enqueue_reprogram (this_cpu : Z) (t : ptr) (k : Z * Z) (st : hrtimers) : option hrtimers :=
  x ← tm st !! t;
  b ← clocks st !! k;
  cb ← cpus st !! k.1;
  if hres_active cb then
    '(res, st) ← hrtimer_reprogram this_cpu x b st;
    Some (if negb (res =? 0) then set_raised ({[this_cpu]} ∪ raised st) st else st)
  else Some st.

(** ** The queues *)

(** A function of lib/rbtree.c on the tree of the clock base [k]. *)
Definition on_tree (k : Z * Z) (f : rb_root -> option rb_root) (st : hrtimers) : option hrtimers :=
  b ← clocks st !! k;
  r ← f {| root := active b; nodes := heap st |};
  Some (set_heap (nodes r) (set_clock k (set_active (root r) b) st)).

(** Down from the link [l], which points to [cur], for a timer that expires at
    [e]. *)
Fixpoint find_link (fuel : nat) (e : Z) (l : link) (parent cur : option ptr) (leftmost : bool) (st : hrtimers)
    : option (link * option ptr * bool) :=
  match cur with
  | None => Some (l, parent, leftmost)
  | Some p =>
      match fuel with
      | O => None
      | S fuel =>
          x ← tm st !! p;
          n ← heap st !! p;
          if e <? expires x then find_link fuel e (LeftLink p) cur (rb_left n) leftmost st
          else find_link fuel e (RightLink p) cur (rb_right n) false st
      end
  end.

Definition enqueue_hrtimer (t : ptr) (k : Z * Z) (st : hrtimers) : option (bool * hrtimers) :=
  x ← tm st !! t;
  b ← clocks st !! k;
  '(l, parent, leftmost) ← find_link (S (size (heap st))) (expires x) RootLink None (active b) true st;
  let st := if (leftmost : bool) then set_clock k (set_first (Some t) b) st else st in
  st ← on_tree k (rb_link_node t parent l) st;
  st ← on_tree k (rb_insert_color t) st;
  Some (leftmost, set_timer t (set_state (Z.lor (state x) HRTIMER_STATE_ENQUEUED) x) st).

Definition remove_hrtimer_raw (this_cpu : Z) (t : ptr) (k : Z * Z) (newstate : Z) (reprogram : bool) (st : hrtimers)
    : option hrtimers :=
  x ← tm st !! t;
  if negb (hrtimer_is_queued x) then Some (set_timer t (set_state newstate x) st)
  else
    b ← clocks st !! k;
    cb ← cpus st !! k.1;
    tb ← cpus st !! this_cpu;
    st ← (if decide (first b = Some t) then
            next ← rb_next t {| root := active b; nodes := heap st |};
            let st := set_clock k (set_first next b) st in
            if reprogram && hres_active tb && (expires_next cb =? ktime_sub (expires x) (offset b))
            then hrtimer_force_reprogram k.1 true st else Some st
          else Some st);
    st ← on_tree k (rb_erase t) st;
    Some (set_timer t (set_state newstate x) st).

Definition remove_hrtimer (this_cpu : Z) (t : ptr) (k : Z * Z) (st : hrtimers) : option (Z * hrtimers) :=
  x ← tm st !! t;
  if hrtimer_is_queued x then
    st ← remove_hrtimer_raw this_cpu t k HRTIMER_STATE_INACTIVE (k.1 =? this_cpu) st;
    Some (1, st)
  else Some (0, st).

(** ** Starting and cancelling *)

(** What a call finds: its CPU and the NO_HZ balancer. *)
Record cpu_env := CpuEnv { smp_processor_id : Z; timer_migration : bool; idle_cpu : bool; nohz_load_balancer : Z }.

Definition hrtimer_get_target (e : cpu_env) (pinned : bool) : Z :=
  if negb pinned && timer_migration e && idle_cpu e && (nohz_load_balancer e >=? 0)
  then nohz_load_balancer e else smp_processor_id e.

Definition hrtimer_check_target (x : hrtimer) (new : Z * Z) (st : hrtimers) : option bool :=
  cb ← cpus st !! new.1;
  b ← clocks st !! new;
  Some (hres_active cb && (ktime_sub (expires x) (offset b) <=? expires_next cb)).

Definition switch_hrtimer_base (e : cpu_env) (t : ptr) (k : Z * Z) (pinned : bool) (st : hrtimers)
    : option ((Z * Z) * hrtimers) :=
  x ← tm st !! t;
  let this_cpu := smp_processor_id e in
  let cpu := hrtimer_get_target e pinned in
  if decide (k = (cpu, k.2)) then Some (k, st)
  else if hrtimer_callback_running x then Some (k, st)
  else
    early ← (if cpu =? this_cpu then Some false else hrtimer_check_target x (cpu, k.2) st);
    let new := if (early : bool) then (this_cpu, k.2) else (cpu, k.2) in
    Some (new, set_timer t (set_hbase (Some new) x) st).

Definition hrtimer_start_range_ns (e : cpu_env) (t : ptr) (tim delta_ns mode : Z) (st : hrtimers) : option (Z * hrtimers) :=
  x ← tm st !! t;
  k ← base x;
  '(ret, st) ← remove_hrtimer (smp_processor_id e) t k st;
  '(new, st) ← switch_hrtimer_base e t k (has mode HRTIMER_MODE_PINNED) st;
  let '(tim, st) := if has mode HRTIMER_MODE_REL
                    then let '(now, st) := get_time new.2 st in (ktime_add_safe tim now, st) else (tim, st) in
  x ← tm st !! t;
  '(leftmost, st) ← enqueue_hrtimer t new (set_timer t (hrtimer_set_expires_range_ns tim delta_ns x) st);
  st ← (if leftmost && (new.1 =? smp_processor_id e) then hrtimer_enqueue_reprogram (smp_processor_id e) t new st else Some st);
  Some (ret, st).

Definition hrtimer_start (e : cpu_env) (t : ptr) (tim mode : Z) (st : hrtimers) : option (Z * hrtimers) :=
  hrtimer_start_range_ns e t tim 0 mode st.

Definition hrtimer_start_expires (e : cpu_env) (t : ptr) (mode : Z) (st : hrtimers) : option (Z * hrtimers) :=
  x ← tm st !! t;
  hrtimer_start_range_ns e t (softexpires x) (u64 (ktime_sub (expires x) (softexpires x))) mode st.

Definition hrtimer_restart (e : cpu_env) (t : ptr) (st : hrtimers) : option (Z * hrtimers) :=
  hrtimer_start_expires e t HRTIMER_MODE_ABS st.

Definition hrtimer_try_to_cancel (this_cpu : Z) (t : ptr) (st : hrtimers) : option (Z * hrtimers) :=
  x ← tm st !! t;
  k ← base x;
  if negb (hrtimer_callback_running x) then remove_hrtimer this_cpu t k st else Some (-1, st).

(** The wait for a callback that is running elsewhere is not part of the
    model. *)
Definition hrtimer_cancel (this_cpu : Z) (t : ptr) (st : hrtimers) : option (Z * hrtimers) :=
  '(ret, st) ← hrtimer_try_to_cancel this_cpu t st;
  if ret >=? 0 then Some (ret, st) else None.

Definition hrtimer_get_remaining (t : ptr) (st : hrtimers) : option (Z * hrtimers) :=
  x ← tm st !! t;
  k ← base x;
  let '(now, st) := get_time k.2 st in
  Some (ktime_sub (expires x) now, st).

(** The first expiry of a clock base relative to its time, if it is smaller. *)
Definition earlier_delta (k : Z * Z) (st : hrtimers) (mindelta : Z) : option (Z * hrtimers) :=
  b ← clocks st !! k;
  match first b with
  | None => Some (mindelta, st)
  | Some t =>
      x ← tm st !! t;
      let '(now, st) := get_time k.2 st in
      let delta := ktime_sub (expires x) now in
      Some (if delta <? mindelta then delta else mindelta, st)
  end.

Definition hrtimer_get_next_event (c : Z) (st : hrtimers) : option (Z * hrtimers) :=
  cb ← cpus st !! c;
  '(mindelta, st) ← (if negb (hres_active cb) then
                       '(m, st) ← earlier_delta (c, CLOCK_REALTIME) st KTIME_MAX;
                       earlier_delta (c, CLOCK_MONOTONIC) st m
                     else Some (KTIME_MAX, st));
  Some (if mindelta <? 0 then 0 else mindelta, st).

(** A new timer, all zero; a queued one must not be initialised. *)
Definition hrtimer_init (this_cpu : Z) (t : ptr) (clock_id mode : Z) (st : hrtimers) : option hrtimers :=
  if default false (hrtimer_is_queued <$> tm st !! t) then None
  else
    let clock_id := if (clock_id =? CLOCK_REALTIME) && negb (mode =? HRTIMER_MODE_ABS) then CLOCK_MONOTONIC else clock_id in
    _ ← clocks st !! (this_cpu, clock_id);
    Some (set_heap (<[t := {| rb_parent := None; rb_color := RB_RED; rb_right := None; rb_left := None |}]> (heap st))
           (set_timer t {| expires := 0; softexpires := 0; base := Some (this_cpu, clock_id);
                           state := HRTIMER_STATE_INACTIVE |} st)).

(** The owner of a timer that is not queued changes its expiry. *)
Definition hrtimer_update (f : hrtimer -> hrtimer) (t : ptr) (st : hrtimers) : option hrtimers :=
  x ← tm st !! t;
  if hrtimer_is_queued x then None else Some (set_timer t (f x) st).

(** ** Running timers *)

(** What can happen to timers while the lock is dropped for a callback: the
    operations of the callback itself and of other CPUs. *)
Inductive hrtimer_op :=
| OpInit (this_cpu : Z) (t : ptr) (clock_id mode : Z)
| OpSetExpires (t : ptr) (time delta : Z)
| OpForward (t : ptr) (now interval : Z)
| OpStart (e : cpu_env) (t : ptr) (tim delta_ns mode : Z)
| OpRestart (e : cpu_env) (t : ptr)
| OpCancel (this_cpu : Z) (t : ptr).

(** The arguments are 64-bit values, and the operation runs on a CPU. *)
Definition run_op (o : hrtimer_op) (st : hrtimers) : option hrtimers :=
  match o with
  | OpInit c t clock_id mode => hrtimer_init c t clock_id mode st
  | OpSetExpires t time delta => hrtimer_update (hrtimer_set_expires_range_ns (s64 time) (u64 delta)) t st
  | OpForward t now interval =>
      x ← tm st !! t;
      k ← base x;
      b ← clocks st !! k;
      hrtimer_update (fun x => snd (hrtimer_forward (resolution b) (s64 now) (s64 interval) x)) t st
  | OpStart e t tim delta mode => _ ← cpus st !! smp_processor_id e; snd <$> hrtimer_start_range_ns e t (s64 tim) (u64 delta) mode st
  | OpRestart e t => _ ← cpus st !! smp_processor_id e; snd <$> hrtimer_restart e t st
  | OpCancel c t => _ ← cpus st !! c; snd <$> hrtimer_try_to_cancel c t st
  end.

Fixpoint run_ops (l : list hrtimer_op) (st : hrtimers) : option hrtimers :=
  match l with
  | [] => Some st
  | o :: l => st ← run_op o st; run_ops l st
  end.

(** What happens during the callback of a timer, and whether it answers
    HRTIMER_RESTART. *)
Context (handler : ptr -> hrtimers -> list hrtimer_op * bool).

Definition run_hrtimer (c : Z) (t : ptr) (now : Z) (st : hrtimers) : option hrtimers :=
  x ← tm st !! t;
  k ← base x;
  st ← remove_hrtimer_raw c t k HRTIMER_STATE_CALLBACK false st;
  let st := log_call {| call_timer := t; call_softexpires := softexpires x; call_expires := expires x;
                        call_base := k; call_now := now |} st in
  let '(ops, restart) := handler t st in
  st ← run_ops ops st;
  x ← tm st !! t;
  st ← (if (restart : bool) then
          if negb (state x =? HRTIMER_STATE_CALLBACK) then None else snd <$> enqueue_hrtimer t k st
        else Some st);
  x ← tm st !! t;
  Some (set_timer t (set_state (Z.ldiff (state x) HRTIMER_STATE_CALLBACK) x) st).

(** The expired timers of one clock base, for the interrupt; [next] is the
    earliest expiry of the timers left so far. *)
Fixpoint run_base (fuel : nat) (k : Z * Z) (basenow next : Z) (st : hrtimers) : option (Z * hrtimers) :=
  match fuel with
  | O => None
  | S fuel =>
      b ← clocks st !! k;
      match first b with
      | None => Some (next, st)
      | Some t =>
          x ← tm st !! t;
          if basenow <? softexpires x then
            let e := ktime_sub (expires x) (offset b) in
            Some (if e <? next then e else next, st)
          else
            st ← run_hrtimer k.1 t basenow st;
            run_base fuel k basenow next st
      end
  end.

Definition run_clock (fuel : nat) (k : Z * Z) (now next : Z) (st : hrtimers) : option (Z * hrtimers) :=
  b ← clocks st !! k;
  run_base fuel k (ktime_add now (offset b)) next st.

(** One attempt: the clock bases of CPU [c] in turn. *)
Definition run_cpu (fuel : nat) (c now : Z) (st : hrtimers) : option (Z * hrtimers) :=
  cb ← cpus st !! c;
  let st := set_cpu c (set_expires_next KTIME_MAX cb) st in
  '(next, st) ← run_clock fuel (c, CLOCK_REALTIME) now KTIME_MAX st;
  '(next, st) ← run_clock fuel (c, CLOCK_MONOTONIC) now next st;
  cb ← cpus st !! c;
  Some (next, set_cpu c (set_expires_next next cb) st).

(** The event is put off by the time spent, at most 100ms. *)
Definition put_off (c now entry_time : Z) (st : hrtimers) : option hrtimers :=
  cb ← cpus st !! c;
  let delta := ktime_sub now entry_time in
  let st := set_cpu c (count_hang delta cb) st in
  let next := if delta >? 100 * NSEC_PER_MSEC then ktime_add_ns now (100 * NSEC_PER_MSEC) else ktime_add now delta in
  snd <$> tick_program_event c next true st.

(** The attempts; [more] of the three are left after this one. *)
Fixpoint interrupt_loop (more : nat) (fuel : nat) (c now entry_time : Z) (st : hrtimers) : option hrtimers :=
  '(next, st) ← run_cpu fuel c now st;
  '(ret, st) ← (if next =? KTIME_MAX then Some (0, st) else tick_program_event c next false st);
  cb ← cpus st !! c;
  if ret =? 0 then Some (set_cpu c (set_hang false cb) st)
  else
    let now := ktime_get mc (reads st) in
    let st := set_reads (S (reads st)) (set_cpu c (count_retry cb) st) in
    match more with
    | O => put_off c now entry_time st
    | S more => interrupt_loop more fuel c now entry_time st
    end.

(** [fuel] bounds the timers one clock base runs in one attempt. *)
Definition hrtimer_interrupt (fuel : nat) (c : Z) (st : hrtimers) : option hrtimers :=
  cb ← cpus st !! c;
  d ← devs st !! c;
  if negb (hres_active cb) then None
  else
    let now := ktime_get mc (reads st) in
    let st := set_dev c (set_next KTIME_MAX d) (S (reads st)) (set_cpu c (count_event cb) st) in
    interrupt_loop 2 fuel c now now st.

Definition hrtimer_peek_ahead_timers (fuel : nat) (c : Z) (st : hrtimers) : option hrtimers :=
  cb ← cpus st !! c;
  if negb (hres_active cb) then Some st
  else if decide (devs st !! c = None) then Some st
  else hrtimer_interrupt fuel c st.

(** The raised softirq runs; it is no longer pending then. *)
Definition run_hrtimer_softirq (fuel : nat) (c : Z) (st : hrtimers) : option hrtimers :=
  hrtimer_peek_ahead_timers fuel c (set_raised (raised st ∖ {[c]}) st).

(** The timers of a clock base that expired before its softirq time. *)
Fixpoint run_queue (fuel : nat) (k : Z * Z) (st : hrtimers) : option hrtimers :=
  match fuel with
  | O => None
  | S fuel =>
      b ← clocks st !! k;
      match first b with
      | None => Some st
      | Some t =>
          x ← tm st !! t;
          if softirq_time b <=? expires x then Some st
          else
            st ← run_hrtimer k.1 t (softirq_time b) st;
            run_queue fuel k st
      end
  end.

(** [xtim] and [tomono]: the wall time and the distance to the monotonic one. *)
Definition hrtimer_get_softirq_time (c xtim tomono : Z) (st : hrtimers) : option hrtimers :=
  r ← clocks st !! (c, CLOCK_REALTIME);
  m ← clocks st !! (c, CLOCK_MONOTONIC);
  Some (set_clock (c, CLOCK_MONOTONIC) (set_softirq_time (ktime_add xtim tomono) m)
         (set_clock (c, CLOCK_REALTIME) (set_softirq_time xtim r) st)).

(** The queue of one clock; the time is read for the first one that is not
    empty. *)
Definition run_index (fuel : nat) (c xtim tomono index : Z) (gettime : bool) (st : hrtimers) : option (bool * hrtimers) :=
  b ← clocks st !! (c, index);
  match first b with
  | None => Some (gettime, st)
  | Some _ =>
      st ← (if gettime then hrtimer_get_softirq_time c xtim tomono st else Some st);
      st ← run_queue fuel (c, index) st;
      Some (false, st)
  end.

Definition hrtimer_run_queues (fuel : nat) (c xtim tomono : Z) (st : hrtimers) : option hrtimers :=
  cb ← cpus st !! c;
  if hres_active cb then Some st
  else
    '(gettime, st) ← run_index fuel c xtim tomono CLOCK_REALTIME true st;
    '(_, st) ← run_index fuel c xtim tomono CLOCK_MONOTONIC gettime st;
    Some st.

(** ** CPUs and clocks *)

(** The clock was set: the wall time is [off] ahead of the monotonic one. *)
Definition retrigger_next_event (c off : Z) (st : hrtimers) : option hrtimers :=
  cb ← cpus st !! c;
  if negb (hres_active cb) then Some st
  else
    b ← clocks st !! (c, CLOCK_REALTIME);
    hrtimer_force_reprogram c false (set_clock (c, CLOCK_REALTIME) (set_offset off b) st).

Definition init_hrtimers_cpu (c : Z) (st : hrtimers) : option hrtimers :=
  cb ← cpus st !! c;
  Some (set_cpu c (set_hres_active false (set_expires_next KTIME_MAX cb)) st).

(** The timers of the clock base [old] of a dead CPU, first to last. *)
Fixpoint migrate_hrtimer_list (fuel : nat) (this_cpu : Z) (old new : Z * Z) (st : hrtimers) : option hrtimers :=
  match fuel with
  | O => None
  | S fuel =>
      b ← clocks st !! old;
      node ← rb_first {| root := active b; nodes := heap st |};
      match node with
      | None => Some st
      | Some t =>
          x ← tm st !! t;
          if hrtimer_callback_running x then None
          else
            st ← remove_hrtimer_raw this_cpu t old HRTIMER_STATE_MIGRATE false st;
            x ← tm st !! t;
            '(_, st) ← enqueue_hrtimer t new (set_timer t (set_hbase (Some new) x) st);
            x ← tm st !! t;
            migrate_hrtimer_list fuel this_cpu old new
              (set_timer t (set_state (Z.ldiff (state x) HRTIMER_STATE_MIGRATE) x) st)
      end
  end.

(** The tick timer of a CPU, if it was ever set up. *)
Definition tick_cancel_sched_timer (c : Z) (t : ptr) (st : hrtimers) : option hrtimers :=
  if default false ((fun x => bool_decide (base x <> None)) <$> tm st !! t) then snd <$> hrtimer_cancel c t st else Some st.

(** The timers of the dead CPU [scpu], whose tick timer is [tick], go to [c]. *)
Definition migrate_hrtimers (fuel : nat) (c scpu : Z) (tick : ptr) (st : hrtimers) : option hrtimers :=
  st ← (if scpu =? c then None else tick_cancel_sched_timer c tick st);
  st ← migrate_hrtimer_list (S (size (heap st))) c (scpu, CLOCK_REALTIME) (c, CLOCK_REALTIME) st;
  st ← migrate_hrtimer_list (S (size (heap st))) c (scpu, CLOCK_MONOTONIC) (c, CLOCK_MONOTONIC) st;
  hrtimer_peek_ahead_timers fuel c st.

(** [tick_setup_sched_timer]: the timer [t] of the tick; [first] is the last
    jiffies update, [stagger] the part of a tick the CPU is put off by. *)
Definition TICK_PERIOD : Z := NSEC_PER_SEC / HZ.

(** The loop stops when the timer is active, which starting it makes it: the
    first round is the last ([start_tick_round]). *)
Fixpoint start_tick (fuel : nat) (e : cpu_env) (t : ptr) (now : Z) (st : hrtimers) : option hrtimers :=
  match fuel with
  | O => None
  | S fuel =>
      st ← run_op (OpForward t now TICK_PERIOD) st;
      '(_, st) ← hrtimer_start_expires e t HRTIMER_MODE_PINNED st;
      x ← tm st !! t;
      if hrtimer_active x then Some st else start_tick fuel e t (ktime_get mc (reads st)) (set_reads (S (reads st)) st)
  end.

Definition tick_setup_sched_timer (e : cpu_env) (t : ptr) (jiffy ncpus : Z) (st : hrtimers) : option hrtimers :=
  let now := ktime_get mc (reads st) in
  let st := set_reads (S (reads st)) st in
  st ← hrtimer_init (smp_processor_id e) t CLOCK_MONOTONIC HRTIMER_MODE_ABS st;
  let offset := u64 (Z.shiftr TICK_PERIOD 1 / ncpus * smp_processor_id e) in
  st ← hrtimer_update (fun x => hrtimer_add_expires_ns offset (hrtimer_set_expires jiffy x)) t st;
  start_tick 1 e t now st.

(** [oneshot]: the tick device can be switched to single events. *)
Definition hrtimer_switch_to_hres (e : cpu_env) (oneshot : bool) (t : ptr) (jiffy ncpus off : Z) (st : hrtimers)
    : option (Z * hrtimers) :=
  let c := smp_processor_id e in
  cb ← cpus st !! c;
  if hres_active cb then Some (1, st)
  else if negb oneshot then Some (0, st)
  else
    r ← clocks st !! (c, CLOCK_REALTIME);
    m ← clocks st !! (c, CLOCK_MONOTONIC);
    let st := set_clock (c, CLOCK_MONOTONIC) (set_resolution 1 m)
                (set_clock (c, CLOCK_REALTIME) (set_resolution 1 r) (set_cpu c (set_hres_active true cb) st)) in
    st ← tick_setup_sched_timer e t jiffy ncpus st;
    st ← retrigger_next_event c off st;
    Some (1, st).
End Device.
