(* ===== verification/HrtimerInv.v ===== *)
(** * HrtimerInv: correctness of the high resolution timers

    The queue of a clock base is the list of its timers in the order of expiry,
    kept as a red-black tree; starting, cancelling, running and migrating timers
    act on these lists, and the event device of a CPU is programmed for the
    first of them. *)

From Stdlib Require Import Sorted.
From S2P Require Import Prelude Rbtree RbtreeInv RbtreeSpec Hrtimer.

(** ** State bits *)

Lemma has_testbit s i : 0 <= i -> has s (2 ^ i) = Z.testbit s i.
Proof.
  intros Hi. unfold has. destruct (Z.testbit s i) eqn:E.
  - apply negb_true_iff, Z.eqb_neq. intros H. apply (f_equal (fun z => Z.testbit z i)) in H.
    rewrite Z.land_spec, E, Z.pow2_bits_true, Z.bits_0 in H by done. done.
  - apply negb_false_iff, Z.eqb_eq, Z.bits_inj'. intros j Hj. rewrite Z.land_spec, Z.bits_0, Z.pow2_bits_eqb by done.
    destruct (Z.eqb_spec i j) as [->|]; [by rewrite E|apply andb_false_r].
Qed.

Lemma queued_or x : hrtimer_is_queued (set_state (Z.lor (state x) HRTIMER_STATE_ENQUEUED) x) = true.
Proof.
  unfold hrtimer_is_queued. change HRTIMER_STATE_ENQUEUED with (2 ^ 0). rewrite has_testbit by done. cbn [state set_state].
  rewrite Z.lor_spec. change (Z.testbit (2 ^ 0) 0) with true. apply orb_true_r.
Qed.

Lemma running_or x : hrtimer_callback_running (set_state (Z.lor (state x) HRTIMER_STATE_ENQUEUED) x) = hrtimer_callback_running x.
Proof.
  unfold hrtimer_callback_running. change HRTIMER_STATE_CALLBACK with (2 ^ 1). rewrite !has_testbit by done. cbn [state set_state].
  rewrite Z.lor_spec. change (Z.testbit HRTIMER_STATE_ENQUEUED 1) with false. apply orb_false_r.
Qed.

Lemma queued_clear x i : 0 < i -> hrtimer_is_queued (set_state (Z.ldiff (state x) (2 ^ i)) x) = hrtimer_is_queued x.
Proof.
  intros Hi. unfold hrtimer_is_queued. change HRTIMER_STATE_ENQUEUED with (2 ^ 0). rewrite !has_testbit by done. cbn [state set_state].
  rewrite Z.ldiff_spec, Z.pow2_bits_false by lia. apply andb_true_r.
Qed.

(** ** The order of a queue *)

Definition exp_of (m : gmap ptr hrtimer) (t : ptr) : Z := default 0 (expires <$> m !! t).

(** A new timer goes behind those that expire at the same time. *)
Fixpoint insort (f : ptr -> Z) (t : ptr) (e : Z) (E : list ptr) : list ptr :=
  match E with [] => [t] | q :: E => if e <? f q then t :: q :: E else q :: insort f t e E end.

Definition by_expiry (f : ptr -> Z) (E : list ptr) : Prop := StronglySorted (fun p q => f p <= f q) E.

Lemma insort_split f t e A B :
  Forall (fun q => f q <= e) A -> Forall (fun q => e < f q) B -> insort f t e (A ++ B) = A ++ t :: B.
Proof.
  induction 1 as [|q A Hq HA IH]; intros HB; cbn.
  - destruct HB as [|q B Hq HB]; [done|]. cbn. by rewrite (proj2 (Z.ltb_lt _ _)) by lia.
  - rewrite (proj2 (Z.ltb_ge _ _)) by lia. by rewrite IH.
Qed.

Lemma insort_perm f t e E : insort f t e E ≡ₚ t :: E.
Proof.
  induction E as [|q E IH]; cbn; [done|]. destruct (e <? f q); [done|]. rewrite IH. apply Permutation_swap.
Qed.

Lemma insort_order f t E : by_expiry f E -> by_expiry f (insort f t (f t) E).
Proof.
  induction 1 as [|q E HE IH Hq]; cbn; [by repeat constructor|]. destruct (Z.ltb_spec (f t) (f q)).
  - constructor; [by constructor|]. constructor; [lia|]. eapply Forall_impl; [exact Hq|]. cbn. lia.
  - constructor; [done|]. rewrite insort_perm. by constructor.
Qed.

Lemma order_ext f g E : (forall q, q ∈ E -> f q = g q) -> by_expiry f E -> by_expiry g E.
Proof.
  intros Hfg HE. induction HE as [|q E HE IH Hq]; [constructor|]. constructor; [apply IH; set_solver|].
  rewrite Forall_forall in *. intros r Hr. rewrite <- !Hfg by set_solver. by apply Hq.
Qed.

Lemma order_del f t E : by_expiry f E -> by_expiry f (list_del t E).
Proof.
  induction 1 as [|q E HE IH Hq]; [constructor|]. unfold list_del. rewrite filter_cons. case_decide; [|exact IH].
  constructor; [exact IH|]. rewrite Forall_forall in *. intros r [Hr _]%elem_of_list_del. by apply Hq.
Qed.

Lemma order_app f A B : by_expiry f (A ++ B) <-> by_expiry f A /\ by_expiry f B /\ forall p q, p ∈ A -> q ∈ B -> f p <= f q.
Proof.
  induction A as [|x A IH]; cbn [app].
  - split; [|tauto]. intros H. split; [constructor|]. split; [done|]. intros p q Hp. set_solver.
  - split.
    + intros H. inversion H as [|? ? H1 H2]; subst. apply IH in H1 as (HA & HB & Hc). rewrite Forall_app in H2. destruct H2 as [H2 H3].
      split; [by constructor|]. split; [done|]. intros p q [->|Hp]%elem_of_cons Hq; [|auto]. rewrite Forall_forall in H3. auto.
    + intros (H1 & HB & Hc). inversion H1 as [|? ? HA H2]; subst. constructor; [apply IH; split; [done|]; split; [done|]; set_solver|].
      rewrite Forall_app. split; [done|]. rewrite Forall_forall. intros q Hq. apply Hc; set_solver.
Qed.

(** The walk down ends at the empty link behind the timers that do not expire
    later. *)
Lemma find_link_spec st h0 e fuel : forall t k l parent lm rt,
  at_place h0 k t {| root := rt; nodes := heap st |} -> (length (elems t) < fuel)%nat ->
  (forall q, q ∈ elems t -> is_Some (tm st !! q)) -> by_expiry (exp_of (tm st)) (elems t) ->
  Forall (fun q => exp_of (tm st) q <= e) (before k) -> Forall (fun q => e < exp_of (tm st) q) (after k) ->
  l = link_of k -> parent = above k -> lm = bool_decide (before k = []) ->
  exists k', find_link fuel e l parent (top t) lm st = Some (link_of k', above k', bool_decide (before k' = [])) /\
    plug k t = plug k' Nil /\ Forall (fun q => exp_of (tm st) q <= e) (before k') /\ Forall (fun q => e < exp_of (tm st) q) (after k').
Proof.
  induction fuel as [|fuel IH]; intros t k l parent lm rt Hap Hf Htm Ho HB HA -> -> ->; [lia|].
  destruct t as [|c a p b]; cbn [top]; [by exists k|]. cbn [find_link].
  destruct (Htm p) as [x Hx]; [set_solver|]. rewrite Hx. cbn [mbind option_bind].
  pose proof Hap as [(Hn & _) _ _ _]. cbn [nodes] in Hn. rewrite Hn. cbn [mbind option_bind rb_left rb_right mk_node].
  assert (expires x = exp_of (tm st) p) as -> by (unfold exp_of; by rewrite Hx).
  cbn [elems] in *. rewrite length_app in Hf. cbn in Hf.
  apply order_app in Ho as (Hoa & Hob & Hab). inversion Hob as [|? ? Hob' Hpb]; subst.
  destruct (Z.ltb_spec e (exp_of (tm st) p)) as [He|He].
  - apply (IH a (Frame L c p b :: k) _ _ _ rt); try done; [by apply (place_down h0 k (Node c a p b) _ L)|lia|set_solver|].
    cbn [after]. constructor; [done|]. apply Forall_app. split; [|done]. eapply Forall_impl; [exact Hpb|]. cbn. lia.
  - apply (IH b (Frame R c p a :: k) _ _ _ rt); try done; [by apply (place_down h0 k (Node c a p b) _ R)|lia|set_solver| |].
    + cbn [before]. apply Forall_app. split; [done|]. apply Forall_app. split; [|by constructor].
      rewrite Forall_forall. intros q Hq. specialize (Hab q p Hq). set_solver by lia.
    + cbn [before]. symmetry. apply bool_decide_eq_false. intros E. apply app_nil in E as [_ E]. apply app_nil in E as [_ E]. done.
Qed.

(** ** The event device *)

(** The minimal delta after [n] increases, at least. *)
Fixpoint min_delta_after (n : nat) : Z :=
  match n with O => 5000 | S n => Z.min MIN_DELTA_LIMIT (min_delta_after n + Z.shiftr (min_delta_after n) 1) end.

Lemma min_delta_range n : 5000 <= min_delta_after n <= MIN_DELTA_LIMIT.
Proof.
  induction n as [|n IH]; [vm_compute; split; discriminate|]. cbn [min_delta_after].
  pose proof (proj2 (Z.shiftr_nonneg (min_delta_after n) 1) ltac:(lia)). change MIN_DELTA_LIMIT with 4000000 in *. lia.
Qed.

Lemma increase_fails d : min_delta_ns d >= MIN_DELTA_LIMIT -> tick_increase_min_delta d = (- ETIME, d).
Proof. intros H. unfold tick_increase_min_delta. by rewrite (proj2 (Z.geb_le _ _)) by lia. Qed.

Lemma increase_works d n : min_delta_ns d < MIN_DELTA_LIMIT -> n = O \/ min_delta_after (pred n) <= min_delta_ns d ->
  exists d', tick_increase_min_delta d = (0, d') /\ min_delta_after n <= min_delta_ns d'.
Proof.
  intros Hl Hn. unfold tick_increase_min_delta. destruct (Z.geb_spec (min_delta_ns d) MIN_DELTA_LIMIT); [lia|].
  eexists. split; [done|]. cbn [min_delta_ns set_min_delta]. pose proof (min_delta_range n) as Hr.
  change MIN_DELTA_LIMIT with 4000000 in *. destruct (Z.ltb_spec (min_delta_ns d) 5000).
  - destruct Hn as [->|Hn]; [done|]. pose proof (min_delta_range (pred n)). lia.
  - assert (0 <= Z.shiftr (min_delta_ns d) 1 <= min_delta_ns d).
    { rewrite Z.shiftr_div_pow2 by done. change (2 ^ 1) with 2. split; [apply Z.div_pos; lia|apply Z.div_le_upper_bound; lia]. }
    unfold u64. rewrite wrapu_small; [|change (2 ^ 64) with 18446744073709551616; lia].
    assert (min_delta_after n <= min_delta_ns d + Z.shiftr (min_delta_ns d) 1).
    { destruct n as [|n]; [cbn; lia|]. destruct Hn as [|Hn]; [done|]. cbn [pred min_delta_after] in *.
      assert (Z.shiftr (min_delta_after n) 1 <= Z.shiftr (min_delta_ns d) 1); [|lia].
      rewrite !Z.shiftr_div_pow2 by done. apply Z.div_le_mono; [done|lia]. }
    destruct (Z.gtb_spec (min_delta_ns d + Z.shiftr (min_delta_ns d) 1) 4000000); lia.
Qed.

Lemma min_delta_last : min_delta_after (17 - 0) = MIN_DELTA_LIMIT.
Proof. vm_compute. reflexivity. Qed.

#[local] Opaque min_delta_after MIN_DELTA_LIMIT.

Section Machine.
Context (mc : machine).

Lemma program_event_delta k e now d : min_delta_ns (clockevents_program_event mc k e now d).2 = min_delta_ns d.
Proof. unfold clockevents_program_event. by repeat case_match. Qed.

(** [n] increases are left. *)
Lemma program_total n : forall fuel force i k e now d,
  n = 18%nat \/ min_delta_after (17 - n) <= min_delta_ns d -> (n <= 18)%nat -> 0 <= i <= 2 -> 3 * Z.of_nat n + 3 - i <= Z.of_nat fuel ->
  exists r, program_loop mc fuel force i k e now d = Some r.
Proof.
  induction n as [n IHn] using lt_wf_ind. intros fuel. induction fuel as [|fuel IHf]; intros force i k e now d Hd Hn Hi Hf; [lia|].
  cbn [program_loop]. pose proof (program_event_delta k e now d) as Hmd.
  destruct (clockevents_program_event mc k e now d) as [ret d']. cbn in Hmd. rewrite <- Hmd in Hd.
  destruct ((ret =? 0) || negb force); [by eexists|]. destruct (Z.gtb_spec (i + 1) 2) as [Hi2|Hi2]; [|apply IHf; first [exact Hd|lia]].
  destruct (Z.lt_ge_cases (min_delta_ns d') MIN_DELTA_LIMIT) as [Hl|Hl].
  2: { rewrite increase_fails by (cbn; lia). by eexists. }
  destruct n as [|n].
  { destruct Hd as [|Hd]; [done|]. rewrite min_delta_last in Hd. clear - Hd Hl. lia. }
  destruct (increase_works (count_try d') (17 - n) Hl) as (d2 & -> & Hd2).
  { destruct Hd as [[= ->]|Hd]; [by left|]. right. cbn. replace (pred (17 - n)) with (17 - S n)%nat by lia. done. }
  cbn [Z.eqb negb]. apply (IHn n); [lia|by right|lia|lia|lia].
Qed.

Lemma program_device_total k e force d : exists r, tick_dev_program_event mc k e force d = Some r.
Proof. apply (program_total 18); [by left|lia|lia|]. unfold program_fuel. lia. Qed.

Lemma bind_eq {A B} (x : option A) (y : A) (f : A -> option B) : x = Some y -> (x ≫= f) = f y.
Proof. by intros ->. Qed.

Lemma program_event_total c e force st : is_Some (devs st !! c) ->
  exists ret d k, tick_program_event mc c e force st = Some (ret, set_dev c d k st).
Proof.
  intros [d Hd]. destruct (program_device_total (reads st) e force d) as ([[ret d'] k] & Hp). exists ret, d', k.
  unfold tick_program_event. etransitivity; [exact (bind_eq _ _ _ Hd)|]. exact (bind_eq _ _ _ Hp).
Qed.
End Machine.

(** ** The queues *)

Definition tree_of (st : hrtimers) (b : hrtimer_clock_base) : rb_root := {| root := active b; nodes := heap st |}.

(** [Q] gives the timers of every clock base, first to last. *)
Record queues (st : hrtimers) (Q : gmap (Z * Z) (list ptr)) : Prop := {
  qs_tree k b : clocks st !! k = Some b -> exists E, Q !! k = Some E /\ rbtree (tree_of st b) E /\ first b = head E;
  qs_clock k E : Q !! k = Some E -> is_Some (clocks st !! k);
  qs_in t k E : Q !! k = Some E -> t ∈ E ->
    exists x, tm st !! t = Some x /\ base x = Some k /\ hrtimer_is_queued x = true /\ 0 <= expires x <= KTIME_MAX;
  qs_out t x : tm st !! t = Some x -> hrtimer_is_queued x = true -> exists k E, base x = Some k /\ Q !! k = Some E /\ t ∈ E;
  qs_order k E : Q !! k = Some E -> by_expiry (exp_of (tm st)) E
}.

(** Clock bases, CPU bases and event devices exist together, a timer has a
    clock base, and the wall clock is not behind the monotonic one. *)
Record config (st : hrtimers) : Prop := {
  cf_clock c i : is_Some (clocks st !! (c, i)) <-> is_Some (cpus st !! c) /\ (i = CLOCK_REALTIME \/ i = CLOCK_MONOTONIC);
  cf_dev c : is_Some (cpus st !! c) -> is_Some (devs st !! c);
  cf_base t x : tm st !! t = Some x -> exists k, base x = Some k /\ is_Some (clocks st !! k);
  cf_params k b : clocks st !! k = Some b -> 1 <= resolution b <= KTIME_MAX /\ 0 <= offset b <= KTIME_MAX;
  cf_expires t x : tm st !! t = Some x -> 0 <= expires x <= KTIME_MAX
}.

(** What the queue operations leave alone of the clock bases. *)
Definition params (b : hrtimer_clock_base) : Z * Z * Z := (resolution b, softirq_time b, offset b).

Record same_clocks (st st' : hrtimers) : Prop := { sc_params k : params <$> clocks st' !! k = params <$> clocks st !! k }.

#[export] Instance same_clocks_po : PreOrder same_clocks.
Proof. split; [done|]. intros a b c [H1] [H2]. constructor. intros k. by rewrite H2, H1. Qed.

Lemma same_clock_some st st' k : same_clocks st st' -> is_Some (clocks st' !! k) <-> is_Some (clocks st !! k).
Proof. intros [H]. specialize (H k). destruct (clocks st' !! k), (clocks st !! k); try done; split; intros [? ?]; done. Qed.

Lemma rbtree_elsewhere st st' E :
  rbtree st E -> root st' = root st -> (forall q, q ∈ E -> nodes st' !! q = nodes st !! q) -> rbtree st' E.
Proof.
  intros (t & [H1 H2 H3] & Hr & <-) Hroot Hq. exists t. split; [|done]. constructor; [by apply (rep_ext (nodes st))|congruence|done].
Qed.

Lemma rbtree_nodup st E : rbtree st E -> NoDup E.
Proof. intros (t & [_ _ H] & _ & <-). done. Qed.

Section Queues.
Context (st : hrtimers) (Q : gmap (Z * Z) (list ptr)) (HQ : queues st Q).

Lemma queue_of k b : clocks st !! k = Some b ->
  exists E, Q !! k = Some E /\ rbtree (tree_of st b) E /\ first b = head E /\ by_expiry (exp_of (tm st)) E /\ NoDup E.
Proof.
  intros Hb. destruct (qs_tree _ _ HQ k b Hb) as (E & HE & Ht & Hf). exists E. split; [done|]. split; [done|]. split; [done|].
  split; [by apply (qs_order _ _ HQ k)|by apply (rbtree_nodup (tree_of st b))].
Qed.

Lemma not_queued_in t x k E : tm st !! t = Some x -> hrtimer_is_queued x = false -> Q !! k = Some E -> t ∉ E.
Proof. intros Hx Hq HE Ht. destruct (qs_in _ _ HQ t k E HE Ht) as (y & Hy & _ & Hyq & _). congruence. Qed.

(** Different clock bases have different timers. *)
Lemma queues_disjoint k k' E E' t : Q !! k = Some E -> Q !! k' = Some E' -> t ∈ E -> t ∈ E' -> k = k'.
Proof.
  intros HE HE' Ht Ht'. destruct (qs_in _ _ HQ t k E HE Ht) as (x & Hx & Hb & _).
  destruct (qs_in _ _ HQ t k' E' HE' Ht') as (x' & Hx' & Hb' & _). congruence.
Qed.

(** A timer that is not queued may change. *)
Lemma set_timer_queues t y :
  (forall x, tm st !! t = Some x -> hrtimer_is_queued x = false) -> hrtimer_is_queued y = false -> queues (set_timer t y st) Q.
Proof.
  intros Hx Hy. assert (forall k E q, Q !! k = Some E -> q ∈ E -> q <> t) as Hne.
  { intros k E q HE Hq ->. destruct (qs_in _ _ HQ t k E HE Hq) as (x & Hxt & _ & Hxq & _). rewrite Hx in Hxq; done. }
  destruct HQ as [H1 H2 H3 H4 H5]. constructor; cbn [set_timer set_tm tm clocks]; [done|done| | |].
  - intros q k E HE Hq. rewrite lookup_insert_ne by (symmetry; by eapply Hne). by eapply H3.
  - intros q x. destruct (decide (q = t)) as [->|Hqt]; [rewrite lookup_insert_eq; intros [= <-]; congruence|].
    rewrite lookup_insert_ne by done. apply H4.
  - intros k E HE. apply (order_ext (exp_of (tm st))); [|by apply (H5 k)]. intros q Hq. unfold exp_of.
    rewrite lookup_insert_ne; [done|]. symmetry. by eapply Hne.
Qed.
End Queues.

(** One timer enters or leaves the queue [k]. *)
Lemma queues_change st st' Q k b b' t y E E' :
  queues st Q -> clocks st !! k = Some b -> Q !! k = Some E ->
  clocks st' = <[k := b']> (clocks st) -> tm st' = <[t := y]> (tm st) ->
  (forall q, q ∈ E' <-> q ∈ E /\ q <> t \/ q = t /\ hrtimer_is_queued y = true) ->
  rbtree (tree_of st' b') E' -> first b' = head E' -> by_expiry (exp_of (tm st')) E' ->
  (forall q, q ∉ t :: E -> heap st' !! q = heap st !! q) ->
  (forall j F, Q !! j = Some F -> t ∈ F -> j = k) ->
  (hrtimer_is_queued y = true -> base y = Some k /\ 0 <= expires y <= KTIME_MAX) ->
  queues st' (<[k := E']> Q).
Proof.
  intros HQ Hb HE Hc Ht Hin Htree Hfirst Hord Hheap Hown Hy.
  assert (forall j F q, j <> k -> Q !! j = Some F -> q ∈ F -> q ∉ t :: E) as Hother.
  { intros j F q Hj HF Hq [->|Hq']%elem_of_cons; [by destruct Hj; apply (Hown j F)|].
    destruct Hj. by apply (queues_disjoint _ _ HQ j k F E q). }
  constructor.
  - intros j bj. rewrite Hc. destruct (decide (j = k)) as [->|Hj].
    + rewrite !lookup_insert_eq. intros [= <-]. by exists E'.
    + rewrite !lookup_insert_ne by done. intros Hbj. destruct (qs_tree _ _ HQ j bj Hbj) as (F & HF & HT & Hf). exists F.
      split; [done|]. split; [|done]. apply (rbtree_elsewhere _ _ _ HT); [done|]. intros q Hq. apply Hheap. by apply (Hother j F).
  - intros j F. rewrite Hc. destruct (decide (j = k)) as [->|Hj]; [by rewrite !lookup_insert_eq|].
    rewrite !lookup_insert_ne by done. apply (qs_clock _ _ HQ).
  - intros q j F. rewrite Ht. destruct (decide (j = k)) as [->|Hj].
    + rewrite lookup_insert_eq. intros [= <-] [[Hq Hqt]|[-> Hq]]%Hin; [rewrite lookup_insert_ne by done; by apply (qs_in _ _ HQ q k E)|].
      rewrite lookup_insert_eq. exists y. destruct (Hy Hq). done.
    + rewrite lookup_insert_ne by done. intros HF Hq. rewrite lookup_insert_ne; [by apply (qs_in _ _ HQ q j F)|].
      intros <-. apply (Hother j F t Hj HF Hq). set_solver.
  - intros q x. rewrite Ht. destruct (decide (q = t)) as [->|Hqt].
    + rewrite lookup_insert_eq. intros [= <-] Hq. destruct (Hy Hq) as [Hbase _]. exists k, E'. rewrite lookup_insert_eq.
      split; [done|]. split; [done|]. apply Hin. by right.
    + rewrite lookup_insert_ne by done. intros Hx Hq. destruct (qs_out _ _ HQ q x Hx Hq) as (j & F & Hbj & HF & Hqf).
      destruct (decide (j = k)) as [->|Hj]; [|by exists j, F; rewrite lookup_insert_ne]. exists k, E'.
      rewrite lookup_insert_eq. split; [done|]. split; [done|]. apply Hin. left. split; [congruence|done].
  - intros j F. destruct (decide (j = k)) as [->|Hj]; [by rewrite lookup_insert_eq; intros [= <-]|].
    rewrite lookup_insert_ne by done. intros HF. apply (order_ext (exp_of (tm st))); [|by apply (qs_order _ _ HQ j)].
    intros q Hq. unfold exp_of. rewrite Ht, lookup_insert_ne; [done|]. intros <-. apply (Hother j F t Hj HF Hq). set_solver.
Qed.

Lemma on_tree_eq k f st b r : clocks st !! k = Some b -> f (tree_of st b) = Some r ->
  on_tree k f st = Some (set_heap (nodes r) (set_clock k (set_active (root r) b) st)).
Proof. intros Hb Hf. unfold on_tree. rewrite Hb. cbn [mbind option_bind]. unfold tree_of in Hf. by rewrite Hf. Qed.

Lemma place_slot h0 k st : at_place h0 k Nil st -> slot st (above k) (link_of k) = true /\ link_in (link_of k) (elems (plug k Nil)) = true.
Proof.
  intros [_ Hk _ _]. destruct k as [|[[] c p s] k]; cbn [link_of slot link_in above fr_ptr rep_path] in *.
  - split; [|done]. apply andb_true_iff. split; [done|]. by apply bool_decide_eq_true.
  - destruct Hk as (Hp & _). rewrite Hp. split; [by rewrite !bool_decide_true|]. apply bool_decide_eq_true.
    rewrite elems_plug. cbn. set_solver.
  - destruct Hk as (Hp & _). rewrite Hp. split; [by rewrite !bool_decide_true|]. apply bool_decide_eq_true.
    rewrite elems_plug. cbn. set_solver.
Qed.

(** The link for a new timer, and where it comes in the order. *)
Lemma find_link_queue st b E t e :
  rbtree (tree_of st b) E -> by_expiry (exp_of (tm st)) E -> (forall q, q ∈ E -> is_Some (tm st !! q)) -> t ∉ E ->
  exists l parent lm, find_link (S (size (heap st))) e RootLink None (active b) true st = Some (l, parent, lm) /\
    slot (tree_of st b) parent l = true /\ link_in l E = true /\
    put t l E = insort (exp_of (tm st)) t e E /\ lm = bool_decide (head (insort (exp_of (tm st)) t e E) = Some t).
Proof.
  intros (tr & Hh & _ & <-) Hord Htm Htn. pose proof (ho_nodup _ _ Hh) as Hnd. pose proof (ho_root _ _ Hh) as Hroot. cbn in Hroot.
  apply holds_place in Hh. pose proof (place_size _ _ _ _ Hh) as Hf. unfold walk_fuel in Hf. cbn in Hf.
  destruct (find_link_spec st _ e (S (size (heap st))) tr [] RootLink None true _ Hh) as (k & Ek & Hp & HB & HA); try done.
  rewrite Hroot, Ek. exists (link_of k), (above k), (bool_decide (before k = [])). split; [done|].
  cbn [plug] in Hp. subst tr. apply (place_whole _ k) in Hh. destruct (place_slot _ _ _ Hh) as [Hs Hl].
  split; [exact Hs|]. split; [done|]. rewrite put_place by done. rewrite !plug_order in *. cbn [elems app] in *.
  rewrite (insort_split _ t e (before k) (after k)) by done. split; [done|]. apply bool_decide_ext.
  destruct (before k) as [|q B]; cbn; [done|]. split; [done|]. intros [= ->]. destruct Htn. set_solver.
Qed.

(** A queue operation changes no CPU base, device, softirq, clock or call. *)
Record quiet (st st' : hrtimers) : Prop := {
  qt_clocks : same_clocks st st';
  qt_cpus : cpus st' = cpus st;
  qt_devs : devs st' = devs st;
  qt_raised : raised st' = raised st;
  qt_reads : reads st' = reads st;
  qt_calls : calls st' = calls st
}.

#[export] Instance quiet_po : PreOrder quiet.
Proof.
  split; [done|]. intros a b c [A1 A2 A3 A4 A5 A6] [B1 B2 B3 B4 B5 B6]. constructor; [by etransitivity|congruence..].
Qed.

Lemma set_clock_same st k b b' : clocks st !! k = Some b -> params b' = params b -> same_clocks st (set_clock k b' st).
Proof.
  intros Hb Hp. constructor. intros j. cbn. destruct (decide (j = k)) as [->|]; [|by rewrite lookup_insert_ne].
  rewrite lookup_insert_eq, Hb. cbn. by rewrite Hp.
Qed.

Lemma enqueue_eq t k st x b l parent lm r :
  tm st !! t = Some x -> clocks st !! k = Some b ->
  find_link (S (size (heap st))) (expires x) RootLink None (active b) true st = Some (l, parent, lm) ->
  (s ← rb_link_node t parent l (tree_of st b); rb_insert_color t s) = Some r ->
  exists st', enqueue_hrtimer t k st = Some (lm, st') /\
    clocks st' = <[k := set_active (root r) (if lm then set_first (Some t) b else b)]> (clocks st) /\
    tm st' = <[t := set_state (Z.lor (state x) HRTIMER_STATE_ENQUEUED) x]> (tm st) /\ heap st' = nodes r /\ quiet st st'.
Proof.
  intros Hx Hb Hl Hr. unfold enqueue_hrtimer. rewrite Hx. cbn [mbind option_bind]. rewrite Hb. cbn [mbind option_bind]. rewrite Hl.
  cbn [mbind option_bind]. destruct (rb_link_node t parent l (tree_of st b)) as [s|] eqn:Es; [|done]. cbn [mbind option_bind] in Hr.
  set (b1 := if lm then set_first (Some t) b else b). set (st1 := if lm then set_clock k (set_first (Some t) b) st else st).
  assert (clocks st1 !! k = Some b1) as Hb1 by (unfold st1, b1; destruct lm; [apply lookup_insert_eq|done]).
  assert (tree_of st1 b1 = tree_of st b) as Ht1 by (unfold st1, b1; by destruct lm).
  rewrite (on_tree_eq k _ st1 b1 s Hb1) by (by rewrite Ht1). cbn [mbind option_bind].
  set (st2 := set_heap (nodes s) (set_clock k (set_active (root s) b1) st1)).
  assert (clocks st2 !! k = Some (set_active (root s) b1)) as Hb2 by apply lookup_insert_eq.
  rewrite (on_tree_eq k _ st2 _ r Hb2) by (destruct s; exact Hr). cbn [mbind option_bind].
  eexists. split; [done|]. cbn. unfold st1, b1. split; [destruct lm; cbn; by rewrite ?insert_insert_eq|].
  split; [by destruct lm|]. split; [done|].
  split; cbn; [|by destruct lm..]. constructor. intros j. cbn. destruct (decide (j = k)) as [->|]; [|destruct lm; cbn; by rewrite ?lookup_insert_ne].
  rewrite lookup_insert_eq, Hb. by destruct lm.
Qed.

Lemma insort_head f t e E : head (insort f t e E) = Some t \/ head (insort f t e E) = head E.
Proof. destruct E as [|q E]; cbn; [by left|]. destruct (e <? f q); [by left|by right]. Qed.

Lemma exp_of_eq m t x : m !! t = Some x -> exp_of m t = expires x.
Proof. intros Hx. unfold exp_of. by rewrite Hx. Qed.

Lemma exp_of_insert m t x y q : m !! t = Some x -> expires y = expires x -> exp_of (<[t := y]> m) q = exp_of m q.
Proof.
  intros Hx Hy. unfold exp_of. destruct (decide (q = t)) as [->|]; [|by rewrite lookup_insert_ne]. rewrite lookup_insert_eq, Hx. cbn. done.
Qed.

Lemma enqueue_spec st Q t x k :
  queues st Q -> tm st !! t = Some x -> hrtimer_is_queued x = false -> base x = Some k -> is_Some (clocks st !! k) -> 0 <= expires x <= KTIME_MAX ->
  exists E st', Q !! k = Some E /\
    let E' := insort (exp_of (tm st)) t (expires x) E in
    enqueue_hrtimer t k st = Some (bool_decide (head E' = Some t), st') /\ queues st' (<[k := E']> Q) /\
    tm st' = <[t := set_state (Z.lor (state x) HRTIMER_STATE_ENQUEUED) x]> (tm st) /\ quiet st st'.
Proof.
  intros HQ Hx Hxq Hbase [b Hb] Hexp. destruct (queue_of st Q HQ k b Hb) as (E & HE & Htree & Hfirst & Hord & Hnd).
  assert (t ∉ E) as Ht by (by apply (not_queued_in st Q HQ t x k)).
  assert (forall q, q ∈ E -> is_Some (tm st !! q)) as Htm by (intros q Hq; destruct (qs_in _ _ HQ q k E HE Hq) as (y & -> & _); done).
  destruct (find_link_queue st b E t (expires x) Htree Hord Htm Ht) as (l & parent & lm & El & Hs & Hl & Hput & Hlm).
  destruct (rbtree_insert (tree_of st b) E t parent l Htree Ht Hs Hl) as (r & Er & Hr & Helse).
  destruct (enqueue_eq t k st x b l parent lm r Hx Hb El Er) as (st' & Ee & Hc & Htm' & Hh & Hquiet).
  exists E, st'. split; [done|]. cbn zeta. rewrite <- Hlm, Ee. split; [done|]. split; [|done]. rewrite Hput in Hr.
  set (E' := insort (exp_of (tm st)) t (expires x) E) in *.
  apply (queues_change st st' Q k b _ t _ E E' HQ Hb HE Hc Htm').
  - intros q. unfold E'. rewrite insort_perm, elem_of_cons, queued_or. split; [|naive_solver]. intros [->|Hq]; [by right|].
    left. split; [done|]. by intros ->.
  - unfold tree_of in *. rewrite Hh. destruct r as [rr rn]. by destruct lm.
  - rewrite Hlm. fold E'. cbn. case_bool_decide as Hd; [done|]. cbn. rewrite Hfirst.
    destruct (insort_head (exp_of (tm st)) t (expires x) E) as [H|H]; [by destruct Hd|by symmetry].
  - rewrite Htm'. apply (order_ext (exp_of (tm st))); [intros q _; symmetry; by apply (exp_of_insert _ _ x)|].
    unfold E'. rewrite <- (exp_of_eq _ _ _ Hx). by apply insort_order.
  - intros q Hq. rewrite Hh. by apply Helse.
  - intros j F HF HtF. destruct (not_queued_in st Q HQ t x j F Hx Hxq HF HtF).
  - intros _. by split.
Qed.

(** The mode of a CPU base, which only the interrupt and the change to high
    resolution set. *)
Definition mode_of (c : hrtimer_cpu_base) : bool * bool := (hres_active c, hang_detected c).

(** What every operation on timers leaves alone. *)
Record steady (st st' : hrtimers) : Prop := {
  sd_clocks : same_clocks st st';
  sd_cpus c : mode_of <$> cpus st' !! c = mode_of <$> cpus st !! c;
  sd_devs c : is_Some (devs st' !! c) <-> is_Some (devs st !! c);
  sd_calls : calls st' = calls st
}.

#[export] Instance steady_po : PreOrder steady.
Proof.
  split; [done|]. intros a b c [A1 A2 A3 A4] [B1 B2 B3 B4].
  constructor; [by etransitivity|intros i; by rewrite B2, A2|intros i; by rewrite B3, A3|congruence].
Qed.

Lemma quiet_steady st st' : quiet st st' -> steady st st'.
Proof. intros [H1 H2 H3 H4 H5 H6]. constructor; [done|intros c; by rewrite H2|intros c; by rewrite H3|done]. Qed.

Lemma set_timer_quiet t x st : quiet st (set_timer t x st).
Proof. done. Qed.

Lemma steady_cpu st st' c : steady st st' -> is_Some (cpus st' !! c) <-> is_Some (cpus st !! c).
Proof. intros H. pose proof (sd_cpus _ _ H c) as E. destruct (cpus st' !! c), (cpus st !! c); try done; split; intros [? ?]; done. Qed.

Lemma config_steady st st' : steady st st' -> config st ->
  (forall t x, tm st' !! t = Some x -> exists k, base x = Some k /\ is_Some (clocks st !! k)) ->
  (forall t x, tm st' !! t = Some x -> 0 <= expires x <= KTIME_MAX) -> config st'.
Proof.
  intros Hs [H1 H2 H3 H4 H5] Ht He. pose proof (sd_clocks _ _ Hs) as Hc. constructor.
  - intros c i. by rewrite (same_clock_some st st'), (steady_cpu st st').
  - intros c. rewrite (steady_cpu st st') by done. rewrite (sd_devs _ _ Hs). apply H2.
  - intros t x Hx. destruct (Ht t x Hx) as (k & Hk & Hkc). exists k. split; [done|]. by apply (same_clock_some st st').
  - intros k b Hb. pose proof (sc_params _ _ Hc k) as Hp. rewrite Hb in Hp. destruct (clocks st !! k) as [b0|] eqn:Hb0; [|done].
    cbn in Hp. injection Hp as Hr _ Ho. rewrite Hr, Ho. by apply (H4 k).
  - exact He.
Qed.

Lemma config_timer st st' t y : config st -> steady st st' -> tm st' = <[t := y]> (tm st) ->
  (exists k, base y = Some k /\ is_Some (clocks st !! k)) -> 0 <= expires y <= KTIME_MAX -> config st'.
Proof.
  intros Hc Hs Ht Hy He. apply (config_steady st); [done|done|..]; intros q x; rewrite Ht; (destruct (decide (q = t)) as [->|Hq];
    [by rewrite lookup_insert_eq; intros [= <-]|rewrite lookup_insert_ne by done]); [apply (cf_base _ Hc)|apply (cf_expires _ Hc)].
Qed.

(** *** Programming the next event *)

Definition next_expiry (c : Z) (st : hrtimers) : option Z :=
  next ← earlier (c, CLOCK_REALTIME) st KTIME_MAX; earlier (c, CLOCK_MONOTONIC) st next.

Definition adjusted (x : hrtimer) (b : hrtimer_clock_base) : Z := Z.max 0 (ktime_sub (expires x) (offset b)).

Lemma earlier_spec k st next b :
  clocks st !! k = Some b -> (forall t, first b = Some t -> is_Some (tm st !! t)) ->
  exists n, earlier k st next = Some n /\ n <= next /\
    (forall t x, first b = Some t -> tm st !! t = Some x -> n <= adjusted x b) /\
    (n = next \/ exists t x, first b = Some t /\ tm st !! t = Some x /\ n = adjusted x b).
Proof.
  intros Hb Hf. unfold earlier. rewrite Hb. cbn [mbind option_bind]. destruct (first b) as [t|] eqn:Ef.
  2: { exists next. split; [done|]. split; [lia|]. split; [done|by left]. }
  destruct (Hf t eq_refl) as [x Hx]. rewrite Hx. cbn [mbind option_bind]. set (e := ktime_sub (expires x) (offset b)).
  assert ((if e <? 0 then 0 else e) = adjusted x b) as -> by (unfold adjusted; fold e; destruct (Z.ltb_spec e 0); lia).
  eexists. split; [done|]. destruct (Z.ltb_spec (adjusted x b) next).
  - split; [lia|]. split; [intros ? ? [= <-]; rewrite Hx; intros [= <-]; lia|]. right. by exists t, x.
  - split; [lia|]. split; [intros ? ? [= <-]; rewrite Hx; intros [= <-]; lia|]. by left.
Qed.

Definition firsts_known (c : Z) (st : hrtimers) : Prop :=
  forall i b t, clocks st !! (c, i) = Some b -> first b = Some t -> is_Some (tm st !! t).

Lemma next_expiry_spec c st :
  config st -> is_Some (cpus st !! c) -> firsts_known c st ->
  exists n, next_expiry c st = Some n /\ n <= KTIME_MAX /\
    forall i b t x, clocks st !! (c, i) = Some b -> first b = Some t -> tm st !! t = Some x -> n <= adjusted x b.
Proof.
  intros Hc Hcpu Hf. assert (forall i, i = CLOCK_REALTIME \/ i = CLOCK_MONOTONIC -> exists b, clocks st !! (c, i) = Some b) as Hb
    by (intros i Hi; by apply (cf_clock _ Hc)).
  destruct (Hb CLOCK_REALTIME) as [b0 H0]; [by left|]. destruct (Hb CLOCK_MONOTONIC) as [b1 H1]; [by right|].
  destruct (earlier_spec _ st KTIME_MAX b0 H0) as (n0 & E0 & L0 & A0 & _); [intros t; by apply (Hf CLOCK_REALTIME)|].
  destruct (earlier_spec _ st n0 b1 H1) as (n1 & E1 & L1 & A1 & _); [intros t; by apply (Hf CLOCK_MONOTONIC)|].
  exists n1. unfold next_expiry. rewrite E0. cbn [mbind option_bind]. split; [done|]. split; [lia|].
  intros i b t x Hi Hft Hx. assert (is_Some (clocks st !! (c, i))) as His by by rewrite Hi.
  apply (cf_clock _ Hc) in His as [_ [-> | ->]].
  - assert (b = b0) as -> by congruence. specialize (A0 t x Hft Hx). lia.
  - assert (b = b1) as -> by congruence. by apply (A1 t).
Qed.

(** The same timers and queues, with another next event of CPU [c]. *)
Record rearmed (c next : Z) (st st' : hrtimers) : Prop := {
  ra_tm : tm st' = tm st;
  ra_heap : heap st' = heap st;
  ra_clocks : clocks st' = clocks st;
  ra_raised : raised st' = raised st;
  ra_calls : calls st' = calls st;
  ra_cpus : exists cb, cpus st !! c = Some cb /\ cpus st' = <[c := set_expires_next next cb]> (cpus st);
  ra_devs i : is_Some (devs st' !! i) <-> is_Some (devs st !! i)
}.

Lemma rearmed_steady c next st st' : rearmed c next st st' -> steady st st'.
Proof.
  intros [H1 H2 H3 H4 H5 (cb & Hcb & H6) H7]. constructor; [constructor; by rewrite H3| |done|done]. intros i. rewrite H6.
  destruct (decide (i = c)) as [->|]; [by rewrite lookup_insert_eq, Hcb|by rewrite lookup_insert_ne].
Qed.

Section Reprogram.
Context (mc : machine).

Lemma force_reprogram_spec c skip st next :
  next_expiry c st = Some next -> is_Some (cpus st !! c) -> is_Some (devs st !! c) ->
  exists st', hrtimer_force_reprogram mc c skip st = Some st' /\ rearmed c next st st'.
Proof.
  intros Hn [cb Hcb] Hd. unfold next_expiry in Hn. unfold hrtimer_force_reprogram.
  destruct (earlier (c, CLOCK_REALTIME) st KTIME_MAX) as [n0|]; [|done]. cbn [mbind option_bind] in *. rewrite Hn. cbn [mbind option_bind].
  rewrite Hcb. cbn [mbind option_bind]. destruct (skip && (next =? expires_next cb)) eqn:Es.
  { apply andb_true_iff in Es as [_ Es%Z.eqb_eq]. exists st. split; [done|]. constructor; try done. exists cb. split; [done|].
    rewrite insert_id; [done|]. rewrite Hcb, Es. by destruct cb. }
  destruct (next =? KTIME_MAX); cbn [negb].
  { eexists. split; [done|]. constructor; try done. by exists cb. }
  destruct (program_event_total mc c next true (set_cpu c (set_expires_next next cb) st)) as (ret & d & k & E); [done|].
  exists (set_dev c d k (set_cpu c (set_expires_next next cb) st)). split; [by rewrite E|]. constructor; try done; [by exists cb|].
  intros i. cbn. rewrite lookup_insert_is_Some'. split; [intros [<-|?]; done|by right].
Qed.
End Reprogram.

(** *** Taking a timer off its queue *)

Lemma rbtree_next_head st t E : rbtree st (t :: E) -> rb_next t st = Some (head E).
Proof.
  intros Hrb. destruct (rbtree_place st _ t Hrb) as (k & c & l & r & m & Hap & _ & _ & HE & Hnd); [set_solver|].
  rewrite (next_spec _ _ _ _ _ _ _ Hap). destruct (before k ++ elems l) as [|q A]; cbn in HE; injection HE as ->; [by subst|].
  subst. exfalso. cbn in Hnd. apply NoDup_cons in Hnd as [Hn _]. set_solver.
Qed.

Lemma head_del t E : NoDup E -> head E <> Some t -> head (list_del t E) = head E.
Proof. destruct E as [|q E]; [done|]. intros _ Hq. unfold list_del. rewrite filter_cons, decide_True; [done|]. cbn in Hq. congruence. Qed.

Lemma del_head t E : NoDup (t :: E) -> list_del t (t :: E) = E.
Proof. intros [Ht _]%NoDup_cons. apply (list_del_middle t [] E); [set_solver|done]. Qed.

Lemma alter_insert_known {A} (f : A -> A) (Q : gmap (Z * Z) A) k E : Q !! k = Some E -> alter f k Q = <[k := f E]> Q.
Proof.
  intros HE. apply map_eq. intros j. destruct (decide (j = k)) as [->|]; [by rewrite lookup_alter_eq, lookup_insert_eq, HE|].
  by rewrite lookup_alter_ne, lookup_insert_ne.
Qed.

(** [next] is not after the event of any timer of CPU [c]. *)
Definition covers (c next : Z) (st : hrtimers) (Q : gmap (Z * Z) (list ptr)) : Prop :=
  forall i b E q x, clocks st !! (c, i) = Some b -> Q !! (c, i) = Some E -> q ∈ E -> tm st !! q = Some x -> next <= adjusted x b.

Lemma sub_small a b : 0 <= a <= KTIME_MAX -> 0 <= b <= KTIME_MAX -> ktime_sub a b = a - b.
Proof. unfold KTIME_MAX, ktime_sub. intros Ha Hb. apply wraps_small; [done|]. change (2 ^ (64 - 1)) with (2 ^ 63). lia. Qed.

Lemma adjusted_mono x y b : 0 <= expires x <= KTIME_MAX -> 0 <= expires y <= KTIME_MAX -> 0 <= offset b <= KTIME_MAX ->
  expires x <= expires y -> adjusted x b <= adjusted y b.
Proof. intros Hx Hy Hb H. unfold adjusted. rewrite !sub_small by done. lia. Qed.

(** It is enough to look at the first timers. *)
Lemma covers_first c next st Q : queues st Q -> config st ->
  (forall i b q x, clocks st !! (c, i) = Some b -> first b = Some q -> tm st !! q = Some x -> next <= adjusted x b) -> covers c next st Q.
Proof.
  intros HQ Hc Hf i b E q x Hb HE Hq Hx. destruct (queue_of st Q HQ (c, i) b Hb) as (E' & HE' & _ & Hfirst & Hord & _).
  assert (E' = E) as -> by congruence. destruct E as [|p E]; [set_solver|]. cbn in Hfirst.
  destruct (qs_in _ _ HQ p _ _ HE) as (y & Hy & _ & _ & Hye); [set_solver|].
  destruct (qs_in _ _ HQ q _ _ HE Hq) as (x' & Hx' & _ & _ & Hxe). assert (x' = x) as -> by congruence.
  pose proof (Hf i b p y Hb Hfirst Hy). destruct (decide (q = p)) as [->|Hne]; [congruence|].
  etransitivity; [done|]. apply adjusted_mono; [done|done|by apply (cf_params _ Hc (c, i))|].
  inversion Hord as [|? ? _ Hall]; subst. rewrite Forall_forall in Hall. specialize (Hall q). rewrite (exp_of_eq _ _ _ Hx), (exp_of_eq _ _ _ Hy) in Hall.
  apply Hall. set_solver.
Qed.

(** How the next event of a CPU may change when its timers become fewer. *)
Definition moved (c : Z) (st st' : hrtimers) (Q : gmap (Z * Z) (list ptr)) : Prop :=
  cpus st' = cpus st \/
  exists next cb, cpus st !! c = Some cb /\ cpus st' = <[c := set_expires_next next cb]> (cpus st) /\ covers c next st' Q.

Section Remove.
Context (mc : machine).

(** The step between the two: [first] has moved on, the tree has not changed. *)
Lemma remove_first st Q this_cpu t k x b E reprogram cb tb :
  queues st Q -> config st -> tm st !! t = Some x -> clocks st !! k = Some b -> Q !! k = Some E -> t ∈ E ->
  cpus st !! k.1 = Some cb -> cpus st !! this_cpu = Some tb ->
  exists st1 b1 next, (if decide (first b = Some t) then
            next ← rb_next t {| root := active b; nodes := heap st |};
            let st := set_clock k (set_first next b) st in
            if reprogram && hres_active tb && (expires_next cb =? ktime_sub (expires x) (offset b))
            then hrtimer_force_reprogram mc k.1 true st else Some st
          else Some st) = Some st1 /\
    clocks st1 = <[k := b1]> (clocks st) /\ params b1 = params b /\ active b1 = active b /\ first b1 = head (list_del t E) /\
    tm st1 = tm st /\ heap st1 = heap st /\ raised st1 = raised st /\ steady st st1 /\
    (cpus st1 = cpus st \/ (reprogram = true /\ cpus st1 = <[k.1 := set_expires_next next cb]> (cpus st) /\
       forall i bi q y, <[k := b1]> (clocks st) !! (k.1, i) = Some bi -> first bi = Some q -> tm st !! q = Some y -> next <= adjusted y bi)).
Proof.
  intros HQ Hc Hx Hb HE Ht Hcb Htb. destruct (queue_of st Q HQ k b Hb) as (E' & HE' & Htree & Hfirst & Hord & Hnd).
  assert (E' = E) as -> by congruence. clear HE'. destruct (decide (first b = Some t)) as [Hf|Hf].
  2: { exists st, b, 0. split; [done|]. rewrite insert_id by done. split; [done|]. split; [done|]. split; [done|].
       split; [rewrite head_del; [done|done|congruence]|]. split; [done|]. split; [done|]. split; [done|]. split; [done|by left]. }
  rewrite Hfirst in Hf. destruct E as [|q E]; [done|]. cbn in Hf. injection Hf as ->. rewrite del_head by done.
  change {| root := active b; nodes := heap st |} with (tree_of st b). rewrite (rbtree_next_head _ _ _ Htree). cbn [mbind option_bind]. set (st0 := set_clock k (set_first (head E) b) st).
  assert (steady st st0) as Hs0. { apply quiet_steady. constructor; try done. by apply (set_clock_same _ _ b). }
  destruct (reprogram && _ && _) eqn:Erp; cbn [andb].
  2: { exists st0, (set_first (head E) b), 0. repeat (split; [done|]). by left. }
  assert (config st0) as Hc0. { apply (config_steady st); [done|done|apply (cf_base _ Hc)|apply (cf_expires _ Hc)]. }
  destruct (next_expiry_spec k.1 st0 Hc0) as (n & En & _ & Hn); [by exists cb| |].
  { intros i bi q Hbi Hq. cbn in Hbi. destruct (decide ((k.1, i) = k)) as [Ek|Ek].
    - rewrite Ek, lookup_insert_eq in Hbi. injection Hbi as <-. cbn in Hq. destruct (qs_in _ _ HQ q k (t :: E) HE) as (y & Hy & _).
      { destruct E; [done|]. cbn in Hq. injection Hq as <-. set_solver. } cbn. by rewrite Hy.
    - rewrite lookup_insert_ne in Hbi by done. destruct (qs_tree _ _ HQ _ _ Hbi) as (F & HF & _ & Hff). rewrite Hff in Hq.
      destruct (qs_in _ _ HQ q (k.1, i) F HF) as (y & Hy & _); [destruct F; [done|]; cbn in Hq; injection Hq as <-; set_solver|]. cbn. by rewrite Hy. }
  destruct (force_reprogram_spec mc k.1 true st0 n En) as (st1 & E1 & Hr); [by exists cb|apply (cf_dev _ Hc0); by exists cb|].
  exists st1, (set_first (head E) b), n. split; [exact E1|]. pose proof Hr as [R1 R2 R3 R4 R5 R6 R7].
  split; [by rewrite R3|]. split; [done|]. split; [done|]. split; [done|]. split; [by rewrite R1|]. split; [by rewrite R2|].
  split; [by rewrite R4|]. split; [transitivity st0; [done|by apply (rearmed_steady k.1 n)]|]. right.
  destruct R6 as (cb' & Hcb' & ->). cbn in Hcb'. assert (cb' = cb) as -> by congruence. split; [by destruct reprogram|]. split; [done|]. exact Hn.
Qed.

Lemma remove_raw_spec st Q this_cpu t x k newstate reprogram :
  queues st Q -> config st -> tm st !! t = Some x -> base x = Some k -> is_Some (cpus st !! this_cpu) ->
  hrtimer_is_queued (set_state newstate x) = false ->
  exists st', remove_hrtimer_raw mc this_cpu t k newstate reprogram st = Some st' /\
    queues st' (alter (list_del t) k Q) /\ config st' /\ tm st' = <[t := set_state newstate x]> (tm st) /\
    steady st st' /\ raised st' = raised st /\ moved k.1 st st' (alter (list_del t) k Q) /\
    (reprogram = false -> cpus st' = cpus st).
Proof.
  intros HQ Hc Hx Hbase [tb Htb] Hnew. unfold remove_hrtimer_raw. rewrite Hx. cbn [mbind option_bind].
  destruct (cf_base _ Hc t x Hx) as (k' & Hk' & [b Hb]). assert (k' = k) as -> by congruence. clear Hk'.
  destruct (hrtimer_is_queued x) eqn:Hq; cbn [negb].
  2: { eexists. split; [done|]. assert (alter (list_del t) k Q = Q) as ->.
       { apply map_eq. intros j. destruct (decide (j = k)) as [->|]; [|by rewrite lookup_alter_ne]. rewrite lookup_alter_eq.
         destruct (Q !! k) as [E|] eqn:HE; [|done]. cbn. f_equal. apply list_del_notin. by apply (not_queued_in st Q HQ t x k). }
       split; [apply set_timer_queues; [done| |done]; intros y; congruence|].
       split; [apply (config_timer st _ t (set_state newstate x)); [done|done|done|by exists k; rewrite Hb|by apply (cf_expires _ Hc t x)]|].
       split; [done|]. split; [apply quiet_steady, set_timer_quiet|]. split; [done|]. split; [by left|done]. }
  destruct (qs_out _ _ HQ t x Hx Hq) as (k' & E & Hk' & HE & Ht). assert (k' = k) as -> by congruence. clear Hk'.
  rewrite Hb. cbn [mbind option_bind]. destruct k as [kc ki]. assert (is_Some (cpus st !! kc)) as [cb Hcb].
  { apply (cf_clock _ Hc kc ki). by rewrite Hb. }
  cbn [fst]. rewrite Hcb. cbn [mbind option_bind]. rewrite Htb. cbn [mbind option_bind].
  destruct (remove_first st Q this_cpu t (kc, ki) x b E reprogram cb tb) as (st1 & b1 & next & E1 & C1 & P1 & A1 & F1 & T1 & H1 & Ra1 & S1 & M1); try done.
  cbn [fst] in E1. rewrite E1. cbn [mbind option_bind].
  destruct (queue_of st Q HQ (kc, ki) b Hb) as (E' & HE' & Htree & Hfirst & Hord & Hnd). assert (E' = E) as -> by congruence. clear HE'.
  destruct (rbtree_erase (tree_of st b) E t Htree Ht) as (r & Er & Hr & Helse).
  assert (tree_of st1 b1 = tree_of st b) as Et1 by (unfold tree_of; by rewrite A1, H1).
  rewrite (on_tree_eq (kc, ki) _ st1 b1 r) by (rewrite ?C1, ?lookup_insert_eq, ?Et1; done). cbn [mbind option_bind].
  set (st2 := set_heap (nodes r) (set_clock (kc, ki) (set_active (root r) b1) st1)).
  exists (set_timer t (set_state newstate x) st2). split; [done|]. set (st3 := set_timer t (set_state newstate x) st2).
  assert (tm st3 = <[t := set_state newstate x]> (tm st)) as T3 by (cbn; by rewrite T1).
  assert (clocks st3 = <[(kc, ki) := set_active (root r) b1]> (clocks st)) as C3 by (cbn; by rewrite C1, insert_insert_eq).
  assert (steady st st3) as Hs.
  { transitivity st1; [done|]. apply quiet_steady. constructor; try done. constructor.
    refine (sc_params _ _ (set_clock_same st1 (kc, ki) b1 (set_active (root r) b1) _ _)); [|done]. by rewrite C1, lookup_insert_eq. }
  assert (config st3) as Hc3. { apply (config_timer st _ t (set_state newstate x)); [done|done|done|by exists (kc, ki); rewrite Hb|by apply (cf_expires _ Hc t x)]. }
  assert (queues st3 (alter (list_del t) (kc, ki) Q)) as HQ3.
  { rewrite (alter_insert_known (list_del t) _ _ E HE).
    apply (queues_change st st3 Q (kc, ki) b (set_active (root r) b1) t (set_state newstate x) E); try done.
    - intros q. rewrite elem_of_list_del, Hnew. naive_solver.
    - by destruct r.
    - rewrite T3. apply (order_ext (exp_of (tm st))); [intros q _; symmetry; by apply (exp_of_insert _ _ x)|by apply order_del].
    - intros q Hq'. cbn. apply (Helse q). set_solver.
    - intros j F HF HtF. by apply (queues_disjoint st Q HQ j (kc, ki) F E t).
    - congruence. }
  split; [done|]. split; [done|]. split; [done|]. split; [done|]. split; [exact Ra1|].
  destruct M1 as [M1|(Hrp & M1 & Hn)]; [by split; [left|]|]. split; [|by rewrite Hrp]. right. exists next, cb. split; [done|]. split; [done|].
  apply covers_first; [done|done|]. intros i bi q y Hbi Hq' Hy. rewrite T3 in Hy. rewrite C3 in Hbi. cbn [fst] in Hn.
  assert (exists bi', <[(kc, ki) := b1]> (clocks st) !! (kc, i) = Some bi' /\ first bi' = first bi /\ offset bi' = offset bi) as (bi' & Hbi' & Hf' & Ho').
  { destruct (decide ((kc, i) = (kc, ki))) as [Ek|Ek].
    - rewrite Ek, lookup_insert_eq in *. injection Hbi as <-. by exists b1.
    - rewrite lookup_insert_ne in * by done. by exists bi. }
  rewrite <- Hf' in Hq'. unfold adjusted. rewrite <- Ho'. destruct (decide (q = t)) as [->|Hqt].
  - rewrite lookup_insert_eq in Hy. injection Hy as <-. by apply (Hn i bi' t x).
  - rewrite lookup_insert_ne in Hy by done. by apply (Hn i bi' q y).
Qed.
End Remove.

(** ** Starting and cancelling *)

Record good (st : hrtimers) (Q : gmap (Z * Z) (list ptr)) : Prop := { gd_queues : queues st Q; gd_config : config st }.

Lemma s64_range z : - 2 ^ 63 <= s64 z < 2 ^ 63.
Proof. unfold s64. pose proof (wraps_range 64 z ltac:(lia)) as H. change (2 ^ (64 - 1)) with (2 ^ 63) in H. lia. Qed.

Lemma add_safe_range a b : 0 <= ktime_add_safe a b <= KTIME_MAX.
Proof.
  unfold ktime_add_safe, ktime_add. pose proof (s64_range (a + b)). change (2 ^ 63) with (KTIME_MAX + 1) in *.
  destruct (Z.ltb_spec (s64 (a + b)) 0); cbn [orb]; [vm_compute; split; discriminate|].
  destruct (s64 (a + b) <? a); cbn [orb]; [vm_compute; split; discriminate|].
  destruct (s64 (a + b) <? b); [vm_compute; split; discriminate|lia].
Qed.

Lemma zero_not_queued x : hrtimer_is_queued (set_state HRTIMER_STATE_INACTIVE x) = false.
Proof. done. Qed.

Section Start.
Context (mc : machine).

(** What programming the device for one timer may change: a CPU base gets an
    earlier event, or the softirq is raised. *)
Record sooner (c : Z) (st st' : hrtimers) : Prop := {
  sn_tm : tm st' = tm st;
  sn_heap : heap st' = heap st;
  sn_clocks : clocks st' = clocks st;
  sn_calls : calls st' = calls st;
  sn_devs i : is_Some (devs st' !! i) <-> is_Some (devs st !! i);
  sn_raised : raised st' = raised st \/ raised st' = {[c]} ∪ raised st;
  sn_cpus : cpus st' = cpus st \/
    exists cb e, cpus st !! c = Some cb /\ cpus st' = <[c := set_expires_next e cb]> (cpus st) /\ e < expires_next cb
}.

Lemma sooner_steady c st st' : sooner c st st' -> steady st st'.
Proof.
  intros [H1 H2 H3 H4 H5 H6 H7]. constructor; [constructor; by rewrite H3| |done|done]. intros i.
  destruct H7 as [->|(cb & e & Hcb & -> & _)]; [done|].
  destruct (decide (i = c)) as [->|]; [by rewrite lookup_insert_eq, Hcb|by rewrite lookup_insert_ne].
Qed.

Lemma good_same st st' Q : good st Q -> steady st st' -> tm st' = tm st -> heap st' = heap st -> clocks st' = clocks st -> good st' Q.
Proof.
  intros [HQ Hc] Hs Ht Hh Hcl. split.
  - destruct HQ as [H1 H2 H3 H4 H5]. constructor; unfold tree_of; rewrite ?Ht, ?Hh, ?Hcl; done.
  - apply (config_steady st); [done|done|rewrite Ht; apply (cf_base _ Hc)|rewrite Ht; apply (cf_expires _ Hc)].
Qed.

(** Afterwards the event of the CPU is not later than the timer, unless its
    callback is running or a hang was detected. *)
Definition served (c : Z) (x : hrtimer) (b : hrtimer_clock_base) (st' : hrtimers) : Prop :=
  forall cb, cpus st' !! c = Some cb -> hres_active cb = true -> hrtimer_callback_running x = false ->
    hang_detected cb = true \/ c ∈ raised st' \/ expires_next cb <= adjusted x b.

Lemma reprogram_spec c x b st :
  is_Some (cpus st !! c) -> is_Some (devs st !! c) ->
  exists res st', hrtimer_reprogram mc c x b st = Some (res, st') /\ sooner c st st' /\ raised st' = raised st /\
    (res = 0 -> forall cb, cpus st' !! c = Some cb -> hrtimer_callback_running x = false ->
       hang_detected cb = true \/ expires_next cb <= adjusted x b).
Proof.
  intros [cb Hcb] Hd. unfold hrtimer_reprogram. rewrite Hcb. cbn [mbind option_bind]. set (e := ktime_sub (expires x) (offset b)).
  assert (sooner c st st) as Href by (constructor; auto; tauto).
  destruct (hrtimer_callback_running x); [by exists 0, st|]. destruct (Z.ltb_spec e 0); [by exists (- ETIME), st|].
  assert (adjusted x b = e) as Hadj by (unfold adjusted; fold e; lia).
  destruct (Z.geb_spec e (expires_next cb)) as [Hge|Hlt].
  { exists 0, st. split; [done|]. split; [done|]. split; [done|]. intros _ cb' Hcb' _. right. assert (cb' = cb) as -> by congruence. lia. }
  destruct (hang_detected cb) eqn:Hh.
  { exists 0, st. split; [done|]. split; [done|]. split; [done|]. intros _ cb' Hcb' _. left. congruence. }
  destruct (program_event_total mc c e false st Hd) as (res & d & k & Ep). rewrite (bind_eq _ _ _ Ep). cbn beta iota.
  assert (forall i, is_Some (<[c := d]> (devs st) !! i) <-> is_Some (devs st !! i)) as Hdev.
  { intros i. rewrite lookup_insert_is_Some'. split; [intros [<-|?]; done|by right]. }
  eexists res, _. split; [done|]. destruct ((-4095 <=? res) && (res <? 0)) eqn:Er.
  - split; [constructor; auto|]. split; [done|]. intros ->. done.
  - split; [constructor; cbn; auto; right; by exists cb, e|]. split; [done|]. intros _ cb' Hcb' _. right.
    cbn in Hcb'. rewrite lookup_insert_eq in Hcb'. injection Hcb' as <-. cbn. lia.
Qed.

Lemma enqueue_reprogram_spec c t x b k st :
  k.1 = c -> tm st !! t = Some x -> clocks st !! k = Some b -> config st ->
  exists st', hrtimer_enqueue_reprogram mc c t k st = Some st' /\ sooner c st st' /\ served c x b st'.
Proof.
  intros Hk Hx Hb Hc. destruct k as [kc i]. cbn in Hk. subst kc. assert (is_Some (cpus st !! c)) as Hcpu by (apply (cf_clock _ Hc c i); by rewrite Hb).
  pose proof (cf_dev _ Hc c Hcpu) as Hd. unfold hrtimer_enqueue_reprogram. rewrite Hx. cbn [mbind option_bind]. rewrite Hb. cbn [mbind option_bind fst].
  destruct Hcpu as [cb Hcb]. rewrite Hcb. cbn [mbind option_bind]. destruct (hres_active cb) eqn:Hres.
  2: { exists st. split; [done|]. split; [constructor; auto; tauto|]. intros cb' Hcb' Hr'. congruence. }
  destruct (reprogram_spec c x b st) as (res & st' & E & Hs & Hra & Hserve); [by rewrite Hcb|done|]. rewrite (bind_eq _ _ _ E). cbn beta iota.
  eexists. split; [done|]. destruct (Z.eqb_spec res 0) as [->|Hne]; cbn [negb].
  - split; [done|]. intros cb' Hcb' _ Hrun. destruct (Hserve eq_refl cb' Hcb' Hrun); auto.
  - destruct Hs as [S1 S2 S3 S4 S5 S6 S7]. split; [constructor; cbn; auto; rewrite Hra; by right|].
    intros cb' _ _ _. right. left. cbn. set_solver.
Qed.
End Start.

Lemma set_hbase_id x k : base x = Some k -> set_hbase (Some k) x = x.
Proof. intros H. destruct x. cbn in *. by subst. Qed.

(** Where a start may put a timer; [running]: its callback is. *)
Definition placed_on (e : cpu_env) (pinned running : bool) (k new : Z * Z) : Prop :=
  new.2 = k.2 /\ (running = true -> new = k) /\
  (running = true \/ new.1 = smp_processor_id e \/ new.1 = hrtimer_get_target e pinned).

Lemma switch_spec e t x k pinned st :
  config st -> tm st !! t = Some x -> base x = Some k -> is_Some (cpus st !! smp_processor_id e) ->
  switch_hrtimer_base e t k pinned st = None /\ cpus st !! hrtimer_get_target e pinned = None \/
  exists new st', switch_hrtimer_base e t k pinned st = Some (new, st') /\
    tm st' = <[t := set_hbase (Some new) x]> (tm st) /\ heap st' = heap st /\ clocks st' = clocks st /\ quiet st st' /\
    is_Some (clocks st !! new) /\ placed_on e pinned (hrtimer_callback_running x) k new.
Proof.
  intros Hc Hx Hbase Hthis. unfold switch_hrtimer_base. rewrite Hx. cbn [mbind option_bind]. set (cpu := hrtimer_get_target e pinned).
  destruct (cf_base _ Hc t x Hx) as (k' & Hk' & Hclk). assert (k' = k) as -> by congruence. clear Hk'.
  assert (tm st = <[t := set_hbase (Some k) x]> (tm st)) as Hid by (rewrite set_hbase_id by done; by rewrite insert_id).
  assert (forall c, is_Some (cpus st !! c) -> is_Some (clocks st !! (c, k.2))) as Hclk'.
  { intros c Hcc. apply (cf_clock _ Hc c k.2). split; [done|]. destruct k as [kc ki]. by apply (cf_clock _ Hc kc ki) in Hclk as [_ ?]. }
  case_decide as Ek.
  { right. exists k, st. split; [done|]. split; [done|]. do 3 (split; [done|]). split; [done|]. split; [done|]. split; [done|]. right. right.
    by rewrite Ek. }
  destruct (hrtimer_callback_running x) eqn:Hrun.
  { right. exists k, st. split; [done|]. split; [done|]. do 3 (split; [done|]). split; [done|]. split; [done|]. split; [done|]. by left. }
  destruct (Z.eqb_spec cpu (smp_processor_id e)) as [Et|Et].
  { right. cbn [mbind option_bind]. eexists _, _. split; [done|]. split; [done|]. do 3 (split; [done|]). rewrite Et. split; [by apply Hclk'|].
    split; [done|]. split; [done|]. right. by left. }
  unfold hrtimer_check_target. cbn [fst]. destruct (cpus st !! cpu) as [cb|] eqn:Hcb; [|by left]. right. cbn [mbind option_bind].
  destruct (Hclk' cpu) as [b Hb]; [by rewrite Hcb|]. rewrite Hb. cbn [mbind option_bind].
  eexists _, _. split; [done|]. split; [done|]. do 3 (split; [done|]).
  destruct (hres_active cb && _); (split; [by (apply Hclk' || by rewrite Hb)|]); (split; [done|]); (split; [done|]); right; [by left|by right].
Qed.

(** The timer after a start. *)
Definition started (x y : hrtimer) (new : Z * Z) : Prop :=
  base y = Some new /\ hrtimer_is_queued y = true /\
  (hrtimer_callback_running y = negb (hrtimer_is_queued x) && hrtimer_callback_running x).

Section StartSpec.
Context (mc : machine).

Definition clock_at (index : Z) (n : nat) : Z := if index =? CLOCK_REALTIME then ktime_get_real mc n else ktime_get mc n.

(** The expiry a start sets, with the clock read for the [n]th time. *)
Definition start_range (tim delta mode index : Z) (n : nat) (y : hrtimer) : Prop :=
  softexpires y = (if has mode HRTIMER_MODE_REL then ktime_add_safe tim (clock_at index n) else tim) /\
  expires y = ktime_add_safe (softexpires y) (ns_to_ktime delta).

Lemma removed_spec st Q this_cpu t x k :
  good st Q -> tm st !! t = Some x -> base x = Some k -> is_Some (cpus st !! this_cpu) ->
  exists st' s, remove_hrtimer mc this_cpu t k st = Some (if hrtimer_is_queued x then 1 else 0, st') /\ good st' (alter (list_del t) k Q) /\
    tm st' = <[t := set_state s x]> (tm st) /\ hrtimer_is_queued (set_state s x) = false /\
    (s = if hrtimer_is_queued x then HRTIMER_STATE_INACTIVE else state x) /\ steady st st' /\ raised st' = raised st /\
    moved k.1 st st' (alter (list_del t) k Q) /\ (k.1 <> this_cpu -> cpus st' = cpus st).
Proof.
  intros [HQ Hc] Hx Hbase Hcpu. unfold remove_hrtimer. rewrite Hx. cbn [mbind option_bind].
  destruct (remove_raw_spec mc st Q this_cpu t x k (if hrtimer_is_queued x then HRTIMER_STATE_INACTIVE else state x) (k.1 =? this_cpu))
    as (st' & E & HQ' & Hc' & Ht & Hs & Hr & Hm & Hn); try done; [by destruct (hrtimer_is_queued x) eqn:Hq; cbn; rewrite ?Hq|].
  destruct (hrtimer_is_queued x) eqn:Hq.
  - rewrite E. exists st', HRTIMER_STATE_INACTIVE. split; [done|]. split; [done|]. split; [done|]. do 5 (split; [done|]). intros Hne.
    apply Hn. by apply Z.eqb_neq.
  - unfold remove_hrtimer_raw in E. rewrite Hx in E. cbn [mbind option_bind] in E. rewrite Hq in E. cbn [negb] in E.
    injection E as <-. assert (set_state (state x) x = x) as Hid by by destruct x. rewrite Hid in *.
    assert (set_timer t x st = st) as Hst by (unfold set_timer; rewrite insert_id by done; by destruct st). rewrite Hst in *.
    exists st, (state x). rewrite Hid. done.
Qed.

(** The steps of a start: the timer has left its queue in [st1], is on the new
    one in [st3], and the event device has been looked at in [st']. *)
Record start_steps (e : cpu_env) (t : ptr) (tim delta mode : Z) (k new : Z * Z) (x y : hrtimer) (E : list ptr) (Q : gmap (Z * Z) (list ptr))
    (st st1 st3 st' : hrtimers) : Prop := {
  ss_removed : good st1 (alter (list_del t) k Q) /\ moved k.1 st st1 (alter (list_del t) k Q) /\ (k.1 <> smp_processor_id e -> cpus st1 = cpus st);
  ss_rest : tm st1 = <[t := set_state (if hrtimer_is_queued x then HRTIMER_STATE_INACTIVE else state x) x]> (tm st) /\ raised st1 = raised st /\ steady st st1;
  ss_new : alter (list_del t) k Q !! new = Some E;
  ss_queue : good st3 (<[new := insort (exp_of (tm st)) t (expires y) E]> (alter (list_del t) k Q));
  ss_enq : tm st3 = <[t := y]> (tm st) /\ cpus st3 = cpus st1 /\ raised st3 = raised st /\ steady st st3;
  ss_place : placed_on e (has mode HRTIMER_MODE_PINNED) (negb (hrtimer_is_queued x) && hrtimer_callback_running x) k new;
  ss_state : started x y new;
  ss_range : exists n, start_range tim delta mode k.2 n y;
  ss_last : if bool_decide (head (insort (exp_of (tm st)) t (expires y) E) = Some t) && (new.1 =? smp_processor_id e)
            then sooner (smp_processor_id e) st3 st' /\ forall b, clocks st3 !! new = Some b -> served (smp_processor_id e) y b st'
            else st' = st3
}.

Lemma insort_ext f g t e E : (forall q, q ∈ E -> f q = g q) -> insort f t e E = insort g t e E.
Proof.
  induction E as [|q E IH]; intros H; cbn; [done|]. rewrite (H q) by set_solver. destruct (e <? g q); [done|]. f_equal. apply IH. set_solver.
Qed.

(** A timer that is not queued gets another expiry or clock base. *)
Lemma retime_good st Q t x z new st' :
  good st Q -> tm st !! t = Some x -> hrtimer_is_queued x = false -> hrtimer_is_queued z = false ->
  base z = Some new -> is_Some (clocks st !! new) -> 0 <= expires z <= KTIME_MAX ->
  tm st' = <[t := z]> (tm st) -> heap st' = heap st -> clocks st' = clocks st -> steady st st' -> good st' Q.
Proof.
  intros [HQ Hc] Hx Hxq Hzq Hz Hnew He Ht Hh Hcl Hs. apply (good_same (set_timer t z st)); [|destruct Hs as [[A1] A2 A3 A4]; constructor; [by constructor|done..]|done|done|done].
  split; [apply set_timer_queues; [done|rewrite Hx; by intros ? [= <-]|done]|].
  apply (config_timer st _ t z); [done|apply quiet_steady, set_timer_quiet|done|by exists new|done].
Qed.

(** The last part of a start: [st2] has the new expiry, which is queued. *)
Lemma start_tail e t z new st2 Q :
  good st2 Q -> tm st2 !! t = Some z -> hrtimer_is_queued z = false -> base z = Some new ->
  let y := set_state (Z.lor (state z) HRTIMER_STATE_ENQUEUED) z in
  exists E st3 st', Q !! new = Some E /\
    let E' := insort (exp_of (tm st2)) t (expires z) E in
    enqueue_hrtimer t new st2 = Some (bool_decide (head E' = Some t), st3) /\
    (if bool_decide (head E' = Some t) && (new.1 =? smp_processor_id e)
     then hrtimer_enqueue_reprogram mc (smp_processor_id e) t new st3 else Some st3) = Some st' /\
    good st3 (<[new := E']> Q) /\ tm st3 = <[t := y]> (tm st2) /\ quiet st2 st3 /\
    if bool_decide (head E' = Some t) && (new.1 =? smp_processor_id e)
    then sooner (smp_processor_id e) st3 st' /\ forall b, clocks st3 !! new = Some b -> served (smp_processor_id e) y b st'
    else st' = st3.
Proof.
  intros [HQ2 Hc2] Hz Hzq Hbase y. destruct (cf_base _ Hc2 t z Hz) as (k & Hk & Hclk). assert (k = new) as -> by congruence.
  destruct (enqueue_spec st2 Q t z new HQ2 Hz Hzq Hbase Hclk) as (E & st3 & HE & E3 & HQ3 & T3 & S3); [by apply (cf_expires _ Hc2 t)|].
  cbn zeta in E3, HQ3. assert (config st3) as Hc3.
  { apply (config_timer st2 _ t y); [done|by apply quiet_steady|done|by exists new|by apply (cf_expires _ Hc2 t z)]. }
  destruct (bool_decide (head (insort (exp_of (tm st2)) t (expires z) E) = Some t) && (new.1 =? smp_processor_id e)) eqn:Elast.
  - pose proof Elast as [_ En%Z.eqb_eq]%andb_true_iff. apply (same_clock_some _ _ _ (qt_clocks _ _ S3)) in Hclk as [b3 Hb3].
    destruct (enqueue_reprogram_spec mc (smp_processor_id e) t y b3 new st3 En) as (st' & E4 & Hs4 & Hv4); [by rewrite T3, lookup_insert_eq|done|done|].
    exists E, st3, st'. split; [done|]. cbn zeta. rewrite Elast. split; [done|]. split; [exact E4|].
    split; [done|]. split; [done|]. split; [done|]. split; [done|]. intros b Hb. assert (b = b3) as -> by congruence. done.
  - exists E, st3, st3. split; [done|]. cbn zeta. by rewrite Elast.
Qed.

Lemma start_spec e t tim delta mode st Q x k :
  good st Q -> tm st !! t = Some x -> base x = Some k -> is_Some (cpus st !! smp_processor_id e) ->
  (hrtimer_start_range_ns mc e t tim delta mode st = None /\ cpus st !! hrtimer_get_target e (has mode HRTIMER_MODE_PINNED) = None) \/
  exists st1 st3 st' new y E,
    hrtimer_start_range_ns mc e t tim delta mode st = Some (if hrtimer_is_queued x then 1 else 0, st') /\
    start_steps e t tim delta mode k new x y E Q st st1 st3 st'.
Proof.
  intros Hg Hx Hbase Hthis. set (pinned := has mode HRTIMER_MODE_PINNED).
  destruct (removed_spec st Q (smp_processor_id e) t x k Hg Hx Hbase Hthis) as (st1 & s & E1 & Hg1 & T1 & Hnq & Hs & S1 & R1 & M1 & N1).
  unfold hrtimer_start_range_ns. rewrite Hx. cbn [mbind option_bind]. rewrite Hbase. cbn [mbind option_bind]. rewrite (bind_eq _ _ _ E1). cbn beta iota.
  assert (tm st1 !! t = Some (set_state s x)) as Hx1 by (rewrite T1; apply lookup_insert_eq). pose proof (gd_config _ _ Hg1) as Hc1.
  destruct (switch_spec e t _ k pinned st1 Hc1 Hx1 Hbase) as [[E2 Hnone]|(new & st2 & E2 & T2 & H2 & C2 & S2 & Hclk & Hpl)];
    [by apply (steady_cpu st st1)| |]; fold pinned.
  { left. rewrite E2. split; [done|]. destruct (cpus st !! hrtimer_get_target e pinned) eqn:Ec; [|done].
    assert (is_Some (cpus st1 !! hrtimer_get_target e pinned)) as [? ?]; [|congruence]. apply (steady_cpu st st1); [done|]. by rewrite Ec. }
  right. rewrite (bind_eq _ _ _ E2). cbn beta iota.
  set (p := if has mode HRTIMER_MODE_REL then _ else _). assert (exists n tim', p = (tim', set_reads n st2) /\
     tim' = (if has mode HRTIMER_MODE_REL then ktime_add_safe tim (clock_at k.2 (reads st2)) else tim)) as (n & tim' & -> & Htim).
  { unfold p, get_time. rewrite (proj1 Hpl). destruct (has mode HRTIMER_MODE_REL); [by eexists _, _|]. exists (reads st2), tim. split; [|done].
    by destruct st2. }
  cbn [tm set_reads]. assert (tm st2 !! t = Some (set_hbase (Some new) (set_state s x))) as Hx2 by (rewrite T2; apply lookup_insert_eq).
  rewrite Hx2. cbn [mbind option_bind]. set (z := hrtimer_set_expires_range_ns tim' delta (set_hbase (Some new) (set_state s x))).
  set (st2' := set_timer t z (set_reads n st2)). assert (tm st2' = <[t := z]> (tm st1)) as T2' by (cbn; by rewrite T2, insert_insert_eq).
  assert (steady st1 st2') as S2'. { destruct (quiet_steady _ _ S2) as [[A1] A2 A3 A4]. constructor; [by constructor|done|done|done]. }
  assert (good st2' (alter (list_del t) k Q)) as Hg2 by (apply (retime_good st1 _ t _ z new st2' Hg1 Hx1); try done; apply add_safe_range).
  destruct (start_tail e t z new st2' _ Hg2) as (E & st3 & st' & HE & E3 & E4 & Hg3 & T3 & Q3 & Hlast); [rewrite T2'; apply lookup_insert_eq|done|done|].
  cbn zeta in E3, E4, Hg3, Hlast. assert (insort (exp_of (tm st2')) t (expires z) E = insort (exp_of (tm st)) t (expires z) E) as Ein.
  { apply insort_ext. intros q Hq. assert (q <> t) as Hqt.
    { intros ->. by apply (not_queued_in st1 _ (gd_queues _ _ Hg1) t _ new E Hx1 Hnq HE). }
    unfold exp_of. by rewrite T2', T1, !lookup_insert_ne. }
  assert (hrtimer_callback_running (set_state s x) = negb (hrtimer_is_queued x) && hrtimer_callback_running x) as Hrun
    by (subst s; destruct (hrtimer_is_queued x); [done|by destruct x]).
  rewrite Ein in *. exists st1, st3, st', new, (set_state (Z.lor (state z) HRTIMER_STATE_ENQUEUED) z), E.
  split; [rewrite (bind_eq _ _ _ E3); cbn beta iota; by rewrite (bind_eq _ _ _ E4)|]. constructor; try done.
  - by subst s.
  - split; [rewrite T3, T2', T1, !insert_insert_eq; done|]. destruct S2 as [A1 A2 A3 A4 A5 A6], Q3 as [B1 B2 B3 B4 B5 B6].
    split; [rewrite B2; cbn; by rewrite A2|]. split; [rewrite B4; cbn; by rewrite A4|]. etransitivity; [exact S1|]. etransitivity; [exact S2'|].
    by apply quiet_steady.
  - by rewrite <- Hrun.
  - split; [done|]. split; [apply queued_or|]. by rewrite running_or.
  - exists (reads st2). split; [exact Htim|done].
Qed.
End StartSpec.

(** ** Forwarding *)

Lemma u64_small z : 0 <= z < 2 ^ 64 -> u64 z = z.
Proof. apply wrapu_small. Qed.

Lemma add_safe_small a b : 0 <= a -> 0 <= b -> a + b <= KTIME_MAX -> ktime_add_safe a b = a + b.
Proof.
  unfold KTIME_MAX. intros Ha Hb Hab. unfold ktime_add_safe, ktime_add. rewrite s64_small by lia.
  destruct (Z.ltb_spec (a + b) 0); [lia|]. destruct (Z.ltb_spec (a + b) a); [lia|]. by destruct (Z.ltb_spec (a + b) b); [lia|].
Qed.

(** The whole number of intervals that have passed. *)
Lemma overruns delta interval : 0 <= delta <= KTIME_MAX -> 1 <= interval ->
  let orun := ktime_divns delta interval in
  orun = delta / interval /\ u64 (interval * orun) = interval * orun /\ 0 <= interval * orun <= delta /\ delta < interval * orun + interval.
Proof.
  unfold KTIME_MAX. intros Hd Hi. cbn zeta. unfold ktime_divns. rewrite Z.quot_div_nonneg by lia.
  pose proof (Z.div_pos delta interval ltac:(lia) ltac:(lia)). pose proof (Z.mul_div_le delta interval ltac:(lia)).
  pose proof (Z.mul_succ_div_gt delta interval ltac:(lia)). assert (delta / interval <= delta) by (apply Z.div_le_upper_bound; nia).
  rewrite (u64_small (delta / interval)) by lia. split; [done|]. rewrite u64_small by nia. nia.
Qed.

Lemma forward_range res now interval x :
  0 <= expires x <= KTIME_MAX -> 1 <= res <= KTIME_MAX -> - 2 ^ 63 <= now < 2 ^ 63 -> - 2 ^ 63 <= interval < 2 ^ 63 ->
  0 <= expires (snd (hrtimer_forward res now interval x)) <= KTIME_MAX.
Proof.
  intros Hx Hr Hn Hi. unfold hrtimer_forward. pose proof (s64_range (now - expires x)) as Hd. fold (ktime_sub now (expires x)) in Hd.
  set (delta := ktime_sub now (expires x)) in *. destruct (Z.ltb_spec delta 0) as [|Hd0]; [done|].
  set (iv := if interval <? res then res else interval). assert (1 <= iv) as Hiv by (unfold iv; destruct (Z.ltb_spec interval res); lia).
  destruct (delta >=? iv); [|apply add_safe_range].
  destruct (overruns delta iv) as (_ & Hu & Ho); [unfold KTIME_MAX; lia|done|]. rewrite Hu.
  set (m := iv * ktime_divns delta iv) in *. cbn [expires hrtimer_add_expires_ns set_range].
  destruct (Z.gtb_spec (ktime_add_ns (expires x) m) now) as [Hgt|]; [|apply add_safe_range]. cbn [snd hrtimer_add_expires_ns expires set_range].
  unfold ktime_add_ns in *. pose proof (s64_range (expires x + m)). split; [|unfold KTIME_MAX; lia].
  destruct (Z.lt_ge_cases (expires x + m) (2 ^ 63)) as [Hs|Hs]; [rewrite s64_small by lia; lia|exfalso].
  assert (s64 (expires x + m) = expires x + m - 2 ^ 64) as E1.
  { unfold s64, wraps. change (2 ^ (64 - 1)) with (2 ^ 63). rewrite <- (Z.mod_unique (expires x + m + 2 ^ 63) (2 ^ 64) 1 (expires x + m - 2 ^ 63)); [lia| |lia].
    left. unfold KTIME_MAX in *. lia. }
  assert (delta = now - expires x \/ delta = now - expires x + 2 ^ 64) as [E2|E2]; [|unfold KTIME_MAX in *; lia..].
  unfold delta, ktime_sub. destruct (Z.lt_ge_cases (now - expires x) (- 2 ^ 63)) as [Hl|Hl]; [right|left; apply s64_small; lia].
  unfold s64, wraps. change (2 ^ (64 - 1)) with (2 ^ 63). rewrite <- (Z.mod_unique (now - expires x + 2 ^ 63) (2 ^ 64) (-1) (now - expires x + 2 ^ 63 + 2 ^ 64)); [lia| |lia].
  left. unfold KTIME_MAX in *. lia.
Qed.

(** ** One operation *)

(** No timer goes, and a timer whose callback runs keeps its clock base. *)
Definition kept (t : ptr) (st st' : hrtimers) : Prop :=
  (is_Some (tm st !! t) -> is_Some (tm st' !! t)) /\
  forall x', tm st' !! t = Some x' -> hrtimer_callback_running x' = true ->
    exists x, tm st !! t = Some x /\ hrtimer_callback_running x = true /\ base x' = base x.

Lemma kept_refl t st : kept t st st.
Proof. split; [done|]. intros x Hx Hr. by exists x. Qed.

Lemma kept_trans t st1 st2 st3 : kept t st1 st2 -> kept t st2 st3 -> kept t st1 st3.
Proof.
  intros [A1 A2] [B1 B2]. split; [auto|]. intros z Hz Hr. destruct (B2 z Hz Hr) as (y & Hy & Hr' & Hb).
  destruct (A2 y Hy Hr') as (x & Hx & Hr'' & Hb'). exists x. split; [done|]. split; [done|]. congruence.
Qed.

Lemma kept_insert t st st' q y x :
  tm st' = <[q := y]> (tm st) -> tm st !! q = Some x ->
  (hrtimer_callback_running y = true -> hrtimer_callback_running x = true /\ base y = base x) -> kept t st st'.
Proof.
  intros Ht Hq Hy. unfold kept. rewrite Ht. destruct (decide (t = q)) as [->|].
  - rewrite lookup_insert_eq. split; [done|]. intros x' [= <-] Hr. exists x. destruct (Hy Hr). done.
  - rewrite lookup_insert_ne by done. split; [done|]. intros x' Hx' Hr. by exists x'.
Qed.

Lemma kept_get t st st' x : kept t st st' -> tm st !! t = Some x -> exists x', tm st' !! t = Some x' /\
  (hrtimer_callback_running x' = true -> hrtimer_callback_running x = true /\ base x' = base x).
Proof.
  intros [A1 A2] Hx. destruct (A1 ltac:(by rewrite Hx)) as [x' Hx']. exists x'. split; [done|]. intros Hr.
  destruct (A2 x' Hx' Hr) as (x0 & Hx0 & Hr0 & Hb). rewrite Hx in Hx0. by injection Hx0 as <-.
Qed.

Section Ops.
Context (mc : machine).

Lemma update_inv f t st Q st' :
  good st Q -> hrtimer_update f t st = Some st' ->
  (forall x, base (f x) = base x /\ state (f x) = state x) -> (forall x, tm st !! t = Some x -> 0 <= expires (f x) <= KTIME_MAX) ->
  good st' Q /\ steady st st' /\ (forall q, kept q st st') /\ raised st' = raised st /\ cpus st' = cpus st.
Proof.
  intros Hg E Hf He. unfold hrtimer_update in E. destruct (tm st !! t) as [x|] eqn:Hx; [|done]. cbn [mbind option_bind] in E.
  destruct (hrtimer_is_queued x) eqn:Hq; [done|]. injection E as <-. destruct (Hf x) as [Hb Hs].
  destruct (cf_base _ (gd_config _ _ Hg) t x Hx) as (k & Hk & Hclk).
  split; [|split; [|split; [|done]]].
  - apply (retime_good st Q t x (f x) k); try done; [unfold hrtimer_is_queued in *; by rewrite Hs|congruence|by apply He].
  - apply quiet_steady, set_timer_quiet.
  - intros q. apply (kept_insert q st _ t (f x) x); [done|done|]. unfold hrtimer_callback_running. by rewrite Hs, Hb.
Qed.

Lemma forward_same res now interval x :
  base (snd (hrtimer_forward res now interval x)) = base x /\ state (snd (hrtimer_forward res now interval x)) = state x.
Proof. unfold hrtimer_forward. by repeat case_match. Qed.

Record op_done (st st' : hrtimers) : Prop := {
  od_good : exists Q, good st' Q;
  od_steady : steady st st';
  od_kept q : kept q st st';
  od_raised : raised st ⊆ raised st'
}.

Lemma start_done e t tim delta mode st Q st' ret :
  good st Q -> is_Some (cpus st !! smp_processor_id e) -> hrtimer_start_range_ns mc e t tim delta mode st = Some (ret, st') -> op_done st st'.
Proof.
  intros Hg Hcpu E. destruct (tm st !! t) as [x|] eqn:Hx; [|unfold hrtimer_start_range_ns in E; by rewrite Hx in E].
  destruct (cf_base _ (gd_config _ _ Hg) t x Hx) as (k & Hk & _).
  destruct (start_spec mc e t tim delta mode st Q x k Hg Hx Hk Hcpu) as [[E' _]|(st1 & st3 & st2 & new & y & F & E' & Hss)]; [congruence|].
  rewrite E' in E. injection E as _ <-. destruct Hss as [_ _ _ Hg3 (T3 & C3 & R3 & S3) Hpl (Hy1 & Hy2 & Hy3) _ Hlast].
  assert (kept_y : hrtimer_callback_running y = true -> hrtimer_callback_running x = true /\ base y = base x).
  { intros Hr. rewrite Hy3 in Hr. destruct Hpl as (_ & Hpl & _). rewrite Hy1, Hk, (Hpl Hr). split; [|done]. by apply andb_true_iff in Hr as [_ Hr]. }
  destruct (bool_decide _ && _).
  - destruct Hlast as [Hs _]. pose proof (sooner_steady _ _ _ Hs) as Hs'. destruct Hs as [A1 A2 A3 A4 A5 A6 A7].
    split; [eexists; by apply (good_same st3)|by etransitivity| |].
    + intros q. apply (kept_insert q st st2 t y x); [by rewrite A1|done|done].
    + rewrite <- R3. destruct A6 as [->| ->]; set_solver.
  - subst st2. split; [by eexists|done| |by rewrite R3]. intros q. by apply (kept_insert q st st3 t y x).
Qed.

Lemma cancel_done c t st Q st' ret :
  good st Q -> is_Some (cpus st !! c) -> hrtimer_try_to_cancel mc c t st = Some (ret, st') -> op_done st st'.
Proof.
  intros Hg Hcpu E. unfold hrtimer_try_to_cancel in E. destruct (tm st !! t) as [x|] eqn:Hx; [|done]. cbn [mbind option_bind] in E.
  destruct (cf_base _ (gd_config _ _ Hg) t x Hx) as (k & Hk & _). rewrite Hk in E. cbn [mbind option_bind] in E.
  destruct (hrtimer_callback_running x) eqn:Hr; cbn [negb] in E.
  { injection E as _ <-. split; [by eexists|done|intros q; apply kept_refl|done]. }
  destruct (removed_spec mc st Q c t x k Hg Hx Hk Hcpu) as (st1 & s & E1 & Hg1 & T1 & _ & Hs & S1 & R1 & _). rewrite E1 in E. injection E as _ <-.
  split; [by eexists|done| |by rewrite R1]. intros q. apply (kept_insert q st st1 t (set_state s x) x); [done|done|].
  subst s. destruct (hrtimer_is_queued x); [done|]. by destruct x.
Qed.

Lemma init_done c t clock_id mode st Q st' : good st Q -> hrtimer_init c t clock_id mode st = Some st' -> op_done st st'.
Proof.
  intros [HQ Hc] E. unfold hrtimer_init in E. destruct (default false _) eqn:Hq; [done|].
  set (id := if (clock_id =? CLOCK_REALTIME) && _ then _ else _) in E. destruct (clocks st !! (c, id)) as [b|] eqn:Hb; [|done].
  cbn [mbind option_bind] in E. injection E as <-. set (y := {| expires := 0; softexpires := 0; base := Some (c, id); state := HRTIMER_STATE_INACTIVE |}).
  set (n := {| rb_parent := None; rb_color := RB_RED; rb_right := None; rb_left := None |}).
  assert (forall x, tm st !! t = Some x -> hrtimer_is_queued x = false) as Hnq by (intros x Hx; by rewrite Hx in Hq).
  assert (steady st (set_heap (<[t := n]> (heap st)) (set_timer t y st))) as Hs by done.
  split; [|done| |done].
  - exists Q. split; [|apply (config_timer st _ t y); [done|done|done|by exists (c, id); rewrite Hb|done]].
    pose proof (set_timer_queues st Q HQ t y Hnq eq_refl) as [H1 H2 H3 H4 H5]. constructor; try done.
    intros k b' Hb'. destruct (H1 k b' Hb') as (E & HE & HT & Hf). exists E. split; [done|]. split; [|done].
    apply (rbtree_elsewhere _ _ _ HT); [done|]. intros q Hq'. cbn. rewrite lookup_insert_ne; [done|]. intros <-.
    destruct (qs_in _ _ HQ t k E HE Hq') as (x & Hx & _ & Hxq & _). rewrite Hnq in Hxq; done.
  - intros q. unfold kept. cbn. destruct (decide (q = t)) as [->|].
    + rewrite lookup_insert_eq. split; [done|]. by intros ? [= <-].
    + rewrite lookup_insert_ne by done. apply kept_refl.
Qed.

Lemma run_op_done o st Q st' : good st Q -> run_op mc o st = Some st' -> op_done st st'.
Proof.
  intros Hg E. destruct o as [c t clock_id mode|t time delta|t now interval|e t tim delta mode|e t|c t]; cbn [run_op] in E.
  - by apply (init_done c t clock_id mode st Q).
  - destruct (update_inv _ t st Q st' Hg E) as (H1 & H2 & H3 & H4 & _); [done|intros x _; apply add_safe_range|].
    split; [by eexists|done|done|by rewrite H4].
  - destruct (tm st !! t) as [x|] eqn:Hx; [|done]. cbn [mbind option_bind] in E. destruct (base x) as [k|] eqn:Hk; [|done]. cbn [mbind option_bind] in E.
    destruct (clocks st !! k) as [b|] eqn:Hb; [|done]. cbn [mbind option_bind] in E.
    destruct (update_inv _ t st Q st' Hg E) as (H1 & H2 & H3 & H4 & _); [intros; apply forward_same| |split; [by eexists|done|done|by rewrite H4]].
    intros y Hy. apply forward_range; [by apply (cf_expires _ (gd_config _ _ Hg) t)|by apply (cf_params _ (gd_config _ _ Hg) k)|apply s64_range..].
  - destruct (cpus st !! smp_processor_id e) eqn:Hcpu; [|done]. cbn [mbind option_bind] in E.
    destruct (hrtimer_start_range_ns mc e t _ _ mode st) as [[ret st2]|] eqn:Es; [|done]. injection E as ->.
    eapply (start_done e t _ _ mode st Q st' ret Hg); [by rewrite Hcpu|exact Es].
  - destruct (cpus st !! smp_processor_id e) eqn:Hcpu; [|done]. cbn [mbind option_bind] in E. unfold hrtimer_restart, hrtimer_start_expires in E.
    destruct (tm st !! t) as [x|]; [|done]. cbn [mbind option_bind] in E.
    destruct (hrtimer_start_range_ns mc e t _ _ HRTIMER_MODE_ABS st) as [[ret st2]|] eqn:Es; [|done]. injection E as ->.
    eapply (start_done e t _ _ HRTIMER_MODE_ABS st Q st' ret Hg); [by rewrite Hcpu|exact Es].
  - destruct (cpus st !! c) eqn:Hcpu; [|done]. cbn [mbind option_bind] in E.
    destruct (hrtimer_try_to_cancel mc c t st) as [[ret st2]|] eqn:Es; [|done]. injection E as ->.
    apply (cancel_done c t st Q st' ret Hg); [by rewrite Hcpu|exact Es].
Qed.

Lemma run_ops_done l : forall st Q st', good st Q -> run_ops mc l st = Some st' -> op_done st st'.
Proof.
  induction l as [|o l IH]; intros st Q st' Hg E; cbn [run_ops] in E.
  { injection E as <-. split; [by eexists|done|intros q; apply kept_refl|done]. }
  destruct (run_op mc o st) as [st1|] eqn:E1; [|done]. cbn [mbind option_bind] in E.
  destruct (run_op_done o st Q st1 Hg E1) as [[Q1 Hg1] S1 K1 R1]. destruct (IH st1 Q1 st' Hg1 E) as [Hg2 S2 K2 R2].
  split; [done|by etransitivity| |set_solver]. intros q. by apply (kept_trans q st st1).
Qed.
End Ops.

(** ** Running timers *)

(** The effect of running timers; [P] holds of every call made. *)
Record ran (P : call -> Prop) (st st' : hrtimers) : Prop := {
  rn_good : exists Q, good st' Q;
  rn_clocks : same_clocks st st';
  rn_cpus c : mode_of <$> cpus st' !! c = mode_of <$> cpus st !! c;
  rn_devs c : is_Some (devs st' !! c) <-> is_Some (devs st !! c);
  rn_calls : exists l, calls st' = calls st ++ l /\ Forall P l;
  rn_raised : raised st ⊆ raised st'
}.

Lemma ran_trans P st1 st2 st3 : ran P st1 st2 -> ran P st2 st3 -> ran P st1 st3.
Proof.
  intros [A1 A2 A3 A4 (l1 & A5 & A5') A6] [B1 B2 B3 B4 (l2 & B5 & B5') B6].
  split; [done|by etransitivity|intros c; by rewrite B3, A3|intros c; by rewrite B4, A4| |set_solver].
  exists (l1 ++ l2). split; [by rewrite B5, A5, app_assoc|by apply Forall_app].
Qed.

Lemma ran_steady P st st' Q : good st' Q -> steady st st' -> raised st ⊆ raised st' -> ran P st st'.
Proof.
  intros Hg [S1 S2 S3 S4] Hr. split; [by eexists|done|done|done| |done]. exists []. by rewrite S4, app_nil_r.
Qed.

Lemma op_done_ran P st st' : op_done st st' -> ran P st st'.
Proof. intros [[Q HQ] S K R]. by apply (ran_steady P st st' Q). Qed.

Lemma callback_not_queued x : hrtimer_is_queued (set_state HRTIMER_STATE_CALLBACK x) = false.
Proof. done. Qed.

(** A state change that keeps the queued bit. *)
Lemma restate_good st Q t x s :
  good st Q -> tm st !! t = Some x -> hrtimer_is_queued (set_state s x) = hrtimer_is_queued x -> good (set_timer t (set_state s x) st) Q.
Proof.
  intros [HQ Hc] Hx Hs. split.
  - destruct HQ as [H1 H2 H3 H4 H5]. constructor; cbn; [done|done| | |].
    + intros q k E HE Hq. destruct (H3 q k E HE Hq) as (y & Hy & Hy').
      destruct (decide (q = t)) as [->|]; [|by exists y; rewrite lookup_insert_ne]. rewrite lookup_insert_eq.
      assert (y = x) as -> by congruence. exists (set_state s x). by rewrite Hs.
    + intros q y. destruct (decide (q = t)) as [->|]; [|rewrite lookup_insert_ne by done; apply H4].
      rewrite lookup_insert_eq. intros [= <-]. rewrite Hs. exact (H4 t x Hx).
    + intros k E HE. apply (order_ext (exp_of (tm st))); [intros q _; symmetry; by apply (exp_of_insert _ _ x)|by apply (H5 k)].
  - destruct (cf_base _ Hc t x Hx) as (k & Hk & Hclk).
    apply (config_timer st _ t (set_state s x)); [done|apply quiet_steady, set_timer_quiet|done|by exists k|by apply (cf_expires _ Hc t x)].
Qed.

Lemma first_timer st Q k b t : good st Q -> clocks st !! k = Some b -> first b = Some t ->
  exists x, tm st !! t = Some x /\ base x = Some k /\ is_Some (cpus st !! k.1).
Proof.
  intros [HQ Hc] Hb Hf. destruct (queue_of st Q HQ k b Hb) as (E & HE & _ & Hfirst & _). rewrite Hfirst in Hf.
  destruct E as [|q E]; [done|]. injection Hf as ->. destruct (qs_in _ _ HQ t k _ HE) as (x & Hx & Hk & _); [set_solver|].
  exists x. split; [done|]. split; [done|]. destruct k as [c i]. apply (cf_clock _ Hc c i). by rewrite Hb.
Qed.

Section Run.
Context (mc : machine) (handler : ptr -> hrtimers -> list hrtimer_op * bool).

(** The restart of a timer after its callback. *)
Lemma requeue_ran P (restart : bool) t k st Q x st' :
  good st Q -> tm st !! t = Some x -> (hrtimer_callback_running x = true -> base x = Some k) ->
  (if restart then if negb (state x =? HRTIMER_STATE_CALLBACK) then None else snd <$> enqueue_hrtimer t k st else Some st) = Some st' ->
  exists Q', good st' Q' /\ ran P st st' /\ is_Some (tm st' !! t).
Proof.
  intros Hg Hx Hk E. destruct restart.
  2: { injection E as <-. exists Q. split; [done|]. split; [by apply (ran_steady P st st Q)|by rewrite Hx]. }
  destruct (Z.eqb_spec (state x) HRTIMER_STATE_CALLBACK) as [Es|]; [|done]. cbn [negb] in E.
  assert (base x = Some k) as Hb by (apply Hk; unfold hrtimer_callback_running; by rewrite Es).
  assert (hrtimer_is_queued x = false) as Hq by (unfold hrtimer_is_queued; by rewrite Es). destruct Hg as [HQ Hc].
  destruct (cf_base _ Hc t x Hx) as (k' & Hk' & Hclk). assert (k' = k) as -> by congruence.
  destruct (enqueue_spec st Q t x k HQ Hx Hq Hb Hclk) as (E2 & st2 & HE & E3 & HQ3 & T3 & S3); [by apply (cf_expires _ Hc t)|].
  cbn zeta in E3, HQ3. rewrite E3 in E. injection E as <-.
  assert (good st2 (<[k := insort (exp_of (tm st)) t (expires x) E2]> Q)) as Hg2.
  { split; [done|]. eapply (config_timer st _ t); [done|by apply quiet_steady|exact T3|by exists k|by apply (cf_expires _ Hc t x)]. }
  eexists. split; [exact Hg2|]. split; [|by rewrite T3, lookup_insert_eq].
  apply (ran_steady P st st2 _ Hg2); [by apply quiet_steady|by rewrite (qt_raised _ _ S3)].
Qed.

Lemma run_hrtimer_ran P c t now st Q st' x k :
  good st Q -> is_Some (cpus st !! c) -> tm st !! t = Some x -> base x = Some k ->
  P {| call_timer := t; call_softexpires := softexpires x; call_expires := expires x; call_base := k; call_now := now |} ->
  run_hrtimer mc handler c t now st = Some st' -> ran P st st'.
Proof.
  intros [HQ Hc] Hcpu Hx Hk HP E. unfold run_hrtimer in E. rewrite Hx in E. cbn [mbind option_bind] in E. rewrite Hk in E. cbn [mbind option_bind] in E.
  destruct (remove_raw_spec mc st Q c t x k HRTIMER_STATE_CALLBACK false HQ Hc Hx Hk Hcpu (callback_not_queued x))
    as (st1 & E1 & HQ1 & Hc1 & T1 & S1 & R1 & _). rewrite (bind_eq _ _ _ E1) in E. cbn beta zeta in E.
  set (ev := {| call_timer := t; call_softexpires := _; call_expires := _; call_base := _; call_now := _ |}) in *.
  assert (good (log_call ev st1) (alter (list_del t) k Q)) as Hg2.
  { destruct HQ1 as [H1 H2 H3 H4 H5], Hc1 as [C1 C2 C3 C4 C5].
    exact (Build_good _ _ (Build_queues (log_call ev st1) _ H1 H2 H3 H4 H5) (Build_config (log_call ev st1) C1 C2 C3 C4 C5)). }
  assert (ran P st (log_call ev st1)) as R2.
  { destruct S1 as [[S1] S2 S3 S4]. split; [by eexists|by constructor|done|done| |cbn; by rewrite R1]. exists [ev]. cbn. rewrite S4. split; [done|]. by constructor. }
  destruct (handler t (log_call ev st1)) as [ops restart].
  destruct (run_ops mc ops (log_call ev st1)) as [st3|] eqn:E3; [|done]. cbn [mbind option_bind] in E.
  pose proof (run_ops_done mc ops _ _ st3 Hg2 E3) as Hod. pose proof (op_done_ran P _ _ Hod) as R3.
  destruct Hod as [[Q3 Hg3] S3 K3 _].
  assert (tm (log_call ev st1) !! t = Some (set_state HRTIMER_STATE_CALLBACK x)) as Hx2 by (cbn; rewrite T1; apply lookup_insert_eq).
  destruct (kept_get t _ _ _ (K3 t) Hx2) as (x3 & Hx3 & Hrun3). rewrite Hx3 in E. cbn [mbind option_bind] in E.
  apply (ran_trans P _ _ _ R2), (ran_trans P _ _ _ R3). clear R2 R3.
  destruct (if restart then _ else Some st3) as [st4|] eqn:E4; [|done]. cbn [mbind option_bind] in E.
  destruct (requeue_ran P restart t k st3 Q3 x3 st4 Hg3 Hx3) as (Q4 & Hg4 & R4 & [x4 Hx4]); [|exact E4|].
  { intros Hr. destruct (Hrun3 Hr) as [_ Hb]. by rewrite Hb. }
  rewrite Hx4 in E. injection E as <-. apply (ran_trans P _ _ _ R4).
  apply (ran_steady P st4 _ Q4); [|apply quiet_steady, set_timer_quiet|done].
  apply restate_good; [done|done|]. by apply (queued_clear x4 1).
Qed.

(** The interrupt calls no timer before its soft expiry. *)
Definition soft_due (e : call) : Prop := call_softexpires e <= call_now e.

(** The tick calls no timer before its expiry. *)
Definition hard_due (e : call) : Prop := call_expires e < call_now e.

Definition on_time (e : call) : Prop := soft_due e \/ hard_due e.

Lemma run_base_ran k basenow fuel : forall next st Q next' st',
  good st Q -> run_base mc handler fuel k basenow next st = Some (next', st') -> ran on_time st st'.
Proof.
  induction fuel as [|fuel IH]; intros next st Q next' st' Hg E; [done|]. cbn [run_base] in E.
  destruct (clocks st !! k) as [b|] eqn:Hb; [|done]. cbn [mbind option_bind] in E. destruct (first b) as [t|] eqn:Hf.
  2: { injection E as _ <-. by apply (ran_steady on_time st st Q). }
  destruct (first_timer st Q k b t Hg Hb Hf) as (x & Hx & Hk & Hcpu). rewrite Hx in E. cbn [mbind option_bind] in E.
  destruct (Z.ltb_spec basenow (softexpires x)); [injection E as _ <-; by apply (ran_steady on_time st st Q)|].
  destruct (run_hrtimer mc handler k.1 t basenow st) as [st1|] eqn:E1; [|done]. cbn [mbind option_bind] in E.
  assert (ran on_time st st1) as R1 by (apply (run_hrtimer_ran on_time k.1 t basenow st Q st1 x k Hg Hcpu Hx Hk); [by left|done]).
  destruct (rn_good _ _ _ R1) as [Q1 Hg1]. apply (ran_trans _ _ _ _ R1). by apply (IH next st1 Q1 next').
Qed.

Lemma run_queue_ran k fuel : forall st Q st', good st Q -> run_queue mc handler fuel k st = Some st' -> ran on_time st st'.
Proof.
  induction fuel as [|fuel IH]; intros st Q st' Hg E; [done|]. cbn [run_queue] in E.
  destruct (clocks st !! k) as [b|] eqn:Hb; [|done]. cbn [mbind option_bind] in E. destruct (first b) as [t|] eqn:Hf.
  2: { injection E as <-. by apply (ran_steady on_time st st Q). }
  destruct (first_timer st Q k b t Hg Hb Hf) as (x & Hx & Hk & Hcpu). rewrite Hx in E. cbn [mbind option_bind] in E.
  destruct (Z.leb_spec (softirq_time b) (expires x)); [injection E as <-; by apply (ran_steady on_time st st Q)|].
  destruct (run_hrtimer mc handler k.1 t (softirq_time b) st) as [st1|] eqn:E1; [|done]. cbn [mbind option_bind] in E.
  assert (ran on_time st st1) as R1 by (apply (run_hrtimer_ran on_time k.1 t _ st Q st1 x k Hg Hcpu Hx Hk) in E1; [done|by right]).
  destruct (rn_good _ _ _ R1) as [Q1 Hg1]. apply (ran_trans _ _ _ _ R1). by apply (IH st1 Q1).
Qed.
End Run.

(** ** All steps *)

(** Other CPU bases and devices, the same timers. *)
Lemma good_outer st st' Q : good st Q -> tm st' = tm st -> heap st' = heap st -> clocks st' = clocks st ->
  (forall c, is_Some (cpus st' !! c) <-> is_Some (cpus st !! c)) -> (forall c, is_Some (devs st' !! c) <-> is_Some (devs st !! c)) -> good st' Q.
Proof.
  intros [[H1 H2 H3 H4 H5] [C1 C2 C3 C4 C5]] Ht Hh Hc Hp Hd.
  split; constructor; unfold tree_of; rewrite ?Ht, ?Hh, ?Hc; try done; intros c; [intros i; by rewrite Hp|rewrite Hp, Hd; apply C2].
Qed.

(** The part of the effect that all steps have. *)
Record went (st st' : hrtimers) : Prop := {
  wn_good : exists Q, good st' Q;
  wn_calls : exists l, calls st' = calls st ++ l /\ Forall on_time l;
  wn_cpus c : is_Some (cpus st' !! c) <-> is_Some (cpus st !! c)
}.

Lemma went_trans st1 st2 st3 : went st1 st2 -> went st2 st3 -> went st1 st3.
Proof.
  intros [A1 (l1 & A2 & A2') A3] [B1 (l2 & B2 & B2') B3]. split; [done| |intros c; by rewrite B3, A3].
  exists (l1 ++ l2). split; [by rewrite B2, A2, app_assoc|by apply Forall_app].
Qed.

Lemma ran_went st st' : ran on_time st st' -> went st st'.
Proof.
  intros [A1 A2 A3 A4 A5 A6]. split; [done|done|]. intros c. specialize (A3 c).
  destruct (cpus st' !! c), (cpus st !! c); try done; split; intros [? ?]; done.
Qed.

Lemma went_outer st st' Q : good st Q -> tm st' = tm st -> heap st' = heap st -> clocks st' = clocks st -> calls st' = calls st ->
  (forall c, is_Some (cpus st' !! c) <-> is_Some (cpus st !! c)) -> (forall c, is_Some (devs st' !! c) <-> is_Some (devs st !! c)) -> went st st'.
Proof.
  intros Hg Ht Hh Hc Hl Hp Hd. split; [exists Q; by apply (good_outer st)| |done]. exists []. by rewrite Hl, app_nil_r.
Qed.

Lemma insert_dom {A} (m : gmap Z A) c v : is_Some (m !! c) -> forall i, is_Some (<[c := v]> m !! i) <-> is_Some (m !! i).
Proof. intros Hc i. rewrite lookup_insert_is_Some'. split; [intros [<-|?]; done|by right]. Qed.

Lemma good_firsts st Q c : good st Q -> firsts_known c st.
Proof. intros Hg i b t Hb Hf. destruct (first_timer st Q (c, i) b t Hg Hb Hf) as (x & -> & _). done. Qed.

Section Steps.
Context (mc : machine) (handler : ptr -> hrtimers -> list hrtimer_op * bool).

Lemma set_cpu_went st Q c b : good st Q -> is_Some (cpus st !! c) -> went st (set_cpu c b st).
Proof. intros Hg Hc. apply (went_outer st _ Q); try done. by apply insert_dom. Qed.

Lemma program_went st Q c e force ret st' : good st Q -> tick_program_event mc c e force st = Some (ret, st') -> went st st'.
Proof.
  intros Hg E. assert (is_Some (devs st !! c)) as Hd.
  { destruct (devs st !! c) eqn:Hd; [done|]. unfold tick_program_event in E. by rewrite Hd in E. }
  destruct (program_event_total mc c e force st Hd) as (ret' & d & k & E'). rewrite E' in E. injection E as _ <-.
  apply (went_outer st _ Q); try done. by apply insert_dom.
Qed.

Lemma run_cpu_went fuel c now st Q next st' : good st Q -> run_cpu mc handler fuel c now st = Some (next, st') -> went st st'.
Proof.
  intros Hg E. unfold run_cpu in E. destruct (cpus st !! c) as [cb|] eqn:Hcb; [|done]. cbn [mbind option_bind] in E.
  assert (went st (set_cpu c (set_expires_next KTIME_MAX cb) st)) as W0 by (apply (set_cpu_went st Q); [done|by rewrite Hcb]).
  apply (went_trans _ _ _ W0). destruct (wn_good _ _ W0) as [Q0 Hg0]. set (st0 := set_cpu c _ st) in *.
  unfold run_clock in E. destruct (clocks st0 !! (c, CLOCK_REALTIME)) as [b0|]; [|done]. cbn [mbind option_bind] in E.
  destruct (run_base mc handler fuel (c, CLOCK_REALTIME) _ _ st0) as [[n1 st1]|] eqn:E1; [|done]. cbn [mbind option_bind] in E.
  pose proof (run_base_ran mc handler _ _ _ _ _ Q0 _ _ Hg0 E1) as W1%ran_went. apply (went_trans _ _ _ W1). destruct (wn_good _ _ W1) as [Q1 Hg1].
  destruct (clocks st1 !! (c, CLOCK_MONOTONIC)) as [b1|]; [|done]. cbn [mbind option_bind] in E.
  destruct (run_base mc handler fuel (c, CLOCK_MONOTONIC) _ _ st1) as [[n2 st2]|] eqn:E2; [|done]. cbn [mbind option_bind] in E.
  pose proof (run_base_ran mc handler _ _ _ _ _ Q1 _ _ Hg1 E2) as W2%ran_went. apply (went_trans _ _ _ W2). destruct (wn_good _ _ W2) as [Q2 Hg2].
  destruct (cpus st2 !! c) as [cb2|] eqn:Hcb2; [|done]. cbn [mbind option_bind] in E. injection E as _ <-.
  apply (set_cpu_went st2 Q2); [done|by rewrite Hcb2].
Qed.

Lemma interrupt_loop_went more : forall fuel c now entry st Q st',
  good st Q -> interrupt_loop mc handler more fuel c now entry st = Some st' -> went st st'.
Proof.
  induction more as [|more IH]; intros fuel c now entry st Q st' Hg E; cbn [interrupt_loop] in E.
  all: destruct (run_cpu mc handler fuel c now st) as [[next st1]|] eqn:E1; [|done]; cbn [mbind option_bind] in E.
  all: pose proof (run_cpu_went _ _ _ _ _ _ _ Hg E1) as W1; apply (went_trans _ _ _ W1); destruct (wn_good _ _ W1) as [Q1 Hg1].
  all: destruct (if next =? KTIME_MAX then _ else _) as [[ret st2]|] eqn:E2; [|done]; cbn [mbind option_bind] in E.
  all: assert (went st1 st2) as W2 by (destruct (next =? KTIME_MAX); [injection E2 as _ <-; by apply (went_outer st1 _ Q1)|by apply (program_went st1 Q1 c next false ret)]).
  all: apply (went_trans _ _ _ W2); destruct (wn_good _ _ W2) as [Q2 Hg2].
  all: destruct (cpus st2 !! c) as [cb|] eqn:Hcb; [|done]; cbn [mbind option_bind] in E.
  all: destruct (ret =? 0); [injection E as <-; apply (set_cpu_went st2 Q2); [done|by rewrite Hcb]|].
  all: set (st3 := set_reads _ (set_cpu c (count_retry cb) st2)) in E.
  all: assert (went st2 st3) as W3 by (apply (went_outer st2 _ Q2); try done; apply insert_dom; by rewrite Hcb).
  all: apply (went_trans _ _ _ W3); destruct (wn_good _ _ W3) as [Q3 Hg3].
  - unfold put_off in E. destruct (cpus st3 !! c) as [cb3|] eqn:Hcb3; [|done]. cbn [mbind option_bind] in E.
    set (st4 := set_cpu c _ st3) in E. assert (went st3 st4) as W4 by (apply (set_cpu_went st3 Q3); [done|by rewrite Hcb3]).
    apply (went_trans _ _ _ W4). destruct (wn_good _ _ W4) as [Q4 Hg4].
    destruct (tick_program_event mc c _ true st4) as [[r st5]|] eqn:E5; [|done]. injection E as <-. by eapply (program_went st4 Q4).
  - exact (IH _ _ _ _ _ Q3 _ Hg3 E).
Qed.

Lemma interrupt_went fuel c st Q st' : good st Q -> hrtimer_interrupt mc handler fuel c st = Some st' -> went st st'.
Proof.
  intros Hg E. unfold hrtimer_interrupt in E. destruct (cpus st !! c) as [cb|] eqn:Hcb; [|done]. cbn [mbind option_bind] in E.
  destruct (devs st !! c) as [d|] eqn:Hd; [|done]. cbn [mbind option_bind] in E. destruct (hres_active cb); [|done]. cbn [negb] in E.
  set (st1 := set_dev c _ _ _) in E. assert (went st st1) as W1.
  { apply (went_outer st _ Q); try done; apply insert_dom; [by rewrite Hcb|by rewrite Hd]. }
  apply (went_trans _ _ _ W1). destruct (wn_good _ _ W1) as [Q1 Hg1]. by apply (interrupt_loop_went _ _ _ _ _ _ Q1 _ Hg1 E).
Qed.

Lemma peek_went fuel c st Q st' : good st Q -> hrtimer_peek_ahead_timers mc handler fuel c st = Some st' -> went st st'.
Proof.
  intros Hg E. unfold hrtimer_peek_ahead_timers in E. destruct (cpus st !! c) as [cb|]; [|done]. cbn [mbind option_bind] in E.
  destruct (hres_active cb); cbn [negb] in E; [|injection E as <-; by apply (went_outer st _ Q)].
  destruct (decide _); [injection E as <-; by apply (went_outer st _ Q)|by apply (interrupt_went fuel c st Q)].
Qed.

(** A clock base gets other parameters. *)
Lemma set_params_went st Q k b b' : good st Q -> clocks st !! k = Some b -> active b' = active b -> first b' = first b ->
  1 <= resolution b' <= KTIME_MAX /\ 0 <= offset b' <= KTIME_MAX -> went st (set_clock k b' st).
Proof.
  intros [[H1 H2 H3 H4 H5] [C1 C2 C3 C4 C5]] Hb Ha Hf Hp.
  assert (forall j, is_Some (<[k := b']> (clocks st) !! j) <-> is_Some (clocks st !! j)) as Hdom.
  { intros j. rewrite lookup_insert_is_Some'. split; [intros [<-|?]; [by rewrite Hb|done]|by right]. }
  split; [|exists []; by rewrite app_nil_r|done]. exists Q. split; constructor; cbn; try done.
  - intros j bj. destruct (decide (j = k)) as [->|]; [|rewrite lookup_insert_ne by done; apply H1]. rewrite lookup_insert_eq. intros [= <-].
    destruct (H1 k b Hb) as (E & HE & HT & HF). exists E. unfold tree_of in *. cbn. by rewrite Ha, Hf.
  - intros j E HE. apply Hdom. by apply (H2 j E).
  - intros c i. rewrite Hdom. apply C1.
  - intros t x Hx. destruct (C3 t x Hx) as (j & Hj & Hjc). exists j. by rewrite Hdom.
  - intros j bj. destruct (decide (j = k)) as [->|]; [|rewrite lookup_insert_ne by done; apply C4]. rewrite lookup_insert_eq. by intros [= <-].
Qed.

Lemma softirq_time_went c xtim tomono st Q st' : good st Q -> hrtimer_get_softirq_time c xtim tomono st = Some st' -> went st st'.
Proof.
  intros Hg E. unfold hrtimer_get_softirq_time in E. destruct (clocks st !! (c, CLOCK_REALTIME)) as [r|] eqn:Hr; [|done].
  cbn [mbind option_bind] in E. destruct (clocks st !! (c, CLOCK_MONOTONIC)) as [m|] eqn:Hm; [|done]. cbn [mbind option_bind] in E. injection E as <-.
  assert (went st (set_clock (c, CLOCK_REALTIME) (set_softirq_time xtim r) st)) as W1.
  { apply (set_params_went st Q _ r); try done. apply (cf_params _ (gd_config _ _ Hg) _ _ Hr). }
  apply (went_trans _ _ _ W1). destruct (wn_good _ _ W1) as [Q1 Hg1]. apply (set_params_went _ Q1 _ m); try done.
  - cbn. by rewrite lookup_insert_ne.
  - apply (cf_params _ (gd_config _ _ Hg) _ _ Hm).
Qed.

Lemma run_index_went fuel c xtim tomono i gettime st Q g st' :
  good st Q -> run_index mc handler fuel c xtim tomono i gettime st = Some (g, st') -> went st st'.
Proof.
  intros Hg E. unfold run_index in E. destruct (clocks st !! (c, i)) as [b|] eqn:Hb; [|done]. cbn [mbind option_bind] in E.
  destruct (first b); [|injection E as _ <-; by apply (went_outer st _ Q)].
  destruct (if gettime then _ else _) as [st1|] eqn:E1; [|done]. cbn [mbind option_bind] in E.
  assert (went st st1) as W1 by (destruct gettime; [by apply (softirq_time_went c xtim tomono st Q)|injection E1 as <-; by apply (went_outer st _ Q)]).
  apply (went_trans _ _ _ W1). destruct (wn_good _ _ W1) as [Q1 Hg1].
  destruct (run_queue mc handler fuel (c, i) st1) as [st2|] eqn:E2; [|done]. injection E as _ <-.
  by apply ran_went, (run_queue_ran mc handler _ _ _ Q1 _ Hg1 E2).
Qed.

Lemma run_queues_went fuel c xtim tomono st Q st' : good st Q -> hrtimer_run_queues mc handler fuel c xtim tomono st = Some st' -> went st st'.
Proof.
  intros Hg E. unfold hrtimer_run_queues in E. destruct (cpus st !! c) as [cb|]; [|done]. cbn [mbind option_bind] in E.
  destruct (hres_active cb); [injection E as <-; by apply (went_outer st _ Q)|].
  destruct (run_index mc handler fuel c xtim tomono CLOCK_REALTIME true st) as [[g st1]|] eqn:E1; [|done]. cbn [mbind option_bind] in E.
  pose proof (run_index_went _ _ _ _ _ _ _ Q _ _ Hg E1) as W1. apply (went_trans _ _ _ W1). destruct (wn_good _ _ W1) as [Q1 Hg1].
  destruct (run_index mc handler fuel c xtim tomono CLOCK_MONOTONIC g st1) as [[g2 st2]|] eqn:E2; [|done]. injection E as <-.
  exact (run_index_went _ _ _ _ _ _ _ Q1 _ _ Hg1 E2).
Qed.

Lemma force_went c skip st Q st' : good st Q -> hrtimer_force_reprogram mc c skip st = Some st' -> went st st'.
Proof.
  intros Hg E. assert (is_Some (cpus st !! c)) as Hcpu.
  { destruct (cpus st !! c) eqn:Hcb; [done|]. exfalso. unfold hrtimer_force_reprogram in E.
    destruct (earlier _ st KTIME_MAX) as [n|]; [|done]. cbn [mbind option_bind] in E. destruct (earlier _ st n); [|done]. cbn [mbind option_bind] in E.
    by rewrite Hcb in E. }
  pose proof (gd_config _ _ Hg) as Hc. destruct (next_expiry_spec c st Hc Hcpu (good_firsts st Q c Hg)) as (n & En & _).
  destruct (force_reprogram_spec mc c skip st n En Hcpu (cf_dev _ Hc c Hcpu)) as (st1 & E1 & [R1 R2 R3 R4 R5 (cb & Hcb & R6) R7]).
  rewrite E1 in E. injection E as <-. apply (went_outer st _ Q); try done. rewrite R6. by apply insert_dom.
Qed.

Lemma retrigger_went c off st Q st' : good st Q -> 0 <= off <= KTIME_MAX -> retrigger_next_event mc c off st = Some st' -> went st st'.
Proof.
  intros Hg Ho E. unfold retrigger_next_event in E. destruct (cpus st !! c) as [cb|]; [|done]. cbn [mbind option_bind] in E.
  destruct (hres_active cb); cbn [negb] in E; [|injection E as <-; by apply (went_outer st _ Q)].
  destruct (clocks st !! (c, CLOCK_REALTIME)) as [b|] eqn:Hb; [|done]. cbn [mbind option_bind] in E.
  assert (went st (set_clock (c, CLOCK_REALTIME) (set_offset off b) st)) as W1.
  { apply (set_params_went st Q _ b); try done. split; [|done]. apply (cf_params _ (gd_config _ _ Hg) _ _ Hb). }
  apply (went_trans _ _ _ W1). destruct (wn_good _ _ W1) as [Q1 Hg1]. by apply (force_went c false _ Q1).
Qed.
End Steps.

(** ** CPUs that go *)

Lemma rbtree_first st E : rbtree st E -> rb_first st = Some (head E).
Proof. intros (t & Hh & _ & <-). by apply (first_spec st t). Qed.

(** A timer on its new clock base. *)
Definition moved_to (new : Z * Z) (x : hrtimer) : hrtimer := set_state HRTIMER_STATE_ENQUEUED (set_hbase (Some new) x).

Section Migrate.
Context (mc : machine).

(** The first timer of the dead CPU goes to the other one. *)
Lemma hr_migrate_one this_cpu old new t E st Q :
  good st Q -> is_Some (cpus st !! this_cpu) -> old <> new -> is_Some (clocks st !! new) -> Q !! old = Some (t :: E) ->
  (forall x, tm st !! t = Some x -> hrtimer_callback_running x = false) ->
  exists st' Q' x, tm st !! t = Some x /\
    (forall K : hrtimers -> option hrtimers,
    (st ← remove_hrtimer_raw mc this_cpu t old HRTIMER_STATE_MIGRATE false st;
     x ← tm st !! t;
     '(_, st) ← enqueue_hrtimer t new (set_timer t (set_hbase (Some new) x) st);
     x ← tm st !! t;
     K (set_timer t (set_state (Z.ldiff (state x) HRTIMER_STATE_MIGRATE) x) st)) = K st') /\
    good st' Q' /\ Q' !! old = Some E /\ tm st' = <[t := moved_to new x]> (tm st) /\ steady st st' /\ raised st' = raised st /\ cpus st' = cpus st.
Proof.
  intros [HQ Hc] Hcpu Hne Hnew HE Hrun. destruct (qs_in _ _ HQ t old _ HE) as (x & Hx & Hbase & Hq & He); [set_solver|].
  destruct (remove_raw_spec mc st Q this_cpu t x old HRTIMER_STATE_MIGRATE false HQ Hc Hx Hbase Hcpu eq_refl)
    as (st1 & E1 & HQ1 & Hc1 & T1 & S1 & R1 & _ & C1).
  assert (tm st1 !! t = Some (set_state HRTIMER_STATE_MIGRATE x)) as Hx1 by (rewrite T1; apply lookup_insert_eq).
  set (z := set_hbase (Some new) (set_state HRTIMER_STATE_MIGRATE x)). set (st2 := set_timer t z st1).
  assert (is_Some (clocks st1 !! new)) as Hnew1 by by apply (same_clock_some _ _ _ (sd_clocks _ _ S1)).
  assert (good st2 (alter (list_del t) old Q)) as [HQ2 Hc2].
  { apply (retime_good st1 _ t _ z new st2 (Build_good _ _ HQ1 Hc1) Hx1); done. }
  destruct (enqueue_spec st2 _ t z new HQ2) as (F & st3 & HF & E3 & HQ3 & T3 & S3); [apply lookup_insert_eq|done|done|done|done|].
  cbn zeta in E3, HQ3. set (y := set_state (Z.lor (state z) HRTIMER_STATE_ENQUEUED) z) in *.
  assert (tm st3 !! t = Some y) as Hx3 by (rewrite T3; apply lookup_insert_eq).
  eexists _, _, x. split; [done|].
  split; [intros K; rewrite (bind_eq _ _ _ E1); cbn beta; rewrite (bind_eq _ _ _ Hx1); cbn beta; rewrite (bind_eq _ _ _ E3); cbn beta iota;
          by rewrite (bind_eq _ _ _ Hx3)|].
  split; [|split; [|split; [|split; [|split]]]].
  - apply restate_good; [|exact Hx3|exact (queued_clear y 2 eq_refl)]. split; [exact HQ3|].
    apply (config_timer st2 _ t y); [done|by apply quiet_steady|done|by exists new|done].
  - rewrite lookup_insert_ne by done. rewrite lookup_alter_eq, HE. cbn [fmap option_fmap option_map]. f_equal. apply del_head.
    destruct (qs_clock _ _ HQ old _ HE) as [b Hb]. destruct (queue_of st Q HQ old b Hb) as (E' & HE' & _ & _ & _ & Hnd). congruence.
  - cbn. rewrite T3. cbn. rewrite T1, !insert_insert_eq. done.
  - transitivity st1; [done|]. transitivity st3; [|apply quiet_steady, set_timer_quiet]. transitivity st2; [apply quiet_steady, set_timer_quiet|by apply quiet_steady].
  - cbn. rewrite (qt_raised _ _ S3). exact R1.
  - cbn. rewrite (qt_cpus _ _ S3). by apply C1.
Qed.

Lemma hr_migrate_spec this_cpu old new E : forall fuel st Q,
  good st Q -> is_Some (cpus st !! this_cpu) -> old <> new -> is_Some (clocks st !! new) -> Q !! old = Some E ->
  (forall t x, t ∈ E -> tm st !! t = Some x -> hrtimer_callback_running x = false) -> (length E < fuel)%nat ->
  exists st' Q', migrate_hrtimer_list mc fuel this_cpu old new st = Some st' /\ good st' Q' /\ Q' !! old = Some [] /\ steady st st' /\
    raised st' = raised st /\ forall t, tm st' !! t = (if decide (t ∈ E) then moved_to new else id) <$> tm st !! t.
Proof.
  induction E as [|t E IH]; intros fuel st Q Hg Hcpu Hne Hnew HE Hrun Hf; (destruct fuel as [|fuel]; [cbn in Hf; lia|]); cbn [migrate_hrtimer_list].
  all: destruct (qs_clock _ _ (gd_queues _ _ Hg) old _ HE) as [b Hb]; rewrite Hb; cbn [mbind option_bind].
  all: destruct (queue_of st Q (gd_queues _ _ Hg) old b Hb) as (E' & HE' & Htree & _ & _ & Hnd); rewrite HE in HE'; injection HE' as <-.
  all: fold (tree_of st b); rewrite (rbtree_first _ _ Htree); cbn [mbind option_bind head].
  - exists st, Q. split; [done|]. split; [done|]. split; [done|]. split; [done|]. split; [done|]. intros q. rewrite decide_False by set_solver. by destruct (tm st !! q).
  - destruct (hr_migrate_one this_cpu old new t E st Q Hg Hcpu Hne Hnew HE) as (st1 & Q1 & x & Hx & E1 & Hg1 & HE1 & T1 & S1 & R1 & _); [intros x; apply Hrun; set_solver|].
    rewrite Hx. cbn [mbind option_bind]. rewrite (Hrun t x) by set_solver.
    destruct (IH fuel st1 Q1 Hg1) as (st2 & Q2 & E2 & Hg2 & HE2 & S2 & R2 & T2); try done; [by apply (steady_cpu st st1)|by apply (same_clock_some _ _ _ (sd_clocks _ _ S1))| |cbn in Hf; lia|].
    { intros q y Hq. rewrite T1, lookup_insert_ne; [apply Hrun; set_solver|]. intros <-. apply NoDup_cons in Hnd as [Hn _]. done. }
    exists st2, Q2. split; [|split; [done|split; [done|split; [by etransitivity|split; [by rewrite R2|]]]]].
    + rewrite E1. exact E2.
    + intros q. rewrite T2, T1. apply NoDup_cons in Hnd as [Hn _]. destruct (decide (q = t)) as [->|Hqt].
      * rewrite lookup_insert_eq, Hx, decide_False, decide_True by set_solver. done.
      * rewrite lookup_insert_ne by done. assert (q ∈ E <-> q ∈ t :: E) as Hiff by set_solver. by destruct (decide (q ∈ E)), (decide (q ∈ t :: E)); try tauto.
Qed.
End Migrate.

Section AllSteps.
Context (mc : machine) (handler : ptr -> hrtimers -> list hrtimer_op * bool).

Lemma op_done_went st st' : op_done st st' -> went st st'.
Proof. intros H. apply ran_went. by apply op_done_ran. Qed.

Lemma migrate_went this_cpu old new : forall fuel st Q st',
  good st Q -> is_Some (cpus st !! this_cpu) -> old <> new -> is_Some (clocks st !! new) ->
  migrate_hrtimer_list mc fuel this_cpu old new st = Some st' -> went st st' /\ steady st st'.
Proof.
  induction fuel as [|fuel IH]; intros st Q st' Hg Hcpu Hne Hnew E; [done|]. cbn [migrate_hrtimer_list] in E.
  destruct (clocks st !! old) as [b|] eqn:Hb; [|done]. cbn [mbind option_bind] in E.
  destruct (queue_of st Q (gd_queues _ _ Hg) old b Hb) as (F & HF & Htree & _ & _ & Hnd). fold (tree_of st b) in E.
  rewrite (rbtree_first _ _ Htree) in E. cbn [mbind option_bind] in E. destruct F as [|t F]; cbn [head] in E.
  { injection E as <-. split; [by apply (went_outer st _ Q)|done]. }
  destruct (tm st !! t) as [x|] eqn:Hx; [|done]. cbn [mbind option_bind] in E. destruct (hrtimer_callback_running x) eqn:Hr; [done|].
  destruct (hr_migrate_one mc this_cpu old new t F st Q Hg Hcpu Hne Hnew HF) as (st1 & Q1 & y & Hy & E1 & Hg1 & HE1 & T1 & S1 & R1 & _);
    [intros y Hy; congruence|]. rewrite E1 in E.
  assert (went st st1) as W1 by (apply ran_went, (ran_steady _ st st1 Q1 Hg1 S1); by rewrite R1).
  destruct (IH st1 Q1 st' Hg1) as [W2 S2]; [by apply (steady_cpu st st1)|done|by apply (same_clock_some _ _ _ (sd_clocks _ _ S1))|done|].
  split; [by apply (went_trans _ _ _ W1)|by etransitivity].
Qed.

Lemma migrate_hrtimers_went fuel c scpu tick st Q st' :
  good st Q -> is_Some (cpus st !! c) -> migrate_hrtimers mc handler fuel c scpu tick st = Some st' -> went st st'.
Proof.
  intros Hg Hcpu E. unfold migrate_hrtimers in E. destruct (Z.eqb_spec scpu c) as [|Hne]; [done|].
  destruct (tick_cancel_sched_timer mc c tick st) as [st0|] eqn:E0; [|done]. cbn [mbind option_bind] in E.
  assert (op_done st st0) as D0.
  { unfold tick_cancel_sched_timer in E0. destruct (default false _).
    - unfold hrtimer_cancel in E0. destruct (hrtimer_try_to_cancel mc c tick st) as [[ret st2]|] eqn:E2; [|done]. cbn [mbind option_bind] in E0.
      destruct (ret >=? 0); [|done]. injection E0 as <-. by apply (cancel_done mc c tick st Q st2 ret).
    - injection E0 as <-. split; [by exists Q|done|intros q; apply kept_refl|done]. }
  apply (went_trans _ _ _ (op_done_went _ _ D0)). destruct D0 as [[Q0 Hg0] S0 _ _]. clear E0 Hg.
  assert (forall st i, steady st0 st -> i = CLOCK_REALTIME \/ i = CLOCK_MONOTONIC -> is_Some (clocks st !! (c, i))) as Hclk.
  { intros sti i Si Hi. apply (same_clock_some _ _ _ (sd_clocks _ _ Si)). apply (cf_clock _ (gd_config _ _ Hg0)). split; [|done]. by apply (steady_cpu st st0). }
  destruct (migrate_hrtimer_list mc _ c (scpu, CLOCK_REALTIME) _ st0) as [st1|] eqn:E1; [|done]. cbn [mbind option_bind] in E.
  destruct (fun A B C => migrate_went c _ _ _ st0 Q0 st1 Hg0 A B C E1) as [W1 S1]; [by apply (steady_cpu st st0)|congruence|apply Hclk; [done|by left]|].
  apply (went_trans _ _ _ W1). destruct (wn_good _ _ W1) as [Q1 Hg1].
  destruct (migrate_hrtimer_list mc _ c (scpu, CLOCK_MONOTONIC) _ st1) as [st2|] eqn:E2; [|done]. cbn [mbind option_bind] in E.
  destruct (fun A B C => migrate_went c _ _ _ st1 Q1 st2 Hg1 A B C E2) as [W2 S2]; [apply (steady_cpu st0 st1), (steady_cpu st st0); done|congruence|apply Hclk; [done|by right]|].
  apply (went_trans _ _ _ W2). destruct (wn_good _ _ W2) as [Q2 Hg2]. by apply (peek_went mc handler fuel c st2 Q2).
Qed.

Lemma set_reads_went st Q k : good st Q -> went st (set_reads k st).
Proof. intros Hg. by apply (went_outer st _ Q). Qed.

Lemma start_tick_went e t fuel : forall now st Q st',
  good st Q -> is_Some (cpus st !! smp_processor_id e) -> start_tick mc fuel e t now st = Some st' -> went st st'.
Proof.
  induction fuel as [|fuel IH]; intros now st Q st' Hg Hcpu E; [done|]. cbn [start_tick] in E.
  destruct (run_op mc (OpForward t now TICK_PERIOD) st) as [st1|] eqn:E1; [|done]. cbn [mbind option_bind] in E.
  pose proof (op_done_went _ _ (run_op_done mc _ st Q st1 Hg E1)) as W1. apply (went_trans _ _ _ W1). destruct (wn_good _ _ W1) as [Q1 Hg1].
  destruct (hrtimer_start_expires mc e t HRTIMER_MODE_PINNED st1) as [[ret st2]|] eqn:E2; [|done]. cbn [mbind option_bind] in E.
  unfold hrtimer_start_expires in E2. destruct (tm st1 !! t) as [x|]; [|done]. cbn [mbind option_bind] in E2.
  assert (went st1 st2) as W2. { apply op_done_went. eapply (start_done mc e t); [exact Hg1|by apply (wn_cpus _ _ W1)|exact E2]. }
  apply (went_trans _ _ _ W2). destruct (wn_good _ _ W2) as [Q2 Hg2]. destruct (tm st2 !! t) as [y|]; [|done]. cbn [mbind option_bind] in E.
  destruct (hrtimer_active y); [injection E as <-; by apply (went_outer st2 _ Q2)|].
  pose proof (set_reads_went st2 Q2 (S (reads st2)) Hg2) as W3. apply (went_trans _ _ _ W3). destruct (wn_good _ _ W3) as [Q3 Hg3].
  apply (IH _ _ Q3 _ Hg3) in E; [done|]. by apply (wn_cpus _ _ W3), (wn_cpus _ _ W2), (wn_cpus _ _ W1).
Qed.

(** A timer that was started is active, so one round of the loop is enough: the
    answer does not depend on how many more are allowed. *)
Lemma start_active e t tim delta mode st Q ret st' :
  good st Q -> is_Some (cpus st !! smp_processor_id e) -> hrtimer_start_range_ns mc e t tim delta mode st = Some (ret, st') ->
  exists y, tm st' !! t = Some y /\ hrtimer_is_queued y = true.
Proof.
  intros Hg Hcpu E. destruct (tm st !! t) as [x|] eqn:Hx; [|unfold hrtimer_start_range_ns in E; by rewrite Hx in E].
  destruct (cf_base _ (gd_config _ _ Hg) t x Hx) as (k & Hk & _).
  destruct (start_spec mc e t tim delta mode st Q x k Hg Hx Hk Hcpu) as [[E' _]|(st1 & st3 & st2 & new & y & F & E' & Hss)]; [congruence|].
  rewrite E' in E. injection E as _ <-. destruct Hss as [_ _ _ _ (T3 & _) _ (_ & Hy2 & _) _ Hlast]. exists y. split; [|done].
  destruct (bool_decide _ && _); [destruct Hlast as [[-> _ _ _ _ _ _] _]|subst st2]; by rewrite T3, lookup_insert_eq.
Qed.

Lemma start_tick_round e t fuel now st Q :
  good st Q -> is_Some (cpus st !! smp_processor_id e) -> start_tick mc (S fuel) e t now st = start_tick mc 1 e t now st.
Proof.
  intros Hg Hcpu. cbn [start_tick]. destruct (run_op mc (OpForward t now TICK_PERIOD) st) as [st1|] eqn:E1; [|done]. cbn [mbind option_bind].
  pose proof (op_done_went _ _ (run_op_done mc _ st Q st1 Hg E1)) as W1. destruct (wn_good _ _ W1) as [Q1 Hg1].
  destruct (hrtimer_start_expires mc e t HRTIMER_MODE_PINNED st1) as [[ret st2]|] eqn:E2; [|done]. cbn [mbind option_bind].
  unfold hrtimer_start_expires in E2. destruct (tm st1 !! t) as [x|]; [|done]. cbn [mbind option_bind] in E2.
  assert (is_Some (cpus st1 !! smp_processor_id e)) as Hcpu1 by by apply (wn_cpus _ _ W1).
  destruct (start_active e t _ _ _ st1 Q1 ret st2 Hg1 Hcpu1 E2) as (y & -> & Hy). cbn [mbind option_bind].
  unfold hrtimer_active. destruct (Z.eqb_spec (state y) HRTIMER_STATE_INACTIVE) as [Hi|]; [|done].
  unfold hrtimer_is_queued in Hy. by rewrite Hi in Hy.
Qed.

(** The first expiry of the tick timer. *)
Lemma stagger_range c jiffy ncpus x : 0 <= jiffy <= 2 ^ 62 -> 1 <= ncpus -> 0 <= c < ncpus ->
  0 <= expires (hrtimer_add_expires_ns (u64 (Z.shiftr TICK_PERIOD 1 / ncpus * c)) (hrtimer_set_expires jiffy x)) <= KTIME_MAX.
Proof.
  intros Hj Hn Hc. change (Z.shiftr TICK_PERIOD 1) with 2000000.
  pose proof (Z.div_pos 2000000 ncpus ltac:(lia) ltac:(lia)). pose proof (Z.mul_div_le 2000000 ncpus ltac:(lia)).
  assert (0 <= 2000000 / ncpus * c <= 2000000) by nia. cbn. unfold ktime_add_ns, KTIME_MAX. rewrite u64_small by lia. rewrite s64_small; lia.
Qed.

Lemma setup_tick_went e t jiffy ncpus st Q st' :
  good st Q -> is_Some (cpus st !! smp_processor_id e) -> 0 <= jiffy <= 2 ^ 62 -> 1 <= ncpus -> 0 <= smp_processor_id e < ncpus ->
  tick_setup_sched_timer mc e t jiffy ncpus st = Some st' -> went st st'.
Proof.
  intros Hg Hcpu Hj Hn Hid E. unfold tick_setup_sched_timer in E.
  pose proof (set_reads_went st Q (S (reads st)) Hg) as W0. apply (went_trans _ _ _ W0). destruct (wn_good _ _ W0) as [Q0 Hg0].
  destruct (hrtimer_init (smp_processor_id e) t CLOCK_MONOTONIC HRTIMER_MODE_ABS (set_reads (S (reads st)) st)) as [st1|] eqn:E1; [|done]. cbn [mbind option_bind] in E.
  pose proof (op_done_went _ _ (init_done _ _ _ _ _ Q0 st1 Hg0 E1)) as W1. apply (went_trans _ _ _ W1). destruct (wn_good _ _ W1) as [Q1 Hg1].
  destruct (hrtimer_update _ t st1) as [st2|] eqn:E2; [|done]. cbn [mbind option_bind] in E.
  destruct (update_inv _ t st1 Q1 st2 Hg1 E2) as (Hg2 & S2 & K2 & R2 & C2); [done|intros x _; by apply stagger_range|].
  assert (went st1 st2) as W2 by (apply ran_went, (ran_steady _ st1 st2 Q1 Hg2 S2); by rewrite R2). apply (went_trans _ _ _ W2).
  apply (start_tick_went e t 1 _ st2 Q1 st' Hg2) in E; [done|]. by apply (wn_cpus _ _ W2), (wn_cpus _ _ W1), (wn_cpus _ _ W0).
Qed.

(** A CPU and its clocks get the high resolution. *)
Lemma hres_on_went st Q c cb r m :
  good st Q -> cpus st !! c = Some cb -> clocks st !! (c, CLOCK_REALTIME) = Some r -> clocks st !! (c, CLOCK_MONOTONIC) = Some m ->
  went st (set_clock (c, CLOCK_MONOTONIC) (set_resolution 1 m)
            (set_clock (c, CLOCK_REALTIME) (set_resolution 1 r) (set_cpu c (set_hres_active true cb) st))).
Proof.
  intros Hg Hcb Hr Hm. set (st0 := set_cpu c _ st). assert (went st st0) as W0 by (apply (set_cpu_went st Q); [done|by rewrite Hcb]).
  set (st1 := set_clock (c, CLOCK_REALTIME) (set_resolution 1 r) st0). destruct (wn_good _ _ W0) as [Q0 Hg0].
  assert (went st0 st1) as W1. { apply (set_params_went st0 Q0 _ r); try done. split; [done|]. by apply (cf_params _ (gd_config _ _ Hg) _ _ Hr). }
  destruct (wn_good _ _ W1) as [Q1 Hg1]. apply (went_trans _ _ _ W0), (went_trans _ _ _ W1).
  apply (set_params_went st1 Q1 _ m); try done; [cbn; by rewrite lookup_insert_ne|]. split; [done|]. by apply (cf_params _ (gd_config _ _ Hg) _ _ Hm).
Qed.

Lemma switch_to_hres_went e oneshot t jiffy ncpus off st Q ret st' :
  good st Q -> 0 <= jiffy <= 2 ^ 62 -> 1 <= ncpus -> 0 <= smp_processor_id e < ncpus -> 0 <= off <= KTIME_MAX ->
  hrtimer_switch_to_hres mc e oneshot t jiffy ncpus off st = Some (ret, st') -> went st st'.
Proof.
  intros Hg Hj Hn Hid Ho E. unfold hrtimer_switch_to_hres in E. set (c := smp_processor_id e) in *.
  destruct (cpus st !! c) as [cb|] eqn:Hcb; [|done]. cbn [mbind option_bind] in E.
  destruct (hres_active cb); [injection E as _ <-; by apply (went_outer st _ Q)|]. destruct oneshot; cbn [negb] in E; [|injection E as _ <-; by apply (went_outer st _ Q)].
  destruct (clocks st !! (c, CLOCK_REALTIME)) as [r|] eqn:Hr; [|done]. cbn [mbind option_bind] in E.
  destruct (clocks st !! (c, CLOCK_MONOTONIC)) as [m|] eqn:Hm; [|done]. cbn [mbind option_bind] in E.
  set (st2 := set_clock _ _ _) in E. assert (went st st2) as W2 by by apply (hres_on_went st Q c cb r m).
  apply (went_trans _ _ _ W2). destruct (wn_good _ _ W2) as [Q2 Hg2].
  destruct (tick_setup_sched_timer mc e t jiffy ncpus st2) as [st3|] eqn:E3; [|done]. cbn [mbind option_bind] in E.
  assert (went st2 st3) as W3. { apply (setup_tick_went e t jiffy ncpus st2 Q2); try done. apply (wn_cpus _ _ W2). by exists cb. }
  apply (went_trans _ _ _ W3). destruct (wn_good _ _ W3) as [Q3 Hg3].
  destruct (retrigger_next_event mc c off st3) as [st4|] eqn:E4; [|done]. injection E as _ <-. by apply (retrigger_went mc c off st3 Q3).
Qed.
End AllSteps.
