(* ===== verification/HrtimerArm.v ===== *)
(** * HrtimerArm: the next event of a CPU

    In high resolution mode the event device of a CPU is programmed for a time
    not after the first of its timers. Every operation keeps this, as long as a
    timer is started on the CPU the caller runs on and a callback starts no timer
    of an earlier clock than its own. *)

From S2P Require Import Prelude Rbtree RbtreeInv RbtreeSpec Hrtimer HrtimerInv.

(** [next] is not after the event of any timer of the clock base [k]. *)
Definition covered_on (st : hrtimers) (k : Z * Z) (next : Z) : Prop :=
  forall t x b, tm st !! t = Some x -> hrtimer_is_queued x = true -> base x = Some k -> clocks st !! k = Some b -> next <= adjusted x b.

Definition covered (st : hrtimers) (c next : Z) : Prop := forall i, covered_on st (c, i) next.

(** The event of a CPU comes in time: it is not after any of its timers, or the
    softirq will look at them, or the last interrupt asked for a pause. *)
Definition armed (st : hrtimers) (c : Z) : Prop :=
  forall cb, cpus st !! c = Some cb -> hres_active cb = true ->
    hang_detected cb = true \/ c ∈ raised st \/ covered st c (expires_next cb).

(** No callback of a timer of CPU [c] is running. *)
Definition idle_on (c : Z) (st : hrtimers) : Prop :=
  forall t x k, tm st !! t = Some x -> hrtimer_callback_running x = true -> base x = Some k -> k.1 <> c.

(** A started timer goes to the CPU of the caller. *)
Definition local_op (o : hrtimer_op) : bool :=
  match o with
  | OpStart e _ _ _ mode => hrtimer_get_target e (has mode HRTIMER_MODE_PINNED) =? smp_processor_id e
  | OpRestart e _ => hrtimer_get_target e (has HRTIMER_MODE_ABS HRTIMER_MODE_PINNED) =? smp_processor_id e
  | _ => true
  end.

(** The timer an operation starts, if it does, is not of clock [i]. *)
Definition spares (i : Z) (st : hrtimers) (o : hrtimer_op) : bool :=
  match o with
  | OpStart _ t _ _ _ | OpRestart _ t =>
      match x ← tm st !! t; base x with Some k => negb (k.2 =? i) | None => true end
  | _ => true
  end.

(** No callback is running. *)
Definition calm (st : hrtimers) : Prop := forall t x, tm st !! t = Some x -> hrtimer_callback_running x = false.

(** [P] holds of every operation when it is run. *)
Fixpoint all_ops (mc : machine) (P : hrtimers -> hrtimer_op -> bool) (l : list hrtimer_op) (st : hrtimers) : bool :=
  match l with
  | [] => true
  | o :: l => P st o && match run_op mc o st with Some st => all_ops mc P l st | None => true end
  end.

(** Callbacks start timers on their CPU; those of the monotonic clock, which
    runs last, start no timer of the wall clock. *)
Definition tame_op (k : Z * Z) (st : hrtimers) (o : hrtimer_op) : bool :=
  local_op o && (if k.2 =? CLOCK_MONOTONIC then spares CLOCK_REALTIME st o else true).

Definition tame (mc : machine) (handler : ptr -> hrtimers -> list hrtimer_op * bool) : Prop :=
  forall t st x k, tm st !! t = Some x -> base x = Some k -> all_ops mc (tame_op k) (fst (handler t st)) st = true.

Lemma adjusted_params x b b' : params b = params b' -> adjusted x b = adjusted x b'.
Proof. intros [= _ _ Ho]. unfold adjusted. by rewrite Ho. Qed.

Lemma same_clock_back st st' k b' : same_clocks st st' -> clocks st' !! k = Some b' -> exists b, clocks st !! k = Some b /\ params b' = params b.
Proof.
  intros [H] Hb. specialize (H k). rewrite Hb in H. destruct (clocks st !! k) as [b|]; [|done]. exists b. split; [done|]. cbn in H. congruence.
Qed.

Lemma covered_change st st' k next t y :
  covered_on st k next -> tm st' = <[t := y]> (tm st) -> same_clocks st st' ->
  (hrtimer_is_queued y = true -> base y = Some k -> forall b, clocks st' !! k = Some b -> next <= adjusted y b) -> covered_on st' k next.
Proof.
  intros Hc Ht Hs Hy q x b'. rewrite Ht. destruct (decide (q = t)) as [->|Hq].
  - rewrite lookup_insert_eq. intros [= <-] Hxq Hb Hcl. by apply Hy.
  - rewrite lookup_insert_ne by done. intros Hx Hxq Hb Hcl. destruct (same_clock_back _ _ _ _ Hs Hcl) as (b & Hb0 & Hp).
    rewrite (adjusted_params x b' b Hp). by apply (Hc q).
Qed.

Lemma covered_same st st' k next : covered_on st k next -> tm st' = tm st -> same_clocks st st' -> covered_on st' k next.
Proof.
  intros Hc Ht Hs q x b' Hx Hq Hb Hcl. rewrite Ht in Hx. destruct (same_clock_back _ _ _ _ Hs Hcl) as (b & Hb0 & Hp).
  rewrite (adjusted_params x b' b Hp). by apply (Hc q).
Qed.

Lemma covered_le st k a b : covered_on st k b -> a <= b -> covered_on st k a.
Proof. intros H Hab t x cb Hx Hq Hb Hc. etransitivity; [done|]. by apply (H t). Qed.

Lemma covers_covered st Q c next : good st Q -> covers c next st Q -> covered st c next.
Proof.
  intros [HQ Hc] H i t x b Hx Hq Hb Hcl. destruct (qs_out _ _ HQ t x Hx Hq) as (k & E & Hk & HE & Ht).
  rewrite Hb in Hk. injection Hk as <-. by apply (H i b E t x).
Qed.

(** A state with the same CPU base and at least the same softirqs. *)
Lemma armed_step st st' c :
  armed st c -> cpus st' !! c = cpus st !! c -> raised st ⊆ raised st' ->
  (forall next, covered st c next -> covered st' c next) -> armed st' c.
Proof.
  intros Ha Hc Hr Hcov cb Hcb Hres. rewrite Hc in Hcb. destruct (Ha cb Hcb Hres) as [?|[?|?]]; [by left|right; left; set_solver|right; right; auto].
Qed.

Section Armed.
Context (mc : machine).

(** *** Timers that leave *)

Lemma removed_armed st st1 Q Q1 c (k : Z * Z) t y :
  good st Q -> armed st c -> good st1 Q1 -> tm st1 = <[t := y]> (tm st) -> hrtimer_is_queued y = false -> steady st st1 -> raised st1 = raised st ->
  moved k.1 st st1 Q1 -> armed st1 c.
Proof.
  intros Hg Ha Hg1 T1 Hy S1 R1 M1. assert (forall next, covered st c next -> covered st1 c next) as Hcov.
  { intros next H i. apply (covered_change st st1 (c, i) next t y); [apply H|done|apply (sd_clocks _ _ S1)|congruence]. }
  destruct M1 as [M1|(next & cb & Hcb & M1 & Hcv)]; [apply (armed_step st); [done|by rewrite M1|by rewrite R1|done]|].
  destruct (decide (k.1 = c)) as [Hk|Hk].
  - intros cb' Hcb' Hres. rewrite M1, Hk, lookup_insert_eq in Hcb'. injection Hcb' as <-. right. right. cbn. rewrite Hk in Hcv. by apply (covers_covered st1 Q1).
  - apply (armed_step st); [done|by rewrite M1, lookup_insert_ne|by rewrite R1|done].
Qed.

(** *** Timers that come *)

Lemma order_head f q E t : by_expiry f (q :: E) -> t ∈ q :: E -> f q <= f t.
Proof. intros H Ht. inversion H as [|? ? _ Hall]; subst. apply elem_of_cons in Ht as [->|Ht]; [done|]. rewrite Forall_forall in Hall. auto. Qed.

(** A timer that is not the first one is not earlier than those covered. *)
Lemma behind_covered st Q t y k b E next :
  good st Q -> tm st !! t = Some y -> base y = Some k -> clocks st !! k = Some b -> Q !! k = Some E -> t ∈ E -> head E <> Some t ->
  (forall q x, q <> t -> tm st !! q = Some x -> hrtimer_is_queued x = true -> base x = Some k -> next <= adjusted x b) -> next <= adjusted y b.
Proof.
  intros [HQ Hc] Hy Hb Hcl HE Ht Hhd Hn. pose proof (qs_order _ _ HQ k E HE) as Ho. destruct E as [|q E]; [set_solver|].
  destruct (qs_in _ _ HQ q k _ HE) as (x & Hx & Hxb & Hxq & Hxe); [set_solver|].
  destruct (qs_in _ _ HQ t k _ HE Ht) as (y' & Hy' & _ & _ & Hye). assert (y' = y) as -> by congruence.
  etransitivity; [apply (Hn q x); try done; cbn in Hhd; congruence|]. apply adjusted_mono; [done|done|by apply (cf_params _ Hc k)|].
  pose proof (order_head _ _ _ _ Ho Ht) as H. by rewrite (exp_of_eq _ _ _ Hx), (exp_of_eq _ _ _ Hy) in H.
Qed.

(** Programming another CPU does not matter. *)
Lemma sooner_armed c' st st' c : armed st c -> sooner c' st st' -> c' <> c -> armed st' c.
Proof.
  intros Ha [A1 A2 A3 A4 A5 A6 A7] Hne. apply (armed_step st); [done| |destruct A6 as [->| ->]; set_solver|].
  - destruct A7 as [->|(cb & e & _ & -> & _)]; [done|by rewrite lookup_insert_ne].
  - intros next H i. apply (covered_same st); [apply H|done|]. constructor. by rewrite A3.
Qed.

(** A timer has been queued on CPU [c] and the device looked at. *)
Lemma arrived_armed st1 st3 st' c i t y E Q :
  armed st1 c -> good st3 Q -> tm st3 = <[t := y]> (tm st1) -> cpus st3 = cpus st1 -> raised st3 = raised st1 -> same_clocks st1 st3 ->
  base y = Some (c, i) -> Q !! (c, i) = Some E -> t ∈ E -> hrtimer_callback_running y = false ->
  (if bool_decide (head E = Some t)
   then sooner c st3 st' /\ forall b, clocks st3 !! (c, i) = Some b -> served c y b st' else st' = st3) -> armed st' c.
Proof.
  intros Ha Hg3 T3 C3 R3 S3 Hb HE Ht Hrun Hlast cb' Hcb' Hres'.
  destruct (cf_base _ (gd_config _ _ Hg3) t y) as (k & Hk & [b Hcl]); [by rewrite T3, lookup_insert_eq|]. rewrite Hb in Hk. injection Hk as <-.
  assert (forall next, covered st1 c next -> next <= adjusted y b -> covered st3 c next) as Hcov.
  { intros next H Hy j. apply (covered_change st1 st3 (c, j) next t y); [apply H|done|done|]. intros _ Hbj b' Hb'.
    assert (j = i) as -> by congruence. assert (b' = b) as -> by congruence. done. }
  case_bool_decide as Hhd.
  - destruct Hlast as [[A1 A2 A3 A4 A5 A6 A7] Hserved]. destruct (Hserved b Hcl cb' Hcb' Hres' Hrun) as [?|[?|Hle]]; [by left|by right; left|].
    assert (exists cb, cpus st1 !! c = Some cb /\ hres_active cb = true /\ hang_detected cb = hang_detected cb' /\ expires_next cb' <= expires_next cb)
      as (cb & Hcb & Hres & Hhang & Hen).
    { rewrite <- C3. destruct A7 as [A7|(cb & e & Hcb & A7 & He)]; [rewrite A7 in Hcb'; by exists cb'|].
      rewrite A7, lookup_insert_eq in Hcb'. injection Hcb' as <-. exists cb. cbn in *. split; [done|]. split; [done|]. split; [done|lia]. }
    destruct (Ha cb Hcb Hres) as [?|[?|Hc1]]; [left; congruence|right; left; rewrite <- R3 in *; destruct A6 as [->| ->]; set_solver|].
    right. right. intros j. apply (covered_same st3); [|done|constructor; by rewrite A3]. apply Hcov; [|done]. intros l. by apply (covered_le _ _ _ (expires_next cb)).
  - subst st'. rewrite C3 in Hcb'. destruct (Ha cb' Hcb' Hres') as [?|[?|Hc1]]; [by left|right; left; by rewrite R3|].
    right. right. apply Hcov; [done|]. apply (behind_covered st3 Q t y (c, i) b E); try done; [by rewrite T3, lookup_insert_eq|].
    intros q x Hqt Hx Hxq Hxb. rewrite T3, lookup_insert_ne in Hx by done. destruct (same_clock_back _ _ _ _ S3 Hcl) as (b1 & Hb1 & Hp).
    rewrite (adjusted_params x b b1 Hp). by apply (Hc1 i q).
Qed.

Lemma start_armed e t tim delta mode st Q ret st' c :
  good st Q -> is_Some (cpus st !! smp_processor_id e) -> hrtimer_get_target e (has mode HRTIMER_MODE_PINNED) = smp_processor_id e ->
  idle_on c st -> armed st c -> hrtimer_start_range_ns mc e t tim delta mode st = Some (ret, st') -> armed st' c.
Proof.
  intros Hg Hcpu Hlocal Hrun Ha E. destruct (tm st !! t) as [x|] eqn:Hx; [|unfold hrtimer_start_range_ns in E; by rewrite Hx in E].
  destruct (cf_base _ (gd_config _ _ Hg) t x Hx) as (k & Hk & _).
  destruct (start_spec mc e t tim delta mode st Q x k Hg Hx Hk Hcpu) as [[E' _]|(st1 & st3 & st2 & new & y & F & E' & Hss)]; [congruence|].
  rewrite E' in E. injection E as _ <-.
  destruct Hss as [(Hg1 & M1 & N1) (T1 & R1 & S1) HF Hg3 (T3 & C3 & R3 & S3) (_ & Hpl & Hpl') (Hy1 & Hy2 & Hy3) _ Hlast].
  assert (armed st1 c) as Ha1.
  { eapply (removed_armed st st1 Q _ c k t); [exact Hg|exact Ha|exact Hg1|exact T1| |exact S1|exact R1|exact M1].
    destruct (hrtimer_is_queued x) eqn:Hq; [done|]. unfold hrtimer_is_queued in *. done. }
  assert (tm st3 = <[t := y]> (tm st1)) as T13 by (by rewrite T3, T1, insert_insert_eq).
  assert (same_clocks st1 st3) as S13.
  { constructor. intros j. by rewrite (sc_params _ _ (sd_clocks _ _ S3)), (sc_params _ _ (sd_clocks _ _ S1)). }
  set (r := negb (hrtimer_is_queued x) && hrtimer_callback_running x) in *. destruct new as [nc ni]. cbn [fst] in *.
  assert (raised st3 = raised st1) as R13 by congruence.
  destruct (decide (nc = c)) as [->|Hnc].
  - assert (r = false) as Hr. { destruct r eqn:Er; [|done]. apply andb_true_iff in Er as [_ Er]. rewrite <- (Hpl eq_refl) in Hk.
      by destruct (Hrun t x (c, ni) Hx Er Hk). }
    assert (c = smp_processor_id e) as Hthis by (destruct Hpl' as [?|[?|?]]; congruence).
    rewrite (proj2 (Z.eqb_eq _ _) Hthis), andb_true_r in Hlast. rewrite <- Hthis in Hlast.
    eapply (arrived_armed st1 st3 st2 c ni t y _ _ Ha1 Hg3); [done|done|done|done|done|by rewrite lookup_insert_eq| |congruence|exact Hlast].
    rewrite insort_perm. set_solver.
  - assert (armed st3 c) as Ha3.
    { apply (armed_step st1); [done|by rewrite C3|by rewrite R13|]. intros next H i. apply (covered_change st1 st3 (c, i) next t y); [apply H|done|done|congruence]. }
    destruct (bool_decide _ && (nc =? smp_processor_id e)) eqn:Eb; [|by subst st2]. apply andb_true_iff in Eb as [_ Eb%Z.eqb_eq].
    destruct Hlast as [Hsn _]. rewrite <- Eb in Hsn. by apply (sooner_armed nc st3 st2).
Qed.

(** *** Operations *)

(** A change of one timer that is not queued afterwards. *)
Lemma unqueued_armed st st' t y c :
  armed st c -> tm st' = <[t := y]> (tm st) -> hrtimer_is_queued y = false -> cpus st' = cpus st -> raised st' = raised st -> same_clocks st st' -> armed st' c.
Proof.
  intros Ha Ht Hy Hc Hr Hs. apply (armed_step st); [done|by rewrite Hc|by rewrite Hr|]. intros next H i.
  apply (covered_change st st' (c, i) next t y); [apply H|done|done|congruence].
Qed.

(** The two kinds of operation that queue nothing. *)
Lemma update_eq f t st st' :
  hrtimer_update f t st = Some st' -> (forall x, state (f x) = state x) ->
  exists x, tm st !! t = Some x /\ hrtimer_is_queued (f x) = false /\ st' = set_timer t (f x) st.
Proof.
  intros E Hf. unfold hrtimer_update in E. destruct (tm st !! t) as [x|]; [|done]. cbn [mbind option_bind] in E.
  destruct (hrtimer_is_queued x) eqn:Hq; [done|]. injection E as <-. exists x. split; [done|]. split; [|done]. unfold hrtimer_is_queued in *. by rewrite Hf.
Qed.

Lemma init_eq c t clock_id mode st st' :
  hrtimer_init c t clock_id mode st = Some st' ->
  exists y h, tm st' = <[t := y]> (tm st) /\ hrtimer_is_queued y = false /\ st' = set_heap h (set_timer t y st).
Proof.
  intros E. unfold hrtimer_init in E. destruct (default false _); [done|]. destruct (clocks st !! _); [|done]. injection E as <-. by eexists _, _.
Qed.

(** What an operation does, for the proofs below: it leaves a timer unqueued,
    cancels one or starts one. *)
Inductive op_kind (st : hrtimers) (st' : hrtimers) : hrtimer_op -> Prop :=
| op_plain o t y : tm st' = <[t := y]> (tm st) -> hrtimer_is_queued y = false -> cpus st' = cpus st -> raised st' = raised st -> clocks st' = clocks st ->
    op_kind st st' o
| op_cancel c t ret : is_Some (cpus st !! c) -> hrtimer_try_to_cancel mc c t st = Some (ret, st') -> op_kind st st' (OpCancel c t)
| op_start o e t tim delta mode ret : is_Some (cpus st !! smp_processor_id e) -> hrtimer_start_range_ns mc e t tim delta mode st = Some (ret, st') ->
    local_op o = (hrtimer_get_target e (has mode HRTIMER_MODE_PINNED) =? smp_processor_id e) ->
    (forall i, spares i st o = match x ← tm st !! t; base x with Some k => negb (k.2 =? i) | None => true end) -> op_kind st st' o.

Lemma run_op_kind o st st' : run_op mc o st = Some st' -> op_kind st st' o.
Proof.
  intros E. destruct o as [c t clock_id mode|t time delta|t now interval|e t tim delta mode|e t|c t]; cbn [run_op] in E.
  - destruct (init_eq _ _ _ _ _ _ E) as (y & h & Ht & Hy & ->). by apply (op_plain _ _ _ t y).
  - destruct (update_eq _ _ _ _ E) as (x & Hx & Hq & ->); [done|]. by eapply op_plain.
  - destruct (tm st !! t) as [x|]; [|done]. cbn [mbind option_bind] in E. destruct (base x) as [k|]; [|done]. cbn [mbind option_bind] in E.
    destruct (clocks st !! k) as [b|]; [|done]. cbn [mbind option_bind] in E.
    destruct (update_eq _ _ _ _ E) as (z & Hx & Hq & ->); [intros; apply forward_same|]. by eapply op_plain.
  - destruct (cpus st !! smp_processor_id e) eqn:Hcpu; [|done]. cbn [mbind option_bind] in E.
    destruct (hrtimer_start_range_ns mc e t _ _ mode st) as [[ret st2]|] eqn:Es; [|done]. injection E as ->.
    eapply op_start; [by rewrite Hcpu|exact Es|done|done].
  - destruct (cpus st !! smp_processor_id e) eqn:Hcpu; [|done]. cbn [mbind option_bind] in E. unfold hrtimer_restart, hrtimer_start_expires in E.
    destruct (tm st !! t) as [x|] eqn:Hx; [|done]. cbn [mbind option_bind] in E.
    destruct (hrtimer_start_range_ns mc e t _ _ HRTIMER_MODE_ABS st) as [[ret st2]|] eqn:Es; [|done]. injection E as ->.
    eapply op_start; [by rewrite Hcpu|exact Es|done|done].
  - destruct (cpus st !! c) eqn:Hcpu; [|done]. cbn [mbind option_bind] in E.
    destruct (hrtimer_try_to_cancel mc c t st) as [[ret st2]|] eqn:Es; [|done]. injection E as ->.
    eapply op_cancel; [by rewrite Hcpu|exact Es].
Qed.

Lemma cancel_eq c t st Q ret st' :
  good st Q -> is_Some (cpus st !! c) -> hrtimer_try_to_cancel mc c t st = Some (ret, st') ->
  st' = st \/ exists Q' k y, good st' Q' /\ tm st' = <[t := y]> (tm st) /\ hrtimer_is_queued y = false /\ steady st st' /\ raised st' = raised st /\ moved (fst (B := Z) k) st st' Q'.
Proof.
  intros Hg Hcpu E. unfold hrtimer_try_to_cancel in E. destruct (tm st !! t) as [x|] eqn:Hx; [|done]. cbn [mbind option_bind] in E.
  destruct (cf_base _ (gd_config _ _ Hg) t x Hx) as (k & Hk & _). rewrite Hk in E. cbn [mbind option_bind] in E.
  destruct (negb (hrtimer_callback_running x)); [|injection E as _ <-; by left].
  destruct (removed_spec mc st Q c t x k Hg Hx Hk Hcpu) as (st1 & s & E1 & Hg1 & T1 & Hy & Hs & S1 & R1 & M1 & _). rewrite E1 in E. injection E as _ <-.
  right. by eexists _, k, _.
Qed.

Lemma op_armed o st Q st' c :
  good st Q -> local_op o = true -> idle_on c st -> armed st c -> run_op mc o st = Some st' -> armed st' c.
Proof.
  intros Hg Hl Hi Ha E. destruct (run_op_kind o st st' E) as [o t y Ht Hy Hc Hr Hcl|c' t ret Hcpu Es|o e t tim delta mode ret Hcpu Es Hlo _].
  - apply (unqueued_armed st st' t y); try done. constructor. by rewrite Hcl.
  - destruct (cancel_eq c' t st Q ret st' Hg Hcpu Es) as [->|(Q' & k & y & Hg1 & T1 & Hy & S1 & R1 & M1)]; [done|].
    by apply (removed_armed st st' Q Q' c k t y).
  - rewrite Hlo in Hl. apply Z.eqb_eq in Hl. by apply (start_armed e t tim delta mode st Q ret st' c).
Qed.

Lemma op_covered o st Q st' k next :
  good st Q -> spares k.2 st o = true -> covered_on st k next -> run_op mc o st = Some st' -> covered_on st' k next.
Proof.
  intros Hg Hl Hc E. destruct (run_op_kind o st st' E) as [o t y Ht Hy _ _ Hcl|c' t ret Hcpu Es|o e t tim delta mode ret Hcpu Es _ Hsp].
  - apply (covered_change st st' k next t y); [done|done| |congruence]. constructor. by rewrite Hcl.
  - destruct (cancel_eq c' t st Q ret st' Hg Hcpu Es) as [->|(Q' & j & y & Hg1 & T1 & Hy & S1 & R1 & M1)]; [done|].
    apply (covered_change st st' k next t y); [done|done|apply (sd_clocks _ _ S1)|congruence].
  - rewrite Hsp in Hl. destruct (tm st !! t) as [x|] eqn:Hx; [|unfold hrtimer_start_range_ns in Es; by rewrite Hx in Es].
    destruct (cf_base _ (gd_config _ _ Hg) t x Hx) as (j & Hj & _). cbn [mbind option_bind] in Hl. rewrite Hj in Hl.
    apply negb_true_iff, Z.eqb_neq in Hl.
    destruct (start_spec mc e t tim delta mode st Q x j Hg Hx Hj Hcpu) as [[E' _]|(st1 & st3 & st2 & new & y & F & E' & Hss)]; [congruence|].
    rewrite E' in Es. injection Es as _ <-. destruct Hss as [_ _ _ Hg3 (T3 & _ & _ & S3) (Hpl & _) (Hy1 & _) _ Hlast].
    assert (covered_on st3 k next) as H3.
    { apply (covered_change st st3 k next t y); [done|done|apply (sd_clocks _ _ S3)|]. intros _ Hk. rewrite Hy1 in Hk. injection Hk as <-. congruence. }
    destruct (bool_decide _ && _); [|by subst]. destruct Hlast as [Hs _].
    apply (covered_same st3); [done|by destruct Hs|apply (sd_clocks _ _ (sooner_steady _ _ _ Hs))].
Qed.

Lemma idle_kept c st st' : idle_on c st -> (forall q, kept q st st') -> idle_on c st'.
Proof.
  intros Hi Hk t x k Hx Hr Hb. destruct (Hk t) as [_ H]. destruct (H x Hx Hr) as (y & Hy & Hr' & Hb'). apply (Hi t y k); congruence.
Qed.

Lemma ops_armed P l c : forall st Q st',
  (forall st o, P st o = true -> local_op o = true) -> good st Q -> all_ops mc P l st = true -> idle_on c st -> armed st c ->
  run_ops mc l st = Some st' -> armed st' c.
Proof.
  induction l as [|o l IH]; intros st Q st' HP Hg Hl Hi Ha E; cbn [run_ops all_ops] in *; [by injection E as <-|].
  apply andb_true_iff in Hl as [Ho Hl]. destruct (run_op mc o st) as [st1|] eqn:E1; [|done]. cbn [mbind option_bind] in E.
  destruct (run_op_done mc o st Q st1 Hg E1) as [[Q1 Hg1] _ K1 _]. apply (IH st1 Q1); try done; [by apply (idle_kept c st)|].
  apply (op_armed o st Q); try done. by apply (HP st).
Qed.

Lemma ops_covered P l k next : forall st Q st',
  (forall st o, P st o = true -> spares k.2 st o = true) -> good st Q -> all_ops mc P l st = true -> covered_on st k next ->
  run_ops mc l st = Some st' -> covered_on st' k next.
Proof.
  induction l as [|o l IH]; intros st Q st' HP Hg Hl Hc E; cbn [run_ops all_ops] in *; [by injection E as <-|].
  apply andb_true_iff in Hl as [Ho Hl]. destruct (run_op mc o st) as [st1|] eqn:E1; [|done]. cbn [mbind option_bind] in E.
  destruct (run_op_done mc o st Q st1 Hg E1) as [[Q1 Hg1] _ _ _]. apply (IH st1 Q1); try done.
  apply (op_covered o st Q); try done. by apply HP.
Qed.
End Armed.

(** ** Running timers *)

Lemma running_clear x : hrtimer_callback_running (set_state (Z.ldiff (state x) HRTIMER_STATE_CALLBACK) x) = false.
Proof.
  unfold hrtimer_callback_running. change HRTIMER_STATE_CALLBACK with (2 ^ 1). rewrite has_testbit by done. cbn [state set_state].
  rewrite Z.ldiff_spec. change (Z.testbit (2 ^ 1) 1) with true. apply andb_false_r.
Qed.

(** When the first timer of a clock base is not due, nor are the others. *)
Lemma first_covered st Q k b next :
  good st Q -> clocks st !! k = Some b -> (forall t x, first b = Some t -> tm st !! t = Some x -> next <= adjusted x b) -> covered_on st k next.
Proof.
  intros [HQ Hc] Hb Hf t x b' Hx Hq Hbase Hb'. assert (b' = b) as -> by congruence. destruct (qs_out _ _ HQ t x Hx Hq) as (k' & E & Hk' & HE & Ht).
  assert (k' = k) as -> by congruence. destruct (queue_of st Q HQ k b Hb) as (E' & HE' & _ & Hfirst & Hord & _). assert (E' = E) as -> by congruence.
  destruct E as [|q E]; [set_solver|]. destruct (qs_in _ _ HQ q k _ HE) as (y & Hy & _ & _ & Hye); [set_solver|].
  destruct (qs_in _ _ HQ t k _ HE Ht) as (x' & Hx' & _ & _ & Hxe). assert (x' = x) as -> by congruence.
  etransitivity; [by apply (Hf q y)|]. apply adjusted_mono; [done|done|by apply (cf_params _ Hc k)|].
  pose proof (order_head _ _ _ _ Hord Ht) as H. by rewrite (exp_of_eq _ _ _ Hx), (exp_of_eq _ _ _ Hy) in H.
Qed.

Section Running.
Context (mc : machine) (handler : ptr -> hrtimers -> list hrtimer_op * bool).

(** The last part of a callback: the timer, queued again or not. *)
Lemma finish_eq (restart : bool) t k st Q x st' :
  good st Q -> tm st !! t = Some x -> (hrtimer_callback_running x = true -> base x = Some k) ->
  (st ← (if restart then if negb (state x =? HRTIMER_STATE_CALLBACK) then None else snd <$> enqueue_hrtimer t k st else Some st);
   x ← tm st !! t; Some (set_timer t (set_state (Z.ldiff (state x) HRTIMER_STATE_CALLBACK) x) st)) = Some st' ->
  exists z, tm st' = <[t := z]> (tm st) /\ quiet st st' /\ hrtimer_callback_running z = false /\
    (base z = Some k \/ base z = base x /\ expires z = expires x /\ hrtimer_is_queued z = hrtimer_is_queued x).
Proof.
  intros [HQ Hc] Hx Hk E. destruct restart.
  2: { cbn [mbind option_bind] in E. rewrite Hx in E. injection E as <-. eexists. split; [done|]. split; [apply set_timer_quiet|].
       split; [apply running_clear|]. right. split; [done|]. split; [done|]. by apply (queued_clear x 1). }
  destruct (Z.eqb_spec (state x) HRTIMER_STATE_CALLBACK) as [Es|]; [|done]. cbn [negb] in E.
  assert (base x = Some k) as Hb by (apply Hk; unfold hrtimer_callback_running; by rewrite Es).
  assert (hrtimer_is_queued x = false) as Hq by (unfold hrtimer_is_queued; by rewrite Es).
  destruct (cf_base _ Hc t x Hx) as (k' & Hk' & Hclk). assert (k' = k) as -> by congruence.
  destruct (enqueue_spec st Q t x k HQ Hx Hq Hb Hclk) as (E2 & st2 & HE & E3 & _ & T3 & S3); [by apply (cf_expires _ Hc t)|].
  cbn zeta in E3. rewrite E3 in E. cbn [fmap option_fmap option_map snd mbind option_bind] in E. rewrite T3, lookup_insert_eq in E. injection E as <-.
  eexists. split; [cbn; by rewrite T3, insert_insert_eq|]. split; [by transitivity st2; [|apply set_timer_quiet]|]. split; [apply running_clear|by left].
Qed.

(** One callback: the timer leaves its queue, the operations of the callback,
    the end. *)
Lemma run_hrtimer_steps c t now st Q st' x k :
  good st Q -> is_Some (cpus st !! c) -> tm st !! t = Some x -> base x = Some k -> run_hrtimer mc handler c t now st = Some st' ->
  exists st1 Q1 st3 x3 z,
    (good st1 Q1 /\ tm st1 = <[t := set_state HRTIMER_STATE_CALLBACK x]> (tm st) /\ cpus st1 = cpus st /\ raised st1 = raised st /\ same_clocks st st1) /\
    run_ops mc (fst (handler t st1)) st1 = Some st3 /\ tm st3 !! t = Some x3 /\
    tm st' = <[t := z]> (tm st3) /\ quiet st3 st' /\ hrtimer_callback_running z = false /\
    (base z = Some k \/ base z = base x3 /\ expires z = expires x3 /\ hrtimer_is_queued z = hrtimer_is_queued x3).
Proof.
  intros [HQ Hc] Hcpu Hx Hk E. unfold run_hrtimer in E. rewrite Hx in E. cbn [mbind option_bind] in E. rewrite Hk in E. cbn [mbind option_bind] in E.
  destruct (remove_raw_spec mc st Q c t x k HRTIMER_STATE_CALLBACK false HQ Hc Hx Hk Hcpu (callback_not_queued x))
    as (st1 & E1 & HQ1 & Hc1 & T1 & S1 & R1 & _ & C1). rewrite (bind_eq _ _ _ E1) in E. cbn beta zeta in E.
  set (ev := {| call_timer := t; call_softexpires := _; call_expires := _; call_base := _; call_now := _ |}) in *.
  assert (good (log_call ev st1) (alter (list_del t) k Q)) as Hg2.
  { destruct HQ1 as [H1 H2 H3 H4 H5], Hc1 as [D1 D2 D3 D4 D5].
    exact (Build_good _ _ (Build_queues (log_call ev st1) _ H1 H2 H3 H4 H5) (Build_config (log_call ev st1) D1 D2 D3 D4 D5)). }
  destruct (handler t (log_call ev st1)) as [ops restart] eqn:Eh.
  destruct (run_ops mc ops (log_call ev st1)) as [st3|] eqn:E3; [|done]. cbn [mbind option_bind] in E.
  destruct (run_ops_done mc ops _ _ st3 Hg2 E3) as [[Q3 Hg3] _ K3 _].
  assert (tm (log_call ev st1) !! t = Some (set_state HRTIMER_STATE_CALLBACK x)) as Hx2 by (cbn; rewrite T1; apply lookup_insert_eq).
  destruct (kept_get t _ _ _ (K3 t) Hx2) as (x3 & Hx3 & Hrun3). rewrite Hx3 in E. cbn [mbind option_bind] in E.
  destruct (finish_eq restart t k st3 Q3 x3 st' Hg3 Hx3) as (z & Hz); [intros Hr; destruct (Hrun3 Hr) as [_ Hb]; by rewrite Hb|exact E|].
  exists (log_call ev st1), (alter (list_del t) k Q), st3, x3, z. rewrite Eh.
  split; [split; [done|split; [done|split; [by apply C1|split; [done|]]]]|done]. constructor. apply (sc_params _ _ (sd_clocks _ _ S1)).
Qed.

(** The end does not touch the other clock bases. *)
Lemma finish_covered st st' t x z k j next :
  covered_on st j next -> tm st !! t = Some x -> tm st' = <[t := z]> (tm st) -> same_clocks st st' -> k <> j ->
  (base z = Some k \/ base z = base x /\ expires z = expires x /\ hrtimer_is_queued z = hrtimer_is_queued x) -> covered_on st' j next.
Proof.
  intros Hc Hx Ht Hs Hne Hz. apply (covered_change st st' j next t z); [done|done|done|]. intros Hq Hb b Hcl.
  destruct Hz as [Hz|(Hz1 & Hz2 & Hz3)]; [congruence|]. destruct (same_clock_back _ _ _ _ Hs Hcl) as (b0 & Hb0 & Hp).
  rewrite (adjusted_params z b b0 Hp). unfold adjusted. rewrite Hz2. apply (Hc t x b0); congruence.
Qed.

(** What a callback of the clock base [k] leaves as it was. *)
Record beside (k : Z * Z) (st st' : hrtimers) : Prop := {
  bs_calm : calm st';
  bs_armed c : c <> k.1 -> armed st c -> armed st' c;
  bs_covered next : k.2 = CLOCK_MONOTONIC -> covered_on st (k.1, CLOCK_REALTIME) next -> covered_on st' (k.1, CLOCK_REALTIME) next
}.

Lemma beside_trans k st1 st2 st3 : beside k st1 st2 -> beside k st2 st3 -> beside k st1 st3.
Proof. intros [A1 A2 A3] [B1 B2 B3]. split; auto. Qed.

Lemma run_hrtimer_beside c t now st Q st' x k :
  tame mc handler -> good st Q -> calm st -> is_Some (cpus st !! c) -> tm st !! t = Some x -> base x = Some k ->
  run_hrtimer mc handler c t now st = Some st' -> beside k st st'.
Proof.
  intros Htame Hg Hcalm Hcpu Hx Hk E.
  destruct (run_hrtimer_steps c t now st Q st' x k Hg Hcpu Hx Hk E) as (st1 & Q1 & st3 & x3 & z & (Hg1 & T1 & C1 & R1 & S1) & E3 & Hx3 & T' & Hqt & Hz & Hzz).
  assert (all_ops mc (tame_op k) (fst (handler t st1)) st1 = true) as Hops by (apply (Htame t st1 (set_state HRTIMER_STATE_CALLBACK x)); [rewrite T1; apply lookup_insert_eq|done]).
  assert (forall q y, q <> t -> tm st1 !! q = Some y -> hrtimer_callback_running y = false) as Honly.
  { intros q y Hq. rewrite T1, lookup_insert_ne by done. apply Hcalm. }
  destruct (run_ops_done mc _ _ _ st3 Hg1 E3) as [_ _ K3 _]. pose proof (qt_clocks _ _ Hqt) as Hs'. split.
  - intros q y. rewrite T'. destruct (decide (q = t)) as [->|Hq]; [rewrite lookup_insert_eq; by intros [= <-]|]. rewrite lookup_insert_ne by done. intros Hy.
    destruct (hrtimer_callback_running y) eqn:Hr; [|done]. destruct (K3 q) as [_ H]. destruct (H y Hy Hr) as (y1 & Hy1 & Hr1 & _). rewrite (Honly q y1) in Hr1; done.
  - intros c2 Hne Ha. assert (armed st1 c2) as Ha1 by (eapply (unqueued_armed st st1); [done|exact T1|done..]).
    assert (armed st3 c2) as Ha3.
    { eapply (ops_armed mc (tame_op k)); [|exact Hg1|exact Hops| |done|exact E3]; [intros ? ? Ho; by apply andb_true_iff in Ho as [? _]|].
      intros q y j Hy Hr Hj. destruct (decide (q = t)) as [->|Hq]; [|by rewrite (Honly q y Hq Hy) in Hr].
      rewrite T1, lookup_insert_eq in Hy. injection Hy as <-. cbn in Hj. congruence. }
    apply (armed_step st3); [done|by rewrite (qt_cpus _ _ Hqt)|by rewrite (qt_raised _ _ Hqt)|].
    intros next H i. apply (finish_covered st3 st' t x3 z k); try done. intros ->. by apply Hne.
  - intros next Hmono Hcov. apply (finish_covered st3 st' t x3 z k); try done; [|intros Hkk; rewrite Hkk in Hmono; done].
    eapply (ops_covered mc (tame_op k)); [|exact Hg1|exact Hops| |exact E3].
    + intros ? o Ho. apply andb_true_iff in Ho as [_ Ho]. by rewrite Hmono in Ho.
    + eapply (covered_change st st1); [exact Hcov|exact T1|done|]. by rewrite callback_not_queued.
Qed.

Lemma beside_refl k st : calm st -> beside k st st.
Proof. by split. Qed.

Lemma run_base_beside k basenow fuel : forall next st Q next' st',
  tame mc handler -> good st Q -> calm st -> run_base mc handler fuel k basenow next st = Some (next', st') ->
  beside k st st' /\ covered_on st' k next' /\ next' <= next.
Proof.
  induction fuel as [|fuel IH]; intros next st Q next' st' Ht Hg Hcalm E; [done|]. cbn [run_base] in E.
  destruct (clocks st !! k) as [b|] eqn:Hb; [|done]. cbn [mbind option_bind] in E. destruct (first b) as [t|] eqn:Hf.
  2: { injection E as <- <-. split; [by apply beside_refl|]. split; [|done]. apply (first_covered st Q k b); [done|done|]. by rewrite Hf. }
  destruct (first_timer st Q k b t Hg Hb Hf) as (x & Hx & Hk & Hcpu). rewrite Hx in E. cbn [mbind option_bind] in E.
  destruct (Z.ltb_spec basenow (softexpires x)).
  - injection E as <- <-. split; [by apply beside_refl|]. split; [|destruct (Z.ltb_spec (ktime_sub (expires x) (offset b)) next); lia].
    apply (first_covered st Q k b); [done|done|]. intros q y Hq Hy. rewrite Hf in Hq. injection Hq as <-. assert (y = x) as -> by congruence.
    unfold adjusted. destruct (Z.ltb_spec (ktime_sub (expires x) (offset b)) next); lia.
  - destruct (run_hrtimer mc handler k.1 t basenow st) as [st1|] eqn:E1; [|done]. cbn [mbind option_bind] in E.
    pose proof (run_hrtimer_beside k.1 t basenow st Q st1 x k Ht Hg Hcalm Hcpu Hx Hk E1) as B1.
    destruct (run_hrtimer_ran mc handler (fun _ => True) k.1 t basenow st Q st1 x k Hg Hcpu Hx Hk I E1) as [[Q1 Hg1] _ _ _ _ _].
    destruct (IH next st1 Q1 next' st' Ht Hg1 (bs_calm _ _ _ B1) E) as (B2 & Hc & Hle). split; [by apply (beside_trans _ _ _ _ B1)|done].
Qed.

Lemma run_queue_beside k fuel : forall st Q st',
  tame mc handler -> good st Q -> calm st -> run_queue mc handler fuel k st = Some st' -> beside k st st'.
Proof.
  induction fuel as [|fuel IH]; intros st Q st' Ht Hg Hcalm E; [done|]. cbn [run_queue] in E.
  destruct (clocks st !! k) as [b|] eqn:Hb; [|done]. cbn [mbind option_bind] in E. destruct (first b) as [t|] eqn:Hf; [|injection E as <-; by apply beside_refl].
  destruct (first_timer st Q k b t Hg Hb Hf) as (x & Hx & Hk & Hcpu). rewrite Hx in E. cbn [mbind option_bind] in E.
  destruct (softirq_time b <=? expires x); [injection E as <-; by apply beside_refl|].
  destruct (run_hrtimer mc handler k.1 t (softirq_time b) st) as [st1|] eqn:E1; [|done]. cbn [mbind option_bind] in E.
  pose proof (run_hrtimer_beside k.1 t _ st Q st1 x k Ht Hg Hcalm Hcpu Hx Hk E1) as B1.
  destruct (run_hrtimer_ran mc handler (fun _ => True) k.1 t _ st Q st1 x k Hg Hcpu Hx Hk I E1) as [[Q1 Hg1] _ _ _ _ _].
  apply (beside_trans _ _ _ _ B1). by apply (IH st1 Q1 st' Ht Hg1 (bs_calm _ _ _ B1)).
Qed.

(** What a step on CPU [c] leaves as it was. *)
Definition others (c : Z) (st st' : hrtimers) : Prop := calm st' /\ forall c2, c2 <> c -> armed st c2 -> armed st' c2.

Lemma others_trans c st1 st2 st3 : others c st1 st2 -> others c st2 st3 -> others c st1 st3.
Proof. intros [_ A] [B1 B2]. split; [done|]. auto. Qed.

Lemma beside_others k st st' : beside k st st' -> others k.1 st st'.
Proof. intros [A1 A2 _]. by split. Qed.

(** The base and the device of the CPU itself change. *)
Lemma outer_others c st st' :
  calm st -> tm st' = tm st -> (forall c2 i, c2 <> c -> params <$> clocks st' !! (c2, i) = params <$> clocks st !! (c2, i)) ->
  (forall c2, c2 <> c -> cpus st' !! c2 = cpus st !! c2) -> raised st ∖ {[c]} ⊆ raised st' -> others c st st'.
Proof.
  intros Hcalm Ht Hs Hc Hr. split; [unfold calm; by rewrite Ht|]. intros c2 Hne Ha cb Hcb Hres. rewrite Hc in Hcb by done.
  destruct (Ha cb Hcb Hres) as [?|[?|Hcov]]; [by left|right; left; set_solver|right; right].
  intros i t x b Hx Hq Hb Hcl. rewrite Ht in Hx. specialize (Hs c2 i Hne). rewrite Hcl in Hs.
  destruct (clocks st !! (c2, i)) as [b0|] eqn:Hb0; [|done]. cbn in Hs. rewrite (adjusted_params x b b0); [by apply (Hcov i t)|congruence].
Qed.

Lemma cpu_others c st b : calm st -> others c st (set_cpu c b st).
Proof. intros Hcalm. apply outer_others; try done; [|set_solver]. intros c2 Hne. cbn. by rewrite lookup_insert_ne. Qed.

Lemma program_others c e force st ret st' :
  calm st -> tick_program_event mc c e force st = Some (ret, st') ->
  others c st st' /\ cpus st' = cpus st /\ tm st' = tm st /\ clocks st' = clocks st.
Proof.
  intros Hcalm E. assert (is_Some (devs st !! c)) as Hd.
  { destruct (devs st !! c) eqn:Hd; [done|]. unfold tick_program_event in E. by rewrite Hd in E. }
  destruct (program_event_total mc c e force st Hd) as (ret' & d & k & E'). rewrite E' in E. injection E as _ <-.
  split; [|done]. apply outer_others; try done. set_solver.
Qed.

(** After one attempt the next event covers the timers of the CPU. *)
Lemma run_cpu_covered fuel c now st Q next st' :
  tame mc handler -> good st Q -> calm st -> run_cpu mc handler fuel c now st = Some (next, st') ->
  others c st st' /\ covered st' c next /\ exists cb, cpus st' !! c = Some cb /\ expires_next cb = next.
Proof.
  intros Ht Hg Hcalm E. pose proof (run_cpu_went mc handler fuel c now st Q next st' Hg E) as [[Q' Hg'] _ _]. unfold run_cpu in E.
  destruct (cpus st !! c) as [cb|] eqn:Hcb; [|done]. cbn [mbind option_bind] in E.
  destruct (set_cpu_went st Q c (set_expires_next KTIME_MAX cb) Hg) as [[Q0 Hg0] _ _]; [by rewrite Hcb|].
  pose proof (cpu_others c st (set_expires_next KTIME_MAX cb) Hcalm) as O0. set (st0 := set_cpu c _ st) in *.
  unfold run_clock in E. destruct (clocks st0 !! (c, CLOCK_REALTIME)) as [b0|]; [|done]. cbn [mbind option_bind] in E.
  destruct (run_base mc handler fuel (c, CLOCK_REALTIME) _ _ st0) as [[n1 st1]|] eqn:E1; [|done]. cbn [mbind option_bind] in E.
  destruct (run_base_beside _ _ _ _ _ Q0 _ _ Ht Hg0 (proj1 O0) E1) as (B1 & C1 & L1).
  destruct (rn_good _ _ _ (run_base_ran mc handler _ _ _ _ _ Q0 _ _ Hg0 E1)) as [Q1 Hg1].
  destruct (clocks st1 !! (c, CLOCK_MONOTONIC)) as [b1|]; [|done]. cbn [mbind option_bind] in E.
  destruct (run_base mc handler fuel (c, CLOCK_MONOTONIC) _ _ st1) as [[n2 st2]|] eqn:E2; [|done]. cbn [mbind option_bind] in E.
  destruct (run_base_beside _ _ _ _ _ Q1 _ _ Ht Hg1 (bs_calm _ _ _ B1) E2) as (B2 & C2 & L2).
  destruct (cpus st2 !! c) as [cb2|] eqn:Hcb2; [|done]. cbn [mbind option_bind] in E. injection E as <- <-.
  split; [|split].
  - apply (others_trans _ _ _ _ O0), (others_trans _ _ _ _ (beside_others _ _ _ B1)), (others_trans _ _ _ _ (beside_others _ _ _ B2)).
    apply cpu_others, (bs_calm _ _ _ B2).
  - intros i t x b Hx Hq Hb Hcl. assert (is_Some (clocks st2 !! (c, i))) as Hi by by exists b. apply (cf_clock _ (gd_config _ _ Hg')) in Hi as [_ [-> | ->]].
    + apply (covered_le _ _ _ _ (bs_covered _ _ _ B2 n1 eq_refl C1) L2 t); done.
    + by apply (C2 t).
  - eexists. cbn. by rewrite lookup_insert_eq.
Qed.

Lemma set_hang_armed c st next cb h :
  cpus st !! c = Some cb -> expires_next cb = next -> covered st c next -> armed (set_cpu c (set_hang h cb) st) c.
Proof. intros Hcb He Hc cb' Hcb' _. cbn in Hcb'. rewrite lookup_insert_eq in Hcb'. injection Hcb' as <-. right. right. cbn. by rewrite He. Qed.

Lemma put_off_armed c now entry st st' : calm st -> put_off mc c now entry st = Some st' -> others c st st' /\ armed st' c.
Proof.
  intros Hcalm E. unfold put_off in E. destruct (cpus st !! c) as [cb|]; [|done]. cbn [mbind option_bind] in E.
  pose proof (cpu_others c st (count_hang (ktime_sub now entry) cb) Hcalm) as O1. set (st1 := set_cpu c _ st) in *.
  destruct (tick_program_event mc c _ true st1) as [[r st2]|] eqn:E2; [|done]. injection E as <-.
  destruct (program_others _ _ _ _ _ _ (proj1 O1) E2) as (O2 & C2 & _). split; [by apply (others_trans _ _ _ _ O1)|].
  intros cb' Hcb' _. rewrite C2 in Hcb'. cbn in Hcb'. rewrite lookup_insert_eq in Hcb'. injection Hcb' as <-. by left.
Qed.

Lemma interrupt_loop_armed more : forall fuel c now entry st Q st',
  tame mc handler -> good st Q -> calm st -> interrupt_loop mc handler more fuel c now entry st = Some st' -> others c st st' /\ armed st' c.
Proof.
  induction more as [|more IH]; intros fuel c now entry st Q st' Ht Hg Hcalm E; cbn [interrupt_loop] in E.
  all: destruct (run_cpu mc handler fuel c now st) as [[next st1]|] eqn:E1; [|done]; cbn [mbind option_bind] in E.
  all: destruct (run_cpu_covered _ _ _ _ Q _ _ Ht Hg Hcalm E1) as (O1 & Hcov & cb1 & Hcb1 & Hn).
  all: destruct (run_cpu_went mc handler fuel c now st Q next st1 Hg E1) as [[Q1 Hg1] _ _].
  all: destruct (if next =? KTIME_MAX then _ else _) as [[ret st2]|] eqn:E2; [|done]; cbn [mbind option_bind] in E.
  all: assert (others c st1 st2 /\ cpus st2 = cpus st1 /\ tm st2 = tm st1 /\ clocks st2 = clocks st1 /\ exists Q2, good st2 Q2) as (O2 & C2 & T2 & K2 & Q2 & Hg2)
    by (destruct (next =? KTIME_MAX); [injection E2 as _ <-; split; [by split; [apply O1|]|by eauto]
       |destruct (program_others _ _ _ _ _ _ (proj1 O1) E2) as (? & ? & ? & ?); destruct (program_went mc st1 Q1 c next false ret st2 Hg1 E2) as [? _ _]; done]).
  all: rewrite C2, Hcb1 in E; cbn [mbind option_bind] in E.
  all: destruct (ret =? 0); [injection E as <-; split;
    [apply (others_trans _ _ _ _ O1), (others_trans _ _ _ _ O2), cpu_others, O2|apply (set_hang_armed c st2 next);
      [congruence|done|intros i; apply (covered_same st1); [apply Hcov|done|constructor; by rewrite K2]]]|].
  all: pose proof (cpu_others c st2 (count_retry cb1) (proj1 O2)) as O3; set (st3 := set_reads _ (set_cpu c (count_retry cb1) st2)) in E.
  all: assert (others c st2 st3) as O3' by exact O3; clear O3.
  - destruct (put_off_armed _ _ _ _ _ (proj1 O3') E) as [O4 Ha]. split; [|done]. by apply (others_trans _ _ _ _ O1), (others_trans _ _ _ _ O2), (others_trans _ _ _ _ O3').
  - assert (exists Q3, good st3 Q3) as [Q3 Hg3]. { exists Q2. apply (good_outer st2); try done. apply insert_dom. by rewrite C2, Hcb1. }
    destruct (IH _ _ _ _ _ Q3 _ Ht Hg3 (proj1 O3') E) as [O4 Ha]. split; [|done].
    by apply (others_trans _ _ _ _ O1), (others_trans _ _ _ _ O2), (others_trans _ _ _ _ O3').
Qed.

Lemma interrupt_armed fuel c st Q st' :
  tame mc handler -> good st Q -> calm st -> hrtimer_interrupt mc handler fuel c st = Some st' -> others c st st' /\ armed st' c.
Proof.
  intros Ht Hg Hcalm E. unfold hrtimer_interrupt in E. destruct (cpus st !! c) as [cb|] eqn:Hcb; [|done]. cbn [mbind option_bind] in E.
  destruct (devs st !! c) as [d|] eqn:Hd; [|done]. cbn [mbind option_bind] in E. destruct (hres_active cb); [|done]. cbn [negb] in E.
  set (st1 := set_dev c _ _ _) in E. assert (exists Q1, good st1 Q1) as [Q1 Hg1].
  { exists Q. apply (good_outer st); try done; apply insert_dom; [by rewrite Hcb|by rewrite Hd]. }
  assert (others c st st1) as O1 by exact (cpu_others c st (count_event cb) Hcalm).
  destruct (interrupt_loop_armed _ _ _ _ _ _ Q1 _ Ht Hg1 (proj1 O1) E) as [O2 Ha]. split; [by apply (others_trans _ _ _ _ O1)|done].
Qed.
End Running.

(** ** All steps *)

Section Settled.
Context (mc : machine) (handler : ptr -> hrtimers -> list hrtimer_op * bool).

(** Between two steps no callback runs and the event of every CPU comes in
    time. *)
Definition settled (st : hrtimers) : Prop := calm st /\ forall c, armed st c.

Lemma others_settled c st st' : settled st -> others c st st' -> armed st' c -> settled st'.
Proof. intros [_ Ha] [Hc Ho] Hac. split; [done|]. intros c2. destruct (decide (c2 = c)) as [->|Hne]; auto. Qed.

Lemma low_armed st c cb : cpus st !! c = Some cb -> hres_active cb = false -> armed st c.
Proof. intros Hcb Hh cb' Hcb' Hres. congruence. Qed.

Lemma calm_kept st st' : calm st -> (forall q, kept q st st') -> calm st'.
Proof.
  intros Hc Hk t x Hx. destruct (hrtimer_callback_running x) eqn:Hr; [|done]. destruct (Hk t) as [_ H].
  destruct (H x Hx Hr) as (y & Hy & Hr' & _). by rewrite (Hc t y Hy) in Hr'.
Qed.

Lemma calm_idle st c : calm st -> idle_on c st.
Proof. intros Hc t x k Hx Hr. by rewrite (Hc t x Hx) in Hr. Qed.

Lemma op_settled o st Q st' : good st Q -> local_op o = true -> settled st -> run_op mc o st = Some st' -> settled st'.
Proof.
  intros Hg Hl [Hc Ha] E. destruct (run_op_done mc o st Q st' Hg E) as [_ _ K _]. split; [by apply (calm_kept st)|].
  intros c. apply (op_armed mc o st Q); auto using calm_idle.
Qed.

Lemma peek_armed fuel c st Q st' :
  tame mc handler -> good st Q -> calm st -> hrtimer_peek_ahead_timers mc handler fuel c st = Some st' -> others c st st' /\ armed st' c.
Proof.
  intros Ht Hg Hc E. unfold hrtimer_peek_ahead_timers in E. destruct (cpus st !! c) as [cb|] eqn:Hcb; [|done]. cbn [mbind option_bind] in E.
  destruct (hres_active cb) eqn:Hh; cbn [negb] in E; [|injection E as <-; split; [by split|by apply (low_armed st c cb)]].
  destruct (decide _) as [Hd|_]; [|by apply (interrupt_armed mc handler fuel c st Q)].
  destruct (cf_dev _ (gd_config _ _ Hg) c) as [d Hd']; [by rewrite Hcb|congruence].
Qed.

Lemma softirq_settled fuel c st Q st' :
  tame mc handler -> good st Q -> settled st -> run_hrtimer_softirq mc handler fuel c st = Some st' -> settled st'.
Proof.
  intros Ht Hg Hs E. unfold run_hrtimer_softirq in E. set (st1 := set_raised _ st) in E.
  assert (good st1 Q) as Hg1 by by apply (good_outer st). assert (others c st st1) as O1 by (apply outer_others; [apply Hs|done..]).
  destruct (peek_armed fuel c st1 Q st' Ht Hg1 (proj1 O1) E) as [O2 Ha]. apply (others_settled c st); [done|by apply (others_trans _ _ _ _ O1)|done].
Qed.

(** The tick of a CPU that has no high resolution. *)
Lemma run_index_others fuel c xtim tomono i gettime st Q g st' :
  tame mc handler -> good st Q -> calm st -> run_index mc handler fuel c xtim tomono i gettime st = Some (g, st') ->
  others c st st' /\ forall j, mode_of <$> cpus st' !! j = mode_of <$> cpus st !! j.
Proof.
  intros Ht Hg Hc E. unfold run_index in E. destruct (clocks st !! (c, i)) as [b|] eqn:Hb; [|done]. cbn [mbind option_bind] in E.
  destruct (first b); [|injection E as _ <-; by split; [split|]].
  destruct (if gettime then _ else _) as [st1|] eqn:E1; [|done]. cbn [mbind option_bind] in E.
  assert (others c st st1 /\ cpus st1 = cpus st /\ exists Q1, good st1 Q1) as (O1 & C1 & Q1 & Hg1).
  { destruct gettime; [|injection E1 as <-; split; [by split|by eauto]].
    destruct (softirq_time_went c xtim tomono st Q st1 Hg E1) as [Hg1 _ _]. unfold hrtimer_get_softirq_time in E1.
    destruct (clocks st !! (c, CLOCK_REALTIME)) as [r|]; [|done]. destruct (clocks st !! (c, CLOCK_MONOTONIC)) as [m|]; [|done].
    injection E1 as <-. split; [|by split]. apply outer_others; try done; [|set_solver]. intros c2 j Hne. cbn. rewrite !lookup_insert_ne; [done|congruence..]. }
  destruct (run_queue mc handler fuel (c, i) st1) as [st2|] eqn:E2; [|done]. injection E as _ <-.
  pose proof (run_queue_beside mc handler (c, i) fuel st1 Q1 st2 Ht Hg1 (proj1 O1) E2) as B2%beside_others.
  split; [by apply (others_trans _ _ _ _ O1)|]. intros j. by rewrite (rn_cpus _ _ _ (run_queue_ran mc handler _ _ _ Q1 _ Hg1 E2)), C1.
Qed.

Lemma run_queues_settled fuel c xtim tomono st Q st' :
  tame mc handler -> good st Q -> settled st -> hrtimer_run_queues mc handler fuel c xtim tomono st = Some st' -> settled st'.
Proof.
  intros Ht Hg Hs E. unfold hrtimer_run_queues in E. destruct (cpus st !! c) as [cb|] eqn:Hcb; [|done]. cbn [mbind option_bind] in E.
  destruct (hres_active cb) eqn:Hh; [by injection E as <-|].
  destruct (run_index mc handler fuel c xtim tomono CLOCK_REALTIME true st) as [[g st1]|] eqn:E1; [|done]. cbn [mbind option_bind] in E.
  destruct (run_index_others _ _ _ _ _ _ _ Q _ _ Ht Hg (proj1 Hs) E1) as [O1 M1].
  destruct (run_index_went mc handler _ _ _ _ _ _ _ Q _ _ Hg E1) as [[Q1 Hg1] _ _].
  destruct (run_index mc handler fuel c xtim tomono CLOCK_MONOTONIC g st1) as [[g2 st2]|] eqn:E2; [|done]. injection E as <-.
  destruct (run_index_others _ _ _ _ _ _ _ Q1 _ _ Ht Hg1 (proj1 O1) E2) as [O2 M2].
  apply (others_settled c st); [done|by apply (others_trans _ _ _ _ O1)|]. specialize (M2 c). rewrite M1, Hcb in M2.
  destruct (cpus st2 !! c) as [cb2|] eqn:Hcb2; [|done]. injection M2 as Hh2 _. apply (low_armed st2 c cb2); [done|congruence].
Qed.

(** The next event is computed again. *)
Lemma force_armed c skip st Q st' :
  good st Q -> calm st -> is_Some (cpus st !! c) -> hrtimer_force_reprogram mc c skip st = Some st' -> others c st st' /\ armed st' c.
Proof.
  intros Hg Hc Hcpu E. pose proof (gd_config _ _ Hg) as Hcf. destruct (next_expiry_spec c st Hcf Hcpu (good_firsts st Q c Hg)) as (n & En & _ & Hn).
  destruct (force_reprogram_spec mc c skip st n En Hcpu (cf_dev _ Hcf c Hcpu)) as (st1 & E1 & [R1 R2 R3 R4 R5 (cb & Hcb & R6) R7]).
  rewrite E1 in E. injection E as <-. split.
  - apply outer_others; [done|done|by rewrite R3| |rewrite R4; set_solver]. intros c2 Hne. by rewrite R6, lookup_insert_ne.
  - intros cb' Hcb' _. rewrite R6, lookup_insert_eq in Hcb'. injection Hcb' as <-. right. right. cbn.
    intros i. apply (covered_same st); [|done|constructor; by rewrite R3]. intros t x b Hx Hq Hb Hcl.
    apply (first_covered st Q (c, i) b n Hg Hcl) with (t := t); try done. intros q y. by apply (Hn i b q y Hcl).
Qed.

Lemma retrigger_armed c off st Q st' :
  good st Q -> calm st -> 0 <= off <= KTIME_MAX -> retrigger_next_event mc c off st = Some st' -> others c st st' /\ armed st' c.
Proof.
  intros Hg Hc Ho E. unfold retrigger_next_event in E. destruct (cpus st !! c) as [cb|] eqn:Hcb; [|done]. cbn [mbind option_bind] in E.
  destruct (hres_active cb) eqn:Hh; cbn [negb] in E; [|injection E as <-; split; [by split|by apply (low_armed st c cb)]].
  destruct (clocks st !! (c, CLOCK_REALTIME)) as [b|] eqn:Hb; [|done]. cbn [mbind option_bind] in E. set (st1 := set_clock _ _ st) in E.
  destruct (set_params_went st Q (c, CLOCK_REALTIME) b (set_offset off b) Hg Hb) as [[Q1 Hg1] _ _]; try done.
  { split; [|done]. apply (cf_params _ (gd_config _ _ Hg) _ _ Hb). }
  assert (others c st st1) as O1. { apply outer_others; try done; [|set_solver]. intros c2 j Hne. cbn. rewrite lookup_insert_ne; [done|congruence]. }
  destruct (force_armed c false st1 Q1 st' Hg1 (proj1 O1)) as [O2 Ha]; [by exists cb|done|]. split; [by apply (others_trans _ _ _ _ O1)|done].
Qed.

(** *** The tick timer of a CPU *)

Lemma done_others c st st' : calm st -> (forall q, kept q st st') -> (forall c2, idle_on c2 st -> armed st c2 -> armed st' c2) -> others c st st'.
Proof. intros Hc Hk H. split; [by apply (calm_kept st)|]. intros c2 _. apply H. by apply calm_idle. Qed.

Lemma start_tick_others e t fuel : forall now st Q st',
  good st Q -> calm st -> is_Some (cpus st !! smp_processor_id e) -> start_tick mc fuel e t now st = Some st' -> others (smp_processor_id e) st st'.
Proof.
  induction fuel as [|fuel IH]; intros now st Q st' Hg Hc Hcpu E; [done|]. cbn [start_tick] in E.
  destruct (run_op mc (OpForward t now TICK_PERIOD) st) as [st1|] eqn:E1; [|done]. cbn [mbind option_bind] in E.
  destruct (run_op_done mc _ st Q st1 Hg E1) as [[Q1 Hg1] S1 K1 _].
  assert (others (smp_processor_id e) st st1) as O1 by (apply done_others; try done; intros c2 ? ?; by apply (op_armed mc (OpForward t now TICK_PERIOD) st Q st1 c2 Hg eq_refl)).
  apply (others_trans _ _ _ _ O1).
  destruct (hrtimer_start_expires mc e t HRTIMER_MODE_PINNED st1) as [[ret st2]|] eqn:E2; [|done]. cbn [mbind option_bind] in E.
  unfold hrtimer_start_expires in E2. destruct (tm st1 !! t) as [x|]; [|done]. cbn [mbind option_bind] in E2.
  assert (is_Some (cpus st1 !! smp_processor_id e)) as Hcpu1 by by apply (steady_cpu st st1).
  destruct (start_done mc e t _ _ _ st1 Q1 st2 ret Hg1 Hcpu1 E2) as [[Q2 Hg2] S2 K2 _].
  assert (others (smp_processor_id e) st1 st2) as O2.
  { apply done_others; [apply O1|done|]. intros c2 ? ?. by eapply (start_armed mc e t _ _ HRTIMER_MODE_PINNED st1 Q1); [|..|exact E2]. }
  apply (others_trans _ _ _ _ O2). destruct (tm st2 !! t) as [y|]; [|done]. cbn [mbind option_bind] in E.
  destruct (hrtimer_active y); [injection E as <-; split; [apply O2|done]|].
  assert (others (smp_processor_id e) st2 (set_reads (S (reads st2)) st2)) as O3 by (split; [apply O2|done]).
  apply (others_trans _ _ _ _ O3). apply (IH _ _ Q2 st') in E; [done|by apply (good_outer st2)|apply O2|by apply (steady_cpu st1 st2)].
Qed.

Lemma setup_tick_others e t jiffy ncpus st Q st' :
  good st Q -> calm st -> is_Some (cpus st !! smp_processor_id e) -> 0 <= jiffy <= 2 ^ 62 -> 1 <= ncpus -> 0 <= smp_processor_id e < ncpus ->
  tick_setup_sched_timer mc e t jiffy ncpus st = Some st' -> others (smp_processor_id e) st st'.
Proof.
  intros Hg Hc Hcpu Hj Hn Hid E. unfold tick_setup_sched_timer in E.
  set (st0 := set_reads (S (reads st)) st) in E. assert (good st0 Q) as Hg0 by by apply (good_outer st).
  destruct (hrtimer_init (smp_processor_id e) t CLOCK_MONOTONIC HRTIMER_MODE_ABS st0) as [st1|] eqn:E1; [|done]. cbn [mbind option_bind] in E.
  destruct (init_done _ _ _ _ _ Q st1 Hg0 E1) as [[Q1 Hg1] S1 K1 _].
  assert (others (smp_processor_id e) st st1) as O1.
  { apply done_others; [done|exact K1|]. intros c2 _ Ha. destruct (init_eq _ _ _ _ _ _ E1) as (y & h & Ht & Hy & ->). by apply (unqueued_armed st _ t y). }
  apply (others_trans _ _ _ _ O1). destruct (hrtimer_update _ t st1) as [st2|] eqn:E2; [|done]. cbn [mbind option_bind] in E.
  destruct (update_inv _ t st1 Q1 st2 Hg1 E2) as (Hg2 & S2 & K2 & R2 & C2); [done|intros x _; by apply stagger_range|].
  assert (others (smp_processor_id e) st1 st2) as O2.
  { apply done_others; [apply O1|done|]. intros c2 _ Ha. destruct (update_eq _ _ _ _ E2) as (x & _ & Hy & ->); [done|]. by eapply (unqueued_armed st1). }
  apply (others_trans _ _ _ _ O2). eapply (start_tick_others e t 1 _ st2 Q1 st' Hg2); [apply O2| |exact E]. rewrite C2. by apply (steady_cpu st0 st1).
Qed.

Lemma switch_to_hres_settled e oneshot t jiffy ncpus off st Q ret st' :
  good st Q -> settled st -> 0 <= jiffy <= 2 ^ 62 -> 1 <= ncpus -> 0 <= smp_processor_id e < ncpus -> 0 <= off <= KTIME_MAX ->
  hrtimer_switch_to_hres mc e oneshot t jiffy ncpus off st = Some (ret, st') -> settled st'.
Proof.
  intros Hg Hs Hj Hn Hid Ho E. unfold hrtimer_switch_to_hres in E. set (c := smp_processor_id e) in *.
  destruct (cpus st !! c) as [cb|] eqn:Hcb; [|done]. cbn [mbind option_bind] in E.
  destruct (hres_active cb); [by injection E as _ <-|]. destruct oneshot; cbn [negb] in E; [|by injection E as _ <-].
  destruct (clocks st !! (c, CLOCK_REALTIME)) as [r|] eqn:Hr; [|done]. cbn [mbind option_bind] in E.
  destruct (clocks st !! (c, CLOCK_MONOTONIC)) as [m|] eqn:Hm; [|done]. cbn [mbind option_bind] in E. set (st1 := set_clock _ _ _) in E.
  destruct (hres_on_went st Q c cb r m Hg Hcb Hr Hm) as [[Q1 Hg1] _ _].
  assert (others c st st1) as O1.
  { apply outer_others; [apply Hs|done| | |set_solver]; intros c2; [intros j Hne|intros Hne]; cbn; rewrite !lookup_insert_ne; congruence. }
  destruct (tick_setup_sched_timer mc e t jiffy ncpus st1) as [st2|] eqn:E2; [|done]. cbn [mbind option_bind] in E.
  assert (is_Some (cpus st1 !! c)) as Hcpu1 by (cbn; by rewrite lookup_insert_eq).
  pose proof (setup_tick_others e t jiffy ncpus st1 Q1 st2 Hg1 (proj1 O1) Hcpu1 Hj Hn Hid E2) as O2.
  destruct (setup_tick_went mc e t jiffy ncpus st1 Q1 st2 Hg1 Hcpu1 Hj Hn Hid E2) as [[Q2 Hg2] _ _].
  destruct (retrigger_next_event mc c off st2) as [st3|] eqn:E3; [|done]. injection E as _ <-.
  destruct (retrigger_armed c off st2 Q2 st3 Hg2 (proj1 O2) Ho E3) as [O3 Ha].
  apply (others_settled c st); [done|by apply (others_trans _ _ _ _ O1), (others_trans _ _ _ _ O2)|done].
Qed.

Lemma cpu_up_settled c st st' : settled st -> init_hrtimers_cpu c st = Some st' -> settled st'.
Proof.
  intros Hs E. unfold init_hrtimers_cpu in E. destruct (cpus st !! c) as [cb|]; [|done]. injection E as <-.
  apply (others_settled c st); [done|apply cpu_others, Hs|]. eapply low_armed; [apply lookup_insert_eq|done].
Qed.

(** *** A CPU that goes *)

Lemma migrate_others c old new : forall fuel st Q st',
  good st Q -> calm st -> is_Some (cpus st !! c) -> old <> new -> new.1 = c -> is_Some (clocks st !! new) ->
  migrate_hrtimer_list mc fuel c old new st = Some st' -> others c st st'.
Proof.
  induction fuel as [|fuel IH]; intros st Q st' Hg Hc Hcpu Hne Hn Hnew E; [done|]. cbn [migrate_hrtimer_list] in E.
  destruct (clocks st !! old) as [b|] eqn:Hb; [|done]. cbn [mbind option_bind] in E.
  destruct (queue_of st Q (gd_queues _ _ Hg) old b Hb) as (F & HF & Htree & _ & _ & Hnd). fold (tree_of st b) in E.
  rewrite (rbtree_first _ _ Htree) in E. cbn [mbind option_bind] in E. destruct F as [|t F]; cbn [head] in E; [injection E as <-; by split|].
  destruct (tm st !! t) as [x|] eqn:Hx; [|done]. cbn [mbind option_bind] in E. destruct (hrtimer_callback_running x) eqn:Hr; [done|].
  destruct (hr_migrate_one mc c old new t F st Q Hg Hcpu Hne Hnew HF) as (st1 & Q1 & y & Hy & E1 & Hg1 & HE1 & T1 & S1 & R1 & C1);
    [intros y Hy; congruence|]. rewrite E1 in E.
  assert (others c st st1) as O1.
  { split; [intros q z; rewrite T1; destruct (decide (q = t)) as [->|]; [rewrite lookup_insert_eq; by intros [= <-]|rewrite lookup_insert_ne by done; apply Hc]|].
    intros c2 Hc2 Ha. apply (armed_step st); [done|by rewrite C1|by rewrite R1|]. intros next H i.
    apply (covered_change st st1 (c2, i) next t (moved_to new y)); [apply H|done|apply (sd_clocks _ _ S1)|]. intros _ [= ->]. done. }
  apply (others_trans _ _ _ _ O1), (IH st1 Q1 st' Hg1 (proj1 O1)); [by rewrite C1|done|done|by apply (same_clock_some _ _ _ (sd_clocks _ _ S1))|exact E].
Qed.

Lemma tick_cancel_settled c tick st Q st' :
  good st Q -> settled st -> is_Some (cpus st !! c) -> tick_cancel_sched_timer mc c tick st = Some st' ->
  settled st' /\ exists Q', good st' Q' /\ steady st st'.
Proof.
  intros Hg Hs Hcpu E. unfold tick_cancel_sched_timer in E. destruct (default false _); [|injection E as <-; split; [done|by exists Q]].
  unfold hrtimer_cancel in E. destruct (hrtimer_try_to_cancel mc c tick st) as [[ret st2]|] eqn:E2; [|done]. cbn [mbind option_bind] in E.
  destruct (ret >=? 0); [|done]. injection E as <-. destruct (cancel_done mc c tick st Q st2 ret Hg Hcpu E2) as [[Q2 Hg2] S2 _ _].
  split; [|by exists Q2]. apply (op_settled (OpCancel c tick) st Q st2 Hg eq_refl Hs). cbn [run_op]. destruct Hcpu as [cb ->]. cbn [mbind option_bind]. by rewrite E2.
Qed.

Lemma migrate_settled fuel c scpu tick st Q st' :
  tame mc handler -> good st Q -> settled st -> is_Some (cpus st !! c) -> migrate_hrtimers mc handler fuel c scpu tick st = Some st' -> settled st'.
Proof.
  intros Ht Hg Hs Hcpu E. unfold migrate_hrtimers in E. destruct (Z.eqb_spec scpu c) as [|Hne]; [done|].
  destruct (tick_cancel_sched_timer mc c tick st) as [st0|] eqn:E0; [|done]. cbn [mbind option_bind] in E.
  destruct (tick_cancel_settled c tick st Q st0 Hg Hs Hcpu E0) as (Hs0 & Q0 & Hg0 & S0). apply (steady_cpu st st0) in Hcpu; [|done]. clear E0 Hg S0.
  assert (forall st i, steady st0 st -> i = CLOCK_REALTIME \/ i = CLOCK_MONOTONIC -> is_Some (clocks st !! (c, i))) as Hclk.
  { intros sti i Si Hi. apply (same_clock_some _ _ _ (sd_clocks _ _ Si)). by apply (cf_clock _ (gd_config _ _ Hg0)). }
  destruct (migrate_hrtimer_list mc _ c (scpu, CLOCK_REALTIME) _ st0) as [st1|] eqn:E1; [|done]. cbn [mbind option_bind] in E.
  assert (others c st0 st1) as O1 by (apply (migrate_others _ _ _ _ _ Q0 _ Hg0 (proj1 Hs0) Hcpu) in E1; [done|congruence|done|apply Hclk; [done|by left]]).
  destruct (fun A B C => migrate_went mc c _ _ _ st0 Q0 st1 Hg0 A B C E1) as [[[Q1 Hg1] _ _] S1]; [done|congruence|apply Hclk; [done|by left]|].
  apply (steady_cpu st0 st1) in Hcpu; [|done].
  destruct (migrate_hrtimer_list mc _ c (scpu, CLOCK_MONOTONIC) _ st1) as [st2|] eqn:E2; [|done]. cbn [mbind option_bind] in E.
  assert (others c st1 st2) as O2 by (apply (migrate_others _ _ _ _ _ Q1 _ Hg1 (proj1 O1) Hcpu) in E2; [done|congruence|done|apply Hclk; [done|by right]]).
  destruct (fun A B C => migrate_went mc c _ _ _ st1 Q1 st2 Hg1 A B C E2) as [[[Q2 Hg2] _ _] _]; [done|congruence|apply Hclk; [done|by right]|].
  destruct (peek_armed fuel c st2 Q2 st' Ht Hg2 (proj1 O2) E) as [O3 Ha].
  apply (others_settled c st0); [done|by apply (others_trans _ _ _ _ O1), (others_trans _ _ _ _ O2)|done].
Qed.
End Settled.
