(* ===== verification/HrtimerSpec.v ===== *)
(** * HrtimerSpec: what the high resolution timers promise

    In every state the timers of a system can reach each queue is a red-black
    tree ordered by expiry; starting, cancelling, forwarding and migrating a
    timer do what they say; no timer is called early; and the event device of a
    CPU is programmed for its first timer, as long as timers are started on the
    CPU they go to. A timer started twice in its callback escapes cancellation. *)

From Stdlib Require Import Sorted.
From S2P Require Import Prelude Rbtree RbtreeInv RbtreeSpec Hrtimer HrtimerInv HrtimerArm.

(** Every operation. *)
Definition any_op (o : hrtimer_op) : bool := true.

(** ** Reachable states *)

(** The clock bases of a CPU at boot, with the resolution of the tick. *)
Definition boot_cpu (res : Z) (d : clock_event_device) (c : Z) (st : hrtimers) : hrtimers :=
  let b := {| active := None; first := None; resolution := res; softirq_time := 0; offset := 0 |} in
  let cb := {| expires_next := KTIME_MAX; hres_active := false; hang_detected := false; nr_events := 0; nr_retries := 0;
               nr_hangs := 0; max_hang_time := 0 |} in
  set_clock (c, CLOCK_REALTIME) b (set_clock (c, CLOCK_MONOTONIC) b (set_cpu c cb (set_dev c d (reads st) st))).

Definition boot (cs : list Z) (res : Z) (d : clock_event_device) : hrtimers :=
  foldr (boot_cpu res d)
    {| tm := ∅; heap := ∅; clocks := ∅; cpus := ∅; devs := ∅; raised := ∅; reads := 0; calls := [] |} cs.

Section Reach.
Context (allowed : hrtimer_op -> bool) (mc : machine) (handler : ptr -> hrtimers -> list hrtimer_op * bool).

(** What can happen to the timers; outside of callbacks only operations that
    are [allowed]. *)
Inductive step : hrtimers -> hrtimers -> Prop :=
| step_op o st st' : allowed o = true -> run_op mc o st = Some st' -> step st st'
| step_interrupt fuel c st st' : hrtimer_interrupt mc handler fuel c st = Some st' -> step st st'
| step_softirq fuel c st st' : run_hrtimer_softirq mc handler fuel c st = Some st' -> step st st'
| step_queues fuel c xtim tomono st st' : hrtimer_run_queues mc handler fuel c xtim tomono st = Some st' -> step st st'
| step_clock c off st st' : 0 <= off <= KTIME_MAX -> retrigger_next_event mc c off st = Some st' -> step st st'
| step_hres e oneshot t jiffy ncpus off ret st st' :
    0 <= jiffy <= 2 ^ 62 -> 1 <= ncpus -> 0 <= smp_processor_id e < ncpus -> 0 <= off <= KTIME_MAX ->
    hrtimer_switch_to_hres mc e oneshot t jiffy ncpus off st = Some (ret, st') -> step st st'
| step_cpu_up c st st' : init_hrtimers_cpu c st = Some st' -> step st st'
| step_cpu_dead fuel c scpu tick st st' :
    is_Some (cpus st !! c) -> migrate_hrtimers mc handler fuel c scpu tick st = Some st' -> step st st'.

Inductive reach : hrtimers -> Prop :=
| reach_boot cs res d : 1 <= res <= KTIME_MAX -> reach (boot cs res d)
| reach_step st st' : reach st -> step st st' -> reach st'.

(** The states other CPUs can see as well: while a timer of the system has left
    its queue for its callback and operations go on. *)
Inductive seen : hrtimers -> Prop :=
| seen_reach st : reach st -> seen st
| seen_call c t x k e st st' :
    seen st -> tm st !! t = Some x -> base x = Some k -> is_Some (cpus st !! c) ->
    remove_hrtimer_raw mc c t k HRTIMER_STATE_CALLBACK false st = Some st' -> seen (log_call e st')
| seen_op o st st' : seen st -> run_op mc o st = Some st' -> seen st'.

End Reach.

Definition boot_base (res : Z) : hrtimer_clock_base :=
  {| active := None; first := None; resolution := res; softirq_time := 0; offset := 0 |}.

Lemma boot_facts cs res d :
  tm (boot cs res d) = ∅ /\ heap (boot cs res d) = ∅ /\ calls (boot cs res d) = [] /\
  (forall c, is_Some (cpus (boot cs res d) !! c) <-> c ∈ cs) /\ (forall c, is_Some (devs (boot cs res d) !! c) <-> c ∈ cs) /\
  forall c i, clocks (boot cs res d) !! (c, i) =
    if decide (c ∈ cs /\ (i = CLOCK_REALTIME \/ i = CLOCK_MONOTONIC)) then Some (boot_base res) else None.
Proof.
  induction cs as [|c0 cs (H1 & H2 & H3 & H4 & H5 & H6)]; cbn [boot foldr].
  { split; [done|]. split; [done|]. split; [done|]. split; [|split]; intros c; cbn; [rewrite lookup_empty; split; [by intros [? ?]|set_solver]..|].
    intros i. rewrite lookup_empty, decide_False; [done|]. set_solver. }
  fold (boot cs res d) in *. cbn. split; [done|]. split; [done|]. split; [done|].
  split; [intros c; rewrite lookup_insert_is_Some', H4; set_solver|]. split; [intros c; rewrite lookup_insert_is_Some', H5; set_solver|].
  intros c i. destruct (decide ((c, i) = (c0, CLOCK_REALTIME))) as [[= -> ->]|N0].
  { rewrite lookup_insert_eq, decide_True; [done|]. split; [set_solver|by left]. }
  rewrite lookup_insert_ne by done. destruct (decide ((c, i) = (c0, CLOCK_MONOTONIC))) as [[= -> ->]|N1].
  { rewrite lookup_insert_eq, decide_True; [done|]. split; [set_solver|by right]. }
  rewrite lookup_insert_ne by done. rewrite H6.
  assert ((c ∈ cs /\ (i = CLOCK_REALTIME \/ i = CLOCK_MONOTONIC)) <-> (c ∈ c0 :: cs /\ (i = CLOCK_REALTIME \/ i = CLOCK_MONOTONIC))) as Hiff.
  { rewrite elem_of_cons. split; [tauto|]. intros [[->|?] Hi]; [|done]. destruct Hi as [-> | ->]; congruence. }
  destruct (decide (c ∈ cs /\ _)), (decide (c ∈ c0 :: cs /\ _)); tauto.
Qed.

Lemma boot_good cs res d : 1 <= res <= KTIME_MAX -> exists Q, good (boot cs res d) Q.
Proof.
  intros Hr. destruct (boot_facts cs res d) as (H1 & H2 & H3 & H4 & H5 & H6). set (st := boot cs res d) in *. exists ((fun _ => []) <$> clocks st).
  assert (forall k b, clocks st !! k = Some b -> b = boot_base res) as Hb.
  { intros [c i] b. rewrite H6. destruct (decide _); [by intros [= <-]|done]. }
  split; constructor; rewrite ?H1; try (intros *; rewrite lookup_empty; done).
  - intros k b Hk. exists []. rewrite lookup_fmap, Hk, (Hb k b Hk). split; [done|]. split; [|done]. exists Nil.
    split; [by repeat constructor|]. split; [|done]. split; [done|]. exists 0%nat. constructor.
  - intros k E. rewrite lookup_fmap. by destruct (clocks st !! k).
  - intros t k E. rewrite lookup_fmap. destruct (clocks st !! k); [|done]. intros [= <-]. set_solver.
  - intros k E. rewrite lookup_fmap. destruct (clocks st !! k); [|done]. intros [= <-]. constructor.
  - intros c i. rewrite H6, H4. destruct (decide _) as [H|H]; [split; [done|]; by eexists|]. split; [by intros [? ?]|tauto].
  - intros c. by rewrite H4, H5.
  - intros k b Hk. rewrite (Hb k b Hk). cbn. split; [done|]. unfold KTIME_MAX. lia.
Qed.

Section Reached.
Context (allowed : hrtimer_op -> bool) (mc : machine) (handler : ptr -> hrtimers -> list hrtimer_op * bool).

Lemma step_went st st' Q : good st Q -> step allowed mc handler st st' -> went st st'.
Proof.
  intros Hg Hs. destruct Hs as [o st st' _ E|fuel c st st' E|fuel c st st' E|fuel c xtim tomono st st' E|c off st st' Ho E
    |e oneshot t jiffy ncpus off ret st st' Hj Hn Hid Ho E|c st st' E|fuel c scpu tick st st' Hc E].
  - apply op_done_went. by apply (run_op_done mc o st Q).
  - by apply (interrupt_went mc handler fuel c st Q).
  - unfold run_hrtimer_softirq in E. assert (went st (set_raised (raised st ∖ {[c]}) st)) as W1 by (by apply (went_outer st _ Q)).
    apply (went_trans _ _ _ W1). destruct (wn_good _ _ W1) as [Q1 Hg1]. by apply (peek_went mc handler fuel c _ Q1).
  - by apply (run_queues_went mc handler fuel c xtim tomono st Q).
  - by apply (retrigger_went mc c off st Q).
  - by apply (switch_to_hres_went mc e oneshot t jiffy ncpus off st Q ret).
  - unfold init_hrtimers_cpu in E. destruct (cpus st !! c) as [cb|] eqn:Hcb; [|done]. injection E as <-. apply (set_cpu_went st Q); [done|by rewrite Hcb].
  - by apply (migrate_hrtimers_went mc handler fuel c scpu tick st Q).
Qed.

Lemma hr_reach_good st : reach allowed mc handler st -> (exists Q, good st Q) /\ Forall on_time (calls st).
Proof.
  induction 1 as [cs res d Hr|st st' Hr IH Hs]; [split; [by apply boot_good|]; by destruct (boot_facts cs res d) as (_ & _ & -> & _)|].
  destruct IH as [[Q Hg] Hc]. destruct (step_went st st' Q Hg Hs) as [Hg' (l & -> & Hl) _]. split; [done|]. by apply Forall_app.
Qed.

Lemma log_good e st Q : good st Q -> good (log_call e st) Q.
Proof. intros Hg. by apply (good_outer st). Qed.

Lemma seen_good st : seen allowed mc handler st -> exists Q, good st Q.
Proof.
  induction 1 as [st Hr|c t x k e st st' _ [Q [HQ Hc]] Hx Hk Hcpu E|o st st' _ [Q Hg] E]; [by apply hr_reach_good| |].
  - destruct (remove_raw_spec mc st Q c t x k HRTIMER_STATE_CALLBACK false HQ Hc Hx Hk Hcpu (callback_not_queued x)) as (st1 & E1 & HQ1 & Hc1 & _).
    rewrite E1 in E. injection E as <-. eexists. by apply log_good.
  - by destruct (run_op_done mc o st Q st' Hg E) as [? _ _ _].
Qed.

Lemma step_settled st st' Q :
  tame mc handler -> (forall o, allowed o = true -> local_op o = true) -> good st Q -> settled st -> step allowed mc handler st st' -> settled st'.
Proof.
  intros Ht Hl Hg Hset Hs. destruct Hs as [o st st' Ho E|fuel c st st' E|fuel c st st' E|fuel c xtim tomono st st' E|c off st st' Ho E
    |e oneshot t jiffy ncpus off ret st st' Hj Hn Hid Ho E|c st st' E|fuel c scpu tick st st' Hc E].
  - apply (op_settled mc o st Q); auto.
  - destruct (interrupt_armed mc handler fuel c st Q st' Ht Hg (proj1 Hset) E) as [Hot Ha]. by apply (others_settled c st).
  - by apply (softirq_settled mc handler fuel c st Q).
  - by apply (run_queues_settled mc handler fuel c xtim tomono st Q).
  - destruct (retrigger_armed mc c off st Q st' Hg (proj1 Hset) Ho E) as [Hot Ha]. by apply (others_settled c st).
  - by apply (switch_to_hres_settled mc e oneshot t jiffy ncpus off st Q ret).
  - by apply (cpu_up_settled c st).
  - by apply (migrate_settled mc handler fuel c scpu tick st Q).
Qed.

Lemma boot_low cs res d c cb : cpus (boot cs res d) !! c = Some cb -> hres_active cb = false.
Proof.
  induction cs as [|c0 cs IH]; cbn [boot foldr]; [done|]. fold (boot cs res d). cbn. destruct (decide (c = c0)) as [->|]; [|by rewrite lookup_insert_ne].
  rewrite lookup_insert_eq. by intros [= <-].
Qed.

Lemma reach_settled st :
  tame mc handler -> (forall o, allowed o = true -> local_op o = true) -> reach allowed mc handler st -> settled st.
Proof.
  intros Ht Hl. induction 1 as [cs res d Hr|st st' Hr IH Hs].
  - destruct (boot_facts cs res d) as (Htm & _). split; [intros t x; by rewrite Htm|]. intros c cb Hcb Hres. by rewrite (boot_low _ _ _ _ _ Hcb) in Hres.
  - destruct (hr_reach_good st Hr) as [[Q Hg] _]. by apply (step_settled st st' Q).
Qed.
End Reached.

(** ** Queues *)

Lemma rep_inj h t1 : forall par t2, rep h par t1 -> rep h par t2 -> top t1 = top t2 -> t1 = t2.
Proof.
  induction t1 as [|c a IHa p b IHb]; intros par [|c2 a2 p2 b2]; cbn [top]; try done. cbn [rep]. intros (H1 & Ha & Hb) (H2 & Ha2 & Hb2) [= <-].
  rewrite H1 in H2. injection H2 as -> Hr Hl. f_equal; eauto.
Qed.

Lemma rbtree_inj st E1 E2 : rbtree st E1 -> rbtree st E2 -> E1 = E2.
Proof.
  intros (t1 & [R1 T1 _] & _ & <-) (t2 & [R2 T2 _] & _ & <-). f_equal. apply (rep_inj (nodes st) t1 None); congruence.
Qed.

(** The queue of the clock base [k]: a red-black tree of the timers [E], in this
    order, and its first one. *)
Definition queue (st : hrtimers) (k : Z * Z) (E : list ptr) : Prop :=
  exists b, clocks st !! k = Some b /\ rbtree (tree_of st b) E /\ first b = head E.

Lemma good_queue st Q k E : good st Q -> queue st k E <-> Q !! k = Some E.
Proof.
  intros [HQ Hc]. split.
  - intros (b & Hb & Ht & Hf). destruct (queue_of st Q HQ k b Hb) as (E' & HE & Ht' & _). by rewrite (rbtree_inj _ _ _ Ht Ht').
  - intros HE. destruct (qs_clock _ _ HQ k E HE) as [b Hb]. destruct (queue_of st Q HQ k b Hb) as (E' & HE' & Ht & Hf & _).
    assert (E' = E) as -> by congruence. by exists b.
Qed.

(** A timer of the clock base [k] is on no other queue. *)
Lemma del_queue st Q t x k j E :
  good st Q -> tm st !! t = Some x -> base x = Some k -> alter (list_del t) k Q !! j = Some E <-> exists F, queue st j F /\ E = list_del t F.
Proof.
  intros Hg Hx Hk. assert (forall F, Q !! j = Some F -> j <> k -> list_del t F = F) as Hno.
  { intros F HF Hj. apply list_del_notin. intros Ht. destruct (qs_in _ _ (gd_queues _ _ Hg) t j F HF Ht) as (x' & Hx' & Hb & _). congruence. }
  split.
  - intros H. destruct (decide (j = k)) as [->|Hj].
    + rewrite lookup_alter_eq in H. destruct (Q !! k) as [F|] eqn:HF; [|done]. injection H as <-. exists F. split; [by apply (good_queue st Q)|done].
    + rewrite lookup_alter_ne in H by done. exists E. split; [by apply (good_queue st Q)|by rewrite (Hno E)].
  - intros (F & HF%(good_queue st Q j F Hg) & ->). destruct (decide (j = k)) as [->|Hj]; [by rewrite lookup_alter_eq, HF|].
    rewrite lookup_alter_ne by done. by rewrite (Hno F).
Qed.

Lemma queue_length st k E : queue st k E -> (length E <= size (heap st))%nat.
Proof.
  intros (b & _ & (t & Hh & _ & <-) & _). apply holds_place in Hh. pose proof (place_size _ _ _ _ Hh) as H. unfold walk_fuel in H. cbn in H. lia.
Qed.

Lemma migrated_perm st st' Q Q' scpu c i E F G :
  good st Q -> good st' Q' -> c <> scpu -> Q !! (scpu, i) = Some E -> Q !! (c, i) = Some F -> Q' !! (c, i) = Some G ->
  (forall t, tm st' !! t = (if decide (t ∈ E) then moved_to (c, i) else id) <$> tm st !! t) -> G ≡ₚ E ++ F.
Proof.
  intros [HQ Hc] [HQ' Hc'] Hne HE HF HG T. assert (forall k X st Q, queues st Q -> Q !! k = Some X -> NoDup X) as Hnd.
  { intros k X s0 Q0 H0 HX. destruct (qs_clock _ _ H0 k X HX) as [b Hb]. destruct (queue_of s0 Q0 H0 k b Hb) as (X' & HX' & _ & _ & _ & Hnd). congruence. }
  assert (forall t, t ∈ E -> t ∉ F) as Hdis.
  { intros t Ht Ht'. destruct (qs_in _ _ HQ _ _ _ HE Ht) as (x & Hx & Hk & _), (qs_in _ _ HQ _ _ _ HF Ht') as (y & Hy & Hk' & _). congruence. }
  apply NoDup_Permutation; [by apply (Hnd (c, i) G st' Q')| |].
  { apply NoDup_app. split; [by apply (Hnd (scpu, i) E st Q)|]. split; [done|by apply (Hnd (c, i) F st Q)]. }
  intros t. rewrite elem_of_app. split.
  - intros Ht. destruct (qs_in _ _ HQ' _ _ _ HG Ht) as (x & Hx & Hk & Hq & _). rewrite T in Hx. destruct (decide (t ∈ E)) as [|Hn]; [by left|right].
    destruct (tm st !! t) as [y|] eqn:Hy; [|done]. injection Hx as ->. destruct (qs_out _ _ HQ t x Hy Hq) as (k & X & Hk' & HX & Hin). congruence.
  - intros Ht. assert (exists x, tm st' !! t = Some x /\ hrtimer_is_queued x = true /\ base x = Some (c, i)) as (x & Hx & Hq & Hk).
    { destruct Ht as [Ht|Ht].
      - destruct (qs_in _ _ HQ _ _ _ HE Ht) as (y & Hy & _). exists (moved_to (c, i) y). by rewrite T, Hy, decide_True.
      - destruct (qs_in _ _ HQ _ _ _ HF Ht) as (y & Hy & Hk & Hq & _). exists y. rewrite T, Hy, decide_False; [done|]. intros H. by apply (Hdis t). }
    destruct (qs_out _ _ HQ' t x Hx Hq) as (k & X & Hk' & HX & Hin). congruence.
Qed.

(** ** The time to the next event *)

Section NextEvent.
Context (mc : machine).

(** What the clocks tell is a time. *)
Definition clocks_sane : Prop := forall i n, 0 <= clock_at mc i n <= KTIME_MAX.

(** No timer of the clock base [k] has less time left than [d], by a reading of
    its clock between the [n]th and the [n']th. *)
Definition delta_covers (st : hrtimers) (k : Z * Z) (d : Z) (n n' : nat) : Prop :=
  forall t x, tm st !! t = Some x -> hrtimer_is_queued x = true -> base x = Some k ->
    exists i, (n <= i < n')%nat /\ d <= ktime_sub (expires x) (clock_at mc k.2 i).

Lemma good_reads st Q n : good st Q -> good (set_reads n st) Q.
Proof. intros Hg. by apply (good_outer st). Qed.

Lemma earlier_delta_spec st Q k m :
  clocks_sane -> good st Q -> is_Some (clocks st !! k) ->
  exists d n, earlier_delta mc k st m = Some (d, set_reads n st) /\ (reads st <= n)%nat /\ d <= m /\ delta_covers st k d (reads st) n.
Proof.
  intros Hs Hg [b Hb]. pose proof Hg as [HQ Hc]. unfold earlier_delta. rewrite Hb. cbn [mbind option_bind].
  destruct (queue_of st Q HQ k b Hb) as (E & HE & _ & Hf & Ho & _).
  assert (forall t x, tm st !! t = Some x -> hrtimer_is_queued x = true -> base x = Some k -> t ∈ E) as HinE.
  { intros t x Hx Hq Hk. destruct (qs_out _ _ HQ t x Hx Hq) as (k' & E' & Hk' & HE' & Ht). congruence. }
  destruct (first b) as [t|] eqn:Ef.
  - destruct E as [|q E]; [done|]. injection Hf as <-. destruct (qs_in _ _ HQ t k _ HE) as (x & Hx & _ & _ & Hxr); [set_solver|].
    rewrite Hx. cbn [mbind option_bind]. unfold get_time. fold (clock_at mc k.2 (reads st)). set (d := ktime_sub _ _).
    exists (if d <? m then d else m), (S (reads st)). split; [done|]. split; [lia|]. split; [case_if; lia|].
    intros t' x' Hx' Hq' Hk'. exists (reads st). split; [lia|]. destruct (qs_in _ _ HQ t' k _ HE (HinE t' x' Hx' Hq' Hk')) as (y & Hy & _ & _ & Hyr).
    assert (expires x <= expires x') as Hle.
    { pose proof (HinE t' x' Hx' Hq' Hk') as [->|Ht']%elem_of_cons; [assert (x = x') as -> by congruence; done|].
      apply StronglySorted_inv in Ho as [_ Ho]. rewrite Forall_forall in Ho. specialize (Ho t' Ht').
      rewrite (exp_of_eq _ _ _ Hx), (exp_of_eq _ _ _ Hx') in Ho. done. }
    assert (y = x') as -> by congruence. unfold d. pose proof (Hs k.2 (reads st)). rewrite !sub_small by done. case_if; lia.
  - exists m, (reads st). split; [by destruct st|]. split; [done|]. split; [done|]. intros t x Hx Hq Hk. specialize (HinE t x Hx Hq Hk).
    destruct E; [by apply not_elem_of_nil in HinE|done].
Qed.

(** The time to the next timer of a CPU, and none when it is in high resolution
    mode. *)
Lemma get_next_event_spec st Q c cb :
  clocks_sane -> good st Q -> cpus st !! c = Some cb ->
  exists d n, hrtimer_get_next_event mc c st = Some (d, set_reads n st) /\ 0 <= d <= KTIME_MAX /\ (reads st <= n)%nat /\
    (hres_active cb = false -> forall i t x, tm st !! t = Some x -> hrtimer_is_queued x = true -> base x = Some (c, i) ->
       exists j, (reads st <= j < n)%nat /\ d <= Z.max 0 (ktime_sub (expires x) (clock_at mc i j))).
Proof.
  intros Hs Hg Hcb. pose proof Hg as [_ Hc]. unfold hrtimer_get_next_event. rewrite Hcb. cbn [mbind option_bind].
  assert (forall i, i = CLOCK_REALTIME \/ i = CLOCK_MONOTONIC -> is_Some (clocks st !! (c, i))) as Hk by (intros i Hi; apply (cf_clock _ Hc); by rewrite Hcb).
  destruct (hres_active cb); cbn [negb].
  { exists KTIME_MAX, (reads st). split; [by destruct st|]. by split_and!. }
  destruct (earlier_delta_spec st Q (c, CLOCK_REALTIME) KTIME_MAX Hs Hg (Hk _ (or_introl eq_refl))) as (d1 & n1 & -> & L1 & M1 & C1).
  cbn [mbind option_bind].
  destruct (earlier_delta_spec (set_reads n1 st) Q (c, CLOCK_MONOTONIC) d1 Hs (good_reads _ _ _ Hg) (Hk _ (or_intror eq_refl))) as (d2 & n2 & -> & L2 & M2 & C2).
  cbn [mbind option_bind reads set_reads] in *. exists (if d2 <? 0 then 0 else d2), n2. split; [done|]. split; [unfold KTIME_MAX in *; case_if; lia|].
  split; [lia|]. intros _ i t x Hx Hq Hb.
  assert (i = CLOCK_REALTIME \/ i = CLOCK_MONOTONIC) as [-> | ->].
  { destruct (cf_base _ Hc t x Hx) as (k & Hk' & Hcl). rewrite Hb in Hk'. injection Hk' as <-. apply (cf_clock _ Hc) in Hcl. tauto. }
  - destruct (C1 t x Hx Hq Hb) as (j & Hj & Hd). exists j. split; [lia|]. cbn [snd] in Hd. case_if; lia.
  - destruct (C2 t x Hx Hq Hb) as (j & Hj & Hd). exists j. split; [lia|]. cbn [snd] in Hd. case_if; lia.
Qed.
End NextEvent.

Section Public.
Context (allowed : hrtimer_op -> bool) (mc : machine) (handler : ptr -> hrtimers -> list hrtimer_op * bool).

(** C4. In every state, also while callbacks run, the queue of a clock base is a red-black tree
    of exactly the timers that are queued on it, ordered by expiry, and [first]
    points to the first of them. *)
Theorem hrtimer_queues st k b :
  seen allowed mc handler st -> clocks st !! k = Some b ->
  exists E, rbtree (tree_of st b) E /\ first b = head E /\ by_expiry (exp_of (tm st)) E /\
    forall t, t ∈ E <-> exists x, tm st !! t = Some x /\ hrtimer_is_queued x = true /\ base x = Some k.
Proof.
  intros Hr Hb. destruct (seen_good allowed mc handler st Hr) as [Q [HQ _]]. destruct (queue_of st Q HQ k b Hb) as (E & HE & Ht & Hf & Ho & _).
  exists E. split; [done|]. split; [done|]. split; [done|]. intros t. split.
  - intros Hin. destruct (qs_in _ _ HQ t k E HE Hin) as (x & ? & ? & ? & _). by exists x.
  - intros (x & Hx & Hq & Hk). destruct (qs_out _ _ HQ t x Hx Hq) as (k' & E' & Hk' & HE' & Hin). congruence.
Qed.

(** C32. No timer is called early: the time a callback was called at is not
    before the soft expiry, or, from the tick, after the expiry. *)
Theorem hrtimer_never_early st e :
  reach allowed mc handler st -> e ∈ calls st -> call_softexpires e <= call_now e \/ call_expires e < call_now e.
Proof.
  intros Hr He. destruct (hr_reach_good allowed mc handler st Hr) as [_ Hc]. rewrite Forall_forall in Hc. by apply Hc.
Qed.

(** C31. Starting a timer answers whether it was queued, sets its expiry, and
    moves it from its queue to its place by expiry, after the timers of the same
    expiry, in the queue of the CPU it goes to; no other timer changes. *)
Theorem hrtimer_start_exact st e t tim delta mode x k :
  seen allowed mc handler st -> tm st !! t = Some x -> base x = Some k ->
  is_Some (cpus st !! smp_processor_id e) -> is_Some (cpus st !! hrtimer_get_target e (has mode HRTIMER_MODE_PINNED)) ->
  exists st' y new n,
    hrtimer_start_range_ns mc e t tim delta mode st = Some (if hrtimer_is_queued x then 1 else 0, st') /\
    tm st' = <[t := y]> (tm st) /\ started x y new /\ start_range mc tim delta mode k.2 n y /\
    placed_on e (has mode HRTIMER_MODE_PINNED) (negb (hrtimer_is_queued x) && hrtimer_callback_running x) k new /\
    forall j E', queue st' j E' <-> exists E, queue st j E /\
      E' = if decide (j = new) then insort (exp_of (tm st)) t (expires y) (list_del t E) else list_del t E.
Proof.
  intros Hr Hx Hk Hthis Htarget. destruct (seen_good allowed mc handler st Hr) as [Q Hg].
  destruct (start_spec mc e t tim delta mode st Q x k Hg Hx Hk Hthis) as [[_ Hno]|(st1 & st3 & st' & new & y & F & E & Hss)];
    [rewrite Hno in Htarget; by destruct Htarget|].
  destruct Hss as [_ _ HF Hg3 (T3 & C3 & R3 & S3) Hpl Hst [n Hrange] Hlast].
  assert (good st' (<[new := insort (exp_of (tm st)) t (expires y) F]> (alter (list_del t) k Q)) /\ tm st' = tm st3) as [Hg' T'].
  { destruct (bool_decide _ && _); [|by subst]. destruct Hlast as [Hs _]. pose proof (sooner_steady _ _ _ Hs). destruct Hs as [A1 A2 A3 A4 A5 A6 A7].
    split; [by apply (good_same st3)|done]. }
  exists st', y, new, n. split; [done|]. split; [by rewrite T'|]. split; [done|]. split; [done|]. split; [done|].
  intros j E'. rewrite (good_queue _ _ _ _ Hg'). destruct (decide (j = new)) as [->|Hj].
  - rewrite lookup_insert_eq. apply (del_queue st Q t x k new F Hg Hx Hk) in HF as (F0 & HF0 & ->). split; [intros [= <-]; by exists F0|].
    intros (G & HG & ->). apply (good_queue st Q) in HF0, HG; [|done..]. congruence.
  - rewrite lookup_insert_ne by done. by apply (del_queue st Q t x k).
Qed.

(** A timer whose callback runs is not cancelled and the answer is -1; else
    the answer is whether it was queued, and it is queued no more. *)
Theorem hrtimer_cancel_exact st c t x k :
  seen allowed mc handler st -> tm st !! t = Some x -> base x = Some k -> is_Some (cpus st !! c) ->
  exists st',
    hrtimer_try_to_cancel mc c t st =
      Some (if hrtimer_callback_running x then -1 else if hrtimer_is_queued x then 1 else 0, st') /\
    tm st' = <[t := if hrtimer_is_queued x && negb (hrtimer_callback_running x) then set_state HRTIMER_STATE_INACTIVE x else x]> (tm st) /\
    forall j E', queue st' j E' <-> exists E, queue st j E /\ E' = if hrtimer_callback_running x then E else list_del t E.
Proof.
  intros Hr Hx Hk Hc. destruct (seen_good allowed mc handler st Hr) as [Q Hg]. unfold hrtimer_try_to_cancel.
  rewrite Hx. cbn [mbind option_bind]. rewrite Hk. cbn [mbind option_bind]. destruct (hrtimer_callback_running x); cbn [negb].
  - exists st. split; [done|]. rewrite andb_false_r, insert_id by done. split; [done|]. intros j E'. split; [intros H; by exists E'|by intros (E & H & ->)].
  - destruct (removed_spec mc st Q c t x k Hg Hx Hk Hc) as (st1 & s & E1 & Hg1 & T1 & _ & -> & _). exists st1. split; [done|]. split.
    + rewrite T1, andb_true_r. destruct (hrtimer_is_queued x); [done|]. by destruct x.
    + intros j E'. rewrite (good_queue _ _ _ _ Hg1). by apply (del_queue st Q t x k).
Qed.

(** C3. When timers are started on the CPU of the caller and callbacks of the
    monotonic clock start no timers of the wall clock, then in every reachable
    state the next event of a CPU in high resolution mode is not after any timer
    queued on it, unless the last interrupt asked for a pause or the softirq is
    pending. *)
Theorem hrtimer_next_event_covers st c i cb b t x :
  tame mc handler -> reach local_op mc handler st ->
  cpus st !! c = Some cb -> hres_active cb = true -> hang_detected cb = false -> c ∉ raised st ->
  tm st !! t = Some x -> hrtimer_is_queued x = true -> base x = Some (c, i) -> clocks st !! (c, i) = Some b ->
  expires_next cb <= Z.max 0 (ktime_sub (expires x) (offset b)).
Proof.
  intros Ht Hr Hcb Hres Hhang Hsoft Hx Hq Hk Hb. destruct (reach_settled local_op mc handler st Ht (fun _ H => H) Hr) as [_ Ha].
  destruct (Ha c cb Hcb Hres) as [?|[?|Hcov]]; [congruence|done|by apply (Hcov i t)].
Qed.

(** C33. When a CPU goes, all timers of a clock base of it, none of them running,
    go to the base of the same clock of another CPU, which is ordered then, and
    keep their expiry; nothing is left and no other timer changes. *)
Theorem hrtimer_migrate_all st c scpu i E F :
  reach allowed mc handler st -> c <> scpu -> is_Some (cpus st !! c) -> queue st (scpu, i) E -> queue st (c, i) F ->
  (forall t x, t ∈ E -> tm st !! t = Some x -> hrtimer_callback_running x = false) ->
  exists st' G, migrate_hrtimer_list mc (S (size (heap st))) c (scpu, i) (c, i) st = Some st' /\
    queue st' (scpu, i) [] /\ queue st' (c, i) G /\ G ≡ₚ E ++ F /\ by_expiry (exp_of (tm st')) G /\
    forall t, tm st' !! t = (if decide (t ∈ E) then moved_to (c, i) else id) <$> tm st !! t.
Proof.
  intros Hr Hne Hcpu HE HF Hrun. destruct (hr_reach_good allowed mc handler st Hr) as [[Q Hg] _]. pose proof (queue_length st _ _ HE) as Hlen.
  apply (good_queue _ _ _ _ Hg) in HE, HF. destruct (qs_clock _ _ (gd_queues _ _ Hg) _ _ HF) as [b Hb].
  destruct (hr_migrate_spec mc c (scpu, i) (c, i) E (S (size (heap st))) st Q Hg Hcpu) as (st' & Q' & E1 & Hg' & HE' & S1 & _ & T1); try done; [congruence|lia|].
  assert (is_Some (clocks st' !! (c, i))) as [b' Hb'] by (apply (same_clock_some _ _ _ (sd_clocks _ _ S1)); by exists b).
  destruct (queue_of st' Q' (gd_queues _ _ Hg') _ _ Hb') as (G & HG & _ & _ & Ho & Hnd).
  exists st', G. split; [done|]. split; [by apply (good_queue _ _ _ _ Hg')|]. split; [by apply (good_queue _ _ _ _ Hg')|].
  split; [|done]. by apply (migrated_perm st st' Q Q' scpu c i).
Qed.
End Public.

(** ** The event device and periodic timers *)

Lemma program_loop_result mc fuel : forall force i k e now d ret d' k',
  now = ktime_get mc (pred k) -> program_loop mc fuel force i k e now d = Some (ret, d', k') ->
  ret = 0 /\ 0 < ktime_sub (next_event d') (ktime_get mc (pred k')) \/
  ret <> 0 /\ (force = false \/ ret = - ETIME /\ next_event d' = KTIME_MAX /\ MIN_DELTA_LIMIT <= min_delta_ns d').
Proof.
  induction fuel as [|fuel IH]; intros force i k e now d ret d' k' Hnow E; [done|]. cbn [program_loop] in E.
  destruct (clockevents_program_event mc k e now d) as [r d1] eqn:Ep. destruct (Z.eqb_spec r 0) as [->|Hr]; cbn [orb] in E.
  { injection E as <- <- <-. left. split; [done|]. unfold clockevents_program_event in Ep. destruct (e <? 0); [done|].
    destruct (Z.leb_spec (ktime_sub e now) 0); [done|]. rewrite <- Hnow. destruct (shutdown _); [injection Ep as <-|injection Ep as _ <-]; cbn; lia. }
  destruct force; cbn [negb] in E; [|injection E as <- <- <-; right; split; [done|by left]].
  destruct (i + 1 >? 2); [|by apply (IH _ _ _ _ _ _ _ _ _ eq_refl E)].
  unfold tick_increase_min_delta in E. destruct (Z.geb_spec (min_delta_ns (count_try d1)) MIN_DELTA_LIMIT) as [Hl|Hl]; [|by apply (IH _ _ _ _ _ _ _ _ _ eq_refl E)].
  injection E as <- <- <-. right. split; [done|]. right. done.
Qed.

Lemma tick_dev_program_event_eq mc k e force d :
  tick_dev_program_event mc k e force d = program_loop mc program_fuel force 0 (S k) e (ktime_get mc k) d.
Proof. reflexivity. Qed.

(** C34. Programming an event device returns, whatever the clock shows and the
    driver answers: with an event after the last reading of the clock, or not
    forced, or the minimal delta has reached its limit and the device is off. *)
Theorem tick_program_event_settles mc k e force d :
  exists ret d' k', tick_dev_program_event mc k e force d = Some (ret, d', k') /\
    (ret = 0 /\ 0 < ktime_sub (next_event d') (ktime_get mc (pred k')) \/
     ret <> 0 /\ (force = false \/ ret = - ETIME /\ next_event d' = KTIME_MAX /\ MIN_DELTA_LIMIT <= min_delta_ns d')).
Proof.
  destruct (program_device_total mc k e force d) as ([[ret d'] k'] & E).
  exists ret, d', k'. split; [exact E|]. rewrite tick_dev_program_event_eq in E. revert E. apply program_loop_result. reflexivity.
Qed.

(** C35. Forwarding a timer that has expired adds the least number of intervals,
    at least the resolution each, that takes its expiry past [now], and answers
    this number; a timer that has not expired is left alone. *)
Theorem hrtimer_forward_exact res now interval x n x' :
  1 <= res -> 0 <= now -> 0 <= expires x <= KTIME_MAX -> now + Z.max res interval <= KTIME_MAX ->
  hrtimer_forward res now interval x = (n, x') ->
  if now <? expires x then n = 0 /\ x' = x
  else n = (now - expires x) / Z.max res interval + 1 /\ expires x' = expires x + n * Z.max res interval /\
    now < expires x' <= now + Z.max res interval.
Proof.
  intros Hr Hn Hx Hm E. unfold hrtimer_forward in E. rewrite (sub_small now (expires x)) in E by lia.
  assert ((if interval <? res then res else interval) = Z.max res interval) as Hiv by (destruct (Z.ltb_spec interval res); lia).
  rewrite Hiv in E. clear Hiv. set (iv := Z.max res interval) in *. assert (1 <= iv) as Hi by lia. clearbody iv.
  destruct (Z.ltb_spec (now - expires x) 0); [injection E as <- <-; rewrite (proj2 (Z.ltb_lt _ _)) by lia; done|].
  rewrite (proj2 (Z.ltb_ge _ _)) by lia. unfold KTIME_MAX in *. destruct (Z.geb_spec (now - expires x) iv) as [Hd|Hd].
  - destruct (overruns (now - expires x) iv) as (Ho & Hu & Hb & Hl); [unfold KTIME_MAX; lia|done|]. rewrite Hu in E. rewrite Ho in *. cbn [expires hrtimer_add_expires_ns set_range] in E.
    set (q := (now - expires x) / iv) in *. unfold ktime_add_ns in E. rewrite (s64_small (expires x + iv * q)) in E by lia.
    assert (0 <= q) as Hq by (apply Z.div_pos; lia). assert (q <= now) by nia.
    destruct (Z.gtb_spec (expires x + iv * q) now); [lia|]. injection E as <- <-. cbn [hrtimer_add_expires expires set_range hrtimer_add_expires_ns].
    unfold ktime_add_ns. rewrite (s64_small (expires x + iv * q)) by lia. rewrite add_safe_small by (unfold KTIME_MAX; lia). rewrite u64_small by lia. lia.
  - injection E as <- <-. cbn [hrtimer_add_expires expires set_range]. rewrite add_safe_small by (unfold KTIME_MAX; lia). rewrite Z.div_small by lia. lia.
Qed.

(** ** Examples *)

Module hrtimer_demo.
(** A clock that shows 100us more at every reading, wall time 1s ahead, and an
    event device that takes every event. *)
Definition mc : machine := {| ktime_get n := 100000 * Z.of_nat n; ktime_get_real n := NSEC_PER_SEC + 100000 * Z.of_nat n; set_next_event _ _ _ := 0 |}.
Definition dev : clock_event_device :=
  {| max_delta_ns := NSEC_PER_SEC; min_delta_ns := 1000; mult := 1; shift := 0; shutdown := false; next_event := KTIME_MAX; retries := 0 |}.
Definition cpu (c : Z) : cpu_env := {| smp_processor_id := c; timer_migration := true; idle_cpu := false; nohz_load_balancer := -1 |}.
(** CPU 0 while it is idle: CPU 1 does the balancing for it. *)
Definition idle0 : cpu_env := {| smp_processor_id := 0; timer_migration := true; idle_cpu := true; nohz_load_balancer := 1 |}.

Section Run.
Context (allowed : hrtimer_op -> bool) (handler : ptr -> hrtimers -> list hrtimer_op * bool).

Inductive move := Hres (c : Z) (tick : ptr) | Op (o : hrtimer_op) | Irq (c : Z).

Definition run_move (m : move) (st : hrtimers) : option hrtimers :=
  match m with
  | Hres c tick => snd <$> hrtimer_switch_to_hres mc (cpu c) true tick 0 2 NSEC_PER_SEC st
  | Op o => if allowed o then run_op mc o st else None
  | Irq c => hrtimer_interrupt mc handler 10 c st
  end.

Definition booted : hrtimers := boot [0; 1] 4000000 dev.

Definition drive (l : list move) : option hrtimers := foldl (fun st m => st ← st; run_move m st) (Some booted) l.

Lemma drive_reach l st : Forall (fun m => match m with Hres c _ => 0 <= c < 2 | _ => True end) l -> drive l = Some st -> reach allowed mc handler st.
Proof.
  unfold drive. assert (reach allowed mc handler booted) as H0 by (apply reach_boot; unfold KTIME_MAX; lia). revert H0. generalize booted.
  induction l as [|m l IH]; intros st0 H0 Hl E; cbn [foldl] in E; [by injection E as <-|]. cbn [mbind option_bind] in E.
  inversion Hl as [|? ? Hm Hl']; subst. destruct (run_move m st0) as [st1|] eqn:Em.
  2: { exfalso. clear -E. by induction l. }
  refine (IH st1 _ Hl' E). apply (reach_step _ _ _ st0); [done|]. destruct m as [c tick|o|c]; cbn [run_move] in Em.
  - destruct (hrtimer_switch_to_hres mc (cpu c) true tick 0 2 NSEC_PER_SEC st0) as [[ret st2]|] eqn:Es; [|done]. injection Em as ->.
    eapply step_hres; [| | | |exact Es]; cbn; unfold NSEC_PER_SEC, KTIME_MAX; lia.
  - destruct (allowed o) eqn:Ho; [|done]. by apply (step_op _ _ _ o).
  - by eapply step_interrupt.
Qed.
End Run.

Definition quiet_handler : ptr -> hrtimers -> list hrtimer_op * bool := fun _ _ => ([], false).

Lemma quiet_tame : tame mc quiet_handler.
Proof. intros t st x k _ _. reflexivity. Qed.

(** Both CPUs in high resolution mode; timer 1 of the monotonic clock once had
    an expiry of 5s and is started by the idle CPU 0 for 0.9ms. *)
Definition stale_run : list move :=
  [Hres 0 100; Hres 1 101; Op (OpInit 0 1 CLOCK_MONOTONIC HRTIMER_MODE_ABS); Op (OpSetExpires 1 (5 * NSEC_PER_SEC) 0);
   Op (OpStart idle0 1 900000 0 HRTIMER_MODE_ABS)].
Definition stale : hrtimers := default booted (drive any_op quiet_handler stale_run).

(** CPU 0: timers 2 and 4 of the monotonic clock for 0.4ms and 1s; the callback of
    2 starts timer 3 of the wall clock for 9ms. *)
Definition rearm_handler : ptr -> hrtimers -> list hrtimer_op * bool :=
  fun t _ => if decide (t = 2%nat) then ([OpStart (cpu 0) 3 (NSEC_PER_SEC + 9000000) 0 HRTIMER_MODE_ABS], false) else ([], false).
Definition overwrite_run : list move :=
  [Hres 0 100; Op (OpInit 0 2 CLOCK_MONOTONIC HRTIMER_MODE_ABS); Op (OpInit 0 3 CLOCK_REALTIME HRTIMER_MODE_ABS);
   Op (OpInit 0 4 CLOCK_MONOTONIC HRTIMER_MODE_ABS); Op (OpStart (cpu 0) 2 400000 0 HRTIMER_MODE_ABS);
   Op (OpStart (cpu 0) 4 NSEC_PER_SEC 0 HRTIMER_MODE_ABS); Op (OpCancel 0 100); Irq 0].
Definition overwritten : hrtimers := default booted (drive local_op rearm_handler overwrite_run).

Definition fine_run : list move :=
  [Hres 0 100; Hres 1 101; Op (OpInit 1 1 CLOCK_MONOTONIC HRTIMER_MODE_ABS); Op (OpStart (cpu 1) 1 900000 0 HRTIMER_MODE_ABS)].
Definition fine : hrtimers := default booted (drive local_op quiet_handler fine_run).

Lemma stale_reach : reach any_op mc quiet_handler stale.
Proof.
  apply (drive_reach any_op quiet_handler stale_run); [repeat constructor; lia|]. unfold stale.
  destruct (drive any_op quiet_handler stale_run) as [st|] eqn:E; [reflexivity|]. exfalso. revert E. vm_compute. discriminate.
Qed.

Lemma overwritten_reach : reach local_op mc rearm_handler overwritten.
Proof.
  apply (drive_reach local_op rearm_handler overwrite_run); [repeat constructor; lia|]. unfold overwritten.
  destruct (drive local_op rearm_handler overwrite_run) as [st|] eqn:E; [reflexivity|]. exfalso. revert E. vm_compute. discriminate.
Qed.

Lemma fine_reach : reach local_op mc quiet_handler fine.
Proof.
  apply (drive_reach local_op quiet_handler fine_run); [repeat constructor; lia|]. unfold fine.
  destruct (drive local_op quiet_handler fine_run) as [st|] eqn:E; [reflexivity|]. exfalso. revert E. vm_compute. discriminate.
Qed.
End hrtimer_demo.


Lemma start_op_result mc e t tim delta mode st Q x st' :
  good st Q -> tm st !! t = Some x -> run_op mc (OpStart e t tim delta mode) st = Some st' ->
  exists Q' y, good st' Q' /\ steady st st' /\ tm st' !! t = Some y /\ hrtimer_is_queued y = true /\
    hrtimer_callback_running y = negb (hrtimer_is_queued x) && hrtimer_callback_running x.
Proof.
  intros Hg Hx E. destruct (run_op_done mc _ st Q st' Hg E) as [[Q' Hg'] Hs _ _]. cbn [run_op] in E.
  destruct (cpus st !! smp_processor_id e) as [cb|] eqn:Hcpu; [|done]. cbn [mbind option_bind] in E.
  destruct (cf_base _ (gd_config _ _ Hg) t x Hx) as (k & Hk & _).
  destruct (start_spec mc e t (s64 tim) (u64 delta) mode st Q x k Hg Hx Hk) as [[E' _]|(st1 & st3 & st2 & new & y & F & E' & Hss)];
    [by exists cb|by rewrite E' in E|]. rewrite E' in E. injection E as <-. destruct Hss as [_ _ _ _ (T3 & _) _ (_ & Hy2 & Hy3) _ Hlast].
  exists Q', y. split; [done|]. split; [done|]. split; [|done]. destruct (bool_decide _ && _); [destruct Hlast as [[-> _ _ _ _ _ _] _]|subst st2]; by rewrite T3, lookup_insert_eq.
Qed.

(** C38. A timer that is started twice during its callback no longer counts as
    running: whoever cancels it then is told that it was queued and is gone, while
    the callback has not returned. *)
Theorem hrtimer_cancel_misses_callback allowed mc handler st c t x e e2 tim tim2 delta delta2 mode mode2 st' :
  seen allowed mc handler st -> tm st !! t = Some x -> hrtimer_callback_running x = true -> is_Some (cpus st !! c) ->
  run_ops mc [OpStart e t tim delta mode; OpStart e2 t tim2 delta2 mode2] st = Some st' ->
  exists st3, hrtimer_try_to_cancel mc c t st' = Some (1, st3).
Proof.
  intros Hs Hx Hrun Hc E. destruct (seen_good allowed mc handler st Hs) as [Q Hg]. cbn [run_ops] in E.
  destruct (run_op mc (OpStart e t tim delta mode) st) as [st1|] eqn:E1; [|done]. cbn [mbind option_bind] in E.
  destruct (start_op_result _ _ _ _ _ _ _ _ _ _ Hg Hx E1) as (Q1 & y & Hg1 & S1 & Hy & Hyq & _).
  destruct (run_op mc (OpStart e2 t tim2 delta2 mode2) st1) as [st2|] eqn:E2; [|done]. injection E as <-.
  destruct (start_op_result _ _ _ _ _ _ _ _ _ _ Hg1 Hy E2) as (Q2 & z & Hg2 & S2 & Hz & Hzq & Hzr). rewrite Hyq in Hzr. cbn in Hzr.
  unfold hrtimer_try_to_cancel. rewrite Hz. cbn [mbind option_bind]. destruct (cf_base _ (gd_config _ _ Hg2) t z Hz) as (k & Hk & _).
  rewrite Hk. cbn [mbind option_bind]. rewrite Hzr. cbn [negb].
  destruct (removed_spec mc st2 Q2 c t z k Hg2 Hz Hk) as (st3 & s & E3 & _); [by apply (steady_cpu st1), (steady_cpu st)|].
  exists st3. by rewrite E3, Hzq.
Qed.

(** ** Witnesses *)

Module hrtimer_witness.
Import hrtimer_demo.

Lemma stale_seen : seen any_op mc quiet_handler stale.
Proof. apply seen_reach, stale_reach. Qed.

(** Timer 1, which was put before the tick timer of CPU 1. *)
Lemma stale_queue : queue stale (1, CLOCK_MONOTONIC) [1; 101]%nat.
Proof.
  eexists. split; [vm_compute; reflexivity|]. split; [|reflexivity]. exists (Node RB_BLACK (Node RB_RED Nil 1%nat Nil) 101%nat Nil).
  split; [|split; [|reflexivity]].
  - split; [vm_compute; repeat split; reflexivity|reflexivity|apply (bool_decide_unpack _); vm_compute; exact I].
  - split; [reflexivity|]. exists 1%nat. repeat constructor.
Qed.

Lemma stale_queue0 : queue stale (0, CLOCK_MONOTONIC) [100%nat].
Proof.
  eexists. split; [vm_compute; reflexivity|]. split; [|reflexivity]. exists (Node RB_BLACK Nil 100%nat Nil). split; [|split; [|reflexivity]].
  - split; [vm_compute; repeat split; reflexivity|reflexivity|apply (bool_decide_unpack _); vm_compute; exact I].
  - split; [reflexivity|]. exists 1%nat. repeat constructor.
Qed.

Lemma queues_witness : exists b E, clocks stale !! (1, CLOCK_MONOTONIC) = Some b /\ rbtree (tree_of stale b) E /\ first b = head E /\ (1 ∈ E)%nat.
Proof.
  destruct (clocks stale !! (1, CLOCK_MONOTONIC)) as [b|] eqn:Hb; [|exfalso; revert Hb; vm_compute; discriminate].
  destruct (hrtimer_queues any_op mc quiet_handler stale _ b stale_seen Hb) as (E & H1 & H2 & _ & H4). exists b, E.
  split; [reflexivity|]. split; [exact H1|]. split; [exact H2|]. apply H4. eexists. split; [vm_compute; reflexivity|]. split; reflexivity.
Defined.

Lemma early_witness : exists e, e ∈ calls overwritten /\ call_timer e = 2%nat /\ (call_softexpires e <= call_now e \/ call_expires e < call_now e).
Proof.
  eexists {| call_timer := 2; call_softexpires := 400000; call_expires := 400000; call_base := (0, 1); call_now := 400000 |}.
  assert ({| call_timer := 2; call_softexpires := 400000; call_expires := 400000; call_base := (0, 1); call_now := 400000 |} ∈ calls overwritten) as H
    by (vm_compute; left).
  split; [exact H|]. split; [reflexivity|]. exact (hrtimer_never_early local_op mc rearm_handler overwritten _ overwritten_reach H).
Defined.

Lemma start_witness : exists st' y, hrtimer_start_range_ns mc (cpu 0) 1 700000 0 HRTIMER_MODE_ABS stale = Some (1, st') /\ tm st' = <[1%nat := y]> (tm stale).
Proof.
  destruct (tm stale !! 1%nat) as [x|] eqn:Hx; [|exfalso; revert Hx; vm_compute; discriminate].
  destruct (hrtimer_start_exact any_op mc quiet_handler stale (cpu 0) 1 700000 0 HRTIMER_MODE_ABS x (1, CLOCK_MONOTONIC) stale_seen Hx)
    as (st' & y & new & n & H1 & H2 & _).
  - revert Hx. vm_compute. intros [= <-]. reflexivity.
  - vm_compute. eexists. reflexivity.
  - vm_compute. eexists. reflexivity.
  - exists st', y. split; [|exact H2]. rewrite H1. revert Hx. vm_compute. intros [= <-]. reflexivity.
Defined.

Lemma cancel_witness : exists st', hrtimer_try_to_cancel mc 0 1 stale = Some (1, st') /\ queue st' (1, CLOCK_MONOTONIC) [101%nat].
Proof.
  destruct (tm stale !! 1%nat) as [x|] eqn:Hx; [|exfalso; revert Hx; vm_compute; discriminate].
  destruct (hrtimer_cancel_exact any_op mc quiet_handler stale 0 1 x (1, CLOCK_MONOTONIC) stale_seen Hx) as (st' & H1 & _ & H3).
  - revert Hx. vm_compute. intros [= <-]. reflexivity.
  - vm_compute. eexists. reflexivity.
  - exists st'. split; [rewrite H1; revert Hx; vm_compute; intros [= <-]; reflexivity|]. apply H3. exists [1; 101]%nat. split; [exact stale_queue|].
    revert Hx. vm_compute. intros [= <-]. reflexivity.
Defined.

Lemma covers_witness : exists cb, cpus fine !! 1 = Some cb /\ expires_next cb <= 900000.
Proof.
  destruct (cpus fine !! 1) as [cb|] eqn:Hcb; [|exfalso; revert Hcb; vm_compute; discriminate]. exists cb. split; [reflexivity|].
  destruct (tm fine !! 1%nat) as [x|] eqn:Hx; [|exfalso; revert Hx; vm_compute; discriminate].
  destruct (clocks fine !! (1, CLOCK_MONOTONIC)) as [b|] eqn:Hb; [|exfalso; revert Hb; vm_compute; discriminate].
  assert (hres_active cb = true /\ hang_detected cb = false) as [H1 H2] by (revert Hcb; vm_compute; intros [= <-]; split; reflexivity).
  assert (hrtimer_is_queued x = true /\ base x = Some (1, CLOCK_MONOTONIC) /\ expires x = 900000) as (H3 & H4 & H5)
    by (revert Hx; vm_compute; intros [= <-]; repeat split; reflexivity).
  assert (offset b = 0) as H6 by (revert Hb; vm_compute; intros [= <-]; reflexivity).
  assert (1 ∉ raised fine) as H7 by (apply (bool_decide_unpack _); vm_compute; exact I).
  pose proof (hrtimer_next_event_covers mc quiet_handler fine 1 CLOCK_MONOTONIC cb b 1 x quiet_tame fine_reach Hcb H1 H2 H7 Hx H3 H4 Hb) as H.
  rewrite H5, H6 in H. exact H.
Defined.

Lemma migrate_witness :
  exists st' G, migrate_hrtimer_list mc (S (size (heap stale))) 0 (1, CLOCK_MONOTONIC) (0, CLOCK_MONOTONIC) stale = Some st' /\
    queue st' (1, CLOCK_MONOTONIC) [] /\ queue st' (0, CLOCK_MONOTONIC) G /\ G ≡ₚ [1; 101; 100]%nat.
Proof.
  destruct (hrtimer_migrate_all any_op mc quiet_handler stale 0 1 CLOCK_MONOTONIC [1; 101]%nat [100]%nat stale_reach) as (st' & G & H1 & H2 & H3 & H4 & _).
  - discriminate.
  - vm_compute. eexists. reflexivity.
  - exact stale_queue.
  - exact stale_queue0.
  - intros t x [->|[->|[]%elem_of_nil]%elem_of_cons]%elem_of_cons; vm_compute; intros [= <-]; reflexivity.
  - exists st', G. exact (conj H1 (conj H2 (conj H3 H4))).
Defined.

Lemma forward_witness :
  let '(n, x) := hrtimer_forward 1 10 3 {| expires := 2; softexpires := 2; base := None; state := 0 |} in n = 3 /\ expires x = 11.
Proof.
  destruct (hrtimer_forward 1 10 3 {| expires := 2; softexpires := 2; base := None; state := 0 |}) as [n x] eqn:E.
  apply (hrtimer_forward_exact 1 10 3 {| expires := 2; softexpires := 2; base := None; state := 0 |} n x) in E; [|vm_compute; intuition discriminate..].
  cbn in E. destruct E as (-> & -> & _). split; reflexivity.
Defined.

(** Timer 1 of [fine] during its callback. *)
Definition called : hrtimers :=
  default booted (remove_hrtimer_raw mc 1 1 (1, CLOCK_MONOTONIC) HRTIMER_STATE_CALLBACK false fine).
Definition the_call : call := {| call_timer := 1; call_softexpires := 900000; call_expires := 900000; call_base := (1, 1); call_now := 900000 |}.

Lemma called_seen : seen local_op mc quiet_handler (log_call the_call called).
Proof.
  destruct (tm fine !! 1%nat) as [x|] eqn:Hx; [|exfalso; revert Hx; vm_compute; discriminate].
  apply (seen_call local_op mc quiet_handler 1 1 x (1, CLOCK_MONOTONIC) _ fine); [apply seen_reach, fine_reach|exact Hx| | |].
  - revert Hx. vm_compute. intros [= <-]. reflexivity.
  - vm_compute. eexists. reflexivity.
  - unfold called. destruct (remove_hrtimer_raw mc 1 1 _ _ false fine) as [st|] eqn:E; [reflexivity|]. exfalso. revert E. vm_compute. discriminate.
Qed.

Lemma misses_witness : exists st' st3,
  run_ops mc [OpStart (cpu 1) 1 2000000 0 HRTIMER_MODE_ABS; OpStart (cpu 0) 1 3000000 0 HRTIMER_MODE_ABS] (log_call the_call called) = Some st' /\
  hrtimer_try_to_cancel mc 0 1 st' = Some (1, st3).
Proof.
  destruct (run_ops mc [OpStart (cpu 1) 1 2000000 0 HRTIMER_MODE_ABS; OpStart (cpu 0) 1 3000000 0 HRTIMER_MODE_ABS] (log_call the_call called))
    as [st'|] eqn:E; [|exfalso; revert E; vm_compute; discriminate].
  destruct (tm (log_call the_call called) !! 1%nat) as [x|] eqn:Hx; [|exfalso; revert Hx; vm_compute; discriminate].
  destruct (hrtimer_cancel_misses_callback local_op mc quiet_handler (log_call the_call called) 0 1 x (cpu 1) (cpu 0) 2000000 3000000 0 0
    HRTIMER_MODE_ABS HRTIMER_MODE_ABS st' called_seen Hx) as [st3 H3].
  - revert Hx. vm_compute. intros [= <-]. reflexivity.
  - vm_compute. eexists. reflexivity.
  - exact E.
  - exists st', st3. split; [reflexivity|exact H3].
Defined.
End hrtimer_witness.
