(* ===== verification/HrtimerStale.v ===== *)
(** * HrtimerStale: events that come too late

    Two ways in which kernel/hrtimer.c loses the event of a timer it has queued:
    the CPU a timer is handed to is chosen with its old expiry, and the interrupt
    fixes the next event of the wall clock before it runs the callbacks of the
    monotonic clock. Both are shown for all states and timers that meet the
    conditions, with the call that does it. *)

From S2P Require Import Prelude Rbtree RbtreeInv RbtreeSpec Hrtimer HrtimerInv HrtimerArm HrtimerSpec.

(** The expiry an absolute start sets. *)
Definition start_expiry (tim delta : Z) : Z := ktime_add_safe (s64 tim) (ns_to_ktime (u64 delta)).

(** A queue operation keeps the offset of every clock. *)
Lemma same_offset st st' k b : same_clocks st st' -> clocks st !! k = Some b -> exists b', clocks st' !! k = Some b' /\ offset b' = offset b.
Proof.
  intros [H] Hb. specialize (H k). rewrite Hb in H. destruct (clocks st' !! k) as [b'|]; [|done]. exists b'. split; [done|].
  cbn in H. injection H as H. unfold params in H. congruence.
Qed.

(** ** Starting a resting timer *)

Section Start.
Context (mc : machine).

(** The base is chosen with the timer as it is, then the timer gets its expiry,
    is queued, and the device is looked at if it is first on this CPU. *)
Lemma start_resting st Q e t tim delta mode x k new z :
  good st Q -> tm st !! t = Some x -> base x = Some k -> hrtimer_is_queued x = false -> has mode HRTIMER_MODE_REL = false ->
  switch_hrtimer_base e t k (has mode HRTIMER_MODE_PINNED) st = Some (new, set_timer t (set_hbase (Some new) x) st) ->
  is_Some (clocks st !! new) -> z = hrtimer_set_expires_range_ns tim delta (set_hbase (Some new) x) ->
  exists (lm : bool) E' st3 st', hrtimer_start_range_ns mc e t tim delta mode st = Some (0, st') /\
    (if lm && (new.1 =? smp_processor_id e) then hrtimer_enqueue_reprogram mc (smp_processor_id e) t new st3 else Some st3) = Some st' /\
    good st3 (<[new := E']> Q) /\ tm st3 = <[t := set_state (Z.lor (state z) HRTIMER_STATE_ENQUEUED) z]> (tm st) /\ quiet st st3.
Proof.
  intros Hg Hx Hk Hq Hrel Esw Hclk Hz. set (st1 := set_timer t (set_hbase (Some new) x) st) in *.
  set (st2 := set_timer t z st1). assert (tm st2 !! t = Some z) as Hz2 by apply lookup_insert_eq.
  assert (tm st2 = <[t := z]> (tm st)) as T2 by apply insert_insert_eq.
  assert (good st2 Q) as Hg2.
  { apply (retime_good st Q t x z new); try (done || by subst z). subst z. apply add_safe_range. }
  destruct (start_tail mc e t z new st2 Q Hg2 Hz2) as (E & st3 & st' & _ & E3 & E4 & Hg3 & T3 & S3 & _); [by subst z|by subst z|].
  exists (bool_decide (head (insort (exp_of (tm st2)) t (expires z) E) = Some t)), (insort (exp_of (tm st2)) t (expires z) E), st3, st'.
  split; [|split; [exact E4|split; [done|split; [by rewrite T3, T2, insert_insert_eq|]]]].
  - unfold hrtimer_start_range_ns. rewrite Hx. cbn [mbind option_bind]. rewrite Hk. cbn [mbind option_bind].
    unfold remove_hrtimer. rewrite Hx. cbn [mbind option_bind]. rewrite Hq, Hrel. cbn [mbind option_bind].
    rewrite (bind_eq _ _ _ Esw). cbn beta iota zeta. assert (tm st1 !! t = Some (set_hbase (Some new) x)) as -> by apply lookup_insert_eq.
    cbn [mbind option_bind]. rewrite <- Hz. fold st2. rewrite (bind_eq _ _ _ E3). cbn beta iota zeta. by rewrite (bind_eq _ _ _ E4).
  - etransitivity; [|exact S3]. etransitivity; apply set_timer_quiet.
Qed.

(** A timer goes to the CPU [c] when it is there already, or [c] is the CPU of
    the caller, or the next event of [c] is before the expiry the timer has. *)
Lemma switch_to st e t x k c cb b pinned :
  tm st !! t = Some x -> base x = Some k -> hrtimer_callback_running x = false -> c = hrtimer_get_target e pinned ->
  cpus st !! c = Some cb -> clocks st !! (c, k.2) = Some b ->
  k.1 = c \/ c = smp_processor_id e \/ expires_next cb < ktime_sub (expires x) (offset b) ->
  switch_hrtimer_base e t k pinned st = Some ((c, k.2), set_timer t (set_hbase (Some (c, k.2)) x) st).
Proof.
  intros Hx Hk Hr Hc Hcb Hb Hold. unfold switch_hrtimer_base. rewrite Hx. cbn [mbind option_bind]. rewrite <- Hc.
  destruct k as [kc ki]. cbn [fst snd] in *. case_decide as Ek.
  - injection Ek as ->. rewrite <- Hk. assert (set_hbase (base x) x = x) as -> by by destruct x.
    unfold set_timer. rewrite insert_id by done. by destruct st.
  - rewrite Hr. destruct Hold as [->|[->|Hold]]; [done|by rewrite Z.eqb_refl|]. destruct (c =? smp_processor_id e); [done|].
    unfold hrtimer_check_target. cbn [fst]. rewrite Hcb, Hb. cbn [mbind option_bind].
    by rewrite (proj2 (Z.leb_gt _ _)), andb_false_r by done.
Qed.
End Start.

(** C36. The CPU a timer goes to is chosen with the expiry it had before. When an
    idle CPU hands a resting timer on, and the old expiry is after the next event
    of the target, or the timer was last on the target, where nothing is checked,
    then a start with a new expiry before that event queues the timer on the
    target and leaves its event and its device as they are: nothing covers the
    timer, which [hrtimer_check_target] refuses once it has its new expiry. *)
Theorem hrtimer_start_stale_target allowed mc handler st e t tim delta mode x k cb b :
  seen allowed mc handler st -> tm st !! t = Some x -> base x = Some k -> hrtimer_is_queued x = false -> hrtimer_callback_running x = false ->
  has mode HRTIMER_MODE_PINNED = false -> has mode HRTIMER_MODE_REL = false ->
  let c := hrtimer_get_target e false in
  c <> smp_processor_id e -> cpus st !! c = Some cb -> clocks st !! (c, k.2) = Some b ->
  hres_active cb = true -> hang_detected cb = false -> c ∉ raised st ->
  k.1 = c \/ expires_next cb < ktime_sub (expires x) (offset b) ->
  Z.max 0 (ktime_sub (ktime_add_safe tim (ns_to_ktime delta)) (offset b)) < expires_next cb ->
  exists st' y, hrtimer_start_range_ns mc e t tim delta mode st = Some (0, st') /\
    tm st' !! t = Some y /\ hrtimer_is_queued y = true /\ base y = Some (c, k.2) /\ expires y = ktime_add_safe tim (ns_to_ktime delta) /\
    cpus st' = cpus st /\ devs st' = devs st /\ hrtimer_check_target y (c, k.2) st' = Some true /\ ~ armed st' c.
Proof.
  intros Hs Hx Hk Hq Hr Hp Hrel c Hc Hcb Hb Hh Hhang Hraise Hold Hnew. destruct (seen_good allowed mc handler st Hs) as [Q Hg].
  set (z := hrtimer_set_expires_range_ns tim delta (set_hbase (Some (c, k.2)) x)).
  assert (switch_hrtimer_base e t k false st = Some ((c, k.2), set_timer t (set_hbase (Some (c, k.2)) x) st)) as Esw
    by (apply (switch_to st e t x k c cb b); try done; destruct Hold; auto).
  destruct (start_resting mc st Q e t tim delta mode x k (c, k.2) z Hg Hx Hk Hq Hrel) as (lm & E' & st3 & st' & E & E3 & _ & T & Qt);
    [by rewrite Hp|by exists b|done|]. cbn [fst] in E3. rewrite (proj2 (Z.eqb_neq _ _)), andb_false_r in E3 by done. injection E3 as ->.
  set (y := set_state (Z.lor (state z) HRTIMER_STATE_ENQUEUED) z) in *.
  destruct (same_offset st st' (c, k.2) b (qt_clocks _ _ Qt) Hb) as (b' & Hb' & Hoff).
  assert (tm st' !! t = Some y) as Hy by (rewrite T; apply lookup_insert_eq).
  assert (hrtimer_is_queued y = true) as Hyq by apply queued_or.
  exists st', y. do 5 (split; [done|]). split; [apply Qt|]. split; [apply Qt|].
  unfold hrtimer_check_target. cbn [fst]. rewrite (qt_cpus _ _ Qt), Hcb, Hb'. cbn [mbind option_bind]. rewrite Hh, Hoff. split.
  - f_equal. apply Z.leb_le. cbn. lia.
  - intros Ha. destruct (Ha cb) as [?|[Hin|Hcov]]; [by rewrite (qt_cpus _ _ Qt)|done|congruence|by rewrite (qt_raised _ _ Qt) in Hin|].
    specialize (Hcov k.2 t y b' Hy Hyq eq_refl Hb'). unfold adjusted in Hcov. rewrite Hoff in Hcov. cbn in Hcov. lia.
Qed.

(** ** The interrupt *)

(** What a part of the interrupt of CPU [c] that reads the clock at most [n]
    times leaves alone. *)
Record frame (c : Z) (n : nat) (st st' : hrtimers) : Prop := {
  fr_clocks : same_clocks st st';
  fr_raised : raised st' = raised st;
  fr_reads : (reads st' <= reads st + n)%nat;
  fr_cpu : hres_active <$> cpus st' !! c = hres_active <$> cpus st !! c;
  fr_dev : is_Some (devs st !! c) -> is_Some (devs st' !! c)
}.

Lemma cpu_frame_trans c n m st1 st2 st3 : frame c n st1 st2 -> frame c m st2 st3 -> frame c (n + m) st1 st3.
Proof. intros [A1 A2 A3 A4 A5] [B1 B2 B3 B4 B5]. constructor; [by etransitivity|congruence|lia|congruence|auto]. Qed.

Lemma quiet_frame c st st' : quiet st st' -> frame c 0 st st'.
Proof. intros [A1 A2 A3 A4 A5 A6]. constructor; [done|done|lia|by rewrite A2|by rewrite A3]. Qed.

(** The base of the CPU and its device change, the timers do not. *)
Record outer (c : Z) (n : nat) (st st' : hrtimers) : Prop := {
  ou_frame : frame c n st st';
  ou_tm : tm st' = tm st;
  ou_heap : heap st' = heap st;
  ou_clocks : clocks st' = clocks st;
  ou_cpus i : is_Some (cpus st' !! i) <-> is_Some (cpus st !! i);
  ou_devs i : is_Some (devs st' !! i) <-> is_Some (devs st !! i)
}.

Lemma outer_good c n st st' Q : outer c n st st' -> good st Q -> good st' Q.
Proof. intros [_ A1 A2 A3 A4 A5] Hg. by apply (good_outer st). Qed.

Lemma outer_cpu c st cb cb' : cpus st !! c = Some cb -> hres_active cb' = hres_active cb -> outer c 0 st (set_cpu c cb' st).
Proof.
  intros Hcb Hh. constructor; try done; [|by apply insert_dom; rewrite Hcb]. constructor; try done; [cbn; lia|]. cbn. rewrite lookup_insert_eq, Hcb. cbn. by rewrite Hh.
Qed.

Lemma outer_dev c st d d' k : devs st !! c = Some d -> (k <= S (reads st))%nat -> outer c 1 st (set_dev c d' k st).
Proof.
  intros Hd Hk. constructor; try done; [|by apply insert_dom; rewrite Hd]. constructor; try done; [cbn; lia|]. intros _. cbn. by rewrite lookup_insert_eq.
Qed.

Lemma outer_trans c n m st1 st2 st3 : outer c n st1 st2 -> outer c m st2 st3 -> outer c (n + m) st1 st3.
Proof.
  intros [A1 A2 A3 A4 A5 A6] [B1 B2 B3 B4 B5 B6].
  constructor; [by eapply cpu_frame_trans|congruence|congruence|congruence|intros i; by rewrite B5, A5|intros i; by rewrite B6, A6].
Qed.

Section Interrupt.
Context (mc : machine) (handler : ptr -> hrtimers -> list hrtimer_op * bool).
(** The driver takes every event. *)
Context (Htakes : forall n clc d, set_next_event mc n clc d = 0).

(** An event after the time the clock shows is programmed. *)
Lemma loop_takes fuel k e now d : 0 <= now < e -> e <= KTIME_MAX -> program_loop mc (S fuel) false 0 k e now d = Some (0, set_next e d, k).
Proof.
  intros Hn He. cbn [program_loop]. assert (clockevents_program_event mc k e now d = (0, set_next e d)) as ->; [|done].
  unfold clockevents_program_event. rewrite (proj2 (Z.ltb_ge _ _)) by lia.
  assert (ktime_sub e now = e - now) as ->.
  { unfold ktime_sub, s64. apply wraps_small; [done|]. change (2 ^ (64 - 1)) with (KTIME_MAX + 1). lia. }
  rewrite (proj2 (Z.leb_gt _ _)) by lia. destruct (shutdown _); [done|]. by rewrite Htakes.
Qed.

Lemma device_takes k e d : 0 <= ktime_get mc k < e -> e <= KTIME_MAX -> tick_dev_program_event mc k e false d = Some (0, set_next e d, S k).
Proof. intros Hn He. rewrite tick_dev_program_event_eq. exact (loop_takes 63 (S k) e (ktime_get mc k) d Hn He). Qed.

Lemma program_takes c e st : is_Some (devs st !! c) -> 0 <= ktime_get mc (reads st) < e -> e <= KTIME_MAX ->
  exists st', tick_program_event mc c e false st = Some (0, st') /\ outer c 1 st st' /\ cpus st' = cpus st.
Proof.
  intros [d Hd] Hn He. exists (set_dev c (set_next e d) (S (reads st)) st). split; [|split; [by apply (outer_dev c st d)|reflexivity]].
  unfold tick_program_event. etransitivity; [exact (bind_eq _ _ _ Hd)|]. exact (bind_eq _ _ _ (device_takes (reads st) e d Hn He)).
Qed.

(** Nothing of a clock has expired. *)
Lemma run_base_nothing fuel k basenow next st Q b E w :
  good st Q -> clocks st !! k = Some b -> Q !! k = Some E -> w < next ->
  (forall q z, q ∈ E -> tm st !! q = Some z -> basenow < softexpires z /\ w < ktime_sub (expires z) (offset b)) ->
  exists n, run_base mc handler (S fuel) k basenow next st = Some (n, st) /\ w < n <= next.
Proof.
  intros Hg Hb HE Hw Hall. cbn [run_base]. rewrite Hb. cbn [mbind option_bind].
  destruct (queue_of st Q (gd_queues _ _ Hg) k b Hb) as (E' & HE' & _ & Hf & _). assert (E' = E) as -> by congruence. rewrite Hf.
  destruct E as [|q E]; cbn [head hd_error]; [exists next; split; [done|lia]|].
  destruct (qs_in _ _ (gd_queues _ _ Hg) q k _ HE (list_elem_of_here _ _)) as (z & Hz & _). rewrite Hz. cbn [mbind option_bind].
  destruct (Hall q z (list_elem_of_here _ _) Hz) as [H1 H2]. rewrite (proj2 (Z.ltb_lt _ _)) by done. eexists. split; [done|].
  destruct (Z.ltb_spec (ktime_sub (expires z) (offset b)) next); lia.
Qed.

Lemma on_tree_reads k f st st' : on_tree k f st = Some st' -> reads st' = reads st.
Proof.
  unfold on_tree. destruct (clocks st !! k) as [b|]; [|done]. cbn [mbind option_bind]. destruct (f _) as [r|]; [|done]. by intros [= <-].
Qed.

Lemma remove_reads c t k s st st' : remove_hrtimer_raw mc c t k s false st = Some st' -> reads st' = reads st.
Proof.
  unfold remove_hrtimer_raw. destruct (tm st !! t) as [x|]; [|done]. cbn [mbind option_bind].
  destruct (hrtimer_is_queued x); cbn [negb]; [|by intros [= <-]].
  destruct (clocks st !! k) as [b|]; [|done]. destruct (cpus st !! k.1); [|done]. destruct (cpus st !! c); [|done]. cbn [mbind option_bind andb].
  case_decide; [destruct (rb_next t _) as [nx|]; [|done]|]; cbn [mbind option_bind];
    (destruct (on_tree k (rb_erase t) _) as [st1|] eqn:E1; [|done]); apply on_tree_reads in E1; cbn [mbind option_bind]; intros [= <-]; exact E1.
Qed.

(** Programming the device for a timer that was queued on this CPU. *)
Lemma reprogram_takes c t y b k st cb :
  k.1 = c -> tm st !! t = Some y -> clocks st !! k = Some b -> cpus st !! c = Some cb -> hres_active cb = true -> is_Some (devs st !! c) ->
  0 <= ktime_get mc (reads st) < ktime_sub (expires y) (offset b) ->
  exists st', hrtimer_enqueue_reprogram mc c t k st = Some st' /\ outer c 1 st st'.
Proof.
  intros Hk Hy Hb Hcb Hh Hd Hn. unfold hrtimer_enqueue_reprogram. rewrite Hy, Hb, Hk, Hcb. cbn [mbind option_bind]. rewrite Hh.
  assert (outer c 1 st st) as Hself by (constructor; try done; constructor; try done; lia).
  unfold hrtimer_reprogram. rewrite Hcb. cbn [mbind option_bind]. destruct (hrtimer_callback_running y); [by exists st|].
  rewrite (proj2 (Z.ltb_ge _ _)) by lia. destruct (_ >=? expires_next cb); [by exists st|]. destruct (hang_detected cb); [by exists st|].
  destruct (program_takes c (ktime_sub (expires y) (offset b)) st Hd Hn) as (st1 & E1 & O1 & C1).
  { pose proof (s64_range (expires y - offset b)). unfold ktime_sub, KTIME_MAX. lia. }
  rewrite (bind_eq _ _ _ E1). cbn -[set_cpu set_expires_next]. eexists. split; [done|].
  apply (outer_trans c 1 0 _ _ _ O1). apply (outer_cpu c st1 cb); [by rewrite C1|done].
Qed.

(** The callback of [t], on the monotonic clock, starts the timer [w] of the wall
    clock on its own CPU. *)
Context (c : Z) (t w : ptr) (env : cpu_env) (tim delta mode : Z).
Context (Hhandler : forall st, handler t st = ([OpStart env w tim delta mode], false)).
Context (Hthis : smp_processor_id env = c) (Htarget : hrtimer_get_target env (has mode HRTIMER_MODE_PINNED) = c) (Habs : has mode HRTIMER_MODE_REL = false).

Lemma start_frame st Q y i cb b :
  good st Q -> cpus st !! c = Some cb -> hres_active cb = true -> clocks st !! (c, CLOCK_REALTIME) = Some b ->
  tm st !! w = Some y -> base y = Some (i, CLOCK_REALTIME) -> hrtimer_is_queued y = false -> hrtimer_callback_running y = false ->
  0 <= ktime_get mc (reads st) < ktime_sub (start_expiry tim delta) (offset b) ->
  exists st' z R, run_op mc (OpStart env w tim delta mode) st = Some st' /\ good st' (<[(c, CLOCK_REALTIME) := R]> Q) /\ frame c 1 st st' /\
    tm st' = <[w := z]> (tm st) /\ hrtimer_is_queued z = true /\ base z = Some (c, CLOCK_REALTIME) /\ expires z = start_expiry tim delta.
Proof.
  intros Hg Hcb Hh Hb Hy Hk Hq Hr Hn. cbn [run_op]. rewrite Hthis, Hcb. cbn [mbind option_bind].
  assert (switch_hrtimer_base env w (i, CLOCK_REALTIME) (has mode HRTIMER_MODE_PINNED) st
          = Some ((c, CLOCK_REALTIME), set_timer w (set_hbase (Some (c, CLOCK_REALTIME)) y) st)) as Esw.
  { apply (switch_to st env w y (i, CLOCK_REALTIME) c cb b); auto. }
  destruct (start_resting mc st Q env w (s64 tim) (u64 delta) mode y (i, CLOCK_REALTIME) (c, CLOCK_REALTIME)
    (hrtimer_set_expires_range_ns (s64 tim) (u64 delta) (set_hbase (Some (c, CLOCK_REALTIME)) y)) Hg Hy Hk Hq Habs Esw) as
    (lm & R & st3 & st' & E & E3 & Hg3 & T3 & Q3); [by exists b|done|]. rewrite E. cbn [fmap option_fmap option_map snd].
  set (z := set_state _ _) in T3. exists st', z, R. rewrite Hthis in E3.
  assert (tm st3 !! w = Some z) as Hz by (rewrite T3; apply lookup_insert_eq).
  assert (hrtimer_is_queued z = true) as Hzq by apply queued_or.
  destruct (lm && _); [|injection E3 as <-; do 2 (split; [done|]); split; [apply (cpu_frame_trans c 0 1 _ st3); [by apply quiet_frame|constructor; try done; lia]|done]].
  destruct (same_offset st st3 _ b (qt_clocks _ _ Q3) Hb) as (b3 & Hb3 & Ho3).
  destruct (reprogram_takes c w z b3 (c, CLOCK_REALTIME) st3 cb eq_refl Hz Hb3) as (st4 & E4 & O4); [by rewrite (qt_cpus _ _ Q3)|done| | |].
  - rewrite (qt_devs _ _ Q3). apply (cf_dev _ (gd_config _ _ Hg)). by exists cb.
  - rewrite (qt_reads _ _ Q3), Ho3. exact Hn.
  - rewrite E4 in E3. injection E3 as ->. split; [done|]. split; [by apply (outer_good c 1 st3)|].
    split; [apply (cpu_frame_trans c 0 1 _ st3); [by apply quiet_frame|apply O4]|]. by rewrite (ou_tm _ _ _ _ O4).
Qed.

Lemma callback_frame st Q x E y i cb b basenow :
  good st Q -> cpus st !! c = Some cb -> hres_active cb = true -> clocks st !! (c, CLOCK_REALTIME) = Some b ->
  Q !! (c, CLOCK_MONOTONIC) = Some (t :: E) -> tm st !! t = Some x ->
  tm st !! w = Some y -> base y = Some (i, CLOCK_REALTIME) -> hrtimer_is_queued y = false -> hrtimer_callback_running y = false ->
  0 <= ktime_get mc (reads st) < ktime_sub (start_expiry tim delta) (offset b) ->
  exists st' z Q', run_hrtimer mc handler c t basenow st = Some st' /\ good st' Q' /\ Q' !! (c, CLOCK_MONOTONIC) = Some E /\ frame c 1 st st' /\
    (forall q, q <> t -> q <> w -> tm st' !! q = tm st !! q) /\
    tm st' !! w = Some z /\ hrtimer_is_queued z = true /\ base z = Some (c, CLOCK_REALTIME) /\ expires z = start_expiry tim delta.
Proof.
  intros Hg Hcb Hh Hb HQ Hx Hy Hk Hq Hr Hn. pose proof Hg as [HQs Hc].
  destruct (qs_in _ _ HQs t _ _ HQ (list_elem_of_here _ _)) as (x' & Hx' & Hxk & Hxq & _). assert (x' = x) as -> by congruence. clear Hx'.
  assert (w <> t) as Hwt by congruence.
  assert (list_del t (t :: E) = E) as Hdel.
  { destruct (cf_base _ Hc t x Hx) as (k & Hk1 & [bm Hbm]). assert (k = (c, CLOCK_MONOTONIC)) as -> by congruence.
    destruct (queue_of st Q HQs _ bm Hbm) as (E' & HE' & _ & _ & _ & Hnd). assert (E' = t :: E) as -> by congruence. by apply del_head. }
  destruct (remove_raw_spec mc st Q c t x (c, CLOCK_MONOTONIC) HRTIMER_STATE_CALLBACK false HQs Hc Hx Hxk) as (st1 & E1 & HQ1 & Hc1 & T1 & S1 & R1 & _ & C1);
    [by exists cb|done|]. specialize (C1 eq_refl). pose proof (remove_reads _ _ _ _ _ _ E1) as Rd1.
  assert (frame c 0 st st1) as F1 by (constructor; [apply S1|done|lia|by rewrite C1|apply S1]).
  unfold run_hrtimer. rewrite Hx. cbn [mbind option_bind]. rewrite Hxk. cbn [mbind option_bind]. rewrite E1. cbn [mbind option_bind].
  set (st2 := log_call _ st1). rewrite Hhandler. cbn [run_ops].
  assert (good st2 (alter (list_del t) (c, CLOCK_MONOTONIC) Q)) as Hg2 by by apply (good_outer st1).
  destruct (same_offset st st1 _ b (sd_clocks _ _ S1) Hb) as (b1 & Hb1 & Ho1).
  destruct (start_frame st2 _ y i cb b1 Hg2) as (st3 & z & R & E3 & Hg3 & F3 & T3 & Hz); try done; [cbn; by rewrite C1|cbn; by rewrite T1, lookup_insert_ne| |].
  { cbn. by rewrite Rd1, Ho1. }
  rewrite E3. cbn [mbind option_bind].
  assert (tm st3 !! t = Some (set_state HRTIMER_STATE_CALLBACK x)) as Ht3 by (rewrite T3, lookup_insert_ne by done; cbn; rewrite T1; apply lookup_insert_eq).
  rewrite !Ht3. cbn [mbind option_bind]. set (x4 := set_state (Z.ldiff _ _) _).
  eexists _, z, _. split; [done|]. split; [|split; [|split; [|split]]].
  - eapply (retime_good st3 _ t _ x4 (c, CLOCK_MONOTONIC)); [exact Hg3|exact Ht3|done|done|done| | |done|done|done|].
    + apply (same_clock_some _ _ _ (fr_clocks _ _ _ _ F3)). apply (same_clock_some _ _ _ (sd_clocks _ _ S1)). apply (cf_base _ Hc t x) in Hx as (k & ? & ?). congruence.
    + apply (cf_expires _ Hc t x Hx).
    + apply quiet_steady, set_timer_quiet.
  - rewrite lookup_insert_ne by done. rewrite lookup_alter_eq, HQ. exact (f_equal Some Hdel).
  - apply (cpu_frame_trans c 0 1 _ st1); [done|]. apply (cpu_frame_trans c 0 1 _ st2); [constructor; try done; cbn; lia|].
    apply (cpu_frame_trans c 1 0 _ st3); [done|apply quiet_frame, set_timer_quiet].
  - intros q Hqt Hqw. cbn. rewrite lookup_insert_ne, T3, lookup_insert_ne by done. cbn. by rewrite T1, lookup_insert_ne.
  - cbn. rewrite lookup_insert_ne, T3, lookup_insert_eq by done. done.
Qed.

(** One attempt: nothing of the wall clock has expired, [t] has and is the only
    timer of the monotonic clock that has, and all others expire after [w]. *)
Lemma attempt_stale fuel now st Q x E R y i cb br bm :
  let W := ktime_sub (start_expiry tim delta) (offset br) in
  good st Q -> cpus st !! c = Some cb -> hres_active cb = true ->
  clocks st !! (c, CLOCK_REALTIME) = Some br -> clocks st !! (c, CLOCK_MONOTONIC) = Some bm ->
  Q !! (c, CLOCK_REALTIME) = Some R -> Q !! (c, CLOCK_MONOTONIC) = Some (t :: E) ->
  tm st !! t = Some x -> softexpires x <= ktime_add now (offset bm) ->
  (forall q z, q ∈ R -> tm st !! q = Some z -> ktime_add now (offset br) < softexpires z /\ W < ktime_sub (expires z) (offset br)) ->
  (forall q z, q ∈ E -> tm st !! q = Some z -> ktime_add now (offset bm) < softexpires z /\ W < ktime_sub (expires z) (offset bm)) ->
  tm st !! w = Some y -> base y = Some (i, CLOCK_REALTIME) -> hrtimer_is_queued y = false -> hrtimer_callback_running y = false ->
  0 <= ktime_get mc (reads st) < W -> W < KTIME_MAX ->
  exists n st' z cb', run_cpu mc handler (S (S fuel)) c now st = Some (n, st') /\ W < n <= KTIME_MAX /\ frame c 1 st st' /\
    cpus st' !! c = Some cb' /\ expires_next cb' = n /\
    tm st' !! w = Some z /\ hrtimer_is_queued z = true /\ base z = Some (c, CLOCK_REALTIME) /\ expires z = start_expiry tim delta.
Proof.
  intros W Hg Hcb Hh Hbr Hbm HR HE Hx Hsoft HallR HallE Hy Hk Hq Hr Hn Hmax. unfold run_cpu. rewrite Hcb. cbn [mbind option_bind].
  set (st0 := set_cpu c (set_expires_next KTIME_MAX cb) st).
  assert (outer c 0 st st0) as O0 by by apply (outer_cpu c st cb). pose proof (outer_good _ _ _ _ _ O0 Hg) as Hg0.
  unfold run_clock. change (clocks st0) with (clocks st). rewrite Hbr. cbn [mbind option_bind].
  destruct (run_base_nothing (S fuel) (c, CLOCK_REALTIME) (ktime_add now (offset br)) KTIME_MAX st0 Q br R W Hg0 Hbr HR Hmax HallR) as (n1 & E1 & Hn1).
  rewrite E1. cbn [mbind option_bind]. change (clocks st0) with (clocks st). rewrite Hbm. cbn [mbind option_bind].
  cbn [run_base]. change (clocks st0) with (clocks st). rewrite Hbm. cbn [mbind option_bind].
  destruct (queue_of st Q (gd_queues _ _ Hg) _ bm Hbm) as (E' & HE' & _ & Hf & _ & Hnd). assert (E' = t :: E) as -> by congruence. rewrite Hf.
  cbn [head hd_error]. change (tm st0) with (tm st). rewrite Hx. cbn [mbind option_bind]. rewrite (proj2 (Z.ltb_ge _ _)) by done.
  assert (cpus st0 !! c = Some (set_expires_next KTIME_MAX cb)) as Hcb0 by apply lookup_insert_eq.
  destruct (callback_frame st0 Q x E y i _ br (ktime_add now (offset bm)) Hg0 Hcb0 Hh Hbr HE Hx Hy Hk Hq Hr Hn)
    as (st2 & z & Q2 & E2 & Hg2 & HE2 & F2 & T2 & Hz & Hzq & Hzk & Hze). cbn [fst]. rewrite E2. cbn [mbind option_bind].
  destruct (same_offset st0 st2 _ bm (fr_clocks _ _ _ _ F2) Hbm) as (bm2 & Hbm2 & Hom).
  destruct (run_base_nothing fuel (c, CLOCK_MONOTONIC) (ktime_add now (offset bm)) n1 st2 Q2 bm2 E W Hg2 Hbm2 HE2 ltac:(lia)) as (n2 & E3 & Hn2).
  { intros q v Hqe Hv. rewrite Hom. apply (HallE q v Hqe). apply NoDup_cons in Hnd as [Hnt _].
    rewrite T2 in Hv; [done|intros ->; done|]. intros ->.
    destruct (qs_in _ _ (gd_queues _ _ Hg) w _ _ HE (list_elem_of_further _ _ _ Hqe)) as (y' & ? & _ & ? & _). congruence. }
  cbn [run_base fst] in E3. rewrite E3. cbn [mbind option_bind].
  pose proof (fr_cpu _ _ _ _ F2) as Hc2. rewrite Hcb0 in Hc2. destruct (cpus st2 !! c) as [cb2|] eqn:Hcb2; [|done]. cbn [mbind option_bind].
  eexists n2, _, z, _. split; [done|]. split; [lia|]. split; [|split; [apply lookup_insert_eq|by split]].
  apply (cpu_frame_trans c 0 1 _ st0); [apply O0|]. apply (cpu_frame_trans c 1 0 _ st2); [done|]. by apply (outer_cpu c st2 cb2).
Qed.
End Interrupt.

(** C37. The interrupt looks at the clocks one after the other. When it finds
    nothing to do for the wall clock, and one expired timer of the monotonic clock
    whose callback starts a timer [w] of the wall clock on the same CPU, to expire
    before all others, then it ends, with an event device that takes every event
    and time to spare, with a next event after [w]: the event the start had
    programmed is replaced, no softirq is raised, and nothing covers [w]. *)
Theorem hrtimer_interrupt_stale_next allowed mc handler st c cb t x E R w y i br bm env tim delta mode fuel :
  let now := ktime_get mc (reads st) in
  let W := ktime_sub (start_expiry tim delta) (offset br) in
  reach allowed mc handler st -> (forall n clc d, set_next_event mc n clc d = 0) ->
  (forall n, (n <= reads st + 2)%nat -> 0 <= ktime_get mc n < W) -> W < KTIME_MAX ->
  cpus st !! c = Some cb -> hres_active cb = true -> c ∉ raised st ->
  clocks st !! (c, CLOCK_REALTIME) = Some br -> clocks st !! (c, CLOCK_MONOTONIC) = Some bm ->
  queue st (c, CLOCK_REALTIME) R -> queue st (c, CLOCK_MONOTONIC) (t :: E) ->
  tm st !! t = Some x -> softexpires x <= ktime_add now (offset bm) ->
  (forall q z, q ∈ R -> tm st !! q = Some z -> ktime_add now (offset br) < softexpires z /\ W < ktime_sub (expires z) (offset br)) ->
  (forall q z, q ∈ E -> tm st !! q = Some z -> ktime_add now (offset bm) < softexpires z /\ W < ktime_sub (expires z) (offset bm)) ->
  tm st !! w = Some y -> base y = Some (i, CLOCK_REALTIME) -> hrtimer_is_queued y = false -> hrtimer_callback_running y = false ->
  (forall st, handler t st = ([OpStart env w tim delta mode], false)) -> smp_processor_id env = c ->
  hrtimer_get_target env (has mode HRTIMER_MODE_PINNED) = c -> has mode HRTIMER_MODE_REL = false ->
  exists st' z cb', hrtimer_interrupt mc handler (S (S fuel)) c st = Some st' /\
    tm st' !! w = Some z /\ hrtimer_is_queued z = true /\ base z = Some (c, CLOCK_REALTIME) /\ expires z = start_expiry tim delta /\
    cpus st' !! c = Some cb' /\ W < expires_next cb' /\ ~ armed st' c.
Proof.
  intros now W Hreach Htakes Hclock Hmax Hcb Hh Hraised Hbr Hbm HR HE Hx Hsoft HallR HallE Hy Hk Hq Hr Hhandler Hthis Htarget Habs.
  destruct (seen_good allowed mc handler st (seen_reach _ _ _ _ Hreach)) as [Q Hg].
  apply (good_queue st Q _ _ Hg) in HR, HE. destruct (cf_dev _ (gd_config _ _ Hg) c) as [d Hd]; [by exists cb|].
  unfold hrtimer_interrupt. rewrite Hcb, Hd. cbn [mbind option_bind]. rewrite Hh. cbn [negb]. fold now.
  set (st0 := set_dev c _ _ _). assert (outer c 1 st st0) as O0.
  { apply (outer_trans c 0 1 _ (set_cpu c (count_event cb) st)); [by apply (outer_cpu c st cb)|by apply (outer_dev c _ d)]. }
  destruct (attempt_stale mc handler Htakes c t w env tim delta mode Hhandler Hthis Htarget Habs fuel now st0 Q x E R y i (count_event cb) br bm)
    as (n & st1 & z & cb1 & E1 & Hn & F1 & Hcb1 & Hnext & Hz & Hzq & Hzk & Hze); try done; [by apply (outer_good c 1 st)|apply lookup_insert_eq|apply Hclock; cbn; lia|].
  cbn [interrupt_loop]. rewrite E1. cbn [mbind option_bind].
  assert (exists st2, (if n =? KTIME_MAX then Some (0, st1) else tick_program_event mc c n false st1) = Some (0, st2) /\
      tm st2 = tm st1 /\ clocks st2 = clocks st1 /\ cpus st2 = cpus st1 /\ raised st2 = raised st1) as (st2 & E2 & T2 & K2 & C2 & R2).
  { destruct (n =? KTIME_MAX); [by exists st1|]. pose proof (fr_reads _ _ _ _ F1) as Hrd. cbn in Hrd.
    destruct (program_takes mc Htakes c n st1) as (st2 & E2 & O2 & C2); [apply (fr_dev _ _ _ _ F1), (fr_dev _ _ _ _ (ou_frame _ _ _ _ O0)); by exists d|pose proof (Hclock (reads st1)); lia|lia|].
    exists st2. split; [done|]. split; [apply O2|]. split; [apply O2|]. split; [done|apply O2]. }
  rewrite E2. cbn [mbind option_bind]. rewrite C2, Hcb1. cbn [mbind option_bind Z.eqb].
  eexists _, z, _. split; [done|]. cbn -[armed]. rewrite T2. do 4 (split; [done|]). split; [apply lookup_insert_eq|]. cbn -[armed]. split; [lia|].
  destruct (same_offset st0 st1 _ br (fr_clocks _ _ _ _ F1) Hbr) as (br1 & Hbr1 & Hoff).
  intros Ha. destruct (Ha _ (lookup_insert_eq _ _ _)) as [?|[Hin|Hcov]]; [|done| |].
  - pose proof (fr_cpu _ _ _ _ F1) as Hc1. rewrite Hcb1 in Hc1. cbn in Hc1 |- *. rewrite lookup_insert_eq in Hc1. cbn in Hc1. congruence.
  - cbn in Hin. rewrite R2, (fr_raised _ _ _ _ F1) in Hin. done.
  - specialize (Hcov CLOCK_REALTIME w z br1). cbn in Hcov. rewrite T2, K2 in Hcov. specialize (Hcov Hz Hzq Hzk Hbr1).
    unfold adjusted in Hcov. rewrite Hze, Hoff in Hcov. pose proof (Hclock 0%nat). lia.
Qed.

(** ** Examples *)

Module stale_demo.
Import hrtimer_demo.

(** Before the idle CPU 0 starts timer 1, which has an expiry of 5s, for 0.9ms. *)
Definition parked : hrtimers := default booted (drive any_op quiet_handler (take 4 stale_run)).

Lemma parked_seen : seen any_op mc quiet_handler parked.
Proof.
  apply seen_reach, (drive_reach any_op quiet_handler (take 4 stale_run)); [repeat constructor; lia|]. unfold parked.
  destruct (drive any_op quiet_handler (take 4 stale_run)) as [st|] eqn:E; [reflexivity|]. exfalso. revert E. vm_compute. discriminate.
Qed.

Lemma stale_target_witness :
  exists st' y, hrtimer_start_range_ns mc idle0 1 900000 0 HRTIMER_MODE_ABS parked = Some (0, st') /\
    tm st' !! 1%nat = Some y /\ base y = Some (1, CLOCK_MONOTONIC) /\ ~ armed st' 1.
Proof.
  destruct (tm parked !! 1%nat) as [x|] eqn:Hx; [|exfalso; revert Hx; vm_compute; discriminate].
  destruct (cpus parked !! 1) as [cb|] eqn:Hcb; [|exfalso; revert Hcb; vm_compute; discriminate].
  destruct (clocks parked !! (1, CLOCK_MONOTONIC)) as [b|] eqn:Hb; [|exfalso; revert Hb; vm_compute; discriminate].
  destruct (hrtimer_start_stale_target any_op mc quiet_handler parked idle0 1 900000 0 HRTIMER_MODE_ABS x (0, CLOCK_MONOTONIC) cb b parked_seen Hx)
    as (st' & y & H1 & H2 & _ & H3 & _ & _ & _ & _ & H4).
  - revert Hx. vm_compute. intros [= <-]. reflexivity.
  - revert Hx. vm_compute. intros [= <-]. reflexivity.
  - revert Hx. vm_compute. intros [= <-]. reflexivity.
  - reflexivity.
  - reflexivity.
  - discriminate.
  - exact Hcb.
  - exact Hb.
  - revert Hcb. vm_compute. intros [= <-]. reflexivity.
  - revert Hcb. vm_compute. intros [= <-]. reflexivity.
  - apply (bool_decide_unpack _). vm_compute. exact I.
  - right. apply Z.ltb_lt. apply (Some_inj _ true).
    assert ((x ← tm parked !! 1%nat; cb ← cpus parked !! 1; b ← clocks parked !! (1, CLOCK_MONOTONIC);
             Some (expires_next cb <? ktime_sub (expires x) (offset b))) = Some true) as H by (vm_compute; reflexivity).
    rewrite Hx, Hcb, Hb in H. exact H.
  - apply Z.ltb_lt. apply (Some_inj _ true).
    assert ((cb ← cpus parked !! 1; b ← clocks parked !! (1, CLOCK_MONOTONIC);
             Some (Z.max 0 (ktime_sub (ktime_add_safe 900000 (ns_to_ktime 0)) (offset b)) <? expires_next cb)) = Some true) as H by (vm_compute; reflexivity).
    rewrite Hcb, Hb in H. exact H.
  - exists st', y. repeat split; assumption.
Defined.

(** Before the interrupt of CPU 0 in which timer 2 starts timer 3. *)
Definition before : hrtimers := default booted (drive local_op rearm_handler (take 7 overwrite_run)).

Lemma before_reach : reach local_op mc rearm_handler before.
Proof.
  apply (drive_reach local_op rearm_handler (take 7 overwrite_run)); [repeat constructor; lia|]. unfold before.
  destruct (drive local_op rearm_handler (take 7 overwrite_run)) as [st|] eqn:E; [reflexivity|]. exfalso. revert E. vm_compute. discriminate.
Qed.

Lemma before_queue_real : queue before (0, CLOCK_REALTIME) [].
Proof.
  eexists. split; [vm_compute; reflexivity|]. split; [|reflexivity]. exists Nil. split; [|split; [|reflexivity]].
  - split; [reflexivity|reflexivity|constructor].
  - split; [reflexivity|]. exists 0%nat. constructor.
Qed.

Lemma before_queue_mono : queue before (0, CLOCK_MONOTONIC) [2; 4]%nat.
Proof.
  eexists. split; [vm_compute; reflexivity|]. split; [|reflexivity]. exists (Node RB_BLACK (Node RB_RED Nil 2%nat Nil) 4%nat Nil).
  split; [|split; [|reflexivity]].
  - split; [vm_compute; repeat split; reflexivity|reflexivity|apply (bool_decide_unpack _); vm_compute; exact I].
  - split; [reflexivity|]. exists 1%nat. repeat constructor.
Qed.

(** The state has all that is asked for. *)
Definition ready : bool :=
  default false (
    cb ← cpus before !! 0; br ← clocks before !! (0, CLOCK_REALTIME); bm ← clocks before !! (0, CLOCK_MONOTONIC);
    x ← tm before !! 2%nat; v ← tm before !! 4%nat; y ← tm before !! 3%nat;
    let now := ktime_get mc (reads before) in
    let W := ktime_sub (start_expiry (NSEC_PER_SEC + 9000000) 0) (offset br) in
    Some (hres_active cb && (W =? 9000000) && (softexpires x <=? ktime_add now (offset bm)) && (ktime_add now (offset bm) <? softexpires v) &&
          (W <? ktime_sub (expires v) (offset bm)) && bool_decide (base y = Some (0, CLOCK_REALTIME)) &&
          negb (hrtimer_is_queued y) && negb (hrtimer_callback_running y))).

Lemma is_ready : ready = true.
Proof. vm_compute. reflexivity. Qed.

Lemma before_reads : (reads before <= 80)%nat.
Proof. vm_compute. lia. Qed.

Lemma stale_next_witness :
  exists st' z cb', hrtimer_interrupt mc rearm_handler 10 0 before = Some st' /\ tm st' !! 3%nat = Some z /\ hrtimer_is_queued z = true /\
    cpus st' !! 0 = Some cb' /\ 9000000 < expires_next cb' /\ ~ armed st' 0.
Proof.
  pose proof is_ready as H. unfold ready in H.
  destruct (cpus before !! 0) as [cb|] eqn:Hcb; [|discriminate H]. destruct (clocks before !! (0, CLOCK_REALTIME)) as [br|] eqn:Hbr; [|discriminate H].
  destruct (clocks before !! (0, CLOCK_MONOTONIC)) as [bm|] eqn:Hbm; [|discriminate H]. destruct (tm before !! 2%nat) as [x|] eqn:Hx; [|discriminate H].
  destruct (tm before !! 4%nat) as [v|] eqn:Hv; [|discriminate H]. destruct (tm before !! 3%nat) as [y|] eqn:Hy; [|discriminate H].
  cbn -[ktime_sub ktime_add start_expiry mc Z.leb Z.ltb Z.eqb before] in H.
  apply andb_true_iff in H as [[[[[[[Hh HW%Z.eqb_eq]%andb_true_iff Hsoft%Z.leb_le]%andb_true_iff H1%Z.ltb_lt]%andb_true_iff H2%Z.ltb_lt]%andb_true_iff
    Hk%bool_decide_eq_true]%andb_true_iff Hq%negb_true_iff]%andb_true_iff Hr%negb_true_iff].
  destruct (hrtimer_interrupt_stale_next local_op mc rearm_handler before 0 cb 2 x [4%nat] [] 3 y 0 br bm (cpu 0) (NSEC_PER_SEC + 9000000) 0 HRTIMER_MODE_ABS 8
    before_reach) as (st' & z & cb' & E & Hz & Hzq & _ & _ & Hcb' & Hn & Ha); try assumption.
  - intros n clc d. reflexivity.
  - intros n Hn. rewrite HW. pose proof before_reads. cbn. lia.
  - rewrite HW. reflexivity.
  - apply (bool_decide_unpack _). vm_compute. exact I.
  - exact before_queue_real.
  - exact before_queue_mono.
  - intros q z Hq0. apply not_elem_of_nil in Hq0 as [].
  - intros q z Hq0 Hz. apply list_elem_of_singleton in Hq0 as ->. rewrite Hv in Hz. injection Hz as <-. split; assumption.
  - intros st. reflexivity.
  - reflexivity.
  - reflexivity.
  - reflexivity.
  - rewrite HW in Hn. exists st', z, cb'. repeat (split; [assumption|]). assumption.
Defined.
End stale_demo.
