(* ===== verification/TimerNext.v ===== *)
(** * TimerNext: the next event of an idle CPU

    Models the part of kernel/timer.c by which NO_HZ decides how long a CPU may
    sleep: the search of the wheel for its next timer and the comparison with the
    next high resolution timer (kernel/hrtimer.c), with the conversion of times of
    kernel/time.c, and the rounding of jiffies to whole seconds. The machine is a
    PC with HZ = 250. *)

From S2P Require Import Prelude Hrtimer Timer.

(** ** The search of the wheel *)

(** The expiry of the first entry of a list that is not deferrable. *)
Fixpoint first_event (m : gmap ptr timer_list) (l : list ptr) : option (option Z) :=
  match l with
  | [] => Some None
  | t :: l => x ← m !! t; if deferrable x then first_event m l else Some (Some (expires x))
  end.

(** The lists of tv1 from [s] on, once around to [index]: the first event and its
    list. *)
Fixpoint find_tv1 (fuel : nat) (m : gmap ptr timer_list) (b : tvec_base) (index s : Z) : option (option (Z * Z)) :=
  match fuel with
  | O => None
  | S fuel =>
      r ← first_event m (slot b (1, s));
      match r with
      | Some e => Some (Some (e, s))
      | None =>
          let s := Z.land (s + 1) TVR_MASK in
          if s =? index then Some None else find_tv1 fuel m b index s
      end
  end.

(** The earliest of the events of a list and [expires]. *)
Fixpoint min_event (m : gmap ptr timer_list) (l : list ptr) (found : bool) (next : Z) : option (bool * Z) :=
  match l with
  | [] => Some (found, next)
  | t :: l =>
      x ← m !! t;
      if deferrable x then min_event m l found next
      else min_event m l true (if time_before (expires x) next then expires x else next)
  end.

(** The lists of vector [k] from [s] on; the first answer is whether the search
    returns. *)
Fixpoint find_tvn (fuel : nat) (m : gmap ptr timer_list) (b : tvec_base) (k index s : Z) (found : bool) (next : Z)
    : option (bool * bool * Z) :=
  match fuel with
  | O => None
  | S fuel =>
      '(found, next) ← min_event m (slot b (k, s)) found next;
      if (found : bool) then Some (negb ((index =? 0) || (s <? index)), found, next)
      else
        let s := Z.land (s + 1) TVN_MASK in
        if s =? index then Some (false, found, next) else find_tvn fuel m b k index s found next
  end.

(** The vectors from [k] on, [more] of them; [tj] is the time in their lists. *)
Fixpoint find_vectors (more : nat) (m : gmap ptr timer_list) (b : tvec_base) (k tj : Z) (found : bool) (next : Z) : option Z :=
  match more with
  | O => Some next
  | S more =>
      let index := Z.land tj TVN_MASK in
      '(ret, found, next) ← find_tvn 64 m b k index index found next;
      if (ret : bool) then Some next
      else
        let tj := if index =? 0 then tj else u64 (tj + (TVN_SIZE - index)) in
        find_vectors more m b (k + 1) (Z.shiftr tj TVN_BITS) found next
  end.

(** [__next_timer_interrupt] *)
Definition next_timer_interrupt (m : gmap ptr timer_list) (b : tvec_base) : option Z :=
  let index := Z.land (timer_jiffies b) TVR_MASK in
  let tj := if index =? 0 then timer_jiffies b else u64 (timer_jiffies b + (TVR_SIZE - index)) in
  let cascade := find_vectors 4 m b 2 (Z.shiftr tj TVR_BITS) in
  r ← find_tv1 256 m b index index;
  match r with
  | Some (e, s) => if (index =? 0) || (s <? index) then cascade true e else Some e
  | None => cascade false (u64 (timer_jiffies b + NEXT_TIMER_MAX_DELTA))
  end.

(** ** The next high resolution timer *)

(** Times in ticks of the timer chip (include/linux/jiffies.h). *)
Definition PIT_TICK_RATE : Z := 1193182.
Definition LATCH : Z := (PIT_TICK_RATE + HZ / 2) / HZ.
Definition SH_DIV (nom den lsh : Z) : Z := Z.shiftl (nom / den) lsh + (Z.shiftl (nom mod den) lsh + den / 2) / den.
Definition ACTHZ : Z := SH_DIV PIT_TICK_RATE LATCH 8.
Definition TICK_NSEC : Z := SH_DIV (1000000 * 1000) ACTHZ 8.
Definition SHIFT_HZ : Z := 8.
Definition SEC_JIFFIE_SC : Z :=
  if Z.land (Z.shiftl (Z.shiftl NSEC_PER_SEC 2 / TICK_NSEC) (31 - SHIFT_HZ - 2)) 0x80000000 =? 0 then 32 - SHIFT_HZ else 31 - SHIFT_HZ.
Definition NSEC_JIFFIE_SC : Z := SEC_JIFFIE_SC + 29.
Definition SEC_CONVERSION : Z := (Z.shiftl NSEC_PER_SEC SEC_JIFFIE_SC + TICK_NSEC - 1) / TICK_NSEC.
Definition NSEC_CONVERSION : Z := (Z.shiftl 1 NSEC_JIFFIE_SC + TICK_NSEC - 1) / TICK_NSEC.
Definition MAX_JIFFY_OFFSET : Z := Z.shiftr (2 ^ 63 - 1) 1 - 1.
Definition MAX_SEC_IN_JIFFIES : Z := SH_DIV (Z.shiftr MAX_JIFFY_OFFSET SEC_JIFFIE_SC * TICK_NSEC) NSEC_PER_SEC 1 - 1.

Definition ns_to_timespec (nsec : Z) : Z * Z :=
  let sec := Z.quot nsec NSEC_PER_SEC in
  let rem := Z.rem nsec NSEC_PER_SEC in
  if rem <? 0 then (sec - 1, rem + NSEC_PER_SEC) else (sec, rem).

Definition timespec_to_jiffies (value : Z * Z) : Z :=
  let sec := u64 (value.1) in
  let nsec := value.2 + TICK_NSEC - 1 in
  let '(sec, nsec) := if sec >=? MAX_SEC_IN_JIFFIES then (MAX_SEC_IN_JIFFIES, 0) else (sec, nsec) in
  Z.shiftr (u64 (u64 (sec * SEC_CONVERSION) + Z.shiftr (u64 (nsec * NSEC_CONVERSION)) (NSEC_JIFFIE_SC - SEC_JIFFIE_SC))) SEC_JIFFIE_SC.

Section Next.
Context (mc : machine).

Definition cmp_next_hrtimer_event (c now next : Z) (hr : hrtimers) : option (Z * hrtimers) :=
  '(hr_delta, hr) ← hrtimer_get_next_event mc c hr;
  Some (if hr_delta =? KTIME_MAX then next
        else if hr_delta <=? 0 then u64 (now + 1)
        else
          let delta := timespec_to_jiffies (ns_to_timespec hr_delta) in
          let delta := if delta >? NEXT_TIMER_MAX_DELTA then NEXT_TIMER_MAX_DELTA else delta in
          let delta := if delta <? 1 then 1 else delta in
          let now := u64 (now + delta) in
          if time_before now next then now else next, hr).

(** On CPU [c]. *)
Definition get_next_timer_interrupt (c now : Z) (st : timers) (hr : hrtimers) : option (Z * timers * hrtimers) :=
  b ← bases st !! c;
  next ← (if time_before_eq (next_timer b) (timer_jiffies b) then next_timer_interrupt (tl st) b else Some (next_timer b));
  let st := set_base c (set_next_timer next b) st in
  if time_before_eq next now then Some (now, st, hr)
  else
    '(r, hr) ← cmp_next_hrtimer_event c now next hr;
    Some (r, st, hr).
End Next.

(** ** Whole seconds *)

(** [jif] is the value of jiffies. *)
Definition round_jiffies_common (jif j cpu : Z) (force_up : bool) : Z :=
  let original := j in
  let j := u64 (j + cpu * 3) in
  let rem := j mod HZ in
  let j := if (rem <? HZ / 4) && negb force_up then u64 (j - rem) else u64 (j - rem + HZ) in
  let j := u64 (j - cpu * 3) in
  if j <=? jif then original else j.

(** [__round_jiffies] and its variants; [round_jiffies] and the like are these on
    the CPU of the caller. *)
Definition round_jiffies (jif j cpu : Z) : Z := round_jiffies_common jif j cpu false.
Definition round_jiffies_up (jif j cpu : Z) : Z := round_jiffies_common jif j cpu true.
(** [j0]: the value of jiffies that was read first. *)
Definition round_jiffies_relative (j0 jif j cpu : Z) : Z := u64 (round_jiffies_common jif (u64 (j + j0)) cpu false - j0).
Definition round_jiffies_up_relative (j0 jif j cpu : Z) : Z := u64 (round_jiffies_common jif (u64 (j + j0)) cpu true - j0).
