(* ===== verification/TimerNextInv.v ===== *)
(** * TimerNextInv: how long a CPU may sleep

    The search of the wheel finds the next timer, unless a timer was put off
    because it is too far in the future; the time an idle CPU is told to sleep
    ends before its next timer is due. *)

From S2P Require Import Prelude Hrtimer Timer TimerInv TimerNext.

(** ** One list *)

(** [e] is the expiry of a timer of [l] that can wake up an idle CPU. *)
Definition event (m : gmap ptr timer_list) (l : list ptr) (e : Z) : Prop :=
  exists t x, t ∈ l /\ m !! t = Some x /\ deferrable x = false /\ expires x = e.

Lemma event_nil m e : ~ event m [] e.
Proof. intros (t & x & []%not_elem_of_nil & _). Qed.

Lemma event_cons m t l x e : m !! t = Some x -> event m (t :: l) e <-> (deferrable x = false /\ e = expires x) \/ event m l e.
Proof.
  intros Hx. split.
  - intros (t' & x' & [->|Hin]%elem_of_cons & Hx' & Hd & He); [left; assert (x' = x) as -> by congruence; done|right; by exists t', x'].
  - intros [[Hd ->]|(t' & x' & Hin & Hrest)]; [exists t, x|exists t', x']; set_solver.
Qed.

Lemma first_event_spec m l : (forall t, t ∈ l -> is_Some (m !! t)) ->
  exists r, first_event m l = Some r /\ match r with Some e => event m l e | None => forall e, ~ event m l e end.
Proof.
  induction l as [|t l IH]; intros Hm; cbn; [exists None; split; [done|apply event_nil]|].
  destruct (Hm t) as [x Hx]; [set_solver|]. rewrite Hx. cbn [mbind option_bind]. destruct (deferrable x) eqn:Hd.
  - destruct IH as (r & -> & Hr); [set_solver|]. exists r. split; [done|]. destruct r as [e|]; [|intros e]; rewrite (event_cons m t l x _ Hx); [by right|].
    intros [[? _]|?]; [congruence|by apply (Hr e)].
  - eexists. split; [done|]. cbn. rewrite (event_cons m t l x _ Hx). by left.
Qed.

(** The times compared are close to each other: [E] gives the tick each one
    stands for. *)
Definition tick_at (n e : Z) : Z := n + s64 (e - n).

Lemma tick_at_u64 n e : 0 <= e < 2 ^ 64 -> e = u64 (tick_at n e).
Proof.
  intros He. unfold tick_at. destruct (s64_cases (e - n)) as (k & E & _). rewrite (u64_eq _ e k) by lia. symmetry. by apply wrapu_small.
Qed.

Lemma time_before_ticks x y : - 2 ^ 63 < x - y < 2 ^ 63 -> time_before (u64 x) (u64 y) = (x <? y).
Proof.
  intros H. unfold time_before, time_after. destruct (u64_cases x) as (k1 & E1 & _), (u64_cases y) as (k2 & E2 & _).
  rewrite (s64_eq (u64 x - u64 y) (x - y) (k1 - k2)) by lia. rewrite s64_small by lia. destruct (Z.ltb_spec (x - y) 0), (Z.ltb_spec x y); lia.
Qed.

Lemma time_before_eq_ticks x y : - 2 ^ 63 < y - x < 2 ^ 63 -> time_before_eq (u64 x) (u64 y) = (x <=? y).
Proof.
  intros H. unfold time_before_eq, time_after_eq. destruct (u64_cases x) as (k1 & E1 & _), (u64_cases y) as (k2 & E2 & _).
  rewrite (s64_eq (u64 y - u64 x) (y - x) (k2 - k1)) by lia. rewrite s64_small by lia. destruct (Z.geb_spec (y - x) 0), (Z.leb_spec x y); lia.
Qed.

(** [near n e]: the tick [e] stands for is within 2^61 of [n]. *)
Definition near (n e : Z) : Prop := 0 <= e < 2 ^ 64 /\ - 2 ^ 61 <= s64 (e - n) <= 2 ^ 61.

Lemma near_range n e : near n e -> e = u64 (tick_at n e) /\ n - 2 ^ 61 <= tick_at n e <= n + 2 ^ 61.
Proof. intros [He Hd]. split; [by apply tick_at_u64|]. unfold tick_at. lia. Qed.

Lemma min_event_spec m n l : forall found E,
  (forall t, t ∈ l -> is_Some (m !! t)) -> (forall e, event m l e -> near n e) -> n - 2 ^ 61 <= E <= n + 2 ^ 61 ->
  exists found' E', min_event m l found (u64 E) = Some (found', u64 E') /\ (found' = true <-> found = true \/ exists e, event m l e) /\
    n - 2 ^ 61 <= E' <= E /\ (forall e, event m l e -> E' <= tick_at n e) /\ (E' = E \/ exists e, event m l e /\ E' = tick_at n e).
Proof.
  induction l as [|t l IH]; intros found E Hm Hn HE; cbn [min_event].
  - exists found, E. split; [done|]. split; [|split; [lia|split; [|by left]]].
    + split; [by left|]. intros [?|[e []%event_nil]]; done.
    + intros e []%event_nil.
  - destruct (Hm t) as [x Hx]; [set_solver|]. rewrite Hx. cbn [mbind option_bind].
    setoid_rewrite (event_cons m t l x _ Hx). setoid_rewrite (event_cons m t l x _ Hx) in Hn. destruct (deferrable x) eqn:Hd.
    + destruct (IH found E) as (f & E' & H1 & H2 & H3 & H4 & H5); [set_solver|auto|done|]. exists f, E'. split; [done|].
      split; [rewrite H2; naive_solver|]. split; [done|]. split; [naive_solver|]. naive_solver.
    + destruct (near_range n (expires x)) as [Hex Hr]; [apply Hn; by left|].
      assert (time_before (expires x) (u64 E) = (tick_at n (expires x) <? E)) as -> by (rewrite Hex at 1; apply time_before_ticks; lia).
      set (E1 := if tick_at n (expires x) <? E then tick_at n (expires x) else E).
      assert ((if tick_at n (expires x) <? E then expires x else u64 E) = u64 E1) as -> by (unfold E1; by destruct (_ <? _)).
      assert (E1 <= E /\ E1 <= tick_at n (expires x) /\ n - 2 ^ 61 <= E1 /\ (E1 = E \/ E1 = tick_at n (expires x))) as (B1 & B2 & B3 & B4)
        by (unfold E1; destruct (Z.ltb_spec (tick_at n (expires x)) E); lia).
      destruct (IH true E1) as (f & E' & H1 & H2 & H3 & H4 & H5); [set_solver|auto|lia|]. exists f, E'. split; [done|].
      split; [rewrite H2; naive_solver|]. split; [lia|]. split; [intros e [[_ ->]|He]; [lia|auto]|].
      destruct H5 as [->|(e & He & ->)]; [|right; exists e; auto]. destruct B4 as [->| ->]; [by left|right]. exists (expires x). naive_solver.
Qed.

(** ** The wheel *)

(** The first list of a vector that is not sorted yet. *)
Definition block (n u : Z) : Z := (n + u - 1) / u.

Lemma block_bounds n u : 0 < u -> n <= block n u * u < n + u.
Proof. intros Hu. unfold block. pose proof (block_start (n + u - 1) u Hu). lia. Qed.

Lemma block_up n u : 0 < u -> block n (64 * u) = block (block n u) 64.
Proof.
  intros Hu. pose proof (block_bounds n u Hu). pose proof (block_bounds n (64 * u) ltac:(lia)). pose proof (block_bounds (block n u) 64 ltac:(lia)).
  set (a := block n (64 * u)) in *. set (q := block n u) in *. set (d := block q 64) in *. nia.
Qed.

(** The next list of a vector of [2 ^ w]. *)
Lemma around w a j : 0 <= w -> Z.land ((a + j) mod 2 ^ w + 1) (Z.ones w) = (a + (j + 1)) mod 2 ^ w.
Proof. intros Hw. rewrite Z.land_ones by done. rewrite Zplus_mod_idemp_l. f_equal. lia. Qed.

Lemma once_around size a j : 0 < size -> 0 <= j < size -> (a + (j + 1)) mod size = a mod size <-> j + 1 = size.
Proof.
  intros Hs Hj. pose proof (Z.div_mod (a + (j + 1)) size ltac:(lia)). pose proof (Z.div_mod a size ltac:(lia)).
  split.
  - intros E. set (q1 := (a + (j + 1)) / size) in *. set (q2 := a / size) in *.
    assert (j + 1 = size * (q1 - q2)) as Hq by (rewrite Z.mul_sub_distr_l; lia). assert (q1 - q2 = 1) as Hq1 by nia. rewrite Hq, Hq1. lia.
  - intros Hj1.
    replace (a + (j + 1)) with (a + 1 * size) by lia. apply Z.mod_add. lia.
Qed.

Lemma block_coarser n u v : 0 < u -> 0 < v -> (u | v) -> block n u * u <= block n v * v.
Proof.
  intros Hu Hv [a Ha]. pose proof (block_bounds n u Hu). pose proof (block_bounds n v Hv). set (x := block n u) in *. set (y := block n v) in *.
  assert (x < y * a + 1); [|nia]. apply (Z.mul_lt_mono_pos_r u); nia.
Qed.

Lemma unit_divide k j : 2 <= k <= j -> (unit k | unit j).
Proof.
  intros H. unfold unit, TVR_BITS, TVN_BITS. exists (2 ^ ((j - k) * 6)). rewrite <- Z.pow_add_r by lia. f_equal. lia.
Qed.

(** The time in the lists of the next vector, as the code computes it. *)
Lemma next_vector tj : 0 <= tj <= 2 ^ 56 -> Z.shiftr (if tj mod 64 =? 0 then tj else u64 (tj + (64 - tj mod 64))) 6 = block tj 64.
Proof.
  intros Ht. pose proof (Z.div_mod tj 64 ltac:(lia)) as Hd. pose proof (Z.mod_pos_bound tj 64 ltac:(lia)) as Hm. unfold block.
  rewrite Z.shiftr_div_pow2 by lia. change (2 ^ 6) with 64. destruct (Z.eqb_spec (tj mod 64) 0) as [E|E].
  - apply (Z.div_unique_pos _ _ _ 63); lia.
  - unfold u64. rewrite wrapu_small by lia. rewrite <- (Z.div_unique_pos (tj + 64 - 1) 64 (tj / 64 + 1) (tj mod 64 - 1)) by lia.
    symmetry. apply (Z.div_unique_pos _ _ _ 0); lia.
Qed.

Lemma block_shift a z d : block (a + z * (64 * d)) 64 = block a 64 + z * d.
Proof. unfold block. replace (a + z * (64 * d) + 64 - 1) with (a + 64 - 1 + z * d * 64) by lia. apply Z.div_add. lia. Qed.

Section Wheel.
Context (m : gmap ptr timer_list) (c n : Z) (due : gmap ptr Z) (b : tvec_base).
Hypothesis HW : wheel m c (at_tick n) n due [] b.
Hypothesis Hnear : forall p e, event m (slot b p) e -> near n e.
Hypothesis Hfar : forall s e, event m (slot b (5, s)) e -> s = (tick_at n e / unit 5) mod 64 /\ tick_at n e < n + 64 * unit 5.

Lemma slot_known p t : t ∈ slot b p -> is_Some (m !! t).
Proof. intros Ht. destruct (w_slot _ _ _ _ _ _ _ HW p t Ht) as (l & D & -> & _). done. Qed.

(** A timer of tv1, due at [D]. *)
Lemma event_tv1 s e : event m (slot b (1, s)) e -> exists D, s = D mod 256 /\ n <= D < n + 256 /\ D = Z.max n (tick_at n e).
Proof.
  intros (t & x & Ht & Hx & _ & He). destruct (w_slot _ _ _ _ _ _ _ HW _ t Ht) as (l & D & Hl & _ & _ & _ & Hon & Hp).
  assert (l = x) as -> by congruence. rewrite He in *. destruct Hp as [(_ & HD & Hs)|([? _] & _)]; [|cbn in *; lia]. exists D. split; [done|]. split; [done|].
  unfold tick_at. destruct Hon as [->|[-> Hneg]]; [|lia]. destruct (u64_cases D) as (j & E & _).
  rewrite (s64_eq (u64 D - n) (D - n) j) by lia. rewrite s64_small by lia. lia.
Qed.

(** A timer of the list [q] of one of the other vectors. *)
Lemma event_tvn k s e : 2 <= k <= 5 -> event m (slot b (k, s)) e ->
  exists q, s = q mod 64 /\ block n (unit k) <= q < block n (unit k) + 64 /\ q * unit k <= tick_at n e < (q + 1) * unit k.
Proof.
  intros Hk Hev. pose proof Hev as (t & x & Ht & Hx & _ & He). destruct (w_slot _ _ _ _ _ _ _ HW _ t Ht) as (l & D & Hl & _ & _ & _ & _ & Hp).
  assert (l = x) as -> by congruence. rewrite He in *. destruct Hp as [(? & _)|(_ & HeD & HD & P & Hs & HP & HPD & Hex)]; [cbn in *; lia|]. cbn in *.
  unfold at_tick in HP. pose proof (unit_pos k ltac:(lia)) as Hu. pose proof (block_start P (unit k) Hu) as Hbs. pose proof (block_bounds n (unit k) Hu) as Hbn.
  assert (tick_at n e = D) as HtD.
  { unfold tick_at. rewrite HeD. destruct (u64_cases D) as (j & E & _). rewrite (s64_eq (u64 D - n) (D - n) j) by lia. rewrite s64_small by lia. lia. }
  pose proof (block_start D (unit k) Hu) as HbD. exists (P / unit k). split; [done|]. split; [nia|]. rewrite HtD.
  assert (P / unit k = D / unit k) as ->; [|lia]. destruct (decide (k < 5)) as [Hk5|]; [by rewrite (Hex Hk5)|]. assert (k = 5) as -> by lia.
  destruct (Hfar s e Hev) as [Hs' Hlt]. rewrite HtD in *. pose proof (Z.div_le_mono P D (unit 5) Hu HPD).
  assert (D / unit 5 < P / unit 5 + 64) by nia.
  pose proof (Z.div_mod (P / unit 5) 64 ltac:(lia)). pose proof (Z.div_mod (D / unit 5) 64 ltac:(lia)). lia.
Qed.

Lemma find_tv1_spec fuel : forall j,
  0 <= j < 256 -> Z.of_nat fuel = 256 - j -> (forall i e, 0 <= i < j -> ~ event m (slot b (1, (n + i) mod 256)) e) ->
  exists r, find_tv1 fuel m b (n mod 256) ((n + j) mod 256) = Some r /\
    match r with
    | None => forall s e, ~ event m (slot b (1, s)) e
    | Some (e, s) => event m (slot b (1, s)) e /\ forall s' e', event m (slot b (1, s')) e' -> Z.max n (tick_at n e) <= Z.max n (tick_at n e')
    end.
Proof.
  induction fuel as [|fuel IH]; intros j Hj Hf Hno; [lia|]. cbn [find_tv1].
  destruct (first_event_spec m (slot b (1, (n + j) mod 256))) as (r & -> & Hr); [by apply slot_known|]. cbn [mbind option_bind].
  assert (forall s e, event m (slot b (1, s)) e -> exists i, s = (n + i) mod 256 /\ j <= i < 256 /\ n + i = Z.max n (tick_at n e)) as Hpos.
  { intros s e He. destruct (event_tv1 s e He) as (D & Hs & HD & Ht). exists (D - n). replace (n + (D - n)) with D by lia. split; [done|]. split; [|done].
    destruct (Z.lt_ge_cases (D - n) j) as [Hlt|]; [|lia]. exfalso. apply (Hno (D - n) e); [lia|]. replace (n + (D - n)) with D by lia. by rewrite <- Hs. }
  destruct r as [e|].
  - eexists. split; [done|]. split; [done|]. intros s' e' He'. destruct (Hpos _ _ Hr) as (i & Hi & Hij & <-), (Hpos s' e' He') as (i' & _ & Hij' & <-).
    assert (i = j) as ->; [|lia]. pose proof (Z.div_mod (n + j) 256 ltac:(lia)). pose proof (Z.div_mod (n + i) 256 ltac:(lia)). lia.
  - change TVR_MASK with (Z.ones 8). change 256 with (2 ^ 8). rewrite (around 8 n j) by lia. change (2 ^ 8) with 256.
    assert (forall i e, 0 <= i < j + 1 -> ~ event m (slot b (1, (n + i) mod 256)) e) as Hno'.
    { intros i e Hi. destruct (decide (i = j)) as [->|]; [apply Hr|apply Hno; lia]. }
    destruct (Z.eqb_spec ((n + (j + 1)) mod 256) (n mod 256)) as [E|E].
    + apply once_around in E; [|lia|lia]. eexists. split; [done|]. intros s e He. destruct (Hpos s e He) as (i & -> & Hi & _). by apply (Hno' i e); [lia|].
    + assert (j + 1 <> 256) by (intros H; apply E; apply once_around; lia). apply (IH (j + 1)); [lia|lia|done].
Qed.

(** The search has stopped at the list [q] of vector [k], with [E'] instead of
    [E]. *)
Record hit (k E E' q : Z) : Prop := {
  hit_list : block n (unit k) <= q < block n (unit k) + 64;
  hit_range : n - 2 ^ 61 <= E' <= E;
  hit_block : E' < (q + 1) * unit k;
  hit_least s e : event m (slot b (k, s)) e -> E' <= tick_at n e;
  hit_from : E' = E \/ exists s e, event m (slot b (k, s)) e /\ E' = tick_at n e
}.

Definition returns (k q : Z) : bool := negb ((block n (unit k) mod 64 =? 0) || (q mod 64 <? block n (unit k) mod 64)).

(** A list has been looked at, those before it have no events. *)
Lemma hit_here k E E' q :
  2 <= k <= 5 -> block n (unit k) <= q < block n (unit k) + 64 -> n - 2 ^ 61 <= E' <= E -> E' < (q + 1) * unit k ->
  (forall s e, event m (slot b (k, s)) e -> tick_at n e < q * unit k -> False) ->
  (forall e, event m (slot b (k, q mod 64)) e -> E' <= tick_at n e) ->
  (E' = E \/ exists e, event m (slot b (k, q mod 64)) e /\ E' = tick_at n e) -> hit k E E' q.
Proof.
  intros Hk Hq HE Hb Hbefore Hleast Hfrom. split; [done|done|done| |destruct Hfrom as [?|(e & ? & ?)]; [by left|right; by eexists _, e]].
  intros s e He. destruct (event_tvn k s e Hk He) as (q' & Hs & Hq' & Ht). pose proof (unit_pos k ltac:(lia)) as Hu.
  destruct (Z.lt_trichotomy q' q) as [Hlt|[->|Hgt]]; [|rewrite Hs in He; auto|nia]. exfalso. apply (Hbefore s e He). nia.
Qed.

Lemma find_tvn_found fuel k E :
  2 <= k <= 5 -> n - 2 ^ 61 <= E <= n + 2 ^ 61 -> E < (block n (unit k) + 1) * unit k ->
  exists E', find_tvn (S fuel) m b k (block n (unit k) mod 64) (block n (unit k) mod 64) true (u64 E) = Some (returns k (block n (unit k)), true, u64 E') /\
    hit k E E' (block n (unit k)).
Proof.
  intros Hk HE Hb. cbn [find_tvn]. set (q := block n (unit k)) in *.
  destruct (min_event_spec m n (slot b (k, q mod 64)) true E) as (f & E' & E1 & Hf & HE' & Hl & Hfr); [by apply slot_known|by apply Hnear|done|].
  rewrite E1. cbn [mbind option_bind]. rewrite (proj2 Hf) by by left. exists E'. split; [done|]. apply hit_here; try done; [lia|lia|].
  intros s e He Ht. destruct (event_tvn k s e Hk He) as (q' & _ & Hq' & Ht'). pose proof (unit_pos k ltac:(lia)). fold q in Hq'. nia.
Qed.

Lemma find_tvn_spec k E fuel : forall j,
  2 <= k <= 5 -> n - 2 ^ 61 <= E <= n + 2 ^ 61 -> 0 <= j < 64 -> Z.of_nat fuel = 64 - j ->
  (forall i e, 0 <= i < j -> ~ event m (slot b (k, (block n (unit k) + i) mod 64)) e) ->
  exists ret found E', find_tvn fuel m b k (block n (unit k) mod 64) ((block n (unit k) + j) mod 64) false (u64 E) = Some (ret, found, u64 E') /\
    if found : bool then exists q, hit k E E' q /\ ret = returns k q else ret = false /\ E' = E /\ forall s e, ~ event m (slot b (k, s)) e.
Proof.
  set (C := block n (unit k)). induction fuel as [|fuel IH]; intros j Hk HE Hj Hf Hno; [lia|]. cbn [find_tvn]. pose proof (unit_pos k ltac:(lia)) as Hu.
  destruct (min_event_spec m n (slot b (k, (C + j) mod 64)) false E) as (f & E' & E1 & Hfound & HE' & Hl & Hfr); [by apply slot_known|by apply Hnear|done|].
  rewrite E1. cbn [mbind option_bind].
  assert (forall s e, event m (slot b (k, s)) e -> exists i, s = (C + i) mod 64 /\ j <= i < 64 /\ (C + i) * unit k <= tick_at n e < (C + i + 1) * unit k) as Hpos.
  { intros s e He. destruct (event_tvn k s e Hk He) as (q & Hs & Hq & Ht). fold C in Hq. exists (q - C). replace (C + (q - C)) with q by lia. split; [done|]. split; [|done].
    destruct (Z.lt_ge_cases (q - C) j) as [Hlt|]; [|lia]. exfalso. apply (Hno (q - C) e); [lia|]. replace (C + (q - C)) with q by lia. by rewrite <- Hs. }
  destruct f.
  - eexists _, true, E'. split; [done|]. exists (C + j). split; [|done]. destruct (proj1 Hfound eq_refl) as [?|[e He]]; [done|].
    apply hit_here; try done; [unfold C; lia| |].
    + destruct (Hpos _ e He) as (i & Hi & Hij & Ht). specialize (Hl e He). assert (i = j) as ->; [|lia].
      pose proof (Z.div_mod (C + j) 64 ltac:(lia)). pose proof (Z.div_mod (C + i) 64 ltac:(lia)). lia.
    + intros s e' He' Hlt. destruct (Hpos s e' He') as (i & _ & Hij & Ht). nia.
  - assert (forall e, ~ event m (slot b (k, (C + j) mod 64)) e) as Hnone.
    { intros e He. assert (false = true); [apply Hfound; right; by exists e|done]. }
    assert (E' = E) as -> by (destruct Hfr as [->|(e & He & _)]; [done|by destruct (Hnone e)]).
    assert (Z.land ((C + j) mod 64 + 1) TVN_MASK = (C + (j + 1)) mod 64) as -> by exact (around 6 C j ltac:(lia)).
    assert (forall i e, 0 <= i < j + 1 -> ~ event m (slot b (k, (C + i) mod 64)) e) as Hno'.
    { intros i e Hi. destruct (decide (i = j)) as [->|]; [apply Hnone|apply Hno; lia]. }
    destruct (Z.eqb_spec ((C + (j + 1)) mod 64) (C mod 64)) as [Ea|Ea].
    + apply once_around in Ea; [|lia|lia]. eexists _, false, E. split; [done|]. split; [done|]. split; [done|].
      intros s e He. destruct (Hpos s e He) as (i & -> & Hi & _). by apply (Hno' i e); [lia|].
    + assert (j + 1 <> 64) by (intros H; apply Ea; apply once_around; lia). apply (IH (j + 1)); [done|done|lia|lia|done].
Qed.

Lemma hit_passes k E E' q : 2 <= k -> hit k E E' q -> E' < (block n (unit (k + 1)) + 1) * unit (k + 1).
Proof.
  intros Hk [Hq _ Hb _ _]. pose proof (unit_pos k Hk) as Hu. rewrite unit_succ by done. rewrite (block_up n (unit k) Hu).
  pose proof (block_bounds (block n (unit k)) 64 ltac:(lia)). nia.
Qed.

(** When the search returns, the lists of the other vectors come later. *)
Lemma hit_returns k E E' q j s e :
  2 <= k -> k < j <= 5 -> hit k E E' q -> returns k q = true -> event m (slot b (j, s)) e -> E' <= tick_at n e.
Proof.
  intros Hk Hj [Hq _ Hb _ _] Hr He. apply negb_true_iff, orb_false_iff in Hr as [Hi%Z.eqb_neq Hs%Z.ltb_ge].
  destruct (event_tvn j s e ltac:(lia) He) as (q' & _ & Hq' & Ht). pose proof (unit_pos k Hk) as Hu. pose proof (unit_pos j ltac:(lia)) as Huj.
  pose proof (block_coarser n (unit (k + 1)) (unit j) (unit_pos (k + 1) ltac:(lia)) Huj (unit_divide (k + 1) j ltac:(lia))) as Hc.
  rewrite (unit_succ k Hk), (block_up n (unit k) Hu) in Hc. set (C := block n (unit k)) in *.
  pose proof (block_bounds C 64 ltac:(lia)) as HC. set (d := block C 64) in *.
  assert (q + 1 <= d * 64) as Hqd.
  { pose proof (Z.div_mod C 64 ltac:(lia)). pose proof (Z.div_mod q 64 ltac:(lia)). pose proof (Z.mod_pos_bound C 64 ltac:(lia)).
    pose proof (Z.mod_pos_bound q 64 ltac:(lia)). lia. }
  nia.
Qed.

Lemma find_vectors_spec more : forall k tj found E z d,
  k = 6 - Z.of_nat more -> 2 <= k -> tj = block n (unit k) + z * (64 ^ Z.of_nat more * d) -> 0 <= tj <= 2 ^ 56 ->
  n - 2 ^ 61 <= E <= n + 2 ^ 61 -> (found = true -> E < (block n (unit k) + 1) * unit k) ->
  exists E', find_vectors more m b k tj found (u64 E) = Some (u64 E') /\ n - 2 ^ 61 <= E' <= E /\
    (forall j s e, k <= j <= 5 -> event m (slot b (j, s)) e -> E' <= tick_at n e) /\
    (E' = E \/ exists j s e, k <= j <= 5 /\ event m (slot b (j, s)) e /\ E' = tick_at n e).
Proof.
  induction more as [|more IH]; intros k tj found E z d Hk Hk2 Htj Hrange HE Hfound; cbn [find_vectors].
  { exists E. split; [done|]. split; [lia|]. split; [intros; lia|by left]. }
  assert (Z.land tj TVN_MASK = block n (unit k) mod 64) as Hidx.
  { change TVN_MASK with (Z.ones 6). rewrite Z.land_ones by lia. change (2 ^ 6) with 64. rewrite Htj, Nat2Z.inj_succ, Z.pow_succ_r by lia.
    replace (z * (64 * 64 ^ Z.of_nat more * d)) with (z * 64 ^ Z.of_nat more * d * 64) by ring. apply Z.mod_add. lia. }
  rewrite Hidx. pose proof (unit_pos k ltac:(lia)) as Hu.
  assert (exists ret f E1, find_tvn 64 m b k (block n (unit k) mod 64) (block n (unit k) mod 64) found (u64 E) = Some (ret, f, u64 E1) /\
    if f : bool then exists q, hit k E E1 q /\ ret = returns k q else ret = false /\ E1 = E /\ forall s e, ~ event m (slot b (k, s)) e) as (ret & f & E1 & E2 & HR).
  { destruct found.
    - destruct (find_tvn_found 63 k E) as (E1 & E2 & Hh); [lia|done|auto|]. eexists _, true, E1. split; [exact E2|]. by eexists.
    - pose proof (find_tvn_spec k E 64 0 ltac:(lia) HE ltac:(lia) ltac:(lia)) as H. rewrite Z.add_0_r in H. apply H. intros; lia. }
  rewrite E2. cbn [mbind option_bind].
  assert (forall f' E0, (f' = true -> E0 < (block n (unit (k + 1)) + 1) * unit (k + 1)) -> n - 2 ^ 61 <= E0 <= n + 2 ^ 61 ->
    exists E', find_vectors more m b (k + 1) (Z.shiftr (if block n (unit k) mod 64 =? 0 then tj else u64 (tj + (TVN_SIZE - block n (unit k) mod 64))) TVN_BITS) f' (u64 E0) = Some (u64 E') /\ n - 2 ^ 61 <= E' <= E0 /\
    (forall j s e, k + 1 <= j <= 5 -> event m (slot b (j, s)) e -> E' <= tick_at n e) /\
    (E' = E0 \/ exists j s e, k + 1 <= j <= 5 /\ event m (slot b (j, s)) e /\ E' = tick_at n e)) as Hnext.
  { intros f' E0 Hf' HE0. change TVN_SIZE with 64. change TVN_BITS with 6. change TVN_MASK with (Z.ones 6) in Hidx. rewrite Z.land_ones in Hidx by lia.
    change (2 ^ 6) with 64 in Hidx. rewrite <- Hidx, next_vector by done. pose proof (block_bounds tj 64 ltac:(lia)).
    apply (IH (k + 1) _ f' E0 z d); [lia|lia| |lia|done|done].
    rewrite Htj, Nat2Z.inj_succ, Z.pow_succ_r, <- Z.mul_assoc, block_shift by lia. by rewrite <- block_up, <- unit_succ by lia. }
  destruct f.
  - destruct HR as (q & Hh & ->). pose proof Hh as [_ Hr1 _ Hl Hfr]. destruct (returns k q) eqn:Er.
    + exists E1. split; [done|]. split; [lia|]. split.
      * intros j s e Hj He. destruct (decide (j = k)) as [->|]; [by apply (Hl s)|]. by apply (hit_returns k E E1 q j s); [|lia|..].
      * destruct Hfr as [?|(s & e & ? & ?)]; [by left|right]. exists k, s, e. split; [lia|done].
    + destruct (Hnext true E1) as (E' & E3 & HE' & Hl' & Hfr'); [intros _; by apply (hit_passes k E E1 q)|lia|].
      exists E'. split; [done|]. split; [lia|]. split.
      * intros j s e Hj He. destruct (decide (j = k)) as [->|]; [specialize (Hl s e He); lia|]. apply (Hl' j s e); [lia|done].
      * destruct Hfr' as [->|(j & s & e & Hj & He)]; [|right; exists j, s, e; split; [lia|done]].
        destruct Hfr as [?|(s & e & ? & ?)]; [by left|right]. exists k, s, e. split; [lia|done].
  - destruct HR as (-> & -> & Hno). destruct (Hnext false E) as (E' & E3 & HE' & Hl' & Hfr'); [done|done|].
    exists E'. split; [done|]. split; [lia|]. split.
    + intros j s e Hj He. destruct (decide (j = k)) as [->|]; [by destruct (Hno s e)|]. apply (Hl' j s e); [lia|done].
    + destruct Hfr' as [->|(j & s & e & Hj & He)]; [by left|right; exists j, s, e; split; [lia|done]].
Qed.

Lemma event_vector p e : event m (slot b p) e -> p.1 = 1 \/ 2 <= p.1 <= 5.
Proof.
  intros (t & x & Ht & _). destruct (w_slot _ _ _ _ _ _ _ HW _ t Ht) as (l & D & _ & _ & _ & _ & _ & [(? & _)|(? & _)]); auto.
Qed.

(** The time in the lists of tv2. *)
Lemma first_vector : exists z, 
  Z.shiftr (if n mod 256 =? 0 then u64 n else u64 (u64 n + (TVR_SIZE - n mod 256))) TVR_BITS = block n (unit 2) + z * (64 ^ 4 * 2 ^ 32) /\
  0 <= block n (unit 2) + z * (64 ^ 4 * 2 ^ 32) <= 2 ^ 56.
Proof.
  change (unit 2) with 256. change TVR_SIZE with 256. change TVR_BITS with 8. change (64 ^ 4 * 2 ^ 32) with (2 ^ 56).
  pose proof (block_bounds n 256 ltac:(lia)) as Hb. pose proof (Z.div_mod n 256 ltac:(lia)). pose proof (Z.mod_pos_bound n 256 ltac:(lia)).
  assert (exists k, (if n mod 256 =? 0 then u64 n else u64 (u64 n + (256 - n mod 256))) = (block n 256 + k * 2 ^ 56) * 256 /\
    0 <= (block n 256 + k * 2 ^ 56) * 256 < 2 ^ 64) as (k & Hk & Hr).
  { destruct (u64_cases n) as (k1 & E1 & R1). destruct (Z.eqb_spec (n mod 256) 0) as [E0|E0].
    - exists k1. split; lia.
    - destruct (u64_cases (u64 n + (256 - n mod 256))) as (k2 & E2 & R2). exists (k1 + k2). split; lia. }
  exists k. rewrite Hk, Z.shiftr_div_pow2 by lia. change (2 ^ 8) with 256. rewrite Z.div_mul by lia. split; [done|lia].
Qed.

(** The search ends with [E]: not after any timer, and the time of one of them
    or the longest sleep. *)
Lemma next_timer_spec :
  exists E, next_timer_interrupt m b = Some (u64 E) /\ n - 2 ^ 61 <= E <= n + 2 ^ 61 /\
    (forall p e, event m (slot b p) e -> E <= Z.max n (tick_at n e)) /\
    (E = n + NEXT_TIMER_MAX_DELTA \/ exists p e, event m (slot b p) e /\ E = tick_at n e).
Proof.
  unfold next_timer_interrupt. rewrite (w_now _ _ _ _ _ _ _ HW).
  assert (Z.land (u64 n) TVR_MASK = n mod 256) as Hidx.
  { change TVR_MASK with (Z.ones 8). rewrite <- (Z.shiftr_0_r (u64 n)), digit_u64 by lia. by rewrite Z.pow_0_r, Z.div_1_r. }
  rewrite Hidx. destruct first_vector as (z & -> & Hz).
  pose proof (find_tv1_spec 256 0 ltac:(lia) ltac:(lia)) as H1. rewrite Z.add_0_r in H1. destruct H1 as (r & -> & Hr); [intros; lia|].
  cbn [mbind option_bind]. pose proof (block_bounds n 256 ltac:(lia)) as Hb. destruct r as [[e s]|].
  - destruct Hr as [He Hleast]. destruct (event_tv1 s e He) as (D & Hs & HD & HDe). destruct (near_range n e (Hnear _ _ He)) as [Hex Hrange].
    destruct ((n mod 256 =? 0) || (s <? n mod 256)) eqn:Ei.
    + destruct (find_vectors_spec 4 2 _ true (tick_at n e) z (2 ^ 32) eq_refl ltac:(lia) eq_refl Hz Hrange) as (E & E1 & HE & Hl & Hfr).
      { intros _. change (unit 2) with 256. lia. }
      rewrite <- Hex in E1. exists E. split; [exact E1|]. split; [lia|]. split.
      * intros p e' He'. destruct p as [k s']. destruct (event_vector _ _ He') as [Hk|Hk]; cbn in Hk.
        -- subst k. specialize (Hleast s' e' He'). lia.
        -- specialize (Hl k s' e' Hk He'). lia.
      * right. destruct Hfr as [->|(k & s' & e' & _ & He' & ->)]; [by exists (1, s), e|by exists (k, s'), e'].
    + exists (tick_at n e). split; [by rewrite <- Hex|]. split; [lia|]. split; [|right; by exists (1, s), e].
      apply orb_false_iff in Ei as [Ei%Z.eqb_neq Es%Z.ltb_ge]. intros [k s'] e' He'. destruct (event_vector _ _ He') as [Hk|Hk]; cbn in Hk.
      { subst k. specialize (Hleast s' e' He'). lia. }
      destruct (event_tvn k s' e' Hk He') as (q & _ & Hq & Ht). pose proof (unit_pos k ltac:(lia)) as Hu.
      pose proof (block_coarser n (unit 2) (unit k) (unit_pos 2 ltac:(lia)) Hu (unit_divide 2 k ltac:(lia))) as Hc. change (unit 2) with 256 in Hc.
      assert (D < block n 256 * 256); [|nia]. pose proof (Z.div_mod D 256 ltac:(lia)). pose proof (Z.div_mod n 256 ltac:(lia)).
      pose proof (Z.mod_pos_bound D 256 ltac:(lia)). pose proof (Z.mod_pos_bound n 256 ltac:(lia)). lia.
  - destruct (find_vectors_spec 4 2 _ false (n + NEXT_TIMER_MAX_DELTA) z (2 ^ 32) eq_refl ltac:(lia) eq_refl Hz) as (E & E1 & HE & Hl & Hfr); [|done|].
    { change NEXT_TIMER_MAX_DELTA with (2 ^ 30 - 1). lia. }
    destruct (u64_cases n) as (k1 & E0 & _). rewrite (u64_eq (u64 n + NEXT_TIMER_MAX_DELTA) (n + NEXT_TIMER_MAX_DELTA) k1) by lia.
    exists E. split; [exact E1|]. change NEXT_TIMER_MAX_DELTA with (2 ^ 30 - 1) in *. split; [lia|]. split.
    + intros [k s'] e' He'. destruct (event_vector _ _ He') as [Hk|Hk]; cbn in Hk; [subst k; by destruct (Hr s' e')|].
      specialize (Hl k s' e' Hk He'). lia.
    + destruct Hfr as [->|(k & s' & e' & _ & He' & ->)]; [by left|right; by exists (k, s'), e'].
Qed.
End Wheel.

(** ** Nanoseconds in ticks *)

(** The constants of the conversion. *)
Lemma conversion_values :
  TICK_NSEC = 4000250 /\ MAX_SEC_IN_JIFFIES = 2199160693 /\ SEC_CONVERSION = 4194041873 /\ NSEC_CONVERSION = 2251659085 /\
  NSEC_JIFFIE_SC = 53 /\ SEC_JIFFIE_SC = 24.
Proof. by vm_compute. Qed.

(** The ticks [r] of [ns] are enough, and fewer than two too many. *)
Lemma timespec_to_jiffies_up ns r :
  0 <= ns <= KTIME_MAX -> r = timespec_to_jiffies (ns_to_timespec ns) ->
  Z.min ns (2 ^ 30 * TICK_NSEC) <= r * TICK_NSEC /\ (ns <= 2 ^ 30 * TICK_NSEC -> (r - 2) * TICK_NSEC < ns) /\ 0 <= r.
Proof.
  destruct conversion_values as (E1 & E2 & E3 & E4 & E5 & E6). unfold KTIME_MAX. intros Hns ->. unfold ns_to_timespec.
  rewrite Z.quot_div_nonneg, Z.rem_mod_nonneg by (unfold NSEC_PER_SEC; lia).
  pose proof (Z.mod_pos_bound ns NSEC_PER_SEC ltac:(done)) as Hm. pose proof (Z.div_mod ns NSEC_PER_SEC ltac:(done)) as Hd.
  replace (ns mod NSEC_PER_SEC <? 0) with false by lia. unfold timespec_to_jiffies. cbn [fst snd]. rewrite E1, E2, E3, E4, E5, E6.
  set (sec := ns / NSEC_PER_SEC) in *. set (nsec := ns mod NSEC_PER_SEC) in *. change NSEC_PER_SEC with 1000000000 in *. clearbody sec nsec.
  unfold u64. rewrite (wrapu_small 64 sec) by lia. case_if; cbn beta iota zeta.
  - match goal with |- context [Z.shiftr ?x 24] => replace (Z.shiftr x 24) with 549755813592 by by vm_compute end. lia.
  - rewrite (wrapu_small 64 (sec * _)), (wrapu_small 64 ((nsec + 4000250 - 1) * _)) by lia. rewrite !Z.shiftr_div_pow2 by lia.
    pose proof (block_start ((nsec + 4000250 - 1) * 2251659085) (2 ^ (53 - 24)) eq_refl) as Ha. change (53 - 24) with 29 in *.
    set (a := _ / 2 ^ 29) in *. clearbody a. rewrite wrapu_small by lia.
    pose proof (block_start (sec * 4194041873 + a) (2 ^ 24) eq_refl) as Hr. set (r := _ / 2 ^ 24) in *. clearbody r. lia.
Qed.

(** ** Whole seconds *)

Lemma round_common_spec jif j cpu up :
  0 <= cpu -> 0 <= jif < j -> HZ <= j -> j + 3 * cpu + HZ < 2 ^ 64 ->
  let r := round_jiffies_common jif j cpu up in
  jif < r /\ j - HZ / 4 < r <= j + HZ /\ (r = j \/ (r + 3 * cpu) mod HZ = 0) /\ (up = true -> j < r).
Proof.
  intros Hc Hj Hz Hmax. unfold round_jiffies_common. change HZ with 250 in *. change (250 / 4) with 62.
  assert (forall x, 0 <= x < 2 ^ 64 -> u64 x = x) as Hu by (intros x Hx; by apply wrapu_small). rewrite (Hu (j + cpu * 3)) by lia.
  pose proof (Z.mod_pos_bound (j + cpu * 3) 250 eq_refl) as Hm. pose proof (Z.div_mod (j + cpu * 3) 250 ltac:(done)) as Hd.
  set (rem := (j + cpu * 3) mod 250) in *. set (q := (j + cpu * 3) / 250) in *. clearbody rem q. cbn zeta.
  assert (forall a x, x = 250 * a -> x mod 250 = 0) as Hmod by (intros a x ->; rewrite Z.mul_comm; by apply Z.mod_mul).
  case_if.
  - apply andb_true_iff in E as [Hr Hup]. rewrite (Hu (j + cpu * 3 - rem)), (Hu (j + cpu * 3 - rem - cpu * 3)) by lia.
    assert (up = true -> False) as Hno by (by intros ->). destruct (Z.leb_spec (j + cpu * 3 - rem - cpu * 3) jif).
    + split; [lia|]. split; [lia|]. split; [by left|]. intros H1. by destruct Hno.
    + split; [lia|]. split; [lia|]. split; [right; apply (Hmod q); lia|]. intros H1. by destruct Hno.
  - rewrite (Hu (j + cpu * 3 - rem + 250)), (Hu (j + cpu * 3 - rem + 250 - cpu * 3)) by lia.
    destruct (Z.leb_spec (j + cpu * 3 - rem + 250 - cpu * 3) jif); [lia|].
    split; [lia|]. split; [lia|]. split; [right; apply (Hmod (q + 1)); lia|lia].
Qed.
