(* ===== verification/TimerIdle.v ===== *)
(** * TimerIdle: an idle CPU sleeps past no timer

    The value [next_timer] that kernel/timer.c keeps for NO_HZ is right in every
    reachable state, as long as all times lie in a window of 2^32 - 1 ticks, so
    that [get_next_timer_interrupt] never lets a CPU sleep past a timer. Beyond
    the window a timer is put off, and then the search can miss another one. *)

From S2P Require Import Prelude Hrtimer Timer TimerInv TimerNext TimerNextInv.

(** ** Times in a window *)

(** [e] is a time from tick [lo] to tick [hi]. *)
Definition in_window (lo hi e : Z) : Prop := exists x, lo <= x <= hi /\ e = u64 x.

(** The times [o] gives to timers are in the window. *)
Definition op_in (lo hi : Z) (st : timers) (o : timer_op) : Prop :=
  match o with
  | OpMod e t x => forall l, tl st !! t = Some l -> in_window lo hi (apply_slack e l x)
  | OpModPending _ _ x | OpModPinned _ _ x => in_window lo hi x
  | OpAdd e t => forall l, tl st !! t = Some l -> in_window lo hi (apply_slack e l (expires l))
  | OpAddOn t _ => forall l, tl st !! t = Some l -> in_window lo hi (expires l)
  | _ => True
  end.

Fixpoint ops_in (lo hi : Z) (l : list timer_op) (st : timers) : Prop :=
  match l with
  | [] => True
  | o :: l => op_in lo hi st o /\ forall st', run_op o st = Some st' -> ops_in lo hi l st'
  end.

(** What the timer functions do keeps to the window. *)
Definition handler_in (lo hi : Z) (handler : Z -> Z -> timers -> list timer_op) : Prop :=
  forall e st, ops_in lo hi (handler (call_fn e) (call_data e) st) (log_call e st).

(** The states reached with all times in the window; CPUs go idle too. *)
Inductive nohz_reach (lo hi : Z) (mc : machine) : timers -> Prop :=
| nr_boot : nohz_reach lo hi mc {| tl := ∅; bases := ∅; calls := [] |}
| nr_cpu st cpu now mem :
    nohz_reach lo hi mc st -> 0 <= now < 2 ^ 64 -> in_window lo hi now ->
    (forall t l, tl st !! t = Some l -> pending l = true -> base l <> cpu) ->
    nohz_reach lo hi mc (init_timers_cpu cpu now mem st).2
| nr_op o st st' :
    nohz_reach lo hi mc st -> op_ok st o -> op_in lo hi st o -> run_op o st = Some st' -> nohz_reach lo hi mc st'
| nr_run handler fuel clock c st st' :
    nohz_reach lo hi mc st -> handler_ok handler -> handler_in lo hi handler -> (forall k, in_window lo (hi - 1) (clock k)) ->
    run_timer_softirq handler fuel clock c st = Some st' -> nohz_reach lo hi mc st'
| nr_migrate old new st st' :
    nohz_reach lo hi mc st -> old <> new -> is_Some (bases st !! new) -> migrate_timers old new st = Some st' ->
    nohz_reach lo hi mc st'
| nr_idle c now hr st r st' hr' :
    nohz_reach lo hi mc st -> get_next_timer_interrupt mc c now st hr = Some (r, st', hr') -> nohz_reach lo hi mc st'.

(** ** The next timer of a wheel *)

Section Window.
Context (lo hi : Z).
Hypothesis Hwin : hi - lo <= 2 ^ 32 - 1.

(** The timers on the lists of CPU [c] are its own, those of tv5 on the list of
    their expiry; and [next_timer] is stale or not after any timer of the CPU
    that may wake it up. *)
Record base_kept (m : gmap ptr timer_list) (c : Z) (b : tvec_base) : Prop := {
  bk_slot k t : t ∈ slot b k -> exists l, m !! t = Some l /\ pending l = true /\ base l = c /\
    (k.1 = 5 -> k.2 = Z.land (Z.shiftr (expires l) 26) 63);
  bk_next : exists n v, lo <= n <= hi /\ lo <= v <= hi + 2 ^ 30 /\ timer_jiffies b = u64 n /\ next_timer b = u64 v /\
    (v <= n \/ forall t l x, m !! t = Some l -> pending l = true -> base l = c -> deferrable l = false ->
       lo <= x <= hi -> expires l = u64 x -> v <= Z.max n x)
}.

Record kept (st : timers) : Prop := {
  kp_time t l : tl st !! t = Some l -> pending l = true -> in_window lo hi (expires l);
  kp_base c b : bases st !! c = Some b -> base_kept (tl st) c b
}.

(** [t] is on no list. *)
Definition off (t : ptr) (st : timers) : Prop := forall c b k, bases st !! c = Some b -> t ∉ slot b k.

Lemma window_eq x y : lo <= x <= hi -> lo <= y <= hi + 2 ^ 30 -> u64 x = u64 y -> x = y.
Proof. intros Hx Hy E. destruct (u64_cases x) as (k1 & E1 & _), (u64_cases y) as (k2 & E2 & _). nia. Qed.

(** A wheel with the same clock and next timer, and on its lists no more than on
    those of another one. *)
Lemma base_kept_less m c b b' :
  base_kept m c b -> timer_jiffies b' = timer_jiffies b -> next_timer b' = next_timer b ->
  (forall k t, t ∈ slot b' k -> t ∈ slot b k) -> base_kept m c b'.
Proof. intros [H1 H2] E1 E2 Hs. constructor; [intros k t Ht; by apply H1, Hs|]. by rewrite E1, E2. Qed.

Lemma base_kept_other m c b t l' :
  base_kept m c b -> (forall k, t ∉ slot b k) -> pending l' = false \/ base l' <> c -> base_kept (<[t := l']> m) c b.
Proof.
  intros [H1 H2] Ht Hl. constructor.
  - intros k t' Ht'. destruct (H1 k t' Ht') as (l & ? & ?). exists l. rewrite lookup_insert_ne; [done|]. intros ->. by apply (Ht k).
  - destruct H2 as (n & v & ? & ? & ? & ? & Hv). exists n, v. split_and!; try (done || lia). destruct Hv as [?|Hv]; [by left|]. right.
    intros t' l x. destruct (decide (t' = t)) as [->|Hne]; [rewrite lookup_insert_eq; intros [= <-]; destruct Hl; congruence|].
    rewrite lookup_insert_ne by done. apply Hv.
Qed.

Lemma base_kept_leave m c b l : base_kept m c b -> base_kept m c (leave_next l b).
Proof.
  intros H. unfold leave_next. case_if; [|done]. destruct H as [H1 (n & v & Hn & Hv & E1 & E2 & _)].
  constructor; [exact H1|]. exists n, n. cbn. split_and!; try (done || lia).
Qed.

(** A timer that is on no list enters. *)
Lemma vec_of_far b e n x s :
  timer_jiffies b = u64 n -> e = u64 x -> lo <= n <= hi -> lo <= x <= hi -> vec_of b e = (5, s) ->
  s = Z.land (Z.shiftr e 26) 63.
Proof.
  intros Hn -> Hn' Hx. unfold vec_of. rewrite Hn. destruct (u64_cases n) as (k1 & E1 & _), (u64_cases x) as (k2 & E2 & _).
  rewrite (u64_eq (u64 x - u64 n) (x - n) (k2 - k1)) by lia. repeat (case_if; [by intros [=]|]).
  case_if; [|by intros [= <-]]. destruct (u64_cases (x - n)) as (k & Ek & Hr).
  destruct (decide (n <= x)).
  - assert (u64 (x - n) = x - n) by (apply wrapu_small; lia). lia.
  - assert (s64 (u64 (x - n)) = x - n) as Hs by (rewrite (s64_eq (u64 (x - n)) (x - n) k) by lia; apply s64_small; lia). lia.
Qed.

Lemma base_kept_enter m c b t l :
  base_kept m c b -> (forall k, t ∉ slot b k) -> pending l = true -> base l = c -> in_window lo hi (expires l) ->
  base_kept (<[t := l]> m) c (internal_add_timer (enter_next l b) t (expires l)).
Proof.
  intros [H1 (n & v & Hn & Hv & E1 & E2 & Hnext)] Ht Hp Hc (x & Hx & Ex).
  assert (timer_jiffies (enter_next l b) = u64 n) as E1' by (unfold enter_next; by case_if).
  constructor.
  - intros k t'. unfold internal_add_timer. rewrite slot_set_vec_insert. fold (slot (enter_next l b) k).
    assert (forall k, slot (enter_next l b) k = slot b k) as Hsl by (intros k'; unfold enter_next; by case_if). rewrite !Hsl.
    assert (t' ∈ slot b k -> exists l0, <[t := l]> m !! t' = Some l0 /\ pending l0 = true /\ base l0 = c /\
      (k.1 = 5 -> k.2 = Z.land (Z.shiftr (expires l0) 26) 63)) as Hold.
    { intros Hk. destruct (H1 k t' Hk) as (l0 & ? & ?). exists l0. rewrite lookup_insert_ne; [done|]. intros ->. by apply (Ht k). }
    case_decide as Hk; [subst k|apply Hold]. rewrite elem_of_app, list_elem_of_singleton. intros [Hin|Heq]; [by apply Hold|].
    subst t'. exists l. rewrite lookup_insert_eq. split_and!; try done. intros Hk.
    destruct (vec_of (enter_next l b) (expires l)) as [k s] eqn:Ev. cbn in *. subst k. by apply (vec_of_far _ _ n x s E1' Ex).
  - unfold internal_add_timer. cbn. unfold enter_next. rewrite E2, Ex, time_before_ticks by lia.
    destruct ((x <? v) && negb (deferrable l)) eqn:Eb; cbn.
    + apply andb_true_iff in Eb as [Hlt _]. exists n, x. rewrite E1. split_and!; try (done || lia). destruct Hnext as [?|Hnext]; [left; lia|].
      right. intros t' l' x'. destruct (decide (t' = t)) as [->|Hne]; [rewrite lookup_insert_eq; intros [= <-]|rewrite lookup_insert_ne by done].
      * intros _ _ _ Hx' Ex'. assert (x = x') by (apply window_eq; [lia|lia|congruence]). lia.
      * intros A1 A2 A3 A4 A5 A6. specialize (Hnext t' l' x' A1 A2 A3 A4 A5 A6). lia.
    + exists n, v. rewrite E1, E2. split_and!; try (done || lia). destruct Hnext as [?|Hnext]; [by left|].
      right. intros t' l' x'. destruct (decide (t' = t)) as [->|Hne]; [rewrite lookup_insert_eq; intros [= <-]|rewrite lookup_insert_ne by done; apply Hnext].
      intros _ _ Hd Hx' Ex'. assert (x = x') by (apply window_eq; [lia|lia|congruence]). rewrite Hd in Eb. cbn in Eb. lia.
Qed.

(** ** Starting and stopping timers *)

Lemma kept_base st c b b' : kept st -> bases st !! c = Some b -> base_kept (tl st) c b' -> kept (set_base c b' st).
Proof.
  intros [H1 H2] Hb Hb'. constructor; [done|]. intros c' b0. cbn. destruct (decide (c' = c)) as [->|Hne].
  - rewrite lookup_insert_eq. by intros [= <-].
  - rewrite lookup_insert_ne by done. apply H2.
Qed.

Lemma off_base t st c b b' : off t st -> bases st !! c = Some b -> (forall k t, t ∈ slot b' k -> t ∈ slot b k) -> off t (set_base c b' st).
Proof.
  intros H Hb Hs c' b0 k. cbn. destruct (decide (c' = c)) as [->|Hne].
  - rewrite lookup_insert_eq. intros [= <-] Hk. by apply (H c b k Hb), Hs.
  - rewrite lookup_insert_ne by done. apply H.
Qed.

Lemma off_timer t t' l st : off t st -> off t (set_timer t' l st).
Proof. done. Qed.

Lemma kept_off st t : kept st -> default false (pending <$> tl st !! t) = false -> off t st.
Proof. intros H Hp c b k Hb Ht. destruct (bk_slot _ _ _ (kp_base _ H c b Hb) k t Ht) as (l & E & Hl & _). rewrite E in Hp. cbn in Hp. congruence. Qed.

Lemma kept_unlink st t l b :
  kept st -> tl st !! t = Some l -> bases st !! base l = Some b ->
  kept (set_base (base l) (unlink t b) st) /\ off t (set_base (base l) (unlink t b) st).
Proof.
  intros H Hl Hb. assert (forall k t', t' ∈ slot (unlink t b) k -> t' ∈ slot b k /\ t' <> t) as Hs.
  { intros k t'. rewrite slot_unlink. apply elem_of_list_del. }
  split.
  - apply (kept_base _ _ b); [done|done|]. apply (base_kept_less _ _ b); [by apply kp_base|done|done|]. intros k t' Ht'. by apply Hs.
  - intros c b0 k. cbn. destruct (decide (c = base l)) as [->|Hne].
    + rewrite lookup_insert_eq. intros [= <-] Ht. by destruct (Hs k t Ht).
    + rewrite lookup_insert_ne by done. intros Hb0 Ht. destruct (bk_slot _ _ _ (kp_base _ H c b0 Hb0) k t Ht) as (l' & E & _ & E' & _). congruence.
Qed.

Lemma kept_leave st c b l : kept st -> bases st !! c = Some b -> kept (set_base c (leave_next l b) st).
Proof. intros H Hb. apply (kept_base _ _ b); [done|done|]. by apply base_kept_leave, kp_base. Qed.

Lemma leave_slot l b k : slot (leave_next l b) k = slot b k.
Proof. unfold leave_next. by case_if. Qed.

Lemma kept_idle st t l' : kept st -> off t st -> pending l' = false -> kept (set_timer t l' st).
Proof.
  intros [H1 H2] Ht Hp. constructor.
  - intros t' l. cbn. destruct (decide (t' = t)) as [->|Hne]; [rewrite lookup_insert_eq; intros [= <-]; congruence|].
    rewrite lookup_insert_ne by done. apply H1.
  - intros c b Hb. apply base_kept_other; [by apply H2| |by left]. intros k. by apply (Ht c b k).
Qed.

Lemma kept_start st t l c b :
  kept st -> off t st -> bases st !! c = Some b -> pending l = true -> base l = c -> in_window lo hi (expires l) ->
  kept (set_timer t l (set_base c (internal_add_timer (enter_next l b) t (expires l)) st)).
Proof.
  intros [H1 H2] Ht Hb Hp Hc He. constructor.
  - intros t' l'. cbn. destruct (decide (t' = t)) as [->|Hne]; [rewrite lookup_insert_eq; by intros [= <-]|].
    rewrite lookup_insert_ne by done. apply H1.
  - intros c' b'. cbn. destruct (decide (c' = c)) as [->|Hne].
    + rewrite lookup_insert_eq. intros [= <-]. apply base_kept_enter; try done; [by apply H2|]. intros k. by apply (Ht c b k).
    + rewrite lookup_insert_ne by done. intros Hb'. apply base_kept_other; [by apply H2| |right; congruence]. intros k. by apply (Ht c' b' k).
Qed.

Lemma kept_detach st t l b :
  kept st -> tl st !! t = Some l -> bases st !! base l = Some b ->
  exists st', detach_timer t true st = Some st' /\ kept st' /\ off t st' /\ bases st' !! base l = Some (unlink t b).
Proof.
  intros H Hl Hb. destruct (kept_unlink st t l b H Hl Hb) as [H1 H2]. unfold detach_timer. rewrite Hl. cbn [mbind option_bind].
  rewrite Hb. cbn [mbind option_bind]. eexists. split; [done|]. split; [by apply kept_idle|]. split; [done|]. apply lookup_insert_eq.
Qed.

Lemma kept_stop st t l st' :
  kept st -> tl st !! t = Some l ->
  snd <$> (st ← detach_timer t true st; b ← bases st !! base l; Some (1, set_base (base l) (leave_next l b) st)) = Some st' -> kept st'.
Proof.
  intros H Hl. destruct (bases st !! base l) as [b|] eqn:Hb.
  - destruct (kept_detach st t l b H Hl Hb) as (st1 & -> & H1 & _ & Hb1). cbn [mbind option_bind]. rewrite Hb1. cbn [mbind option_bind].
    intros [= <-]. by apply kept_leave.
  - unfold detach_timer. rewrite Hl. cbn [mbind option_bind]. by rewrite Hb.
Qed.

(** The timer leaves its wheel if it is pending. *)
Lemma kept_take st t l b :
  kept st -> tl st !! t = Some l -> bases st !! base l = Some b ->
  let b' := if pending l then leave_next l (unlink t b) else b in
  kept (set_base (base l) b' st) /\ off t (set_base (base l) b' st).
Proof.
  intros H Hl Hb. destruct (pending l) eqn:Hp; cbn.
  - destruct (kept_unlink st t l b H Hl Hb) as [H1 H2]. rewrite <- (set_base_twice _ (unlink t b)).
    assert (bases (set_base (base l) (unlink t b) st) !! base l = Some (unlink t b)) as Hb1 by apply lookup_insert_eq.
    split; [by apply kept_leave|]. apply (off_base _ _ _ (unlink t b)); [done|done|]. intros k t'. by rewrite leave_slot.
  - rewrite set_base_id by done. split; [done|]. apply kept_off; [done|]. by rewrite Hl.
Qed.

Lemma kept_mod e t x po pi st r st' :
  kept st -> in_window lo hi x -> mod_timer_common e t x po pi st = Some (r, st') -> kept st'.
Proof.
  intros H Hx. unfold mod_timer_common. destruct (tl st !! t) as [l|] eqn:Hl; [|done]. cbn [mbind option_bind].
  case_bool_decide; [done|]. case_if; [by intros [= _ <-]|]. destruct (bases st !! base l) as [b|] eqn:Hb; [|done]. cbn [mbind option_bind].
  destruct (kept_take st t l b H Hl Hb) as [H1 H2]. cbn zeta in H1, H2. set (b' := if pending l then _ else _) in *.
  set (st1 := set_base (base l) b' st) in *. set (l1 := if negb _ && _ then _ else _).
  destruct (bases st1 !! base l1) as [b1|] eqn:Hb1; [|done]. cbn [mbind option_bind]. intros [= _ <-].
  by apply (kept_start st1 t (set_pending true (set_expires x l1))).
Qed.

Lemma kept_slack st t l s : kept st -> tl st !! t = Some l -> kept (set_timer t (set_slack s l) st).
Proof.
  intros [H1 H2] Hl. assert (forall t' l', <[t := set_slack s l]> (tl st) !! t' = Some l' ->
    exists l0, tl st !! t' = Some l0 /\ pending l' = pending l0 /\ expires l' = expires l0 /\ base l' = base l0 /\ deferrable l' = deferrable l0) as Hm.
  { intros t' l'. destruct (decide (t' = t)) as [->|Hne]; [rewrite lookup_insert_eq; intros [= <-]; by exists l|].
    rewrite lookup_insert_ne by done. intros ?. by exists l'. }
  constructor.
  - cbn. intros t' l' Hl' Hp. destruct (Hm t' l' Hl') as (l0 & A1 & A2 & -> & _). apply (H1 t' l0); congruence.
  - intros c b Hb. destruct (H2 c b Hb) as [S1 (n & v & ? & ? & ? & ? & Hv)]. constructor.
    + intros k t' Ht'. destruct (S1 k t' Ht') as (l0 & E & Hl0). cbn. destruct (decide (t' = t)) as [->|Hne].
      * rewrite lookup_insert_eq. exists (set_slack s l). rewrite Hl in E. injection E as <-. done.
      * rewrite lookup_insert_ne by done. by exists l0.
    + exists n, v. split_and!; try (done || lia). destruct Hv as [?|Hv]; [by left|]. right. cbn. intros t' l' x Hl' A1 A2 A3 A4 A5.
      destruct (Hm t' l' Hl') as (l0 & B1 & B2 & B3 & B4 & B5). apply (Hv t' l0 x); congruence.
Qed.

Lemma kept_op o st st' : kept st -> op_in lo hi st o -> run_op o st = Some st' -> kept st'.
Proof.
  intros H. destruct o; cbn [op_in run_op]; intros Hin E.
  - unfold init_timer in E. destruct (bases st !! cpu); [|done]. cbn [mbind option_bind] in E. case_if_in E; [done|]. injection E as <-.
    apply kept_idle; [done|by apply kept_off|done].
  - unfold set_timer_slack in E. destruct (tl st !! t) eqn:Hl; [|done]. injection E as <-. by apply kept_slack.
  - destruct (mod_timer e t expires st) as [[r st1]|] eqn:Em; [|done]. injection E as <-. unfold mod_timer in Em.
    destruct (tl st !! t) as [l|] eqn:Hl; [|done]. cbn [mbind option_bind] in Em. case_if_in Em; [by injection Em as _ <-|].
    by apply (kept_mod _ _ _ _ _ _ _ _ H (Hin l eq_refl) Em).
  - destruct (mod_timer_pending e t expires st) as [[r st1]|] eqn:Em; [|done]. injection E as <-. by apply (kept_mod _ _ _ _ _ _ _ _ H Hin Em).
  - destruct (mod_timer_pinned e t expires st) as [[r st1]|] eqn:Em; [|done]. injection E as <-. unfold mod_timer_pinned in Em.
    destruct (tl st !! t) as [l|] eqn:Hl; [|done]. cbn [mbind option_bind] in Em. case_if_in Em; [by injection Em as _ <-|].
    by apply (kept_mod _ _ _ _ _ _ _ _ H Hin Em).
  - unfold add_timer in E. destruct (tl st !! t) as [l|] eqn:Hl; [|done]. cbn [mbind option_bind] in E. destruct (pending l) eqn:Hp; [done|].
    unfold mod_timer in E. rewrite Hl in E. cbn [mbind option_bind] in E. rewrite Hp in E. cbn [andb] in E.
    destruct (mod_timer_common e t _ false false st) as [[r st1]|] eqn:Em; [|done]. injection E as <-. by apply (kept_mod _ _ _ _ _ _ _ _ H (Hin l eq_refl) Em).
  - unfold add_timer_on in E. destruct (tl st !! t) as [l|] eqn:Hl; [|done]. cbn [mbind option_bind] in E. destruct (pending l) eqn:Hp; [done|].
    cbn [orb] in E. case_bool_decide; [done|]. destruct (bases st !! cpu) as [b|] eqn:Hb; [|done]. injection E as <-.
    assert (off t st) as Ho by (apply kept_off; [done|by rewrite Hl]).
    by apply (kept_start st t (set_pending true (timer_set_base cpu l)) cpu b H Ho Hb eq_refl eq_refl (Hin l eq_refl)).
  - unfold del_timer in E. destruct (tl st !! t) as [l|] eqn:Hl; [|done]. cbn [mbind option_bind] in E.
    destruct (pending l); [by apply (kept_stop st t l)|by injection E as <-].
  - unfold try_to_del_timer_sync in E. destruct (tl st !! t) as [l|] eqn:Hl; [|done]. cbn [mbind option_bind] in E.
    destruct (bases st !! base l) as [b|]; [|done]. cbn [mbind option_bind] in E.
    case_bool_decide; [by injection E as <-|]. destruct (pending l); [by apply (kept_stop st t l)|by injection E as <-].
Qed.

Lemma kept_ops l : forall st st', kept st -> ops_in lo hi l st -> run_ops l st = Some st' -> kept st'.
Proof.
  induction l as [|o l IH]; intros st st' H Hin E; [by injection E as <-|]. destruct Hin as [Ho Hl]. cbn [run_ops] in E.
  destruct (run_op o st) as [st1|] eqn:E1; [|done]. apply (IH st1); [by apply (kept_op o st)|by apply Hl|done].
Qed.

(** ** Running and moving timers *)

Lemma base_kept_add m c b t l :
  base_kept m c b -> m !! t = Some l -> pending l = true -> base l = c -> in_window lo hi (expires l) ->
  base_kept m c (internal_add_timer b t (expires l)).
Proof.
  intros [H1 H2] Hl Hp Hc (x & Hx & Ex). constructor; [|exact H2]. intros k t'. unfold internal_add_timer. rewrite slot_set_vec_insert. fold (slot b k).
  case_decide as Hk; [subst k|apply H1]. rewrite elem_of_app, list_elem_of_singleton. intros [Hin| ->]; [by apply H1|].
  exists l. split_and!; try done. destruct H2 as (n & v & Hn & _ & E1 & _). destruct (vec_of b (expires l)) as [k s] eqn:Ev. cbn. intros ->.
  by apply (vec_of_far b _ n x s E1 Ex).
Qed.

(** The timers of [l] are sorted in again. *)
Lemma kept_add_all c : forall l st st',
  kept st -> (forall t, t ∈ l -> exists x, tl st !! t = Some x /\ pending x = true) -> add_all c l st = Some st' -> kept st'.
Proof.
  induction l as [|t l IH]; intros st st' H Hl E; [by injection E as <-|]. cbn [add_all] in E.
  destruct (Hl t) as (x & Hx & Hp); [left|]. rewrite Hx in E. cbn [mbind option_bind] in E.
  destruct (bases st !! c) as [b|] eqn:Hb; [|done]. cbn [mbind option_bind] in E. case_if_in E; [done|].
  apply IH in E; [done| |intros t' Ht'; apply Hl; by right]. apply (kept_base _ _ b); [done|done|].
  apply base_kept_add; [by apply kp_base|done|done|lia|by apply (kp_time _ H t)].
Qed.

Lemma slot_cleared b k k' t : t ∈ slot (set_vec (<[k := []]> (vec b)) b) k' -> t ∈ slot b k'.
Proof. rewrite slot_set_vec_insert. case_decide; [by intros []%not_elem_of_nil|done]. Qed.

Lemma kept_cascades c : forall fuel tv st st', kept st -> cascades fuel c tv st = Some st' -> kept st'.
Proof.
  induction fuel as [|fuel IH]; intros tv st st' H E; [by injection E as <-|]. cbn [cascades] in E.
  destruct (bases st !! c) as [b|] eqn:Hb; [|done]. cbn [mbind option_bind] in E. unfold cascade in E. rewrite Hb in E. cbn [mbind option_bind] in E.
  destruct (add_all c _ _) as [st1|] eqn:Ea; [|done]. cbn [mbind option_bind] in E.
  apply kept_add_all in Ea.
  - case_if_in E; [by apply (IH (tv + 1) st1)|by injection E as <-].
  - apply (kept_base _ _ b); [done|done|]. apply (base_kept_less _ _ b); [by apply kp_base|done|done|]. intros k t. apply slot_cleared.
  - intros t Ht. destruct (bk_slot _ _ _ (kp_base _ H c b Hb) _ t Ht) as (l & ? & ? & _). by exists l.
Qed.

(** Sorting in does not change the clock of the wheel. *)
Lemma add_all_clock c : forall l st st' b b', bases st !! c = Some b -> add_all c l st = Some st' -> bases st' !! c = Some b' ->
  timer_jiffies b' = timer_jiffies b.
Proof.
  induction l as [|t l IH]; intros st st' b b' Hb E Hb'; [injection E as <-; congruence|]. cbn [add_all] in E.
  destruct (tl st !! t) as [x|]; [|done]. cbn [mbind option_bind] in E. rewrite Hb in E. cbn [mbind option_bind] in E. case_if_in E; [done|].
  rewrite (IH _ _ _ b' (lookup_insert_eq _ _ _) E Hb'). done.
Qed.

Lemma cascades_clock c : forall fuel tv st st' b b', bases st !! c = Some b -> cascades fuel c tv st = Some st' ->
  bases st' !! c = Some b' -> timer_jiffies b' = timer_jiffies b.
Proof.
  induction fuel as [|fuel IH]; intros tv st st' b b' Hb E Hb'; [injection E as <-; congruence|]. cbn [cascades] in E.
  rewrite Hb in E. cbn [mbind option_bind] in E. unfold cascade in E. rewrite Hb in E. cbn [mbind option_bind] in E.
  destruct (add_all c _ _) as [st1|] eqn:Ea; [|done]. cbn [mbind option_bind] in E. case_if_in E.
  - destruct (bases st1 !! c) as [b1|] eqn:Hb1; [|destruct fuel; cbn [cascades] in E; [injection E as <-; congruence|by rewrite Hb1 in E]].
    rewrite (IH _ _ _ _ _ Hb1 E Hb'). by apply (add_all_clock _ _ _ _ _ _ (lookup_insert_eq _ _ _) Ea).
  - injection E as <-. by apply (add_all_clock _ _ _ _ _ _ (lookup_insert_eq _ _ _) Ea).
Qed.

Lemma kept_log e st : kept st -> kept (log_call e st).
Proof. intros [H1 H2]. by constructor. Qed.

Section Handler.
Context (handler : Z -> Z -> timers -> list timer_op).
Hypothesis Hin : handler_in lo hi handler.

Lemma kept_work c : forall fuel st st', kept st -> run_work handler fuel c st = Some st' -> kept st'.
Proof.
  induction fuel as [|fuel IH]; intros st st' H E; [done|]. cbn [run_work] in E. destruct (bases st !! c) as [b|] eqn:Hb; [|done].
  cbn [mbind option_bind] in E. destruct (work_list b) as [|t w]; [by injection E as <-|]. destruct (tl st !! t) as [l|] eqn:Hl; [|done].
  cbn [mbind option_bind] in E. destruct (function l) as [fn|]; [|done]. cbn [mbind option_bind] in E.
  set (st0 := set_base c (set_running_timer (Some t) b) st) in E.
  assert (kept st0) as H0 by (apply (kept_base _ _ b); [done|done|]; by apply (base_kept_less _ _ b); [apply kp_base| | |]).
  destruct (detach_timer t true st0) as [st1|] eqn:E1; [|done]. cbn [mbind option_bind] in E.
  assert (kept st1) as H1.
  { unfold detach_timer in E1. destruct (tl st0 !! t) as [l0|] eqn:Hl0; [|done]. cbn [mbind option_bind] in E1.
    destruct (bases st0 !! base l0) as [b0|] eqn:Hb0; [|done]. destruct (kept_unlink st0 t l0 b0 H0 Hl0 Hb0). injection E1 as <-. by apply kept_idle. }
  unfold call_timer_fn in E. destruct (run_ops _ _) as [st2|] eqn:E2; [|done]. cbn [mbind option_bind] in E.
  apply (IH st2); [|done]. exact (kept_ops _ _ _ (kept_log _ _ H1) (Hin _ _) E2).
Qed.

(** Time goes on. *)
Lemma base_kept_tick m c b n w k :
  base_kept m c b -> timer_jiffies b = u64 n -> lo <= n < hi ->
  base_kept m c (set_work w (set_vec (<[k := []]> (vec b)) (set_timer_jiffies (u64 (timer_jiffies b + 1)) b))).
Proof.
  intros [H1 (n' & v & Hn' & Hv & E1 & E2 & Hnext)] Hn Hlt. assert (n' = n) as -> by (apply window_eq; [lia|lia|congruence]). constructor.
  - intros k' t Ht. apply H1. by apply (slot_cleared b k).
  - exists (n + 1), v. cbn. rewrite E1. destruct (u64_cases n) as (k1 & E0 & _). rewrite (u64_eq (u64 n + 1) (n + 1) k1) by lia.
    split_and!; try (done || lia). destruct Hnext as [?|Hnext]; [left; lia|]. right. intros t l x A1 A2 A3 A4 A5 A6.
    specialize (Hnext t l x A1 A2 A3 A4 A5 A6). lia.
Qed.

Lemma kept_tick c st st' b n :
  kept st -> bases st !! c = Some b -> timer_jiffies b = u64 n -> lo <= n < hi -> run_tick handler c st = Some st' -> kept st'.
Proof.
  intros H Hb Hn Hlt E. unfold run_tick in E. rewrite Hb in E. cbn [mbind option_bind] in E.
  destruct (if _ =? 0 then _ else _) as [st1|] eqn:E1; [|done]. cbn [mbind option_bind] in E.
  destruct (bases st1 !! c) as [b1|] eqn:Hb1; [|done]. cbn [mbind option_bind] in E.
  assert (kept st1 /\ timer_jiffies b1 = u64 n) as [H1 Hn1].
  { case_if_in E1; [|injection E1 as <-; split; congruence]. split; [by apply (kept_cascades c 4 2 st)|].
    rewrite <- Hn. by apply (cascades_clock c 4 2 st st1). }
  apply kept_work in E; [done|]. apply (kept_base _ _ b1); [done|done|]. apply (base_kept_tick _ _ b1 n); [by apply kp_base|done|done].
Qed.

Lemma kept_loop c clock : (forall k, in_window lo (hi - 1) (clock k)) -> forall fuel k st st',
  kept st -> run_timers_loop handler fuel clock k c st = Some st' -> kept st'.
Proof.
  intros Hclock. induction fuel as [|fuel IH]; intros k st st' H E; [done|]. cbn [run_timers_loop] in E.
  destruct (bases st !! c) as [b|] eqn:Hb; [|done]. cbn [mbind option_bind] in E. destruct (time_after_eq (clock k) (timer_jiffies b)) eqn:Et.
  - destruct (run_tick handler c st) as [st1|] eqn:E1; [|done]. apply (IH (S k) st1); [|done].
    destruct (bk_next _ _ _ (kp_base _ H c b Hb)) as (n & _ & Hn & _ & En & _). apply (kept_tick c st st1 b n H Hb En); [|done].
    destruct (Hclock k) as (z & Hz & Ez). change (time_before_eq (timer_jiffies b) (clock k) = true) in Et.
    rewrite En, Ez, time_before_eq_ticks in Et by lia. lia.
  - injection E as <-. apply (kept_base _ _ b); [done|done|]. by apply (base_kept_less _ _ b); [apply kp_base| | |].
Qed.
End Handler.

Lemma kept_migrate_list new : forall l st st', kept st -> migrate_list new l st = Some st' ->
  (forall t x, t ∈ l -> tl st !! t = Some x -> pending x = true) -> kept st'.
Proof.
  induction l as [|t l IH]; intros st st' H E Hl; [by injection E as <-|]. cbn [migrate_list] in E. unfold detach_timer in E.
  destruct (tl st !! t) as [x|] eqn:Hx; [|done]. cbn [mbind option_bind] in E. destruct (bases st !! base x) as [b|] eqn:Hb; [|done].
  cbn [mbind option_bind] in E. destruct (kept_unlink st t x b H Hx Hb) as [H1 H2]. cbn [tl set_base] in E. rewrite Hx in E. cbn [mbind option_bind] in E.
  set (st1 := set_base (base x) (unlink t b) st) in *. destruct (bases st1 !! new) as [b1|] eqn:Hb1; [|done]. cbn [mbind option_bind] in E.
  assert (pending x = true) as Hp by (apply (Hl t x); [left|done]). apply IH in E; [done| |].
  - apply (kept_start st1 t (timer_set_base new x) new b1); try done. by apply (kp_time _ H t x).
  - intros t' x' Ht'. cbn. destruct (decide (t' = t)) as [->|Hne]; [rewrite lookup_insert_eq; by intros [= <-]|].
    rewrite lookup_insert_ne by done. apply Hl. by right.
Qed.

Lemma kept_migrate_lists old new : forall ks st st', kept st -> migrate_lists old new ks st = Some st' -> kept st'.
Proof.
  induction ks as [|k ks IH]; intros st st' H E; [by injection E as <-|]. cbn [migrate_lists] in E.
  destruct (bases st !! old) as [b|] eqn:Hb; [|done]. cbn [mbind option_bind] in E.
  destruct (migrate_list new (slot b k) st) as [st1|] eqn:E1; [|done]. apply (IH st1); [|done]. apply (kept_migrate_list _ _ _ _ H E1).
  intros t x Ht Hx. destruct (bk_slot _ _ _ (kp_base _ H old b Hb) k t Ht) as (l & ? & ? & _). congruence.
Qed.

(** A wheel that starts: there is nothing to be late for. *)
Lemma kept_init cpu now mem st : kept st -> in_window lo hi now -> kept (init_timers_cpu cpu now mem st).2.
Proof.
  intros [H1 H2] (x & Hx & ->).
  destruct (init_timers_eq cpu (u64 x) mem st) as [->|(b1 & -> & Hv & Hj & Hn & _)]; [by constructor|]. constructor; [done|]. intros c b. cbn. destruct (decide (c = cpu)) as [->|Hne].
  - rewrite lookup_insert_eq. intros [= <-]. constructor.
    + intros k t. unfold slot. rewrite Hv, lookup_empty. by intros []%not_elem_of_nil.
    + exists x, x. split_and!; try (done || lia).
  - rewrite lookup_insert_ne by done. apply H2.
Qed.

(** ** The search *)

(** The timer [t] of CPU [c] may wake it up, at tick [x] of the window. *)
Definition wakes (st : timers) (c : Z) (t : ptr) (x : Z) : Prop :=
  exists l, tl st !! t = Some l /\ pending l = true /\ base l = c /\ deferrable l = false /\ lo <= x <= hi /\ expires l = u64 x.

Lemma wakes_event st c b t x :
  good st -> bases st !! c = Some b -> wakes st c t x -> exists p, event (tl st) (slot b p) (u64 x).
Proof.
  intros ((N & due & W) & Hi & _) Hb (l & Hl & Hp & <- & Hd & _ & Ex). destruct (tw_base _ _ _ W _ _ Hb) as (n & Hn & _).
  destruct (pending_listed st N due t l b n W Hi Hl Hp Hb Hn) as (k & D & Hk & _). by exists k, t, l.
Qed.

Lemma event_wakes st c b p e : kept st -> bases st !! c = Some b -> event (tl st) (slot b p) e -> exists t x, wakes st c t x /\ e = u64 x.
Proof.
  intros H Hb (t & l & Ht & Hl & Hd & <-). destruct (bk_slot _ _ _ (kp_base _ H c b Hb) p t Ht) as (l' & Hl' & Hp & Hc & _).
  rewrite Hl in Hl'. injection Hl' as <-. destruct (kp_time _ H t l Hl Hp) as (x & Hx & Ex). exists t, x. split; [by exists l|done].
Qed.

(** A tick [n'] that differs from a tick [n] of the window by turns of the clock. *)
Lemma tick_at_turn n n' x : u64 n = u64 n' -> lo <= n <= hi -> lo <= x <= hi -> s64 (u64 x - n') = x - n.
Proof.
  intros E Hn Hx. destruct (u64_cases n) as (k1 & E1 & _), (u64_cases n') as (k2 & E2 & _), (u64_cases x) as (k3 & E3 & _).
  rewrite (s64_eq (u64 x - n') (x - n) (k3 + k2 - k1)) by lia. apply s64_small. lia.
Qed.

Lemma far_digit x s : s = Z.land (Z.shiftr (u64 x) 26) 63 -> s = (x / unit 5) mod 64.
Proof. intros ->. change 63 with (Z.ones 6). rewrite digit_u64 by lia. done. Qed.

Lemma search_spec st c b n :
  good st -> kept st -> bases st !! c = Some b -> timer_jiffies b = u64 n -> lo <= n <= hi ->
  exists E, next_timer_interrupt (tl st) b = Some (u64 E) /\ lo <= E <= hi + 2 ^ 30 /\
    (forall t x, wakes st c t x -> E <= Z.max n x) /\ (E = n + NEXT_TIMER_MAX_DELTA \/ exists t, wakes st c t E).
Proof.
  intros Hg H Hb En Hn. pose proof Hg as ((N & due & W) & Hi & _). destruct (tw_base _ _ _ W _ _ Hb) as (n' & _ & Hw).
  pose proof (w_now _ _ _ _ _ _ _ Hw) as En'. rewrite En in En'.
  assert (forall x, lo <= x <= hi -> tick_at n' (u64 x) = n' + (x - n)) as Hturn by (intros x Hx; unfold tick_at; by rewrite (tick_at_turn n n' x)).
  destruct (next_timer_spec (tl st) c n' due b Hw) as (E & E1 & HE & Hl & Hf).
  - intros p e He. destruct (event_wakes st c b p e H Hb He) as (t & x & (l & _ & _ & _ & _ & Hx & _) & ->). split; [by destruct (u64_cases x) as (? & _ & ?)|].
    rewrite (tick_at_turn n n' x) by done. lia.
  - intros s e (t & l & Ht & Hx & _ & <-). destruct (bk_slot _ _ _ (kp_base _ H c b Hb) _ t Ht) as (l' & Hl' & Hp & _ & Hs).
    rewrite Hx in Hl'. injection Hl' as <-. destruct (kp_time _ H t l Hx Hp) as (x & Hx' & Ex). rewrite Ex in *. rewrite (Hturn x Hx').
    assert (u64 x = u64 (n' + (x - n))) as Eu.
    { destruct (u64_cases n) as (k1 & A1 & _), (u64_cases n') as (k2 & A2 & _). apply (u64_eq _ _ (k2 - k1)). lia. }
    split; [apply far_digit; rewrite <- Eu; by apply Hs|]. change (64 * unit 5) with (2 ^ 32). lia.
  - exists (E - n' + n). split.
    { rewrite E1. f_equal. destruct (u64_cases n) as (k1 & A1 & _), (u64_cases n') as (k2 & A2 & _). apply (u64_eq _ _ (k1 - k2)). lia. }
    assert (forall t x, wakes st c t x -> E <= n' + Z.max 0 (x - n)) as Hl'.
    { intros t x Hwk. destruct (wakes_event st c b t x Hg Hb Hwk) as (p & He). specialize (Hl p _ He). destruct Hwk as (l & _ & _ & _ & _ & Hx & _).
      rewrite Hturn in Hl by done. lia. }
    assert (E = n' + NEXT_TIMER_MAX_DELTA \/ exists t x, wakes st c t x /\ E = n' + (x - n)) as Hf'.
    { destruct Hf as [->|(p & e & He & ->)]; [by left|]. right. destruct (event_wakes st c b p e H Hb He) as (t & x & Hwk & ->).
      exists t, x. split; [done|]. destruct Hwk as (l & _ & _ & _ & _ & Hx & _). by apply Hturn. }
    clear Hl Hf. split; [|split].
    + destruct Hf' as [->|(t & x & (l & _ & _ & _ & _ & Hx & _) & ->)]; [change NEXT_TIMER_MAX_DELTA with (2 ^ 30 - 1)|]; lia.
    + intros t x Hwk. specialize (Hl' t x Hwk). lia.
    + destruct Hf' as [->|(t & x & Hwk & ->)]; [left; lia|]. right. exists t. by replace (n' + (x - n) - n' + n) with x by lia.
Qed.

(** ** Going idle *)

(** The next event of the wheel as [get_next_timer_interrupt] finds it. *)
Definition wheel_next (st : timers) (b : tvec_base) : option Z :=
  if time_before_eq (next_timer b) (timer_jiffies b) then next_timer_interrupt (tl st) b else Some (next_timer b).

Lemma wheel_next_spec st c b n :
  good st -> kept st -> bases st !! c = Some b -> timer_jiffies b = u64 n -> lo <= n <= hi ->
  exists v, wheel_next st b = Some (u64 v) /\ lo <= v <= hi + 2 ^ 30 /\ forall t x, wakes st c t x -> v <= Z.max n x.
Proof.
  intros Hg H Hb En Hn. unfold wheel_next. destruct (bk_next _ _ _ (kp_base _ H c b Hb)) as (n' & v & Hn' & Hv & En' & Ev & Hnext).
  assert (n' = n) as -> by (apply window_eq; [lia|lia|congruence]). rewrite En, Ev, time_before_eq_ticks by lia. destruct (Z.leb_spec v n).
  - destruct (search_spec st c b n Hg H Hb En Hn) as (E & E1 & HE & Hl & _). by exists E.
  - exists v. split; [done|]. split; [done|]. destruct Hnext as [?|Hnext]; [lia|]. intros t x (l & A1 & A2 & A3 & A4 & A5 & A6). by apply (Hnext t l x).
Qed.

Lemma kept_next st c b n v :
  kept st -> bases st !! c = Some b -> timer_jiffies b = u64 n -> lo <= n <= hi -> lo <= v <= hi + 2 ^ 30 ->
  (forall t x, wakes st c t x -> v <= Z.max n x) -> kept (set_base c (set_next_timer (u64 v) b) st).
Proof.
  intros H Hb En Hn Hv Hw. apply (kept_base _ _ b); [done|done|]. constructor; [apply (bk_slot _ _ _ (kp_base _ H c b Hb))|].
  exists n, v. cbn. split_and!; try (done || lia). right. intros t l x A1 A2 A3 A4 A5 A6. apply (Hw t x). by exists l.
Qed.

Lemma nohz_good mc st : nohz_reach lo hi mc st -> good st /\ kept st.
Proof.
  induction 1 as [|st cpu now mem _ [IHg IHk] Hnow Hw Hnone|o st st' _ [IHg IHk] Hok Ho E|handler fuel clock c st st' _ [IHg IHk] Hh Hi Hc E
    |old new st st' _ [IHg IHk] Hne Hnew E|c now hr st r st' hr' _ [IHg IHk] E].
  - split; [apply good_boot|]. constructor; intros *; cbn; by rewrite lookup_empty.
  - split; [by apply good_cpu|by apply kept_init].
  - split; [by apply (good_op o st)|by apply (kept_op o st)].
  - split; [by apply (good_run handler fuel clock c st)|]. unfold run_timer_softirq in E. destruct (bases st !! c) as [b|]; [|done].
    cbn [mbind option_bind] in E. case_if_in E; [by apply (kept_loop handler Hi c clock Hc fuel 1 st)|congruence].
  - split; [by apply (good_migrate old new st)|]. unfold migrate_timers in E. destruct (bases st !! old) as [b|]; [|done].
    cbn [mbind option_bind] in E. case_bool_decide; [|done]. by apply (kept_migrate_lists old new all_lists st).
  - unfold get_next_timer_interrupt in E. destruct (bases st !! c) as [b|] eqn:Hb; [|done]. cbn [mbind option_bind] in E.
    fold (wheel_next st b) in E. destruct (bk_next _ _ _ (kp_base _ IHk c b Hb)) as (n & _ & Hn & _ & En & _).
    destruct (wheel_next_spec st c b n IHg IHk Hb En Hn) as (v & Ev & Hv & Hw). rewrite Ev in E. cbn [mbind option_bind] in E.
    assert (st' = set_base c (set_next_timer (u64 v) b) st) as ->.
    { case_if_in E; [by injection E|]. by destruct (cmp_next_hrtimer_event mc c now (u64 v) hr) as [[r0 hr0]|]; [injection E|]. }
    split; [by apply (good_base st c b)|by apply (kept_next st c b n)].
Qed.
End Window.
