(* ===== verification/TimerIdleSpec.v ===== *)
(** * TimerIdleSpec: how long an idle CPU sleeps

    What NO_HZ relies on: the search of the wheel is exact, an idle CPU sleeps
    past no timer of its wheel and hardly past a high resolution timer, times are
    converted upwards, and times rounded to whole seconds stay in the future. *)

From S2P Require Import Prelude Hrtimer HrtimerInv HrtimerSpec Timer TimerInv TimerNext TimerNextInv TimerIdle.

(** ** In the window *)

Section Window.
Context (lo hi : Z).
Hypothesis Hwin : hi - lo <= 2 ^ 32 - 1.

Lemma fire_tick_window st b t l n :
  kept lo hi st -> timer_jiffies b = u64 n -> lo <= n <= hi -> tl st !! t = Some l -> pending l = true -> deferrable l = false ->
  exists x, wakes lo hi st (base l) t x /\ fire_tick l b = u64 (Z.max n x).
Proof.
  intros H En Hn Hl Hp Hd. destruct (kp_time _ _ _ H t l Hl Hp) as (x & Hx & Ex). exists x. split; [by exists l|].
  unfold fire_tick. rewrite En, Ex, time_before_ticks by lia. destruct (Z.ltb_spec x n); f_equal; lia.
Qed.

(** The end of the sleep, when the next event of the wheel is at [v]. *)
Lemma cmp_next_spec mc Q c cb z v hr :
  clocks_sane mc -> HrtimerInv.good hr Q -> cpus hr !! c = Some cb -> lo <= z <= hi -> lo <= v <= hi + 2 ^ 30 -> z < v ->
  exists r n, cmp_next_hrtimer_event mc c (u64 z) (u64 v) hr = Some (u64 r, set_reads n hr) /\ z < r <= v /\
    (hres_active cb = false -> forall i t x, tm hr !! t = Some x -> hrtimer_is_queued x = true -> Hrtimer.base x = Some (c, i) ->
       exists j, (reads hr <= j < n)%nat /\ (r - z - 2) * TICK_NSEC < Z.max 0 (ktime_sub (Hrtimer.expires x) (clock_at mc i j))).
Proof.
  intros Hs Hg Hcb Hz Hv Hlt. destruct (get_next_event_spec mc hr Q c cb Hs Hg Hcb) as (d & n & E & Hd & _ & Hcov).
  unfold cmp_next_hrtimer_event. rewrite E. cbn [mbind option_bind].
  assert (forall r, (r - z - 2) * TICK_NSEC < d -> hres_active cb = false -> forall i t x, tm hr !! t = Some x -> hrtimer_is_queued x = true ->
    Hrtimer.base x = Some (c, i) -> exists j, (reads hr <= j < n)%nat /\ (r - z - 2) * TICK_NSEC < Z.max 0 (ktime_sub (Hrtimer.expires x) (clock_at mc i j))) as Hfin.
  { intros r Hr Hres i t x Hx Hq Hb. destruct (Hcov Hres i t x Hx Hq Hb) as (j & Hj & Hle). exists j. split; [done|]. lia. }
  destruct (u64_cases z) as (k & Ez & _). pose proof (proj1 conversion_values) as HT. unfold KTIME_MAX in *.
  case_if; [exists v, n; split; [done|]; split; [lia|]; apply Hfin; rewrite HT; lia|].
  case_if; [exists (z + 1), n; split; [by rewrite (u64_eq (u64 z + 1) (z + 1) k) by lia|]; split; [lia|]; apply Hfin; rewrite HT; lia|].
  destruct (timespec_to_jiffies_up d _ Hd eq_refl) as (_ & Hup & H0). set (r := timespec_to_jiffies (ns_to_timespec d)) in *. clearbody r.
  change NEXT_TIMER_MAX_DELTA with (2 ^ 30 - 1). match goal with |- context [if ?a <? 1 then 1 else ?a] => set (r' := if a <? 1 then 1 else a) end.
  assert (1 <= r' <= 2 ^ 30 - 1 /\ (r' - 2) * TICK_NSEC < d) as [Hr' Hlate].
  { rewrite HT in *. unfold r'. destruct (Z.gtb_spec r (2 ^ 30 - 1)); [change (2 ^ 30 - 1 <? 1) with false; cbn iota|case_if]; lia. }
  clearbody r'. rewrite (u64_eq (u64 z + r') (z + r') k) by lia. rewrite time_before_ticks by lia. destruct (Z.ltb_spec (z + r') v).
  - exists (z + r'), n. split; [done|]. split; [lia|]. apply Hfin. rewrite HT in *. lia.
  - exists v, n. split; [done|]. split; [lia|]. apply Hfin. rewrite HT in *. lia.
Qed.
End Window.

(** ** A timer that hides another one *)

(** The search looks at the lists only. *)
Section SameLists.
Context (m : gmap ptr timer_list) (b b' : tvec_base).
Hypothesis Hs : forall k, slot b k = slot b' k.

Lemma find_tv1_same index : forall fuel s, find_tv1 fuel m b index s = find_tv1 fuel m b' index s.
Proof.
  induction fuel as [|fuel IH]; intros s; cbn [find_tv1]; [done|]. rewrite Hs.
  destruct (first_event m (slot b' (1, s))) as [[e|]|]; cbn [mbind option_bind]; [done| |done]. by rewrite IH.
Qed.

Lemma find_tvn_same k index : forall fuel s found next, find_tvn fuel m b k index s found next = find_tvn fuel m b' k index s found next.
Proof.
  induction fuel as [|fuel IH]; intros s found next; cbn [find_tvn]; [done|]. rewrite Hs.
  destruct (min_event m (slot b' (k, s)) found next) as [[f e]|]; cbn [mbind option_bind]; [|done]. by rewrite IH.
Qed.

Lemma find_vectors_same : forall more k tj found next, find_vectors more m b k tj found next = find_vectors more m b' k tj found next.
Proof.
  induction more as [|more IH]; intros k tj found next; cbn [find_vectors]; [done|]. rewrite find_tvn_same.
  destruct (find_tvn 64 m b' k _ _ found next) as [[[ret f] e]|]; cbn [mbind option_bind]; [|done]. by rewrite IH.
Qed.

Lemma next_timer_same : timer_jiffies b = timer_jiffies b' -> next_timer_interrupt m b = next_timer_interrupt m b'.
Proof.
  intros E. unfold next_timer_interrupt. cbn zeta. rewrite E, find_tv1_same.
  destruct (find_tv1 256 m b' _ _) as [[[e s]|]|]; cbn [mbind option_bind]; by rewrite ?find_vectors_same.
Qed.
End SameLists.

(** Timer 1 alone on CPU 0, on list 63 of tv5. *)
Record lone (m : gmap ptr timer_list) (n : Z) (st : timers) : Prop := {
  ln_tl : tl st = m;
  ln_base : exists b, bases st !! 0 = Some b /\ timer_jiffies b = n /\ next_timer b = 0 /\ work_list b = [] /\
    forall k, slot b k = if decide (k = (5, 63)) then [1%nat] else []
}.

Definition nothing (fn d : Z) (st : timers) : list timer_op := [].

Lemma lone_cleared m n st b k : lone m n st -> bases st !! 0 = Some b -> k <> (5, 63) ->
  lone m n (set_base 0 (set_vec (<[k := []]> (vec b)) b) st).
Proof.
  intros [E (b0 & Hb & Hn & Hx & Hw & Hs)] Hb' Hk. rewrite Hb in Hb'. injection Hb' as ->. constructor; [done|].
  eexists. split; [apply lookup_insert_eq|]. do 3 (split; [done|]). intros k'. rewrite slot_set_vec_insert. fold (slot b k').
  case_decide as Hd; [|apply Hs]. subst k'. by rewrite decide_False.
Qed.

Lemma lone_cascades m n : 0 <= n < 63 * 2 ^ 26 -> forall fuel k st, 2 <= k -> (fuel <= 4)%nat -> k + Z.of_nat fuel = 6 -> lone m n st ->
  exists st', cascades fuel 0 k st = Some st' /\ lone m n st'.
Proof.
  intros Hn. induction fuel as [|fuel IH]; intros k st Hk Hf Hkf H; cbn [cascades]; [by exists st|].
  destruct (ln_base _ _ _ H) as (b & Hb & Etj & _ & _ & Hs). rewrite Hb. cbn [mbind option_bind].
  set (i := INDEX b (k - 2)). assert ((k, i) <> (5, 63)) as Hki.
  { intros [= Hk5 Hi]. subst k. unfold i, INDEX in Hi. rewrite Etj in Hi. change (TVR_BITS + (5 - 2) * TVN_BITS) with 26 in Hi.
    change TVN_MASK with (Z.ones 6) in Hi. rewrite Z.land_ones, Z.shiftr_div_pow2 in Hi by lia.
    assert (n / 2 ^ 26 < 63) by (apply Z.div_lt_upper_bound; lia). pose proof (Z.div_pos n (2 ^ 26)). rewrite Z.mod_small in Hi by lia. lia. }
  unfold cascade. rewrite Hb. cbn [mbind option_bind]. rewrite Hs, decide_False by done. cbn [add_all mbind option_bind].
  pose proof (lone_cleared m n st b (k, i) H Hb Hki) as H1. case_if; [apply IH; [lia|lia|lia|done]|by eexists].
Qed.

Lemma lone_tick m n st : 0 <= n < 63 * 2 ^ 26 -> lone m n st -> exists st', run_tick nothing 0 st = Some st' /\ lone m (n + 1) st'.
Proof.
  intros Hn H. unfold run_tick. destruct (ln_base _ _ _ H) as (b & Hb & Etj & _). rewrite Hb. cbn [mbind option_bind].
  set (i := Z.land (timer_jiffies b) TVR_MASK).
  assert (exists st1, (if i =? 0 then cascades 4 0 2 st else Some st) = Some st1 /\ lone m n st1) as (st1 & -> & H1).
  { case_if; [apply (lone_cascades m n); [done|lia|lia|lia|done]|by exists st]. }
  cbn [mbind option_bind]. destruct (ln_base _ _ _ H1) as (b1 & Hb1 & Etj1 & En1 & _ & Hs1). rewrite Hb1. cbn [mbind option_bind].
  replace (slot (set_timer_jiffies _ b1) (1, i)) with (@nil ptr) by (symmetry; exact (Hs1 (1, i))). cbn [length run_work].
  cbn [bases set_base]. rewrite lookup_insert_eq. cbn [mbind option_bind work_list set_work]. eexists. split; [done|].
  constructor; [apply (ln_tl _ _ _ H1)|]. eexists. split; [apply lookup_insert_eq|]. split; [cbn; rewrite Etj1; apply wrapu_small; lia|].
  split; [exact En1|]. split; [done|]. intros k. change (slot (set_vec (<[(1, i) := []]> (vec b1)) b1) k = if decide (k = (5, 63)) then [1%nat] else []).
  rewrite slot_set_vec_insert. fold (slot b1 k). case_decide as Hd; [|apply Hs1]. by subst k.
Qed.

Lemma lone_run m last : 0 <= last < 63 * 2 ^ 26 -> forall fuel k n st, 0 <= n <= last + 1 -> last + 1 - n < Z.of_nat fuel -> lone m n st ->
  exists st', run_timers_loop nothing fuel (fun _ => last) k 0 st = Some st' /\ lone m (last + 1) st'.
Proof.
  intros Hlast. induction fuel as [|fuel IH]; intros k n st Hn Hf H; [lia|]. cbn [run_timers_loop].
  destruct (ln_base _ _ _ H) as (b & Hb & Etj & En & Hw & Hs). rewrite Hb. cbn [mbind option_bind]. unfold time_after_eq. rewrite Etj, s64_small by lia.
  destruct (Z.geb_spec (last - n) 0).
  - destruct (lone_tick m n st ltac:(lia) H) as (st1 & -> & H1). cbn [mbind option_bind]. apply (IH (S k) (n + 1) st1); [lia|lia|done].
  - eexists. split; [done|]. assert (n = last + 1) as <- by lia. constructor; [apply (ln_tl _ _ _ H)|].
    eexists. split; [apply lookup_insert_eq|]. done.
Qed.

Module timer_hiding.
(** CPU 0 boots at tick 0; timer 1 is set to go off at tick 2^40, which the wheel
    cannot hold; timer 2 is set up and not started yet. *)
Definition env : cpu_env := CpuEnv 0 false false (-1) 0 (fun _ => 0).
Definition st0 : timers := (init_timers_cpu 0 0 true {| tl := ∅; bases := ∅; calls := [] |}).2.
Definition st1 : timers := default st0 (run_op (OpInit 0 1 false (Some 7) 0 0) st0).
Definition st2 : timers := default st0 (run_op (OpModPinned env 1 (2 ^ 40)) st1).
Definition st3 : timers := default st0 (run_op (OpInit 0 2 false (Some 7) 0 0) st2).
(** The timers then, the tick at which timer 2 is started, and its expiry. *)
Definition m : gmap ptr timer_list := tl st3.
Definition late : Z := 56 * 2 ^ 26.
Definition e2 : Z := 2 ^ 32 + 5.
Definition l2 : timer_list := TimerList false 0 0 false (Some 7) 0 (-1).

Lemma hiding_reach3 : timers_reach st3.
Proof.
  apply (tr_op (OpInit 0 2 false (Some 7) 0 0) st2); [|cbn; lia|vm_compute; reflexivity].
  apply (tr_op (OpModPinned env 1 (2 ^ 40)) st1); [|split; [lia|by eexists]|vm_compute; reflexivity].
  apply (tr_op (OpInit 0 1 false (Some 7) 0 0) st0); [|cbn; lia|vm_compute; reflexivity].
  apply (tr_cpu _ 0 0 true); [constructor|lia|]. intros t l. cbn. by rewrite lookup_empty.
Qed.

Lemma lone3 : lone m 0 st3.
Proof.
  constructor; [done|]. exists (TvecBase (<[(5, 63) := [1%nat]]> ∅) 0 0 None []).
  split; [vm_compute; reflexivity|]. do 3 (split; [done|]). intros k. unfold slot. cbn [vec].
  case_decide as Hk; [by subst k; rewrite lookup_insert_eq|by rewrite lookup_insert_ne].
Qed.

(** Timer 2 is started when timer 1 has been waiting for a long time. *)
Lemma start2 st b :
  lone m late st -> bases st !! 0 = Some b ->
  exists b', run_op (OpModPinned env 2 e2) st = Some (set_timer 2 (set_pending true (set_expires e2 l2)) (set_base 0 b' st)) /\
    timer_jiffies b' = late /\ next_timer b' = 0 /\
    forall k, slot b' k = if decide (k = (5, 0)) then [2%nat] else if decide (k = (5, 63)) then [1%nat] else [].
Proof.
  intros [E (b0 & Hb & Etj & En & _ & Hs)] Hb'. rewrite Hb in Hb'. injection Hb' as ->.
  assert (m !! 2%nat = Some l2) as Hl by (vm_compute; reflexivity). cbn [run_op]. unfold mod_timer_pinned, mod_timer_common. rewrite E, Hl.
  cbn [mbind option_bind expires pending l2]. change ((0 =? e2) && false) with false. cbn iota. cbn [mbind option_bind]. rewrite bool_decide_eq_false_2 by done.
  cbn [negb andb]. change (target_cpu env true) with 0. change (base l2) with 0. change (0 =? 0) with true. cbn [negb andb]. rewrite Hb.
  cbn [mbind option_bind]. change (base l2) with 0. rewrite set_base_id, Hb by done. cbn [mbind option_bind fmap option_fmap option_map snd].
  change (base (set_pending true (set_expires e2 l2))) with 0.
  assert (enter_next (set_pending true (set_expires e2 l2)) b = b) as Hen by (unfold enter_next; rewrite En; by vm_compute).
  rewrite Hen. eexists. split; [reflexivity|]. split; [exact Etj|]. split; [exact En|].
  intros k. unfold internal_add_timer. assert (vec_of b e2 = (5, 0)) as Hv by (unfold vec_of; rewrite Etj; by vm_compute).
  rewrite Hv, slot_set_vec_insert, Hs. fold (slot b k). rewrite Hs. destruct (decide ((5, 0) = k)) as [<-|Hk].
  - reflexivity.
  - rewrite (decide_False (P := k = (5, 0))) by congruence. done.
Qed.

(** The search then finds timer 1 and stops. *)
Lemma search2 b :
  timer_jiffies b = late -> (forall k, slot b k = if decide (k = (5, 0)) then [2%nat] else if decide (k = (5, 63)) then [1%nat] else []) ->
  next_timer_interrupt (<[2%nat := set_pending true (set_expires e2 l2)]> m) b = Some (late + NEXT_TIMER_MAX_DELTA).
Proof.
  intros Etj Hs. rewrite (next_timer_same _ b (TvecBase (<[(5, 0) := [2%nat]]> (<[(5, 63) := [1%nat]]> ∅)) late 0 None [])); [by vm_compute| |done].
  intros k. rewrite Hs. unfold slot. cbn [vec]. case_decide as H0; [by subst k; rewrite lookup_insert_eq|].
  rewrite lookup_insert_ne by done. case_decide as H1; [by subst k; rewrite lookup_insert_eq|]. by rewrite lookup_insert_ne.
Qed.

(** The state in which CPU 0 goes idle. *)
Lemma hidden : exists st b, timers_reach st /\ bases st !! 0 = Some b /\ timer_jiffies b = late /\ next_timer b = 0 /\
  tl st !! 2%nat = Some (set_pending true (set_expires e2 l2)) /\ next_timer_interrupt (tl st) b = Some (late + NEXT_TIMER_MAX_DELTA).
Proof.
  assert (exists F : nat, Z.of_nat F = late + 2) as [F HF] by (exists (Z.to_nat (late + 2)); apply Z2Nat.id; by vm_compute).
  destruct (lone_run m (late - 1) ltac:(unfold late; lia) F 1 0 st3 ltac:(unfold late; lia) ltac:(lia) lone3) as (st4 & E4 & H4).
  replace (late - 1 + 1) with late in H4 by lia.
  assert (run_timer_softirq nothing F (fun _ => late - 1) 0 st3 = Some st4) as Er.
  { unfold run_timer_softirq. destruct (ln_base _ _ _ lone3) as (b & Hb & Etj & _). rewrite Hb. cbn [mbind option_bind]. by rewrite Etj. }
  assert (timers_reach st4) as R4 by (apply (tr_run nothing F (fun _ => late - 1) 0 st3); [apply hiding_reach3|by intros e st N due _|done]).
  destruct (ln_base _ _ _ H4) as (b & Hb & _). destruct (start2 st4 b H4 Hb) as (b' & E5 & Etj & En & Hs).
  eexists _, b'. split; [apply (tr_op (OpModPinned env 2 e2) st4); [done|split; [by vm_compute|by exists b]|exact E5]|].
  split; [apply lookup_insert_eq|]. split; [done|]. split; [done|]. split; [apply lookup_insert_eq|].
  cbn [tl set_timer set_base]. rewrite (ln_tl _ _ _ H4). by apply search2.
Qed.
End timer_hiding.

(** ** Theorems *)

(** C7. The search for the next event of a wheel is exact, when all times lie
    within 2^32 - 1 ticks: it ends, with a time that is not after any pending
    timer of the CPU that is not deferrable, and that is the expiry of such a
    timer or the longest sleep. *)
Theorem timer_next_exact lo hi mc st c b :
  hi - lo <= 2 ^ 32 - 1 -> nohz_reach lo hi mc st -> bases st !! c = Some b ->
  exists next, next_timer_interrupt (tl st) b = Some next /\
    (forall t l, tl st !! t = Some l -> pending l = true -> base l = c -> deferrable l = false -> time_before_eq next (fire_tick l b) = true) /\
    (next = u64 (timer_jiffies b + NEXT_TIMER_MAX_DELTA) \/
     exists t l, tl st !! t = Some l /\ pending l = true /\ base l = c /\ deferrable l = false /\ expires l = next).
Proof.
  intros Hwin Hr Hb. destruct (nohz_good lo hi Hwin mc st Hr) as [Hg Hk]. destruct (bk_next _ _ _ _ _ (kp_base _ _ _ Hk c b Hb)) as (n & _ & Hn & _ & En & _).
  destruct (search_spec lo hi Hwin st c b n Hg Hk Hb En Hn) as (E & E1 & HE & Hl & Hf). exists (u64 E). split; [done|]. split.
  - intros t l Hx Hp <- Hd. destruct (fire_tick_window lo hi Hwin st b t l n Hk En Hn Hx Hp Hd) as (x & Hw & ->). specialize (Hl t x Hw).
    destruct Hw as (l' & _ & _ & _ & _ & Hx' & _). rewrite time_before_eq_ticks by lia. lia.
  - destruct Hf as [->|(t & l & A1 & A2 & A3 & A4 & _ & A5)]; [left|right; by exists t, l]. rewrite En. destruct (u64_cases n) as (k & Ek & _).
    symmetry. apply (u64_eq _ _ k). lia.
Qed.

(** C5. How long an idle CPU sleeps, when all times lie within 2^32 - 1 ticks:
    the answer of [get_next_timer_interrupt] at tick [z] is a tick [r] from [z]
    on; no timer of the wheel that may wake up the CPU is due before [r], unless
    [r] is [z] itself; and when high resolution mode is off, [r] is less than two
    ticks after any high resolution timer of the CPU. *)
Theorem idle_sleep_safe lo hi mc allowed handler st hr c b cb z :
  hi - lo <= 2 ^ 32 - 1 -> nohz_reach lo hi mc st -> reach allowed mc handler hr -> clocks_sane mc ->
  bases st !! c = Some b -> cpus hr !! c = Some cb -> lo <= z <= hi ->
  exists r st' hr', get_next_timer_interrupt mc c (u64 z) st hr = Some (u64 r, st', hr') /\ z <= r <= hi + 2 ^ 30 /\
    (forall t l, tl st !! t = Some l -> pending l = true -> base l = c -> deferrable l = false ->
       r = z \/ time_before_eq (u64 r) (fire_tick l b) = true) /\
    (hres_active cb = false -> z < r ->
     forall i t x, tm hr !! t = Some x -> hrtimer_is_queued x = true -> Hrtimer.base x = Some (c, i) ->
       exists j, (reads hr <= j < reads hr')%nat /\
         (r - z - 2) * TICK_NSEC < Z.max 0 (ktime_sub (Hrtimer.expires x) (clock_at mc i j))).
Proof.
  intros Hwin Hr Hhr Hs Hb Hcb Hz. destruct (nohz_good lo hi Hwin mc st Hr) as [Hg Hk]. destruct (hr_reach_good allowed mc handler hr Hhr) as [[Q HQ] _].
  destruct (bk_next _ _ _ _ _ (kp_base _ _ _ Hk c b Hb)) as (n & _ & Hn & _ & En & _).
  destruct (wheel_next_spec lo hi Hwin st c b n Hg Hk Hb En Hn) as (v & Ev & Hv & Hl).
  unfold get_next_timer_interrupt. rewrite Hb. cbn [mbind option_bind]. fold (wheel_next st b). rewrite Ev. cbn [mbind option_bind].
  rewrite time_before_eq_ticks by lia. destruct (Z.leb_spec v z).
  { eexists z, _, hr. split; [done|]. split; [lia|]. split; [by left|]. intros _ Hlt. lia. }
  destruct (cmp_next_spec lo hi Hwin mc Q c cb z v hr Hs HQ Hcb Hz Hv ltac:(lia)) as (r & k & -> & Hrv & Hhr'). cbn [mbind option_bind].
  eexists r, _, _. split; [done|]. split; [lia|]. split; [|intros Hres _; by apply Hhr'].
  intros t l Hx Hp <- Hd. right. destruct (fire_tick_window lo hi Hwin st b t l n Hk En Hn Hx Hp Hd) as (x & Hw & ->). specialize (Hl t x Hw).
  destruct Hw as (l' & _ & _ & _ & _ & Hx' & _). rewrite time_before_eq_ticks by lia. lia.
Qed.

(** C39. Beyond 2^32 - 1 ticks the search fails: a timer for a later time is put on
    a list for an earlier one, the search stops there with the longest sleep, and
    the CPU sleeps past another timer of its wheel. *)
Theorem idle_sleep_hidden_timer :
  exists st hr b l r st' hr', timers_reach st /\ reach any_op hrtimer_demo.mc hrtimer_demo.quiet_handler hr /\
    bases st !! 0 = Some b /\ tl st !! 2%nat = Some l /\ pending l = true /\ base l = 0 /\ deferrable l = false /\
    get_next_timer_interrupt hrtimer_demo.mc 0 (timer_jiffies b - 1) st hr = Some (r, st', hr') /\ time_before (fire_tick l b) r = true.
Proof.
  destruct timer_hiding.hidden as (st & b & Hr & Hb & Etj & En & Hl & E). unfold get_next_timer_interrupt.
  eexists st, hrtimer_demo.booted, b, _, (timer_hiding.late + NEXT_TIMER_MAX_DELTA), _, _. split; [done|].
  split; [apply reach_boot; unfold KTIME_MAX; lia|]. split; [done|]. split; [done|]. do 3 (split; [done|]). split.
  - rewrite Hb. cbn [mbind option_bind]. rewrite En, Etj. change (time_before_eq 0 timer_hiding.late) with true. cbn iota. cbn [mbind option_bind]. rewrite E.
    cbn [mbind option_bind]. change (time_before_eq (timer_hiding.late + NEXT_TIMER_MAX_DELTA) (timer_hiding.late - 1)) with false. cbn iota.
    replace (cmp_next_hrtimer_event _ _ _ _ _) with (Some (timer_hiding.late + NEXT_TIMER_MAX_DELTA, hrtimer_demo.booted)) by by vm_compute.
    reflexivity.
  - unfold fire_tick. rewrite Etj. by vm_compute.
Qed.

(** A time is converted to enough ticks, and to fewer than two too many. *)
Theorem timespec_to_jiffies_rounds_up ns :
  0 <= ns <= 2 ^ 30 * TICK_NSEC ->
  ns <= timespec_to_jiffies (ns_to_timespec ns) * TICK_NSEC < ns + 2 * TICK_NSEC.
Proof.
  intros Hns. pose proof (proj1 conversion_values) as HT. assert (0 <= ns <= KTIME_MAX) as Hk by (unfold KTIME_MAX; lia).
  destruct (timespec_to_jiffies_up ns _ Hk eq_refl) as (H1 & H2 & _). lia.
Qed.

(** C40. A time in the future rounded to a whole second, skewed by three ticks for
    each CPU, stays in the future and moves back by less than a quarter of a
    second and forward by at most one; it is left alone only where rounding down
    would put it into the past. Rounding up always moves it forward. The relative
    variants give the same times. *)
Theorem round_jiffies_future j0 jif d cpu :
  0 <= cpu -> 0 <= j0 <= jif -> jif < j0 + d -> HZ <= j0 + d -> j0 + d + 3 * cpu + HZ < 2 ^ 64 ->
  let r := round_jiffies jif (j0 + d) cpu in
  let u := round_jiffies_up jif (j0 + d) cpu in
  jif < r /\ j0 + d - HZ / 4 < r <= j0 + d + HZ /\ (r = j0 + d \/ (r + 3 * cpu) mod HZ = 0) /\
  j0 + d < u <= j0 + d + HZ /\ (u + 3 * cpu) mod HZ = 0 /\
  round_jiffies_relative j0 jif d cpu = r - j0 /\ round_jiffies_up_relative j0 jif d cpu = u - j0.
Proof.
  intros Hc Hj Hd Hz Hmax. change HZ with 250 in *. assert (u64 (d + j0) = j0 + d) as Hu by (rewrite Z.add_comm; apply wrapu_small; lia).
  unfold round_jiffies_relative, round_jiffies_up_relative. rewrite Hu. cbn zeta. fold (round_jiffies jif (j0 + d) cpu) (round_jiffies_up jif (j0 + d) cpu).
  destruct (round_common_spec jif (j0 + d) cpu false) as (A1 & A2 & A3 & _); [lia|lia|change HZ with 250; lia|change HZ with 250; lia|].
  destruct (round_common_spec jif (j0 + d) cpu true) as (B1 & B2 & B3 & B4); [lia|lia|change HZ with 250; lia|change HZ with 250; lia|].
  fold (round_jiffies jif (j0 + d) cpu) in *. fold (round_jiffies_up jif (j0 + d) cpu) in *. specialize (B4 eq_refl). change HZ with 250 in *.
  split; [done|]. split; [done|]. split; [done|]. split; [lia|]. split; [destruct B3; [lia|done]|].
  split; apply wrapu_small; lia.
Qed.

(** ** Examples *)

Module timer_idle_demo.
(** CPU 0 at tick 1000 with a timer for tick 1500; high resolution mode is off,
    and there is a high resolution timer for 0.1s from now on. *)
Definition mc : machine := {| ktime_get n := Z.min KTIME_MAX (100000 * Z.of_nat n); ktime_get_real n := Z.min KTIME_MAX (100000 * Z.of_nat n); set_next_event _ _ _ := 0 |}.
Definition env : cpu_env := CpuEnv 0 false false (-1) 1000 (fun _ => 0).
Definition st0 : timers := (init_timers_cpu 0 1000 true {| tl := ∅; bases := ∅; calls := [] |}).2.
Definition st1 : timers := default st0 (run_op (OpInit 0 3 false (Some 7) 42 0) st0).
Definition st2 : timers := default st0 (run_op (OpModPinned env 3 1500) st1).
Definition hr0 : hrtimers := boot [0] 4000000 hrtimer_demo.dev.
Definition hr1 : hrtimers := default hr0 (Hrtimer.run_op mc (Hrtimer.OpInit 0 1 CLOCK_MONOTONIC HRTIMER_MODE_ABS) hr0).
Definition hr2 : hrtimers := default hr0 (Hrtimer.run_op mc (OpStart (hrtimer_demo.cpu 0) 1 100000000 0 HRTIMER_MODE_ABS) hr1).

Lemma idle_reach2 : nohz_reach 0 100000 mc st2.
Proof.
  apply (nr_op _ _ _ (OpModPinned env 3 1500) st1); [|split; [lia|by eexists]|by exists 1500|vm_compute; reflexivity].
  apply (nr_op _ _ _ (OpInit 0 3 false (Some 7) 42 0) st0); [|cbn; lia|done|vm_compute; reflexivity].
  apply (nr_cpu _ _ _ _ 0 1000 true); [constructor|lia|by exists 1000|]. intros t l. cbn. by rewrite lookup_empty.
Qed.

Lemma idle_hr_reach2 : reach any_op mc hrtimer_demo.quiet_handler hr2.
Proof.
  apply (reach_step _ _ _ hr1).
  - apply (reach_step _ _ _ hr0); [apply reach_boot; unfold KTIME_MAX; lia|].
    apply (step_op _ _ _ (Hrtimer.OpInit 0 1 CLOCK_MONOTONIC HRTIMER_MODE_ABS)); [done|vm_compute; reflexivity].
  - apply (step_op _ _ _ (OpStart (hrtimer_demo.cpu 0) 1 100000000 0 HRTIMER_MODE_ABS)); [done|vm_compute; reflexivity].
Qed.

Lemma idle_mc_sane : clocks_sane mc.
Proof. intros i n. unfold clock_at, KTIME_MAX. cbn. unfold KTIME_MAX. case_if; lia. Qed.

Definition t3 : timer_list := TimerList true 1500 0 false (Some 7) 42 (-1).

Lemma timer_next_exact_witness : exists b, bases st2 !! 0 = Some b /\ next_timer_interrupt (tl st2) b = Some 1500.
Proof.
  assert (exists b, bases st2 !! 0 = Some b /\ timer_jiffies b = 1000) as (b & Hb & Htj) by (eexists; split; vm_compute; reflexivity).
  exists b. split; [exact Hb|]. destruct (timer_next_exact 0 100000 mc st2 0 b ltac:(lia) idle_reach2 Hb) as (next & E & Hle & Hor).
  assert (Hone : time_before_eq next (fire_tick t3 b) = true) by (apply (Hle 3%nat); [vm_compute; reflexivity|reflexivity..]).
  rewrite E. f_equal. unfold fire_tick in Hone. rewrite Htj in Hone. destruct Hor as [->|(t & l & Hl & _ & _ & _ & <-)].
  - exfalso. rewrite Htj in Hone. revert Hone. vm_compute. discriminate.
  - assert (Ht : t = 3%nat).
    { destruct (decide (t = 3%nat)) as [|Hne]; [assumption|]. exfalso. assert (Hm : tl st2 = <[3%nat := t3]> ∅) by (vm_compute; reflexivity).
      rewrite Hm, lookup_insert_ne, lookup_empty in Hl by congruence. discriminate. }
    subst t. assert (Hl3 : tl st2 !! 3%nat = Some t3) by (vm_compute; reflexivity). rewrite Hl3 in Hl. injection Hl as <-. reflexivity.
Defined.

Lemma idle_sleep_safe_witness : exists r st' hr',
  get_next_timer_interrupt mc 0 (u64 1000) st2 hr2 = Some (u64 r, st', hr') /\ (r = 1000 \/ time_before_eq (u64 r) 1500 = true).
Proof.
  assert (exists b, bases st2 !! 0 = Some b /\ timer_jiffies b = 1000) as (b & Hb & Htj) by (eexists; split; vm_compute; reflexivity).
  assert (exists cb, cpus hr2 !! 0 = Some cb /\ hres_active cb = false) as (cb & Hcb & _) by (eexists; split; vm_compute; reflexivity).
  destruct (idle_sleep_safe 0 100000 mc any_op hrtimer_demo.quiet_handler st2 hr2 0 b cb 1000 ltac:(lia) idle_reach2 idle_hr_reach2 idle_mc_sane Hb Hcb ltac:(lia))
    as (r & st' & hr' & E & _ & Hw & _).
  exists r, st', hr'. split; [exact E|]. destruct (Hw 3%nat t3) as [Hr|Hr]; [vm_compute; reflexivity|reflexivity..|left; exact Hr|right].
  unfold fire_tick in Hr. rewrite Htj in Hr. exact Hr.
Defined.

Lemma timespec_to_jiffies_rounds_up_witness : 100000000 <= timespec_to_jiffies (ns_to_timespec 100000000) * TICK_NSEC.
Proof. apply (timespec_to_jiffies_rounds_up 100000000). vm_compute. split; discriminate. Defined.

Lemma round_jiffies_future_witness : 1000 < round_jiffies 1000 1500 2 /\ 1500 < round_jiffies_up 1000 1500 2.
Proof.
  destruct (round_jiffies_future 1000 1000 500 2) as (H1 & _ & _ & H2 & _); [lia|lia|lia|vm_compute; discriminate|vm_compute; reflexivity|].
  split; [exact H1|apply H2].
Defined.
End timer_idle_demo.
